(* ===== verification/_CoqProject ===== *)
-Q . S2P
Prelude.v
Str.v
Utf8.v
Bytes.v
F64.v
Net.v
Hujson.v
AclModel.v
AclEval.v
AclDiff.v
Coord.v
RelayFrame.v
RelayServer.v
MeshIpam.v
PeerMap.v
Tunnel.v
AuditLog.v
Jobs.v
Stun.v
Flow.v
Alert.v
RateLimit.v
Ipam.v
License.v
Proxy.v
Vault.v
Backup.v
BackupStore.v
Enroll.v
Baseline.v
Path.v
Text.v
Fs.v
Upload.v
Redact.v
Cache.v
Overlay.v
RemoteFs.v
Transfer.v
Dns.v
Notify.v
Terminal.v
Patch.v
Auth.v
AuthFlow.v
Broadcast.v
Pkg.v
Winget.v
Monitor.v
Oidc.v
Web.v
RedisLimit.v
Cursor.v
Desktop.v
Remedy.v
Workload.v
Proxmox.v
Vmware.v
Explorer.v
RemoteWs.v
Attestation.v
