(* ===== verification/Prelude.v ===== *)
(** * RUNESH: a verification library

    RUNESH is a workspace of Rust crates for IT management: a WireGuard mesh with its
    coordination server, access policies and relay, and the services around it (audit log,
    agent jobs, monitoring, flow collection, address management, licenses, a reverse proxy,
    a vault, backups, enrollment and attestation, baselines, authentication, remote files,
    terminals and desktops, an overlay file system, notifications, names, patch rollouts,
    uploads and broadcasts, package managers and a package source, drivers of
    hypervisors).  This library translates the logic of the crates below into Rocq
    definitions and proves what makes them correct.

    ** The program and how its parts interact

    A policy document is HuJSON text.  [runesh-acl] turns it into JSON, checks it and
    evaluates access requests.  The coordination server ([runesh-coord]) keeps the
    registered nodes, validates the tags they ask for against the policy, and builds for
    each node the map of the peers it may reach and the packet filter that goes with it.
    Nodes get their addresses from a tenant's pool, keep their peers in a peer map and send
    packets through WireGuard tunnels ([runesh-mesh]).  Two nodes that cannot reach each
    other directly find their public addresses with STUN ([runesh-stun]) or send through a
    relay ([runesh-relay]), which authenticates its clients and asks a forwarding policy
    for each packet.  The other crates are independent services.  Within the backup crate the
    collector and the retention work on any implementation of the trait [BackupStore], of
    which there are two.  In the remote crate the transfer of files and the terminal
    sessions use the path policy of the explorer, and a WebSocket connection authorizes,
    carries out and logs the requests for all three; the cache and the overlay of the virtual
    file system share its errors; the handlers of the authentication crate issue and read
    the tokens and cookies that its middleware checks, after the exchange of a code with an
    identity provider whose keys its verifier caches.  The scheduler of the monitor runs the
    checks and feeds the alerts; the remediator of baselines repairs what the checker finds
    in the state the collector reads; the sessions of a shared desktop use the cursors that
    say who has control; the drivers of hypervisors pass their errors through the redaction
    of the workload crate.

    ** Files

    Shared: [Prelude] (results, faults, loops that stop at an error, reachability, machine
    integers, bytes, lists), [Str] and [Utf8] (strings of the standard library), [Bytes]
    (reads from a buffer), [F64] (binary64), [Net] (addresses of [std::net] and the
    interface of the ipnet crate), [Path] ([std::path] on Unix), [Text] (lines, words and
    columns of printed text, the order of strings), [Fs] (a disk whose calls can fail, in the
    monad [act]).

    - [Hujson]: [runesh-acl/src/hujson.rs, error.rs], the tokenizer as one [step] per
      character.
    - [AclModel]: [runesh-acl/src/model.rs], the policy, its parsers, group resolution and
      [validate].
    - [AclEval]: [runesh-acl/src/eval.rs], rule matching, the evaluator, the SSH evaluator.
    - [AclDiff]: [runesh-acl/src/diff.rs].
    - [Coord]: [runesh-coord/src/mapper.rs, types.rs, error.rs].
    - [RelayFrame]: [runesh-relay/src/frame.rs, error.rs].
    - [RelayServer]: [runesh-relay/src/server.rs].  The accept loop, the handshake, the read
      loop, the write task and the clean-up of every connection are the rules of one step
      relation on the shared state, so all their interleavings are covered.
    - [MeshIpam], [PeerMap], [Tunnel]: [runesh-mesh/src/ipam.rs, peer.rs, tunnel.rs].
    - [AuditLog]: [runesh-audit/src/lib.rs].
    - [Jobs]: [runesh-jobs/src/task.rs, executor.rs].
    - [Stun]: [runesh-stun/src/client.rs, lib.rs].
    - [Flow]: [runesh-flow/src/netflow.rs, lib.rs].
    - [Alert]: [runesh-monitor/src/alert.rs] and the check results it reads.
    - [Monitor]: [runesh-monitor/src/check.rs, scheduler.rs], the checks as programs over a
      world that answers them, and the scheduler.
    - [RateLimit], [RedisLimit]: [runesh-core/src/rate_limit.rs], the in-memory limiter, and
      the one in Redis with its script and the middleware.
    - [Ipam]: [runesh-ipam/src/lib.rs].
    - [License]: [runesh-license/src/lib.rs].
    - [Proxy]: [runesh-proxy/src/config.rs, router.rs, error.rs], the table of published
      resources, its validation and the routing decision.
    - [Vault]: [runesh-vault/src/lib.rs, entry.rs], sealed secrets and typed entries.
    - [Backup]: [runesh-backup/src/lib.rs], chunks, the retention policy, the repository.
    - [BackupStore]: [runesh-backup/src/store.rs].  The trait is the class [BackupStore],
      what it promises the class [StoreLaws]; the clients are proved against the second,
      and [InMemoryLaws] and [FileLaws] discharge it for the two stores.
    - [Enroll]: the enrollment token of [runesh-mdm/src/lib.rs], with its counter as a step
      relation on concurrent calls.
    - [Attestation]: [runesh-mdm/src/attestation.rs], the parser of key attestations.
    - [Baseline], [Remedy]: [runesh-baseline/src/lib.rs, checker.rs] and [collector.rs,
      remediator.rs].
    - [Upload]: [runesh-core/src/upload.rs], [save_upload] over the disk.
    - [Redact], [Workload]: [runesh-workload/src/lib.rs], the redaction and the host check,
      and the data of the drivers with the HTTP requests they make, in a monad over the
      history of what was sent and waited.
    - [Proxmox], [Vmware]: [runesh-proxmox/src/lib.rs], [runesh-vmware/src/lib.rs].
    - [Cache], [Overlay]: [runesh-vfs/src/cache.rs, overlay.rs, error.rs] and the entries of
      [provider.rs].
    - [RemoteFs], [Explorer]: [runesh-remote/src/fs/security.rs, explorer.rs, archive.rs],
      over a tree with symbolic links.
    - [Transfer]: [runesh-remote/src/fs/transfer.rs].
    - [Terminal]: [runesh-remote/src/cli/session.rs] and the start of a shell in [pty.rs];
      [open] is two steps, as it takes the lock twice.
    - [RemoteWs]: [runesh-remote/src/handlers.rs, protocol.rs, auth.rs, cli/audit.rs].  The
      upload manager is the class [Uploads], which [Transfer] implements.
    - [Cursor], [Desktop]: [runesh-desktop/src/cursor.rs], and [session.rs, handlers.rs,
      protocol.rs, auth.rs, clipboard.rs, error.rs]; the steps of connections interleave.
    - [Pkg], [Winget]: [runesh-pkg], [runesh-winget].
    - [Dns]: [runesh-dns/src/lib.rs].
    - [Notify]: [runesh-notify/src/lib.rs, webhook.rs].
    - [Patch]: [runesh-patch/src/lib.rs].
    - [Auth]: [runesh-auth/src/token.rs, session.rs, axum_middleware.rs, error.rs].
    - [AuthFlow]: [runesh-auth/src/handlers.rs, store.rs] and the session table of
      [oidc.rs].
    - [Oidc]: [runesh-auth/src/jwks.rs, oidc.rs], the verifier with its cache of keys, the
      exchange of a code, the sessions in Redis.
    - [Web]: [runesh-core/src/error.rs, middleware.rs, pagination.rs, openapi.rs, service.rs,
      shutdown.rs].
    - [Broadcast]: [runesh-core/src/ws_broadcast.rs]; [subscribe] is two steps, and the
      registry over Redis is a list of processes whose broadcasts and relays advance a step at a
      time.

    A file that has witnesses keeps the concrete data they need in a module
    [...Examples] at its end.

    ** Conventions

    A struct is a record, an enum an inductive type.  A method with [&mut self] takes the
    state and returns it with its result; [Result] is [result], a [?] is its bind.  A panic
    is [None] where the code can panic.  An integer is a [Z] with its width written out:
    [wrap] and [wadd] where the code wraps, [sat_add] and [sat_sub] where it saturates.  A
    [HashMap] is a [gmap]; a loop over one takes the order of iteration as an argument that
    enumerates the map ([iter_of]), and the theorems hold for every such order.  The clock,
    random numbers and the answers of the network are arguments.

    Crates outside the repository are type classes: their operations in one class, the
    documented behaviour a theorem relies on in another (ipnet: [IpNetApi] and [IpNetLaws];
    serde_json, SHA-256, boringtun, HMAC; the cipher, Base64 and Argon2 of the vault; the
    calendar of chrono; zstd; semver; jsonwebtoken, [Jwt] and [JwtLaws], [OidcJwt] and
    [OidcJwtLaws]; DER, [Der] and [DerLaws]; the user table of the application, [AuthStore]
    and [AuthStoreLaws]) or, where a function is all that is used, arguments (the URL parser,
    the resolver, the HTTP server, time zones).  What programs and servers answer is a
    function of what was asked of them before ([Net], and the [World] of a check, a desktop or
    a connection); what the code does to them is the history that a theorem speaks of.  A
    disk is a map from paths to contents with a list of the calls that fail; links are
    followed up to forty deep, as on Linux.  A tokio broadcast channel is the messages sent and the place
    of each receiver.  Every theorem with such a hypothesis has a
    witness that gives a concrete instance.

    ** What the theorems show

    - Access control: the tokenizer accepts a grammar of HuJSON and keeps its tokens up to
      white space and trailing commas; [validate] accepts exactly the policies with
      well-named groups and tags and no cycle of groups; group resolution computes the
      inductively defined members; the evaluator returns the action of the first rule that
      applies, and denies without one.
    - Coordination: which peers, profiles and filter rules the map of a node has, in terms of
      what the evaluator allows at the ends of the port ranges of the policy; tags are granted
      only to their owners; the compiled port ranges are characterised, with the case in which
      they are not exact.
    - Relay: frames round trip; in every reachable state a registered client is a live
      connection that proved its key, and a packet is queued for it only if the policy admits
      its sender; authentication accepts exactly the right proofs; what one packet does to the
      queues and counters; how reconnection interacts with clean-up.
    - Mesh: allocation returns a free address whenever there is one, tenants are disjoint,
      the address index agrees with the peers, routes are most specific, datagrams go to
      the tunnel of their receiver index.
    - Services: two audit logs that verify and end in the same hash agree, or exhibit a
      collision of the hash; the log verifies after any sequence of appends and is found
      again by a reload; a job runs a
      process only when the allowlist and the verifier accept it; idempotency keys; STUN
      and NetFlow messages round trip and their parsers do not panic; the limiter admits at
      most its quota in any window; seats are not oversold.
    - Proxy: a request gets the decision of its case and never a panic; forwarded requests
      go round the healthy backends; validation accepts exactly the configurations whose
      backends and headers are acceptable; loopback and link-local IPv4 addresses are
      refused whatever scheme, user, port and path stand around them.
    - Vault: under any run of put, delete and key rotation a vault is a map of plain
      texts; an export is read back by a vault of the same key; an import changes all or
      nothing, and what it accepts under a known tag is unchanged but for its metadata.
    - Backup: a snapshot restores to what was backed up until it is deleted or expires, where
      no two chunks of the repository collide; the retention policy keeps the newest snapshot of each period it should, and a bounded
      number; over any store the collector removes what nothing refers to and no restore
      changes.
    - Enrollment: however calls interleave, a token is used at most as often as it allows,
      and as often as there are timely calls.
    - Attestation: the parser reads back every key description that DER can write.
    - Baselines: merging lets the child override; composing terminates and reports cycles;
      a declaration is compliant exactly when the state satisfies it; a file at a plain path
      that is reported as repaired is as declared and found compliant, and repairs run only the
      programs they should.
    - Remote files: a resolved path is inside the root and no directory on the way to it is a
      link; chunks sent in any order become the file, a download yields it, and an upload is
      within the limits whatever fails; a terminal session has the shell, the directory and the
      variables that the checks let through, however requests interleave, and are bounded by the requests under way; a listing and a search
      hold what they should; on a connection every effect and answer was authorized for the
      principal of its login, and changes other than uploads are in the audit log.
    - Desktops: input is injected only for who was authenticated, authorized and consented
      to on that connection, and has control; every session and cursor belongs to one
      connection and goes with it; the clipboard and the frames stay within their bounds.
    - Hypervisors: an operation that succeeds was accepted and the task it names, if any, seen
      to be done; an operation ends after a bounded number of polls, unless the server stops
      answering; credentials go to the host of the driver only, and sessions are fresh but for
      the logout; a refused request is repeated once.
    - Packages and monitoring: which command a name reaches, that listings are read back,
      which programs a check starts, that failing checks raise their alert; only holders of the
      token change the package source.
    - Virtual file system: a write to the overlay is seen and changes nothing else, what is
      deleted is not found; the cache stays within its limit and evicts what was used least.
    - Authentication: an issued token is accepted until it expires; a route of the API is
      reached only with verified claims and, from a browser, a repeated token; the cookies
      of a login open the API; a refresh token works once, whatever requests follow; the
      index of pending logins is exact; the verifier accepts a token only if a key that the
      identity provider published signed it; where the subject of a login comes from.
    - Uploads: a successful one stored exactly the stream, a failed one changed no file but its
      temporary one.
    - Notifications: the URLs and addresses accepted are characterised; sending ends, with
      bounded waits and the last answer reported.
    - Broadcast: a message reaches exactly the receivers of its room, under the condition
      that no clean-up runs inside a subscription; a message published by another process
      comes once and in order to a receiver whose relay has subscribed; the rate of a client.
    - Names and rollouts: valid host names, the longest route of split DNS, rings that are
      left only when soaked and within their threshold; redaction hides every value.
    - Deviations: some theorems state what the code does where that differs from its
      documentation or its intent (for instance [reader_end_keeps_connection],
      [failed_sync_breaks_file], [resolved_masks_failures], [ssrf_bracketed_accepted],
      [import_revives_expired], [leftover_blocks_gc], [compose_grandparent_wins],
      [forbidden_rules_pass], [dangling_link_escapes], [write_after_delete_resurrects],
      [forged_csrf_passes], [login_locked_out], [backoff_collapses], [own_message_echoed],
      [relay_exits_early], [refused_token_logs_in], [viewer_takes_control],
      [any_session_typed], [search_finds_blocked], [id_is_a_path], [long_level_cut]).

    ** Fuel

    Fourteen recursions are not structural.  Group expansion and the cycle check run with one
    more than the number of declared groups, enough because the groups on a path are
    distinct.  The search of [MeshIpam.allocate] runs for a turn over the 1022 offsets of a
    block.  The attribute loop of a STUN message runs with one more than the length of the
    message, each attribute taking at least four bytes.  Draining a tunnel runs once more than it has
    queued packets, by the interface's law that each call hands out one.  Chunking runs with
    the length of the data, each chunk taking at least a byte; climbing to the ancestors of
    a baseline with one more than the number of known baselines, each being visited once;
    replacing in a string with one more than its length.  Redaction runs with the length of
    the text, each round taking a character; the routes of split DNS with one more than the
    length of the name, each round dropping a label; the attempts of a webhook with one more
    than [retry_count]; a download with one call more than its chunks; the polling of a task
    with one more than twice its seconds, each round pausing half a second; the copy of a
    directory with the depth to which the system nests directories, beyond which the call
    itself fails, as the copy of a directory into itself does.  Each bound but the last, which
    is a limit of the system, is proved enough ([resolve_group_spec], [allocate_spec], [parse_binding_response_safe],
    [decapsulate_total], [chunk_data_spec], [compose_spec], [replace_fuel_enough],
    [redact_fuel], [servers_for_longest], [send_with_retry_spec], [download_whole],
    [operations_end]).  [decode_stream], a loop over [decode_frame] with one step of
    fuel per frame, serves the statement of the stream round trip.

    ** What is not modelled

    Cryptography, sockets, tokio tasks, serde's encodings and the file system, except as
    the interfaces above; the Noise transport of the coordination server (the snow crate); the
    key types of the mesh crate; the delays of job retries (random, in floating point); the
    files alerts are kept in; the current TOTP code of a vault entry; content-defined
    chunking and the directory scan; device profiles; the device identity of the
    authentication crate; the mount registry and the platform layers of the virtual file system; the
    pseudo-terminal itself, and the one that runs as another user of Windows; screen capture,
    codecs, audio, input injection and the WebRTC transport of desktops; email; the DNS
    resolver; the metrics and pools of the core crate.  The remaining crates are clients of
    external services and of operating systems (Docker, Hyper-V, appliances, the inventory,
    the network device, error reporting), which mostly pass on what those answer; the RDP
    client, whose protocol is not in the repository; user interfaces and the command line,
    which writes project templates; and the asset table. *)
From Stdlib.Strings Require Export Byte.
From stdpp Require Export base gmap sets list strings pretty.
From Stdlib Require Export ZArith Lia Sorting.Sorted.

#[local] Open Scope Z_scope.

(** ** Automation *)

Create HintDb rust discriminated.
Create Rewrite HintDb rust_simpl.

(** [bool_prop]: turns the boolean comparisons of the code into propositions. *)
Ltac bool_prop :=
  repeat match goal with
  | H : _ && _ = true |- _ => apply andb_true_iff in H; destruct H
  | H : _ || _ = false |- _ => apply orb_false_iff in H; destruct H
  | H : negb _ = true |- _ => apply negb_true_iff in H
  | H : negb _ = false |- _ => apply negb_false_iff in H
  | H : (_ =? _) = true |- _ => apply Z.eqb_eq in H
  | H : (_ =? _) = false |- _ => apply Z.eqb_neq in H
  | H : (_ <? _) = true |- _ => apply Z.ltb_lt in H
  | H : (_ <? _) = false |- _ => apply Z.ltb_ge in H
  | H : (_ <=? _) = true |- _ => apply Z.leb_le in H
  | H : (_ <=? _) = false |- _ => apply Z.leb_gt in H
  | H : bool_decide _ = true |- _ => apply bool_decide_eq_true in H
  | H : bool_decide _ = false |- _ => apply bool_decide_eq_false in H
  end.

(** [case_if]: splits on the condition of the first [if] on a boolean of the goal
    or of a hypothesis and reads the condition as a proposition. *)
Ltac case_if :=
  match goal with
  | |- context [if ?b then _ else _] => let E := fresh "Hif" in destruct b eqn:E
  | _ : context [if ?b then _ else _] |- _ => let E := fresh "Hif" in destruct b eqn:E
  end; bool_prop.

(** ** Results: Rust's [Result<A, E>] *)

Inductive result (E A : Type) : Type :=
  | Ok (a : A)
  | Err (e : E).
Arguments Ok {E A} a.
Arguments Err {E A} e.

#[global] Instance result_ret {E} : MRet (result E) := fun A a => Ok a.
#[global] Instance result_bind {E} : MBind (result E) := fun A B f m =>
  match m with Ok a => f a | Err e => Err e end.

Definition is_ok {E A} (r : result E A) : bool :=
  match r with Ok _ => true | Err _ => false end.

(** [Result::ok]: the success value as an [Option]. *)
Definition ok {E A} (r : result E A) : option A :=
  match r with Ok a => Some a | Err _ => None end.

(** [Option::ok_or_else]. *)
Definition ok_or {E A} (e : E) (o : option A) : result E A :=
  match o with Some a => Ok a | None => Err e end.

(** A [for] loop over a slice whose body may return early with an error. *)
Fixpoint try_for {E A S : Type} (f : A -> S -> result E S) (l : list A) (s : S) : result E S :=
  match l with
  | [] => Ok s
  | x :: l' => match f x s with Ok s' => try_for f l' s' | Err e => Err e end
  end.

Lemma bind_ok_inv {E A B} (m : result E A) (f : A -> result E B) (b : B) :
  (m ≫= f) = Ok b -> exists a, m = Ok a /\ f a = Ok b.
Proof. destruct m as [a|e]; cbn; [eauto | done]. Qed.

Lemma bind_unit_ok {E B} (m : result E unit) (k : result E B) (b : B) :
  (_ ← m; k) = Ok b <-> m = Ok tt /\ k = Ok b.
Proof. destruct m as [[]|e]; cbn; naive_solver. Qed.

Lemma ok_or_ok {E A} (e : E) (o : option A) (a : A) : ok_or e o = Ok a <-> o = Some a.
Proof. destruct o; cbn; split; congruence. Qed.

Lemma try_for_app {E A S} (f : A -> S -> result E S) l1 l2 s :
  try_for f (l1 ++ l2) s = (try_for f l1 s ≫= try_for f l2).
Proof.
  revert s. induction l1 as [|x l1 IH]; intros s; cbn; [done|].
  destruct (f x s); cbn; [apply IH | done].
Qed.

Lemma try_for_cons {E A S} (f : A -> S -> result E S) x l s :
  try_for f (x :: l) s = (f x s ≫= try_for f l).
Proof. cbn. by destruct (f x s). Qed.

(** Loops with an invariant [I] of the state: it holds at the end, every iteration started
    in it, and an error is the error of some iteration started in it. *)
Section TryFor.
Context {E A S : Type} (f : A -> S -> result E S) (I : S -> Prop).

Lemma try_for_inv_ok l s s' :
  (forall x s1 s2, x ∈ l -> I s1 -> f x s1 = Ok s2 -> I s2) -> I s ->
  try_for f l s = Ok s' -> I s' /\ forall x, x ∈ l -> exists s1 s2, I s1 /\ f x s1 = Ok s2.
Proof.
  revert s. induction l as [|x l IH]; intros s Hf HI; cbn.
  - intros [= <-]. split; [done|]. by intros x ?%not_elem_of_nil.
  - destruct (f x s) as [s1|e] eqn:E1; [|done].
    assert (I s1) as HI1 by (eapply Hf; [constructor | done..]).
    intros Hl. destruct (IH s1) as [HI' Hall]; [intros; eapply Hf; [by constructor|done..]|done..|].
    split; [done|]. intros y [-> | Hy]%elem_of_cons; eauto.
Qed.

Lemma try_for_inv_err l s e :
  (forall x s1 s2, x ∈ l -> I s1 -> f x s1 = Ok s2 -> I s2) -> I s ->
  try_for f l s = Err e -> exists x s1, x ∈ l /\ I s1 /\ f x s1 = Err e.
Proof.
  revert s. induction l as [|x l IH]; intros s Hf HI; cbn; [done|].
  destruct (f x s) as [s1|e1] eqn:E1.
  - assert (I s1) as HI1 by (eapply Hf; [constructor | done..]).
    intros Hl. destruct (IH s1) as (y & s2 & Hy & Hfy);
      [intros; eapply Hf; [by constructor|done..] | done.. |].
    exists y, s2. split; [by constructor | done].
  - intros [= ->]. exists x, s. split; [constructor | done].
Qed.

End TryFor.

(** A loop whose successful iterations leave the state alone. *)
Lemma try_for_const_ok {E A S} (f : A -> S -> result E S) l s s' :
  (forall x s', x ∈ l -> f x s = Ok s' -> s' = s) ->
  try_for f l s = Ok s' -> s' = s /\ forall x, x ∈ l -> f x s = Ok s.
Proof.
  intros Hf Hl. apply (try_for_inv_ok f (fun s1 => s1 = s)) in Hl as [-> Hall]; [| |done].
  - split; [done|]. intros x Hx. destruct (Hall x Hx) as (s1 & s2 & -> & E2).
    by rewrite <- (Hf x s2 Hx E2) at 2.
  - intros x s1 s2 Hx ->. by apply Hf.
Qed.

Lemma try_for_const_err {E A S} (f : A -> S -> result E S) l s e :
  (forall x s', x ∈ l -> f x s = Ok s' -> s' = s) ->
  try_for f l s = Err e -> exists x, x ∈ l /\ f x s = Err e.
Proof.
  intros Hf Hl. apply (try_for_inv_err f (fun s1 => s1 = s)) in Hl as (x & s1 & Hx & -> & Ex);
    [by exists x| |done].
  intros x s1 s2 Hx ->. by apply Hf.
Qed.

Lemma try_for_ext {E A S} (f g : A -> S -> result E S) l : forall s,
  (forall x s, x ∈ l -> f x s = g x s) -> try_for f l s = try_for g l s.
Proof.
  induction l as [|x l IH]; intros s Hfg; cbn; [done|]. rewrite Hfg by (by left).
  destruct (g x s); [|done]. apply IH. intros y s' Hy. apply Hfg. by right.
Qed.

(** A loop that only checks. *)
Lemma try_for_unit {E A} (f : A -> unit -> result E unit) l :
  try_for f l tt = Ok tt <-> forall x, x ∈ l -> f x tt = Ok tt.
Proof.
  induction l as [|x l IH]; cbn.
  - split; [intros _ x Hx; by apply not_elem_of_nil in Hx|done].
  - destruct (f x tt) as [[]|e] eqn:Ex.
    + rewrite IH. split; [intros H y [->|Hy]%elem_of_cons; auto|]. intros H y Hy. apply H. by right.
    + split; [done|]. intros H. specialize (H x ltac:(by left)). congruence.
Qed.

(** Fuel: a recursion that is not structural reports [OutOfFuel] as a value of its own,
    next to the errors of the code. *)
Inductive fault (E : Type) : Type :=
  | Fails (e : E)
  | OutOfFuel.
Arguments Fails {E} e.
Arguments OutOfFuel {E}.

(** ** Machine integers

    A [uN] value is an integer of [Z] in [0, 2^N); the arithmetic of the code wraps
    around (the release profile) unless it names a saturating operation. *)

Definition is_u (w : Z) (z : Z) : Prop := 0 <= z < 2 ^ w.
Definition wrap (w : Z) (z : Z) : Z := z mod 2 ^ w.
Definition wadd (w : Z) (a b : Z) : Z := wrap w (a + b).
Definition sat_add (w : Z) (a b : Z) : Z := Z.min (a + b) (2 ^ w - 1).
Definition sat_sub (a b : Z) : Z := Z.max (a - b) 0.

Lemma wrap_range w z : 0 <= w -> is_u w (wrap w z).
Proof. intros Hw. unfold is_u, wrap. apply Z.mod_pos_bound. lia. Qed.

Lemma wrap_small w z : is_u w z -> wrap w z = z.
Proof. intros H. unfold wrap. apply Z.mod_small. exact H. Qed.

Lemma wadd_small w a b : 0 <= a -> 0 <= b -> a + b < 2 ^ w -> wadd w a b = a + b.
Proof. intros. unfold wadd. apply wrap_small. unfold is_u. lia. Qed.

Lemma sat_sub_le a b : 0 <= a -> 0 <= b -> 0 <= sat_sub a b <= a.
Proof. unfold sat_sub. lia. Qed.

#[export] Hint Resolve wrap_range : rust.

(** ** Bytes and big-endian words *)

#[global] Instance byte_eq_dec : EqDecision byte := Byte.byte_eq_dec.
#[global] Program Instance byte_countable : Countable byte :=
  inj_countable Byte.to_N Byte.of_N _.
Next Obligation. apply Byte.of_to_N. Qed.

Definition b2z (b : byte) : Z := Z.of_N (Byte.to_N b).
(** [z as u8]: the low eight bits. *)
Definition z2b (z : Z) : byte := default x00 (Byte.of_N (Z.to_N (z mod 256))).

Lemma b2z_range b : 0 <= b2z b < 256.
Proof. unfold b2z. pose proof (Byte.to_N_bounded b). lia. Qed.

Lemma z2b_b2z b : z2b (b2z b) = b.
Proof.
  unfold z2b. rewrite Z.mod_small by apply b2z_range.
  unfold b2z. by rewrite N2Z.id, Byte.of_to_N.
Qed.

Lemma b2z_z2b z : b2z (z2b z) = z mod 256.
Proof.
  unfold z2b. pose proof (Z.mod_pos_bound z 256 eq_refl) as Hb.
  destruct (Byte.of_N (Z.to_N (z mod 256))) as [b|] eqn:E; cbn.
  - apply Byte.to_of_N in E. unfold b2z. rewrite E. lia.
  - apply Byte.of_N_None_iff in E. lia.
Qed.

Lemma b2z_inj a b : b2z a = b2z b -> a = b.
Proof. intros H. rewrite <- (z2b_b2z a), H. apply z2b_b2z. Qed.

(** [uN::to_be_bytes] over [n] bytes and [uN::from_be_bytes]. *)
Fixpoint to_be (n : nat) (z : Z) : list byte :=
  match n with
  | O => []
  | S n' => z2b (z / 256 ^ Z.of_nat n') :: to_be n' z
  end.

Fixpoint from_be_acc (acc : Z) (bs : list byte) : Z :=
  match bs with
  | [] => acc
  | b :: bs' => from_be_acc (acc * 256 + b2z b) bs'
  end.
Definition from_be (bs : list byte) : Z := from_be_acc 0 bs.

Lemma length_to_be n z : length (to_be n z) = n.
Proof. induction n; cbn; congruence. Qed.

Lemma from_be_acc_to_be n acc z :
  from_be_acc acc (to_be n z) = acc * 256 ^ Z.of_nat n + z mod 256 ^ Z.of_nat n.
Proof.
  revert acc. induction n as [|n IH]; intros acc; cbn [to_be from_be_acc].
  - rewrite Z.mod_1_r. cbn. lia.
  - rewrite IH, b2z_z2b, Nat2Z.inj_succ, Z.pow_succ_r by lia.
    rewrite (Z.mul_comm 256), (Z.rem_mul_r z) by lia. lia.
Qed.

Lemma from_be_to_be n z : 0 <= z < 256 ^ Z.of_nat n -> from_be (to_be n z) = z.
Proof. intros H. unfold from_be. rewrite from_be_acc_to_be, Z.mod_small; lia. Qed.

Lemma from_be_acc_bound bs acc :
  0 <= acc -> acc * 256 ^ Z.of_nat (length bs) <= from_be_acc acc bs
              < (acc + 1) * 256 ^ Z.of_nat (length bs).
Proof.
  revert acc. induction bs as [|b bs IH]; intros acc Hacc; cbn [length from_be_acc].
  - cbn. lia.
  - pose proof (b2z_range b). specialize (IH (acc * 256 + b2z b) ltac:(lia)).
    rewrite Nat2Z.inj_succ, Z.pow_succ_r by lia.
    pose proof (Z.pow_pos_nonneg 256 (Z.of_nat (length bs)) ltac:(lia) ltac:(lia)). nia.
Qed.

Lemma from_be_range bs : 0 <= from_be bs < 256 ^ Z.of_nat (length bs).
Proof. unfold from_be. pose proof (from_be_acc_bound bs 0 ltac:(lia)). lia. Qed.

Lemma from_be_acc_inj bs bs' acc acc' :
  length bs = length bs' -> from_be_acc acc bs = from_be_acc acc' bs' -> acc = acc' /\ bs = bs'.
Proof.
  revert bs' acc acc'. induction bs as [|b bs IH]; intros [|b' bs'] acc acc' Hl E; [by split|done|done|].
  cbn in E, Hl. apply IH in E as [E ->]; [|lia].
  pose proof (b2z_range b). pose proof (b2z_range b').
  assert (b2z b = b2z b') as ->%b2z_inj by lia. split; [lia|done].
Qed.

Lemma to_be_from_be n bs : length bs = n -> to_be n (from_be bs) = bs.
Proof.
  intros <-. eapply (from_be_acc_inj _ _ 0 0); [apply length_to_be|].
  apply from_be_to_be, from_be_range.
Qed.

Lemma lxor_range w a b : 0 <= w -> is_u w a -> is_u w b -> is_u w (Z.lxor a b).
Proof.
  intros Hw [Ha Ha'] [Hb Hb']. split; [by apply Z.lxor_nonneg|].
  destruct (Z.eq_dec (Z.lxor a b) 0) as [->|Hne]; [lia|].
  apply Z.log2_lt_pow2; [pose proof (proj2 (Z.lxor_nonneg a b)); lia|].
  pose proof (Z.log2_lxor a b Ha Hb) as Hlog.
  assert (Hlt : forall x, 0 <= x < 2 ^ w -> x <> 0 -> Z.log2 x < w) by (intros x ??; apply Z.log2_lt_pow2; lia).
  destruct (Z.eq_dec a 0) as [->|]; [|destruct (Z.eq_dec b 0) as [->|]].
  - rewrite Z.lxor_0_l in *. apply Hlt; lia.
  - rewrite Z.lxor_0_r in *. apply Hlt; lia.
  - pose proof (Hlt a). pose proof (Hlt b). lia.
Qed.

(** ** Collections *)

(** The order in which a [HashMap] is iterated is not specified: a definition that
    iterates one takes the order as an argument, a permutation of its bindings. *)
Definition iter_of {K V} `{Countable K} (m : gmap K V) (l : list (K * V)) : Prop :=
  l ≡ₚ map_to_list m.

Lemma iter_of_self {K V} `{Countable K} (m : gmap K V) : iter_of m (map_to_list m).
Proof. unfold iter_of. reflexivity. Qed.

Lemma iter_of_elem {K V} `{Countable K} (m : gmap K V) l k v :
  iter_of m l -> (k, v) ∈ l <-> m !! k = Some v.
Proof. intros Hl. rewrite Hl. apply elem_of_map_to_list. Qed.

Lemma list_filter_map {A B} (P : B -> Prop) `{!forall y, Decision (P y)} (f : A -> B) l :
  filter P (map f l) = map f (filter (fun x => P (f x)) l).
Proof. induction l as [|x l IH]; cbn [map]; [done|]. rewrite !filter_cons. case_decide; cbn [map]; by rewrite IH. Qed.

(** The order of the bindings that pass a test is the order of the table, filtered. *)
Lemma iter_of_filter {K V} `{Countable K} (P : K * V -> Prop) `{!forall x, Decision (P x)} (m : gmap K V) l :
  iter_of m l -> iter_of (filter P m) (filter P l).
Proof.
  intros Hl. unfold iter_of. rewrite Hl. apply NoDup_Permutation.
  - apply NoDup_filter, NoDup_map_to_list.
  - apply NoDup_map_to_list.
  - intros [k v]. rewrite list_elem_of_filter, !elem_of_map_to_list, map_lookup_filter_Some. tauto.
Qed.

Lemma filter_nil_iff {A} (P : A -> Prop) `{!forall x, Decision (P x)} l : filter P l = [] <-> forall x, x ∈ l -> ~ P x.
Proof.
  split.
  - intros E x Hx HP. assert (Hf : x ∈ filter P l) by (by apply list_elem_of_filter). rewrite E in Hf. by apply not_elem_of_nil in Hf.
  - intros Hall. destruct (filter P l) as [|x r] eqn:E; [done|].
    assert (Hf : x ∈ filter P l) by (rewrite E; by left). apply list_elem_of_filter in Hf as [HP Hx]. by destruct (Hall x Hx HP).
Qed.

(** A loop that inserts values under different keys. *)
Lemma foldl_insert_lookup {A K V} `{Countable K} (key : A -> K) (val : A -> V) (l : list A) : forall m : gmap K V,
  NoDup (map key l) ->
  (forall x, x ∈ l -> foldl (fun m x => <[key x := val x]> m) m l !! key x = Some (val x))
  /\ (forall k, k ∉ map key l -> foldl (fun m x => <[key x := val x]> m) m l !! k = m !! k).
Proof.
  induction l as [|x l IH]; intros m Hnd; [split; [intros y Hy; by apply not_elem_of_nil in Hy|done]|].
  apply NoDup_cons in Hnd as [Hni Hnd]. cbn [foldl]. destruct (IH (<[key x := val x]> m) Hnd) as [Hin Hout]. split.
  - intros y [->|Hy]%elem_of_cons; [|by apply Hin]. rewrite Hout by done. apply lookup_insert_eq.
  - intros k [Hk Hk']%not_elem_of_cons. rewrite Hout by done. by apply lookup_insert_ne.
Qed.

(** [Iterator::any] and [Iterator::all] are [existsb] and [forallb]. *)
Lemma existsb_elem {A} (f : A -> bool) l : existsb f l = true <-> exists x, x ∈ l /\ f x = true.
Proof.
  rewrite existsb_exists. split; intros (x & Hin & Hf); exists x; split; auto;
    by apply list_elem_of_In.
Qed.

Lemma existsb_elem_false {A} (f : A -> bool) l :
  existsb f l = false <-> forall x, x ∈ l -> f x = false.
Proof.
  split.
  - intros H x Hx. destruct (f x) eqn:E; [|done].
    rewrite <- H. symmetry. apply existsb_elem. eauto.
  - intros H. destruct (existsb f l) eqn:E; [|done].
    apply existsb_elem in E as (x & Hx & Hf). rewrite H in Hf; done.
Qed.

(** [slice::contains]. *)
Definition contains {A} `{EqDecision A} (l : list A) (x : A) : bool := bool_decide (x ∈ l).

Arguments contains : simpl never.

Lemma contains_true {A} `{EqDecision A} (l : list A) x : contains l x = true <-> x ∈ l.
Proof. apply bool_decide_eq_true. Qed.

(** [Iterator::filter_map]. *)
Fixpoint filter_map {A B} (f : A -> option B) (l : list A) : list B :=
  match l with
  | [] => []
  | x :: l' => match f x with Some y => y :: filter_map f l' | None => filter_map f l' end
  end.

Lemma elem_of_filter_map {A B} (f : A -> option B) l y :
  y ∈ filter_map f l <-> exists x, x ∈ l /\ f x = Some y.
Proof.
  induction l as [|a l IH]; cbn.
  - split; [by intros ?%not_elem_of_nil | intros (x & Hx & _); by apply not_elem_of_nil in Hx].
  - destruct (f a) as [b|] eqn:E; rewrite ?elem_of_cons, IH; split.
    + intros [-> | (x & Hx & Hf)]; [exists a | exists x]; split; auto; constructor; done.
    + intros (x & [-> | Hx]%elem_of_cons & Hf); [left; congruence | eauto].
    + intros (x & Hx & Hf). exists x. split; [by constructor | done].
    + intros (x & [-> | Hx]%elem_of_cons & Hf); [congruence | eauto].
Qed.

Lemma filter_map_length {A B} (f : A -> option B) l : (length (filter_map f l) <= length l)%nat.
Proof. induction l as [|x l IH]; cbn; [done|]. destruct (f x); cbn; lia. Qed.

(** Sortedness of reversed lists. *)
Lemma Sorted_snoc {A} (R : A -> A -> Prop) l x :
  Sorted R l -> (forall y, last l = Some y -> R y x) -> Sorted R (l ++ [x]).
Proof.
  induction 1 as [|a l Hs IH Ha]; intros Hx; cbn; [repeat constructor|].
  constructor.
  - apply IH. intros y Hy. apply Hx. by destruct l.
  - destruct l as [|b l]; cbn; constructor; [by apply Hx | by inversion Ha].
Qed.

Lemma Sorted_rev {A} (R : A -> A -> Prop) l : Sorted R l -> Sorted (fun a b => R b a) (rev l).
Proof.
  induction 1 as [|a l Hs IH Ha]; cbn; [constructor|]. apply Sorted_snoc; [done|].
  intros y. destruct l as [|b l]; cbn; [done|]. rewrite last_snoc. intros [= <-].
  by inversion Ha.
Qed.

(** Reflexive transitive closure of a step relation. *)
Inductive star {S : Type} (step : S -> S -> Prop) : S -> S -> Prop :=
  | star_refl s : star step s s
  | star_step s1 s2 s3 : step s1 s2 -> star step s2 s3 -> star step s1 s3.

(** Invariants by rule induction: what a step preserves holds in every reachable state. *)
Lemma star_invariant {S} (step : S -> S -> Prop) (I : S -> Prop) s s' :
  (forall a b, I a -> step a b -> I b) -> star step s s' -> I s -> I s'.
Proof. intros Hstep Hstar. induction Hstar; eauto. Qed.

Lemma star_one {S} (step : S -> S -> Prop) a b : step a b -> star step a b.
Proof. intros H. eapply star_step; [exact H | constructor]. Qed.

Lemma star_trans {S} (step : S -> S -> Prop) a b c : star step a b -> star step b c -> star step a c.
Proof. intros H. induction H; [done|]. intros Hc. eapply star_step; eauto. Qed.

(** At least one step. *)
Definition plus {S} (step : S -> S -> Prop) (a b : S) : Prop :=
  exists m, step a m /\ star step m b.

#[export] Hint Constructors star : rust.
#[export] Hint Resolve star_one star_trans : rust.
