(* ===== verification/Str.v ===== *)
(** * Strings of the Rust standard library

    A [str] is the sequence of its Unicode scalar values ([chars()]); the operations
    below are the ones the crates call, at the level of characters.  The code cuts
    strings only at ASCII characters, so a byte offset of the source and a position
    here denote the same cut.  Numbers are read as [uN::from_str] reads them. *)
From S2P Require Import Prelude.
From Stdlib Require Import Ascii.

#[local] Open Scope Z_scope.

Abbreviation char := Z (only parsing).
Abbreviation str := (list Z) (only parsing).

(** An ASCII literal of the source. *)
Definition lit (s : string) : str :=
  map (fun a => Z.of_N (N_of_ascii a)) (String.list_ascii_of_string s).

(** Characters the code tests for. *)
Definition c_quote : char := 34.
Definition c_star : char := 42.
Definition c_plus : char := 43.
Definition c_comma : char := 44.
Definition c_minus : char := 45.
Definition c_dot : char := 46.
Definition c_slash : char := 47.
Definition c_colon : char := 58.
Definition c_at : char := 64.
Definition c_lbracket : char := 91.
Definition c_backslash : char := 92.
Definition c_rbracket : char := 93.
Definition c_rbrace : char := 125.
Definition c_nl : char := 10.

(** [char::is_whitespace]: the Unicode property White_Space. *)
Definition is_whitespace (c : char) : bool :=
  ((9 <=? c) && (c <=? 13)) || (c =? 32) || (c =? 133) || (c =? 160) || (c =? 5760)
  || ((8192 <=? c) && (c <=? 8202)) || (c =? 8232) || (c =? 8233) || (c =? 8239)
  || (c =? 8287) || (c =? 12288).

(** [char::is_control]: the general category Cc. *)
Definition is_control (c : char) : bool := (c <=? 31) || ((127 <=? c) && (c <=? 159)).

Definition is_ascii_digit (c : char) : bool := (48 <=? c) && (c <=? 57).
Definition is_ascii_upper (c : char) : bool := (65 <=? c) && (c <=? 90).
Definition is_ascii_lower (c : char) : bool := (97 <=? c) && (c <=? 122).
Definition is_ascii_alphanumeric (c : char) : bool :=
  is_ascii_digit c || is_ascii_upper c || is_ascii_lower c.

Definition to_ascii_lower_char (c : char) : char := if is_ascii_upper c then c + 32 else c.
Definition to_ascii_lowercase (s : str) : str := map to_ascii_lower_char s.
Definition eq_ignore_ascii_case (a b : str) : bool :=
  bool_decide (to_ascii_lowercase a = to_ascii_lowercase b).

(** [str::len]: the length of the UTF-8 encoding. *)
Definition len_utf8 (c : char) : Z :=
  if c <? 128 then 1 else if c <? 2048 then 2 else if c <? 65536 then 3 else 4.
Fixpoint byte_len (s : str) : Z :=
  match s with [] => 0 | c :: s' => len_utf8 c + byte_len s' end.

(** [str::strip_prefix], [str::starts_with], [str::strip_suffix], [str::ends_with]. *)
Fixpoint strip_prefix (p s : str) : option str :=
  match p with
  | [] => Some s
  | c :: p' => match s with
               | [] => None
               | d :: s' => if c =? d then strip_prefix p' s' else None
               end
  end.
Definition starts_with (p s : str) : bool := bool_decide (is_Some (strip_prefix p s)).
Definition strip_suffix (p s : str) : option str :=
  (@rev Z) <$> strip_prefix (rev p) (rev s).
Definition ends_with (p s : str) : bool := bool_decide (is_Some (strip_suffix p s)).

(** [str::contains(char)]. *)
Definition contains_char (c : char) (s : str) : bool := existsb (fun d => d =? c) s.

(** The cut of [str::split_once] and of [find]: what precedes the first occurrence of a
    character and what follows it. *)
Fixpoint split_once (c : char) (s : str) : option (str * str) :=
  match s with
  | [] => None
  | d :: s' =>
      if d =? c then Some ([], s')
      else match split_once c s' with Some (a, b) => Some (d :: a, b) | None => None end
  end.

(** The cut of [rfind]: at the last occurrence. *)
Definition rsplit_once (c : char) (s : str) : option (str * str) :=
  match split_once c (rev s) with
  | Some (a, b) => Some (rev b, rev a)
  | None => None
  end.

(** [str::split(char)]: always at least one piece. *)
Fixpoint split (c : char) (s : str) : list str :=
  match s with
  | [] => [[]]
  | d :: s' =>
      if d =? c then [] :: split c s'
      else match split c s' with
           | [] => [[d]]
           | p :: ps => (d :: p) :: ps
           end
  end.

(** [str::split_once] at a string. *)
Fixpoint split_once_str (p s : str) : option (str * str) :=
  match strip_prefix p s with
  | Some r => Some ([], r)
  | None => match s with
            | [] => None
            | d :: s' => match split_once_str p s' with Some (a, b) => Some (d :: a, b) | None => None end
            end
  end.

(** [str::contains] of a string. *)
Definition contains_str (p s : str) : bool := bool_decide (is_Some (split_once_str p s)).

(** [str::replace]; the fuel is one more than the length of the string. *)
Fixpoint replace_fuel (fuel : nat) (p r s : str) : str :=
  match fuel with
  | O => s
  | S fuel => match split_once_str p s with Some (a, b) => a ++ r ++ replace_fuel fuel p r b | None => s end
  end.
Definition replace (p r s : str) : str := replace_fuel (S (length s)) p r s.

(** [str::trim_start_matches] and [str::trim_end_matches] of a character. *)
Fixpoint trim_start_matches (c : char) (s : str) : str :=
  match s with
  | [] => []
  | d :: s' => if d =? c then trim_start_matches c s' else s
  end.
Definition trim_end_matches (c : char) (s : str) : str := rev (trim_start_matches c (rev s)).

(** [str::trim]. *)
Fixpoint trim_start (s : str) : str :=
  match s with
  | [] => []
  | c :: s' => if is_whitespace c then trim_start s' else s
  end.
Definition trim_end (s : str) : str := rev (trim_start (rev s)).
Definition trim (s : str) : str := trim_end (trim_start s).

(** [char::to_digit]. *)
Definition to_digit (radix : Z) (c : char) : option Z :=
  let d :=
    if is_ascii_digit c then Some (c - 48)
    else if is_ascii_lower c then Some (c - 87)
    else if is_ascii_upper c then Some (c - 55)
    else None in
  match d with
  | Some v => if v <? radix then Some v else None
  | None => None
  end.

Fixpoint digits_val (acc : Z) (s : str) : option Z :=
  match s with
  | [] => Some acc
  | c :: s' => match to_digit 10 c with
               | Some d => digits_val (acc * 10 + d) s'
               | None => None
               end
  end.

(** [uN::from_str]: an optional plus sign, at least one decimal digit, in range. *)
Definition parse_uint (w : Z) (s : str) : option Z :=
  let ds := match s with c :: s' => if c =? c_plus then s' else s | [] => [] end in
  match ds with
  | [] => None
  | _ => match digits_val 0 ds with
         | Some v => if v <? 2 ^ w then Some v else None
         | None => None
         end
  end.

(** [Display] of an unsigned integer. *)
Definition show_uint (n : Z) : str := lit (pretty n).
(** [Display] of a signed one. *)
Definition show_int (z : Z) : str := if z <? 0 then c_minus :: show_uint (- z) else show_uint z.

(** [{:02x}] of a byte. *)
Definition hex_digit (d : Z) : char := if d <? 10 then 48 + d else 87 + d.
Definition hex02 (b : Z) : str := [hex_digit (b / 16); hex_digit (b mod 16)].

(** ** Lemmas *)

Lemma strip_prefix_spec p s r : strip_prefix p s = Some r <-> s = p ++ r.
Proof.
  revert s. induction p as [|c p IH]; intros s; cbn; [split; congruence|].
  destruct s as [|d s]; [split; congruence|].
  destruct (Z.eqb_spec c d) as [->|Hne]; [rewrite IH|]; split; intros H; try congruence.
Qed.

Lemma strip_prefix_app p r : strip_prefix p (p ++ r) = Some r.
Proof. by apply strip_prefix_spec. Qed.

Lemma starts_with_spec p s : starts_with p s = true <-> exists r, s = p ++ r.
Proof.
  unfold starts_with. rewrite bool_decide_eq_true. split.
  - intros [r Hr]. exists r. by apply strip_prefix_spec.
  - intros [r ->]. rewrite strip_prefix_app. eauto.
Qed.

Lemma strip_suffix_spec p s r : strip_suffix p s = Some r <-> s = r ++ p.
Proof.
  unfold strip_suffix. rewrite fmap_Some. split.
  - intros (x & Hx & ->). apply strip_prefix_spec in Hx.
    apply (f_equal (@rev Z)) in Hx. rewrite rev_involutive, rev_app_distr, rev_involutive in Hx.
    done.
  - intros ->. exists (rev r). rewrite rev_app_distr, strip_prefix_app, rev_involutive. done.
Qed.

Lemma split_once_spec c s a b :
  split_once c s = Some (a, b) -> s = a ++ c :: b /\ contains_char c a = false.
Proof.
  revert a b. induction s as [|d s IH]; intros a b; cbn; [done|].
  destruct (Z.eqb_spec d c) as [->|Hne].
  - intros [= <- <-]. done.
  - destruct (split_once c s) as [[a' b']|]; [|done]. intros [= <- <-].
    destruct (IH _ _ eq_refl) as [-> Hc]. split; [done|]. cbn.
    apply Z.eqb_neq in Hne. by rewrite Hne.
Qed.

Lemma split_once_none c s : split_once c s = None <-> contains_char c s = false.
Proof.
  induction s as [|d s IH]; cbn; [done|].
  destruct (d =? c); [done|]. rewrite orb_false_l, <- IH.
  destruct (split_once c s) as [[??]|]; done.
Qed.

Lemma split_once_app c a b : contains_char c a = false -> split_once c (a ++ c :: b) = Some (a, b).
Proof.
  induction a as [|d a IH]; cbn; [by rewrite Z.eqb_refl|].
  intros [Hd Ha]%orb_false_iff. by rewrite Hd, IH.
Qed.

Lemma contains_char_rev c s : contains_char c (rev s) = contains_char c s.
Proof.
  apply eq_bool_prop_intro. unfold contains_char.
  rewrite !Is_true_true, !existsb_exists.
  split; intros (x & Hin & Hx); exists x; split; auto; by apply in_rev; rewrite ?rev_involutive.
Qed.

Lemma rsplit_once_spec c s a b :
  rsplit_once c s = Some (a, b) -> s = a ++ c :: b /\ contains_char c b = false.
Proof.
  unfold rsplit_once. destruct (split_once c (rev s)) as [[x y]|] eqn:E; [|done].
  intros [= <- <-]. apply split_once_spec in E as [E Hc]. split.
  - apply (f_equal (@rev Z)) in E. rewrite rev_involutive, rev_app_distr in E. cbn in E.
    by rewrite <- app_assoc in E.
  - by rewrite contains_char_rev.
Qed.

Lemma contains_char_app c a b : contains_char c (a ++ b) = contains_char c a || contains_char c b.
Proof. apply existsb_app. Qed.

Lemma rsplit_once_app c a b : contains_char c b = false -> rsplit_once c (a ++ c :: b) = Some (a, b).
Proof.
  intros Hb. unfold rsplit_once. rewrite rev_app_distr. cbn. rewrite <- app_assoc. cbn.
  rewrite split_once_app by (by rewrite contains_char_rev). by rewrite !rev_involutive.
Qed.

Lemma rsplit_once_none c s : contains_char c s = false -> rsplit_once c s = None.
Proof. intros Hs. unfold rsplit_once. by rewrite (proj2 (split_once_none c (rev s))) by (by rewrite contains_char_rev). Qed.

Lemma split_head c a s :
  contains_char c a = false -> s = [] \/ (exists b, s = c :: b) -> head (split c (a ++ s)) = Some a.
Proof.
  intros Ha Hs. induction a as [|d a IH]; cbn.
  - destruct Hs as [->|[b ->]]; cbn; [done|]. by rewrite Z.eqb_refl.
  - apply orb_false_iff in Ha as [Hd Ha]. rewrite Hd. specialize (IH Ha).
    destruct (split c (a ++ s)) as [|p ps]; [done|]. cbn in *. congruence.
Qed.

Lemma split_once_str_some p s a b : split_once_str p s = Some (a, b) -> s = a ++ p ++ b.
Proof.
  revert a b. induction s as [|d s IH]; intros a b; cbn [split_once_str].
  - destruct (strip_prefix p []) as [r|] eqn:E; [|done]. apply strip_prefix_spec in E. by intros [= <- <-].
  - destruct (strip_prefix p (d :: s)) as [r|] eqn:E; [apply strip_prefix_spec in E; by intros [= <- <-]|].
    destruct (split_once_str p s) as [[a' b']|]; [|done]. intros [= <- <-]. cbn. f_equal. by apply IH.
Qed.

(** Any fuel above the length of the string gives the same replacement. *)
Lemma replace_fuel_enough p r s n : p <> [] -> (length s < n)%nat -> replace_fuel n p r s = replace p r s.
Proof.
  intros Hp. unfold replace.
  assert (Hgen : forall k s n m, (length s <= k)%nat -> (length s < n)%nat -> (length s < m)%nat ->
            replace_fuel n p r s = replace_fuel m p r s).
  { induction k as [|k IH]; intros s' n' m' Hk Hn Hm; (destruct n' as [|n']; [lia|]); (destruct m' as [|m']; [lia|]);
      cbn [replace_fuel]; destruct (split_once_str p s') as [[a b]|] eqn:E; try done.
    - apply split_once_str_some in E. subst s'. rewrite !length_app in Hk. destruct p; [done|cbn in Hk; lia].
    - apply split_once_str_some in E. subst s'. rewrite !length_app in *. destruct p; [done|]. cbn [length] in *.
      do 2 f_equal. apply IH; lia. }
  intros Hn. apply (Hgen (length s)); lia.
Qed.

Lemma split_once_str_app c p a b :
  contains_char c a = false -> split_once_str (c :: p) (a ++ (c :: p) ++ b) = Some (a, b).
Proof.
  induction a as [|d a IH]; intros Ha.
  - cbn [app]. unfold split_once_str; fold split_once_str.
    change (c :: p ++ b) with ((c :: p) ++ b). by rewrite strip_prefix_app.
  - apply orb_false_iff in Ha as [Hd Ha]. rewrite <- app_comm_cons. cbn [split_once_str strip_prefix].
    rewrite Z.eqb_sym, Hd. by rewrite IH.
Qed.

(** Trimming stops at the first character that stays. *)
Lemma trim_start_matches_stop c d s : d <> c -> trim_start_matches c (d :: s) = d :: s.
Proof. intros Hd%Z.eqb_neq. cbn. by rewrite Hd. Qed.

Lemma trim_end_matches_stop c d s : d <> c -> trim_end_matches c (s ++ [d]) = s ++ [d].
Proof.
  intros Hd. unfold trim_end_matches. rewrite rev_app_distr. cbn [rev app].
  rewrite trim_start_matches_stop by done. cbn. by rewrite rev_involutive.
Qed.

Lemma trim_start_matches_repeat c n s : trim_start_matches c (repeat c n ++ s) = trim_start_matches c s.
Proof. induction n; cbn; [done|]. by rewrite Z.eqb_refl. Qed.

Lemma trim_start_matches_none c s : contains_char c s = false -> trim_start_matches c s = s.
Proof. destruct s as [|d s]; [done|]. cbn. by intros [-> _]%orb_false_iff. Qed.

Lemma trim_end_matches_none c s : contains_char c s = false -> trim_end_matches c s = s.
Proof.
  intros Hs. unfold trim_end_matches.
  rewrite trim_start_matches_none by (by rewrite contains_char_rev). apply rev_involutive.
Qed.

Lemma rev_repeat {A} (c : A) n : rev (repeat c n) = repeat c n.
Proof.
  induction n as [|n IH]; cbn; [done|]. rewrite IH. clear IH. induction n; cbn; congruence.
Qed.

Lemma trim_end_matches_repeat c n s : trim_end_matches c (s ++ repeat c n) = trim_end_matches c s.
Proof. unfold trim_end_matches. by rewrite rev_app_distr, rev_repeat, trim_start_matches_repeat. Qed.

Lemma split_nonempty c s : split c s <> [].
Proof. destruct s; cbn; [done|]. destruct (_ =? _); [done|]. by destruct (split c s). Qed.

(** Splitting loses nothing: joining the pieces with the separator gives the string back. *)
Fixpoint join (c : char) (ps : list str) : str :=
  match ps with
  | [] => []
  | [p] => p
  | p :: ps' => p ++ c :: join c ps'
  end.

Lemma join_split c s : join c (split c s) = s.
Proof.
  induction s as [|d s IH]; cbn; [done|].
  pose proof (split_nonempty c s) as Hne.
  destruct (Z.eqb_spec d c) as [->|Hd].
  - destruct (split c s) as [|p ps]; [done|]. cbn in *. by rewrite IH.
  - destruct (split c s) as [|p [|q ps]]; cbn in *; [done| |]; by rewrite <- IH.
Qed.

Lemma contains_char_lower c s :
  is_ascii_upper c = false -> is_ascii_lower c = false ->
  contains_char c (to_ascii_lowercase s) = contains_char c s.
Proof.
  intros Hu Hl. induction s as [|d s IH]; [done|].
  change ((to_ascii_lower_char d =? c) || contains_char c (to_ascii_lowercase s) = (d =? c) || contains_char c s).
  rewrite IH. f_equal. unfold to_ascii_lower_char, is_ascii_upper, is_ascii_lower in *.
  destruct ((65 <=? d) && (d <=? 90)) eqn:E; [|done]. bool_prop.
  destruct (Z.eqb_spec d c) as [->|]; [by rewrite (proj2 (andb_true_iff _ _)) in Hu by (split; lia)|].
  destruct (Z.eqb_spec (d + 32) c) as [<-|]; [|done].
  rewrite (proj2 (Z.leb_le 97 _)), (proj2 (Z.leb_le _ 122)) in Hl by lia. done.
Qed.

Lemma digits_val_nonneg s acc v : 0 <= acc -> digits_val acc s = Some v -> 0 <= v.
Proof.
  revert acc. induction s as [|c s IH]; intros acc Hacc; cbn; [intros [= <-]; done|].
  destruct (to_digit 10 c) as [d|] eqn:Ed; [|done].
  apply IH. unfold to_digit in Ed.
  repeat case_match; simplify_eq; unfold is_ascii_digit, is_ascii_lower, is_ascii_upper in *;
    bool_prop; lia.
Qed.

Lemma parse_uint_range w s v : parse_uint w s = Some v -> is_u w v.
Proof.
  unfold parse_uint, is_u. intros H. repeat case_match; simplify_eq; bool_prop.
  all: match goal with Hd : digits_val 0 _ = Some _ |- _ =>
         apply digits_val_nonneg in Hd; lia end.
Qed.

Lemma trim_start_app_ws l s : forallb is_whitespace l = true -> trim_start (l ++ s) = trim_start s.
Proof.
  induction l as [|c l IH]; cbn; [done|]. intros H. bool_prop. rewrite H. auto.
Qed.

Lemma trim_start_stop c s : is_whitespace c = false -> trim_start (c :: s) = c :: s.
Proof. cbn. by intros ->. Qed.

Lemma forallb_rev {A} (f : A -> bool) l : forallb f (rev l) = forallb f l.
Proof.
  induction l as [|x l IH]; cbn; [done|]. rewrite forallb_app, IH. cbn. rewrite andb_true_r. apply andb_comm.
Qed.

(** White space around a text whose ends are not white space is what [trim] removes. *)
Lemma trim_around a b s :
  forallb is_whitespace a = true -> forallb is_whitespace b = true ->
  (forall c, head s = Some c -> is_whitespace c = false) ->
  (forall c, last s = Some c -> is_whitespace c = false) -> s <> [] ->
  trim (a ++ s ++ b) = s.
Proof.
  intros Ha Hb Hh Hl Hne. unfold trim, trim_end. rewrite trim_start_app_ws by done.
  destruct s as [|c s]; [done|]. rewrite <- app_comm_cons, trim_start_stop by (by apply Hh). rewrite app_comm_cons.
  rewrite rev_app_distr, trim_start_app_ws by (by rewrite forallb_rev).
  destruct (exists_last Hne) as (s' & d & Es). rewrite Es in *. rewrite rev_app_distr. cbn [rev app].
  rewrite trim_start_stop by (apply Hl; apply last_snoc). cbn. by rewrite rev_involutive.
Qed.

#[export] Hint Resolve parse_uint_range : rust.

Lemma lower_app a b : to_ascii_lowercase (a ++ b) = to_ascii_lowercase a ++ to_ascii_lowercase b.
Proof. apply map_app. Qed.
