(* ===== verification/Utf8.v ===== *)
(** * UTF-8

    [str::as_bytes] and [String::from_utf8_lossy] of the standard library.  The lossy
    decoder follows [Utf8Chunks]: one replacement character for each maximal prefix of an
    ill-formed sequence. *)
From S2P Require Import Prelude Str.

#[local] Open Scope Z_scope.

(** Unicode scalar values. *)
Definition is_scalar (c : char) : Prop := 0 <= c < 0xD800 \/ 0xE000 <= c < 0x110000.

Definition cont_byte (x : Z) : byte := z2b (128 + x mod 64).

Definition encode_char (c : char) : list byte :=
  if c <? 0x80 then [z2b c]
  else if c <? 0x800 then [z2b (0xC0 + c / 64); cont_byte c]
  else if c <? 0x10000 then [z2b (0xE0 + c / 4096); cont_byte (c / 64); cont_byte c]
  else [z2b (0xF0 + c / 262144); cont_byte (c / 4096); cont_byte (c / 64); cont_byte c].

Definition as_bytes (s : str) : list byte := concat (map encode_char s).

(** A continuation byte. *)
Definition is_cont (b : byte) : bool := (0x80 <=? b2z b) && (b2z b <=? 0xBF).

(** [utf8_char_width] of a lead byte that is not ASCII. *)
Definition char_width (b : byte) : Z :=
  let z := b2z b in
  if (0xC2 <=? z) && (z <=? 0xDF) then 2
  else if (0xE0 <=? z) && (z <=? 0xEF) then 3
  else if (0xF0 <=? z) && (z <=? 0xF4) then 4
  else 0.

(** The second byte allowed after the lead byte of a three- or four-byte sequence. *)
Definition second_ok (b b1 : byte) : bool :=
  let z := b2z b in
  let y := b2z b1 in
  if z =? 0xE0 then (0xA0 <=? y) && (y <=? 0xBF)
  else if z =? 0xED then (0x80 <=? y) && (y <=? 0x9F)
  else if z =? 0xF0 then (0x90 <=? y) && (y <=? 0xBF)
  else if z =? 0xF4 then (0x80 <=? y) && (y <=? 0x8F)
  else is_cont b1.

Definition low6 (b : byte) : Z := b2z b mod 64.

(** The replacement character. *)
Definition repl : char := 0xFFFD.

Fixpoint from_utf8_lossy (bs : list byte) : str :=
  match bs with
  | [] => []
  | b :: r =>
      if b2z b <? 0x80 then b2z b :: from_utf8_lossy r
      else if char_width b =? 2 then
        match r with
        | b1 :: r1 =>
            if is_cont b1 then ((b2z b - 0xC0) * 64 + low6 b1) :: from_utf8_lossy r1
            else repl :: from_utf8_lossy r
        | [] => [repl]
        end
      else if char_width b =? 3 then
        match r with
        | b1 :: r1 =>
            if second_ok b b1 then
              match r1 with
              | b2 :: r2 =>
                  if is_cont b2
                  then ((b2z b - 0xE0) * 4096 + low6 b1 * 64 + low6 b2) :: from_utf8_lossy r2
                  else repl :: from_utf8_lossy r1
              | [] => [repl]
              end
            else repl :: from_utf8_lossy r
        | [] => [repl]
        end
      else if char_width b =? 4 then
        match r with
        | b1 :: r1 =>
            if second_ok b b1 then
              match r1 with
              | b2 :: r2 =>
                  if is_cont b2 then
                    match r2 with
                    | b3 :: r3 =>
                        if is_cont b3
                        then ((b2z b - 0xF0) * 262144 + low6 b1 * 4096 + low6 b2 * 64 + low6 b3)
                             :: from_utf8_lossy r3
                        else repl :: from_utf8_lossy r2
                    | [] => [repl]
                    end
                  else repl :: from_utf8_lossy r1
              | [] => [repl]
              end
            else repl :: from_utf8_lossy r
        | [] => [repl]
        end
      else repl :: from_utf8_lossy r
  end.

(** ** Lemmas *)

Lemma b2z_small z : 0 <= z < 256 -> b2z (z2b z) = z.
Proof. intros H. by rewrite b2z_z2b, Z.mod_small. Qed.

Lemma b2z_cont x : b2z (cont_byte x) = 128 + x mod 64.
Proof. unfold cont_byte. apply b2z_small. pose proof (Z.mod_pos_bound x 64). lia. Qed.

Lemma is_cont_cont x : is_cont (cont_byte x) = true.
Proof.
  unfold is_cont. rewrite b2z_cont. pose proof (Z.mod_pos_bound x 64).
  apply andb_true_iff. rewrite !Z.leb_le. lia.
Qed.

Lemma low6_cont x : low6 (cont_byte x) = x mod 64.
Proof.
  unfold low6. rewrite b2z_cont. pose proof (Z.mod_pos_bound x 64).
  replace (128 + x mod 64) with (x mod 64 + 2 * 64) by lia.
  rewrite Z.mod_add by lia. apply Z.mod_mod. lia.
Qed.

(** [lia] with division and remainder. *)
#[local] Ltac Zify.zify_post_hook ::= Z.to_euclidean_division_equations.

Lemma char_width_spec b :
  (0xC2 <= b2z b <= 0xDF -> char_width b = 2)
  /\ (0xE0 <= b2z b <= 0xEF -> char_width b = 3)
  /\ (0xF0 <= b2z b <= 0xF4 -> char_width b = 4).
Proof.
  unfold char_width. repeat split; intros;
    repeat match goal with |- context [?a <=? ?c] => destruct (Z.leb_spec a c); [|]; try lia end;
    done.
Qed.

(** The equations of the decoder on well-formed sequences. *)
Lemma lossy1 b r : b2z b < 0x80 -> from_utf8_lossy (b :: r) = b2z b :: from_utf8_lossy r.
Proof. intros H. cbn. apply Z.ltb_lt in H. by rewrite H. Qed.

Lemma lossy2 b b1 r :
  0xC2 <= b2z b <= 0xDF -> is_cont b1 = true ->
  from_utf8_lossy (b :: b1 :: r) = ((b2z b - 0xC0) * 64 + low6 b1) :: from_utf8_lossy r.
Proof.
  intros Hb H1. cbn [from_utf8_lossy]. destruct (Z.ltb_spec (b2z b) 0x80); [lia|].
  by rewrite (proj1 (char_width_spec b)), H1.
Qed.

Lemma lossy3 b b1 b2 r :
  0xE0 <= b2z b <= 0xEF -> second_ok b b1 = true -> is_cont b2 = true ->
  from_utf8_lossy (b :: b1 :: b2 :: r)
  = ((b2z b - 0xE0) * 4096 + low6 b1 * 64 + low6 b2) :: from_utf8_lossy r.
Proof.
  intros Hb H1 H2. cbn [from_utf8_lossy]. destruct (Z.ltb_spec (b2z b) 0x80); [lia|].
  by rewrite (proj1 (proj2 (char_width_spec b))), H1, H2.
Qed.

Lemma lossy4 b b1 b2 b3 r :
  0xF0 <= b2z b <= 0xF4 -> second_ok b b1 = true -> is_cont b2 = true -> is_cont b3 = true ->
  from_utf8_lossy (b :: b1 :: b2 :: b3 :: r)
  = ((b2z b - 0xF0) * 262144 + low6 b1 * 4096 + low6 b2 * 64 + low6 b3) :: from_utf8_lossy r.
Proof.
  intros Hb H1 H2 H3. cbn [from_utf8_lossy]. destruct (Z.ltb_spec (b2z b) 0x80); [lia|].
  by rewrite (proj2 (proj2 (char_width_spec b))), H1, H2, H3.
Qed.

Lemma second_ok_intro b y :
  (b2z b = 0xE0 -> 32 <= y mod 64) -> (b2z b = 0xED -> y mod 64 < 32) ->
  (b2z b = 0xF0 -> 16 <= y mod 64) -> (b2z b = 0xF4 -> y mod 64 < 16) ->
  second_ok b (cont_byte y) = true.
Proof.
  intros. unfold second_ok. rewrite is_cont_cont, b2z_cont.
  pose proof (Z.mod_pos_bound y 64 eq_refl).
  repeat case_match; bool_prop; try done; apply andb_true_iff; rewrite !Z.leb_le; lia.
Qed.

Lemma lossy_char c r : is_scalar c -> from_utf8_lossy (encode_char c ++ r) = c :: from_utf8_lossy r.
Proof.
  intros Hc. unfold encode_char, is_scalar in *.
  destruct (Z.ltb_spec c 0x80); [|destruct (Z.ltb_spec c 0x800); [|destruct (Z.ltb_spec c 0x10000)]];
    cbn [app].
  - by rewrite lossy1; rewrite b2z_small by lia.
  - rewrite lossy2, low6_cont, b2z_small; rewrite ?is_cont_cont, ?b2z_small by lia; try done; try lia.
    f_equal. lia.
  - rewrite lossy3, !low6_cont, b2z_small; rewrite ?is_cont_cont, ?b2z_small by lia;
      try done; try lia; [f_equal; lia|].
    apply second_ok_intro; rewrite b2z_small by lia; lia.
  - rewrite lossy4, !low6_cont, b2z_small; rewrite ?is_cont_cont, ?b2z_small by lia;
      try done; try lia; [f_equal; lia|].
    apply second_ok_intro; rewrite b2z_small by lia; lia.
Qed.

(** Decoding the bytes of a string gives the string back. *)
Lemma from_utf8_lossy_as_bytes s :
  Forall is_scalar s -> from_utf8_lossy (as_bytes s) = s.
Proof.
  unfold as_bytes. induction 1 as [|c s Hc _ IH]; [done|].
  cbn [map concat]. by rewrite lossy_char, IH.
Qed.

(** Literals are ASCII text. *)
Lemma lit_scalar t : Forall is_scalar (lit t).
Proof.
  unfold lit. apply Forall_map, Forall_true. intros a. left.
  pose proof (Ascii.N_ascii_bounded a). lia.
Qed.

(** ** Comparison *)

(** The comparison of two strings in constant time: their bytes, when these are equally many. *)
Definition ct_eq (a b : str) : bool :=
  (byte_len a =? byte_len b)
  && (foldl (fun acc xy => Z.lor acc (Z.lxor (b2z xy.1) (b2z xy.2))) 0 (zip (as_bytes a) (as_bytes b)) =? 0).

Lemma byte_len_as_bytes s : byte_len s = Z.of_nat (length (as_bytes s)).
Proof.
  unfold as_bytes. induction s as [|c s IH]; [done|]. cbn [byte_len map concat]. rewrite length_app, Nat2Z.inj_add, IH. f_equal.
  unfold len_utf8, encode_char. repeat destruct (_ <? _); done.
Qed.

Lemma lor_zero a b : Z.lor a b = 0 <-> a = 0 /\ b = 0.
Proof. apply Z.lor_eq_0_iff. Qed.

Lemma fold_diff_zero l : forall l' acc, length l = length l' ->
  foldl (fun acc xy => Z.lor acc (Z.lxor (b2z xy.1) (b2z xy.2))) acc (zip l l') = 0 <-> acc = 0 /\ l = l'.
Proof.
  induction l as [|x l IH]; intros [|y l'] acc Hl; try done; cbn; [naive_solver|]. rewrite IH by (cbn in Hl; lia).
  rewrite lor_zero, Z.lxor_eq_0_iff. split.
  - intros [[-> H%b2z_inj] ->]. by subst.
  - by intros [-> [= -> ->]].
Qed.

(** The comparison is equality of the bytes. *)
Lemma ct_eq_bytes a b : ct_eq a b = true <-> as_bytes a = as_bytes b.
Proof.
  unfold ct_eq. rewrite andb_true_iff, !Z.eqb_eq, !byte_len_as_bytes. split.
  - intros [Hl H]. apply fold_diff_zero in H as [_ H]; [done|lia].
  - intros E. rewrite E. split; [done|]. by apply fold_diff_zero.
Qed.

Lemma ct_eq_spec a b : Forall is_scalar a -> Forall is_scalar b -> ct_eq a b = true <-> a = b.
Proof.
  intros Ha Hb. rewrite ct_eq_bytes. split; [|by intros ->]. intros E.
  rewrite <- (from_utf8_lossy_as_bytes a), <- (from_utf8_lossy_as_bytes b) by done. by rewrite E.
Qed.

Lemma ct_eq_refl a : ct_eq a a = true.
Proof. by apply ct_eq_bytes. Qed.
