(* ===== verification/Bytes.v ===== *)
(** * Reading bytes

    Big-endian integers and slices at an offset of a buffer, as the parsers read them. An
    access out of range panics in the source and is [None] here. *)
From S2P Require Import Prelude.

#[local] Open Scope Z_scope.

(** [u16::from_be_bytes] and [u32::from_be_bytes] of the bytes at [i]. *)
Definition u16_at (d : list byte) (i : nat) : option Z :=
  a ← d !! i; b ← d !! (i + 1)%nat; Some (from_be [a; b]).
Definition u32_at (d : list byte) (i : nat) : option Z :=
  a ← d !! i; b ← d !! (i + 1)%nat; c ← d !! (i + 2)%nat; e ← d !! (i + 3)%nat;
  Some (from_be [a; b; c; e]).
(** [&d[a..b]]. *)
Definition slice (d : list byte) (a b : nat) : option (list byte) :=
  if (a <=? b)%nat && (b <=? length d)%nat then Some (take (b - a) (drop a d)) else None.

Lemma u16_at_some d i : (i + 1 < length d)%nat -> exists z, u16_at d i = Some z /\ is_u 16 z.
Proof.
  intros Hi. unfold u16_at.
  destruct (lookup_lt_is_Some_2 d i) as [a ->]; [lia|].
  destruct (lookup_lt_is_Some_2 d (i + 1)) as [b ->]; [lia|].
  eexists. split; [done|]. apply (from_be_range [a; b]).
Qed.

Lemma u32_at_some d i : (i + 3 < length d)%nat -> exists z, u32_at d i = Some z /\ is_u 32 z.
Proof.
  intros Hi. unfold u32_at.
  destruct (lookup_lt_is_Some_2 d i) as [a ->]; [lia|].
  destruct (lookup_lt_is_Some_2 d (i + 1)) as [b ->]; [lia|].
  destruct (lookup_lt_is_Some_2 d (i + 2)) as [c ->]; [lia|].
  destruct (lookup_lt_is_Some_2 d (i + 3)) as [e ->]; [lia|].
  eexists. split; [done|]. apply (from_be_range [a; b; c; e]).
Qed.

Lemma slice_some d a b :
  (a <= b <= length d)%nat -> exists s, slice d a b = Some s /\ length s = (b - a)%nat.
Proof.
  intros [H1 H2]. unfold slice. rewrite (proj2 (Nat.leb_le _ _) H1), (proj2 (Nat.leb_le _ _) H2).
  eexists. split; [done|]. rewrite length_take, length_drop. lia.
Qed.

Lemma byte_at_some (d : list byte) i : (i < length d)%nat -> exists b, d !! i = Some b.
Proof. apply lookup_lt_is_Some_2. Qed.

Lemma u16_at_bytes d i z : u16_at d i = Some z -> take 2 (drop i d) = to_be 2 z.
Proof.
  unfold u16_at. intros E. destruct (d !! i) as [a|] eqn:Ea; [|done].
  destruct (d !! (i + 1)%nat) as [b|] eqn:Eb; [|done]. injection E as <-.
  rewrite Nat.add_1_r in Eb. rewrite to_be_from_be by done.
  by rewrite (drop_S _ _ _ Ea), (drop_S _ _ _ Eb).
Qed.

Lemma u32_at_bytes d i z : u32_at d i = Some z -> take 4 (drop i d) = to_be 4 z.
Proof.
  unfold u32_at. intros E. destruct (d !! i) as [a|] eqn:Ea; [|done].
  destruct (d !! (i + 1)%nat) as [b|] eqn:Eb; [|done]. destruct (d !! (i + 2)%nat) as [c|] eqn:Ec; [|done].
  destruct (d !! (i + 3)%nat) as [e|] eqn:Ee; [|done]. injection E as <-.
  rewrite !Nat.add_succ_r, Nat.add_0_r in *. rewrite to_be_from_be by done.
  by rewrite (drop_S _ _ _ Ea), (drop_S _ _ _ Eb), (drop_S _ _ _ Ec), (drop_S _ _ _ Ee).
Qed.

Lemma u16_at_app pre z rest : is_u 16 z -> u16_at (pre ++ to_be 2 z ++ rest) (length pre) = Some z.
Proof.
  intros Hz. induction pre as [|x pre IH]; [|exact IH].
  change (Some (from_be (to_be 2 z)) = Some z). rewrite from_be_to_be; [done|]. exact Hz.
Qed.

Lemma u32_at_app pre z rest : is_u 32 z -> u32_at (pre ++ to_be 4 z ++ rest) (length pre) = Some z.
Proof.
  intros Hz. induction pre as [|x pre IH]; [|exact IH].
  change (Some (from_be (to_be 4 z)) = Some z). rewrite from_be_to_be; [done|]. exact Hz.
Qed.

Lemma slice_app pre v rest n :
  n = length v -> slice (pre ++ v ++ rest) (length pre) (length pre + n) = Some v.
Proof.
  intros ->. unfold slice. rewrite !length_app.
  rewrite (proj2 (Nat.leb_le _ _)), (proj2 (Nat.leb_le _ _)) by lia. cbn [andb].
  rewrite Nat.add_comm, Nat.add_sub, drop_app_length, take_app_length. done.
Qed.
