(* ===== verification/F64.v ===== *)
(** * Binary64 floating point

    The [f64] operations the crates use, on the specification floats of the Standard
    Library (round to nearest, ties to even): conversion from an unsigned integer, the
    arithmetic operations, comparison, [min], and [Duration::as_secs_f64].  Instants and
    durations are integers, in nanoseconds. *)
From S2P Require Import Prelude.
From Stdlib Require Import Floats.SpecFloat.

#[local] Open Scope Z_scope.

Abbreviation f64 := spec_float (only parsing).

Definition prec : Z := 53.
Definition emax : Z := 1024.

(** [n as f64]. *)
Definition of_int (n : Z) : f64 := binary_normalize prec emax n 0 false.
Definition fadd (a b : f64) : f64 := SFadd prec emax a b.
Definition fsub (a b : f64) : f64 := SFsub prec emax a b.
Definition fmul (a b : f64) : f64 := SFmul prec emax a b.
Definition fdiv (a b : f64) : f64 := SFdiv prec emax a b.
Definition fge (a b : f64) : bool := SFleb b a.
Definition is_nan (a : f64) : bool := match a with S754_nan => true | _ => false end.

(** [f64::min]: the other operand when one is not a number. *)
Definition fmin (a b : f64) : f64 :=
  if is_nan a then b else if is_nan b then a else if SFleb a b then a else b.

(** [Instant::duration_since] (saturating) and [Duration::as_secs_f64]. *)
Definition duration_since (now earlier : Z) : Z := Z.max 0 (now - earlier).
Definition as_secs_f64 (d : Z) : f64 :=
  fadd (of_int (d / 1000000000)) (fdiv (of_int (d mod 1000000000)) (of_int 1000000000)).

Example as_secs_zero : as_secs_f64 0 = S754_zero false.
Proof. vm_compute. reflexivity. Qed.

(** [x as u64]: towards zero, saturating, zero for what is not a number. *)
Definition to_u64 (a : f64) : Z :=
  match a with
  | S754_finite false m e => Z.min (if 0 <=? e then Zpos m * 2 ^ e else Zpos m / 2 ^ (- e)) (2 ^ 64 - 1)
  | S754_infinity false => 2 ^ 64 - 1
  | _ => 0
  end.

(** ** How far rounding goes up

    The result of an operation on positive numbers exceeds the exact one by at most a part
    in 2^52. *)

Lemma digits2_pos_bounds m : 2 ^ (Zpos (digits2_pos m) - 1) <= Zpos m < 2 ^ Zpos (digits2_pos m).
Proof.
  induction m as [m IH|m IH|]; cbn [digits2_pos]; [| |cbn; lia];
    rewrite Pos2Z.inj_succ; replace (Z.succ (Zpos (digits2_pos m)) - 1) with (Z.succ (Zpos (digits2_pos m) - 1)) by lia;
    rewrite !Z.pow_succ_r by lia; lia.
Qed.

Lemma shr_1_m r : 0 <= r.(shr_m) -> (shr_1 r).(shr_m) = r.(shr_m) / 2.
Proof.
  destruct r as [m b s]. cbn [shr_m]. intros Hm. destruct m as [|[p|p|]|p]; cbn [shr_1 shr_m]; try done; try lia.
  - rewrite Pos2Z.inj_xI. apply (Z.div_unique _ _ _ 1); lia.
  - rewrite Pos2Z.inj_xO. apply (Z.div_unique _ _ _ 0); lia.
Qed.

Lemma iter_pos_nat {A} (f : A -> A) p : forall x, iter_pos f p x = Nat.iter (Pos.to_nat p) f x.
Proof.
  assert (Hadd : forall n k x, Nat.iter n f (Nat.iter k f x) = Nat.iter (n + k) f x) by (induction n as [|n IHn]; intros k x; [done|]; change (f (Nat.iter n f (Nat.iter k f x)) = f (Nat.iter (n + k) f x)); by rewrite IHn).
  induction p as [p IH|p IH|]; intros x; cbn [iter_pos]; [| |done]; rewrite !IH, Hadd.
  - change (f x) with (Nat.iter 1 f x). rewrite Hadd. f_equal. lia.
  - f_equal. lia.
Qed.

Lemma iter_shr p r : 0 <= r.(shr_m) -> (iter_pos shr_1 p r).(shr_m) = r.(shr_m) / 2 ^ Zpos p.
Proof.
  intros Hr. rewrite iter_pos_nat, <- (positive_nat_Z p). generalize (Pos.to_nat p) as n. induction n as [|n IH].
  - cbn. by rewrite Z.div_1_r.
  - change (Nat.iter (S n) shr_1 r) with (shr_1 (Nat.iter n shr_1 r)).
    rewrite shr_1_m, IH by (rewrite IH; apply Z.div_pos; lia). rewrite Nat2Z.inj_succ, Z.pow_succ_r by lia.
    rewrite Z.div_div by lia. f_equal. lia.
Qed.

(** A shift to the precision keeps 53 digits. *)
Lemma shr_fexp_spec m e l :
  SpecFloat.emin prec emax <= e ->
  let '(r, e') := shr_fexp prec emax (Zpos m) e l in
  e <= e' /\ 0 < r.(shr_m) /\ r.(shr_m) * 2 ^ (e' - e) <= Zpos m
  /\ ((e' = e /\ r = shr_record_of_loc (Zpos m) l) \/ (e < e' /\ 2 ^ 52 <= r.(shr_m))).
Proof.
  intros He. unfold shr_fexp, shr. set (n := fexp prec emax (Zdigits2 (Zpos m) + e) - e).
  assert (Hm : shr_m (shr_record_of_loc (Zpos m) l) = Zpos m) by (by destruct l as [|[]]).
  destruct n as [|p|p] eqn:En.
  1, 3: split_and!; [lia|rewrite Hm; lia|rewrite Hm, Z.sub_diag; lia|by left].
  assert (Hp : Zpos p = Zpos (digits2_pos m) - 53).
  { unfold n, fexp, Zdigits2 in En. change prec with 53 in *. lia. }
  pose proof (digits2_pos_bounds m) as [Hlo _].
  replace (Zpos (digits2_pos m) - 1) with (52 + Zpos p) in Hlo by lia. rewrite Z.pow_add_r in Hlo by lia.
  rewrite iter_shr by (rewrite Hm; lia). rewrite Hm.
  assert (Hdiv : 2 ^ 52 <= Zpos m / 2 ^ Zpos p) by (apply Z.div_le_lower_bound; lia).
  split_and!; [lia|lia| |right; split; [lia|done]].
  replace (e + Zpos p - e) with (Zpos p) by lia. rewrite Z.mul_comm. apply Z.mul_div_le. lia.
Qed.

(** Rounding: the result, and the part it may gain. *)
Lemma round_up m e :
  SpecFloat.emin prec emax <= e ->
  exists m' e', e <= e' /\ Zpos m' * 2 ^ (e' - e) * 2 ^ 52 <= Zpos m * (2 ^ 52 + 1)
    /\ forall s, binary_round_aux prec emax s (Zpos m) e loc_Exact = if e' <=? emax - prec then S754_finite s m' e' else S754_infinity s.
Proof.
  intros He. unfold binary_round_aux. pose proof (shr_fexp_spec m e loc_Exact He) as H1.
  destruct (shr_fexp prec emax (Zpos m) e loc_Exact) as [r1 e1]. destruct H1 as (He1 & Hpos & Hle & Hc).
  set (x := round_nearest_even (shr_m r1) (loc_of_shr_record r1)).
  assert (Hx : shr_m r1 <= x /\ x * 2 ^ (e1 - e) * 2 ^ 52 <= Zpos m * (2 ^ 52 + 1)).
  { destruct Hc as [[-> ->]|[Hlt Hbig]].
    - unfold x. cbn [shr_record_of_loc loc_of_shr_record round_nearest_even shr_m]. rewrite Z.sub_diag. lia.
    - assert (Hr : shr_m r1 <= x <= shr_m r1 + 1).
      { unfold x. destruct (loc_of_shr_record r1) as [|[]]; cbn [round_nearest_even]; try destruct (Z.even _); lia. }
      split; [lia|]. assert (0 < 2 ^ (e1 - e)) by (apply Z.pow_pos_nonneg; lia). nia. }
  destruct Hx as [Hx1 Hx2]. destruct x as [|y|y] eqn:Ey; [lia| |lia].
  pose proof (shr_fexp_spec y e1 loc_Exact ltac:(lia)) as H2.
  destruct (shr_fexp prec emax (Zpos y) e1 loc_Exact) as [r2 e2]. destruct H2 as (He2 & Hpos2 & Hle2 & _).
  destruct (shr_m r2) as [|m'|m'] eqn:Em; [lia| |lia]. exists m', e2. split_and!; [lia| |done].
  replace (e2 - e) with ((e2 - e1) + (e1 - e)) by lia. rewrite Z.pow_add_r by lia.
  assert (0 < 2 ^ (e1 - e)) by (apply Z.pow_pos_nonneg; lia). nia.
Qed.

Lemma iter_xO d : forall m, Zpos (Pos.iter xO m d) = Zpos m * 2 ^ Zpos d.
Proof.
  intros m. rewrite Pos2Nat.inj_iter. rewrite <- (positive_nat_Z d). generalize (Pos.to_nat d) as n.
  induction n as [|n IH]; [cbn; lia|]. rewrite Nat2Z.inj_succ, Z.pow_succ_r by lia. cbn [Nat.iter nat_rect]. rewrite Pos2Z.inj_xO.
  unfold Nat.iter in IH. lia.
Qed.

(** An integer as a float, on the scale of 2^-200. *)
Lemma of_int_up n : 0 < n < 2 ^ 64 ->
  exists m e, of_int n = S754_finite false m e /\ -52 <= e <= 65 /\ Zpos m * 2 ^ (e + 200) * 2 ^ 52 <= n * 2 ^ 200 * (2 ^ 52 + 1).
Proof.
  intros Hn. destruct n as [|n|n]; [lia| |lia]. unfold of_int, binary_normalize, binary_round.
  pose proof (digits2_pos_bounds n) as [Hlo _]. set (d := Zpos (digits2_pos n)) in *.
  assert (Hd : 1 <= d <= 64).
  { split; [lia|]. destruct (Z.le_gt_cases d 64); [done|]. assert (2 ^ 64 <= 2 ^ (d - 1)) by (apply Z.pow_le_mono_r; lia). lia. }
  assert (Hf : fexp prec emax (d + 0) = d - 53) by (unfold fexp, SpecFloat.emin; change prec with 53; change emax with 1024; lia).
  rewrite Hf. assert (Hz : exists mz ez, shl_align n 0 (d - 53) = (mz, ez) /\ -52 <= ez <= 0 /\ Zpos mz * 2 ^ (ez + 200) = Zpos n * 2 ^ 200).
  { unfold shl_align. rewrite Z.sub_0_r. destruct (d - 53) as [|p|p] eqn:Ed.
    1, 2: exists n, 0; split_and!; [done|lia|lia|done].
    exists (Pos.iter xO n p), (Z.neg p). split_and!; [done|lia|lia|]. rewrite iter_xO, <- Z.mul_assoc, <- Z.pow_add_r by lia.
    f_equal. f_equal. lia. }
  destruct Hz as (mz & ez & -> & Hez & Hv).
  destruct (round_up mz ez) as (m' & e' & He & Hb & ->); [unfold SpecFloat.emin; change prec with 53; change emax with 1024; lia|].
  assert (Hscale : Zpos m' * 2 ^ (e' + 200) * 2 ^ 52 <= Zpos n * 2 ^ 200 * (2 ^ 52 + 1)).
  { replace (e' + 200) with ((e' - ez) + (ez + 200)) by lia. rewrite Z.pow_add_r by lia.
    assert (0 < 2 ^ (ez + 200)) by (apply Z.pow_pos_nonneg; lia). nia. }
  assert (He' : e' <= 65).
  { destruct (Z.le_gt_cases e' 65) as [|Hgt]; [done|]. exfalso.
    assert (2 ^ 266 <= 2 ^ (e' + 200)) by (apply Z.pow_le_mono_r; lia).
    assert (2 ^ 266 * 2 ^ 52 <= Zpos m' * 2 ^ (e' + 200) * 2 ^ 52) by nia.
    assert (Zpos n * 2 ^ 200 * (2 ^ 52 + 1) <= 2 ^ 64 * 2 ^ 200 * (2 ^ 52 + 1)) by nia.
    assert (2 ^ 64 * 2 ^ 200 * (2 ^ 52 + 1) < 2 ^ 266 * 2 ^ 52) by (vm_compute; reflexivity). lia. }
  exists m', e'. split_and!; [|lia|lia|done]. rewrite (proj2 (Z.leb_le _ _)); [done|]. change emax with 1024. change prec with 53. lia.
Qed.

(** The literal [0.8]. *)
Definition f64_0_8 : f64 := S754_finite false 7205759403792794 (-53).

Lemma four_fifths_le n : 0 <= n < 2 ^ 64 -> 0 <= to_u64 (fmul (of_int n) f64_0_8) <= n.
Proof.
  intros Hn. destruct (decide (n = 0)) as [->|Hnz]; [vm_compute; split; discriminate|].
  destruct (of_int_up n ltac:(lia)) as (m & e & -> & He & Hb). unfold fmul, SFmul, f64_0_8. cbn [xorb].
  destruct (round_up (m * 7205759403792794) (e + -53)) as (m' & e' & He' & Hb' & ->);
    [unfold SpecFloat.emin; change prec with 53; change emax with 1024; lia|].
  assert (Hs : Zpos m' * 2 ^ (e' + 200) <= n * 2 ^ 200).
  { assert (H1 : Zpos m' * 2 ^ (e' + 200) * 2 ^ 52 <= Zpos m * 7205759403792794 * 2 ^ (e + 147) * (2 ^ 52 + 1)).
    { replace (e' + 200) with ((e' - (e + -53)) + (e + 147)) by lia. rewrite Z.pow_add_r by lia.
      rewrite Pos2Z.inj_mul in Hb'. assert (0 < 2 ^ (e + 147)) by (apply Z.pow_pos_nonneg; lia). nia. }
    replace (e + 200) with ((e + 147) + 53) in Hb by lia. rewrite Z.pow_add_r in Hb by lia.
    assert (0 < 2 ^ (e + 147)) by (apply Z.pow_pos_nonneg; lia). nia. }
  assert (Hlim : e' <= 64).
  { destruct (Z.le_gt_cases e' 64) as [|Hgt]; [done|]. exfalso.
    assert (2 ^ 265 <= 2 ^ (e' + 200)) by (apply Z.pow_le_mono_r; lia).
    assert (n * 2 ^ 200 < 2 ^ 264) by (change (2 ^ 264) with (2 ^ 64 * 2 ^ 200); nia).
    assert (2 ^ 264 < 2 ^ 265) by (vm_compute; reflexivity). nia. }
  rewrite (proj2 (Z.leb_le _ _)) by (change emax with 1024; change prec with 53; lia). unfold to_u64.
  assert (Hv : 0 <= (if 0 <=? e' then Zpos m' * 2 ^ e' else Zpos m' / 2 ^ (- e')) <= n); [|lia].
  destruct (Z.leb_spec 0 e').
  - rewrite Z.pow_add_r in Hs by lia. assert (0 < 2 ^ 200) by lia. nia.
  - split; [apply Z.div_pos; lia|]. apply Z.div_le_upper_bound; [lia|].
    replace 200 with ((e' + 200) + - e') in Hs at 2 by lia. rewrite (Z.pow_add_r 2 (e' + 200) (- e')) in Hs by lia.
    assert (0 < 2 ^ (e' + 200)) by (apply Z.pow_pos_nonneg; lia). nia.
Qed.

(** ** Quotients of integers

    Where a rational [a / b] lies relative to the integer [m]. *)

Definition between (m : Z) (l : location) (a b : Z) : Prop :=
  match l with
  | loc_Exact => a = m * b
  | loc_Inexact Lt => m * b < a /\ 2 * a < (2 * m + 1) * b
  | loc_Inexact Eq => 2 * a = (2 * m + 1) * b
  | loc_Inexact Gt => (2 * m + 1) * b < 2 * a /\ a < (m + 1) * b
  end.

Lemma between_shr r a b : 0 <= r.(shr_m) -> 0 < b -> between r.(shr_m) (loc_of_shr_record r) a b ->
  between (shr_1 r).(shr_m) (loc_of_shr_record (shr_1 r)) a (2 * b).
Proof.
  destruct r as [m [] []]; destruct m as [|[p|p|]|p]; cbn [shr_m shr_1 loc_of_shr_record orb between]; try lia; intros _ Hb;
    rewrite ?(Pos2Z.inj_xI p), ?(Pos2Z.inj_xO p); intros H; try split; nia.
Qed.

Lemma between_location q m r : 0 <= r < m -> between q (new_location m r) (q * m + r) m.
Proof.
  intros Hr. unfold new_location. destruct (Z.even m) eqn:Ev; [unfold new_location_even|unfold new_location_odd];
    (destruct (Z.eqb_spec r 0) as [->|Hnz]; [cbn [between]; nia|]).
  - destruct (Z.compare_spec (2 * r) m); cbn [between]; nia.
  - rewrite <- Z.negb_odd in Ev. apply negb_false_iff, Z.odd_spec in Ev as [k ->].
    destruct (Z.compare_spec (2 * r + 1) (2 * k + 1)); cbn [between]; nia.
Qed.

Lemma between_round m l a b : 0 < b -> between m l a b ->
  m <= round_nearest_even m l <= m + 1 /\ m * b <= a < (m + 1) * b /\ Z.abs (2 * (a - round_nearest_even m l * b)) <= b.
Proof. intros Hb H. destruct l as [|[]]; cbn [between round_nearest_even] in *; try destruct (Z.even m); nia. Qed.

(** A shift by what the precision asks for, when there are 53 or 54 digits. *)
Lemma digits_of q d : 0 < d -> 2 ^ (d - 1) <= Zpos q < 2 ^ d -> Zpos (digits2_pos q) = d.
Proof.
  intros Hd Hq. pose proof (digits2_pos_bounds q) as Hb.
  destruct (Z.lt_trichotomy (Zpos (digits2_pos q)) d) as [H|[H|H]]; [|done|].
  - assert (2 ^ Zpos (digits2_pos q) <= 2 ^ (d - 1)) by (apply Z.pow_le_mono_r; lia). lia.
  - assert (2 ^ d <= 2 ^ (Zpos (digits2_pos q) - 1)) by (apply Z.pow_le_mono_r; lia). lia.
Qed.

Lemma shr_fexp_near q e l : -1000 <= e -> 2 ^ 52 <= q < 2 ^ 54 ->
  shr_fexp prec emax q e l = if q <? 2 ^ 53 then (shr_record_of_loc q l, e) else (shr_1 (shr_record_of_loc q l), e + 1).
Proof.
  intros He Hq. destruct q as [|q|q]; [lia| |lia]. unfold shr_fexp, Zdigits2, fexp, SpecFloat.emin. change prec with 53. change emax with 1024.
  destruct (Z.ltb_spec (Zpos q) (2 ^ 53)).
  - rewrite (digits_of q 53) by lia. replace (Z.max _ _ - e) with 0 by lia. done.
  - rewrite (digits_of q 54) by lia. replace (Z.max _ _ - e) with 1 by lia. done.
Qed.

Lemma of_int_exact n : 0 < n < 2 ^ 53 ->
  exists m e, of_int n = S754_finite false m e /\ 2 ^ 52 <= Zpos m < 2 ^ 53 /\ -52 <= e <= 0 /\ Zpos m = n * 2 ^ (- e).
Proof.
  intros Hn. destruct n as [|n|n]; [lia| |lia]. unfold of_int, binary_normalize, binary_round.
  pose proof (digits2_pos_bounds n) as [Hlo Hhi]. set (d := Zpos (digits2_pos n)) in *.
  assert (Hd : 1 <= d <= 53).
  { split; [lia|]. destruct (Z.le_gt_cases d 53); [done|]. assert (2 ^ 53 <= 2 ^ (d - 1)) by (apply Z.pow_le_mono_r; lia). lia. }
  assert (Hf : fexp prec emax (d + 0) = d - 53) by (unfold fexp, SpecFloat.emin; change prec with 53; change emax with 1024; lia).
  assert (Hz : exists mz, shl_align n 0 (d - 53) = (mz, d - 53) /\ Zpos mz = Zpos n * 2 ^ (53 - d)).
  { unfold shl_align. rewrite Z.sub_0_r. destruct (d - 53) as [|p|p] eqn:Ed; [|lia|].
    - exists n. split; [done|]. replace (53 - d) with 0 by lia. lia.
    - exists (Pos.iter xO n p). split; [done|]. rewrite iter_xO. f_equal. f_equal. lia. }
  destruct Hz as (mz & Hz & Hv). rewrite Hf, Hz. unfold binary_round_aux.
  assert (Hm : 2 ^ 52 <= Zpos mz < 2 ^ 53).
  { rewrite Hv.
    assert (0 < 2 ^ (53 - d)) by (apply Z.pow_pos_nonneg; lia).
    assert (2 ^ 52 = 2 ^ (d - 1) * 2 ^ (53 - d)) as -> by (rewrite <- Z.pow_add_r by lia; f_equal; lia).
    assert (2 ^ 53 = 2 ^ d * 2 ^ (53 - d)) as -> by (rewrite <- Z.pow_add_r by lia; f_equal; lia). nia. }
  rewrite shr_fexp_near by lia. rewrite (proj2 (Z.ltb_lt _ _)) by lia. cbn [shr_record_of_loc shr_m loc_of_shr_record round_nearest_even].
  rewrite shr_fexp_near by lia. rewrite (proj2 (Z.ltb_lt _ _)) by lia. cbn [shr_record_of_loc shr_m].
  rewrite (proj2 (Z.leb_le _ _)) by (change prec with 53; change emax with 1024; lia).
  exists mz, (d - 53). split_and!; try lia; [done|]. rewrite Hv. f_equal. f_equal. lia.
Qed.

(** The quotient of two integers, to the nearest. *)
Lemma fdiv_near n c : 0 < n < 2 ^ 53 -> 0 < c < 2 ^ 53 ->
  exists x e, fdiv (of_int n) (of_int c) = S754_finite false x e /\ e <= 0
    /\ Z.abs (2 * (n * 2 ^ (- e) - Zpos x * c)) <= c /\ (2 ^ 54 - 1) * c <= 4 * n * 2 ^ (- e).
Proof.
  intros Hn Hc. destruct (of_int_exact n Hn) as (m1 & ea & -> & Hm1 & Hea & Hv1). destruct (of_int_exact c Hc) as (m2 & ec & -> & Hm2 & Hec & Hv2).
  unfold fdiv, SFdiv, SFdiv_core_binary. cbn [xorb Zdigits2]. rewrite (digits_of m1 53), (digits_of m2 53) by lia.
  assert (Hf : Z.min (fexp prec emax (53 + ea - (53 + ec))) (ea - ec) = ea - ec - 53)
    by (unfold fexp, SpecFloat.emin; change prec with 53; change emax with 1024; lia).
  rewrite Hf. replace (ea - ec - (ea - ec - 53)) with 53 by lia. rewrite Z.shiftl_mul_pow2 by lia.
  set (a := Zpos m1 * 2 ^ 53). pose proof (Z_div_mod a (Zpos m2) ltac:(lia)) as Hdm. destruct (Z.div_eucl a (Zpos m2)) as [q r].
  destruct Hdm as [Hqr Hr]. set (e0 := ea - ec - 53).
  assert (Hq : 2 ^ 52 <= q < 2 ^ 54) by (unfold a in *; nia).
  pose proof (between_location q (Zpos m2) r ltac:(lia)) as Hbet. replace (q * Zpos m2 + r) with a in Hbet by lia.
  set (l := new_location (Zpos m2) r) in *.
  unfold binary_round_aux. rewrite shr_fexp_near by lia.
  assert (Hrec : shr_m (shr_record_of_loc q l) = q /\ loc_of_shr_record (shr_record_of_loc q l) = l) by (by destruct l as [|[]]).
  destruct Hrec as [Hrm Hrl].
  assert (H1 : exists r1 e1 b, (if q <? 2 ^ 53 then (shr_record_of_loc q l, e0) else (shr_1 (shr_record_of_loc q l), e0 + 1)) = (r1, e1)
    /\ between (shr_m r1) (loc_of_shr_record r1) a b /\ e0 <= e1 <= e0 + 1 /\ b = Zpos m2 * 2 ^ (e1 - e0) /\ 2 ^ 52 <= shr_m r1 < 2 ^ 53).
  { destruct (Z.ltb_spec q (2 ^ 53)).
    - exists (shr_record_of_loc q l), e0, (Zpos m2). rewrite Hrm, Hrl, Z.sub_diag. split_and!; try lia; done.
    - exists (shr_1 (shr_record_of_loc q l)), (e0 + 1), (2 * Zpos m2). split_and!; try lia; [done|apply between_shr; rewrite ?Hrm, ?Hrl; done || lia| | |].
      + replace (e0 + 1 - e0) with 1 by lia. lia.
      + rewrite shr_1_m, Hrm by (rewrite Hrm; lia). apply Z.div_le_lower_bound; lia.
      + rewrite shr_1_m, Hrm by (rewrite Hrm; lia). apply Z.div_lt_upper_bound; lia. }
  destruct H1 as (r1 & e1 & b & -> & Hb1 & He1 & Hbe & Hr1).
  set (w := e1 - ea + 53).
  assert (Hb : b = c * 2 ^ w) by (rewrite Hbe, Hv2, <- Z.mul_assoc, <- Z.pow_add_r by lia; f_equal; f_equal; lia).
  assert (Ha : a = n * 2 ^ (53 - ea)) by (unfold a; rewrite Hv1, <- Z.mul_assoc, <- Z.pow_add_r by lia; f_equal; f_equal; lia).
  assert (HW : 0 < 2 ^ w) by (apply Z.pow_pos_nonneg; lia).
  destruct (between_round (shr_m r1) (loc_of_shr_record r1) a b ltac:(nia) Hb1) as (Hx & Hin & Herr).
  set (x := round_nearest_even _ _) in *. rewrite Ha, Hb in *.
  assert (He1' : e1 <= 0).
  { destruct (Z.le_gt_cases e1 0) as [|Hgt]; [done|]. exfalso. assert (2 ^ (54 - ea) <= 2 ^ w) by (apply Z.pow_le_mono_r; lia).
    replace (54 - ea) with (Z.succ (53 - ea)) in * by lia. rewrite Z.pow_succ_r in * by lia.
    assert (0 < 2 ^ (53 - ea)) by (apply Z.pow_pos_nonneg; lia). set (V := 2 ^ (53 - ea)) in *.
    assert (2 ^ 52 * (2 * V) <= shr_m r1 * (c * 2 ^ w)).
    { apply Z.mul_le_mono_nonneg; [lia|lia|lia|]. transitivity (1 * 2 ^ w); [lia|]. apply Z.mul_le_mono_nonneg_r; lia. }
    assert (n * V < 2 ^ 53 * V) by (apply Z.mul_lt_mono_pos_r; lia). lia. }
  replace (53 - ea) with (w + - e1) in * by lia. rewrite Z.pow_add_r in * by lia.
  set (W := 2 ^ w) in *. set (T := 2 ^ (- e1)) in *. assert (HT : 0 < T) by (apply Z.pow_pos_nonneg; lia).
  assert (Herr' : Z.abs (2 * (n * T - x * c)) <= c).
  { apply (Z.mul_le_mono_pos_r _ _ W HW).
    replace (Z.abs (2 * (n * T - x * c)) * W) with (Z.abs (2 * (n * T - x * c) * W)) by (rewrite Z.abs_mul, (Z.abs_eq W) by lia; done).
    replace (2 * (n * T - x * c) * W) with (2 * (n * (W * T) - x * (c * W))) by ring. exact Herr. }
  assert (Hlow : 2 ^ 52 * c <= n * T).
  { apply (Z.mul_le_mono_pos_r _ _ W HW). transitivity (shr_m r1 * (c * W)); [|lia]. rewrite <- Z.mul_assoc.
    apply Z.mul_le_mono_nonneg_r; [apply Z.mul_nonneg_nonneg; lia|lia]. }
  clear Herr Hin Hb1 Hbe Hb Ha Hqr Hbet. rewrite shr_fexp_near by lia.
  destruct (Z.ltb_spec x (2 ^ 53)) as [Hlt|Hge].
  - cbn [shr_record_of_loc shr_m]. destruct x as [|y|y]; [lia| |lia].
    rewrite (proj2 (Z.leb_le _ _)) by (change prec with 53; change emax with 1024; lia). exists y, e1. split_and!; [done|lia|done|fold T; lia].
  - assert (Hx53 : x = 2 ^ 53) by lia. rewrite shr_1_m by (cbn; lia). cbn [shr_record_of_loc shr_m]. rewrite Hx53. change (2 ^ 53 / 2) with 4503599627370496.
    cbn match.
    assert (Hneg : e1 < 0) by (destruct (Z.eq_dec e1 0) as [->|]; [unfold T in *; cbn in *; nia|lia]).
    rewrite (proj2 (Z.leb_le _ _)) by (change prec with 53; change emax with 1024; lia).
    assert (HT2 : T = 2 * 2 ^ (- (e1 + 1))) by (unfold T; rewrite <- Z.pow_succ_r by lia; f_equal; lia).
    exists 4503599627370496%positive, (e1 + 1). split_and!; [done|lia|nia|nia].
Qed.

(** [ceil], to an unsigned integer of 32 bits, saturating. *)
Definition ceil_u32 (a : f64) : Z :=
  match a with
  | S754_finite false m e => Z.min (if 0 <=? e then Zpos m * 2 ^ e else (Zpos m + 2 ^ (- e) - 1) / 2 ^ (- e)) (2 ^ 32 - 1)
  | S754_infinity false => 2 ^ 32 - 1
  | _ => 0
  end.

(** The quotient of two integers below 2^53, rounded up, is what floats make of it. *)
Lemma ceil_div n c : 0 <= n < 2 ^ 53 -> 0 < c < 2 ^ 53 ->
  ceil_u32 (fdiv (of_int n) (of_int c)) = Z.min ((n + c - 1) / c) (2 ^ 32 - 1).
Proof.
  intros Hn Hc. destruct (decide (n = 0)) as [->|Hnz].
  { destruct (of_int_exact c Hc) as (m & e & -> & _). cbn [of_int binary_normalize fdiv SFdiv ceil_u32]. change (fdiv (of_int 0) (S754_finite false m e)) with (S754_zero false).
    rewrite Z.div_small by lia. done. }
  destruct (fdiv_near n c ltac:(lia) Hc) as (x & e & -> & He & Herr & Hlow). cbn [ceil_u32]. f_equal.
  set (T := 2 ^ (- e)) in *. assert (HT : 0 < T) by (apply Z.pow_pos_nonneg; lia).
  assert (Hceil : (if 0 <=? e then Zpos x * 2 ^ e else (Zpos x + T - 1) / T) = (Zpos x + T - 1) / T).
  { destruct (Z.leb_spec 0 e); [|done]. assert (e = 0) by lia. subst e. unfold T. cbn. rewrite Z.div_1_r. lia. }
  rewrite Hceil. pose proof (Z.div_mod (n - 1) c ltac:(lia)) as Hdm. pose proof (Z.mod_pos_bound (n - 1) c ltac:(lia)) as Hmod.
  set (k := (n - 1) / c) in *. replace ((n + c - 1) / c) with (k + 1).
  2: { apply (Z.div_unique _ _ _ ((n - 1) mod c)); [lia|]. lia. }
  assert (Hk : k * c < n <= (k + 1) * c) by lia.
  assert (Hup : Zpos x <= (k + 1) * T).
  { assert (2 * Zpos x * c <= 2 * ((k + 1) * c) * T + c) by nia. nia. }
  assert (Hlo : k * T < Zpos x).
  { assert (c < 2 * T) by nia. assert (2 * ((k * c + 1) * T) - c <= 2 * Zpos x * c) by nia. nia. }
  symmetry. apply (Z.div_unique _ _ _ (Zpos x + T - 1 - (k + 1) * T)); lia.
Qed.
