(* ===== verification/Net.v ===== *)
(** * Network addresses

    The address types of [std::net] with the parser of [IpAddr::from_str], and the
    interface of the [ipnet] crate.  An IPv4 address is its [u32], an IPv6 address its
    [u128].  The code of [ipnet] is not part of the repository: [IpNetApi] is what the
    crates call of it and [IpNetLaws] the documented behaviour they rely on. *)
From S2P Require Import Prelude Str.

#[local] Open Scope Z_scope.

Inductive IpAddr : Type :=
  | V4 (a : Z)
  | V6 (a : Z).

#[global] Instance IpAddr_eq_dec : EqDecision IpAddr.
Proof. solve_decision. Defined.

#[global] Program Instance IpAddr_countable : Countable IpAddr :=
  inj_countable' (fun ip => match ip with V4 a => inl a | V6 a => inr a end)
                 (fun s => match s with inl a => V4 a | inr a => V6 a end) _.
Next Obligation. by intros [a|a]. Qed.

Definition is_ipv4 (ip : IpAddr) : bool := match ip with V4 _ => true | V6 _ => false end.

(** [Ipv4Addr::new]. *)
Definition ipv4 (a b c d : Z) : Z := ((a * 256 + b) * 256 + c) * 256 + d.

(** [Display] of an [Ipv4Addr]. *)
Definition show_ipv4 (ip : Z) : str :=
  show_uint (ip / 2 ^ 24) ++ lit "." ++ show_uint (ip / 2 ^ 16 mod 256) ++ lit "."
  ++ show_uint (ip / 2 ^ 8 mod 256) ++ lit "." ++ show_uint (ip mod 256).

Record SocketAddr := { sa_ip : IpAddr; sa_port : Z }.

#[global] Instance SocketAddr_eq_dec : EqDecision SocketAddr.
Proof. solve_decision. Defined.

(** ** [IpAddr::from_str] *)

(** The digits at the front of the input, in a radix, and the rest. *)
Fixpoint take_digits (radix : Z) (s : str) : list Z * str :=
  match s with
  | [] => ([], [])
  | c :: s' => match to_digit radix c with
               | Some d => let '(ds, r) := take_digits radix s' in (d :: ds, r)
               | None => ([], s)
               end
  end.

Definition read_number (radix : Z) (max_digits : nat) (w : Z) (allow_zero_prefix : bool) (s : str)
  : option (Z * str) :=
  let '(ds, r) := take_digits radix s in
  if (max_digits <? length ds)%nat then None
  else if (length ds =? 0)%nat then None
  else if negb allow_zero_prefix && bool_decide (head s = Some 48) && (1 <? length ds)%nat then None
  else let v := fold_left (fun acc d => acc * radix + d) ds 0 in
       if v <? 2 ^ w then Some (v, r) else None.

Definition read_char (c : char) (s : str) : option str :=
  match s with d :: s' => if d =? c then Some s' else None | [] => None end.

(** [read_separator]: the separator before every item but the first. *)
Definition read_sep {A} (sep : char) (first : bool) (p : str -> option (A * str)) (s : str)
  : option (A * str) :=
  if first then p s
  else match read_char sep s with Some s' => p s' | None => None end.

Fixpoint read_octets (n : nat) (first : bool) (s : str) : option (list Z * str) :=
  match n with
  | O => Some ([], s)
  | S n' => match read_sep c_dot first (read_number 10 3 8 false) s with
            | Some (o, s') => match read_octets n' false s' with
                              | Some (os, r) => Some (o :: os, r)
                              | None => None
                              end
            | None => None
            end
  end.

Definition read_ipv4_addr (s : str) : option (Z * str) :=
  match read_octets 4 true s with
  | Some ([a; b; c; d], r) => Some (ipv4 a b c d, r)
  | _ => None
  end.

(** [n] groups left; the flag tells whether an embedded IPv4 address ended the run. *)
Fixpoint read_groups (n : nat) (first : bool) (s : str) : list Z * bool * str :=
  match n with
  | O => ([], false, s)
  | S n' =>
      let embedded := match n' with O => None | _ => read_sep c_colon first read_ipv4_addr s end in
      match embedded with
      | Some (v4, s') => ([v4 / 65536; v4 mod 65536], true, s')
      | None =>
          match read_sep c_colon first (read_number 16 4 16 true) s with
          | Some (g, s') => let '(gs, b, r) := read_groups n' false s' in (g :: gs, b, r)
          | None => ([], false, s)
          end
      end
  end.

Definition groups_val (gs : list Z) : Z := fold_left (fun acc g => acc * 65536 + g) gs 0.

Definition read_ipv6_addr (s : str) : option (Z * str) :=
  let '(head, head_ipv4, r) := read_groups 8 true s in
  if (length head =? 8)%nat then Some (groups_val head, r)
  else if head_ipv4 then None
  else match read_char c_colon r with
       | Some r1 =>
           match read_char c_colon r1 with
           | Some r2 =>
               let '(tail, _, r3) := read_groups (8 - (length head + 1)) true r2 in
               Some (groups_val (head ++ repeat 0 (8 - length head - length tail) ++ tail), r3)
           | None => None
           end
       | None => None
       end.

Definition ip_from_str (s : str) : option IpAddr :=
  match read_ipv4_addr s with
  | Some (a, r) => match r with [] => Some (V4 a) | _ => None end
  | None => match read_ipv6_addr s with
            | Some (a, []) => Some (V6 a)
            | _ => None
            end
  end.

Example ip_from_str_v4 : ip_from_str (lit "100.64.0.10") = Some (V4 (ipv4 100 64 0 10)).
Proof. reflexivity. Qed.
Example ip_from_str_octal : ip_from_str (lit "100.064.0.10") = None.
Proof. reflexivity. Qed.
Example ip_from_str_v6 : ip_from_str (lit "fd00:ec2::254") = Some (V6 (0xfd000ec2 * 2 ^ 96 + 0x254)).
Proof. reflexivity. Qed.
Example ip_from_str_brackets : ip_from_str (lit "[::1]") = None.
Proof. reflexivity. Qed.
Example ip_from_str_mapped : ip_from_str (lit "::ffff:1.2.3.4") = Some (V6 (0xffff * 2 ^ 32 + ipv4 1 2 3 4)).
Proof. reflexivity. Qed.

(** An address text is made of hexadecimal digits, dots and colons. *)
Definition ip_char (c : char) : Prop := is_Some (to_digit 16 c) \/ c = c_dot \/ c = c_colon.

(** A reader that succeeds has consumed characters of addresses only. *)
Definition eats {A} (p : str -> option (A * str)) : Prop :=
  forall s v r, p s = Some (v, r) -> exists u, s = u ++ r /\ Forall ip_char u.

Lemma to_digit_mono radix c d : radix <= 16 -> to_digit radix c = Some d -> to_digit 16 c = Some d.
Proof.
  intros Hr. unfold to_digit. repeat case_match; intros; simplify_eq; bool_prop; try done; lia.
Qed.

Lemma take_digits_eats radix s ds r :
  radix <= 16 -> take_digits radix s = (ds, r) -> exists u, s = u ++ r /\ Forall ip_char u.
Proof.
  intros Hr. revert ds r. induction s as [|c s IH]; intros ds r; cbn; [intros [= <- <-]; by exists []|].
  destruct (to_digit radix c) as [d|] eqn:Hd; [|intros [= <- <-]; by exists []].
  destruct (take_digits radix s) as [ds' r'] eqn:Ht. intros [= <- <-].
  destruct (IH _ _ eq_refl) as (u & -> & Hu). exists (c :: u). split; [done|]. constructor; [|done].
  left. exists d. by apply (to_digit_mono radix).
Qed.

Lemma read_number_eats radix n w z : radix <= 16 -> eats (read_number radix n w z).
Proof.
  intros Hr s v r. unfold read_number. destruct (take_digits radix s) as [ds r'] eqn:Ht.
  apply take_digits_eats in Ht; [|done]. repeat case_match; intros; by simplify_eq.
Qed.

Lemma read_char_eats c s r : read_char c s = Some r -> s = c :: r.
Proof. unfold read_char. destruct s as [|d s]; [done|]. destruct (Z.eqb_spec d c); [|done]. congruence. Qed.

Lemma read_sep_eats {A} sep first (p : str -> option (A * str)) :
  sep = c_dot \/ sep = c_colon -> eats p -> eats (read_sep sep first p).
Proof.
  intros Hsep Hp s v r. unfold read_sep. destruct first; [apply Hp|].
  destruct (read_char sep s) as [s'|] eqn:Hc; [|done]. apply read_char_eats in Hc as ->.
  intros (u & -> & Hu)%Hp. exists (sep :: u). split; [done|]. constructor; [by right|done].
Qed.

Lemma read_octets_eats n first : eats (read_octets n first).
Proof.
  revert first. induction n as [|n IH]; intros first s v r; cbn; [intros [= <- <-]; by exists []|].
  destruct (read_sep c_dot first (read_number 10 3 8 false) s) as [[o s']|] eqn:Hs; [|done].
  apply read_sep_eats in Hs as (u & -> & Hu); [|by left|by apply read_number_eats].
  destruct (read_octets n false s') as [[os r']|] eqn:Hr; [|done]. intros [= <- <-].
  apply IH in Hr as (u' & -> & Hu'). exists (u ++ u'). by rewrite app_assoc, Forall_app.
Qed.

Lemma read_ipv4_eats : eats read_ipv4_addr.
Proof.
  intros s v r. unfold read_ipv4_addr. destruct (read_octets 4 true s) as [[os r']|] eqn:Hr; [|done].
  apply read_octets_eats in Hr. repeat case_match; intros; by simplify_eq.
Qed.

Lemma read_groups_eats n first s gs b r :
  read_groups n first s = (gs, b, r) -> exists u, s = u ++ r /\ Forall ip_char u.
Proof.
  revert first s gs b r. induction n as [|n IH]; intros first s gs b r; cbn; [intros [= <- <- <-]; by exists []|].
  destruct (match n with O => None | _ => _ end) as [[v4 s']|] eqn:He.
  - intros [= <- <- <-]. destruct n; [done|].
    by apply read_sep_eats in He; [|right|apply read_ipv4_eats].
  - destruct (read_sep c_colon first (read_number 16 4 16 true) s) as [[g s']|] eqn:Hs; [|intros [= <- <- <-]; by exists []].
    apply read_sep_eats in Hs as (u & -> & Hu); [|by right|by apply read_number_eats].
    destruct (read_groups n false s') as [[gs' b'] r'] eqn:Hr. intros [= <- <- <-].
    apply IH in Hr as (u' & -> & Hu'). exists (u ++ u'). by rewrite app_assoc, Forall_app.
Qed.

Lemma read_ipv6_eats : eats read_ipv6_addr.
Proof.
  intros s v r. unfold read_ipv6_addr. destruct (read_groups 8 true s) as [[hd b] r0] eqn:Hg.
  apply read_groups_eats in Hg as (u & -> & Hu).
  destruct (length hd =? 8)%nat; [intros [= <- <-]; by exists u|]. destruct b; [done|].
  destruct (read_char c_colon r0) as [r1|] eqn:H1; [|done]. apply read_char_eats in H1 as ->.
  destruct (read_char c_colon r1) as [r2|] eqn:H2; [|done]. apply read_char_eats in H2 as ->.
  destruct (read_groups _ true r2) as [[tl b] r3] eqn:Ht. apply read_groups_eats in Ht as (u' & -> & Hu').
  intros [= <- <-]. exists (u ++ c_colon :: c_colon :: u'). rewrite <- !app_assoc. split; [done|].
  apply Forall_app. split; [done|]. repeat constructor; [by right; right..|done].
Qed.

Lemma ip_from_str_chars s ip : ip_from_str s = Some ip -> Forall ip_char s.
Proof.
  unfold ip_from_str. destruct (read_ipv4_addr s) as [[a r]|] eqn:H4.
  - destruct r; [|done]. apply read_ipv4_eats in H4 as (u & -> & Hu). by rewrite app_nil_r.
  - destruct (read_ipv6_addr s) as [[a r]|] eqn:H6; [|done]. destruct r; [|done].
    apply read_ipv6_eats in H6 as (u & -> & Hu). by rewrite app_nil_r.
Qed.

(** Characters that no address text has. *)
Lemma ip_from_str_no_char c s ip :
  ip_from_str s = Some ip -> to_digit 16 c = None -> c <> c_dot -> c <> c_colon -> contains_char c s = false.
Proof.
  intros Hs%ip_from_str_chars Hd Hdot Hcol. apply existsb_elem_false. intros d Hin.
  rewrite Forall_forall in Hs. destruct (Z.eqb_spec d c) as [->|]; [|done].
  destruct (Hs _ Hin) as [[x Hx]|[?|?]]; congruence.
Qed.

(** A dotted address has no colon. *)
Lemma read_ipv4_chars s a : read_ipv4_addr s = Some (a, []) -> contains_char c_colon s = false.
Proof.
  enough (Ho : forall n first s os r, read_octets n first s = Some (os, r) ->
            exists u, s = u ++ r /\ contains_char c_colon u = false).
  { unfold read_ipv4_addr. intros E. destruct (read_octets 4 true s) as [[os r]|] eqn:Hr; [|done].
    apply Ho in Hr as (u & -> & Hu). repeat case_match; simplify_eq. by rewrite app_nil_r. }
  assert (Hn : forall s v r, read_number 10 3 8 false s = Some (v, r) ->
            exists u, s = u ++ r /\ contains_char c_colon u = false).
  { intros t v r. unfold read_number. destruct (take_digits 10 t) as [ds r'] eqn:Ht.
    enough (exists u, t = u ++ r' /\ contains_char c_colon u = false) as Hu
      by (repeat case_match; intros; by simplify_eq).
    clear v r. revert ds r' Ht. induction t as [|c t IH]; intros ds r'; cbn; [intros [= <- <-]; by exists []|].
    destruct (to_digit 10 c) as [d|] eqn:Hd; [|intros [= <- <-]; by exists []].
    destruct (take_digits 10 t) as [ds2 r2]. intros [= <- <-]. destruct (IH _ _ eq_refl) as (u & -> & Hu).
    exists (c :: u). split; [done|]. cbn. destruct (Z.eqb_spec c c_colon) as [->|]; done. }
  intros n. induction n as [|n IH]; intros first t os r; cbn; [intros [= <- <-]; by exists []|].
  destruct (read_sep c_dot first (read_number 10 3 8 false) t) as [[o s']|] eqn:Hs; [|done].
  assert (exists u, t = u ++ s' /\ contains_char c_colon u = false) as (u & -> & Hu).
  { unfold read_sep in Hs. destruct first; [by apply Hn in Hs|].
    destruct (read_char c_dot t) as [t'|] eqn:Hc; [|done]. apply read_char_eats in Hc as ->.
    apply Hn in Hs as (u & -> & Hu). by exists (c_dot :: u). }
  destruct (read_octets n false s') as [[os' r']|] eqn:Hr; [|done]. intros [= <- <-].
  apply IH in Hr as (u' & -> & Hu'). exists (u ++ u'). rewrite app_assoc. split; [done|].
  unfold contains_char in *. by rewrite existsb_app, Hu, Hu'.
Qed.

Lemma ip_from_str_v4_colon s a : ip_from_str s = Some (V4 a) -> contains_char c_colon s = false.
Proof.
  unfold ip_from_str. destruct (read_ipv4_addr s) as [[b r]|] eqn:H4.
  - destruct r; [|done]. intros _. by apply read_ipv4_chars in H4.
  - repeat case_match; congruence.
Qed.

(** ** The [ipnet] crate *)

Class IpNetApi := {
  IpNet : Type;
  #[global] IpNet_eq_dec :: EqDecision IpNet;
  (** [IpNet::from_str]. *)
  ipnet_from_str : str -> option IpNet;
  (** [IpNet::new(ip, prefix)]; the error is its [Display] text. *)
  ipnet_new : IpAddr -> Z -> result str IpNet;
  (** [IpNet::contains] on an address. *)
  ipnet_contains : IpNet -> IpAddr -> bool;
  (** [IpNet::prefix_len]. *)
  ipnet_prefix_len : IpNet -> Z
}.

(** Documented behaviour: a network of maximal prefix length holds one address, and
    the prefix length is the one the network was built with, at most 32 or 128. *)
Class IpNetLaws `{IpNetApi} : Prop := {
  ipnet_new_host : forall ip, exists n,
    ipnet_new ip (if is_ipv4 ip then 32 else 128) = Ok n /\
    (forall ip', ipnet_contains n ip' = true <-> ip' = ip);
  ipnet_prefix_bound : forall n, 0 <= ipnet_prefix_len n <= 128
}.

(** The text of a network: an address, a slash and a prefix length; it contains the
    addresses that share the prefix. *)
Class IpNetText `{IpNetApi} : Prop := {
  ipnet_from_str_v4 : forall t u a p,
    ip_from_str t = Some (V4 a) -> parse_uint 8 u = Some p -> p <= 32 ->
    exists n, ipnet_from_str (t ++ c_slash :: u) = Some n
      /\ forall b, ipnet_contains n (V4 b) = true <-> a / 2 ^ (32 - p) = b / 2 ^ (32 - p)
}.

(** ** A reference implementation of the interface

    Shows that the interface can be met; theorems are stated for every implementation. *)
Module RefIpNet.

Record net := { addr : IpAddr; plen : Z }.

#[global] Instance net_eq_dec : EqDecision net.
Proof. solve_decision. Defined.

Definition width (ip : IpAddr) : Z := if is_ipv4 ip then 32 else 128.

Definition new (ip : IpAddr) (p : Z) : result str net :=
  if (0 <=? p) && (p <=? width ip) then Ok {| addr := ip; plen := p |}
  else Err (lit "invalid IP prefix length").

Definition from_str (s : str) : option net :=
  match split_once c_slash s with
  | Some (a, p) => match ip_from_str a, parse_uint 8 p with
                   | Some ip, Some v => ok (new ip v)
                   | _, _ => None
                   end
  | None => None
  end.

Definition same_prefix (w p a b : Z) : bool := a / 2 ^ (w - p) =? b / 2 ^ (w - p).

Definition contains (n : net) (ip : IpAddr) : bool :=
  match n.(addr), ip with
  | V4 a, V4 b => same_prefix 32 n.(plen) a b
  | V6 a, V6 b => same_prefix 128 n.(plen) a b
  | _, _ => false
  end.

Definition prefix_len (n : net) : Z := Z.max 0 (Z.min n.(plen) 128).

#[global] Instance api : IpNetApi := {|
  IpNet := net;
  ipnet_from_str := from_str;
  ipnet_new := new;
  ipnet_contains := contains;
  ipnet_prefix_len := prefix_len
|}.

#[global] Instance laws : IpNetLaws.
Proof.
  constructor.
  - intros ip. exists {| addr := ip; plen := width ip |}. split.
    + cbn. unfold new, width. by destruct ip.
    + intros ip'. destruct ip as [a|a], ip' as [b|b]; cbn;
        unfold contains, same_prefix; cbn; try (split; congruence);
        rewrite !Z.div_1_r, Z.eqb_eq; split; congruence.
  - intros n. cbn. unfold prefix_len. lia.
Qed.

#[global] Instance text : IpNetText.
Proof.
  constructor. intros t u a p Ht Hu Hp. exists {| addr := V4 a; plen := p |}. split; [|intros b; apply Z.eqb_eq].
  cbn. unfold from_str. rewrite split_once_app by (by eapply ip_from_str_no_char).
  rewrite Ht, Hu. unfold new. apply parse_uint_range in Hu as [Hu _].
  rewrite (proj2 (Z.leb_le 0 p)), (proj2 (Z.leb_le p (width (V4 a)))) by (cbn; lia). done.
Qed.

End RefIpNet.
