(* ===== verification/Hujson.v ===== *)
(** * HuJSON to JSON ([runesh-acl/src/hujson.rs]) and the errors of the ACL crate

    [to_json] is the single-pass tokenizer of the source, one [step] per character of
    the input.  Its specification is a grammar of HuJSON ([lexes]): white space,
    comments, string literals and other characters.  The theorems show that the
    tokenizer accepts exactly the inputs of the grammar and that its output is, up to
    white space outside strings, the token sequence without its trailing commas. *)
From S2P Require Import Prelude Str.

#[local] Open Scope Z_scope.

(** [AclError] of [error.rs]; texts are the formatted messages. *)
Inductive AclError : Type :=
  | InvalidHuJson (e : str)
  | InvalidPolicy (e : str)
  | UnknownGroup (g : str)
  | UnknownHost (h : str)
  | InvalidPortRange (r : str)
  | InvalidCidr (c : str)
  | CircularGroup (g : str)
  | Json (e : str)
  | UnsupportedTargetInPosition (e : str).

Module Hujson.

Inductive State : Type :=
  | Normal
  | InString
  | InStringEscape
  | InLineComment
  | InBlockComment
  | InBlockCommentStar.

(** The local variables of [to_json]. *)
Record lexer := mk {
  out : str;
  state : State;
  pending_comma : option str
}.

(** The start of a comment: [c] is a slash and the next character a slash or a star. *)
Definition comment_start (c : char) (peek : option char) : option State :=
  if c =? c_slash then
    match peek with
    | Some d => if d =? c_slash then Some InLineComment
                else if d =? c_star then Some InBlockComment
                else None
    | None => None
    end
  else None.

(** The [match c] at the end of the [Normal] arm; the flag tells whether the peeked
    character was consumed. *)
Definition normal_char (c : char) (peek : option char) (o : str) : lexer * bool :=
  if c =? c_quote then (mk (o ++ [c]) InString None, false)
  else if c =? c_slash then
    match comment_start c peek with
    | Some st => (mk o st None, true)
    | None => (mk (o ++ [c]) Normal None, false)
    end
  else if c =? c_comma then (mk o Normal (Some [c_comma]), false)
  else (mk (o ++ [c]) Normal None, false).

(** The [Normal] arm of the loop. *)
Definition step_normal (c : char) (peek : option char) (o : str) (p : option str) : lexer * bool :=
  match p with
  | Some buf =>
      if is_whitespace c then (mk o Normal (Some (buf ++ [c])), false)
      else match comment_start c peek with
           | Some st => (mk o st p, true)
           | None =>
               if (c =? c_rbracket) || (c =? c_rbrace)
               then (mk (o ++ drop 1 buf ++ [c]) Normal None, false)
               else normal_char c peek (o ++ buf)
           end
  | None => normal_char c peek o
  end.

(** One iteration of the loop. *)
Definition step (c : char) (peek : option char) (s : lexer) : lexer * bool :=
  let o := s.(out) in
  let p := s.(pending_comma) in
  match s.(state) with
  | Normal => step_normal c peek o p
  | InString =>
      (mk (o ++ [c])
          (if c =? c_backslash then InStringEscape else if c =? c_quote then Normal else InString)
          p, false)
  | InStringEscape => (mk (o ++ [c]) InString p, false)
  | InLineComment =>
      if c =? c_nl then (mk (o ++ [c_nl]) Normal p, false) else (s, false)
  | InBlockComment =>
      if c =? c_star then (mk o InBlockCommentStar p, false)
      else if c =? c_nl then (mk (o ++ [c_nl]) InBlockComment p, false)
      else (s, false)
  | InBlockCommentStar =>
      if c =? c_slash then (mk o Normal p, false)
      else if c =? c_star then (s, false)
      else (mk (if c =? c_nl then o ++ [c_nl] else o) InBlockComment p, false)
  end.

(** The [while let Some(c) = chars.next()] loop. *)
Fixpoint run (input : str) (s : lexer) : lexer :=
  match input with
  | [] => s
  | c :: rest =>
      let '(s', skip) := step c (head rest) s in
      if skip then match rest with _ :: rest' => run rest' s' | [] => s' end
      else run rest s'
  end.

(** What follows the loop. *)
Definition finish (s : lexer) : result AclError str :=
  let o := s.(out) ++ default [] s.(pending_comma) in
  match s.(state) with
  | Normal => Ok o
  | InString | InStringEscape => Err (InvalidHuJson (lit "unterminated string"))
  | InBlockComment | InBlockCommentStar => Err (InvalidHuJson (lit "unterminated block comment"))
  | InLineComment => Ok o
  end.

Definition to_json (input : str) : result AclError str := finish (run input (mk [] Normal None)).

(** [parse]; [from_str] is [serde_json::from_str] with the text of its error. *)
Definition parse {Value} (from_str : str -> result str Value) (input : str) : result AclError Value :=
  json ← to_json input;
  match from_str json with Ok v => Ok v | Err e => Err (InvalidHuJson e) end.

(** ** The grammar of HuJSON *)

Inductive token : Type :=
  | TString (body : str)   (* a literal, without its quotes, escapes kept *)
  | TChar (c : char).

(** The inside of a string literal: no bare quote, a backslash escapes the next character. *)
Inductive string_body : str -> Prop :=
  | sb_nil : string_body []
  | sb_char c s : c <> c_quote -> c <> c_backslash -> string_body s -> string_body (c :: s)
  | sb_escape d s : string_body s -> string_body (c_backslash :: d :: s).

(** The inside of a block comment: it does not close the comment. *)
Fixpoint no_close (s : str) : bool :=
  match s with
  | [] => true
  | c :: s' => negb ((c =? c_star) && bool_decide (head s' = Some c_slash)) && no_close s'
  end.

Inductive lexes : str -> list token -> Prop :=
  | lx_nil : lexes [] []
  | lx_space c s ts : is_whitespace c = true -> lexes s ts -> lexes (c :: s) ts
  | lx_line body s ts :
      contains_char c_nl body = false -> lexes s ts ->
      lexes (c_slash :: c_slash :: body ++ c_nl :: s) ts
  | lx_line_eof body :
      contains_char c_nl body = false -> lexes (c_slash :: c_slash :: body) []
  | lx_block body s ts :
      no_close body = true -> lexes s ts ->
      lexes (c_slash :: c_star :: body ++ c_star :: c_slash :: s) ts
  | lx_string body s ts :
      string_body body -> lexes s ts ->
      lexes (c_quote :: body ++ c_quote :: s) (TString body :: ts)
  | lx_char c s ts :
      c <> c_quote -> is_whitespace c = false -> comment_start c (head s) = None ->
      lexes s ts -> lexes (c :: s) (TChar c :: ts).

Definition token_eqb (t : token) (c : char) : bool :=
  match t with TChar d => d =? c | TString _ => false end.

(** A comma directly before a closing bracket or brace is dropped. *)
Fixpoint drop_trailing (ts : list token) : list token :=
  match ts with
  | [] => []
  | t :: r =>
      if token_eqb t c_comma
         && match r with u :: _ => token_eqb u c_rbracket || token_eqb u c_rbrace | [] => false end
      then drop_trailing r
      else t :: drop_trailing r
  end.

Definition token_text (t : token) : str :=
  match t with TString b => c_quote :: b ++ [c_quote] | TChar c => [c] end.
Definition flatten (ts : list token) : str := concat (map token_text ts).

(** White space outside string literals removed. *)
Inductive smode : Type := Outside | Inside | Escaped.
Fixpoint strip_ws (m : smode) (s : str) : str :=
  match s with
  | [] => []
  | c :: s' =>
      match m with
      | Outside => if c =? c_quote then c :: strip_ws Inside s'
                   else if is_whitespace c then strip_ws Outside s'
                   else c :: strip_ws Outside s'
      | Inside => c :: strip_ws (if c =? c_backslash then Escaped
                                 else if c =? c_quote then Outside else Inside) s'
      | Escaped => c :: strip_ws Inside s'
      end
  end.

(** ** Runs of the tokenizer over a piece of the grammar *)

Lemma run_skip c d rest s s' :
  step c (Some d) s = (s', true) -> run (c :: d :: rest) s = run rest s'.
Proof. intros H. cbn [run head]. by rewrite H. Qed.

Lemma run_cons c rest s s' :
  step c (head rest) s = (s', false) -> run (c :: rest) s = run rest s'.
Proof. intros H. cbn [run]. by rewrite H. Qed.

Lemma run_line body rest o p :
  contains_char c_nl body = false ->
  run (body ++ rest) (mk o InLineComment p) = run rest (mk o InLineComment p).
Proof.
  induction body as [|c body IH]; [done|]. intros Hc. apply orb_false_iff in Hc as [Hc Hb].
  cbn [app]. rewrite (run_cons _ _ _ (mk o InLineComment p)); [by apply IH|].
  cbn. by rewrite Hc.
Qed.

(** Newlines of a block comment are kept. *)
Definition newlines (body : str) : str := filter (fun c => c = c_nl) body.

Lemma newlines_cons_ne c body : c <> c_nl -> newlines (c :: body) = newlines body.
Proof. intros H. unfold newlines. by rewrite filter_cons_False. Qed.

Lemma run_block body rest o p st :
  no_close body = true ->
  (st = InBlockComment \/ st = InBlockCommentStar /\ head (body ++ [c_star]) <> Some c_slash) ->
  run (body ++ c_star :: c_slash :: rest) (mk o st p) = run rest (mk (o ++ newlines body) Normal p).
Proof.
  revert o st. induction body as [|c body IH]; intros o st Hnc Hst.
  - cbn. rewrite app_nil_r. by destruct Hst as [-> | [-> _]].
  - cbn [no_close] in Hnc. bool_prop. cbn [app].
    assert (Hstar : c = c_star -> head (body ++ [c_star]) <> Some c_slash).
    { intros ->. destruct body as [|d body]; [done|]. cbn in *.
      by apply bool_decide_eq_false in H. }
    destruct (Z.eqb_spec c c_star) as [Hc|Hc].
    + rewrite (run_cons _ _ _ (mk o InBlockCommentStar p)).
      * subst c. rewrite newlines_cons_ne by done. apply IH; auto.
      * subst c. by destruct Hst as [-> | [-> _]].
    + assert (Hs : c <> c_slash \/ st = InBlockComment).
      { destruct Hst as [-> | [-> Hh]]; [by right | left]. intros ->. done. }
      rewrite (run_cons _ _ _ (mk (if c =? c_nl then o ++ [c_nl] else o) InBlockComment p)).
      * rewrite IH by auto. destruct (Z.eqb_spec c c_nl) as [->|Hn].
        -- unfold newlines. by rewrite filter_cons_True, <- app_assoc.
        -- by rewrite newlines_cons_ne.
      * apply Z.eqb_neq in Hc.
        destruct Hst as [-> | [-> _]]; cbn; rewrite Hc; [by destruct (c =? c_nl)|].
        destruct Hs as [Hs|]; [|done]. apply Z.eqb_neq in Hs. by rewrite Hs.
Qed.

Lemma run_string body rest o p :
  string_body body ->
  run (body ++ c_quote :: rest) (mk o InString p) = run rest (mk (o ++ body ++ [c_quote]) Normal p).
Proof.
  intros Hb. revert o. induction Hb as [|c s Hq Hbs Hb IH|d s Hb IH]; intros o.
  - done.
  - cbn [app]. rewrite (run_cons _ _ _ (mk (o ++ [c]) InString p)).
    + rewrite IH, <- !app_assoc. done.
    + cbn. apply Z.eqb_neq in Hq, Hbs. by rewrite Hq, Hbs.
  - cbn [app]. rewrite (run_cons _ _ _ (mk (o ++ [c_backslash]) InStringEscape p)) by done.
    rewrite (run_cons _ _ _ (mk ((o ++ [c_backslash]) ++ [d]) InString p)) by done.
    rewrite IH, <- !app_assoc. done.
Qed.

(** ** White space in the output *)

Lemma strip_ws_space c s : is_whitespace c = true -> strip_ws Outside (c :: s) = strip_ws Outside s.
Proof.
  intros Hc. cbn. destruct (Z.eqb_spec c c_quote) as [->|_]; [done|]. by rewrite Hc.
Qed.

Lemma strip_ws_spaces ws s :
  forallb is_whitespace ws = true -> strip_ws Outside (ws ++ s) = strip_ws Outside s.
Proof.
  induction ws as [|c ws IH]; [done|]. cbn [forallb app]. intros H. bool_prop.
  rewrite strip_ws_space; auto.
Qed.

Lemma strip_ws_char c s :
  c <> c_quote -> is_whitespace c = false -> strip_ws Outside (c :: s) = c :: strip_ws Outside s.
Proof. intros Hq Hw. cbn. apply Z.eqb_neq in Hq. by rewrite Hq, Hw. Qed.

Lemma strip_ws_string body s :
  string_body body ->
  strip_ws Outside (c_quote :: body ++ c_quote :: s)
  = c_quote :: body ++ c_quote :: strip_ws Outside s.
Proof.
  intros Hb. change (strip_ws Outside (c_quote :: body ++ c_quote :: s))
    with (c_quote :: strip_ws Inside (body ++ c_quote :: s)). f_equal.
  induction Hb as [|c t Hq Hbs Hb IH|d t Hb IH]; cbn; [done| |].
  - apply Z.eqb_neq in Hq, Hbs. by rewrite Hq, Hbs, IH.
  - by rewrite IH.
Qed.

Lemma newlines_space body : forallb is_whitespace (newlines body) = true.
Proof.
  unfold newlines. induction body as [|c body IH]; [done|].
  rewrite filter_cons. destruct (decide (c = c_nl)) as [->|]; cbn; auto.
Qed.

(** ** The tokenizer follows the grammar *)

(** The buffer: a comma and the white space after it. *)
Definition wf_pending (p : option str) : Prop :=
  match p with
  | None => True
  | Some buf => exists ws, buf = c_comma :: ws /\ forallb is_whitespace ws = true
  end.

Definition pending_tokens (p : option str) : list token :=
  match p with None => [] | Some _ => [TChar c_comma] end.

(** The specification of a run from the [Normal] state. *)
Definition produces (s : str) (o : str) (p : option str) (ts : list token) : Prop :=
  exists o', finish (run s (mk o Normal p)) = Ok (o ++ o')
             /\ strip_ws Outside o' = flatten (drop_trailing (pending_tokens p ++ ts)).

(** Emitting white space first does not change what is produced. *)
Lemma produces_emit s s' o p ts ws :
  forallb is_whitespace ws = true ->
  run s (mk o Normal p) = run s' (mk (o ++ ws) Normal p) ->
  produces s' (o ++ ws) p ts -> produces s o p ts.
Proof.
  intros Hws Hrun (o' & Hf & Hs). exists (ws ++ o'). split.
  - by rewrite Hrun, Hf, app_assoc.
  - by rewrite strip_ws_spaces.
Qed.

Definition closing (c : char) : bool := (c =? c_rbracket) || (c =? c_rbrace).

(** A pending comma is flushed before a character that does not close anything. *)
Lemma run_flush c s o buf :
  is_whitespace c = false -> comment_start c (head s) = None -> closing c = false ->
  run (c :: s) (mk o Normal (Some buf)) = run (c :: s) (mk (o ++ buf) Normal None).
Proof. intros Hw Hc Hcl. cbn. unfold closing in Hcl. by rewrite Hw, Hc, Hcl. Qed.

Lemma produces_flush c s o buf t ts :
  wf_pending (Some buf) ->
  token_eqb t c_rbracket || token_eqb t c_rbrace = false ->
  run (c :: s) (mk o Normal (Some buf)) = run (c :: s) (mk (o ++ buf) Normal None) ->
  produces (c :: s) (o ++ buf) None (t :: ts) -> produces (c :: s) o (Some buf) (t :: ts).
Proof.
  intros (ws & -> & Hws) Ht Hrun (o' & Hf & Hs). exists (c_comma :: ws ++ o'). split.
  - rewrite Hrun, Hf, <- app_assoc. done.
  - rewrite strip_ws_char, strip_ws_spaces, Hs by done.
    cbn [pending_tokens app drop_trailing]. rewrite Ht. done.
Qed.

Lemma normal_char_plain c peek o :
  c <> c_quote -> c <> c_comma -> comment_start c peek = None ->
  normal_char c peek o = (mk (o ++ [c]) Normal None, false).
Proof.
  intros Hq Hco Hc. unfold normal_char. apply Z.eqb_neq in Hq, Hco. rewrite Hq, Hco, Hc.
  by destruct (c =? c_slash).
Qed.

Lemma drop_trailing_plain c ts :
  c <> c_comma -> drop_trailing (TChar c :: ts) = TChar c :: drop_trailing ts.
Proof. intros Hc. apply Z.eqb_neq in Hc. cbn [drop_trailing token_eqb]. by rewrite Hc. Qed.

(** The [lx_char] rule. *)
Lemma produces_char_none c s ts o :
  c <> c_quote -> is_whitespace c = false -> comment_start c (head s) = None ->
  (forall o p, wf_pending p -> produces s o p ts) -> produces (c :: s) o None (TChar c :: ts).
Proof.
  intros Hq Hw Hc IH. destruct (Z.eqb_spec c c_comma) as [->|Hco].
  - destruct (IH o (Some [c_comma])) as (o' & Hf & Hs); [by exists []|].
    exists o'. split; [|done]. by rewrite <- Hf.
  - destruct (IH (o ++ [c]) None I) as (o' & Hf & Hs). exists (c :: o'). split.
    + rewrite (run_cons _ _ _ (mk (o ++ [c]) Normal None)); [|by apply normal_char_plain].
      by rewrite Hf, <- app_assoc.
    + rewrite strip_ws_char, Hs by done. cbn [pending_tokens app].
      by rewrite drop_trailing_plain.
Qed.

Lemma produces_char c s ts o p :
  c <> c_quote -> is_whitespace c = false -> comment_start c (head s) = None ->
  (forall o p, wf_pending p -> produces s o p ts) ->
  wf_pending p -> produces (c :: s) o p (TChar c :: ts).
Proof.
  intros Hq Hw Hc IH Hp. destruct p as [buf|]; [|by apply produces_char_none].
  destruct (closing c) eqn:Hcl.
  - destruct Hp as (ws & -> & Hws). destruct (IH (o ++ ws ++ [c]) None I) as (o' & Hf & Hs).
    exists (ws ++ c :: o'). split.
    + rewrite (run_cons _ _ _ (mk (o ++ ws ++ [c]) Normal None)).
      * rewrite Hf, <- !app_assoc. done.
      * cbn. unfold closing in Hcl. by rewrite Hw, Hc, Hcl.
    + rewrite strip_ws_spaces, strip_ws_char, Hs by done. unfold closing in Hcl.
      assert (Hco : c <> c_comma) by (intros ->; done).
      cbn [pending_tokens app].
      change (drop_trailing (TChar c_comma :: TChar c :: ts))
        with (if (c =? c_rbracket) || (c =? c_rbrace) then drop_trailing (TChar c :: ts)
              else TChar c_comma :: drop_trailing (TChar c :: ts)).
      by rewrite Hcl, drop_trailing_plain.
  - apply produces_flush; [done|exact Hcl|by apply run_flush|by apply produces_char_none].
Qed.

(** The [lx_string] rule. *)
Lemma produces_string body s ts o p :
  string_body body -> (forall o p, wf_pending p -> produces s o p ts) ->
  wf_pending p -> produces (c_quote :: body ++ c_quote :: s) o p (TString body :: ts).
Proof.
  intros Hb IH Hp.
  assert (Hnone : forall o, produces (c_quote :: body ++ c_quote :: s) o None (TString body :: ts)).
  { intros o1. destruct (IH (o1 ++ c_quote :: body ++ [c_quote]) None I) as (o' & Hf & Hs).
    exists (c_quote :: body ++ c_quote :: o'). split.
    - rewrite (run_cons _ _ _ (mk (o1 ++ [c_quote]) InString None)) by done.
      rewrite run_string, <- app_assoc by done. cbn [app]. rewrite Hf.
      rewrite <- app_assoc. cbn [app]. by rewrite <- app_assoc.
    - rewrite strip_ws_string, Hs by done. unfold flatten.
      cbn [pending_tokens app drop_trailing token_eqb andb map concat token_text].
      cbn [app]. by rewrite <- app_assoc. }
  destruct p as [buf|]; [|done]. by apply produces_flush; [|reflexivity| apply run_flush|].
Qed.

(** Either comment opener is consumed whole, whatever is pending. *)
Lemma run_comment d rest o p st :
  comment_start c_slash (Some d) = Some st ->
  run (c_slash :: d :: rest) (mk o Normal p) = run rest (mk o st p).
Proof.
  intros H. apply run_skip. cbn [step state out pending_comma step_normal].
  destruct p; cbn [step_normal]; [change (is_whitespace c_slash) with false; cbn iota | unfold normal_char; cbn iota];
    by rewrite ?H.
Qed.

Lemma lexes_produces s ts :
  lexes s ts -> forall o p, wf_pending p -> produces s o p ts.
Proof.
  induction 1 as [|c s ts Hw _ IH|body s ts Hb _ IH|body Hb|body s ts Hb _ IH|body s ts Hb _ IH
                 |c s ts Hq Hw Hc _ IH]; intros o p Hp.
  - exists (default [] p). split; [done|]. destruct p as [buf|]; [|done].
    destruct Hp as (ws & -> & Hws). cbn [default from_option id].
    by rewrite strip_ws_char, <- (app_nil_r ws), strip_ws_spaces.
  - destruct p as [buf|].
    + destruct Hp as (ws & -> & Hws). destruct (IH o (Some (c_comma :: ws ++ [c]))) as (o' & Hf & Hs).
      { exists (ws ++ [c]). split; [done|]. rewrite forallb_app, Hws. cbn. by rewrite Hw. }
      exists o'. split; [|done].
      rewrite (run_cons _ _ _ (mk o Normal (Some ((c_comma :: ws) ++ [c])))); [done|].
      cbn. by rewrite Hw.
    + apply (produces_emit _ s _ _ _ [c]); [cbn; by rewrite Hw| |by apply IH].
      apply run_cons. apply normal_char_plain; try (intros ->; done).
      unfold comment_start. destruct (Z.eqb_spec c c_slash) as [->|]; done.
  - apply (produces_emit _ s _ _ _ [c_nl]); [done| |by apply IH].
    rewrite (run_comment _ _ _ _ InLineComment), run_line by done. by apply run_cons.
  - exists (default [] p). rewrite (run_comment _ _ _ _ InLineComment) by done.
    rewrite <- (app_nil_r body), run_line by done. split; [done|].
    destruct p as [buf|]; [|done]. destruct Hp as (ws & -> & Hws). cbn [default from_option id].
    by rewrite strip_ws_char, <- (app_nil_r ws), strip_ws_spaces.
  - apply (produces_emit _ s _ _ _ (newlines body)); [apply newlines_space| |by apply IH].
    rewrite (run_comment _ _ _ _ InBlockComment), run_block by auto. done.
  - by apply produces_string.
  - by apply produces_char.
Qed.

(** ** What the tokenizer accepts is in the grammar *)

Definition accepts (s : str) (l : lexer) : Prop := is_ok (finish (run s l)) = true.

Lemma accepts_string_inv s o p :
  (accepts s (mk o InString p) -> exists body r, string_body body /\ s = body ++ c_quote :: r)
  /\ (accepts s (mk o InStringEscape p) ->
      exists d body r, string_body body /\ s = d :: body ++ c_quote :: r).
Proof.
  revert o. induction s as [|c s IH]; intros o; [done|]. specialize (IH (o ++ [c])) as [IH1 IH2].
  split.
  - intros H. unfold accepts in H.
    erewrite run_cons in H by reflexivity.
    destruct (Z.eqb_spec c c_backslash) as [->|Hb].
    + destruct (IH2 H) as (d & body & r & Hsb & ->).
      exists (c_backslash :: d :: body), r. split; [by constructor | done].
    + destruct (Z.eqb_spec c c_quote) as [->|Hq]; [by exists [], s; repeat constructor|].
      destruct (IH1 H) as (body & r & Hsb & ->). exists (c :: body), r. by repeat constructor.
  - intros H. destruct (IH1 H) as (body & r & Hsb & ->). by exists c, body, r.
Qed.

Lemma accepts_block_inv s o p (star : bool) :
  accepts s (mk o (if star then InBlockCommentStar else InBlockComment) p) ->
  exists body r, no_close body = true
    /\ (if star then c_star :: s else s) = body ++ c_star :: c_slash :: r.
Proof.
  revert o star. induction s as [|c s IH]; intros o star H; [by destruct star|].
  unfold accepts in H. destruct star.
  - destruct (Z.eqb_spec c c_slash) as [->|Hs]; [by exists [], s|].
    destruct (Z.eqb_spec c c_star) as [->|Hst].
    + rewrite (run_cons _ _ _ (mk o InBlockCommentStar p)) in H by done.
      destruct (IH o true H) as (body & r & Hn & E). exists (c_star :: body), r.
      split; [|by rewrite E]. cbn. rewrite Hn. by destruct body; [|injection E as <- _].
    + erewrite run_cons in H; [|cbn; apply Z.eqb_neq in Hs, Hst; by rewrite Hs, Hst].
      destruct (IH _ false H) as (body & r & Hn & ->). exists (c_star :: c :: body), r.
      split; [|done]. cbn. rewrite Hn. apply Z.eqb_neq in Hst. rewrite Hst.
      rewrite bool_decide_eq_false_2 by congruence. done.
  - destruct (Z.eqb_spec c c_star) as [->|Hst].
    + rewrite (run_cons _ _ _ (mk o InBlockCommentStar p)) in H by done. exact (IH o true H).
    + erewrite (run_cons _ _ _ (mk (if c =? c_nl then o ++ [c_nl] else o) InBlockComment p)) in H.
      * destruct (IH _ false H) as (body & r & Hn & ->). exists (c :: body), r.
        split; [|done]. cbn. rewrite Hn. apply Z.eqb_neq in Hst. by rewrite Hst.
      * cbn. apply Z.eqb_neq in Hst. rewrite Hst. by destruct (c =? c_nl).
Qed.

(** A character that neither opens a string nor a comment leaves the state [Normal]. *)
Lemma run_plain c s o p :
  c <> c_quote -> comment_start c (head s) = None ->
  exists o' p', run (c :: s) (mk o Normal p) = run s (mk o' Normal p').
Proof.
  intros Hq Hc.
  assert (Hn : forall o1, exists o' p', normal_char c (head s) o1 = (mk o' Normal p', false)).
  { intros o1. destruct (Z.eqb_spec c c_comma) as [->|]; [by eexists _, _|].
    rewrite normal_char_plain by done. by eexists _, _. }
  assert (exists o' p', step c (head s) (mk o Normal p) = (mk o' Normal p', false))
    as (o' & p' & Hs).
  { cbn. destruct p as [buf|]; cbn; [|done]. rewrite Hc.
    repeat case_match; [by eexists _, _ ..|apply Hn]. }
  exists o', p'. by apply run_cons.
Qed.

Lemma comment_start_inv c peek st :
  comment_start c peek = Some st ->
  c = c_slash /\ (peek = Some c_slash /\ st = InLineComment
                  \/ peek = Some c_star /\ st = InBlockComment).
Proof. unfold comment_start. intros H. repeat case_match; bool_prop; simplify_eq; auto. Qed.

Lemma accepts_comment_inv (n : nat) s o p st d :
  (forall s' o p, (length s' < n)%nat -> accepts s' (mk o Normal p) -> exists ts, lexes s' ts) ->
  (length s < n)%nat ->
  comment_start c_slash (Some d) = Some st -> accepts s (mk o st p) ->
  exists ts, lexes (c_slash :: d :: s) ts.
Proof.
  intros IH Hlen Hst H.
  apply comment_start_inv in Hst as (_ & [[[= ->] ->] | [[= ->] ->]]).
  - destruct (split_once c_nl s) as [[body r]|] eqn:E.
    + apply split_once_spec in E as [-> Hb]. rewrite length_app in Hlen. cbn in Hlen.
      unfold accepts in H. rewrite run_line in H by done.
      rewrite (run_cons _ _ _ (mk (o ++ [c_nl]) Normal p)) in H by done.
      destruct (IH r (o ++ [c_nl]) p) as [ts Hts]; [lia|done|]. eexists. by apply lx_line.
    + apply split_once_none in E. eexists. by apply lx_line_eof.
  - destruct (accepts_block_inv s o p false H) as (body & r & Hn & ->).
    rewrite length_app in Hlen. cbn in Hlen. unfold accepts in H. rewrite run_block in H by auto.
    destruct (IH r _ _ ltac:(lia) H) as [ts Hts]. eexists. by apply lx_block.
Qed.

Lemma accepts_lexes (n : nat) s o p :
  (length s < n)%nat -> accepts s (mk o Normal p) -> exists ts, lexes s ts.
Proof.
  revert s o p. induction n as [|n IH]; intros s o p Hlen H; [lia|].
  destruct s as [|c s]; [eexists; constructor|]. cbn in Hlen.
  destruct (Z.eqb_spec c c_quote) as [->|Hq].
  - unfold accepts in H. rewrite (run_cons _ _ _ (mk (match p with Some b => o ++ b | None => o end ++ [c_quote])
                               InString None)) in H by by destruct p.
    pose proof H as H'. apply accepts_string_inv in H' as (body & r & Hb & ->).
    rewrite run_string in H by done. rewrite length_app in Hlen. cbn in Hlen.
    destruct (IH r _ _ ltac:(lia) H) as [ts Hts]. eexists. by apply lx_string.
  - destruct (comment_start c (head s)) as [st|] eqn:Hc.
    + pose proof (comment_start_inv _ _ _ Hc) as [-> Hhd].
      destruct s as [|d s]; [by destruct Hhd as [[??]|[??]]|]. cbn [head] in Hc. cbn in Hlen.
      unfold accepts in H. rewrite (run_comment _ _ _ _ st) in H by done.
      apply (accepts_comment_inv n s o p st); auto; lia.
    + destruct (run_plain c s o p Hq Hc) as (o' & p' & Hr).
      unfold accepts in H. rewrite Hr in H. destruct (IH s o' p' ltac:(lia) H) as [ts Hts].
      destruct (is_whitespace c) eqn:Hw; eexists; [by apply lx_space | by apply lx_char].
Qed.

(** ** Theorems *)

(** C25: HuJSON conversion meets the grammar: [to_json] succeeds on exactly
    the inputs of the grammar, and then its output is, up to white space outside string
    literals, the tokens of the input (string literals kept verbatim, comments gone)
    without the commas that directly precede a closing bracket or brace. *)
Theorem to_json_spec input :
  (is_ok (to_json input) = true <-> exists ts, lexes input ts)
  /\ forall ts, lexes input ts ->
       exists o, to_json input = Ok o /\ strip_ws Outside o = flatten (drop_trailing ts).
Proof.
  split; [split|].
  - intros H. by apply (accepts_lexes (S (length input)) input [] None); [lia|].
  - intros [ts Hts]. destruct (lexes_produces _ _ Hts [] None I) as (o' & Hf & _).
    unfold to_json. by rewrite Hf.
  - intros ts Hts. destruct (lexes_produces _ _ Hts [] None I) as (o' & Hf & Hs). by exists o'.
Qed.

(** On an array with a comment after a trailing comma. *)
Lemma to_json_spec_witness :
  exists o, to_json (lit "[1, /*x*/ ]") = Ok o /\ strip_ws Outside o = lit "[1]".
Proof.
  apply (proj2 (to_json_spec (lit "[1, /*x*/ ]"))
           [TChar c_lbracket; TChar 49; TChar c_comma; TChar c_rbracket]).
  repeat (apply lx_char; [done..|]). apply lx_space; [done|].
  apply (lx_block (lit "x") (lit " ]")); [done|]. apply lx_space; [done|].
  apply lx_char; [done..|]. apply lx_nil.
Defined.

End Hujson.
