(* ===== verification/AclModel.v ===== *)
(** * The ACL policy document ([runesh-acl/src/model.rs])

    The policy record, the parsers of targets, destinations and ports, and group
    resolution.  Group expansion recurses through the [groups] map; the model runs it with
    fuel and the theorems show that one more than the number of declared groups is always
    enough.  The specification of a group is the inductive relation [member]. *)
From S2P Require Import Prelude Str Net Hujson.

#[local] Open Scope Z_scope.

(** [serde_json::Value], carried by the policy without being inspected. *)
Class SerdeJson := { Value : Type }.

Inductive AclAction : Type := Accept | Deny.
#[global] Instance AclAction_eq_dec : EqDecision AclAction.
Proof. solve_decision. Defined.

Record AclRule := {
  action : AclAction;
  src : list str;
  dst : list str;
  proto : option str
}.

Inductive SshAction : Type := Ssh_Accept | Ssh_Check.

Record SshRule := {
  ssh_action : SshAction;
  ssh_src : list str;
  ssh_dst : list str;
  users : list str;
  check_period : option str;
  accept_env : option (list str)
}.

Record AutoApprovers := { routes : gmap str (list str); exit_node : list str }.
Record NodeAttrRule := { target : list str; attr : list str }.

Record AclTest := {
  test_src : str;
  test_proto : option str;
  test_accept : list str;
  test_deny : list str;
  test_src_posture_attrs : option (gmap str str)
}.

Record SshTest := {
  sshtest_src : str;
  sshtest_dst : list str;
  sshtest_accept : list str;
  sshtest_check : list str;
  sshtest_deny : list str;
  sshtest_src_posture_attrs : option (gmap str str)
}.

Record AclPolicy `{SerdeJson} := {
  groups : gmap str (list str);
  hosts : gmap str str;
  tag_owners : gmap str (list str);
  acls : list AclRule;
  ssh : list SshRule;
  auto_approvers : option AutoApprovers;
  node_attrs : list NodeAttrRule;
  ipsets : gmap str (list str);
  postures : gmap str (list str);
  tests : list AclTest;
  ssh_tests : list SshTest;
  derp_map : option Value
}.

(** ** Ports *)

Record PortRange := { start : Z; end_ : Z }.
#[global] Instance PortRange_eq_dec : EqDecision PortRange.
Proof. solve_decision. Defined.

Definition single (port : Z) : PortRange := {| start := port; end_ := port |}.
Definition range (s e : Z) : PortRange := {| start := s; end_ := e |}.
Definition range_contains (r : PortRange) (port : Z) : bool :=
  (r.(start) <=? port) && (port <=? r.(end_)).

Inductive PortSet : Type :=
  | PortSet_Any
  | Ports (ranges : list PortRange).

Definition ports_contain (ps : PortSet) (port : Z) : bool :=
  match ps with
  | PortSet_Any => true
  | Ports ranges => existsb (fun r => range_contains r port) ranges
  end.

(** One comma-separated part of a port specification. *)
Definition parse_port_part (part0 : str) : result AclError PortRange :=
  let part := trim part0 in
  match split_once c_minus part with
  | Some (s, e) =>
      s' ← ok_or (InvalidPortRange part) (parse_uint 16 (trim s));
      e' ← ok_or (InvalidPortRange part) (parse_uint 16 (trim e));
      Ok (range s' e')
  | None => p ← ok_or (InvalidPortRange part) (parse_uint 16 part); Ok (single p)
  end.

Definition parse_ports (s : str) : result AclError PortSet :=
  if bool_decide (s = lit "*") then Ok PortSet_Any
  else
    ranges ← try_for (fun part acc => r ← parse_port_part part; Ok (acc ++ [r]))
                     (split c_comma s) [];
    Ok (Ports ranges).

(** ** Targets *)

Section Targets.
Context `{IpNetApi}.

Inductive AclTarget : Type :=
  | Target_Any
  | Group (g : str)
  | User (u : str)
  | Tag (t : str)
  | Ip (ip : IpAddr)
  | Cidr (net : IpNet)
  | HostAlias (h : str)
  | Autogroup (name : str).

Record DstTarget := { host : AclTarget; ports : PortSet }.

Definition group_prefix : str := lit "group:".

Definition parse_target (s : str) : AclTarget :=
  if bool_decide (s = lit "*") then Target_Any
  else match strip_prefix group_prefix s with
  | Some name => Group (group_prefix ++ name)
  | None =>
  match strip_prefix (lit "tag:") s with
  | Some name => Tag (lit "tag:" ++ name)
  | None =>
  match strip_prefix (lit "autogroup:") s with
  | Some name => Autogroup name
  | None =>
  match ipnet_from_str s with
  | Some net => Cidr net
  | None =>
  match ip_from_str s with
  | Some ip => Ip ip
  | None => if contains_char c_at s then User s else HostAlias s
  end end end end end.

(** The cut of [parse_dst] into host and port text. *)
Definition split_dst (s : str) : result AclError (str * str) :=
  if bool_decide (head s = Some c_lbracket) then
    match split_once c_rbracket s with
    | None => Err (InvalidPolicy (lit "unterminated IPv6 bracket: " ++ s))
    | Some (a, rest) =>
        let h := a ++ [c_rbracket] in
        match strip_prefix (lit ":") rest with
        | Some port => Ok (h, port)
        | None => Ok (h, lit "*")
        end
    end
  else match rsplit_once c_colon s with
       | Some (h, port) => Ok (h, port)
       | None => Ok (s, lit "*")
       end.

Definition parse_dst (s : str) : result AclError DstTarget :=
  if bool_decide (s = lit "*:*") then Ok {| host := Target_Any; ports := PortSet_Any |}
  else
    '(host_part, port_part) ← split_dst s;
    let h := parse_target host_part in
    ps ← parse_ports port_part;
    Ok {| host := h; ports := ps |}.

Definition parse_ip_or_cidr (s : str) : result AclError IpNet :=
  match ipnet_from_str s with
  | Some net => Ok net
  | None =>
      match ip_from_str s with
      | Some ip =>
          let prefix := if is_ipv4 ip then 32 else 128 in
          match ipnet_new ip prefix with Ok n => Ok n | Err e => Err (InvalidCidr e) end
      | None => Err (InvalidCidr s)
      end
  end.

Definition resolve_host `{SerdeJson} (p : AclPolicy) (name : str) : result AclError IpNet :=
  addr ← ok_or (UnknownHost name) (p.(hosts) !! name);
  parse_ip_or_cidr addr.

End Targets.

(** ** Groups *)

Section Groups.
Context `{SerdeJson}.

Definition is_group (m : str) : bool := starts_with group_prefix m.

(** [check_group_cycle]: the visited set is threaded through and restored on success. *)
Fixpoint check_group_cycle (fuel : nat) (p : AclPolicy) (name : str) (visited : gset str)
  : result (fault AclError) (gset str) :=
  match fuel with
  | O => Err OutOfFuel
  | S n =>
      if decide (name ∈ visited) then Err (Fails (CircularGroup name))
      else
        v ← match p.(groups) !! name with
            | Some members =>
                try_for (fun m v => if is_group m then check_group_cycle n p m v else Ok v)
                        members ({[name]} ∪ visited)
            | None => Ok ({[name]} ∪ visited)
            end;
        Ok (v ∖ {[name]})
  end.

(** [resolve_group_inner]: the state is the result vector and the visited set. *)
Fixpoint resolve_group_inner (fuel : nat) (p : AclPolicy) (name : str) (st : list str * gset str)
  : result (fault AclError) (list str * gset str) :=
  match fuel with
  | O => Err OutOfFuel
  | S n =>
      let '(result, visited) := st in
      if decide (name ∈ visited) then Err (Fails (CircularGroup name))
      else
        members ← ok_or (Fails (UnknownGroup name)) (p.(groups) !! name);
        '(r, v) ← try_for (fun m st => if is_group m then resolve_group_inner n p m st
                                       else Ok (st.1 ++ [m], st.2))
                          members (result, {[name]} ∪ visited);
        Ok (r, v ∖ {[name]})
  end.

(** The fuel: one more than the number of declared groups. *)
Definition group_fuel (p : AclPolicy) : nat := S (size p.(groups)).

Definition resolve_group (p : AclPolicy) (name : str) : result (fault AclError) (list str) :=
  '(r, _) ← resolve_group_inner (group_fuel p) p name ([], ∅);
  Ok r.

Definition check_key (prefix msg : str) (key : str) : result (fault AclError) unit :=
  if starts_with prefix key then Ok tt else Err (Fails (InvalidPolicy (msg ++ key))).

(** [validate]; the iteration orders of the two maps are arguments. *)
Definition validate (gl : list (str * list str)) (tl : list (str * list str)) (p : AclPolicy)
  : result (fault AclError) unit :=
  _ ← try_for (fun kv _ => check_key group_prefix (lit "group key must start with 'group:': ") kv.1)
              gl tt;
  _ ← try_for (fun kv _ => check_key (lit "tag:") (lit "tagOwners key must start with 'tag:': ") kv.1)
              tl tt;
  try_for (fun kv _ => _ ← check_group_cycle (group_fuel p) p kv.1 ∅; Ok tt) gl tt.

(** [from_json] and [from_hujson]: [from_str] is [serde_json::from_str], [order] the
    iteration order of a map. *)
Definition from_json (from_str : str -> result str AclPolicy)
    (order : gmap str (list str) -> list (str * list str)) (input : str)
  : result (fault AclError) AclPolicy :=
  policy ← match from_str input with Ok p => Ok p | Err e => Err (Fails (InvalidPolicy e)) end;
  _ ← validate (order policy.(groups)) (order policy.(tag_owners)) policy;
  Ok policy.

Definition from_hujson (from_str : str -> result str AclPolicy)
    (order : gmap str (list str) -> list (str * list str)) (input : str)
  : result (fault AclError) AclPolicy :=
  json ← match Hujson.to_json input with Ok j => Ok j | Err e => Err (Fails e) end;
  from_json from_str order json.

End Groups.

Arguments resolve_group : simpl never.
Arguments resolve_host : simpl never.
Arguments parse_dst : simpl never.
Arguments parse_target : simpl never.

(** ** Group resolution: specification and proofs *)

Section GroupSpec.
Context `{SerdeJson} (p : AclPolicy).

(** [edge g h]: the declared group [g] lists the group [h]. *)
Definition edge (g h : str) : Prop :=
  exists ms, p.(groups) !! g = Some ms /\ h ∈ ms /\ is_group h = true.

Definition declared (g : str) : Prop := is_Some (p.(groups) !! g).

(** The members of a group: its direct ones and those of the groups it lists. *)
Inductive member : str -> str -> Prop :=
  | member_direct g ms m :
      p.(groups) !! g = Some ms -> m ∈ ms -> is_group m = false -> member g m
  | member_nested g h m : edge g h -> member h m -> member g m.

(** No group reachable from [g] reaches itself. *)
Definition acyclic_from (g : str) : Prop := forall h, star edge g h -> ~ plus edge h h.

(** A group from which the walk meets the visited set or a cycle. *)
Definition circular (visited : gset str) (g : str) : Prop :=
  (exists h, star edge g h /\ h ∈ visited) \/ ~ acyclic_from g.

Lemma edge_intro g ms h : p.(groups) !! g = Some ms -> h ∈ ms -> is_group h = true -> edge g h.
Proof. intros. by exists ms. Qed.
#[local] Hint Resolve edge_intro : rust.

Lemma undeclared_star g h : p.(groups) !! g = None -> star edge g h -> h = g.
Proof. intros Hg Hs. destruct Hs as [|a b c (ms & Hms & _) _]; [done|congruence]. Qed.

(** The loops of the two walks, on the members of a declared group. *)
Lemma visited_restored (visited : gset str) (name : str) :
  name ∉ visited -> ({[name]} ∪ visited) ∖ {[name]} = visited.
Proof. set_solver. Qed.

Lemma check_ok_visited fuel name visited v' :
  check_group_cycle fuel p name visited = Ok v' -> v' = visited.
Proof.
  revert name visited v'. induction fuel as [|n IH]; intros name visited v'; cbn; [done|].
  destruct (decide (name ∈ visited)); [done|]. intros Hb.
  apply bind_ok_inv in Hb as (v & Hv & [= <-]).
  assert (v = {[name]} ∪ visited) as ->; [|by apply visited_restored].
  destruct (groups p !! name) as [ms|]; [|by injection Hv].
  eapply try_for_const_ok in Hv as [-> _]; [done|].
  intros x s' _. cbn. case_match; [apply IH | by intros [= <-]].
Qed.

(** A step of the walk leaves the visited set alone. *)
Lemma check_step_const (n : nat) (v : gset str) (l : list str) (m : str) (s' : gset str) :
  m ∈ l -> (if is_group m then check_group_cycle n p m v else Ok v) = Ok s' -> s' = v.
Proof. intros _. case_match; [apply check_ok_visited | by intros [= <-]]. Qed.

(** Success: nothing reachable is visited or on a cycle. *)
Lemma check_ok_spec fuel name visited v' :
  check_group_cycle fuel p name visited = Ok v' -> ~ circular visited name.
Proof.
  revert name visited v'. induction fuel as [|n IH]; intros name visited v'; cbn; [done|].
  destruct (decide (name ∈ visited)) as [|Hni]; [done|]. intros Hb.
  apply bind_ok_inv in Hb as (v & Hv & _).
  assert (Hnext : forall h, edge name h -> ~ circular ({[name]} ∪ visited) h).
  { intros h (ms & Hms & Hh & Hgh). rewrite Hms in Hv.
    apply try_for_const_ok in Hv as [_ Hall]; [|intros x s'; apply check_step_const].
    specialize (Hall h Hh). cbn in Hall. rewrite Hgh in Hall. by eapply IH. }
  intros [(h & Hs & Hh) | Hc].
  - destruct Hs as [g|g m h Hgm Hmh]; [done|]. apply (Hnext m Hgm). left. exists h. set_solver.
  - apply Hc. intros h Hs (m & Hhm & Hmh). destruct Hs as [g|g m' h Hgm Hm'h].
    + apply (Hnext m Hhm). left. exists g. set_solver.
    + apply (Hnext m' Hgm). right. intros Ha. apply (Ha h Hm'h). by exists m.
Qed.

(** An error of a member is an error of the group. *)
Lemma circular_step name visited h :
  name ∉ visited -> edge name h -> circular ({[name]} ∪ visited) h -> circular visited name.
Proof.
  intros Hni He [(k & Hs & Hk) | Hc].
  - apply elem_of_union in Hk as [->%elem_of_singleton | Hk].
    + right. intros Ha. apply (Ha name); [constructor|]. by exists h.
    + left. exists k. split; [by eapply star_step | done].
  - right. intros Ha. apply Hc. intros k Hs. apply Ha. by eapply star_step.
Qed.

Lemma check_err_spec fuel name visited e :
  check_group_cycle fuel p name visited = Err (Fails e) ->
  circular visited name /\ exists g, e = CircularGroup g.
Proof.
  revert name visited e. induction fuel as [|n IH]; intros name visited e; cbn; [done|].
  destruct (decide (name ∈ visited)) as [Hi|Hni].
  { intros [= <-]. split; [|by eexists]. left. exists name. split; [constructor | done]. }
  destruct (groups p !! name) as [ms|] eqn:Hms; [|done]. cbn.
  destruct (try_for _ ms _) as [v|e'] eqn:Hl; [done|]. intros [= ->].
  apply try_for_const_err in Hl as (m & Hm & Hme); [|intros x s'; apply check_step_const].
  cbn in Hme. destruct (is_group m) eqn:Hg; [|done]. apply IH in Hme as [Hc He].
  split; [|done]. eapply circular_step; eauto with rust.
Qed.

(** The fuel decreases with the declared groups not yet visited. *)
Definition unvisited (visited : gset str) : nat := size (dom p.(groups) ∖ visited).

Lemma unvisited_step name visited :
  declared name -> name ∉ visited ->
  (unvisited ({[name]} ∪ visited) < unvisited visited)%nat.
Proof.
  intros Hd Hni. apply elem_of_dom in Hd. unfold unvisited. apply subset_size.
  split; [set_solver|]. intros Hsub. specialize (Hsub name). set_solver.
Qed.

Lemma unvisited_fuel : (unvisited ∅ < group_fuel p)%nat.
Proof. unfold unvisited, group_fuel. rewrite difference_empty_L, size_dom. lia. Qed.

Lemma check_fuel fuel name visited :
  (unvisited visited < fuel)%nat -> check_group_cycle fuel p name visited <> Err OutOfFuel.
Proof.
  revert name visited. induction fuel as [|n IH]; intros name visited Hf; [lia|]. cbn.
  destruct (decide (name ∈ visited)) as [Hi|Hni]; [done|].
  destruct (groups p !! name) as [ms|] eqn:Hms; [|done]. cbn.
  destruct (try_for _ ms _) as [v|e'] eqn:Hl; [done|]. intros [= ->].
  apply try_for_const_err in Hl as (m & Hm & Hme); [|intros x s'; apply check_step_const].
  cbn in Hme. case_match; [|done]. eapply IH; [|exact Hme].
  enough (unvisited ({[name]} ∪ visited) < unvisited visited)%nat by lia.
  apply unvisited_step; [by eexists | done].
Qed.

(** With the fuel of the model the cycle check decides circularity. *)
Lemma check_decides name :
  match check_group_cycle (group_fuel p) p name ∅ with
  | Ok _ => acyclic_from name
  | Err e => ~ acyclic_from name /\ exists g, e = Fails (CircularGroup g)
  end.
Proof.
  pose proof (check_fuel (group_fuel p) name ∅ unvisited_fuel) as Hfuel.
  destruct (check_group_cycle _ _ _ _) as [v|[e|]] eqn:E; [| |done].
  - apply check_ok_spec in E. intros h Hs Hp. apply E. right. intros Ha. by apply (Ha h).
  - apply check_err_spec in E as [[(h & _ & Hh) | Hc] (g & ->)]; [set_solver|eauto].
Qed.

(** [resolve_group_inner] appends the members of the group and restores the visited set. *)
Definition resolves (name : str) (st st' : list str * gset str) : Prop :=
  st'.2 = st.2 /\ exists ms, st'.1 = st.1 ++ ms /\ forall m, m ∈ ms <-> member name m.

(** What the members of a list contribute. *)
Definition contributes (l : list str) (m : str) : Prop :=
  m ∈ l /\ is_group m = false \/ exists h, h ∈ l /\ is_group h = true /\ member h m.

Lemma contributes_app l1 l2 m : contributes (l1 ++ l2) m <-> contributes l1 m \/ contributes l2 m.
Proof. unfold contributes. setoid_rewrite elem_of_app. naive_solver. Qed.

Lemma contributes_group h m : is_group h = true -> contributes [h] m <-> member h m.
Proof.
  intros Hh. unfold contributes. setoid_rewrite list_elem_of_singleton.
  split; [intros [[-> ?] | (k & -> & _ & ?)]; [congruence | done] | right; eauto].
Qed.

Lemma contributes_plain x m : is_group x = false -> contributes [x] m <-> m = x.
Proof.
  intros Hh. unfold contributes. setoid_rewrite list_elem_of_singleton.
  split; [intros [[-> ?] | (k & -> & ? & _)]; [done | congruence] | intros ->; by left].
Qed.

Lemma resolve_loop (f : str -> list str * gset str -> result (fault AclError) (list str * gset str))
    l st st' :
  (forall h st st', is_group h = true -> f h st = Ok st' -> resolves h st st') ->
  try_for (fun m st => if is_group m then f m st else Ok (st.1 ++ [m], st.2)) l st = Ok st' ->
  st'.2 = st.2 /\ exists ms, st'.1 = st.1 ++ ms /\ forall m, m ∈ ms <-> contributes l m.
Proof.
  intros Hf. revert st. induction l as [|x l IH]; intros st; rewrite ?try_for_cons.
  - intros [= <-]. split; [done|]. exists []. split; [by rewrite app_nil_r|].
    intros m. split; [by intros ?%not_elem_of_nil|].
    by intros [[?%not_elem_of_nil _] | (h & ?%not_elem_of_nil & _)].
  - intros (st1 & H1 & H2)%bind_ok_inv. apply IH in H2 as (Hv & ms & Hr & Hms).
    assert (Hx : st1.2 = st.2 /\ exists mx, st1.1 = st.1 ++ mx /\
              forall m, m ∈ mx <-> contributes [x] m).
    { destruct (is_group x) eqn:Hg.
      - apply Hf in H1 as (? & mx & ? & Hmx); [|done]. split; [done|]. exists mx.
        split; [done|]. intros m. by rewrite Hmx, contributes_group.
      - injection H1 as <-. split; [done|]. exists [x]. split; [done|].
        intros m. by rewrite contributes_plain, list_elem_of_singleton. }
    destruct Hx as (Hv1 & mx & Hr1 & Hmx). split; [congruence|]. exists (mx ++ ms).
    split; [by rewrite Hr, Hr1, app_assoc|]. intros m.
    by rewrite elem_of_app, Hmx, Hms, (contributes_app [x] l).
Qed.

Lemma contributes_member name ms m :
  p.(groups) !! name = Some ms -> contributes ms m <-> member name m.
Proof.
  intros Hms. split.
  - intros [[Hm Hg] | (h & Hh & Hg & Hm)]; [by eapply member_direct|].
    eapply member_nested; eauto with rust.
  - intros Hm. destruct Hm as [g ms' m Hg Hin Hng | g h m (ms' & Hg & Hin & Hgh) Hm];
      rewrite Hms in Hg; injection Hg as <-; [by left | right; eauto].
Qed.

Lemma resolve_ok_spec fuel name st st' :
  resolve_group_inner fuel p name st = Ok st' -> resolves name st st'.
Proof.
  revert name st st'. induction fuel as [|n IH]; intros name [r v] st'; cbn; [done|].
  destruct (decide (name ∈ v)) as [|Hni]; [done|].
  intros (ms & Hms%ok_or_ok & ([r1 v1] & Hl & [= <-])%bind_ok_inv)%bind_ok_inv.
  apply resolve_loop in Hl as (Hv & mx & Hr & Hmx); [|auto]. cbn in *. subst.
  split; [by apply visited_restored|]. exists mx. split; [done|].
  intros m. by rewrite Hmx, contributes_member.
Qed.

Definition resolve_step (n : nat) (m : str) (st : list str * gset str)
  : result (fault AclError) (list str * gset str) :=
  if is_group m then resolve_group_inner n p m st else Ok (st.1 ++ [m], st.2).

Lemma resolve_step_visited (n : nat) (v : gset str) m st st' :
  st.2 = v -> resolve_step n m st = Ok st' -> st'.2 = v.
Proof.
  intros <-. unfold resolve_step. case_match; [|by intros [= <-]].
  by intros [Hv _]%resolve_ok_spec.
Qed.

(** Success: everything reachable is declared, and nothing is circular. *)
Lemma resolve_ok_reach fuel name st st' :
  resolve_group_inner fuel p name st = Ok st' ->
  ~ circular st.2 name /\ forall h, star edge name h -> declared h.
Proof.
  revert name st st'. induction fuel as [|n IH]; intros name [r v] st'; cbn; [done|].
  destruct (decide (name ∈ v)) as [|Hni]; [done|].
  intros (ms & Hms%ok_or_ok & ([r1 v1] & Hl & _)%bind_ok_inv)%bind_ok_inv.
  apply (try_for_inv_ok _ (fun st => st.2 = {[name]} ∪ v)) in Hl as [_ Hall]; [| |done].
  2: { intros x s1 s2 _. by apply (resolve_step_visited n). }
  assert (Hnext : forall h, edge name h ->
            ~ circular ({[name]} ∪ v) h /\ forall k, star edge h k -> declared k).
  { intros h (ms' & Hms' & Hh & Hgh). assert (ms' = ms) as -> by congruence.
    destruct (Hall h Hh) as (s1 & s2 & Hv & Hr). rewrite Hgh in Hr. apply IH in Hr.
    by rewrite Hv in Hr. }
  split.
  - intros [(h & Hs & Hh) | Hc].
    + destruct Hs as [g|g m h Hgm Hmh]; [done|]. apply (Hnext m Hgm). left. exists h. set_solver.
    + apply Hc. intros h Hs (m & Hhm & Hmh). destruct Hs as [g|g m' h Hgm Hm'h].
      * apply (Hnext m Hhm). left. exists g. set_solver.
      * apply (Hnext m' Hgm). right. intros Ha. apply (Ha h Hm'h). by exists m.
  - intros h Hs. destruct Hs as [g|g m h Hgm Hmh]; [by exists ms|]. by apply (Hnext m Hgm).
Qed.

(** The errors of group resolution. *)
Definition resolve_fails (visited : gset str) (name : str) (e : AclError) : Prop :=
  (exists g, e = CircularGroup g) /\ circular visited name
  \/ exists g, e = UnknownGroup g /\ star edge name g /\ ~ declared g.

Lemma resolve_err_spec fuel name st e :
  resolve_group_inner fuel p name st = Err (Fails e) -> resolve_fails st.2 name e.
Proof.
  revert name st e. induction fuel as [|n IH]; intros name [r v] e; cbn; [done|].
  destruct (decide (name ∈ v)) as [Hi|Hni].
  { intros [= <-]. left. split; [by eexists|]. left. exists name. split; [constructor | done]. }
  destruct (groups p !! name) as [ms|] eqn:Hms; cbn.
  2: { intros [= <-]. right. exists name. split; [done|]. split; [constructor|].
       intros [ms Hd]. congruence. }
  destruct (try_for _ ms _) as [[r1 v1]|e'] eqn:Hl; [done|]. cbn. intros [= ->].
  apply (try_for_inv_err _ (fun st => st.2 = {[name]} ∪ v)) in Hl as (m & s1 & Hm & Hv & Hme);
    [| |done].
  2: { intros x s1 s2 _. by apply (resolve_step_visited n). }
  destruct (is_group m) eqn:Hg; [|done]. apply IH in Hme. rewrite Hv in Hme.
  destruct Hme as [[He Hc] | (g & He & Hs & Hd)].
  - left. split; [done|]. eapply circular_step; eauto with rust.
  - right. exists g. split; [done|]. split; [|done]. eapply star_step; eauto with rust.
Qed.

Lemma resolve_fuel fuel name st :
  (unvisited st.2 < fuel)%nat -> resolve_group_inner fuel p name st <> Err OutOfFuel.
Proof.
  revert name st. induction fuel as [|n IH]; intros name [r v] Hf; [lia|]. cbn in *.
  destruct (decide (name ∈ v)) as [Hi|Hni]; [done|].
  destruct (groups p !! name) as [ms|] eqn:Hms; [|done]. cbn.
  destruct (try_for _ ms _) as [[r1 v1]|e'] eqn:Hl; [done|]. cbn. intros [= ->].
  apply (try_for_inv_err _ (fun st => st.2 = {[name]} ∪ v)) in Hl as (m & s1 & Hm & Hv & Hme);
    [| |done].
  2: { intros x s1 s2 _. by apply (resolve_step_visited n). }
  destruct (is_group m); [|done]. eapply IH; [|exact Hme]. rewrite Hv.
  enough (unvisited ({[name]} ∪ v) < unvisited v)%nat by lia.
  apply unvisited_step; [by eexists | done].
Qed.

End GroupSpec.

(** ** Theorems *)

Section PolicyTheorems.
Context `{SerdeJson}.

Lemma circular_empty (p : AclPolicy) name : circular p ∅ name -> ~ acyclic_from p name.
Proof. intros [(h & _ & Hh) | Hc]; [set_solver | done]. Qed.

Lemma not_circular_acyclic (p : AclPolicy) v name : ~ circular p v name -> acyclic_from p name.
Proof. intros Hc h Hs Hp. apply Hc. right. intros Ha. by apply (Ha h). Qed.

(** Every group reachable from the group is declared and on no cycle. *)
Definition resolvable (p : AclPolicy) (name : str) : Prop :=
  acyclic_from p name /\ forall h, star (edge p) name h -> declared p h.

Lemma resolve_group_ok (p : AclPolicy) name ms :
  resolve_group p name = Ok ms -> resolvable p name /\ forall m, m ∈ ms <-> member p name m.
Proof.
  unfold resolve_group. intros ([r v] & E & [= <-])%bind_ok_inv.
  pose proof E as Hreach. apply resolve_ok_spec in E as (_ & mx & Hr & Hms). cbn in Hr. subst r.
  apply resolve_ok_reach in Hreach as [Hc Hd].
  split; [|done]. split; [by eapply not_circular_acyclic | done].
Qed.

Lemma resolve_group_err (p : AclPolicy) name e :
  resolve_group p name = Err e ->
  (exists g, e = Fails (CircularGroup g)) /\ ~ acyclic_from p name
  \/ exists g, e = Fails (UnknownGroup g) /\ star (edge p) name g /\ ~ declared p g.
Proof.
  unfold resolve_group.
  pose proof (resolve_fuel p (group_fuel p) name ([], ∅) (unvisited_fuel p)) as Hfuel.
  destruct (resolve_group_inner _ _ _ _) as [[r v]|[e'|]] eqn:E; cbn; [done| |done].
  intros [= <-]. apply resolve_err_spec in E as [[(g & ->) Hc] | (g & -> & Hg)]; [left | right; eauto].
  split; [by eexists|]. by apply circular_empty.
Qed.

Lemma resolve_group_ok_iff (p : AclPolicy) name :
  (exists ms, resolve_group p name = Ok ms) <-> resolvable p name.
Proof.
  split; [by intros [ms []%resolve_group_ok]|]. intros [Ha Hd].
  destruct (resolve_group p name) as [ms|e] eqn:E; [by eexists|].
  by apply resolve_group_err in E as [[_ ?] | (g & _ & ?%Hd & ?)].
Qed.

(** Group resolution is total and exact: [resolve_group] never runs out of fuel; a
    success lists exactly the transitive non-group members of the group, and every group
    reachable from it is declared and on no cycle; [CircularGroup] means that a cycle is
    reachable and [UnknownGroup] names a reachable group that is not declared. *)
Theorem resolve_group_spec (p : AclPolicy) (name : str) :
  match resolve_group p name with
  | Ok ms => (forall m, m ∈ ms <-> member p name m) /\ resolvable p name
  | Err (Fails e) =>
      (exists g, e = CircularGroup g) /\ ~ acyclic_from p name
      \/ exists g, e = UnknownGroup g /\ star (edge p) name g /\ ~ declared p g
  | Err OutOfFuel => False
  end.
Proof.
  destruct (resolve_group p name) as [ms|[e|]] eqn:E.
  - by apply resolve_group_ok in E as [? ?].
  - apply resolve_group_err in E as [[(g & [= ->]) ?] | (g & [= ->] & ?)]; eauto.
  - by apply resolve_group_err in E as [[(g & [=]) ?] | (g & [=] & ?)].
Qed.

Lemma check_key_loop prefix msg (l : list (str * list str)) :
  try_for (fun kv (_ : unit) => check_key prefix msg kv.1) l tt = Ok tt
  <-> forall k v, (k, v) ∈ l -> starts_with prefix k = true.
Proof.
  induction l as [|[k v] l IH]; cbn.
  - split; [|done]. intros _ k v Hk. by apply not_elem_of_nil in Hk.
  - unfold check_key at 1. cbn. destruct (starts_with prefix k) eqn:Hk.
    + rewrite IH. split; intros Hl k' v' Hin; [|by eapply Hl; constructor].
      apply elem_of_cons in Hin as [[= -> ->] | Hin]; [done | by eapply Hl].
    + split; [done|]. intros Hl. specialize (Hl k v). rewrite Hl in Hk; [done | constructor].
Qed.

Lemma check_cycles_loop (p : AclPolicy) (l : list (str * list str)) :
  try_for (fun kv (_ : unit) => _ ← check_group_cycle (group_fuel p) p kv.1 ∅; Ok tt) l tt = Ok tt
  <-> forall k v, (k, v) ∈ l -> acyclic_from p k.
Proof.
  induction l as [|[k v] l IH]; rewrite ?try_for_cons.
  - split; [|done]. intros _ k v Hk. by apply not_elem_of_nil in Hk.
  - pose proof (check_decides p k) as Hk. cbn [fst].
    destruct (check_group_cycle (group_fuel p) p k ∅); cbn [mbind result_bind].
    + rewrite IH. split; intros Hl k' v' Hin; [|by eapply Hl; constructor].
      apply elem_of_cons in Hin as [[= -> ->] | Hin]; [done | by eapply Hl].
    + split; [done|]. intros Hl. destruct Hk as [Hk _]. exfalso.
      apply Hk, (Hl k v). constructor.
Qed.

Lemma validate_ok_iff gl tl (p : AclPolicy) :
  validate gl tl p = Ok tt <->
  (forall k v, (k, v) ∈ gl -> is_group k = true)
  /\ (forall k v, (k, v) ∈ tl -> starts_with (lit "tag:") k = true)
  /\ (forall k v, (k, v) ∈ gl -> acyclic_from p k).
Proof.
  rewrite <- (check_key_loop group_prefix (lit "group key must start with 'group:': ") gl).
  rewrite <- (check_key_loop (lit "tag:") (lit "tagOwners key must start with 'tag:': ") tl).
  rewrite <- check_cycles_loop. unfold validate. by rewrite !bind_unit_ok.
Qed.

(** C19: Validation is exact: whatever order the maps are iterated in, [validate] accepts a
    policy exactly when every group key starts with [group:], every tag-owner key with
    [tag:], and no declared group reaches a cycle of group references. *)
Theorem validate_spec gl tl (p : AclPolicy)
    (Hgl : iter_of p.(groups) gl) (Htl : iter_of p.(tag_owners) tl) :
  validate gl tl p = Ok tt <->
  (forall g, declared p g -> is_group g = true)
  /\ (forall t, is_Some (p.(tag_owners) !! t) -> starts_with (lit "tag:") t = true)
  /\ (forall g, declared p g -> acyclic_from p g).
Proof.
  rewrite validate_ok_iff. unfold declared, is_Some.
  setoid_rewrite (iter_of_elem _ _ _ _ Hgl). setoid_rewrite (iter_of_elem _ _ _ _ Htl).
  naive_solver.
Qed.

Lemma from_json_ok from_str order input p :
  from_json from_str order input = Ok p ->
  validate (order p.(groups)) (order p.(tag_owners)) p = Ok tt.
Proof.
  unfold from_json. intros (q & _ & ([] & Hv & [= <-])%bind_ok_inv)%bind_ok_inv. done.
Qed.

(** A policy accepted by [from_hujson] never yields [CircularGroup]: on it, group
    resolution either lists the members of the group or names an undeclared group. *)
Theorem from_hujson_no_cycles from_str order input (p : AclPolicy)
    (Horder : forall m, iter_of m (order m))
    (Hp : from_hujson from_str order input = Ok p) name g :
  resolve_group p name <> Err (Fails (CircularGroup g)).
Proof.
  unfold from_hujson in Hp. apply bind_ok_inv in Hp as (json & _ & Hp).
  apply from_json_ok, validate_ok_iff in Hp as (_ & _ & Hac).
  intros [[_ Hc] | (u & [=] & _)]%resolve_group_err.
  apply Hc. destruct (p.(groups) !! name) as [ms|] eqn:Hms.
  - apply (Hac name ms). by apply (iter_of_elem _ _ _ _ (Horder _)).
  - intros h ->%undeclared_star (m & (ms & Hm & _) & _); congruence.
Qed.

End PolicyTheorems.

(** The ports a specification denotes, part by part. *)
Lemma parse_ports_loop parts acc rs :
  try_for (fun part acc => r ← parse_port_part part; Ok (acc ++ [r])) parts acc = Ok rs ->
  exists l, rs = acc ++ l /\ Forall2 (fun part r => parse_port_part part = Ok r) parts l.
Proof.
  revert acc. induction parts as [|part parts IH]; intros acc; rewrite ?try_for_cons.
  - intros [= <-]. exists []. by rewrite app_nil_r.
  - intros (acc1 & (r & Hr & [= <-])%bind_ok_inv & Hl)%bind_ok_inv.
    apply IH in Hl as (l & -> & Hall). exists (r :: l).
    split; [by rewrite <- app_assoc | by constructor].
Qed.

Lemma parse_port_part_range part r :
  parse_port_part part = Ok r -> is_u 16 r.(start) /\ is_u 16 r.(end_).
Proof.
  unfold parse_port_part. destruct (split_once c_minus (trim part)) as [[s e]|].
  - intros (a & Ha%ok_or_ok & (b & Hb%ok_or_ok & [= <-])%bind_ok_inv)%bind_ok_inv. cbn.
    eauto with rust.
  - intros (a & Ha%ok_or_ok & [= <-])%bind_ok_inv. cbn. eauto with rust.
Qed.

Lemma parse_ports_u16 s rs :
  parse_ports s = Ok (Ports rs) -> Forall (fun r => is_u 16 r.(start) /\ is_u 16 r.(end_)) rs.
Proof.
  unfold parse_ports. case_bool_decide; [done|].
  intros (l & Hl & [= <-])%bind_ok_inv. apply parse_ports_loop in Hl as (l' & -> & Hall).
  cbn. induction Hall; constructor; eauto using parse_port_part_range.
Qed.

Lemma parse_dst_u16 `{IpNetApi} d t rs :
  parse_dst d = Ok t -> t.(ports) = Ports rs ->
  Forall (fun r => is_u 16 r.(start) /\ is_u 16 r.(end_)) rs.
Proof.
  unfold parse_dst. case_bool_decide; [by intros [= <-]|].
  intros ([h q] & _ & (ps & Hps & [= <-])%bind_ok_inv)%bind_ok_inv. cbn. intros ->.
  by eapply parse_ports_u16.
Qed.

(** A parsed port specification other than the star lists one range per
    comma-separated part, with 16-bit bounds, and contains a port exactly when the range
    of one of the parts does. *)
Theorem parse_ports_spec s ps (Hstar : s <> lit "*") (Hs : parse_ports s = Ok ps) :
  exists rs, ps = Ports rs
    /\ Forall2 (fun part r => parse_port_part part = Ok r) (split c_comma s) rs
    /\ Forall (fun r => is_u 16 r.(start) /\ is_u 16 r.(end_)) rs
    /\ forall port, ports_contain ps port = true <->
         exists part r, part ∈ split c_comma s /\ parse_port_part part = Ok r
                        /\ r.(start) <= port <= r.(end_).
Proof.
  unfold parse_ports in Hs. rewrite bool_decide_eq_false_2 in Hs by done.
  apply bind_ok_inv in Hs as (rs & Hl & [= <-]).
  apply parse_ports_loop in Hl as (l & -> & Hall). cbn [app]. exists l.
  split; [done|]. split; [done|]. split.
  - induction Hall; constructor; eauto using parse_port_part_range.
  - intros port. cbn. rewrite existsb_elem. unfold range_contains.
    setoid_rewrite andb_true_iff. setoid_rewrite Z.leb_le. split.
    + intros (r & (i & Hi)%list_elem_of_lookup & Hr).
      destruct (Forall2_lookup_r _ _ _ _ _ Hall Hi) as (part & Hpart & Hpr).
      exists part, r. split; [by apply list_elem_of_lookup; eauto | done].
    + intros (part & r & (i & Hi)%list_elem_of_lookup & Hpr & Hr).
      destruct (Forall2_lookup_l _ _ _ _ _ Hall Hi) as (r' & Hr' & Hpr').
      exists r'. split; [by apply list_elem_of_lookup; eauto|].
      by assert (r' = r) as -> by congruence.
Qed.

Section TargetTheorems.
Context `{IpNetLaws} `{SerdeJson}.

(** A host alias that stands for a plain address resolves to the network of exactly
    that address. *)
Theorem resolve_host_address (p : AclPolicy) name addr ip
    (Hname : p.(hosts) !! name = Some addr)
    (Hnet : ipnet_from_str addr = None) (Hip : ip_from_str addr = Some ip) :
  exists net, resolve_host p name = Ok net
    /\ forall ip', ipnet_contains net ip' = true <-> ip' = ip.
Proof.
  destruct (ipnet_new_host ip) as (n & Hn & Hc). exists n. split; [|done].
  unfold resolve_host, parse_ip_or_cidr. rewrite Hname. cbn. by rewrite Hnet, Hip, Hn.
Qed.

Lemma ip_from_str_bracket s : ip_from_str (c_lbracket :: s) = None.
Proof. reflexivity. Qed.

Lemma split_once_here c a b :
  contains_char c a = false -> split_once c (a ++ c :: b) = Some (a, b).
Proof.
  induction a as [|d a IH]; cbn; [by rewrite Z.eqb_refl|].
  intros Hc. apply orb_false_iff in Hc as [-> Ha]. by rewrite IH.
Qed.

(** A bracketed IPv6 destination keeps its brackets in the host part and so is never
    an address: provided [ipnet] rejects the bracketed text, as its grammar has no
    brackets, the host is a host alias (or a user name, if it holds an at sign). *)
Theorem parse_dst_bracketed body port ps
    (Hbody : contains_char c_rbracket body = false)
    (Hnet : ipnet_from_str (c_lbracket :: body ++ [c_rbracket]) = None)
    (Hps : parse_ports port = Ok ps) :
  let h := c_lbracket :: body ++ [c_rbracket] in
  parse_dst (h ++ c_colon :: port)
  = Ok {| host := if contains_char c_at h then User h else HostAlias h; ports := ps |}.
Proof.
  intros h. unfold parse_dst. rewrite bool_decide_eq_false_2 by done.
  assert (Hsplit : split_dst (h ++ c_colon :: port) = Ok (h, port)).
  { unfold split_dst. rewrite bool_decide_eq_true_2 by done.
    replace (h ++ c_colon :: port) with ((c_lbracket :: body) ++ c_rbracket :: c_colon :: port)
      by (unfold h; cbn; by rewrite <- app_assoc).
    by rewrite split_once_here. }
  rewrite Hsplit. cbn [mbind result_bind]. rewrite Hps. cbn [mbind result_bind].
  do 2 f_equal. unfold parse_target. rewrite bool_decide_eq_false_2 by done.
  unfold h. cbn [strip_prefix group_prefix lit map String.list_ascii_of_string].
  unfold group_prefix, lit. cbn [map String.list_ascii_of_string strip_prefix Z.eqb].
  by rewrite Hnet, ip_from_str_bracket.
Qed.

End TargetTheorems.

(** ** Examples and witnesses *)

Module PolicyExamples.

#[local] Instance json : SerdeJson := {| Value := unit |}.

Definition empty_policy : AclPolicy :=
  {| groups := ∅; hosts := ∅; tag_owners := ∅; acls := []; ssh := []; auto_approvers := None;
     node_attrs := []; ipsets := ∅; postures := ∅; tests := []; ssh_tests := []; derp_map := None |}.

Definition with_groups (g : gmap str (list str)) : AclPolicy :=
  {| groups := g; hosts := {[lit "db" := lit "10.0.0.9"]}; tag_owners := ∅; acls := []; ssh := [];
     auto_approvers := None; node_attrs := []; ipsets := ∅; postures := ∅; tests := [];
     ssh_tests := []; derp_map := None |}.

(** Nested groups, as in the unit tests of the crate. *)
Definition nested : AclPolicy :=
  with_groups (<[lit "group:all" := [lit "group:team"; lit "carol@ex.com"]]>
               {[lit "group:team" := [lit "alice@ex.com"; lit "bob@ex.com"]]}).

Definition cyclic : AclPolicy :=
  with_groups (<[lit "group:a" := [lit "group:b"]]> {[lit "group:b" := [lit "group:a"]]}).

Example nested_members :
  resolve_group nested (lit "group:all")
  = Ok [lit "alice@ex.com"; lit "bob@ex.com"; lit "carol@ex.com"].
Proof. vm_compute. reflexivity. Qed.

Example cyclic_rejected :
  is_ok (validate (map_to_list cyclic.(groups)) [] cyclic) = false.
Proof. vm_compute. reflexivity. Qed.

Lemma validate_spec_witness :
  (forall g, declared nested g -> is_group g = true)
  /\ (forall t, is_Some (nested.(tag_owners) !! t) -> starts_with (lit "tag:") t = true)
  /\ (forall g, declared nested g -> acyclic_from nested g).
Proof.
  apply (validate_spec (map_to_list nested.(groups)) (map_to_list nested.(tag_owners)) nested
           (iter_of_self _) (iter_of_self _)).
  vm_compute. reflexivity.
Defined.

Lemma from_hujson_no_cycles_witness :
  resolve_group nested (lit "group:all") <> Err (Fails (CircularGroup (lit "group:all"))).
Proof.
  apply (from_hujson_no_cycles (fun _ => Ok nested) map_to_list (lit "{} // policy") nested).
  - intros m. apply iter_of_self.
  - vm_compute. reflexivity.
Defined.

Lemma parse_ports_spec_witness :
  exists rs, parse_ports (lit "80, 443-445") = Ok (Ports rs)
             /\ Forall (fun r => is_u 16 r.(start) /\ is_u 16 r.(end_)) rs.
Proof.
  destruct (parse_ports_spec (lit "80, 443-445") (Ports [single 80; range 443 445]))
    as (rs & Hrs & _ & Hall & _); [done | vm_compute; reflexivity |].
  exists rs. split; [rewrite <- Hrs; vm_compute; reflexivity | exact Hall].
Defined.

Lemma resolve_host_address_witness :
  exists net, resolve_host nested (lit "db") = Ok net
    /\ forall ip', ipnet_contains net ip' = true <-> ip' = V4 (ipv4 10 0 0 9).
Proof.
  apply (resolve_host_address nested (lit "db") (lit "10.0.0.9")); vm_compute; reflexivity.
Defined.

Lemma parse_dst_bracketed_witness :
  parse_dst (lit "[::1]:80") = Ok {| host := HostAlias (lit "[::1]"); ports := Ports [single 80] |}.
Proof.
  apply (parse_dst_bracketed (lit "::1") (lit "80")); vm_compute; reflexivity.
Defined.

End PolicyExamples.
