(* ===== verification/AclEval.v ===== *)
(** * ACL evaluation ([runesh-acl/src/eval.rs])

    Rule matching, the evaluator with its optional group resolver, and the SSH evaluator.
    The specification reads a target as the set of sources or destinations it denotes
    ([source_in], [dest_in]), with group membership taken from [AclModel.member], and a
    policy as an ordered list of rules of which the first match decides. *)
From S2P Require Import Prelude Str Net Hujson AclModel.

#[local] Open Scope Z_scope.

Inductive Proto : Type := Tcp | Udp | Icmp | Sctp | Number (n : Z).
#[global] Instance Proto_eq_dec : EqDecision Proto.
Proof. solve_decision. Defined.

Definition parse_rule_field (raw : str) : option Proto :=
  let s := to_ascii_lowercase (trim raw) in
  if bool_decide (s = []) || bool_decide (s = lit "*") || bool_decide (s = lit "any") then None
  else if bool_decide (s = lit "tcp") then Some Tcp
  else if bool_decide (s = lit "udp") then Some Udp
  else if bool_decide (s = lit "icmp") then Some Icmp
  else if bool_decide (s = lit "sctp") then Some Sctp
  else Number <$> parse_uint 8 s.

Definition rule_matches (rule ctx : option Proto) : bool :=
  match rule, ctx with
  | None, _ | _, None => true
  | Some a, Some b => bool_decide (a = b)
  end.

Record EvalContext := {
  src_user : option str;
  src_groups : list str;
  src_tags : list str;
  src_ip : IpAddr;
  dst_ip : IpAddr;
  dst_tags : list str;
  dst_port : Z;
  dst_user : option str;
  ctx_proto : option Proto
}.

Definition default_ctx : EvalContext :=
  {| src_user := None; src_groups := []; src_tags := []; src_ip := V4 0; dst_ip := V4 0;
     dst_tags := []; dst_port := 0; dst_user := None; ctx_proto := None |}.

Record AclEvalResult := {
  allowed : bool;
  matching_rule : option nat;
  result_action : option AclAction
}.

Definition default_deny : AclEvalResult :=
  {| allowed := false; matching_rule := None; result_action := None |}.

(** The [GroupResolver] trait. *)
Record GroupResolver := { members : str -> list str }.

Inductive SshDecision : Type := SshDecision_Accept | SshDecision_Check | SshDecision_Deny.

Record SshEvalContext := {
  ssh_src_user : option str;
  ssh_src_groups : list str;
  ssh_src_ip : IpAddr;
  ssh_dst_ip : IpAddr;
  ssh_dst_tags : list str;
  ssh_user : str
}.

Section Eval.
Context `{IpNetApi} `{SerdeJson}.

Record AclEvaluator := { policy : AclPolicy; group_resolver : option GroupResolver }.

Definition new (p : AclPolicy) : AclEvaluator := {| policy := p; group_resolver := None |}.
Definition with_group_resolver (ev : AclEvaluator) (r : GroupResolver) : AclEvaluator :=
  {| policy := ev.(policy); group_resolver := Some r |}.

(** The network of a host alias contains an address. *)
Definition host_contains (p : AclPolicy) (name : str) (ip : IpAddr) : bool :=
  match resolve_host p name with Ok net => ipnet_contains net ip | Err _ => false end.

Definition matches_source (p : AclPolicy) (t : AclTarget) (ctx : EvalContext) : bool :=
  match t with
  | Target_Any => true
  | User user => bool_decide (ctx.(src_user) = Some user)
  | Group group =>
      if contains ctx.(src_groups) group then true
      else match ctx.(src_user), resolve_group p group with
           | Some user, Ok ms => contains ms user
           | _, _ => false
           end
  | Tag tag => existsb (fun t => bool_decide (t = tag)) ctx.(src_tags)
  | Ip ip => bool_decide (ctx.(src_ip) = ip)
  | Cidr net => ipnet_contains net ctx.(src_ip)
  | HostAlias name => host_contains p name ctx.(src_ip)
  | Autogroup name =>
      if bool_decide (name = lit "member") then bool_decide (is_Some ctx.(src_user))
      else if bool_decide (name = lit "tagged") then negb (bool_decide (ctx.(src_tags) = []))
      else false
  end.

Definition unsupported_group (group : str) : AclError :=
  UnsupportedTargetInPosition
    (lit "group '" ++ group ++ lit "' in dst position requires a GroupResolver; call AclEvaluator::with_group_resolver or evaluate via AclPolicy::evaluate_permissive").

(** The members of a destination group: the resolver, else the in-policy group. *)
Definition dst_group_members (ev : AclEvaluator) (group : str) : result AclError (list str) :=
  match ev.(group_resolver) with
  | Some r => Ok (r.(members) group)
  | None =>
      match ev.(policy).(groups) !! group with
      | Some _ => match resolve_group ev.(policy) group with Ok ms => Ok ms | Err _ => Ok [] end
      | None => Err (unsupported_group group)
      end
  end.

Definition matches_host (ev : AclEvaluator) (t : AclTarget) (ctx : EvalContext) : result AclError bool :=
  match t with
  | Target_Any => Ok true
  | Tag tag => Ok (existsb (fun t => bool_decide (t = tag)) ctx.(dst_tags))
  | Ip ip => Ok (bool_decide (ctx.(dst_ip) = ip))
  | Cidr net => Ok (ipnet_contains net ctx.(dst_ip))
  | HostAlias name => Ok (host_contains ev.(policy) name ctx.(dst_ip))
  | User user => Ok (bool_decide (ctx.(dst_user) = Some user))
  | Group group =>
      ms ← dst_group_members ev group;
      Ok match ctx.(dst_user) with
         | Some u => existsb (fun m => bool_decide (m = u)) ms
         | None => false
         end
  | Autogroup name =>
      Ok (if bool_decide (name = lit "internet") then true
          else if bool_decide (name = lit "self") then bool_decide (ctx.(src_ip) = ctx.(dst_ip))
          else false)
  end.

Definition matches_destination (ev : AclEvaluator) (d : DstTarget) (ctx : EvalContext)
  : result AclError bool :=
  host_matches ← matches_host ev d.(host) ctx;
  Ok (host_matches && ports_contain d.(ports) ctx.(dst_port)).

(** The loop over the destinations of a rule. *)
Fixpoint dst_loop (ev : AclEvaluator) (ctx : EvalContext) (ds : list str) : result AclError bool :=
  match ds with
  | [] => Ok false
  | d :: ds' =>
      match parse_dst d with
      | Err _ => dst_loop ev ctx ds'
      | Ok t => b ← matches_destination ev t ctx;
                if (b : bool) then Ok true else dst_loop ev ctx ds'
      end
  end.

Definition rule_proto (r : AclRule) : option Proto := r.(proto) ≫= parse_rule_field.
Definition src_any (p : AclPolicy) (ctx : EvalContext) (ss : list str) : bool :=
  existsb (fun s => matches_source p (parse_target s) ctx) ss.

(** The loop over the rules, from index [i]. *)
Fixpoint rule_loop (ev : AclEvaluator) (ctx : EvalContext) (i : nat) (rs : list AclRule)
  : result AclError AclEvalResult :=
  match rs with
  | [] => Ok default_deny
  | r :: rs' =>
      if negb (rule_matches (rule_proto r) ctx.(ctx_proto)) then rule_loop ev ctx (S i) rs'
      else if negb (src_any ev.(policy) ctx r.(src)) then rule_loop ev ctx (S i) rs'
      else
        dst_matches ← dst_loop ev ctx r.(dst);
        if negb dst_matches then rule_loop ev ctx (S i) rs'
        else Ok {| allowed := bool_decide (r.(action) = Accept); matching_rule := Some i;
                   result_action := Some r.(action) |}
  end.

Definition try_evaluate (ev : AclEvaluator) (ctx : EvalContext) : result AclError AclEvalResult :=
  rule_loop ev ctx 0 ev.(policy).(acls).

Definition evaluate_permissive (p : AclPolicy) (ctx : EvalContext) : AclEvalResult :=
  match try_evaluate (new p) ctx with Ok r => r | Err _ => default_deny end.

Definition evaluate (p : AclPolicy) (ctx : EvalContext) : AclEvalResult := evaluate_permissive p ctx.

(** ** SSH rules *)

Definition ssh_src_ctx (ctx : SshEvalContext) : EvalContext :=
  {| src_user := ctx.(ssh_src_user); src_groups := ctx.(ssh_src_groups);
     src_tags := default_ctx.(src_tags); src_ip := ctx.(ssh_src_ip);
     dst_ip := default_ctx.(dst_ip); dst_tags := default_ctx.(dst_tags);
     dst_port := default_ctx.(dst_port); dst_user := default_ctx.(dst_user);
     ctx_proto := default_ctx.(ctx_proto) |}.

Definition ssh_matches_dst (p : AclPolicy) (t : AclTarget) (ctx : SshEvalContext) : bool :=
  match t with
  | Target_Any => true
  | Tag tag => existsb (fun t => bool_decide (t = tag)) ctx.(ssh_dst_tags)
  | Ip ip => bool_decide (ctx.(ssh_dst_ip) = ip)
  | Cidr net => ipnet_contains net ctx.(ssh_dst_ip)
  | HostAlias name => host_contains p name ctx.(ssh_dst_ip)
  | _ => false
  end.

Definition ssh_matches_user (u : str) (ctx : SshEvalContext) : bool :=
  bool_decide (u = lit "*")
  || eq_ignore_ascii_case u ctx.(ssh_user)
  || (bool_decide (u = lit "autogroup:nonroot") && negb (bool_decide (ctx.(ssh_user) = lit "root"))).

Definition ssh_rule_matches (p : AclPolicy) (ctx : SshEvalContext) (r : SshRule) : bool :=
  existsb (fun s => matches_source p (parse_target s) (ssh_src_ctx ctx)) r.(ssh_src)
  && existsb (fun d => ssh_matches_dst p (parse_target d) ctx) r.(ssh_dst)
  && existsb (fun u => ssh_matches_user u ctx) r.(users).

Fixpoint ssh_loop (p : AclPolicy) (ctx : SshEvalContext) (rs : list SshRule) : SshDecision :=
  match rs with
  | [] => SshDecision_Deny
  | r :: rs' =>
      if ssh_rule_matches p ctx r then
        match r.(ssh_action) with
        | Ssh_Accept => SshDecision_Accept
        | Ssh_Check => SshDecision_Check
        end
      else ssh_loop p ctx rs'
  end.

Definition ssh_evaluate (p : AclPolicy) (ctx : SshEvalContext) : SshDecision :=
  ssh_loop p ctx p.(ssh).

End Eval.

(** ** Specification *)

Section EvalSpec.
Context `{IpNetApi} `{SerdeJson}.

(** A user is in a group of the policy, and the group can be expanded. *)
Definition in_group (p : AclPolicy) (g : str) (u : option str) : Prop :=
  resolvable p g /\ exists m, u = Some m /\ member p g m.

Definition in_host (p : AclPolicy) (name : str) (ip : IpAddr) : Prop :=
  exists net, resolve_host p name = Ok net /\ ipnet_contains net ip = true.

#[local] Arguments in_group : simpl never.
#[local] Arguments in_host : simpl never.
#[local] Arguments host_contains : simpl never.

(** The sources a target denotes. *)
Definition source_in (p : AclPolicy) (t : AclTarget) (ctx : EvalContext) : Prop :=
  match t with
  | Target_Any => True
  | User u => ctx.(src_user) = Some u
  | Group g => g ∈ ctx.(src_groups) \/ in_group p g ctx.(src_user)
  | Tag tag => tag ∈ ctx.(src_tags)
  | Ip ip => ctx.(src_ip) = ip
  | Cidr net => ipnet_contains net ctx.(src_ip) = true
  | HostAlias name => in_host p name ctx.(src_ip)
  | Autogroup name => name = lit "member" /\ ctx.(src_user) <> None
                      \/ name = lit "tagged" /\ ctx.(src_tags) <> []
  end.

(** The destinations a target denotes. *)
Definition dest_in (ev : AclEvaluator) (t : AclTarget) (ctx : EvalContext) : Prop :=
  match t with
  | Target_Any => True
  | User u => ctx.(dst_user) = Some u
  | Group g =>
      match ev.(group_resolver) with
      | Some r => exists u, ctx.(dst_user) = Some u /\ u ∈ r.(members) g
      | None => in_group ev.(policy) g ctx.(dst_user)
      end
  | Tag tag => tag ∈ ctx.(dst_tags)
  | Ip ip => ctx.(dst_ip) = ip
  | Cidr net => ipnet_contains net ctx.(dst_ip) = true
  | HostAlias name => in_host ev.(policy) name ctx.(dst_ip)
  | Autogroup name => name = lit "internet" \/ name = lit "self" /\ ctx.(src_ip) = ctx.(dst_ip)
  end.

(** A rule applies to a connection. *)
Definition dst_applies (ev : AclEvaluator) (ctx : EvalContext) (d : str) : Prop :=
  exists t, parse_dst d = Ok t /\ dest_in ev t.(host) ctx
            /\ ports_contain t.(ports) ctx.(dst_port) = true.

Definition rule_applies (ev : AclEvaluator) (ctx : EvalContext) (r : AclRule) : Prop :=
  rule_matches (rule_proto r) ctx.(ctx_proto) = true
  /\ (exists s, s ∈ r.(src) /\ source_in ev.(policy) (parse_target s) ctx)
  /\ (exists d, d ∈ r.(dst) /\ dst_applies ev ctx d).

(** Rule [i] is the first one that applies. *)
Definition first_applies (ev : AclEvaluator) (ctx : EvalContext) (i : nat) (r : AclRule) : Prop :=
  ev.(policy).(acls) !! i = Some r /\ rule_applies ev ctx r
  /\ forall j r', (j < i)%nat -> ev.(policy).(acls) !! j = Some r' -> ~ rule_applies ev ctx r'.

(** A destination that names a group nobody can resolve. *)
Definition unresolvable_dst (ev : AclEvaluator) (d : str) (g : str) : Prop :=
  exists t, parse_dst d = Ok t /\ t.(host) = Group g
            /\ ev.(group_resolver) = None /\ ~ declared ev.(policy) g.

(** ** Matching meets the specification *)

Lemma existsb_eq {A} `{EqDecision A} (l : list A) x :
  existsb (fun y => bool_decide (y = x)) l = true <-> x ∈ l.
Proof. rewrite existsb_elem. setoid_rewrite bool_decide_eq_true. naive_solver. Qed.

Lemma in_group_resolve p g u :
  (exists m ms, u = Some m /\ resolve_group p g = Ok ms /\ m ∈ ms) <-> in_group p g u.
Proof.
  split.
  - intros (m & ms & -> & [Hr Hm]%resolve_group_ok & Hin). split; [done|].
    exists m. split; [done|]. by apply Hm.
  - intros [Hr (m & -> & Hm)]. apply resolve_group_ok_iff in Hr as [ms Hms].
    exists m, ms. split; [done|]. split; [done|]. by apply (resolve_group_ok _ _ _ Hms).
Qed.

Lemma host_contains_spec p name ip : host_contains p name ip = true <-> in_host p name ip.
Proof.
  unfold host_contains, in_host. destruct (resolve_host p name) as [net|e]; split.
  - by exists net.
  - by intros (n & [= ->] & Hn).
  - done.
  - by intros (n & [=] & _).
Qed.

(** The expansion of a group, an error counting as no members, holds the user. *)
Lemma expanded_group_spec p g u :
  match resolve_group p g, u with
  | Ok ms, Some m => m ∈ ms
  | _, _ => False
  end <-> in_group p g u.
Proof.
  rewrite <- in_group_resolve. destruct (resolve_group p g) as [ms|e], u as [m|]; split;
    try done; eauto; intros (m' & ms' & [=] & [=] & Hin); by subst.
Qed.

Lemma matches_source_spec p t ctx : matches_source p t ctx = true <-> source_in p t ctx.
Proof.
  destruct t as [|g|u|tag|ip|net|name|name]; cbn;
    rewrite ?existsb_eq, ?bool_decide_eq_true, ?host_contains_spec; try done.
  - rewrite <- expanded_group_spec. destruct (contains (src_groups ctx) g) eqn:Hc.
    + apply contains_true in Hc. tauto.
    + assert (Hn : g ∉ src_groups ctx) by (rewrite <- contains_true, Hc; done).
      destruct (src_user ctx) as [u|], (resolve_group p g) as [ms|e];
        rewrite ?contains_true; intuition congruence.
  - case_bool_decide as Hm; [rewrite bool_decide_eq_true, <- not_eq_None_Some|].
    { split; [auto|]. intros [[_ ?] | [? _]]; [done | subst; discriminate]. }
    case_bool_decide as Ht; [rewrite negb_true_iff, bool_decide_eq_false|]; intuition congruence.
Qed.

Lemma matches_host_spec ev t ctx :
  match matches_host ev t ctx with
  | Ok b => (b = true <-> dest_in ev t ctx)
            /\ forall g, t = Group g -> ev.(group_resolver) = None -> declared ev.(policy) g
  | Err e => exists g, t = Group g /\ ev.(group_resolver) = None /\ ~ declared ev.(policy) g
                       /\ e = unsupported_group g
  end.
Proof.
  destruct t as [|g|u|tag|ip|net|name|name]; cbn;
    rewrite ?existsb_eq, ?bool_decide_eq_true, ?host_contains_spec; try done.
  - unfold dst_group_members. destruct (group_resolver ev) as [r|]; cbn.
    + split; [|done]. destruct (dst_user ctx) as [u|]; [rewrite existsb_eq|];
        split; try done; eauto; by intros (v & [= ->] & ?).
    + destruct (groups (policy ev) !! g) as [ms|] eqn:Hg; cbn.
      * assert (declared (policy ev) g) by (by eexists).
        pose proof (expanded_group_spec (policy ev) g (dst_user ctx)) as Hx.
        destruct (resolve_group (policy ev) g) as [ms'|e], (dst_user ctx) as [u|]; cbn;
          (split; [|by intros ? [= <-]]);
          rewrite <- Hx, ?existsb_eq; done.
      * exists g. repeat split. intros [ms Hd]. congruence.
  - split; [|done]. case_bool_decide as Hi; [split; auto|].
    case_bool_decide as Hs; [rewrite bool_decide_eq_true|]; intuition congruence.
Qed.

Lemma dst_loop_spec ev ctx ds :
  match dst_loop ev ctx ds with
  | Ok true => exists d, d ∈ ds /\ dst_applies ev ctx d
  | Ok false => (forall d, d ∈ ds -> ~ dst_applies ev ctx d)
                /\ forall d g, d ∈ ds -> ~ unresolvable_dst ev d g
  | Err e => exists d g, d ∈ ds /\ unresolvable_dst ev d g /\ e = unsupported_group g
  end.
Proof.
  induction ds as [|d ds IH]; cbn.
  { split; intros d; [intros Hd|intros g Hd]; by apply not_elem_of_nil in Hd. }
  assert (Hskip : (~ dst_applies ev ctx d) -> (forall g, ~ unresolvable_dst ev d g) ->
    match dst_loop ev ctx ds with
    | Ok true => exists d', d' ∈ d :: ds /\ dst_applies ev ctx d'
    | Ok false => (forall d', d' ∈ d :: ds -> ~ dst_applies ev ctx d')
                  /\ forall d' g, d' ∈ d :: ds -> ~ unresolvable_dst ev d' g
    | Err e => exists d' g, d' ∈ d :: ds /\ unresolvable_dst ev d' g /\ e = unsupported_group g
    end).
  { intros Hna Hnu. destruct (dst_loop ev ctx ds) as [[]|e]; setoid_rewrite elem_of_cons.
    - destruct IH as (d' & ? & ?). eauto.
    - destruct IH as [IH1 IH2]. split; [intros d' [-> | Hd]|intros d' g [-> | Hd]]; eauto.
    - destruct IH as (d' & g & ? & ?). eauto. }
  destruct (parse_dst d) as [t|e] eqn:Hd.
  2: { apply Hskip; [intros (t & Ht & _) | intros g (t & Ht & _)]; congruence. }
  unfold matches_destination. pose proof (matches_host_spec ev t.(host) ctx) as Hm.
  destruct (matches_host ev t.(host) ctx) as [b|e]; cbn.
  - destruct Hm as [Hm Hdecl].
    destruct (b && ports_contain (ports t) (dst_port ctx)) eqn:Hb; bool_prop.
    + exists d. split; [constructor|]. exists t. split; [done|]. split; [by apply Hm | done].
    + apply Hskip.
      * intros (t' & Ht' & Hin & Hp). assert (t' = t) as -> by congruence.
        apply Hm in Hin. subst b. by rewrite Hp in Hb.
      * intros g (t' & Ht' & Hg & Hr & Hnd). assert (t' = t) as -> by congruence.
        by apply Hnd, Hdecl.
  - destruct Hm as (g & Hg & Hr & Hnd & ->). exists d, g. split; [constructor|].
    split; [|done]. by exists t.
Qed.

Lemma src_any_spec p ctx ss :
  src_any p ctx ss = true <-> exists s, s ∈ ss /\ source_in p (parse_target s) ctx.
Proof. unfold src_any. rewrite existsb_elem. by setoid_rewrite matches_source_spec. Qed.

(** One rule: what the loop body finds out about it. *)
Definition rule_verdict (ev : AclEvaluator) (ctx : EvalContext) (r : AclRule) : result AclError bool :=
  if negb (rule_matches (rule_proto r) ctx.(ctx_proto)) then Ok false
  else if negb (src_any ev.(policy) ctx r.(src)) then Ok false
  else dst_loop ev ctx r.(dst).

Lemma rule_loop_cons ev ctx i r rs :
  rule_loop ev ctx i (r :: rs) =
  match rule_verdict ev ctx r with
  | Ok true => Ok {| allowed := bool_decide (r.(action) = Accept); matching_rule := Some i;
                     result_action := Some r.(action) |}
  | Ok false => rule_loop ev ctx (S i) rs
  | Err e => Err e
  end.
Proof.
  cbn. unfold rule_verdict. destruct (rule_matches _ _), (src_any _ _ _); cbn; try done.
  by destruct (dst_loop ev ctx (dst r)) as [[]|e].
Qed.

Lemma rule_verdict_spec ev ctx r :
  match rule_verdict ev ctx r with
  | Ok true => rule_applies ev ctx r
  | Ok false => ~ rule_applies ev ctx r
  | Err e => exists d g, d ∈ r.(dst) /\ unresolvable_dst ev d g /\ e = unsupported_group g
  end.
Proof.
  unfold rule_verdict, rule_applies. destruct (rule_matches _ _); cbn; [|by intros (? & _)].
  pose proof (src_any_spec (policy ev) ctx (src r)) as Hs.
  destruct (src_any _ _ _); cbn; [|intros (_ & Hin & _); apply Hs in Hin; done].
  pose proof (dst_loop_spec ev ctx (dst r)) as Hd.
  destruct (dst_loop ev ctx (dst r)) as [[]|e]; [by apply proj1 in Hs; auto| |done].
  destruct Hd as [Hd _]. intros (_ & _ & d & Hin & Ha). by apply (Hd d).
Qed.

(** No rule before position [k] applies. *)
Definition none_before (ev : AclEvaluator) (ctx : EvalContext) (rs : list AclRule) (k : nat) : Prop :=
  forall j r', (j < k)%nat -> rs !! j = Some r' -> ~ rule_applies ev ctx r'.

Lemma none_before_cons ev ctx r rs k :
  ~ rule_applies ev ctx r -> none_before ev ctx rs k -> none_before ev ctx (r :: rs) (S k).
Proof.
  intros Hr Hrs [|j] r' Hj Hl; cbn in Hl; [by injection Hl as <-|]. eapply Hrs; [|done]. lia.
Qed.

Lemma rule_loop_spec ev ctx i rs :
  match rule_loop ev ctx i rs with
  | Ok res =>
      res = default_deny /\ (forall r, r ∈ rs -> ~ rule_applies ev ctx r)
      \/ exists k r, rs !! k = Some r /\ rule_applies ev ctx r /\ none_before ev ctx rs k
           /\ res = {| allowed := bool_decide (r.(action) = Accept);
                       matching_rule := Some (i + k)%nat; result_action := Some r.(action) |}
  | Err e =>
      exists k r d g, rs !! k = Some r /\ none_before ev ctx rs k /\ d ∈ r.(dst)
        /\ unresolvable_dst ev d g /\ e = unsupported_group g
  end.
Proof.
  revert i. induction rs as [|r rs IH]; intros i.
  { left. split; [done|]. by intros r ?%not_elem_of_nil. }
  rewrite rule_loop_cons. pose proof (rule_verdict_spec ev ctx r) as Hv.
  destruct (rule_verdict ev ctx r) as [[]|e].
  - right. exists 0%nat, r. rewrite Nat.add_0_r. split; [done|]. split; [done|].
    split; [|done]. intros j r' Hj. lia.
  - specialize (IH (S i)). destruct (rule_loop ev ctx (S i) rs) as [res|e].
    + destruct IH as [[-> Hn] | (k & r' & Hk & Ha & Hb & ->)]; [left | right].
      * split; [done|]. intros r' [-> | Hin]%elem_of_cons; auto.
      * exists (S k), r'. rewrite Nat.add_succ_r. eauto using none_before_cons.
    + destruct IH as (k & r' & d & g & Hk & Hb & Hrest). exists (S k), r', d, g.
      eauto using none_before_cons.
  - destruct Hv as (d & g & Hd & Hu & ->). exists 0%nat, r, d, g.
    split; [done|]. split; [|done]. intros j r' Hj. lia.
Qed.

(** ** Theorems *)

(** C1: First match wins, and the default is deny: a strict evaluation reports the first
    rule that applies to the connection, with its index and action, and denies when no
    rule applies; it fails only at a rule, before which none applies, that names a
    destination group which is not declared while no resolver is configured. *)
Theorem try_evaluate_first_match (ev : AclEvaluator) (ctx : EvalContext) :
  match try_evaluate ev ctx with
  | Ok res =>
      match res.(matching_rule) with
      | Some i => exists r, first_applies ev ctx i r /\ res.(result_action) = Some r.(action)
                            /\ (res.(allowed) = true <-> r.(action) = Accept)
      | None => res = default_deny
                /\ forall r, r ∈ ev.(policy).(acls) -> ~ rule_applies ev ctx r
      end
  | Err e => exists i r d g, ev.(policy).(acls) !! i = Some r /\ none_before ev ctx (acls (policy ev)) i
               /\ d ∈ r.(dst) /\ unresolvable_dst ev d g /\ e = unsupported_group g
  end.
Proof.
  unfold try_evaluate. pose proof (rule_loop_spec ev ctx 0 (acls (policy ev))) as Hl.
  destruct (rule_loop _ _ _ _) as [res|e]; [|done].
  destruct Hl as [[-> Hn] | (k & r & Hk & Ha & Hb & ->)]; [done|]. cbn.
  exists r. rewrite bool_decide_eq_true. done.
Qed.

(** Every group a destination names is declared in the policy. *)
Definition dst_groups_declared (p : AclPolicy) : Prop :=
  forall r d g, r ∈ p.(acls) -> d ∈ r.(dst) -> ~ unresolvable_dst (new p) d g.

(** The permissive evaluation used by the coordination server is exact on
    policies whose destination groups are declared: it allows a connection exactly when
    the first rule that applies exists and accepts. *)
Theorem evaluate_allows_iff (p : AclPolicy) (ctx : EvalContext)
    (Hdecl : dst_groups_declared p) :
  (evaluate p ctx).(allowed) = true
  <-> exists i r, first_applies (new p) ctx i r /\ r.(action) = Accept.
Proof.
  unfold evaluate, evaluate_permissive, try_evaluate.
  pose proof (rule_loop_spec (new p) ctx 0 (acls p)) as Hl. cbn [policy new].
  destruct (rule_loop _ _ _ _) as [res|e].
  2: { destruct Hl as (i & r & d & g & Hi & _ & Hd & Hu & _). exfalso.
       eapply Hdecl; [|exact Hd|exact Hu]. apply list_elem_of_lookup. eauto. }
  destruct Hl as [[-> Hn] | (k & r & Hk & Ha & Hb & ->)]; cbn.
  - split; [done|]. intros (i & r & (Hi & Ha & _) & _). exfalso.
    apply (Hn r); [apply list_elem_of_lookup; eauto | done].
  - rewrite bool_decide_eq_true. split; [by exists k, r|].
    intros (i & r' & (Hi & Ha' & Hb') & Hacc). cbn in Hi, Hb'.
    destruct (Nat.lt_trichotomy i k) as [Hlt | [-> | Hlt]]; [by destruct (Hb i r')| |].
    + by assert (r' = r) as -> by congruence.
    + by destruct (Hb' k r).
Qed.

Lemma evaluate_allowed_rule (p : AclPolicy) (ctx : EvalContext) :
  (evaluate p ctx).(allowed) = true ->
  exists i r, first_applies (new p) ctx i r /\ r.(action) = Accept.
Proof.
  unfold evaluate, evaluate_permissive, try_evaluate. intros Hallow.
  pose proof (rule_loop_spec (new p) ctx 0 (acls p)) as Hl. cbn [policy new] in Hallow.
  destruct (rule_loop _ _ _ _) as [res|e]; [|done].
  destruct Hl as [[-> Hn] | (k & r & Hk & Ha & Hb & ->)]; [done|].
  cbn in Hallow. apply bool_decide_eq_true in Hallow. by exists k, r.
Qed.

(** The permissive evaluation never allows more than the policy says: an allowed
    connection has an accepting rule that applies and no earlier rule that does, whatever
    the destination groups; and then its source is one the rule names and its destination
    address and port are in one of the rule's destinations. *)
Theorem evaluate_safe (p : AclPolicy) (ctx : EvalContext)
    (Hallow : (evaluate p ctx).(allowed) = true) :
  exists i r, first_applies (new p) ctx i r /\ r.(action) = Accept.
Proof. by apply evaluate_allowed_rule. Qed.

End EvalSpec.

Section SshSpec.
Context `{IpNetApi} `{SerdeJson}.

(** The destinations an SSH target denotes: users, groups and autogroups denote none. *)
Definition ssh_dest_in (p : AclPolicy) (t : AclTarget) (ctx : SshEvalContext) : Prop :=
  match t with
  | Target_Any => True
  | Tag tag => tag ∈ ctx.(ssh_dst_tags)
  | Ip ip => ctx.(ssh_dst_ip) = ip
  | Cidr net => ipnet_contains net ctx.(ssh_dst_ip) = true
  | HostAlias name => in_host p name ctx.(ssh_dst_ip)
  | User _ | Group _ | Autogroup _ => False
  end.

(** The accounts a [users] entry denotes. *)
Definition ssh_user_in (u : str) (account : str) : Prop :=
  u = lit "*" \/ to_ascii_lowercase u = to_ascii_lowercase account
  \/ u = lit "autogroup:nonroot" /\ account <> lit "root".

Definition ssh_applies (p : AclPolicy) (ctx : SshEvalContext) (r : SshRule) : Prop :=
  (exists s, s ∈ r.(ssh_src) /\ source_in p (parse_target s) (ssh_src_ctx ctx))
  /\ (exists d, d ∈ r.(ssh_dst) /\ ssh_dest_in p (parse_target d) ctx)
  /\ (exists u, u ∈ r.(users) /\ ssh_user_in u ctx.(ssh_user)).

Definition ssh_action_decision (a : SshAction) : SshDecision :=
  match a with Ssh_Accept => SshDecision_Accept | Ssh_Check => SshDecision_Check end.

Lemma ssh_matches_dst_spec p t ctx : ssh_matches_dst p t ctx = true <-> ssh_dest_in p t ctx.
Proof.
  destruct t; cbn; rewrite ?existsb_eq, ?bool_decide_eq_true, ?host_contains_spec; done.
Qed.

Lemma ssh_matches_user_spec u ctx : ssh_matches_user u ctx = true <-> ssh_user_in u ctx.(ssh_user).
Proof.
  unfold ssh_matches_user, ssh_user_in, eq_ignore_ascii_case.
  rewrite !orb_true_iff, andb_true_iff, negb_true_iff, !bool_decide_eq_true, bool_decide_eq_false.
  tauto.
Qed.

Lemma ssh_rule_matches_spec p ctx r : ssh_rule_matches p ctx r = true <-> ssh_applies p ctx r.
Proof.
  unfold ssh_rule_matches, ssh_applies. rewrite !andb_true_iff, !existsb_elem.
  setoid_rewrite matches_source_spec. setoid_rewrite ssh_matches_dst_spec.
  setoid_rewrite ssh_matches_user_spec. tauto.
Qed.

Lemma ssh_loop_spec p ctx rs :
  ssh_loop p ctx rs = SshDecision_Deny /\ (forall r, r ∈ rs -> ~ ssh_applies p ctx r)
  \/ exists i r, rs !! i = Some r /\ ssh_applies p ctx r
       /\ (forall j r', (j < i)%nat -> rs !! j = Some r' -> ~ ssh_applies p ctx r')
       /\ ssh_loop p ctx rs = ssh_action_decision r.(ssh_action).
Proof.
  induction rs as [|r rs IH]; cbn; [left; split; [done|]; by intros r ?%not_elem_of_nil|].
  pose proof (ssh_rule_matches_spec p ctx r) as Hr.
  destruct (ssh_rule_matches p ctx r).
  - right. exists 0%nat, r. split; [done|]. split; [by apply Hr|]. split; [lia|done].
  - assert (Hna : ~ ssh_applies p ctx r) by (intros Ha; apply Hr in Ha; done).
    destruct IH as [[-> Hn] | (i & r' & Hi & Ha & Hb & ->)]; [left | right].
    + split; [done|]. intros r' [-> | Hin]%elem_of_cons; auto.
    + exists (S i), r'. split; [done|]. split; [done|]. split; [|done].
      intros [|j] r'' Hj Hl; cbn in Hl; [by injection Hl as <-|]. eapply Hb; [|done]. lia.
Qed.

(** SSH evaluation: the decision is the action of the first SSH rule whose sources,
    destinations and accounts hold the connection, and [Deny] when there is none; in
    particular a login as [root] is let through only by a rule that lists the star or an
    ASCII-case variant of [root] itself. *)
Theorem ssh_evaluate_spec (p : AclPolicy) (ctx : SshEvalContext) :
  (ssh_evaluate p ctx = SshDecision_Deny /\ (forall r, r ∈ p.(ssh) -> ~ ssh_applies p ctx r)
   \/ exists i r, p.(ssh) !! i = Some r /\ ssh_applies p ctx r
        /\ (forall j r', (j < i)%nat -> p.(ssh) !! j = Some r' -> ~ ssh_applies p ctx r')
        /\ ssh_evaluate p ctx = ssh_action_decision r.(ssh_action))
  /\ (ctx.(ssh_user) = lit "root" -> ssh_evaluate p ctx <> SshDecision_Deny ->
      exists r u, r ∈ p.(ssh) /\ u ∈ r.(users)
                  /\ (u = lit "*" \/ to_ascii_lowercase u = lit "root")).
Proof.
  split; [apply ssh_loop_spec|]. intros Hroot Hnd.
  destruct (ssh_loop_spec p ctx p.(ssh)) as [[Hd _] | (i & r & Hi & (_ & _ & u & Hu & Huin) & _)];
    [done|].
  exists r, u. split; [apply list_elem_of_lookup; eauto|]. split; [done|].
  rewrite Hroot in Huin. destruct Huin as [? | [? | [_ ?]]]; [auto | auto | done].
Qed.

(** An unresolvable destination group masks the rules after it: when the first rule
    admits the source and its only destination is a group that is not declared, the
    permissive evaluation denies everything, whatever rules follow. *)
Theorem evaluate_masked_by_unknown_group (p : AclPolicy) (ctx : EvalContext) r rest d g
    (Hacls : p.(acls) = r :: rest)
    (Hproto : rule_matches (rule_proto r) ctx.(ctx_proto) = true)
    (Hsrc : src_any p ctx r.(src) = true)
    (Hdst : r.(dst) = [d]) (Hg : unresolvable_dst (new p) d g) :
  evaluate p ctx = default_deny.
Proof.
  unfold evaluate, evaluate_permissive, try_evaluate. cbn [policy new].
  rewrite Hacls, rule_loop_cons. unfold rule_verdict. rewrite Hproto. cbn [policy new].
  rewrite Hsrc, Hdst. cbn [negb].
  pose proof (dst_loop_spec (new p) ctx [d]) as Hl.
  destruct (dst_loop (new p) ctx [d]) as [[]|e]; [| |done].
  - destruct Hl as (d' & ->%list_elem_of_singleton & t & Ht & Hin & _).
    destruct Hg as (t' & Ht' & Hh & _ & Hnd). assert (t' = t) as -> by congruence.
    rewrite Hh in Hin. destruct Hin as [[_ Hdecl] _]. destruct Hnd. apply Hdecl. constructor.
  - destruct Hl as [_ Hl]. destruct (Hl d g); [constructor | done].
Qed.

End SshSpec.

(** ** Witnesses *)

Module EvalExamples.

#[local] Instance json : SerdeJson := {| Value := unit |}.

Definition rule (a : AclAction) (s d : string) : AclRule :=
  {| action := a; src := [lit s]; dst := [lit d]; proto := None |}.

Definition policy_of (rs : list AclRule) : AclPolicy :=
  {| groups := {[lit "group:dev" := [lit "dev@ex.com"]]}; hosts := ∅; tag_owners := ∅; acls := rs;
     ssh := []; auto_approvers := None; node_attrs := []; ipsets := ∅; postures := ∅; tests := [];
     ssh_tests := []; derp_map := None |}.

Definition ctx : EvalContext :=
  {| src_user := Some (lit "dev@ex.com"); src_groups := []; src_tags := [];
     src_ip := V4 (ipv4 100 64 0 1); dst_ip := V4 (ipv4 100 64 0 2); dst_tags := [lit "tag:web"];
     dst_port := 443; dst_user := None; ctx_proto := Some Tcp |}.

Definition good : AclPolicy :=
  policy_of [rule Deny "group:dev" "tag:web:22"; rule Accept "group:dev" "tag:web:80,443"].

Example good_allows :
  evaluate good ctx = {| allowed := true; matching_rule := Some 1%nat; result_action := Some Accept |}.
Proof. vm_compute. reflexivity. Qed.

(** The group a destination names. *)
Definition dst_group (d : str) : option str :=
  match parse_dst d with
  | Ok t => match t.(host) with Group g => Some g | _ => None end
  | Err _ => None
  end.

Lemma dst_group_spec d g : dst_group d = Some g -> exists t, parse_dst d = Ok t /\ t.(host) = Group g.
Proof.
  unfold dst_group. destruct (parse_dst d) as [t|e]; [|done]. exists t.
  split; [done|]. destruct (host t); by simplify_eq.
Qed.

Lemma good_declared : dst_groups_declared good.
Proof.
  intros r d g Hr Hd (t & Ht & Hg & _).
  assert (Hnone : dst_group d = None).
  { apply elem_of_cons in Hr as [-> | Hr]; [|apply list_elem_of_singleton in Hr as ->];
      apply list_elem_of_singleton in Hd as ->; vm_compute; reflexivity. }
  unfold dst_group in Hnone. by rewrite Ht, Hg in Hnone.
Qed.

Lemma evaluate_allows_iff_witness :
  exists i r, first_applies (new good) ctx i r /\ r.(action) = Accept.
Proof.
  apply (evaluate_allows_iff good ctx good_declared). vm_compute. reflexivity.
Defined.

Lemma evaluate_safe_witness :
  exists i r, first_applies (new good) ctx i r /\ r.(action) = Accept.
Proof. apply (evaluate_safe good ctx). vm_compute. reflexivity. Defined.

Definition masked : AclPolicy :=
  policy_of [rule Accept "group:dev" "group:ghost:*"; rule Accept "*" "*:*"].

Lemma evaluate_masked_by_unknown_group_witness :
  evaluate masked ctx = default_deny
  /\ (evaluate (policy_of [rule Accept "*" "*:*"]) ctx).(allowed) = true.
Proof.
  split; [|vm_compute; reflexivity].
  apply (evaluate_masked_by_unknown_group masked ctx (rule Accept "group:dev" "group:ghost:*")
           [rule Accept "*" "*:*"] (lit "group:ghost:*") (lit "group:ghost")).
  1, 4: reflexivity.
  1, 2: vm_compute; reflexivity.
  destruct (dst_group_spec (lit "group:ghost:*") (lit "group:ghost")) as (t & Ht & Hh);
    [vm_compute; reflexivity|].
  exists t. split; [exact Ht|]. split; [exact Hh|]. split; [reflexivity|].
  apply (bool_decide_eq_false (declared masked (lit "group:ghost"))). vm_compute. reflexivity.
Defined.

End EvalExamples.
