(* ===== verification/AclDiff.v ===== *)
(** * Effects of a policy change ([runesh-acl/src/diff.rs])

    [compute] evaluates every active session under the old and the new policy and reports
    the sessions whose decision changes. *)
From S2P Require Import Prelude Str Net Hujson AclModel AclEval.

#[local] Open Scope Z_scope.

Record ActiveSession := {
  s_src_user : option str;
  s_src_groups : list str;
  s_src_tags : list str;
  s_src_ip : IpAddr;
  s_dst_ip : IpAddr;
  s_dst_tags : list str;
  s_dst_port : Z;
  label : str
}.

Definition to_eval_context (s : ActiveSession) : EvalContext :=
  {| src_user := s.(s_src_user); src_groups := s.(s_src_groups); src_tags := s.(s_src_tags);
     src_ip := s.(s_src_ip); dst_ip := s.(s_dst_ip); dst_tags := s.(s_dst_tags);
     dst_port := s.(s_dst_port); dst_user := None; ctx_proto := None |}.

Inductive SessionEffect : Type := StillAllowed | StillDenied | WillDrop | WillAllow.
#[global] Instance SessionEffect_eq_dec : EqDecision SessionEffect.
Proof. solve_decision. Defined.

Record AclDiffEntry := {
  session : str;
  effect : SessionEffect;
  old_rule : option nat;
  new_rule : option nat
}.

Definition effect_of (old_allowed new_allowed : bool) : SessionEffect :=
  match old_allowed, new_allowed with
  | true, true => StillAllowed
  | false, false => StillDenied
  | true, false => WillDrop
  | false, true => WillAllow
  end.

(** [AclDiff] has the single field [entries]. *)
Abbreviation AclDiff := (list AclDiffEntry) (only parsing).

Section Diff.
Context `{IpNetApi} `{SerdeJson}.

Definition diff_entry (old new : AclPolicy) (s : ActiveSession) : option AclDiffEntry :=
  let ctx := to_eval_context s in
  let old_result := evaluate old ctx in
  let new_result := evaluate new ctx in
  let eff := effect_of old_result.(allowed) new_result.(allowed) in
  if bool_decide (eff = StillAllowed) || bool_decide (eff = StillDenied) then None
  else Some {| session := s.(label); effect := eff;
               old_rule := old_result.(matching_rule); new_rule := new_result.(matching_rule) |}.

Definition compute (old new : AclPolicy) (sessions : list ActiveSession) : AclDiff :=
  filter_map (diff_entry old new) sessions.

End Diff.

Definition count_effect (eff : SessionEffect) (d : AclDiff) : nat :=
  length (filter (fun e => e.(effect) = eff) d).
Definition dropped_count (d : AclDiff) : nat := count_effect WillDrop d.
Definition allowed_count (d : AclDiff) : nat := count_effect WillAllow d.
Definition is_empty (d : AclDiff) : bool := bool_decide (length d = 0%nat).

Definition show_nat (n : nat) : str := show_uint (Z.of_nat n).
Definition summary (d : AclDiff) : str :=
  match dropped_count d, allowed_count d with
  | O, O => lit "No sessions affected."
  | n, O => show_nat n ++ lit " sessions will be dropped."
  | O, a => show_nat a ++ lit " sessions will be newly allowed."
  | n, a => show_nat n ++ lit " sessions will be dropped, " ++ show_nat a ++ lit " newly allowed."
  end.

(** ** Theorems *)

Section DiffSpec.
Context `{IpNetApi} `{SerdeJson}.

Definition decision (p : AclPolicy) (s : ActiveSession) : bool :=
  (evaluate p (to_eval_context s)).(allowed).

Lemma diff_entry_spec old new s :
  match diff_entry old new s with
  | None => decision old s = decision new s
  | Some e => e.(session) = s.(label)
              /\ (e.(effect) = WillDrop /\ decision old s = true /\ decision new s = false
                  \/ e.(effect) = WillAllow /\ decision old s = false /\ decision new s = true)
  end.
Proof.
  unfold diff_entry, decision. cbn.
  destruct (allowed (evaluate old _)), (allowed (evaluate new _)); cbn [effect_of];
    repeat case_bool_decide; cbn; naive_solver.
Qed.

(** The sessions a change drops or lets in. *)
Definition changed (a b : bool) (old new : AclPolicy) (ss : list ActiveSession)
  : list ActiveSession :=
  filter (fun s => decision old s = a /\ decision new s = b) ss.

Lemma count_effect_cons eff e d :
  count_effect eff (e :: d)
  = ((if bool_decide (e.(effect) = eff) then 1 else 0) + count_effect eff d)%nat.
Proof. unfold count_effect. rewrite filter_cons. by case_decide; case_bool_decide. Qed.

Lemma changed_cons a b old new s ss :
  length (changed a b old new (s :: ss))
  = ((if bool_decide (decision old s = a /\ decision new s = b) then 1 else 0)
     + length (changed a b old new ss))%nat.
Proof. unfold changed. rewrite filter_cons. by case_decide; case_bool_decide. Qed.

(** The diff reports exactly the sessions whose decision changes, in order: the dropped
    count is the number of sessions the old policy allows and the new one denies, the
    allowed count the converse, every entry is one or the other, and the diff is empty
    exactly when no decision changes. *)
Theorem compute_counts (old new : AclPolicy) (ss : list ActiveSession) :
  let d := compute old new ss in
  dropped_count d = length (changed true false old new ss)
  /\ allowed_count d = length (changed false true old new ss)
  /\ length d = (dropped_count d + allowed_count d)%nat
  /\ map session d = map label (filter (fun s => decision old s <> decision new s) ss)
  /\ (is_empty d = true <-> forall s, s ∈ ss -> decision old s = decision new s).
Proof.
  cbn zeta. unfold is_empty. rewrite bool_decide_eq_true.
  induction ss as [|s ss (IH1 & IH2 & IH3 & IH4 & IH5)].
  - repeat split; try done. intros _ s Hs. by apply not_elem_of_nil in Hs.
  - unfold compute in *. cbn [filter_map]. pose proof (diff_entry_spec old new s) as Hs.
    setoid_rewrite elem_of_cons. unfold dropped_count, allowed_count in *.
    rewrite filter_cons, !changed_cons.
    destruct (diff_entry old new s) as [e|].
    + rewrite !count_effect_cons, IH1, IH2. cbn [length map]. rewrite IH3, IH1, IH2, IH4.
      destruct Hs as [Hl [(He & Ho & Hn) | (He & Ho & Hn)]]; rewrite He, Ho, Hn, Hl, decide_True
        by done; repeat case_bool_decide; try (by intuition congruence);
        (repeat split; try lia; try done);
        intros Hall; specialize (Hall s (or_introl eq_refl)); congruence.
    + rewrite Hs, decide_False by auto. rewrite !bool_decide_eq_false_2 by (intros [? ?]; congruence).
      rewrite IH5. repeat split; try lia; try done; [|by auto].
      intros Hall s' [-> | Hin]; auto.
Qed.

End DiffSpec.
