(* ===== verification/Coord.v ===== *)
(** * The coordination server's map builder ([runesh-coord/src/mapper.rs, types.rs])

    Nodes, users and the per-node view of the mesh, tag validation at registration, and
    the compilation of ACLs into port ranges.  A range is a pair of 16-bit ports.  The
    iteration order of the node map is an argument of the definitions that iterate it. *)
From S2P Require Import Prelude Str Net Hujson AclModel AclEval.

#[local] Open Scope Z_scope.

Record Node := {
  id : Z;
  stable_id : str;
  name : str;
  key : str;
  machine_key : str;
  addresses : list str;
  allowed_ips : list str;
  endpoints : list str;
  derp : option str;
  hostname : str;
  os : str;
  tags : list str;
  online : bool;
  last_seen : option str;
  user : option Z;
  authorized : bool;
  created : option str;
  key_expiry : option str
}.






(** [CoordError]; the payloads of other crates are their texts. *)
Inductive CoordError : Type :=
  | Handshake (e : str)
  | NodeNotFound (n : str)
  | NotAuthorized (n : str)
  | InvalidMachineKey
  | InvalidNodeKey
  | Registration (e : str)
  | UnauthorizedTag (tag : str)
  | Serialization (e : str)
  | Io (e : str)
  | Snow (e : str).

Record RegisterRequest := {
  req_node_key : str;
  req_machine_key : str;
  req_hostname : str;
  req_os : str;
  auth_key : option str;
  req_tags : list str;
  req_endpoints : list str
}.

(** ** Port ranges *)

Abbreviation prange := (Z * Z)%type (only parsing).

(** The ordering of pairs, and [sort] as insertion sort ([sort] of the source is stable,
    and equal pairs cannot be told apart). *)
Definition range_le (a b : prange) : bool :=
  (a.1 <? b.1) || ((a.1 =? b.1) && (a.2 <=? b.2)).

Fixpoint insert_range (r : prange) (l : list prange) : list prange :=
  match l with
  | [] => [r]
  | x :: l' => if range_le r x then r :: l else x :: insert_range r l'
  end.
Definition sort_ranges (l : list prange) : list prange := foldr insert_range [] l.

(** [Vec::dedup]: consecutive equal elements. *)
Fixpoint dedup (l : list prange) : list prange :=
  match l with
  | [] => []
  | x :: l' => match dedup l' with
               | [] => [x]
               | y :: r => if bool_decide (x = y) then y :: r else x :: y :: r
               end
  end.

(** The body of the loop of [merge_ranges]; [merged] is kept with its last element first. *)
Definition merge_step (merged : list prange) (r : prange) : list prange :=
  match merged with
  | l :: rest =>
      if r.1 <=? sat_add 16 l.2 1
      then (if l.2 <? r.2 then (l.1, r.2) :: rest else merged)
      else r :: merged
  | [] => [r]
  end.

Definition merge_ranges (ranges : list prange) : list prange :=
  match ranges with
  | [] => []
  | _ => rev (foldl merge_step [] (sort_ranges ranges))
  end.

(** ** The map builder *)

Section Mapper.
Context `{IpNetApi} `{SerdeJson}.




(** ** Compiling ACLs into port ranges *)

Definition with_port (ctx : EvalContext) (port : Z) : EvalContext :=
  {| src_user := ctx.(src_user); src_groups := ctx.(src_groups); src_tags := ctx.(src_tags);
     src_ip := ctx.(src_ip); dst_ip := ctx.(dst_ip); dst_tags := ctx.(dst_tags);
     dst_port := port; dst_user := ctx.(dst_user); ctx_proto := ctx.(ctx_proto) |}.



(** Is a port allowed by the evaluator? *)
Definition port_ok (p : AclPolicy) (ctx : EvalContext) (port : Z) : bool :=
  (evaluate p (with_port ctx port)).(allowed).

(** The port ranges of a destination text. *)
Definition dst_candidates (d : str) : list prange :=
  match parse_dst d with
  | Ok t => match t.(ports) with
            | PortSet_Any => [(0, 65535)]
            | Ports ranges => map (fun r => (r.(start), r.(end_))) ranges
            end
  | Err _ => []
  end.

Definition candidates (p : AclPolicy) : list prange :=
  concat (map (fun r => concat (map dst_candidates r.(dst))) p.(acls)).

(** The probe of one candidate range. *)
Definition probe (p : AclPolicy) (ctx : EvalContext) (r : prange) : option prange :=
  let start_ok := port_ok p ctx r.1 in
  let end_ok := if r.1 =? r.2 then start_ok else port_ok p ctx r.2 in
  if start_ok && end_ok then Some r
  else if start_ok then Some (r.1, r.1)
  else if end_ok then Some (r.2, r.2)
  else None.

Definition compile_ports (p : AclPolicy) (ctx : EvalContext) : list prange :=
  if port_ok p ctx 0 && port_ok p ctx 65535 then [(0, 65535)]
  else
    let cs := merge_ranges (dedup (sort_ranges (candidates p))) in
    merge_ranges (dedup (sort_ranges (filter_map (probe p ctx) cs))).



(** ** Building a node's map *)





Definition node_ids (l : list (Z * Node)) : list Z := map fst l.

(** ** Tags at registration *)

Definition owner_allows (p : AclPolicy) (identity : str) (identity_groups : list str) (owner : str)
  : bool :=
  if bool_decide (owner = lit "*") then true
  else if bool_decide (owner = identity) then true
  else if is_group owner && existsb (fun g => bool_decide (g = owner)) identity_groups then true
  else if is_group owner then
    match resolve_group p owner with
    | Ok ms => existsb (fun m => bool_decide (m = identity)) ms
    | Err _ => false
    end
  else false.

Definition validate_tag (p : AclPolicy) (identity : str) (identity_groups : list str) (tag : str)
  : result CoordError unit :=
  if negb (starts_with (lit "tag:") tag) then Err (UnauthorizedTag tag)
  else match p.(tag_owners) !! tag with
       | None => Err (UnauthorizedTag tag)
       | Some owners =>
           if existsb (owner_allows p identity identity_groups) owners then Ok tt
           else Err (UnauthorizedTag tag)
       end.

Definition validate_tags (r : RegisterRequest) (p : AclPolicy) (identity : str)
    (identity_groups : list str) : result CoordError unit :=
  try_for (fun tag _ => validate_tag p identity identity_groups tag) r.(req_tags) tt.

End Mapper.

(** ** Range lemmas *)

Definition covers (r : prange) (port : Z) : Prop := r.1 <= port <= r.2.
Definition covered (l : list prange) (port : Z) : Prop := exists r, r ∈ l /\ covers r port.
Definition u16_range (r : prange) : Prop := is_u 16 r.1 /\ is_u 16 r.2.

Lemma covered_cons r l port : covered (r :: l) port <-> covers r port \/ covered l port.
Proof.
  unfold covered. setoid_rewrite elem_of_cons. split.
  - intros (x & [-> | Hx] & Hc); [by left | right; eauto].
  - intros [Hc | (x & Hx & Hc)]; eauto.
Qed.

Lemma covered_ext l l' port : (forall r, r ∈ l <-> r ∈ l') -> covered l port <-> covered l' port.
Proof. intros H. unfold covered. by setoid_rewrite H. Qed.

Lemma insert_range_perm r l : insert_range r l ≡ₚ r :: l.
Proof.
  induction l as [|x l IH]; cbn; [done|]. case_match; [done|]. rewrite IH. apply perm_swap.
Qed.

Lemma sort_ranges_perm l : sort_ranges l ≡ₚ l.
Proof. induction l as [|r l IH]; cbn; [done|]. by rewrite insert_range_perm, IH. Qed.

Definition start_le (a b : prange) : Prop := a.1 <= b.1.

Lemma insert_range_sorted r l :
  StronglySorted start_le l -> StronglySorted start_le (insert_range r l).
Proof.
  induction 1 as [|x l Hs IH Hx]; cbn; [repeat constructor|].
  destruct (range_le r x) eqn:E; unfold range_le in E; constructor.
  - by constructor.
  - apply orb_true_iff in E.
    assert (start_le r x) by (destruct E as [E|E]; bool_prop; unfold start_le; lia).
    constructor; [done|]. eapply Forall_impl; [exact Hx|]. unfold start_le in *. cbn. lia.
  - done.
  - rewrite insert_range_perm. constructor; [|done]. bool_prop. unfold start_le. lia.
Qed.

Lemma sort_ranges_sorted l : StronglySorted start_le (sort_ranges l).
Proof. induction l as [|r l IH]; cbn; [constructor | by apply insert_range_sorted]. Qed.

Lemma elem_of_sort_ranges l r : r ∈ sort_ranges l <-> r ∈ l.
Proof. by rewrite sort_ranges_perm. Qed.

Lemma elem_of_dedup l r : r ∈ dedup l <-> r ∈ l.
Proof.
  induction l as [|x l IH]; cbn; [done|]. rewrite elem_of_cons, <- IH.
  destruct (dedup l) as [|y d]; [by rewrite list_elem_of_singleton, elem_of_nil; tauto|].
  case_bool_decide as E; [subst|]; rewrite ?elem_of_cons; tauto.
Qed.

(** The loop of [merge_ranges] keeps the ports, and keeps its ranges apart. *)
Definition apart (later earlier : prange) : Prop := earlier.2 + 1 < later.1.

Lemma merge_step_covered acc r port :
  (forall h, head acc = Some h -> h.1 <= r.1) -> u16_range r ->
  covered (merge_step acc r) port <-> covered acc port \/ covers r port.
Proof.
  intros Hh [_ Hr2]. destruct acc as [|h acc]; cbn [merge_step].
  { rewrite covered_cons. tauto. }
  specialize (Hh h eq_refl). unfold sat_add, is_u in *.
  destruct (Z.leb_spec r.1 (Z.min (h.2 + 1) (2 ^ 16 - 1))); [|rewrite (covered_cons r); tauto].
  destruct (Z.ltb_spec h.2 r.2); rewrite !covered_cons; unfold covers; cbn; [|intuition lia].
  split; [|intuition lia]. intros [Hc | Hc]; [|tauto].
  destruct (Z.le_gt_cases port h.2); [left; left | right]; lia.
Qed.

Lemma merge_step_apart acc r :
  u16_range r -> Sorted apart acc -> Sorted apart (merge_step acc r).
Proof.
  intros [Hr1 _] Hs. destruct acc as [|h acc]; cbn; [repeat constructor|].
  unfold sat_add, is_u in *.
  destruct (Z.leb_spec r.1 (Z.min (h.2 + 1) (2 ^ 16 - 1))).
  - destruct (h.2 <? r.2); [|done]. apply Sorted_inv in Hs as [Hs Hh].
    constructor; [done|]. destruct Hh; constructor. done.
  - constructor; [done|]. constructor. unfold apart. lia.
Qed.

Lemma merge_step_head acc r h :
  (forall h, head acc = Some h -> h.1 <= r.1) -> head (merge_step acc r) = Some h -> h.1 <= r.1.
Proof.
  destruct acc as [|x acc]; cbn; [by intros _ [= <-]|]. intros Hx. specialize (Hx x eq_refl).
  repeat case_match; intros [= <-]; cbn; lia.
Qed.

Lemma merge_loop_spec l acc port :
  StronglySorted start_le l -> Forall u16_range l ->
  (forall h r, head acc = Some h -> r ∈ l -> h.1 <= r.1) -> Sorted apart acc ->
  (covered (foldl merge_step acc l) port <-> covered acc port \/ covered l port)
  /\ Sorted apart (foldl merge_step acc l).
Proof.
  revert acc. induction l as [|r l IH]; intros acc Hs Hu Hh Ha; cbn [foldl].
  { split; [|done]. split; [by left|]. intros [?|(x & Hx & _)]; [done|].
    by apply not_elem_of_nil in Hx. }
  apply StronglySorted_inv in Hs as [Hs Hle]. apply Forall_cons in Hu as [Hr Hu].
  assert (Hacc : forall h, head acc = Some h -> h.1 <= r.1)
    by (intros h Hhd; eapply Hh; [done | constructor]).
  destruct (IH (merge_step acc r)) as [IH1 IH2]; [done..| |by apply merge_step_apart|].
  - intros h x Hhd Hx. apply merge_step_head in Hhd; [|done].
    rewrite Forall_forall in Hle. specialize (Hle x Hx). unfold start_le in Hle. lia.
  - split; [|done]. rewrite IH1, merge_step_covered, covered_cons by done. tauto.
Qed.

Lemma covered_rev l port : covered (rev l) port <-> covered l port.
Proof. apply covered_ext. intros r. by rewrite !list_elem_of_In, <- in_rev. Qed.

Lemma merge_ranges_eq l : merge_ranges l = rev (foldl merge_step [] (sort_ranges l)).
Proof. by destruct l. Qed.

Lemma merge_ranges_loop l port :
  Forall u16_range l ->
  (covered (merge_ranges l) port <-> covered l port)
  /\ Sorted apart (rev (merge_ranges l)).
Proof.
  intros Hu. rewrite merge_ranges_eq, rev_involutive, covered_rev.
  destruct (merge_loop_spec (sort_ranges l) [] port) as [Hc Ha].
  - apply sort_ranges_sorted.
  - by rewrite sort_ranges_perm.
  - done.
  - constructor.
  - split; [|done]. rewrite Hc, (covered_ext (sort_ranges l) l port) by apply elem_of_sort_ranges.
    split; [|by right]. intros [(x & Hx & _)|?]; [by apply not_elem_of_nil in Hx | done].
Qed.

Lemma merge_ranges_covered l port :
  Forall u16_range l -> covered (merge_ranges l) port <-> covered l port.
Proof. intros Hu. by apply merge_ranges_loop. Qed.

(** A merged range starts where some input range starts and ends where one ends. *)
Definition ends_in (l : list prange) (r : prange) : Prop :=
  (exists a, a ∈ l /\ a.1 = r.1) /\ (exists b, b ∈ l /\ b.2 = r.2).

Lemma ends_in_self l r : r ∈ l -> ends_in l r.
Proof. intros Hr. split; eauto. Qed.

Lemma ends_in_trans l l' r : (forall x, x ∈ l -> ends_in l' x) -> ends_in l r -> ends_in l' r.
Proof.
  intros Hl [(a & Ha & Ea) (b & Hb & Eb)].
  split; [rewrite <- Ea; apply (Hl a Ha) | rewrite <- Eb; apply (Hl b Hb)].
Qed.

Lemma merge_step_ends acc x r : r ∈ merge_step acc x -> ends_in (x :: acc) r.
Proof.
  destruct acc as [|h acc]; cbn [merge_step]; [by apply ends_in_self|].
  repeat case_match; intros Hr; [|by apply ends_in_self; constructor | by apply ends_in_self].
  apply elem_of_cons in Hr as [-> | Hr]; [|by apply ends_in_self; do 2 constructor].
  split; [exists h | exists x]; split; try done; rewrite !elem_of_cons; auto.
Qed.

Lemma merge_loop_ends s acc r : r ∈ foldl merge_step acc s -> ends_in (acc ++ s) r.
Proof.
  revert acc. induction s as [|x s IH]; intros acc; cbn [foldl].
  { rewrite app_nil_r. apply ends_in_self. }
  intros Hr%IH. revert Hr. apply ends_in_trans. intros y [Hy | Hy]%elem_of_app.
  - eapply ends_in_trans; [|by apply merge_step_ends]. intros z Hz. apply ends_in_self.
    rewrite elem_of_app, elem_of_cons. apply elem_of_cons in Hz. tauto.
  - apply ends_in_self. rewrite elem_of_app, elem_of_cons. auto.
Qed.

Lemma merge_ranges_endpoints l r : r ∈ merge_ranges l -> ends_in l r.
Proof.
  rewrite merge_ranges_eq, list_elem_of_In, <- in_rev, <- list_elem_of_In.
  intros Hr%merge_loop_ends. eapply ends_in_trans; [|exact Hr].
  intros x Hx. apply ends_in_self. by apply elem_of_sort_ranges.
Qed.

(** ** Runs of ports *)









(** ** Compiled ports: proofs *)

Section CoordSpec.
Context `{IpNetApi} `{SerdeJson}.




Lemma dst_candidates_u16 d : Forall u16_range (dst_candidates d).
Proof.
  unfold dst_candidates. destruct (parse_dst d) as [t|e] eqn:Hd; [|constructor].
  destruct (ports t) as [|rs] eqn:Hp.
  - constructor; [|constructor]. unfold u16_range, is_u. cbn. lia.
  - apply Forall_map. by eapply parse_dst_u16.
Qed.

Lemma elem_of_candidates p r :
  r ∈ candidates p <-> exists a d, a ∈ p.(acls) /\ d ∈ a.(dst) /\ r ∈ dst_candidates d.
Proof.
  unfold candidates. rewrite list_elem_of_In, in_concat. setoid_rewrite in_map_iff. split.
  - intros (x & (a & <- & Ha) & (y & (d & <- & Hd)%in_map_iff & Hr)%in_concat).
    exists a, d. by rewrite !list_elem_of_In.
  - intros (a & d & Ha & Hd & Hr). exists (concat (map dst_candidates (dst a))). split.
    + exists a. split; [done|]. by apply list_elem_of_In.
    + apply in_concat. exists (dst_candidates d). split; [|by apply list_elem_of_In].
      by apply in_map, list_elem_of_In.
Qed.

Lemma candidates_u16 p : Forall u16_range (candidates p).
Proof.
  apply Forall_forall. intros r (a & d & _ & _ & Hr)%elem_of_candidates.
  pose proof (dst_candidates_u16 d) as Hd. rewrite Forall_forall in Hd. auto.
Qed.

(** A port some rule lets through is in one of the candidate ranges. *)
Lemma port_ok_candidate p ctx port :
  is_u 16 port -> port_ok p ctx port = true -> covered (candidates p) port.
Proof.
  intros Hport (i & r & (Hi & (_ & _ & d & Hd & t & Ht & _ & Hp) & _) & _)%evaluate_allowed_rule.
  cbn in Hi, Hp.
  assert (covered (dst_candidates d) port) as (c & Hc & Hcov).
  { unfold dst_candidates, covered. rewrite Ht. destruct (ports t) as [|rs].
    - exists (0, 65535). split; [constructor|]. unfold covers, is_u in *. cbn. lia.
    - cbn in Hp. apply existsb_elem in Hp as (q & Hq & Hqp). unfold range_contains in Hqp.
      bool_prop. exists (q.(start), q.(end_)). split; [|done].
      by apply list_elem_of_fmap_2 with (f := fun q => (start q, end_ q)). }
  exists c. split; [|done]. apply elem_of_candidates. exists r, d.
  split; [apply list_elem_of_lookup; eauto | done].
Qed.



(** The ranges the endpoints of which are probed. *)
Definition merged_candidates (p : AclPolicy) : list prange :=
  merge_ranges (dedup (sort_ranges (candidates p))).

Lemma merged_candidates_covered p port :
  covered (merged_candidates p) port <-> covered (candidates p) port.
Proof.
  unfold merged_candidates.
  assert (Hext : forall r, r ∈ dedup (sort_ranges (candidates p)) <-> r ∈ candidates p)
    by (intros r; by rewrite elem_of_dedup, elem_of_sort_ranges).
  rewrite merge_ranges_covered.
  - by apply covered_ext.
  - apply Forall_forall. intros r Hr%Hext. pose proof (candidates_u16 p) as Hc.
    rewrite Forall_forall in Hc. auto.
Qed.

Lemma probe_spec p ctx r r' :
  probe p ctx r = Some r' ->
  port_ok p ctx r'.1 = true /\ port_ok p ctx r'.2 = true
  /\ (r' = r \/ r' = (r.1, r.1) \/ r' = (r.2, r.2)).
Proof.
  unfold probe. destruct (Z.eqb_spec r.1 r.2) as [E|_]; repeat case_match; bool_prop;
    intros [= <-]; cbn; rewrite <- ?E; auto.
Qed.

Lemma merged_candidates_u16 p r : r ∈ merged_candidates p -> u16_range r.
Proof.
  intros [(a & Ha & E1) (b & Hb & E2)]%merge_ranges_endpoints. pose proof (candidates_u16 p) as Hc.
  rewrite Forall_forall in Hc.
  rewrite elem_of_dedup, elem_of_sort_ranges in Ha, Hb. apply Hc in Ha, Hb.
  destruct Ha, Hb. split; congruence.
Qed.


Definition probed (p : AclPolicy) (ctx : EvalContext) : list prange :=
  filter_map (probe p ctx) (merged_candidates p).

Lemma probed_u16 p ctx : Forall u16_range (dedup (sort_ranges (probed p ctx))).
Proof.
  apply Forall_forall. intros r. rewrite elem_of_dedup, elem_of_sort_ranges.
  intros (c & Hc%merged_candidates_u16 & Hr)%elem_of_filter_map.
  apply probe_spec in Hr as (_ & _ & Hr). destruct Hc.
  destruct Hr as [-> | [-> | ->]]; by split.
Qed.





(** ** The builder's invariant and its maps *)



















End CoordSpec.

(** ** Theorems *)

(** Merging port ranges loses and adds no port, and leaves its result sorted with a gap
    between consecutive ranges (the saturating increment at port 65535 included). *)
Theorem merge_ranges_spec l (Hl : Forall u16_range l) :
  (forall port, covered (merge_ranges l) port <-> covered l port)
  /\ Sorted (fun a b => a.2 + 1 < b.1) (merge_ranges l).
Proof.
  split; [intros port; by apply merge_ranges_covered|].
  destruct (merge_ranges_loop l 0 Hl) as [_ Ha]. apply Sorted_rev in Ha.
  by rewrite rev_involutive in Ha.
Qed.

Lemma merge_ranges_spec_witness :
  (forall port, covered (merge_ranges [(443, 443); (80, 90); (85, 100); (101, 101)]) port
                <-> covered [(443, 443); (80, 90); (85, 100); (101, 101)] port)
  /\ Sorted (fun a b => a.2 + 1 < b.1) (merge_ranges [(443, 443); (80, 90); (85, 100); (101, 101)]).
Proof.
  apply (merge_ranges_spec [(443, 443); (80, 90); (85, 100); (101, 101)]).
  repeat constructor; vm_compute; congruence.
Defined.

Section CoordTheorems.
Context `{IpNetApi} `{SerdeJson}.

(** Compiled port ranges are exact when the evaluator is constant on them: if, inside
    each merged candidate range, every port gets the decision of its first port, and ports
    0 and 65535 are both allowed only when all are, then the compiled ranges hold exactly
    the 16-bit ports the evaluator allows. *)
Theorem compile_ports_exact (p : AclPolicy) (ctx : EvalContext)
    (Huniform : forall r port, r ∈ merged_candidates p -> covers r port ->
                  port_ok p ctx port = port_ok p ctx r.1)
    (Hends : port_ok p ctx 0 = true -> port_ok p ctx 65535 = true ->
             forall port, is_u 16 port -> port_ok p ctx port = true)
    port (Hport : is_u 16 port) :
  covered (compile_ports p ctx) port <-> port_ok p ctx port = true.
Proof.
  unfold compile_ports. destruct (port_ok p ctx 0 && port_ok p ctx 65535) eqn:Hfast.
  { bool_prop. split; [by intros _; apply Hends|]. intros _. exists (0, 65535).
    split; [constructor|]. unfold covers, is_u in *. cbn. lia. }
  fold (merged_candidates p). fold (probed p ctx).
  rewrite merge_ranges_covered by apply probed_u16.
  rewrite (covered_ext _ (probed p ctx))
    by (intros r; by rewrite elem_of_dedup, elem_of_sort_ranges).
  split.
  - intros (r' & (r & Hr & Hprobe)%elem_of_filter_map & Hcov).
    apply probe_spec in Hprobe as (H1 & H2 & Hr'). unfold covers in Hcov.
    destruct Hr' as [-> | [-> | ->]]; cbn in *.
    + by rewrite (Huniform r).
    + by replace port with r.1 by lia.
    + by replace port with r.2 by lia.
  - intros Hok. pose proof (port_ok_candidate p ctx port Hport Hok) as Hc.
    apply merged_candidates_covered in Hc as (r & Hr & Hcov).
    exists r. split; [|done]. apply elem_of_filter_map. exists r. split; [done|].
    assert (H1 : port_ok p ctx r.1 = true) by (by rewrite <- (Huniform r port)).
    assert (H2 : port_ok p ctx r.2 = true)
      by (rewrite (Huniform r); [done..|unfold covers in *; lia]).
    unfold probe. rewrite H1, H2. by destruct (r.1 =? r.2).
Qed.





(** The owners of a tag: the star, the identity itself, one of its groups, or a group of
    the policy it is a member of. *)
Definition owns (p : AclPolicy) (identity : str) (identity_groups : list str) (owner : str) : Prop :=
  owner = lit "*" \/ owner = identity
  \/ is_group owner = true /\ (owner ∈ identity_groups \/ in_group p owner (Some identity)).

Lemma owner_allows_spec p identity gs owner :
  owner_allows p identity gs owner = true <-> owns p identity gs owner.
Proof.
  unfold owner_allows, owns. rewrite <- expanded_group_spec.
  case_bool_decide; [tauto|]. case_bool_decide; [tauto|].
  destruct (is_group owner); cbn [andb]; [|intuition congruence].
  destruct (existsb _ gs) eqn:Hg.
  - apply existsb_eq in Hg. tauto.
  - assert (owner ∉ gs) by (rewrite <- existsb_eq, Hg; done).
    destruct (resolve_group p owner); rewrite ?existsb_eq; intuition congruence.
Qed.

(** Tag validation at registration is exact: a request is accepted exactly when every
    tag it asks for starts with [tag:], has owners in the policy, and one of them is the
    star, the identity, a group the identity was given, or a policy group whose expansion
    holds the identity; a rejection names a requested tag that fails this. *)
Theorem validate_tags_spec (r : RegisterRequest) (p : AclPolicy) identity gs :
  let valid tag := starts_with (lit "tag:") tag = true
                   /\ exists owners owner, p.(tag_owners) !! tag = Some owners
                        /\ owner ∈ owners /\ owns p identity gs owner in
  match validate_tags r p identity gs with
  | Ok _ => forall tag, tag ∈ r.(req_tags) -> valid tag
  | Err e => exists tag, tag ∈ r.(req_tags) /\ e = UnauthorizedTag tag /\ ~ valid tag
  end.
Proof.
  intros valid.
  assert (Hone : forall tag, match validate_tag p identity gs tag with
            | Ok _ => valid tag | Err e => e = UnauthorizedTag tag /\ ~ valid tag end).
  { intros tag. unfold validate_tag, valid.
    destruct (starts_with (lit "tag:") tag); cbn [negb]; [|split; [done | by intros [? _]]].
    destruct (p.(tag_owners) !! tag) as [owners|]; [|split; [done|by intros (_ & ? & ? & ? & _)]].
    destruct (existsb (owner_allows p identity gs) owners) eqn:He.
    - apply existsb_elem in He as (o & Ho & Hown%owner_allows_spec). split; [done|]. by exists owners, o.
    - split; [done|]. intros (_ & os & o & [= <-] & Ho & Hown%owner_allows_spec).
      rewrite existsb_elem_false in He. rewrite (He o Ho) in Hown. done. }
  unfold validate_tags. destruct (try_for _ _ _) as [[]|e] eqn:E.
  - apply try_for_const_ok in E as [_ Hall]; [|by intros x [] _ _]. intros tag Htag.
    specialize (Hone tag). by rewrite (Hall tag Htag) in Hone.
  - apply try_for_const_err in E as (tag & Htag & Herr); [|by intros x [] _ _]. exists tag.
    specialize (Hone tag). by rewrite Herr in Hone.
Qed.

End CoordTheorems.

(** ** Witnesses and counterexamples *)

Module CoordExamples.

#[local] Instance json : SerdeJson := {| Value := unit |}.

Definition rule (a : AclAction) (d : string) : AclRule :=
  {| action := a; src := [lit "*"]; dst := [lit d]; proto := None |}.
Definition policy_of (rs : list AclRule) : AclPolicy :=
  {| groups := ∅; hosts := ∅; tag_owners := ∅; acls := rs; ssh := []; auto_approvers := None;
     node_attrs := []; ipsets := ∅; postures := ∅; tests := []; ssh_tests := [];
     AclModel.derp_map := None |}.

Definition web : AclPolicy := policy_of [rule Accept "*:80,443"].

Lemma web_candidates : merged_candidates web = [(80, 80); (443, 443)].
Proof. vm_compute. reflexivity. Qed.

Lemma compile_ports_exact_witness :
  covered (compile_ports web default_ctx) 443 <-> port_ok web default_ctx 443 = true.
Proof.
  apply (compile_ports_exact web default_ctx); [| |by vm_compute].
  - intros r q Hr Hq. rewrite web_candidates in Hr.
    apply elem_of_cons in Hr as [-> | ->%list_elem_of_singleton]; unfold covers in Hq; cbn in *;
      f_equal; lia.
  - intros H0. exfalso. revert H0. vm_compute. discriminate.
Defined.

(** A denied port inside an accepted range; the two end ports only; an accepted port
    between two ports of rules for another source. *)
Definition hole : AclPolicy := policy_of [rule Deny "*:5"; rule Accept "*:1-10"].
Definition edges : AclPolicy := policy_of [rule Accept "*:0,65535"].
Definition between : AclPolicy :=
  policy_of [{| action := Accept; src := [lit "nobody@ex.com"]; dst := [lit "*:79,81"]; proto := None |};
             rule Accept "*:80"].

(** Without that uniformity the compiled ranges differ from the evaluator in both
    directions: a port denied inside an accepted range is emitted, two allowed end ports
    open every port, and an allowed port is lost when its neighbours are not allowed. *)
Theorem compile_ports_inexact :
  (covered (compile_ports hole default_ctx) 5 /\ port_ok hole default_ctx 5 = false)
  /\ (covered (compile_ports edges default_ctx) 22 /\ port_ok edges default_ctx 22 = false)
  /\ (compile_ports between default_ctx = [] /\ port_ok between default_ctx 80 = true).
Proof.
  split; [|split]; split; try (vm_compute; reflexivity).
  - exists (1, 10). split; [|by vm_compute].
    replace (compile_ports hole default_ctx) with [(1, 10)] by (vm_compute; reflexivity). constructor.
  - exists (0, 65535). split; [|by vm_compute].
    replace (compile_ports edges default_ctx) with [(0, 65535)] by (vm_compute; reflexivity).
    constructor.
Qed.






End CoordExamples.
