(* ===== verification/RelayFrame.v ===== *)
(** * DERP frames ([runesh-relay/src/frame.rs, error.rs])

    The frame codec of the relay: a type byte, a big-endian 32-bit length and a payload.
    [encode_frame] returns the bytes it appends to the buffer; [decode_frame] returns its
    result together with the buffer it leaves. *)
From S2P Require Import Prelude Str Utf8.

#[local] Open Scope Z_scope.

(** [RelayError]; [Io] carries the text of the I/O error. *)
Inductive RelayError : Type :=
  | Io (e : str)
  | InvalidFrame (e : str)
  | Disconnected
  | UnknownPeer (p : str)
  | FrameTooLarge (len max : Z)
  | AuthFailed
  | ServerFull
  | HandshakeTimeout
  | Protocol (e : str).

Definition MAX_FRAME_SIZE : Z := 64 * 1024.
Definition KEY_LEN : nat := 32.

Inductive FrameType : Type :=
  | T_ServerKey | T_ClientInfo | T_SendPacket | T_RecvPacket | T_KeepAlive | T_NotePreferred
  | T_PeerGone | T_PeerPresent | T_WatchConns | T_ClosePeer | T_Ping | T_Pong | T_Health
  | T_Restarting | T_ForwardPacket | T_ServerChallenge.

(** [ft as u8]. *)
Definition type_code (ft : FrameType) : Z :=
  match ft with
  | T_ServerKey => 0x01 | T_ClientInfo => 0x02 | T_SendPacket => 0x04 | T_RecvPacket => 0x05
  | T_KeepAlive => 0x06 | T_NotePreferred => 0x07 | T_PeerGone => 0x08 | T_PeerPresent => 0x09
  | T_WatchConns => 0x0a | T_ClosePeer => 0x0b | T_Ping => 0x0c | T_Pong => 0x0d
  | T_Health => 0x0e | T_Restarting => 0x0f | T_ForwardPacket => 0x10 | T_ServerChallenge => 0x11
  end.

Definition from_u8 (b : Z) : option FrameType :=
  match b with
  | 0x01 => Some T_ServerKey | 0x02 => Some T_ClientInfo | 0x04 => Some T_SendPacket
  | 0x05 => Some T_RecvPacket | 0x06 => Some T_KeepAlive | 0x07 => Some T_NotePreferred
  | 0x08 => Some T_PeerGone | 0x09 => Some T_PeerPresent | 0x0a => Some T_WatchConns
  | 0x0b => Some T_ClosePeer | 0x0c => Some T_Ping | 0x0d => Some T_Pong
  | 0x0e => Some T_Health | 0x0f => Some T_Restarting | 0x10 => Some T_ForwardPacket
  | 0x11 => Some T_ServerChallenge
  | _ => None
  end.

(** Keys are 32 bytes and ping data 8: [frame_wf] below. *)
Inductive Frame : Type :=
  | ServerKey (key : list byte)
  | ClientInfo (data : list byte)
  | SendPacket (dst_key data : list byte)
  | RecvPacket (src_key data : list byte)
  | KeepAlive
  | NotePreferred (preferred : bool)
  | PeerGone (key : list byte)
  | PeerPresent (key : list byte)
  | WatchConns
  | ClosePeer (key : list byte)
  | Ping (data : list byte)
  | Pong (data : list byte)
  | Health (message : str)
  | Restarting (reconnect_in_ms try_for_ms : Z)
  | ForwardPacket (dst_key data : list byte)
  | ServerChallenge (nonce : list byte).

(** [write_header]: the length is cast to [u32]. *)
Definition write_header (ft : FrameType) (length : nat) : list byte :=
  z2b (type_code ft) :: to_be 4 (Z.of_nat length).

Definition encode_frame (f : Frame) : list byte :=
  match f with
  | ServerKey key => write_header T_ServerKey KEY_LEN ++ key
  | ClientInfo data => write_header T_ClientInfo (length data) ++ data
  | SendPacket dst_key data => write_header T_SendPacket (KEY_LEN + length data) ++ dst_key ++ data
  | RecvPacket src_key data => write_header T_RecvPacket (KEY_LEN + length data) ++ src_key ++ data
  | KeepAlive => write_header T_KeepAlive 0
  | NotePreferred preferred =>
      write_header T_NotePreferred 1 ++ [z2b (if preferred then 1 else 0)]
  | PeerGone key => write_header T_PeerGone KEY_LEN ++ key
  | PeerPresent key => write_header T_PeerPresent KEY_LEN ++ key
  | WatchConns => write_header T_WatchConns 0
  | ClosePeer key => write_header T_ClosePeer KEY_LEN ++ key
  | Ping data => write_header T_Ping 8 ++ data
  | Pong data => write_header T_Pong 8 ++ data
  | Health message =>
      let bytes := as_bytes message in write_header T_Health (length bytes) ++ bytes
  | Restarting reconnect_in_ms try_for_ms =>
      write_header T_Restarting 8 ++ to_be 4 reconnect_in_ms ++ to_be 4 try_for_ms
  | ForwardPacket dst_key data =>
      write_header T_ForwardPacket (KEY_LEN + length data) ++ dst_key ++ data
  | ServerChallenge nonce => write_header T_ServerChallenge (length nonce) ++ nonce
  end.

Definition read_key (data : list byte) : result RelayError (list byte) :=
  if (length data =? KEY_LEN)%nat then Ok data
  else Err (InvalidFrame (lit "expected 32 bytes for key")).

(** A key followed by data, the shape of the packet frames. *)
Definition read_packet (short : str) (payload : list byte)
  : result RelayError (list byte * list byte) :=
  if (length payload <? KEY_LEN)%nat then Err (InvalidFrame short)
  else key ← read_key (take KEY_LEN payload); Ok (key, drop KEY_LEN payload).

(** The first eight bytes. *)
Definition read_eight (short : str) (payload : list byte) : result RelayError (list byte) :=
  if (length payload <? 8)%nat then Err (InvalidFrame short) else Ok (take 8 payload).

(** The [match ft] of [decode_frame]. *)
Definition decode_payload (ft : FrameType) (payload : list byte) : result RelayError Frame :=
  match ft with
  | T_ServerKey => key ← read_key payload; Ok (ServerKey key)
  | T_ClientInfo => Ok (ClientInfo payload)
  | T_SendPacket => '(k, d) ← read_packet (lit "SendPacket too short") payload; Ok (SendPacket k d)
  | T_RecvPacket => '(k, d) ← read_packet (lit "RecvPacket too short") payload; Ok (RecvPacket k d)
  | T_KeepAlive => Ok KeepAlive
  | T_NotePreferred =>
      Ok (NotePreferred (negb (match payload with b :: _ => b2z b | [] => 0 end =? 0)))
  | T_PeerGone => key ← read_key payload; Ok (PeerGone key)
  | T_PeerPresent => key ← read_key payload; Ok (PeerPresent key)
  | T_WatchConns => Ok WatchConns
  | T_ClosePeer => key ← read_key payload; Ok (ClosePeer key)
  | T_Ping => data ← read_eight (lit "Ping needs 8 bytes") payload; Ok (Ping data)
  | T_Pong => data ← read_eight (lit "Pong needs 8 bytes") payload; Ok (Pong data)
  | T_Health => Ok (Health (from_utf8_lossy payload))
  | T_Restarting =>
      data ← read_eight (lit "Restarting needs 8 bytes") payload;
      Ok (Restarting (from_be (take 4 data)) (from_be (drop 4 data)))
  | T_ForwardPacket =>
      '(k, d) ← read_packet (lit "ForwardPacket too short") payload; Ok (ForwardPacket k d)
  | T_ServerChallenge => Ok (ServerChallenge payload)
  end.

Definition decode_frame (buf : list byte) : result RelayError (option Frame) * list byte :=
  match buf with
  | ty :: l1 :: l2 :: l3 :: l4 :: body =>
      let length_ := from_be [l1; l2; l3; l4] in
      if MAX_FRAME_SIZE <? length_ then (Err (FrameTooLarge length_ MAX_FRAME_SIZE), buf)
      else if Z.of_nat (length buf) <? 5 + length_ then (Ok None, buf)
      else
        let payload := take (Z.to_nat length_) body in
        let rest := drop (Z.to_nat length_) body in
        match from_u8 (b2z ty) with
        | None => (Err (InvalidFrame (lit "unknown frame type: 0x" ++ hex02 (b2z ty))), rest)
        | Some ft =>
            (f ← decode_payload ft payload; Ok (Some f), rest)
        end
  | _ => (Ok None, buf)
  end.

(** ** Specification *)

(** The values of the Rust type. *)
Definition frame_wf (f : Frame) : Prop :=
  match f with
  | ServerKey k | PeerGone k | PeerPresent k | ClosePeer k => length k = KEY_LEN
  | SendPacket k _ | RecvPacket k _ | ForwardPacket k _ => length k = KEY_LEN
  | Ping d | Pong d => length d = 8%nat
  | Health s => Forall is_scalar s
  | Restarting a b => is_u 32 a /\ is_u 32 b
  | ClientInfo _ | KeepAlive | NotePreferred _ | WatchConns | ServerChallenge _ => True
  end.

(** The payload, for the size limit. *)
Definition payload_of (f : Frame) : list byte := drop 5 (encode_frame f).
Definition frame_fits (f : Frame) : Prop := Z.of_nat (length (payload_of f)) <= MAX_FRAME_SIZE.

Definition frame_type (f : Frame) : FrameType :=
  match f with
  | ServerKey _ => T_ServerKey | ClientInfo _ => T_ClientInfo | SendPacket _ _ => T_SendPacket
  | RecvPacket _ _ => T_RecvPacket | KeepAlive => T_KeepAlive | NotePreferred _ => T_NotePreferred
  | PeerGone _ => T_PeerGone | PeerPresent _ => T_PeerPresent | WatchConns => T_WatchConns
  | ClosePeer _ => T_ClosePeer | Ping _ => T_Ping | Pong _ => T_Pong | Health _ => T_Health
  | Restarting _ _ => T_Restarting | ForwardPacket _ _ => T_ForwardPacket
  | ServerChallenge _ => T_ServerChallenge
  end.

(** A stream of frames read from a connection: frames are taken off the buffer while it
    holds complete ones. *)
Fixpoint decode_stream (fuel : nat) (buf : list byte) : result RelayError (list Frame) * list byte :=
  match fuel with
  | O => (Ok [], buf)
  | S n => match decode_frame buf with
           | (Err e, rest) => (Err e, rest)
           | (Ok None, rest) => (Ok [], rest)
           | (Ok (Some f), rest) =>
               let '(r, rest') := decode_stream n rest in (fs ← r; Ok (f :: fs), rest')
           end
  end.

(** ** Proofs *)

Lemma from_u8_type_code ft : from_u8 (type_code ft) = Some ft.
Proof. by destruct ft. Qed.

Lemma type_code_range ft : 0 <= type_code ft < 256.
Proof. destruct ft; cbn; lia. Qed.

Lemma length_write_header ft n : length (write_header ft n) = 5%nat.
Proof. unfold write_header. cbn [length]. by rewrite length_to_be. Qed.

(** Decoding what starts with a header. *)
Lemma decode_header ft n body :
  Z.of_nat n <= MAX_FRAME_SIZE ->
  decode_frame (write_header ft n ++ body)
  = if (length body <? n)%nat then (Ok None, write_header ft n ++ body)
    else (f ← decode_payload ft (take n body); Ok (Some f), drop n body).
Proof.
  intros Hn. unfold write_header. pose proof (length_to_be 4 (Z.of_nat n)) as Hlen.
  destruct (to_be 4 (Z.of_nat n)) as [|l1 [|l2 [|l3 [|l4 [|? ?]]]]] eqn:E; try done. clear Hlen.
  cbn [app]. unfold decode_frame. rewrite <- E, from_be_to_be.
  2: { unfold MAX_FRAME_SIZE in Hn. cbn. lia. }
  destruct (Z.ltb_spec MAX_FRAME_SIZE (Z.of_nat n)); [lia|].
  rewrite b2z_z2b, Z.mod_small, from_u8_type_code, Nat2Z.id by apply type_code_range.
  cbn [length]. destruct (Nat.ltb_spec (length body) n), (Z.ltb_spec (Z.of_nat (S (S (S (S (S (length body))))))) (5 + Z.of_nat n)); try lia; done.
Qed.

Lemma drop_header ft n p : drop 5 (write_header ft n ++ p) = p.
Proof. by rewrite <- (length_write_header ft n), drop_app_length. Qed.

(** Well-formed frames encode to a header for their payload. *)
Lemma encode_frame_shape f :
  frame_wf f -> encode_frame f = write_header (frame_type f) (length (payload_of f)) ++ payload_of f.
Proof.
  intros Hwf. unfold payload_of.
  destruct f; cbn [encode_frame frame_type frame_wf] in *;
    rewrite ?drop_header, ?(drop_header _ 0 []), ?length_app, ?length_to_be, ?Hwf; try done;
    by rewrite <- (app_nil_r (write_header _ 0)), !drop_header.
Qed.

Lemma read_packet_app short k d :
  length k = KEY_LEN -> read_packet short (k ++ d) = Ok (k, d).
Proof.
  intros Hk. unfold read_packet, read_key. rewrite length_app, Hk.
  destruct (Nat.ltb_spec (KEY_LEN + length d) KEY_LEN); [lia|].
  by rewrite <- Hk, take_app_length, drop_app_length, Hk, Nat.eqb_refl.
Qed.

Lemma read_key_ok k : length k = KEY_LEN -> read_key k = Ok k.
Proof. intros Hk. unfold read_key. by rewrite Hk. Qed.

Lemma decode_payload_of f : frame_wf f -> decode_payload (frame_type f) (payload_of f) = Ok f.
Proof.
  intros Hwf. unfold payload_of.
  destruct f; cbn [encode_frame frame_type frame_wf] in *; rewrite ?drop_header;
    cbn [decode_payload]; rewrite ?read_key_ok, ?read_packet_app by done; try done.
  - by destruct preferred.
  - unfold read_eight. by rewrite Hwf, take_ge by lia.
  - unfold read_eight. by rewrite Hwf, take_ge by lia.
  - by rewrite from_utf8_lossy_as_bytes.
  - destruct Hwf as [Ha Hb]. unfold read_eight. rewrite length_app, !length_to_be.
    change (4 + 4 <? 8)%nat with false. cbn iota.
    rewrite take_ge by (by rewrite length_app, !length_to_be). cbn [mbind result_bind].
    pose proof (length_to_be 4 reconnect_in_ms) as Hl.
    rewrite take_app_length', drop_app_length', !from_be_to_be by done. done.
Qed.

Lemma decode_encode f rest :
  frame_wf f -> frame_fits f -> decode_frame (encode_frame f ++ rest) = (Ok (Some f), rest).
Proof.
  intros Hwf Hfit. rewrite (encode_frame_shape f Hwf), <- app_assoc, decode_header by done.
  rewrite length_app.
  destruct (Nat.ltb_spec (length (payload_of f) + length rest) (length (payload_of f))); [lia|].
  by rewrite take_app_length, drop_app_length, decode_payload_of.
Qed.

Lemma decode_prefix f n :
  frame_wf f -> frame_fits f -> (n < length (encode_frame f))%nat ->
  decode_frame (take n (encode_frame f)) = (Ok None, take n (encode_frame f)).
Proof.
  intros Hwf Hfit. rewrite (encode_frame_shape f Hwf). set (p := payload_of f).
  set (h := write_header (frame_type f) (length p)).
  assert (Hh : length h = 5%nat) by apply length_write_header.
  intros Hn. rewrite length_app, Hh in Hn. rewrite take_app, Hh.
  destruct (Nat.le_gt_cases n 4) as [Hle|Hgt].
  - replace (n - 5)%nat with 0%nat by lia. rewrite take_0, app_nil_r.
    assert (Hl : (length (take n h) < 5)%nat) by (rewrite length_take; lia).
    destruct (take n h) as [|? [|? [|? [|? [|? ?]]]]]; cbn in Hl; done || lia.
  - rewrite take_ge by lia. unfold h. rewrite decode_header by done.
    rewrite length_take. by destruct (Nat.ltb_spec (Nat.min (n - 5) (length p)) (length p)); [|lia].
Qed.

(** DERP frames survive the wire: a well-formed frame within the size limit, encoded
    and followed by any further bytes, decodes to itself and leaves exactly those bytes;
    every proper prefix of its encoding asks for more data and leaves the buffer alone. *)
Theorem frame_roundtrip f (Hwf : frame_wf f) (Hfit : frame_fits f) :
  (forall rest, decode_frame (encode_frame f ++ rest) = (Ok (Some f), rest))
  /\ (forall n, (n < length (encode_frame f))%nat ->
        decode_frame (take n (encode_frame f)) = (Ok None, take n (encode_frame f))).
Proof. split; intros; [by apply decode_encode | by apply decode_prefix]. Qed.

Lemma frame_roundtrip_witness :
  decode_frame (encode_frame (SendPacket (repeat x07 32) [x01; x02]) ++ [xff])
  = (Ok (Some (SendPacket (repeat x07 32) [x01; x02])), [xff]).
Proof. apply (frame_roundtrip (SendPacket (repeat x07 32) [x01; x02])); vm_compute; congruence. Defined.

(** What a successful or failed decoding consumed. *)
Lemma decode_frame_consumes buf o rest :
  decode_frame buf = (o, rest) ->
  exists used, buf = used ++ rest /\ Z.of_nat (length used) <= 5 + MAX_FRAME_SIZE
    /\ (o <> Ok None -> forall tail, (exists l m, o = Err (FrameTooLarge l m)) \/
          decode_frame (used ++ tail) = (o, tail)).
Proof.
  unfold decode_frame at 1.
  destruct buf as [|ty [|l1 [|l2 [|l3 [|l4 body]]]]];
    try (intros [= <- <-]; exists []; split; [done|]; split; [unfold MAX_FRAME_SIZE; cbn; lia | done]).
  set (len := from_be [l1; l2; l3; l4]).
  destruct (Z.ltb_spec MAX_FRAME_SIZE len) as [Hbig|Hbig].
  { intros [= <- <-]. exists []. split; [done|]. split; [unfold MAX_FRAME_SIZE; cbn; lia|].
    intros _ tail. left. eauto. }
  destruct (Z.ltb_spec (Z.of_nat (length (ty :: l1 :: l2 :: l3 :: l4 :: body))) (5 + len)) as [Hs|Hs].
  { intros [= <- <-]. exists []. split; [done|]. split; [unfold MAX_FRAME_SIZE; cbn; lia | done]. }
  pose proof (from_be_range [l1; l2; l3; l4]) as Hlen. fold len in Hlen. cbn [length] in Hs.
  intros Heq. exists (ty :: l1 :: l2 :: l3 :: l4 :: take (Z.to_nat len) body).
  assert (Hrest : rest = drop (Z.to_nat len) body) by (destruct (from_u8 (b2z ty)); congruence).
  assert (Htake : length (take (Z.to_nat len) body) = Z.to_nat len) by (rewrite length_take; lia).
  split; [subst rest; cbn; by rewrite take_drop|]. split; [cbn [length]; rewrite Htake; lia|].
  intros _ tail. right. cbn [app]. unfold decode_frame. fold len.
  destruct (Z.ltb_spec MAX_FRAME_SIZE len); [lia|]. cbn [length]. rewrite length_app, Htake.
  match goal with |- context [?a <? 5 + len] => destruct (Z.ltb_spec a (5 + len)); [lia|] end.
  rewrite take_app_length', drop_app_length' by done.
  destruct (from_u8 (b2z ty)); congruence.
Qed.

(** The decoder takes only its own frame: whatever it answers, the bytes it consumed
    are a prefix of the buffer of at most the header and the size limit, and an answer
    other than a request for more data or an oversized length depends on those bytes
    alone. *)
Theorem decode_frame_local buf :
  exists used, buf = used ++ (decode_frame buf).2
    /\ Z.of_nat (length used) <= 5 + MAX_FRAME_SIZE
    /\ ((decode_frame buf).1 <> Ok None ->
        forall tail, (exists l m, (decode_frame buf).1 = Err (FrameTooLarge l m)) \/
          decode_frame (used ++ tail) = ((decode_frame buf).1, tail)).
Proof. apply decode_frame_consumes. by destruct (decode_frame buf). Qed.

Lemma decode_stream_some n buf f rest :
  decode_frame buf = (Ok (Some f), rest) ->
  decode_stream (S n) buf
  = let '(r, rest') := decode_stream n rest in (fs ← r; Ok (f :: fs), rest').
Proof. intros H. cbn [decode_stream]. by rewrite H. Qed.

(** A stream of frames is read back whole: the concatenated encodings of well-formed
    frames within the limit, cut off anywhere inside one more frame, decode to exactly the
    complete frames, with the incomplete tail left in the buffer for the next read. *)
Theorem frame_stream_roundtrip fs last n
    (Hfs : Forall (fun f => frame_wf f /\ frame_fits f) fs)
    (Hlast : frame_wf last /\ frame_fits last) (Hn : (n < length (encode_frame last))%nat) :
  let buf := concat (map encode_frame fs) ++ take n (encode_frame last) in
  decode_stream (S (length fs)) buf = (Ok fs, take n (encode_frame last)).
Proof.
  cbn zeta. induction Hfs as [|f fs [Hwf Hfit] _ IH]; cbn [length map concat].
  - destruct Hlast. cbn [app decode_stream]. by rewrite decode_prefix.
  - rewrite <- app_assoc, (decode_stream_some _ _ f (concat (map encode_frame fs) ++ take n (encode_frame last)))
      by (by apply decode_encode).
    by rewrite IH.
Qed.

Lemma frame_stream_roundtrip_witness :
  decode_stream 3 (concat (map encode_frame [KeepAlive; Health (lit "ok")])
                   ++ take 7 (encode_frame (Ping (repeat x01 8))))
  = (Ok [KeepAlive; Health (lit "ok")], take 7 (encode_frame (Ping (repeat x01 8)))).
Proof.
  apply (frame_stream_roundtrip [KeepAlive; Health (lit "ok")] (Ping (repeat x01 8)) 7).
  - constructor; [split; [exact I | vm_compute; congruence]|].
    constructor; [split; [apply lit_scalar | vm_compute; congruence]|constructor].
  - split; vm_compute; congruence.
  - vm_compute. lia.
Defined.
