(* ===== verification/RelayServer.v ===== *)
(** * The DERP relay server ([runesh-relay/src/server.rs])

    The shared state of the server and the life of its connections as a step relation: the
    handshake, the read loop, the write task and the clean-up of each connection interleave
    freely.  A connection's outgoing channel is named by the connection's number; the
    channel's queue and whether its receiver (the write task) is alive are part of the
    connection record.  The keys are lists of bytes; HMAC-SHA256 and the forwarding policy
    are parameters. *)
From S2P Require Import Prelude Str F64 RelayFrame.

#[local] Open Scope Z_scope.

(** ** Token bucket *)

Record TokenBucket := { capacity : Z; tokens : f64; refill_per_sec : f64; last : Z }.

Definition new_bucket (cap refill now : Z) : TokenBucket :=
  {| capacity := cap; tokens := of_int cap; refill_per_sec := of_int refill; last := now |}.

Definition try_take (b : TokenBucket) (now : Z) : bool * TokenBucket :=
  let elapsed := as_secs_f64 (duration_since now b.(last)) in
  let t := fmin (fadd b.(tokens) (fmul elapsed b.(refill_per_sec))) (of_int b.(capacity)) in
  if fge t (of_int 1)
  then (true, {| capacity := b.(capacity); tokens := fsub t (of_int 1);
                 refill_per_sec := b.(refill_per_sec); last := now |})
  else (false, {| capacity := b.(capacity); tokens := t;
                  refill_per_sec := b.(refill_per_sec); last := now |}).

(** ** Configuration and authentication *)

Inductive AuthMode : Type :=
  | Auth_None
  | SharedKey (secret : list byte)
  | HmacChallenge (shared_secret : list byte).

Record RelayConfig := {
  bind_addr : str;
  server_key : list byte;
  max_clients : Z;
  client_buffer : nat;
  auth : AuthMode;
  per_sender_pps : Z
}.

Definition new_config (addr : str) (key : list byte) (a : AuthMode) : RelayConfig :=
  {| bind_addr := addr; server_key := key; max_clients := 10000; client_buffer := 256;
     auth := a; per_sender_pps := 1000 |}.

Section Relay.

(** [Hmac<Sha256>] of a key over a message. *)
Context (hmac : list byte -> list byte -> list byte).
(** The [AllowForward] policy. *)
Context (allow : list byte -> list byte -> bool).
Context (cfg : RelayConfig).

Definition compute_challenge_response (shared_secret challenge pubkey : list byte) : list byte :=
  hmac shared_secret (challenge ++ pubkey).

(** The first bytes the server sends. *)
Definition greeting (challenge : list byte) : list byte :=
  encode_frame (ServerKey cfg.(server_key))
  ++ match cfg.(auth) with
     | HmacChallenge _ => encode_frame (ServerChallenge challenge)
     | _ => []
     end.

(** The checks on the [ClientInfo] payload; the key of the client on success. *)
Definition authenticate (challenge : list byte) (info : list byte) : result RelayError (list byte) :=
  if (length info <? KEY_LEN)%nat then Err (InvalidFrame (lit "ClientInfo too short for key"))
  else
    let key := take KEY_LEN info in
    let provided := drop KEY_LEN info in
    match cfg.(auth) with
    | Auth_None => Ok key
    | SharedKey expected => if bool_decide (provided = expected) then Ok key else Err AuthFailed
    | HmacChallenge secret =>
        if negb (length provided =? 32)%nat then Err AuthFailed
        else if bool_decide (provided = compute_challenge_response secret challenge key)
             then Ok key else Err AuthFailed
    end.

(** ** Server state *)

Record Client := { tx : nat; preferred : bool }.

(** Where the handler of a connection is. *)
Inductive phase : Type :=
  | Handshaking                 (* waiting for [ClientInfo] *)
  | NeedRead (key : list byte)  (* in [read_loop], before [read_buf] *)
  | Decoding (key : list byte)  (* in [read_loop], draining the buffer *)
  | ReaderDone (key : list byte). (* [read_loop] returned; waiting for the write task *)

Record conn := {
  c_phase : phase;
  challenge : list byte;
  client_info : list byte;      (* the payload of [ClientInfo], once it was accepted *)
  read_buf : list byte;
  bucket : TokenBucket;
  queue : list Frame;
  rx_alive : bool
}.

Record RelayServer := {
  clients : gmap (list byte) Client;
  watchers : gmap (list byte) nat;
  conns : gmap nat conn;
  next_conn : nat;              (* connections accepted so far *)
  conn_count : Z;
  rejecting : nat;              (* calls of [reserve_slot] that are over the maximum *)
  rate_limited : Z;
  acl_dropped : Z
}.

Definition new_server : RelayServer :=
  {| clients := ∅; watchers := ∅; conns := ∅; next_conn := 0; conn_count := 0; rejecting := 0; rate_limited := 0; acl_dropped := 0 |}.

Definition with_conns (m : gmap nat conn) (s : RelayServer) : RelayServer :=
  {| clients := s.(clients); watchers := s.(watchers); conns := m; next_conn := s.(next_conn); conn_count := s.(conn_count); rejecting := s.(rejecting);
     rate_limited := s.(rate_limited); acl_dropped := s.(acl_dropped) |}.
Definition with_clients (m : gmap (list byte) Client) (s : RelayServer) : RelayServer :=
  {| clients := m; watchers := s.(watchers); conns := s.(conns); next_conn := s.(next_conn); conn_count := s.(conn_count); rejecting := s.(rejecting);
     rate_limited := s.(rate_limited); acl_dropped := s.(acl_dropped) |}.
Definition with_watchers (m : gmap (list byte) nat) (s : RelayServer) : RelayServer :=
  {| clients := s.(clients); watchers := m; conns := s.(conns); next_conn := s.(next_conn); conn_count := s.(conn_count); rejecting := s.(rejecting);
     rate_limited := s.(rate_limited); acl_dropped := s.(acl_dropped) |}.
Definition with_count (n : Z) (s : RelayServer) : RelayServer :=
  {| clients := s.(clients); watchers := s.(watchers); conns := s.(conns); next_conn := s.(next_conn); conn_count := n; rejecting := s.(rejecting);
     rate_limited := s.(rate_limited); acl_dropped := s.(acl_dropped) |}.
Definition with_rejecting (n : nat) (s : RelayServer) : RelayServer :=
  {| clients := s.(clients); watchers := s.(watchers); conns := s.(conns); next_conn := s.(next_conn);
     conn_count := s.(conn_count); rejecting := n; rate_limited := s.(rate_limited);
     acl_dropped := s.(acl_dropped) |}.
Definition count_acl_drop (s : RelayServer) : RelayServer :=
  {| clients := s.(clients); watchers := s.(watchers); conns := s.(conns); next_conn := s.(next_conn);
     conn_count := s.(conn_count); rejecting := s.(rejecting); rate_limited := s.(rate_limited);
     acl_dropped := wadd 64 s.(acl_dropped) 1 |}.
Definition count_rate_limited (s : RelayServer) : RelayServer :=
  {| clients := s.(clients); watchers := s.(watchers); conns := s.(conns); next_conn := s.(next_conn);
     conn_count := s.(conn_count); rejecting := s.(rejecting); rate_limited := wadd 64 s.(rate_limited) 1;
     acl_dropped := s.(acl_dropped) |}.

Definition set_phase (p : phase) (c : conn) : conn :=
  {| c_phase := p; challenge := c.(challenge); client_info := c.(client_info); read_buf := c.(read_buf); bucket := c.(bucket);
     queue := c.(queue); rx_alive := c.(rx_alive) |}.
Definition set_buf (b : list byte) (c : conn) : conn :=
  {| c_phase := c.(c_phase); challenge := c.(challenge); client_info := c.(client_info); read_buf := b; bucket := c.(bucket);
     queue := c.(queue); rx_alive := c.(rx_alive) |}.
Definition set_bucket (b : TokenBucket) (c : conn) : conn :=
  {| c_phase := c.(c_phase); challenge := c.(challenge); client_info := c.(client_info); read_buf := c.(read_buf); bucket := b;
     queue := c.(queue); rx_alive := c.(rx_alive) |}.
Definition set_queue (q : list Frame) (c : conn) : conn :=
  {| c_phase := c.(c_phase); challenge := c.(challenge); client_info := c.(client_info); read_buf := c.(read_buf);
     bucket := c.(bucket); queue := q; rx_alive := c.(rx_alive) |}.
Definition close_rx (c : conn) : conn :=
  {| c_phase := c.(c_phase); challenge := c.(challenge); client_info := c.(client_info); read_buf := c.(read_buf);
     bucket := c.(bucket); queue := []; rx_alive := false |}.

Definition update_conn (i : nat) (f : conn -> conn) (s : RelayServer) : RelayServer :=
  with_conns (alter f i s.(conns)) s.

(** [mpsc::Sender::try_send], the result ignored: dropped when the receiver is gone or the
    channel is full. *)
Definition push_frame (f : Frame) (c : conn) : conn :=
  if c.(rx_alive) && (length c.(queue) <? cfg.(client_buffer))%nat
  then set_queue (c.(queue) ++ [f]) c else c.
Definition try_send (i : nat) (f : Frame) (s : RelayServer) : RelayServer :=
  update_conn i (push_frame f) s.

(** A frame to every watcher, in the order the map is iterated. *)
Definition notify (ws : list (list byte * nat)) (f : Frame) (s : RelayServer) : RelayServer :=
  foldl (fun s w => try_send w.2 f s) s ws.

(** ** Accepting a connection *)

(** [reserve_slot] up to its test: the counter is raised first, and the test is on the value
    before.  A call over the maximum lowers the counter again by [release_slot]; until then
    the counter is too high for the other accept loops and whoever reads it. *)
Definition reserve_slot (s : RelayServer) : bool * RelayServer :=
  let prev := s.(conn_count) in
  let s1 := with_count (prev + 1) s in
  if cfg.(max_clients) <=? prev then (false, with_rejecting (S s.(rejecting)) s1) else (true, s1).
Definition release_slot (s : RelayServer) : RelayServer :=
  with_rejecting (pred s.(rejecting)) (with_count (s.(conn_count) - 1) s).

(** [ConnGuard::drop]: the connection is over. *)
Definition drop_conn (i : nat) (s : RelayServer) : RelayServer :=
  with_count (s.(conn_count) - 1) (with_conns (delete i s.(conns)) s).

Definition fresh_conn (ch : list byte) (now : Z) : conn :=
  {| c_phase := Handshaking; challenge := ch; client_info := []; read_buf := [];
     bucket := new_bucket cfg.(per_sender_pps) cfg.(per_sender_pps) now; queue := [];
     rx_alive := false |}.

(** The handler of an accepted connection starts; the state counts the connections so that
    a channel is never mistaken for an older one. *)
Definition open_conn (ch : list byte) (now : Z) (s : RelayServer) : RelayServer :=
  {| clients := s.(clients); watchers := s.(watchers);
     conns := <[s.(next_conn) := fresh_conn ch now]> s.(conns); next_conn := S s.(next_conn);
     conn_count := s.(conn_count); rejecting := s.(rejecting); rate_limited := s.(rate_limited); acl_dropped := s.(acl_dropped) |}.

(** Step 3 of [handle_client]: the client is registered and the watchers are told; the
    bucket is made and the tasks are started. *)
Definition register (i : nat) (info key rest : list byte) (now : Z) (ws : list (list byte * nat))
    (s : RelayServer) : RelayServer :=
  let s1 := update_conn i (fun c => {| c_phase := NeedRead key; challenge := c.(challenge);
                                       client_info := info; read_buf := rest;
                                       bucket := new_bucket cfg.(per_sender_pps) cfg.(per_sender_pps) now;
                                       queue := []; rx_alive := true |}) s in
  let s2 := with_clients (<[key := {| tx := i; preferred := false |}]> s1.(clients)) s1 in
  notify ws (PeerPresent key) s2.

(** One iteration of the handshake loop on the bytes read: [None] while it goes on, the
    payload of [ClientInfo] when it ends. *)
Definition handshake_decode (buf : list byte)
  : option (result RelayError (list byte)) * list byte :=
  match decode_frame buf with
  | (Err e, rest) => (Some (Err e), rest)
  | (Ok None, rest) => (None, rest)
  | (Ok (Some (ClientInfo data)), rest) => (Some (Ok data), rest)
  | (Ok (Some _), rest) =>
      (Some (Err (InvalidFrame (lit "expected ClientInfo as first frame"))), rest)
  end.

(** ** The read loop: one frame *)

Definition handle_frame (i : nat) (key : list byte) (now : Z) (cl : list (list byte * Client))
    (f : Frame) (s : RelayServer) : result RelayError RelayServer :=
  match f with
  | SendPacket dst_key data =>
      if negb (allow key dst_key) then Ok (count_acl_drop s)
      else
        match s.(conns) !! i with
        | None => Ok s
        | Some c =>
            let '(allowed, b') := try_take c.(bucket) now in
            let s1 := update_conn i (set_bucket b') s in
            if negb allowed then Ok (count_rate_limited s1)
            else match s1.(clients) !! dst_key with
                 | Some peer => Ok (try_send peer.(tx) (RecvPacket key data) s1)
                 | None => Ok s1
                 end
        end
  | ForwardPacket _ _ =>
      Err (Protocol (lit "ForwardPacket not permitted on a client connection"))
  | NotePreferred p =>
      Ok (with_clients (alter (fun c => {| tx := c.(tx); preferred := p |}) key s.(clients)) s)
  | WatchConns =>
      match s.(clients) !! key with
      | Some c =>
          let s1 := with_watchers (<[key := c.(tx)]> s.(watchers)) s in
          Ok (foldl (fun s kv => if bool_decide (kv.1 = key) then s
                                 else try_send c.(tx) (PeerPresent kv.1) s) s1 cl)
      | None => Ok s
      end
  | Ping data =>
      match s.(clients) !! key with
      | Some c => Ok (try_send c.(tx) (Pong data) s)
      | None => Ok s
      end
  | KeepAlive => Ok s
  | _ => Ok s
  end.

(** ** Clean-up *)

(** After the write task, and again after [handle_client]: the key is unregistered. *)
Definition unregister (key : list byte) (ws : list (list byte * nat)) (s : RelayServer) : RelayServer :=
  notify ws (PeerGone key) (with_clients (delete key s.(clients)) s).

(** The channel of connection [i] still has a sender: the handler's own until [read_loop]
    returned, the registered client's, a watcher's. *)
Definition has_sender (i : nat) (s : RelayServer) : Prop :=
  (exists c, s.(conns) !! i = Some c /\ match c.(c_phase) with ReaderDone _ => False | _ => True end)
  \/ (exists k c, s.(clients) !! k = Some c /\ c.(tx) = i)
  \/ (exists k, s.(watchers) !! k = Some i).

(** ** Steps *)

Inductive relay_step : RelayServer -> RelayServer -> Prop :=
  (* the accept loop *)
  | st_accept s s' ch now :
      reserve_slot s = (true, s') -> relay_step s (open_conn ch now s')
  | st_over s s' : reserve_slot s = (false, s') -> relay_step s s'
  | st_reject s : s.(rejecting) <> 0%nat -> relay_step s (release_slot s)
  (* the handshake: more bytes, success, failure (also a closed stream or the deadline) *)
  | st_handshake_more s i c bytes buf :
      s.(conns) !! i = Some c -> c.(c_phase) = Handshaking -> bytes <> [] ->
      handshake_decode (c.(read_buf) ++ bytes) = (None, buf) ->
      relay_step s (update_conn i (set_buf buf) s)
  | st_handshake_ok s i c bytes info key rest now ws :
      s.(conns) !! i = Some c -> c.(c_phase) = Handshaking -> bytes <> [] ->
      handshake_decode (c.(read_buf) ++ bytes) = (Some (Ok info), rest) ->
      authenticate c.(challenge) info = Ok key ->
      iter_of s.(watchers) ws ->
      relay_step s (register i info key rest now ws s)
  | st_handshake_fail s i c :
      s.(conns) !! i = Some c -> c.(c_phase) = Handshaking ->
      relay_step s (drop_conn i s)
  (* the read loop *)
  | st_read s i c key bytes :
      s.(conns) !! i = Some c -> c.(c_phase) = NeedRead key -> bytes <> [] ->
      relay_step s (update_conn i (fun c => set_phase (Decoding key) (set_buf (c.(read_buf) ++ bytes) c)) s)
  | st_read_end s i c key :
      s.(conns) !! i = Some c -> c.(c_phase) = NeedRead key ->
      relay_step s (update_conn i (set_phase (ReaderDone key)) s)
  | st_decode_more s i c key rest :
      s.(conns) !! i = Some c -> c.(c_phase) = Decoding key ->
      decode_frame c.(read_buf) = (Ok None, rest) ->
      relay_step s (update_conn i (fun c => set_phase (NeedRead key) (set_buf rest c)) s)
  | st_decode_err s i c key e rest :
      s.(conns) !! i = Some c -> c.(c_phase) = Decoding key ->
      decode_frame c.(read_buf) = (Err e, rest) ->
      relay_step s (update_conn i (fun c => set_phase (ReaderDone key) (set_buf rest c)) s)
  | st_frame s i c key f rest now cl s' :
      s.(conns) !! i = Some c -> c.(c_phase) = Decoding key ->
      decode_frame c.(read_buf) = (Ok (Some f), rest) ->
      iter_of s.(clients) cl ->
      handle_frame i key now cl f (update_conn i (set_buf rest) s) = Ok s' ->
      relay_step s s'
  | st_frame_err s i c key f rest now cl e :
      s.(conns) !! i = Some c -> c.(c_phase) = Decoding key ->
      decode_frame c.(read_buf) = (Ok (Some f), rest) ->
      handle_frame i key now cl f (update_conn i (set_buf rest) s) = Err e ->
      relay_step s (update_conn i (fun c => set_phase (ReaderDone key) (set_buf rest c)) s)
  (* the write task: a frame sent; a failed write, or the channel closed and empty *)
  | st_write s i c f q :
      s.(conns) !! i = Some c -> c.(rx_alive) = true -> c.(queue) = f :: q ->
      relay_step s (update_conn i (set_queue q) s)
  | st_write_fail s i c key f q ws :
      s.(conns) !! i = Some c -> c.(rx_alive) = true -> c.(queue) = f :: q ->
      (c.(c_phase) = NeedRead key \/ c.(c_phase) = Decoding key \/ c.(c_phase) = ReaderDone key) ->
      iter_of s.(watchers) ws ->
      relay_step s (unregister key ws (update_conn i close_rx s))
  | st_write_closed s i c key ws :
      s.(conns) !! i = Some c -> c.(rx_alive) = true -> c.(queue) = [] -> ~ has_sender i s ->
      c.(c_phase) = ReaderDone key -> iter_of s.(watchers) ws ->
      relay_step s (unregister key ws (update_conn i close_rx s))
  (* the handler after both tasks *)
  | st_finish s i c key ws :
      s.(conns) !! i = Some c -> c.(c_phase) = ReaderDone key -> c.(rx_alive) = false ->
      iter_of s.(watchers) ws ->
      relay_step s (drop_conn i (unregister key ws s)).

Definition reachable (s : RelayServer) : Prop := star relay_step new_server s.

End Relay.

(** ** Invariants *)

Section RelayProofs.
Context (hmac : list byte -> list byte -> list byte).
Context (allow : list byte -> list byte -> bool).
Context (cfg : RelayConfig).

Definition phase_key (p : phase) : option (list byte) :=
  match p with Handshaking => None | NeedRead k | Decoding k | ReaderDone k => Some k end.
Definition conn_key (c : conn) : option (list byte) := phase_key c.(c_phase).

(** What the relay may queue for the client with key [k]. *)
Definition deliverable (k : list byte) (f : Frame) : Prop :=
  match f with
  | RecvPacket src _ => allow src k = true
  | PeerPresent _ | PeerGone _ | Pong _ => True
  | _ => False
  end.

(** What proves that a client holds key [k], on a connection that was sent [ch]: its payload
    is the key followed by the shared secret, or by the HMAC of the challenge and the key; any
    payload with the key in front where no authentication is configured. *)
Definition proves (ch info k : list byte) : Prop :=
  length k = KEY_LEN
  /\ exists proof, info = k ++ proof
     /\ match cfg.(auth) with
        | Auth_None => True
        | SharedKey secret => proof = secret
        | HmacChallenge secret => length proof = 32%nat /\ proof = hmac secret (ch ++ k)
        end.

(** Authentication admits exactly the holders of the secret. *)
Theorem authenticate_spec ch info k : authenticate hmac cfg ch info = Ok k <-> proves ch info k.
Proof.
  unfold authenticate, compute_challenge_response. split.
  - destruct (Nat.ltb_spec (length info) KEY_LEN) as [|Hlen]; [done|]. intros Hok.
    assert (k = take KEY_LEN info) as -> by (repeat case_match; congruence).
    split; [rewrite length_take; lia|]. exists (drop KEY_LEN info). rewrite take_drop.
    split; [done|]. destruct (auth cfg); [done| |]; repeat case_match; bool_prop; try congruence.
    split; [by apply Nat.eqb_eq|congruence].
  - intros (Hk & proof & -> & Hp). rewrite length_app, Hk.
    destruct (Nat.ltb_spec (KEY_LEN + length proof) KEY_LEN); [lia|].
    rewrite <- Hk, take_app_length, drop_app_length.
    destruct (auth cfg) as [|secret|secret]; [done| |].
    + by rewrite bool_decide_eq_true_2.
    + destruct Hp as [-> Hp]. cbn [Nat.eqb negb]. by rewrite bool_decide_eq_true_2.
Qed.

(** A connection: nothing is queued before the client has proved its key, and then only what
    may be delivered to it, within the size of the channel. *)
Definition conn_inv (c : conn) : Prop :=
  (length c.(queue) <= cfg.(client_buffer))%nat
  /\ match conn_key c with
     | None => c.(queue) = [] /\ c.(rx_alive) = false
     | Some k => proves c.(challenge) c.(client_info) k /\ Forall (deliverable k) c.(queue)
     end.

Record relay_inv (s : RelayServer) : Prop := {
  inv_count : s.(conn_count) = Z.of_nat (size s.(conns) + s.(rejecting));
  inv_max : Z.of_nat (size s.(conns)) <= Z.max 0 cfg.(max_clients);
  inv_fresh : forall i, is_Some (s.(conns) !! i) -> (i < s.(next_conn))%nat;
  inv_clients : forall k cl, s.(clients) !! k = Some cl ->
                  exists c, s.(conns) !! cl.(tx) = Some c /\ conn_key c = Some k;
  inv_conns : forall i c, s.(conns) !! i = Some c -> conn_inv c
}.

(** An update of one connection that keeps its key. *)
Definition keeps_key (c c' : conn) : Prop := conn_key c' = conn_key c /\ conn_inv c'.

Lemma size_alter (g : conn -> conn) i (m : gmap nat conn) : size (alter g i m) = size m.
Proof. by rewrite <- (size_dom (D := gset nat) (alter g i m)), dom_alter_L, size_dom. Qed.

Lemma update_conn_inv i g s :
  relay_inv s -> (forall c, s.(conns) !! i = Some c -> keeps_key c (g c)) ->
  relay_inv (update_conn i g s).
Proof.
  intros [H1 H2 H3 H4 H5] Hg. constructor; cbn.
  - by rewrite size_alter.
  - by rewrite size_alter.
  - intros j. rewrite lookup_alter_is_Some. apply H3.
  - intros k cl Hk. destruct (H4 k cl Hk) as (c & Hc & Hck).
    destruct (decide (tx cl = i)) as [<-|Hne].
    + exists (g c). rewrite lookup_alter_eq, Hc. split; [done|]. destruct (Hg c Hc). congruence.
    + exists c. by rewrite lookup_alter_ne.
  - intros j c. destruct (decide (i = j)) as [<-|Hne].
    + rewrite lookup_alter_eq. intros (c0 & Hc0 & ->)%fmap_Some. apply (Hg c0 Hc0).
    + rewrite lookup_alter_ne by done. apply H5.
Qed.

(** Sending what the target may receive. *)
Lemma try_send_inv i f s :
  relay_inv s ->
  (forall c k, s.(conns) !! i = Some c -> conn_key c = Some k -> deliverable k f) ->
  relay_inv (try_send cfg i f s).
Proof.
  intros Hs Hf. apply update_conn_inv; [done|]. intros c Hc.
  pose proof (inv_conns s Hs i c Hc) as Hinv. unfold push_frame.
  destruct (rx_alive c) eqn:Hrx; cbn [andb]; [|by split].
  destruct (Nat.ltb_spec (length (queue c)) (client_buffer cfg)); [|by split]. split; [done|].
  destruct Hinv as [_ Hinv]. split; [cbn; rewrite length_app; cbn; lia|].
  change (conn_key (set_queue (queue c ++ [f]) c)) with (conn_key c).
  destruct (conn_key c) as [k|] eqn:Hk; [|destruct Hinv; congruence].
  destruct Hinv as [Hp Hinv]. split; [done|].
  apply Forall_app. split; [done|]. constructor; [by eapply Hf | constructor].
Qed.

Lemma notify_inv ws f s :
  relay_inv s -> (forall k, deliverable k f) -> relay_inv (notify cfg ws f s).
Proof.
  intros Hs Hf. unfold notify. revert s Hs. induction ws as [|w ws IH]; intros s Hs; [done|].
  cbn. apply IH. by apply try_send_inv.
Qed.

(** Changes to the other fields. *)
Lemma with_clients_inv m s :
  relay_inv s ->
  (forall k cl, m !! k = Some cl -> exists c, s.(conns) !! cl.(tx) = Some c /\ conn_key c = Some k) ->
  relay_inv (with_clients m s).
Proof. intros [H1 H2 H3 H4 H5] Hm. by constructor. Qed.

Lemma other_fields_inv s s' :
  relay_inv s -> s'.(conns) = s.(conns) -> s'.(clients) = s.(clients) ->
  s'.(next_conn) = s.(next_conn) -> s'.(conn_count) = s.(conn_count) -> s'.(rejecting) = s.(rejecting) -> relay_inv s'.
Proof. intros [H1 H2 H3 H4 H5] E1 E2 E3 E4 E5. constructor; rewrite ?E1, ?E2, ?E3, ?E4, ?E5; done. Qed.

(** Rejecting a connection: the counter is too high while it lasts. *)
Lemma reserve_over_inv s s' : relay_inv s -> reserve_slot cfg s = (false, s') -> relay_inv s'.
Proof.
  intros [H1 H2 H3 H4 H5]. unfold reserve_slot. case_if; intros [= <-]. constructor; cbn; try done. lia.
Qed.
Lemma release_inv s : relay_inv s -> s.(rejecting) <> 0%nat -> relay_inv (release_slot s).
Proof. intros [H1 H2 H3 H4 H5] Hr. constructor; cbn; try done. lia. Qed.

Lemma unregister_inv k ws s : relay_inv s -> relay_inv (unregister cfg k ws s).
Proof.
  intros Hs. unfold unregister. apply notify_inv; [|done]. apply with_clients_inv; [done|].
  intros k' cl [_ Hk]%lookup_delete_Some. by apply (inv_clients s).
Qed.

Lemma drop_conn_inv i s :
  relay_inv s -> is_Some (s.(conns) !! i) ->
  (forall k cl, s.(clients) !! k = Some cl -> cl.(tx) <> i) -> relay_inv (drop_conn i s).
Proof.
  intros [H1 H2 H3 H4 H5] Hi Hcl. constructor; cbn.
  - rewrite map_size_delete. destruct Hi as [c Hc]. rewrite Hc.
    assert (size (conns s) <> 0%nat) by (rewrite map_size_non_empty_iff; intros E; by rewrite E in Hc).
    lia.
  - rewrite map_size_delete. destruct Hi as [c Hc]. rewrite Hc. lia.
  - intros j [x Hj]. apply lookup_delete_Some in Hj as [_ Hj]. apply H3. by eexists.
  - intros k cl Hk. destruct (H4 k cl Hk) as (c & Hc & Hck). exists c. split; [|done].
    rewrite lookup_delete_ne; [done|]. intros ->. by apply (Hcl k cl).
  - intros j c [_ Hj]%lookup_delete_Some. by apply (H5 j).
Qed.

(** Notification changes neither the registered clients nor the keys of connections. *)
Lemma try_send_lookup i f s j c :
  (try_send cfg i f s).(conns) !! j = Some c ->
  exists c0, s.(conns) !! j = Some c0 /\ c.(c_phase) = c0.(c_phase) /\ c.(rx_alive) = c0.(rx_alive).
Proof.
  cbn. destruct (decide (i = j)) as [<-|Hne].
  - rewrite lookup_alter_eq. intros (c0 & Hc0 & ->)%fmap_Some. exists c0. split; [done|].
    unfold push_frame. by case_match.
  - rewrite lookup_alter_ne by done. by exists c.
Qed.

Lemma notify_clients ws f s : (notify cfg ws f s).(clients) = s.(clients).
Proof. unfold notify. revert s. induction ws as [|w ws IH]; intros s; [done|]. cbn. by rewrite IH. Qed.

Lemma notify_is_Some ws f s j :
  is_Some ((notify cfg ws f s).(conns) !! j) <-> is_Some (s.(conns) !! j).
Proof.
  unfold notify. revert s. induction ws as [|w ws IH]; intros s; [done|].
  cbn. rewrite IH. apply lookup_alter_is_Some.
Qed.

Lemma finish_inv i c key ws s :
  relay_inv s -> s.(conns) !! i = Some c -> conn_key c = Some key ->
  relay_inv (drop_conn i (unregister cfg key ws s)).
Proof.
  intros Hs Hc Hk. apply drop_conn_inv.
  - by apply unregister_inv.
  - unfold unregister. rewrite notify_is_Some. by exists c.
  - intros k cl Hcl. unfold unregister in Hcl. rewrite notify_clients in Hcl. cbn in Hcl.
    apply lookup_delete_Some in Hcl as [Hne Hcl]. intros Htx.
    destruct (inv_clients s Hs k cl Hcl) as (c' & Hc' & Hk'). congruence.
Qed.

Lemma register_inv i c info key rest now ws s :
  relay_inv s -> s.(conns) !! i = Some c -> c.(c_phase) = Handshaking -> proves c.(challenge) info key ->
  relay_inv (register cfg i info key rest now ws s).
Proof.
  intros Hs Hc Hp Hpr. unfold register. apply notify_inv; [|done].
  destruct Hs as [H1 H2 H3 H4 H5]. constructor; cbn.
  - by rewrite size_alter.
  - by rewrite size_alter.
  - intros j. rewrite lookup_alter_is_Some. apply H3.
  - intros k cl [[<- <-] | [Hne Hk]]%lookup_insert_Some.
    + cbn. rewrite lookup_alter_eq, Hc. eexists. split; [done|]. done.
    + destruct (H4 k cl Hk) as (c' & Hc' & Hk'). exists c'. split; [|done].
      rewrite lookup_alter_ne; [done|]. intros E. rewrite <- E, Hc in Hc'.
      injection Hc' as <-. unfold conn_key in Hk'. by rewrite Hp in Hk'.
  - intros j c'. destruct (decide (i = j)) as [<-|Hne].
    + rewrite lookup_alter_eq, Hc. intros [= <-]. split; [cbn; lia | by split].
    + rewrite lookup_alter_ne by done. apply H5.
Qed.

(** Updates of the connection's own fields. *)
Lemma conn_inv_ext c c' :
  conn_inv c -> conn_key c' = conn_key c -> c'.(queue) = c.(queue) -> c'.(rx_alive) = c.(rx_alive) ->
  c'.(challenge) = c.(challenge) -> c'.(client_info) = c.(client_info) -> keeps_key c c'.
Proof. intros Hc Hk Hq Hr H1 H2. split; [done|]. unfold conn_inv in *. by rewrite Hk, Hq, Hr, H1, H2. Qed.

Lemma handle_frame_inv i key now cl f s s' :
  relay_inv s -> handle_frame allow cfg i key now cl f s = Ok s' -> relay_inv s'.
Proof.
  intros Hs. destruct f; cbn; try (by intros [= <-]).
  - destruct (allow key dst_key) eqn:Ha; cbn [negb].
    2: { intros [= <-]. by apply (other_fields_inv s). }
    destruct (conns s !! i) as [c|] eqn:Hc; [|by intros [= <-]].
    destruct (try_take (bucket c) now) as [b bk].
    assert (Hs1 : relay_inv (update_conn i (set_bucket bk) s)).
    { apply update_conn_inv; [done|]. intros c' Hc'.
      apply conn_inv_ext; try done. by apply (inv_conns s Hs i). }
    destruct b; cbn [negb]; [|intros [= <-]; by apply (other_fields_inv _ _ Hs1)].
    destruct (clients s !! dst_key) as [peer|] eqn:Hpeer; intros [= <-]; [|done].
    apply try_send_inv; [done|]. intros c' k Hc' Hk. cbn.
    destruct (inv_clients _ Hs1 dst_key peer Hpeer) as (c2 & Hc2 & Hk2). congruence.
  - intros [= <-]. apply with_clients_inv; [done|]. intros k c.
    destruct (decide (key = k)) as [<-|Hne].
    + rewrite lookup_alter_eq. intros (c0 & Hc0 & ->)%fmap_Some. by apply (inv_clients s Hs key c0).
    + rewrite lookup_alter_ne by done. by apply (inv_clients s).
  - destruct (clients s !! key) as [c|] eqn:Hc; intros [= <-]; [|done].
    assert (Hs1 : relay_inv (with_watchers (<[key:=tx c]> (watchers s)) s))
      by (by apply (other_fields_inv s)).
    revert Hs1. generalize (with_watchers (<[key:=tx c]> (watchers s)) s) as s1.
    induction cl as [|kv cl IH]; intros s1 Hs1; [done|]. cbn. apply IH.
    case_bool_decide; [done|]. by apply try_send_inv.
  - destruct (clients s !! key) as [c|] eqn:Hc; intros [= <-]; [|done]. by apply try_send_inv.
Qed.

Lemma close_rx_keeps c : conn_inv c -> conn_key c <> None -> keeps_key c (close_rx c).
Proof.
  intros [_ Hc] Hk. split; [done|]. split; [cbn; lia|].
  change (conn_key (close_rx c)) with (conn_key c). destruct (conn_key c); [|done]. by destruct Hc.
Qed.

Lemma phase_keeps c p b :
  conn_inv c -> phase_key p = conn_key c -> keeps_key c (set_phase p (set_buf b c)).
Proof. intros Hc Hp. by apply conn_inv_ext. Qed.

Lemma open_conn_inv ch now s s' :
  relay_inv s -> reserve_slot cfg s = (true, s') -> relay_inv (open_conn cfg ch now s').
Proof.
  intros [H1 H2 H3 H4 H5]. unfold reserve_slot.
  destruct (Z.leb_spec (max_clients cfg) (conn_count s)); [done|]. intros [= <-].
  assert (Hnone : conns s !! next_conn s = None) by (apply eq_None_not_Some; intros Hi%H3; lia).
  constructor; cbn.
  - rewrite map_size_insert_None by done. lia.
  - rewrite map_size_insert_None by done. lia.
  - intros j [c Hj]. apply lookup_insert_Some in Hj as [[<- _] | [_ Hj]]; [lia|].
    specialize (H3 j (ex_intro _ _ Hj)). lia.
  - intros k cl Hk. destruct (H4 k cl Hk) as (c & Hc & Hck). exists c. split; [|done].
    rewrite lookup_insert_ne; [done|]. congruence.
  - intros j c [[<- <-] | [_ Hj]]%lookup_insert_Some; [split; [cbn; lia|done] | by apply (H5 j)].
Qed.

Lemma update_live_inv i c g s :
  relay_inv s -> s.(conns) !! i = Some c -> (conn_inv c -> keeps_key c (g c)) ->
  relay_inv (update_conn i g s).
Proof.
  intros Hs Hc Hg. apply update_conn_inv; [done|]. intros c' Hc'.
  assert (c' = c) as -> by congruence. apply Hg. by apply (inv_conns s Hs i).
Qed.

Lemma handshake_fail_inv i c s :
  relay_inv s -> s.(conns) !! i = Some c -> c.(c_phase) = Handshaking -> relay_inv (drop_conn i s).
Proof.
  intros Hs Hc Hp. apply drop_conn_inv; [done|by exists c|]. intros k cl Hcl Htx.
  destruct (inv_clients s Hs k cl Hcl) as (c' & Hc' & Hk'). rewrite Htx, Hc in Hc'.
  injection Hc' as <-. unfold conn_key in Hk'. by rewrite Hp in Hk'.
Qed.

Lemma write_keeps c f q : conn_inv c -> c.(queue) = f :: q -> keeps_key c (set_queue q c).
Proof.
  intros [Hlen Hci] Hq. rewrite Hq in Hlen, Hci. split; [done|].
  split; [cbn in *; lia|]. change (conn_key (set_queue q c)) with (conn_key c).
  destruct (conn_key c); [|by destruct Hci]. destruct Hci as [Hp Hci]. split; [done|]. by apply Forall_cons in Hci as [_ ?].
Qed.

Lemma relay_step_inv s s' : relay_inv s -> relay_step hmac allow cfg s s' -> relay_inv s'.
Proof.
  intros Hs Hstep.
  destruct Hstep; try (eapply update_live_inv; [done|eassumption|]; intros Hci;
    (apply phase_keeps || apply conn_inv_ext); try done; unfold conn_key;
    by match goal with Hp : c_phase _ = _ |- _ => rewrite Hp end).
  - by eapply open_conn_inv.
  - by eapply reserve_over_inv.
  - by apply release_inv.
  - eapply register_inv; [done..|]. by apply authenticate_spec.
  - by eapply handshake_fail_inv.
  - eapply handle_frame_inv; [|eassumption]. eapply update_live_inv; [done|eassumption|].
    intros Hci. by apply conn_inv_ext.
  - eapply update_live_inv; [done|eassumption|]. intros Hci. by eapply write_keeps.
  - apply unregister_inv. eapply update_live_inv; [done|eassumption|]. intros Hci.
    apply close_rx_keeps; [done|]. unfold conn_key. by destruct H2 as [-> | [-> | ->]].
  - apply unregister_inv. eapply update_live_inv; [done|eassumption|]. intros Hci.
    apply close_rx_keeps; [done|]. unfold conn_key.
    by match goal with Hp : c_phase _ = _ |- _ => rewrite Hp end.
  - eapply finish_inv; [done|eassumption|]. unfold conn_key.
    by match goal with Hp : c_phase _ = _ |- _ => rewrite Hp end.
Qed.

Lemma reachable_inv s : reachable hmac allow cfg s -> relay_inv s.
Proof.
  intros Hs. apply (star_invariant _ relay_inv _ _ relay_step_inv Hs).
  constructor; cbn; try (intros i; by rewrite lookup_empty).
  - by rewrite map_size_empty.
  - rewrite map_size_empty. lia.
Qed.

(** ** Theorems *)

(** C2: Relay safety in every interleaving of the accept loops, handlers and tasks.  In each
    reachable state the connection counter is the number of live connections and of
    rejections under way, and the live connections are within the configured maximum.  A
    registered client's channel belongs to a live connection whose [ClientInfo] payload
    proved that key: it is the 32-byte key followed by the shared secret, or by the HMAC of the
    challenge of this connection and the key (by anything when no authentication is
    configured).  No channel exceeds its size, and what is queued is for a client that proved
    its key, and is a presence notice, a pong, or a packet whose sender the forwarding policy
    admits to that client. *)
Theorem relay_safety s (Hs : reachable hmac allow cfg s) :
  s.(conn_count) = Z.of_nat (size s.(conns) + s.(rejecting))
  /\ Z.of_nat (size s.(conns)) <= Z.max 0 cfg.(max_clients)
  /\ (forall k cl, s.(clients) !! k = Some cl ->
        exists c, s.(conns) !! cl.(tx) = Some c /\ conn_key c = Some k /\ proves c.(challenge) c.(client_info) k)
  /\ (forall i c f, s.(conns) !! i = Some c -> f ∈ c.(queue) ->
        (length c.(queue) <= cfg.(client_buffer))%nat
        /\ exists k, conn_key c = Some k /\ proves c.(challenge) c.(client_info) k /\ deliverable k f).
Proof.
  apply reachable_inv in Hs as [H1 H2 H3 H4 H5]. do 2 (split; [done|]). split.
  - intros k cl Hk. destruct (H4 k cl Hk) as (c & Hc & Hck). exists c. split; [done|]. split; [done|].
    destruct (H5 _ _ Hc) as [_ Hinv]. rewrite Hck in Hinv. by destruct Hinv.
  - intros i c f Hc Hf. destruct (H5 i c Hc) as [Hlen Hinv]. split; [done|].
    destruct (conn_key c) as [k|].
    + exists k. destruct Hinv as [Hp Hinv]. split; [done|]. split; [done|]. rewrite Forall_forall in Hinv. auto.
    + destruct Hinv as [Hq _]. rewrite Hq in Hf. by apply not_elem_of_nil in Hf.
Qed.

(** ** What a step leaves alone *)

(** Connection [i] is still there, in the same phase and with its write task running. *)
Definition undisturbed (i : nat) (s s' : RelayServer) : Prop :=
  forall c, s.(conns) !! i = Some c ->
  exists c', s'.(conns) !! i = Some c' /\ c'.(c_phase) = c.(c_phase) /\ c'.(rx_alive) = c.(rx_alive).

Lemma undisturbed_refl i s s' : s'.(conns) = s.(conns) -> undisturbed i s s'.
Proof. intros E c Hc. exists c. by rewrite E. Qed.

Lemma undisturbed_trans i s1 s2 s3 :
  undisturbed i s1 s2 -> undisturbed i s2 s3 -> undisturbed i s1 s3.
Proof.
  intros H1 H2 c Hc. destruct (H1 c Hc) as (c2 & Hc2 & Hp2 & Hr2).
  destruct (H2 c2 Hc2) as (c3 & Hc3 & Hp3 & Hr3). exists c3. by rewrite Hp3, Hr3.
Qed.

Lemma undisturbed_update i j g s :
  (i = j -> forall c, c_phase (g c) = c_phase c /\ rx_alive (g c) = rx_alive c) ->
  undisturbed i s (update_conn j g s).
Proof.
  intros Hg c Hc. cbn. destruct (decide (i = j)) as [<-|Hne].
  - exists (g c). rewrite lookup_alter_eq, Hc. by destruct (Hg eq_refl c).
  - exists c. by rewrite lookup_alter_ne.
Qed.

Lemma undisturbed_send i j f s : undisturbed i s (try_send cfg j f s).
Proof. apply undisturbed_update. intros _ c. unfold push_frame. by case_match. Qed.

Lemma undisturbed_notify i ws f s : undisturbed i s (notify cfg ws f s).
Proof.
  unfold notify. revert s. induction ws as [|w ws IH]; intros s; [by apply undisturbed_refl|].
  cbn. eapply undisturbed_trans; [apply undisturbed_send | apply IH].
Qed.

Lemma undisturbed_unregister i k ws s : undisturbed i s (unregister cfg k ws s).
Proof.
  unfold unregister. eapply undisturbed_trans; [|apply undisturbed_notify].
  by apply undisturbed_refl.
Qed.

Lemma undisturbed_drop i j s : i <> j -> undisturbed i s (drop_conn j s).
Proof. intros Hne c Hc. exists c. cbn. by rewrite lookup_delete_ne. Qed.

Lemma undisturbed_frame i j key now cl f s s' :
  handle_frame allow cfg j key now cl f s = Ok s' -> undisturbed i s s'.
Proof.
  destruct f; cbn; try (intros [= <-]; by apply undisturbed_refl).
  - destruct (negb _); [by intros [= <-]; apply undisturbed_refl|].
    destruct (conns s !! j) as [c|]; [|by intros [= <-]; apply undisturbed_refl].
    destruct (try_take (bucket c) now) as [b bk].
    assert (Hb : undisturbed i s (update_conn j (set_bucket bk) s)) by (by apply undisturbed_update).
    destruct b; cbn [negb]; [|by intros [= <-]].
    destruct (clients s !! dst_key); intros [= <-]; [|done].
    eapply undisturbed_trans; [exact Hb | apply undisturbed_send].
  - destruct (clients s !! key) as [c|]; intros [= <-]; [|by apply undisturbed_refl].
    apply (undisturbed_trans _ _ (with_watchers (<[key:=tx c]> (watchers s)) s));
      [by apply undisturbed_refl|].
    generalize (with_watchers (<[key:=tx c]> (watchers s)) s) as s1.
    induction cl as [|kv cl IH]; intros s1; [by apply undisturbed_refl|]. cbn.
    case_bool_decide; [apply IH|]. eapply undisturbed_trans; [apply undisturbed_send | apply IH].
  - destruct (clients s !! key); intros [= <-]; [apply undisturbed_send | by apply undisturbed_refl].
Qed.

(** The end of the read loop does not stop the write task: while a connection whose
    reader has returned is still the registered client of its key and has nothing queued,
    no step of the server ends its write task or frees its slot, since the registration
    itself holds a sender of the channel the task waits on. *)
Theorem reader_end_keeps_connection s s' i c key cl
    (Hs : reachable hmac allow cfg s)
    (Hc : s.(conns) !! i = Some c) (Hp : c.(c_phase) = ReaderDone key)
    (Hrx : c.(rx_alive) = true) (Hq : c.(queue) = [])
    (Hcl : s.(clients) !! key = Some cl) (Htx : cl.(tx) = i)
    (Hstep : relay_step hmac allow cfg s s') :
  exists c', s'.(conns) !! i = Some c' /\ c'.(c_phase) = ReaderDone key /\ c'.(rx_alive) = true.
Proof.
  apply reachable_inv in Hs.
  enough (Hu : undisturbed i s s')
    by (destruct (Hu c Hc) as (c' & ? & ? & ?); exists c'; by rewrite <- Hp, <- Hrx).
  destruct Hstep; try (apply undisturbed_update; intros <-; exfalso; congruence).
  - unfold reserve_slot in *. destruct (_ <=? _); simplify_eq. intros c0 Hc0. exists c0. cbn.
    split; [|done]. rewrite lookup_insert_ne; [done|]. intros E.
    pose proof (inv_fresh s Hs (tx cl) (ex_intro _ c Hc)). lia.
  - unfold reserve_slot in *. by destruct (_ <=? _); simplify_eq; apply undisturbed_refl.
  - by apply undisturbed_refl.
  - unfold register. eapply undisturbed_trans; [|apply undisturbed_notify].
    apply (undisturbed_update i i0). intros <-. exfalso. congruence.
  - apply undisturbed_drop. intros <-. congruence.
  - eapply undisturbed_trans; [|eapply undisturbed_frame; eassumption].
    by apply undisturbed_update.
  - eapply undisturbed_trans; [|apply undisturbed_unregister].
    apply undisturbed_update. intros <-. exfalso. congruence.
  - eapply undisturbed_trans; [|apply undisturbed_unregister].
    apply undisturbed_update. intros <-. exfalso.
    match goal with Hn : ~ has_sender _ _ |- _ => apply Hn end. right. left. eauto.
  - eapply undisturbed_trans; [apply undisturbed_unregister|].
    apply undisturbed_drop. intros <-. congruence.
Qed.

(** The connections a packet from [key] to [dst] is for: that of the client registered under
    [dst], if the policy and the sender's rate limiter let the packet through. *)
Definition forwards_to (c : conn) (key dst : list byte) (now : Z) (s : RelayServer) (j : nat) : bool :=
  allow key dst && (try_take c.(bucket) now).1
  && match s.(clients) !! dst with Some peer => bool_decide (peer.(tx) = j) | None => false end.

(** What [try_send] leaves in the queues. *)
Lemma try_send_queue i f s j :
  queue <$> (try_send cfg i f s).(conns) !! j
  = (fun c => if bool_decide (i = j) && c.(rx_alive) && (length c.(queue) <? cfg.(client_buffer))%nat
              then c.(queue) ++ [f] else c.(queue)) <$> s.(conns) !! j.
Proof.
  cbn. case_bool_decide as Hij.
  - subst. rewrite lookup_alter_eq, <- option_fmap_compose. apply option_fmap_ext. intros c. cbn.
    unfold push_frame. by destruct (_ && _).
  - by rewrite lookup_alter_ne.
Qed.

(** Taking a token changes the bucket of its connection only. *)
Lemma set_bucket_lookup {A} (g : conn -> A) i b s j :
  (forall c, g (set_bucket b c) = g c) ->
  g <$> (update_conn i (set_bucket b) s).(conns) !! j = g <$> s.(conns) !! j.
Proof.
  intros Hg. cbn. destruct (decide (i = j)) as [->|Hne].
  - rewrite lookup_alter_eq, <- option_fmap_compose. by apply option_fmap_ext.
  - by rewrite lookup_alter_ne.
Qed.

(** Forwarding one packet: a [SendPacket] never fails and leaves the registrations
    alone. It is queued exactly for the connection registered under the destination key,
    if the policy admits the pair, the sender has a token, and that connection's channel is
    open and has room; the queued frame carries the sender's own authenticated key and the
    data unchanged, and no other queue changes. A packet the policy drops is counted as
    such and costs no token; one over the rate is counted as rate limited. *)
Theorem send_packet_spec i c key now cl dst data s (Hc : s.(conns) !! i = Some c) :
  exists s', handle_frame allow cfg i key now cl (SendPacket dst data) s = Ok s'
  /\ s'.(clients) = s.(clients) /\ s'.(watchers) = s.(watchers)
  /\ (forall j, queue <$> s'.(conns) !! j
        = (fun d => if forwards_to c key dst now s j && d.(rx_alive)
                       && (length d.(queue) <? cfg.(client_buffer))%nat
                    then d.(queue) ++ [RecvPacket key data] else d.(queue)) <$> s.(conns) !! j)
  /\ s'.(acl_dropped) = (if allow key dst then s.(acl_dropped) else wadd 64 s.(acl_dropped) 1)
  /\ s'.(rate_limited) = (if allow key dst && negb (try_take c.(bucket) now).1
                          then wadd 64 s.(rate_limited) 1 else s.(rate_limited))
  /\ (allow key dst = false -> s'.(conns) = s.(conns)).
Proof.
  cbn [handle_frame]. rewrite Hc. unfold forwards_to.
  destruct (allow key dst); cbn [negb andb]; [|by eexists].
  destruct (try_take (bucket c) now) as [[] bk]; cbn [negb fst andb].
  2: { eexists. split; [done|]. do 2 (split; [done|]). split; [|done].
       intros j. by apply set_bucket_lookup. }
  change (clients (update_conn i (set_bucket bk) s)) with (clients s).
  destruct (clients s !! dst) as [peer|].
  - eexists. split; [done|]. do 2 (split; [done|]). split; [|done].
    intros j. rewrite try_send_queue.
    by apply (set_bucket_lookup (fun d =>
      if bool_decide (tx peer = j) && rx_alive d && (length (queue d) <? client_buffer cfg)%nat
      then queue d ++ [RecvPacket key data] else queue d)).
  - eexists. split; [done|]. do 2 (split; [done|]). split; [|done].
    intros j. by apply set_bucket_lookup.
Qed.

End RelayProofs.

(** ** Runs *)

Module RelayExamples.

(** A toy HMAC: the last 32 bytes of the message, turned round. *)
Definition hmac0 : list byte -> list byte -> list byte := fun _ m => take 32 (rev m).
Definition allow0 : list byte -> list byte -> bool := fun _ _ => true.
Definition cfg0 : RelayConfig := new_config (lit "0.0.0.0:3340") (repeat x01 32) (HmacChallenge [x05]).
Definition k0 : list byte := repeat x07 32.
Definition proof0 : list byte := k0 ++ repeat x07 32.
Definition info : list byte := encode_frame (ClientInfo proof0).

Abbreviation step := (relay_step hmac0 allow0 cfg0).

(** A fresh bucket admits its capacity at one instant, and no more. *)
Fixpoint takes (n : nat) (b : TokenBucket) (now : Z) : list bool :=
  match n with
  | O => []
  | S n' => let '(r, b') := try_take b now in r :: takes n' b' now
  end.
Example burst_of_ten : takes 12 (new_bucket 10 10 0) 5 = repeat true 10 ++ [false; false].
Proof. vm_compute. reflexivity. Qed.
Example refill_after_a_second :
  (try_take {| capacity := 10; tokens := of_int 0; refill_per_sec := of_int 10; last := 0 |} 100000000).1
  = true.
Proof. vm_compute. reflexivity. Qed.

(** Two connections accepted, both authenticating with the same key. *)
Definition r1 := open_conn cfg0 [] 0 (with_count 1 new_server).
Definition r2 := open_conn cfg0 [] 0 (with_count 2 r1).
Definition r3 := register cfg0 0 proof0 k0 [] 0 [] r2.
Definition r4 := register cfg0 1 proof0 k0 [] 0 [] r3.
(** The first one's stream ends, and its write task finds its channel closed. *)
Definition r5 := update_conn 0 (set_phase (ReaderDone k0)) r4.
Definition r6 := unregister cfg0 k0 [] (update_conn 0 close_rx r5).

Lemma no_watchers (s : RelayServer) : s.(watchers) = ∅ -> iter_of s.(watchers) [].
Proof. intros ->. unfold iter_of. by rewrite map_to_list_empty. Qed.

Lemma accepts s : s.(conn_count) < 10000 -> step s (open_conn cfg0 [] 0 (with_count (s.(conn_count) + 1) s)).
Proof.
  intros H. apply st_accept. unfold reserve_slot. cbn [max_clients cfg0 new_config].
  destruct (Z.leb_spec 10000 (conn_count s)); [lia | done].
Qed.

Lemma authenticates i s :
  s.(watchers) = ∅ ->
  s.(conns) !! i = Some (fresh_conn cfg0 [] 0) -> step s (register cfg0 i proof0 k0 [] 0 [] s).
Proof.
  intros Hw Hc. eapply (st_handshake_ok _ _ _ s i _ info); [exact Hc|done|done| | |by apply no_watchers].
  - vm_compute. reflexivity.
  - vm_compute. reflexivity.
Qed.

Lemma r4_reachable : reachable hmac0 allow0 cfg0 r4.
Proof.
  apply (star_step _ _ r1); [by apply (accepts new_server)|].
  apply (star_step _ _ r2); [by apply (accepts r1)|].
  apply (star_step _ _ r3); [by apply (authenticates 0 r2)|].
  apply star_one. by apply (authenticates 1 r3).
Qed.

Lemma r6_reachable : reachable hmac0 allow0 cfg0 r6.
Proof.
  apply (star_trans _ _ r4); [exact r4_reachable|].
  apply (star_step _ _ r5); [by eapply st_read_end|].
  apply star_one. eapply st_write_closed; [reflexivity|reflexivity|reflexivity| |reflexivity|by apply no_watchers].
  intros [(c & Hc & Hp) | [(k & c & Hc & Htx) | (k & Hk)]].
  - vm_compute in Hc. injection Hc as <-. exact Hp.
  - change (clients r5) with (<[k0 := {| tx := 1; preferred := false |}]> (clients r3)) in Hc.
    apply lookup_insert_Some in Hc as [[_ <-] | [Hne Hc]]; [discriminate|].
    change (clients r3) with (<[k0 := {| tx := 0; preferred := false |}]> (∅ : gmap (list byte) Client)) in Hc.
    apply lookup_insert_Some in Hc as [[E _] | [_ Hc]]; [done|]. by rewrite lookup_empty in Hc.
  - change (watchers r5) with (∅ : gmap (list byte) nat) in Hk. by rewrite lookup_empty in Hk.
Qed.

(** Reconnecting under the same key can leave a live client unreachable: there is a
    reachable state in which a connection is authenticated, reading and writing, but its
    key is not registered, because the clean-up of an older connection with the same key
    removed the newer registration. *)
Theorem reconnect_unregisters :
  exists s i c, reachable hmac0 allow0 cfg0 s /\ s.(conns) !! i = Some c
    /\ c.(c_phase) = NeedRead k0 /\ c.(rx_alive) = true /\ s.(clients) !! k0 = None.
Proof.
  exists r6, 1%nat. eexists. split; [exact r6_reachable|].
  split; [vm_compute; reflexivity|]. repeat split; vm_compute; reflexivity.
Qed.

(** In [r4] the key is that of the second connection, which proved it. *)
Lemma relay_safety_witness :
  r4.(conn_count) = 2 /\ exists c, r4.(conns) !! 1%nat = Some c /\ c.(client_info) = proof0
    /\ proves hmac0 cfg0 c.(challenge) c.(client_info) k0.
Proof.
  destruct (relay_safety hmac0 allow0 cfg0 r4 r4_reachable) as (H1 & _ & H3 & _). split; [rewrite H1; vm_compute; reflexivity|].
  destruct (H3 k0 {| tx := 1; preferred := false |}) as (c & Hc & _ & Hp); [vm_compute; reflexivity|].
  exists c. split; [exact Hc|]. split; [|exact Hp]. vm_compute in Hc. injection Hc as <-. vm_compute. reflexivity.
Defined.

(** A packet of a client to itself is queued for it. *)
Definition alone : RelayServer := register cfg0 0 proof0 k0 [] 0 [] r1.
Definition alone_conn : conn := default (fresh_conn cfg0 [] 0) (alone.(conns) !! 0%nat).

Lemma send_packet_spec_witness :
  exists s', handle_frame allow0 cfg0 0 k0 0 [] (SendPacket k0 [x2a]) alone = Ok s'
    /\ queue <$> s'.(conns) !! 0%nat = Some [RecvPacket k0 [x2a]].
Proof.
  destruct (send_packet_spec allow0 cfg0 0 alone_conn k0 0 [] k0 [x2a] alone) as (s' & E & _ & _ & Hq & _).
  - vm_compute. reflexivity.
  - exists s'. split; [exact E|]. rewrite (Hq 0%nat). vm_compute. reflexivity.
Defined.

(** The stream of the only client ends; a further connection is accepted. *)
Definition z2 := register cfg0 0 proof0 k0 [] 0 [] r1.
Definition z3 := update_conn 0 (set_phase (ReaderDone k0)) z2.
Definition z4 := open_conn cfg0 [] 0 (with_count 2 z3).

Lemma z3_reachable : reachable hmac0 allow0 cfg0 z3.
Proof.
  apply (star_step _ _ r1); [by apply (accepts new_server)|].
  apply (star_step _ _ z2); [by apply (authenticates 0 r1)|].
  apply star_one. by eapply st_read_end.
Qed.

Lemma reader_end_keeps_connection_witness :
  exists c, z4.(conns) !! 0%nat = Some c /\ c.(c_phase) = ReaderDone k0 /\ c.(rx_alive) = true.
Proof.
  eapply (reader_end_keeps_connection hmac0 allow0 cfg0 z3 z4 0%nat);
    [exact z3_reachable | reflexivity.. | by apply (accepts z3)].
Defined.

End RelayExamples.
