(* ===== verification/MeshIpam.v ===== *)
(** * Mesh address allocation ([runesh-mesh/src/ipam.rs, error.rs])

    The address pool of a tenant: a /22 block of 100.64.0.0/10 with the set of offsets in
    use and a cursor.  The search loop of [allocate] runs with fuel; a full turn over the
    1022 offsets is enough whenever the cursor is in range, which every operation keeps. *)
From S2P Require Import Prelude Str Net.

#[local] Open Scope Z_scope.

(** [MeshError]; the payloads of other crates are their texts. *)
Inductive MeshError : Type :=
  | InvalidKey (e : str)
  | PeerNotFound (e : str)
  | IpPoolExhausted (e : str)
  | DuplicatePeer (e : str)
  | Tunnel (e : str)
  | Io (e : str)
  | Base64 (e : str).

Definition CGNAT_BASE : Z := 0x64400000.
Definition BLOCK_SIZE : Z := 1024.
Definition MAX_OFFSET : Z := 1022.
Definition MAX_TENANTS : Z := 4096.

Record TenantIpPool := {
  tenant_id : Z;
  base : Z;
  allocated : gset Z;
  next_offset : Z
}.

Definition new (t : Z) : result MeshError TenantIpPool :=
  if MAX_TENANTS <=? t
  then Err (IpPoolExhausted (lit "tenant_id " ++ show_uint t ++ lit " exceeds max "
                             ++ show_uint (MAX_TENANTS - 1)))
  else Ok {| tenant_id := t; base := CGNAT_BASE + t * BLOCK_SIZE; allocated := ∅; next_offset := 1 |}.

Definition with_allocated (a : gset Z) (p : TenantIpPool) : TenantIpPool :=
  {| tenant_id := p.(tenant_id); base := p.(base); allocated := a; next_offset := p.(next_offset) |}.

(** The loop of [allocate], from [offset]. *)
Fixpoint allocate_loop (fuel : nat) (p : TenantIpPool) (start offset : Z)
  : result (fault MeshError) (Z * TenantIpPool) :=
  match fuel with
  | O => Err OutOfFuel
  | S n =>
      if (offset <=? MAX_OFFSET) && negb (bool_decide (offset ∈ p.(allocated)))
      then Ok (p.(base) + offset,
               {| tenant_id := p.(tenant_id); base := p.(base);
                  allocated := {[offset]} ∪ p.(allocated);
                  next_offset := if MAX_OFFSET <=? offset then 1 else offset + 1 |})
      else
        let offset1 := offset + 1 in
        let offset2 := if MAX_OFFSET <? offset1 then 1 else offset1 in
        if offset2 =? start
        then Err (Fails (IpPoolExhausted (lit "tenant " ++ show_uint p.(tenant_id))))
        else allocate_loop n p start offset2
  end.

Definition allocate (p : TenantIpPool) : result (fault MeshError) (Z * TenantIpPool) :=
  allocate_loop (Z.to_nat MAX_OFFSET) p p.(next_offset) p.(next_offset).

Definition allocate_specific (p : TenantIpPool) (ip : Z) : result MeshError TenantIpPool :=
  if (ip <? p.(base)) || (p.(base) + BLOCK_SIZE <=? ip)
  then Err (IpPoolExhausted (show_ipv4 ip ++ lit " not in tenant " ++ show_uint p.(tenant_id)
                             ++ lit " range"))
  else
    let offset := ip - p.(base) in
    if bool_decide (offset ∈ p.(allocated))
    then Err (DuplicatePeer (show_ipv4 ip ++ lit " already allocated"))
    else Ok (with_allocated ({[offset]} ∪ p.(allocated)) p).

Definition release (p : TenantIpPool) (ip : Z) : TenantIpPool :=
  if (p.(base) <=? ip) && (ip <? p.(base) + BLOCK_SIZE)
  then with_allocated (p.(allocated) ∖ {[ip - p.(base)]}) p
  else p.

Definition subnet (p : TenantIpPool) : Z := p.(base).
Definition allocated_count (p : TenantIpPool) : Z := Z.of_nat (size p.(allocated)).
(** The subtraction is on [usize] and wraps. *)
Definition available_count (p : TenantIpPool) : Z := wrap 64 (MAX_OFFSET - allocated_count p).

(** ** Proofs *)

Record pool_wf (p : TenantIpPool) : Prop := {
  wf_tenant : 0 <= p.(tenant_id) < MAX_TENANTS;
  wf_base : p.(base) = CGNAT_BASE + p.(tenant_id) * BLOCK_SIZE;
  wf_cursor : 1 <= p.(next_offset) <= MAX_OFFSET;
  wf_offsets : forall o, o ∈ p.(allocated) -> 0 <= o < BLOCK_SIZE
}.

(** The [j]-th offset tried from [start]. *)
Definition nth_offset (start : Z) (j : Z) : Z := (start - 1 + j) mod MAX_OFFSET + 1.

Lemma nth_offset_range start j : 1 <= nth_offset start j <= MAX_OFFSET.
Proof.
  unfold nth_offset. pose proof (Z.mod_pos_bound (start - 1 + j) MAX_OFFSET eq_refl). lia.
Qed.

Lemma nth_offset_zero start : 1 <= start <= MAX_OFFSET -> nth_offset start 0 = start.
Proof. intros H. unfold nth_offset. rewrite Z.add_0_r, Z.mod_small; lia. Qed.

#[local] Ltac Zify.zify_post_hook ::= Z.to_euclidean_division_equations.

(** The increment of the loop. *)
Lemma nth_offset_succ start j :
  (if MAX_OFFSET <? nth_offset start j + 1 then 1 else nth_offset start j + 1)
  = nth_offset start (j + 1).
Proof.
  unfold nth_offset, MAX_OFFSET. destruct (Z.ltb_spec 1022 ((start - 1 + j) mod 1022 + 1 + 1)); lia.
Qed.

Lemma nth_offset_start start j :
  1 <= start <= MAX_OFFSET -> 0 < j <= MAX_OFFSET ->
  (nth_offset start j = start <-> j = MAX_OFFSET).
Proof. unfold nth_offset, MAX_OFFSET. intros. lia. Qed.

(** Every offset is tried within one turn. *)
Lemma nth_offset_onto start o :
  1 <= start <= MAX_OFFSET -> 1 <= o <= MAX_OFFSET ->
  exists j, 0 <= j < MAX_OFFSET /\ nth_offset start j = o.
Proof.
  intros Hs Ho. exists ((o - start) mod MAX_OFFSET).
  unfold nth_offset, MAX_OFFSET in *. lia.
Qed.

(** The first free offset, at or after the cursor in cyclic order. *)
Definition first_free (p : TenantIpPool) (o : Z) : Prop :=
  exists j, 0 <= j < MAX_OFFSET /\ o = nth_offset p.(next_offset) j /\ (o ∉ p.(allocated))
            /\ forall i, 0 <= i < j -> nth_offset p.(next_offset) i ∈ p.(allocated).

Lemma allocate_loop_spec (n : nat) p j :
  pool_wf p -> 0 <= j < MAX_OFFSET -> Z.of_nat n = MAX_OFFSET - j ->
  (forall i, 0 <= i < j -> nth_offset p.(next_offset) i ∈ p.(allocated)) ->
  match allocate_loop n p p.(next_offset) (nth_offset p.(next_offset) j) with
  | Ok (ip, p') =>
      exists o, first_free p o /\ ip = p.(base) + o
        /\ p' = {| tenant_id := p.(tenant_id); base := p.(base); allocated := {[o]} ∪ p.(allocated);
                   next_offset := if MAX_OFFSET <=? o then 1 else o + 1 |}
  | Err (Fails e) => forall o, 1 <= o <= MAX_OFFSET -> o ∈ p.(allocated)
  | Err OutOfFuel => False
  end.
Proof.
  intros Hwf. revert j. induction n as [|n IH]; intros j Hj Hn Hprev; [lia|].
  cbn [allocate_loop]. pose proof (nth_offset_range (next_offset p) j) as Hr.
  destruct (Z.leb_spec (nth_offset (next_offset p) j) MAX_OFFSET); [|lia]. cbn [andb].
  case_bool_decide as Hin; cbn [negb].
  2: { exists (nth_offset (next_offset p) j). split; [by exists j | done]. }
  rewrite nth_offset_succ.
  assert (Hprev' : forall i, 0 <= i < j + 1 -> nth_offset (next_offset p) i ∈ allocated p).
  { intros i Hi. destruct (Z.eq_dec i j) as [->|]; [done|]. apply Hprev. lia. }
  destruct (Z.eqb_spec (nth_offset (next_offset p) (j + 1)) (next_offset p)) as [E|E].
  - apply nth_offset_start in E; [|apply (wf_cursor p Hwf)|lia].
    intros o Ho. destruct (nth_offset_onto (next_offset p) o (wf_cursor p Hwf) Ho) as (i & Hi & <-).
    apply Hprev'. lia.
  - apply IH; [|lia|done].
    assert (j + 1 <> MAX_OFFSET); [|lia].
    intros Hm. apply E, nth_offset_start; [apply (wf_cursor p Hwf)|lia|done].
Qed.

Lemma allocate_facts p :
  pool_wf p ->
  match allocate p with
  | Ok (ip, p') =>
      exists o, first_free p o /\ ip = p.(base) + o
        /\ p' = {| tenant_id := p.(tenant_id); base := p.(base); allocated := {[o]} ∪ p.(allocated);
                   next_offset := if MAX_OFFSET <=? o then 1 else o + 1 |}
  | Err (Fails e) => forall o, 1 <= o <= MAX_OFFSET -> o ∈ p.(allocated)
  | Err OutOfFuel => False
  end.
Proof.
  intros Hwf. unfold allocate.
  pose proof (allocate_loop_spec (Z.to_nat MAX_OFFSET) p 0 Hwf) as H.
  rewrite (nth_offset_zero _ (wf_cursor p Hwf)) in H. apply H; [done|done|lia].
Qed.

Lemma first_free_range p o : first_free p o -> 1 <= o <= MAX_OFFSET.
Proof. intros (j & _ & -> & _). apply nth_offset_range. Qed.

Lemma allocate_wf p ip p' : pool_wf p -> allocate p = Ok (ip, p') -> pool_wf p'.
Proof.
  intros Hwf E. pose proof (allocate_facts p Hwf) as Ha. rewrite E in Ha.
  destruct Ha as (o & Ho%first_free_range & _ & ->). destruct Hwf as [H1 H2 H3 H4].
  unfold MAX_OFFSET, BLOCK_SIZE in *. constructor; cbn; [done|done| |].
  - unfold MAX_OFFSET. destruct (Z.leb_spec 1022 o); lia.
  - intros x [->%elem_of_singleton | Hx]%elem_of_union; [unfold BLOCK_SIZE; lia | auto].
Qed.

Lemma allocate_specific_wf p ip p' : pool_wf p -> allocate_specific p ip = Ok p' -> pool_wf p'.
Proof.
  intros [H1 H2 H3 H4]. unfold allocate_specific. case_if; [done|]. case_bool_decide; [done|].
  intros [= <-]. constructor; cbn; [done..|].
  intros x [->%elem_of_singleton | Hx]%elem_of_union; [unfold BLOCK_SIZE in *; lia | auto].
Qed.

Lemma release_wf p ip : pool_wf p -> pool_wf (release p ip).
Proof.
  intros [H1 H2 H3 H4]. unfold release. case_if; [|done].
  constructor; cbn; [done..|]. intros x [Hx _]%elem_of_difference. auto.
Qed.

Lemma new_wf t p : 0 <= t -> new t = Ok p -> pool_wf p.
Proof.
  intros Ht. unfold new. case_if; [done|]. intros [= <-].
  constructor; cbn; [unfold MAX_TENANTS in *; lia|done|unfold MAX_OFFSET; lia|set_solver].
Qed.

(** The operations on a pool. *)
Inductive pool_step : TenantIpPool -> TenantIpPool -> Prop :=
  | ps_allocate p ip p' : allocate p = Ok (ip, p') -> pool_step p p'
  | ps_specific p ip p' : allocate_specific p ip = Ok p' -> pool_step p p'
  | ps_release p ip : pool_step p (release p ip).

Definition pool_reachable (t : Z) (p : TenantIpPool) : Prop :=
  0 <= t /\ exists p0, new t = Ok p0 /\ star pool_step p0 p.

Lemma pool_step_wf p p' : pool_wf p -> pool_step p p' -> pool_wf p'.
Proof.
  intros Hwf Hs. destruct Hs; eauto using allocate_wf, allocate_specific_wf, release_wf.
Qed.

Lemma pool_step_tenant p p' : pool_wf p -> pool_step p p' -> p'.(tenant_id) = p.(tenant_id).
Proof.
  intros Hwf Hs. destruct Hs as [p ip p' E|p ip p' E|p ip].
  - pose proof (allocate_facts p Hwf) as Ha. rewrite E in Ha. by destruct Ha as (o & _ & _ & ->).
  - unfold allocate_specific in E. repeat case_match; by simplify_eq.
  - unfold release. by case_match.
Qed.

Lemma pool_reachable_wf t p : pool_reachable t p -> pool_wf p /\ p.(tenant_id) = t.
Proof.
  intros [Ht (p0 & E & Hs)].
  apply (star_invariant _ (fun p => pool_wf p /\ tenant_id p = t) _ _) in Hs; [done| |].
  - intros a b [Ha <-] Hab. split; [by eapply pool_step_wf | by apply pool_step_tenant].
  - split; [by eapply new_wf|]. unfold new in E. case_match; by simplify_eq.
Qed.

(** ** Theorems *)

(** Allocation: in every pool obtained from [new] by any operations, [allocate] ends;
    it hands out the first offset in 1..1022, cyclically from the cursor, that is not in
    use, marks it and nothing else as used, and leaves a well-formed pool; it reports
    exhaustion only when all 1022 offsets are in use. *)
Theorem allocate_spec t p (Hp : pool_reachable t p) :
  match allocate p with
  | Ok (ip, p') =>
      exists o, first_free p o /\ 1 <= o <= MAX_OFFSET /\ ip = CGNAT_BASE + t * BLOCK_SIZE + o
        /\ p'.(allocated) = {[o]} ∪ p.(allocated) /\ pool_wf p'
  | Err (Fails _) => forall o, 1 <= o <= MAX_OFFSET -> o ∈ p.(allocated)
  | Err OutOfFuel => False
  end.
Proof.
  apply pool_reachable_wf in Hp as [Hwf Ht]. pose proof (allocate_facts p Hwf) as Ha.
  destruct (allocate p) as [[ip p']|[e|]] eqn:E; [|done..].
  destruct Ha as (o & Ho & -> & Hp'). exists o. split; [done|].
  split; [by eapply first_free_range|]. split; [by rewrite (wf_base p Hwf), Ht|].
  split; [by rewrite Hp' | by eapply allocate_wf].
Qed.

(** Tenants never share an address: two allocations from pools of different tenants
    give different addresses, each inside 100.64.0.0/10. *)
Theorem tenants_disjoint t1 t2 p1 p2 ip1 ip2 p1' p2'
    (H1 : pool_reachable t1 p1) (H2 : pool_reachable t2 p2) (Hne : t1 <> t2)
    (E1 : allocate p1 = Ok (ip1, p1')) (E2 : allocate p2 = Ok (ip2, p2')) :
  ip1 <> ip2 /\ ipv4 100 64 0 0 < ip1 < ipv4 100 127 255 255
  /\ ipv4 100 64 0 0 < ip2 < ipv4 100 127 255 255.
Proof.
  assert (Hip : forall t p ip p', pool_reachable t p -> allocate p = Ok (ip, p') ->
            0 <= t < MAX_TENANTS /\ exists o, 1 <= o <= MAX_OFFSET /\ ip = CGNAT_BASE + t * BLOCK_SIZE + o).
  { intros t p ip p' Hp E. apply pool_reachable_wf in Hp as [Hwf <-].
    pose proof (allocate_facts p Hwf) as Ha. rewrite E in Ha.
    destruct Ha as (o & Ho%first_free_range & -> & _). split; [apply (wf_tenant p Hwf)|].
    exists o. by rewrite (wf_base p Hwf). }
  destruct (Hip _ _ _ _ H1 E1) as (Ht1 & o1 & Ho1 & ->).
  destruct (Hip _ _ _ _ H2 E2) as (Ht2 & o2 & Ho2 & ->).
  unfold ipv4, CGNAT_BASE, BLOCK_SIZE, MAX_OFFSET, MAX_TENANTS in *. lia.
Qed.

(** A released address can be allocated again: releasing what [allocate] returned gives
    back exactly the set of addresses in use before. *)
Theorem release_allocate t p ip p' (Hp : pool_reachable t p) (E : allocate p = Ok (ip, p')) :
  (release p' ip).(allocated) = p.(allocated).
Proof.
  apply pool_reachable_wf in Hp as [Hwf _]. pose proof (allocate_facts p Hwf) as Ha.
  rewrite E in Ha. destruct Ha as (o & Hfree & -> & ->).
  pose proof (first_free_range p o Hfree) as Ho. destruct Hfree as (j & _ & _ & Hni & _).
  unfold release, MAX_OFFSET, BLOCK_SIZE in *. cbn [base allocated].
  destruct (Z.leb_spec (base p) (base p + o)); [|lia].
  destruct (Z.ltb_spec (base p + o) (base p + 1024)); [|lia]. cbn [andb with_allocated allocated].
  replace (base p + o - base p) with o by lia. set_solver.
Qed.

(** Offsets of hosts only, as [allocate] hands out. *)
Definition hosts_only (p : TenantIpPool) : Prop :=
  forall o, o ∈ p.(allocated) -> 1 <= o <= MAX_OFFSET.

Lemma size_upto (X : gset Z) (n : nat) :
  (forall x, x ∈ X -> 1 <= x <= Z.of_nat n) -> (size X <= n)%nat.
Proof.
  intros HX.
  assert (Hsub : X ⊆ list_to_set (seqZ 1 (Z.of_nat n))).
  { intros x Hx%HX. apply elem_of_list_to_set, elem_of_seqZ. lia. }
  apply subseteq_size in Hsub. rewrite size_list_to_set in Hsub by apply NoDup_seqZ.
  rewrite length_seqZ in Hsub. lia.
Qed.

(** The free count is right as long as only host addresses are in use: it is then
    1022 minus the number in use, without wrapping around. *)
Theorem available_count_spec p (Hp : hosts_only p) :
  available_count p = MAX_OFFSET - allocated_count p
  /\ 0 <= available_count p <= MAX_OFFSET.
Proof.
  assert (Hs : (size (allocated p) <= 1022)%nat) by (apply size_upto; intros x Hx%Hp; done).
  unfold available_count, allocated_count, MAX_OFFSET in *. rewrite wrap_small; unfold is_u; lia.
Qed.

(** ** Witnesses *)

Module IpamExamples.

Definition pool (t : Z) : TenantIpPool :=
  {| tenant_id := t; base := CGNAT_BASE + t * BLOCK_SIZE; allocated := ∅; next_offset := 1 |}.

Lemma pool_is_reachable t : 0 <= t < MAX_TENANTS -> pool_reachable t (pool t).
Proof.
  intros Ht. split; [lia|]. exists (pool t). split; [|constructor].
  unfold new. destruct (Z.leb_spec MAX_TENANTS t); [lia | done].
Qed.

Definition first_alloc (t : Z) : TenantIpPool :=
  {| tenant_id := t; base := CGNAT_BASE + t * BLOCK_SIZE; allocated := {[1]} ∪ ∅; next_offset := 2 |}.

Lemma first_allocate t : allocate (pool t) = Ok (CGNAT_BASE + t * BLOCK_SIZE + 1, first_alloc t).
Proof. reflexivity. Qed.

Lemma allocate_spec_witness : allocate (pool 3) <> Err OutOfFuel.
Proof.
  pose proof (allocate_spec 3 (pool 3) (pool_is_reachable 3 ltac:(done))) as H.
  intros E. rewrite E in H. exact H.
Defined.

Lemma tenants_disjoint_witness :
  CGNAT_BASE + 3 * BLOCK_SIZE + 1 <> CGNAT_BASE + 4 * BLOCK_SIZE + 1.
Proof.
  refine (proj1 (tenants_disjoint 3 4 (pool 3) (pool 4) _ _ (first_alloc 3) (first_alloc 4)
           (pool_is_reachable 3 _) (pool_is_reachable 4 _) _ (first_allocate 3) (first_allocate 4))); done.
Defined.

Lemma release_allocate_witness :
  (release (first_alloc 3) (CGNAT_BASE + 3 * BLOCK_SIZE + 1)).(allocated) = ∅.
Proof. apply (release_allocate 3 (pool 3) _ _ (pool_is_reachable 3 ltac:(done)) (first_allocate 3)). Defined.

Lemma available_count_spec_witness :
  available_count (first_alloc 3) = MAX_OFFSET - allocated_count (first_alloc 3)
  /\ 0 <= available_count (first_alloc 3) <= MAX_OFFSET.
Proof.
  apply available_count_spec. intros o Ho. unfold first_alloc in Ho. cbn in Ho.
  assert (o = 1) as -> by set_solver. unfold MAX_OFFSET. lia.
Defined.

(** A whole block restored address by address. *)
Definition restored : result MeshError TenantIpPool :=
  try_for (fun o p => allocate_specific p (p.(base) + o)) (seqZ 0 1024) (pool 0).

(** Restoring the network and broadcast addresses overruns the free count: a pool whose
    1024 addresses were all restored with [allocate_specific], which accepts offsets 0 and
    1023, reports 2^64 - 2 free addresses. *)
Theorem available_count_wraps :
  match restored with Ok p => available_count p = 2 ^ 64 - 2 | Err _ => False end.
Proof. vm_compute. reflexivity. Qed.

End IpamExamples.
