(* ===== verification/PeerMap.v ===== *)
(** * The peer map ([runesh-mesh/src/peer.rs])

    Peers by public key and the reverse index from mesh address to key.  Mesh addresses are
    32-bit integers.  The iteration order of the peers is an argument of [route] and
    [online_peers]. *)
From S2P Require Import Prelude Str Net.

#[local] Open Scope Z_scope.

Section PeerMap.
Context `{IpNetApi}.

Record PeerInfo := {
  public_key : list byte;
  mesh_ip : Z;
  endpoints : list SocketAddr;
  allowed_ips : list IpNet;
  derp_region : option Z;
  is_exit_node : bool;
  is_subnet_router : bool;
  hostname : option str;
  os : option str;
  tags : list str;
  user : option str;
  online : bool;
  last_seen : option Z
}.

Record PeerMap := {
  peers : gmap (list byte) PeerInfo;
  ip_to_key : gmap Z (list byte)
}.

Definition empty_map : PeerMap := {| peers := ∅; ip_to_key := ∅ |}.

Definition upsert (peer : PeerInfo) (m : PeerMap) : PeerMap :=
  let key := peer.(public_key) in
  let ip := peer.(mesh_ip) in
  let index :=
    match m.(peers) !! key with
    | Some existing => if existing.(mesh_ip) =? ip then m.(ip_to_key)
                       else delete existing.(mesh_ip) m.(ip_to_key)
    | None => m.(ip_to_key)
    end in
  {| peers := <[key := peer]> m.(peers); ip_to_key := <[ip := key]> index |}.

Definition remove (key : list byte) (m : PeerMap) : option PeerInfo * PeerMap :=
  match m.(peers) !! key with
  | Some peer => (Some peer, {| peers := delete key m.(peers);
                                ip_to_key := delete peer.(mesh_ip) m.(ip_to_key) |})
  | None => (None, m)
  end.

Definition get (key : list byte) (m : PeerMap) : option PeerInfo := m.(peers) !! key.
Definition get_by_ip (ip : Z) (m : PeerMap) : option PeerInfo :=
  key ← m.(ip_to_key) !! ip; m.(peers) !! key.

(** The inner loop of [route]: the networks of one peer. *)
Definition route_net (dst : IpAddr) (key : list byte) (best : option (list byte * Z)) (net : IpNet)
  : option (list byte * Z) :=
  if ipnet_contains net dst then
    let prefix := ipnet_prefix_len net in
    match best with
    | None => Some (key, prefix)
    | Some (_, b) => if b <? prefix then Some (key, prefix) else best
    end
  else best.

Definition route_peer (dst : IpAddr) (best : option (list byte * Z)) (kv : list byte * PeerInfo)
  : option (list byte * Z) :=
  foldl (route_net dst kv.1) best kv.2.(allowed_ips).

Definition route (l : list (list byte * PeerInfo)) (dst_ip : Z) (m : PeerMap) : option (list byte) :=
  match m.(ip_to_key) !! dst_ip with
  | Some key => Some key
  | None => fst <$> foldl (route_peer (V4 dst_ip)) None l
  end.

Definition len (m : PeerMap) : nat := size m.(peers).
Definition is_empty (m : PeerMap) : bool := bool_decide (m.(peers) = ∅).
Definition online_peers (l : list (list byte * PeerInfo)) : list PeerInfo :=
  filter (fun p => p.(online) = true) (map snd l).

Definition with_peers (ps : gmap (list byte) PeerInfo) (m : PeerMap) : PeerMap :=
  {| peers := ps; ip_to_key := m.(ip_to_key) |}.

(** [set_online]; [now] is the time in seconds since the epoch. *)
Definition set_online (key : list byte) (on : bool) (now : Z) (m : PeerMap) : PeerMap :=
  with_peers (alter (fun p =>
    {| public_key := p.(public_key); mesh_ip := p.(mesh_ip); endpoints := p.(endpoints);
       allowed_ips := p.(allowed_ips); derp_region := p.(derp_region);
       is_exit_node := p.(is_exit_node); is_subnet_router := p.(is_subnet_router);
       hostname := p.(hostname); os := p.(os); tags := p.(tags); user := p.(user);
       online := on; last_seen := if on then Some now else p.(last_seen) |}) key m.(peers)) m.

Definition update_endpoints (key : list byte) (es : list SocketAddr) (m : PeerMap) : PeerMap :=
  with_peers (alter (fun p =>
    {| public_key := p.(public_key); mesh_ip := p.(mesh_ip); endpoints := es;
       allowed_ips := p.(allowed_ips); derp_region := p.(derp_region);
       is_exit_node := p.(is_exit_node); is_subnet_router := p.(is_subnet_router);
       hostname := p.(hostname); os := p.(os); tags := p.(tags); user := p.(user);
       online := p.(online); last_seen := p.(last_seen) |}) key m.(peers)) m.

(** ** Invariants *)

(** The index points to a peer with that address, and peers sit under their own key. *)
Definition index_sound (m : PeerMap) : Prop :=
  (forall k p, m.(peers) !! k = Some p -> p.(public_key) = k)
  /\ forall ip k, m.(ip_to_key) !! ip = Some k ->
       exists p, m.(peers) !! k = Some p /\ p.(mesh_ip) = ip.

(** Every peer is found under its address. *)
Definition index_complete (m : PeerMap) : Prop :=
  forall k p, m.(peers) !! k = Some p -> m.(ip_to_key) !! p.(mesh_ip) = Some k.

(** No other peer has this address. *)
Definition ip_free_for (peer : PeerInfo) (m : PeerMap) : Prop :=
  forall k p, m.(peers) !! k = Some p -> p.(mesh_ip) = peer.(mesh_ip) -> k = peer.(public_key).

Inductive map_step : PeerMap -> PeerMap -> Prop :=
  | ms_upsert p m : map_step m (upsert p m)
  | ms_remove k m : map_step m (remove k m).2
  | ms_online k on now m : map_step m (set_online k on now m)
  | ms_endpoints k es m : map_step m (update_endpoints k es m).

(** The same operations when nobody takes the address of another peer. *)
Inductive map_step_distinct : PeerMap -> PeerMap -> Prop :=
  | md_upsert p m : ip_free_for p m -> map_step_distinct m (upsert p m)
  | md_remove k m : map_step_distinct m (remove k m).2
  | md_online k on now m : map_step_distinct m (set_online k on now m)
  | md_endpoints k es m : map_step_distinct m (update_endpoints k es m).

Lemma upsert_index_lookup p m ip k :
  index_sound m ->
  (upsert p m).(ip_to_key) !! ip = Some k <->
  ip = p.(mesh_ip) /\ k = p.(public_key)
  \/ ip <> p.(mesh_ip) /\ m.(ip_to_key) !! ip = Some k
     /\ (forall q, m.(peers) !! p.(public_key) = Some q -> q.(mesh_ip) <> ip).
Proof.
  intros [_ Hs]. cbn. rewrite lookup_insert_Some.
  destruct (m.(peers) !! p.(public_key)) as [q|] eqn:Hq.
  - destruct (Z.eqb_spec q.(mesh_ip) p.(mesh_ip)) as [E|E].
    + split.
      * intros [[<- <-] | [Hne Hk]]; [by left | right]. do 2 (split; [done|]). intros ? [= <-]. congruence.
      * intros [[-> ->] | (Hne & Hk & _)]; [by left | by right].
    + rewrite lookup_delete_Some. split.
      * intros [[<- <-] | [Hne [Hne' Hk]]]; [by left | right]. do 2 (split; [done|]). by intros ? [= <-].
      * intros [[-> ->] | (Hne & Hk & Hq')]; [by left | right]. by specialize (Hq' q eq_refl).
  - split.
    + intros [[<- <-] | [Hne Hk]]; [by left | by right].
    + intros [[-> ->] | (Hne & Hk & _)]; [by left | by right].
Qed.

Lemma upsert_sound p m : index_sound m -> index_sound (upsert p m).
Proof.
  intros Hs. split.
  - intros k q. cbn. rewrite lookup_insert_Some. intros [[<- <-] | [_ Hq]]; [done|]. by apply Hs.
  - intros ip k. rewrite upsert_index_lookup by done. cbn. intros [[-> ->] | (Hne & Hk & Hold)].
    + exists p. by rewrite lookup_insert_eq.
    + destruct (proj2 Hs ip k Hk) as (q & Hq & <-). exists q. split; [|done].
      rewrite lookup_insert_ne; [done|]. intros <-. by apply (Hold q).
Qed.

Lemma remove_sound k m : index_sound m -> index_sound (remove k m).2.
Proof.
  intros [Hk Hs]. unfold remove. destruct (m.(peers) !! k) as [p|] eqn:Hp; [|done]. split; cbn.
  - intros k' q [_ Hq]%lookup_delete_Some. auto.
  - intros ip k' [Hne Hi]%lookup_delete_Some. destruct (Hs ip k' Hi) as (q & Hq & <-).
    exists q. split; [|done]. rewrite lookup_delete_ne; [done|]. congruence.
Qed.

(** Changes of a peer that keep its key and address. *)
Lemma alter_sound f k m :
  (forall p, (f p).(public_key) = p.(public_key) /\ (f p).(mesh_ip) = p.(mesh_ip)) ->
  index_sound m -> index_sound (with_peers (alter f k m.(peers)) m).
Proof.
  intros Hf [Hk Hs]. split; cbn.
  - intros k' q. rewrite lookup_alter_Some. intros [(-> & p & Hp & ->) | [_ Hq]]; [|auto].
    destruct (Hf p) as [-> _]. auto.
  - intros ip k' Hi. destruct (Hs ip k' Hi) as (q & Hq & <-).
    destruct (decide (k = k')) as [<-|Hne].
    + exists (f q). rewrite lookup_alter_eq, Hq. split; [done | apply Hf].
    + exists q. by rewrite lookup_alter_ne.
Qed.

Lemma map_step_sound m m' : index_sound m -> map_step m m' -> index_sound m'.
Proof. intros Hs Hm. destruct Hm; [by apply upsert_sound | by apply remove_sound | by apply alter_sound..]. Qed.

Lemma alter_complete f k m :
  (forall p, (f p).(mesh_ip) = p.(mesh_ip)) ->
  index_complete m -> index_complete (with_peers (alter f k m.(peers)) m).
Proof.
  intros Hf Hc k' q. cbn. rewrite lookup_alter_Some. intros [(-> & p & Hp & ->) | [_ Hq]]; [|auto].
  rewrite Hf. auto.
Qed.

Lemma upsert_complete p m :
  index_sound m -> index_complete m -> ip_free_for p m -> index_complete (upsert p m).
Proof.
  intros Hs Hc Hfree k q. cbn [upsert peers]. rewrite lookup_insert_Some.
  intros [[<- <-] | [Hne Hq]]; apply upsert_index_lookup; auto.
  right. split; [intros E; apply Hne; symmetry; by eapply Hfree|]. split; [by apply Hc|].
  intros q' Hq' E. pose proof (Hc _ _ Hq) as H1. pose proof (Hc _ _ Hq') as H2. congruence.
Qed.

Lemma remove_complete k m : index_complete m -> index_complete (remove k m).2.
Proof.
  intros Hc. unfold remove. destruct (m.(peers) !! k) as [p|] eqn:Hp; [|done].
  intros k' q. cbn. rewrite lookup_delete_Some. intros [Hne Hq].
  rewrite lookup_delete_ne; [by apply Hc|]. intros E.
  pose proof (Hc _ _ Hq) as H1. pose proof (Hc _ _ Hp) as H2. congruence.
Qed.

Lemma empty_sound : index_sound empty_map /\ index_complete empty_map.
Proof.
  split; [split|]; intros k x; cbn; by rewrite lookup_empty.
Qed.

Lemma distinct_step_sound m m' :
  index_sound m /\ index_complete m -> map_step_distinct m m' ->
  index_sound m' /\ index_complete m'.
Proof.
  intros [Hs Hc] Hm. destruct Hm.
  - split; [by apply upsert_sound | by apply upsert_complete].
  - split; [by apply remove_sound | by apply remove_complete].
  - split; [by apply alter_sound | by apply alter_complete].
  - split; [by apply alter_sound | by apply alter_complete].
Qed.

(** ** Routing *)

(** A subnet route of a peer to an address. *)
Definition serves (l : list (list byte * PeerInfo)) (dst : IpAddr) (k : list byte) (prefix : Z) : Prop :=
  exists p net, (k, p) ∈ l /\ net ∈ p.(allowed_ips) /\ ipnet_contains net dst = true
                /\ ipnet_prefix_len net = prefix.

(** The best of the candidates seen so far. *)
Definition best_of (P : list byte -> Z -> Prop) (best : option (list byte * Z)) : Prop :=
  match best with
  | None => forall k b, ~ P k b
  | Some (k, b) => P k b /\ forall k' b', P k' b' -> b' <= b
  end.

Lemma route_net_best dst key best net P :
  best_of P best ->
  best_of (fun k b => P k b \/ k = key /\ ipnet_contains net dst = true /\ ipnet_prefix_len net = b)
          (route_net dst key best net).
Proof.
  intros Hb. unfold route_net. destruct (ipnet_contains net dst).
  - destruct best as [[k b]|]; cbn in *.
    + destruct Hb as [Hk Hmax]. destruct (Z.ltb_spec b (ipnet_prefix_len net)).
      * split; [by right|]. intros k' b' [HP%Hmax | (_ & _ & <-)]; lia.
      * split; [by left|]. intros k' b' [HP%Hmax | (_ & _ & <-)]; lia.
    + split; [by right|]. intros k' b' [HP%Hb | (_ & _ & <-)]; [done | lia].
  - destruct best as [[k b]|]; cbn in *.
    + destruct Hb as [Hk Hmax]. split; [by left|]. intros k' b' [HP%Hmax | (_ & [=] & _)]. lia.
    + intros k b [HP%Hb | (_ & [=] & _)]; done.
Qed.

Lemma best_of_ext P Q best : (forall k b, P k b <-> Q k b) -> best_of P best -> best_of Q best.
Proof.
  intros HPQ. destruct best as [[k b]|]; cbn.
  - intros [Hk Hmax]. split; [by apply HPQ|]. intros k' b' HQ. eapply Hmax. by apply HPQ.
  - intros Hn k b HQ. apply (Hn k b). by apply HPQ.
Qed.

Lemma route_peer_best dst best kv P :
  best_of P best ->
  best_of (fun k b => P k b \/ k = kv.1 /\ exists net, net ∈ kv.2.(allowed_ips)
                        /\ ipnet_contains net dst = true /\ ipnet_prefix_len net = b)
          (route_peer dst best kv).
Proof.
  unfold route_peer. generalize (allowed_ips kv.2) as nets. intros nets. revert best P.
  induction nets as [|net nets IH]; intros best P Hb; cbn.
  - eapply best_of_ext; [|exact Hb]. intros k b. split; [by left|].
    intros [? | (_ & n & ?%not_elem_of_nil & _)]; done.
  - apply (route_net_best dst kv.1 best net) in Hb. apply IH in Hb.
    eapply best_of_ext; [|exact Hb]. intros k b. cbn. setoid_rewrite elem_of_cons. split.
    + intros [[? | (-> & ? & ?)] | (-> & n & ? & ?)]; [by left | right; eauto 10..].
    + intros [? | (-> & n & [-> | ?] & ?)]; [auto | left; right; tauto | right; eauto].
Qed.

Lemma route_loop_best dst l best P :
  best_of P best ->
  best_of (fun k b => P k b \/ serves l dst k b) (foldl (route_peer dst) best l).
Proof.
  revert best P. induction l as [|kv l IH]; intros best P Hb; cbn.
  - eapply best_of_ext; [|exact Hb]. intros k b. split; [by left|].
    intros [? | (p & n & ?%not_elem_of_nil & _)]; done.
  - apply (route_peer_best dst best kv) in Hb. apply IH in Hb.
    eapply best_of_ext; [|exact Hb]. intros k b. cbn. unfold serves. setoid_rewrite elem_of_cons. split.
    + intros [[? | (-> & n & ?)] | (p & n & ? & ?)]; [by left | right..].
      * exists kv.2, n. destruct kv. tauto.
      * exists p, n. tauto.
    + intros [? | (p & n & [<- | ?] & ?)]; [auto | left; right; eauto | right; eauto].
Qed.

(** ** Theorems *)

Definition map_reachable (m : PeerMap) : Prop := star map_step empty_map m.
Definition map_reachable_distinct (m : PeerMap) : Prop := star map_step_distinct empty_map m.

Lemma map_reachable_sound m : map_reachable m -> index_sound m.
Proof. intros Hm. apply (star_invariant _ index_sound _ _ map_step_sound Hm). apply empty_sound. Qed.

Lemma map_reachable_distinct_sound m :
  map_reachable_distinct m -> index_sound m /\ index_complete m.
Proof.
  intros Hm. apply (star_invariant _ _ _ _ distinct_step_sound Hm). apply empty_sound.
Qed.

(** The address index never misdirects: after any operations, the peer found under an
    address has that address and is the peer stored under its key; and when no operation
    gives a peer the address of another, every stored peer is found under its address. *)
Theorem ip_index_spec m :
  (map_reachable m -> forall ip p, get_by_ip ip m = Some p ->
     p.(mesh_ip) = ip /\ get p.(public_key) m = Some p)
  /\ (map_reachable_distinct m -> forall k p, get k m = Some p -> get_by_ip p.(mesh_ip) m = Some p).
Proof.
  split.
  - intros [Hk Hs]%map_reachable_sound ip p. unfold get_by_ip, get.
    destruct (ip_to_key m !! ip) as [k|] eqn:Hi; cbn; [|done]. intros Hp.
    destruct (Hs ip k Hi) as (q & Hq & Hip). assert (q = p) as -> by congruence.
    by rewrite (Hk k p Hp).
  - intros [_ Hc]%map_reachable_distinct_sound k p Hp. unfold get_by_ip, get in *.
    by rewrite (Hc k p Hp).
Qed.

(** Routing takes the most specific route: an address of the index goes to its owner;
    any other address goes to a peer that has a subnet containing it with the longest
    prefix among all peers, whatever the iteration order, and is unroutable exactly when no
    peer has such a subnet. *)
Theorem route_most_specific m l dst (Hl : iter_of m.(peers) l) :
  match route l dst m with
  | Some k =>
      m.(ip_to_key) !! dst = Some k
      \/ m.(ip_to_key) !! dst = None /\
         exists p net, get k m = Some p /\ net ∈ p.(allowed_ips) /\ ipnet_contains net (V4 dst) = true
           /\ forall k' p' net', get k' m = Some p' -> net' ∈ p'.(allowed_ips) ->
                ipnet_contains net' (V4 dst) = true -> ipnet_prefix_len net' <= ipnet_prefix_len net
  | None =>
      m.(ip_to_key) !! dst = None /\
      forall k p net, get k m = Some p -> net ∈ p.(allowed_ips) -> ipnet_contains net (V4 dst) = false
  end.
Proof.
  unfold route. destruct (ip_to_key m !! dst) as [k|] eqn:Hi; [by left|].
  assert (Hb : best_of (fun k b => False \/ serves l (V4 dst) k b) (foldl (route_peer (V4 dst)) None l)).
  { apply (route_loop_best (V4 dst) l None (fun _ _ => False)). by intros k b []. }
  destruct (foldl (route_peer (V4 dst)) None l) as [[k b]|]; cbn in *.
  - destruct Hb as [[[] | (p & net & Hp & Hnet & Hc & <-)] Hmax]. right. split; [done|].
    exists p, net. split; [by apply (iter_of_elem _ _ _ _ Hl)|]. do 2 (split; [done|]).
    intros k' p' net' Hp' Hnet' Hc'. apply (Hmax k'). right. exists p', net'.
    split; [by apply (iter_of_elem _ _ _ _ Hl) | done].
  - split; [done|]. intros k p net Hp Hnet. apply not_true_iff_false. intros Hc.
    apply (Hb k (ipnet_prefix_len net)). right. exists p, net.
    split; [by apply (iter_of_elem _ _ _ _ Hl) | done].
Qed.

End PeerMap.

(** ** Witnesses *)

Module PeerExamples.

Definition peer (k : byte) (ip : Z) (nets : list RefIpNet.net) : PeerInfo :=
  {| public_key := repeat k 32; mesh_ip := ip; endpoints := []; allowed_ips := nets;
     derp_region := None; is_exit_node := false; is_subnet_router := false; hostname := None;
     os := None; tags := []; user := None; online := true; last_seen := None |}.

Definition lan : RefIpNet.net := {| RefIpNet.addr := V4 (ipv4 10 0 0 0); RefIpNet.plen := 8 |}.
Definition two : PeerMap := upsert (peer x02 2 [lan]) (upsert (peer x01 1 []) empty_map).

Lemma route_most_specific_witness :
  match route (map_to_list two.(peers)) (ipv4 10 1 2 3) two with Some _ => True | None => False end.
Proof.
  pose proof (route_most_specific two (map_to_list two.(peers)) (ipv4 10 1 2 3) (iter_of_self _)) as H.
  destruct (route _ _ _); [exact I|]. destruct H as [_ H].
  assert (E : ipnet_contains lan (V4 (ipv4 10 1 2 3)) = false).
  { apply (H (repeat x02 32) (peer x02 2 [lan])); [reflexivity | constructor]. }
  vm_compute in E. discriminate.
Defined.

Lemma two_reachable : map_reachable_distinct two.
Proof.
  apply (star_step _ _ (upsert (peer x01 1 []) empty_map)).
  - constructor. intros k p Hp.
    change (peers empty_map) with (∅ : gmap (list byte) PeerInfo) in Hp. by rewrite lookup_empty in Hp.
  - apply star_one. constructor. intros k p Hp Hip. cbn in Hp.
    apply lookup_insert_Some in Hp as [[_ <-] | [_ Hp]]; [discriminate|].
    change (peers empty_map) with (∅ : gmap (list byte) PeerInfo) in Hp. by rewrite lookup_empty in Hp.
Qed.

Lemma ip_index_spec_witness : get_by_ip 2 two = Some (peer x02 2 [lan]).
Proof. apply (proj2 (ip_index_spec two) two_reachable (repeat x02 32) (peer x02 2 [lan])). reflexivity. Defined.

(** Two peers given the same address, the first of them removed. *)
Definition clash : PeerMap :=
  (remove (repeat x01 32) (upsert (peer x02 7 []) (upsert (peer x01 7 []) empty_map))).2.

(** A shared address loses the other peer's route: after a second peer is stored with
    the address of a first one and the first is removed, the second is still in the map
    but is found under its address neither by [get_by_ip] nor by [route]. *)
Theorem shared_address_unroutable :
  map_reachable clash
  /\ get (repeat x02 32) clash = Some (peer x02 7 [])
  /\ get_by_ip 7 clash = None
  /\ route (map_to_list clash.(peers)) 7 clash = None.
Proof.
  split; [|split; [reflexivity|split; reflexivity]].
  apply (star_step _ _ (upsert (peer x01 7 []) empty_map)); [constructor|].
  apply (star_step _ _ (upsert (peer x02 7 []) (upsert (peer x01 7 []) empty_map))); [constructor|].
  apply star_one. constructor.
Qed.

End PeerExamples.
