(* ===== verification/Tunnel.v ===== *)
(** * WireGuard tunnels ([runesh-mesh/src/tunnel.rs])

    The wrapper around one boringtun tunnel, and the manager that dispatches datagrams to
    tunnels by receiver index and limits handshake initiations per source.  boringtun is
    the interface [TunnApi]; its state is threaded through the calls.  Instants are integers
    in nanoseconds, and the iteration order of the tunnels is an argument. *)
From S2P Require Import Prelude Str F64 Net MeshIpam.

#[local] Open Scope Z_scope.

(** [TunnResult] of boringtun; an error carries its [Debug] text. *)
Inductive TunnResult : Type :=
  | Done
  | TunnErr (e : str)
  | WriteToNetwork (packet : list byte)
  | WriteToTunnelV4 (data : list byte) (addr : Z)
  | WriteToTunnelV6 (data : list byte) (addr : Z).

Class TunnApi := {
  Tunn : Type;
  WgKeypair : Type;
  PublicKey : Type;
  (** [Tunn::new] with the own key, the peer's key, the keepalive and the index, and a
      rate limiter of the given rate. *)
  tunn_new : WgKeypair -> PublicKey -> option Z -> Z -> Z -> Tunn;
  tunn_encapsulate : Tunn -> list byte -> TunnResult * Tunn;
  tunn_decapsulate : Tunn -> option IpAddr -> list byte -> TunnResult * Tunn;
  tunn_update_timers : Tunn -> TunnResult * Tunn;
  (** The packets queued while a handshake is pending. *)
  tunn_queued : Tunn -> nat
}.

(** Documented behaviour: called with an empty datagram, [decapsulate] hands out the queued
    packets one at a time. *)
Class TunnLaws `{TunnApi} : Prop := {
  tunn_drain : forall t r t', tunn_decapsulate t None [] = (r, t') ->
    match r with Done | TunnErr _ => True | _ => (tunn_queued t' < tunn_queued t)%nat end
}.

Definition MAX_UDP_SIZE : Z := 65536.
Definition HANDSHAKE_PPS : Z := 100.
Definition WG_MSG_HANDSHAKE_INIT : Z := 1.
Definition WG_MSG_HANDSHAKE_RESP : Z := 2.
Definition WG_MSG_COOKIE_REPLY : Z := 3.
Definition WG_MSG_DATA : Z := 4.
Definition HANDSHAKE_INIT_LIMIT : Z := 10.
Definition HANDSHAKE_INIT_WINDOW : Z := 1000000000.

Record InboundPacket := { in_data : list byte; in_src_addr : IpAddr }.

Record DecapsulateResult := {
  tunnel_packet : option InboundPacket;
  network_packets : list (list byte)
}.
Definition empty_result : DecapsulateResult := {| tunnel_packet := None; network_packets := [] |}.

Section Tunnels.
Context `{TunnApi}.

(** ** One tunnel *)

Record WgTunnel := { tunn : Tunn; endpoint : option SocketAddr; peer_index : Z }.

Definition new_tunnel (own_key : WgKeypair) (peer_public : PublicKey) (index : Z)
    (keepalive : option Z) : WgTunnel :=
  {| tunn := tunn_new own_key peer_public keepalive index HANDSHAKE_PPS; endpoint := None;
     peer_index := index |}.

Definition set_endpoint (addr : SocketAddr) (t : WgTunnel) : WgTunnel :=
  {| tunn := t.(tunn); endpoint := Some addr; peer_index := t.(peer_index) |}.
Definition with_tunn (s : Tunn) (t : WgTunnel) : WgTunnel :=
  {| tunn := s; endpoint := t.(endpoint); peer_index := t.(peer_index) |}.

Definition encapsulate (t : WgTunnel) (src : list byte)
  : result MeshError (option (list byte)) * WgTunnel :=
  let '(r, s) := tunn_encapsulate t.(tunn) src in
  (match r with
   | WriteToNetwork packet => Ok (Some packet)
   | Done => Ok None
   | TunnErr e => Err (MeshIpam.Tunnel (lit "encapsulate: " ++ e))
   | _ => Ok None
   end, with_tunn s t).

Definition push_network (p : list byte) (r : DecapsulateResult) : DecapsulateResult :=
  {| tunnel_packet := r.(tunnel_packet); network_packets := r.(network_packets) ++ [p] |}.
Definition set_packet (data : list byte) (src : IpAddr) (r : DecapsulateResult) : DecapsulateResult :=
  {| tunnel_packet := Some {| in_data := data; in_src_addr := src |};
     network_packets := r.(network_packets) |}.

(** [drain_queued]. *)
Fixpoint drain_queued (fuel : nat) (s : Tunn) (res : DecapsulateResult)
  : option (DecapsulateResult * Tunn) :=
  match fuel with
  | O => None
  | S n =>
      let '(r, s') := tunn_decapsulate s None [] in
      match r with
      | WriteToNetwork packet => drain_queued n s' (push_network packet res)
      | WriteToTunnelV4 data addr => drain_queued n s' (set_packet data (V4 addr) res)
      | WriteToTunnelV6 data addr => drain_queued n s' (set_packet data (V6 addr) res)
      | Done | TunnErr _ => Some (res, s')
      end
  end.

(** Fuel: one more call than there are queued packets. *)
Definition drain (s : Tunn) (res : DecapsulateResult) : option (DecapsulateResult * Tunn) :=
  drain_queued (S (tunn_queued s)) s res.

(** [decapsulate] of a tunnel; [None] if draining does not end. *)
Definition decapsulate_tunnel (t : WgTunnel) (src_addr : option IpAddr) (datagram : list byte)
  : option (result MeshError DecapsulateResult * WgTunnel) :=
  let '(r, s) := tunn_decapsulate t.(tunn) src_addr datagram in
  match r with
  | WriteToTunnelV4 data addr => Some (Ok (set_packet data (V4 addr) empty_result), with_tunn s t)
  | WriteToTunnelV6 data addr => Some (Ok (set_packet data (V6 addr) empty_result), with_tunn s t)
  | WriteToNetwork packet =>
      '(res, s') ← drain s (push_network packet empty_result);
      Some (Ok res, with_tunn s' t)
  | Done => Some (Ok empty_result, with_tunn s t)
  | TunnErr e => Some (Err (MeshIpam.Tunnel (lit "decapsulate: " ++ e)), with_tunn s t)
  end.

Definition tick_timers (t : WgTunnel) : list (list byte) * WgTunnel :=
  let '(r, s) := tunn_update_timers t.(tunn) in
  (match r with WriteToNetwork packet => [packet] | _ => [] end, with_tunn s t).

(** ** The manager *)

Record TunnelManager := {
  own_key : WgKeypair;
  tunnels : gmap Z WgTunnel;
  by_index_prefix : gmap Z Z;
  next_index : Z;
  handshake_init_window : gmap IpAddr (Z * Z)
}.

Definition new_manager (k : WgKeypair) : TunnelManager :=
  {| own_key := k; tunnels := ∅; by_index_prefix := ∅; next_index := 0; handshake_init_window := ∅ |}.

Definition with_tunnels (ts : gmap Z WgTunnel) (m : TunnelManager) : TunnelManager :=
  {| own_key := m.(own_key); tunnels := ts; by_index_prefix := m.(by_index_prefix);
     next_index := m.(next_index); handshake_init_window := m.(handshake_init_window) |}.

(** [add_peer]: the index is a [u32], shifted left by eight for boringtun. *)
Definition add_peer (peer_public : PublicKey) (ep : option SocketAddr) (keepalive : option Z)
    (m : TunnelManager) : Z * TunnelManager :=
  let index := m.(next_index) in
  let tunn_index := wrap 32 (Z.shiftl index 8) in
  let t := new_tunnel m.(own_key) peer_public tunn_index keepalive in
  let t' := match ep with Some addr => set_endpoint addr t | None => t end in
  (index, {| own_key := m.(own_key); tunnels := <[index := t']> m.(tunnels);
             by_index_prefix := <[index := index]> m.(by_index_prefix);
             next_index := wadd 32 index 1;
             handshake_init_window := m.(handshake_init_window) |}).

Definition remove_peer (index : Z) (m : TunnelManager) : bool * TunnelManager :=
  (bool_decide (is_Some (m.(tunnels) !! index)),
   {| own_key := m.(own_key); tunnels := delete index m.(tunnels);
      by_index_prefix := delete index m.(by_index_prefix); next_index := m.(next_index);
      handshake_init_window := m.(handshake_init_window) |}).

Definition get (index : Z) (m : TunnelManager) : option WgTunnel := m.(tunnels) !! index.

Definition manager_encapsulate (index : Z) (data : list byte) (m : TunnelManager)
  : result MeshError (option (list byte)) * TunnelManager :=
  match m.(tunnels) !! index with
  | None => (Err (PeerNotFound (lit "index " ++ show_uint index)), m)
  | Some t => let '(r, t') := encapsulate t data in
              (r, with_tunnels (<[index := t']> m.(tunnels)) m)
  end.

(** [allow_handshake_init]: a fixed window per source address. *)
Definition allow_handshake_init (ip : IpAddr) (now : Z) (m : TunnelManager) : bool * TunnelManager :=
  let entry0 := default (now, 0) (m.(handshake_init_window) !! ip) in
  let entry := if HANDSHAKE_INIT_WINDOW <? duration_since now entry0.1 then (now, 0) else entry0 in
  let '(ok, entry') :=
    if HANDSHAKE_INIT_LIMIT <=? entry.2 then (false, entry) else (true, (entry.1, entry.2 + 1)) in
  (ok, {| own_key := m.(own_key); tunnels := m.(tunnels); by_index_prefix := m.(by_index_prefix);
          next_index := m.(next_index);
          handshake_init_window := <[ip := entry']> m.(handshake_init_window) |}).

(** [u32::from_le_bytes] of bytes 4 to 8. *)
Definition receiver_idx (datagram : list byte) : Z :=
  from_be (rev (take 4 (drop 4 datagram))).

(** The linear scan over the tunnels for a handshake initiation. *)
Fixpoint scan (l : list Z) (src_addr : option IpAddr) (datagram : list byte) (m : TunnelManager)
  : option (option (Z * DecapsulateResult) * TunnelManager) :=
  match l with
  | [] => Some (None, m)
  | index :: l' =>
      match m.(tunnels) !! index with
      | None => scan l' src_addr datagram m
      | Some t =>
          '(r, t') ← decapsulate_tunnel t src_addr datagram;
          let m' := with_tunnels (<[index := t']> m.(tunnels)) m in
          match r with
          | Ok res =>
              if bool_decide (is_Some res.(tunnel_packet)) || negb (bool_decide (res.(network_packets) = []))
              then Some (Some (index, res), m')
              else scan l' src_addr datagram m'
          | Err _ => scan l' src_addr datagram m'
          end
      end
  end.

(** The dispatch by receiver index. *)
Definition dispatch (src_addr : option IpAddr) (datagram : list byte) (m : TunnelManager)
  : option (result MeshError (option (Z * DecapsulateResult)) * TunnelManager) :=
  let prefix := Z.shiftr (receiver_idx datagram) 8 in
  match m.(by_index_prefix) !! prefix with
  | None => Some (Ok None, m)
  | Some index =>
      match m.(tunnels) !! index with
      | None => Some (Ok None, m)
      | Some t =>
          '(r, t') ← decapsulate_tunnel t src_addr datagram;
          let m' := with_tunnels (<[index := t']> m.(tunnels)) m in
          Some (match r with Ok res => Ok (Some (index, res)) | Err e => Err e end, m')
      end
  end.

(** The handshake-initiation arm. *)
Definition handshake_init (order : list Z) (src_addr : option IpAddr) (now : Z)
    (datagram : list byte) (m : TunnelManager)
  : option (result MeshError (option (Z * DecapsulateResult)) * TunnelManager) :=
  let '(ok, m1) := match src_addr with
                   | Some ip => allow_handshake_init ip now m
                   | None => (true, m)
                   end in
  if negb ok then Some (Ok None, m1)
  else '(r, m2) ← scan order src_addr datagram m1; Some (Ok r, m2).

(** [TunnelManager::decapsulate]; [order] lists the tunnel indices as iterated. *)
Definition decapsulate (order : list Z) (src_addr : option IpAddr) (now : Z) (datagram : list byte)
    (m : TunnelManager)
  : option (result MeshError (option (Z * DecapsulateResult)) * TunnelManager) :=
  match datagram with
  | [] => Some (Ok None, m)
  | b :: _ =>
      let msg_type := b2z b in
      if ((msg_type =? WG_MSG_DATA) || (msg_type =? WG_MSG_HANDSHAKE_RESP)
          || (msg_type =? WG_MSG_COOKIE_REPLY)) && (8 <=? length datagram)%nat
      then dispatch src_addr datagram m
      else if msg_type =? WG_MSG_HANDSHAKE_INIT then handshake_init order src_addr now datagram m
      else Some (Ok None, m)
  end.

(** [tick_all_timers], in the order of [l]. *)
Fixpoint tick_all_timers (l : list Z) (m : TunnelManager)
  : list (Z * list (list byte)) * TunnelManager :=
  match l with
  | [] => ([], m)
  | index :: l' =>
      match m.(tunnels) !! index with
      | None => tick_all_timers l' m
      | Some t =>
          let '(packets, t') := tick_timers t in
          let '(rest, m') := tick_all_timers l' (with_tunnels (<[index := t']> m.(tunnels)) m) in
          (if bool_decide (packets = []) then rest else (index, packets) :: rest, m')
      end
  end.

Definition peer_count (m : TunnelManager) : nat := size m.(tunnels).

End Tunnels.

(** ** Proofs *)

Section TunnelProofs.
Context `{TunnLaws}.

Lemma drain_queued_total (fuel : nat) s res :
  (tunn_queued s < fuel)%nat -> is_Some (drain_queued fuel s res).
Proof.
  revert s res. induction fuel as [|n IH]; intros s res Hf; [lia|]. cbn [drain_queued].
  destruct (tunn_decapsulate s None []) as [r s'] eqn:E.
  pose proof (tunn_drain s r s' E) as Hd. destruct r; try (by eexists); apply IH; lia.
Qed.

Lemma decapsulate_tunnel_total t src d : is_Some (decapsulate_tunnel t src d).
Proof.
  unfold decapsulate_tunnel. destruct (tunn_decapsulate (tunn t) src d) as [r s].
  destruct r; try (by eexists). unfold drain.
  destruct (drain_queued_total (S (tunn_queued s)) s (push_network packet empty_result)) as [[res s'] E];
    [lia|]. rewrite E. by eexists.
Qed.

Lemma scan_total l src d m : is_Some (scan l src d m).
Proof.
  revert m. induction l as [|i l IH]; intros m; cbn; [by eexists|].
  destruct (m.(tunnels) !! i) as [t|]; [|apply IH].
  destruct (decapsulate_tunnel_total t src d) as [[r t'] E]. rewrite E. cbn.
  destruct r as [res|e]; [|apply IH]. case_match; [by eexists | apply IH].
Qed.

(** The two maps of the manager name the same tunnels. *)
Definition manager_wf (m : TunnelManager) : Prop :=
  (forall i j, m.(by_index_prefix) !! i = Some j -> j = i)
  /\ forall i, is_Some (m.(by_index_prefix) !! i) <-> is_Some (m.(tunnels) !! i).

Inductive manager_step : TunnelManager -> TunnelManager -> Prop :=
  | mg_add k ep ka m : manager_step m (add_peer k ep ka m).2
  | mg_remove i m : manager_step m (remove_peer i m).2
  | mg_encapsulate i d m : manager_step m (manager_encapsulate i d m).2
  | mg_decapsulate order src now d m r m' :
      decapsulate order src now d m = Some (r, m') -> manager_step m m'
  | mg_tick l m : manager_step m (tick_all_timers l m).2.

(** A change that keeps the set of tunnels and the index. *)
Definition same_shape (m m' : TunnelManager) : Prop :=
  m'.(by_index_prefix) = m.(by_index_prefix)
  /\ forall i, is_Some (m'.(tunnels) !! i) <-> is_Some (m.(tunnels) !! i).

Lemma same_shape_refl m m' :
  m'.(by_index_prefix) = m.(by_index_prefix) -> m'.(tunnels) = m.(tunnels) -> same_shape m m'.
Proof. intros E1 E2. split; [done|]. intros i. by rewrite E2. Qed.

Lemma same_shape_trans m1 m2 m3 : same_shape m1 m2 -> same_shape m2 m3 -> same_shape m1 m3.
Proof. intros [E1 H1] [E2 H2]. split; [congruence|]. intros i. by rewrite H2, H1. Qed.

Lemma same_shape_insert i t t' m :
  m.(tunnels) !! i = Some t -> same_shape m (with_tunnels (<[i := t']> m.(tunnels)) m).
Proof.
  intros Hi. split; [done|]. intros j. cbn. destruct (decide (i = j)) as [<-|Hne].
  - rewrite lookup_insert_eq, Hi. split; by eexists.
  - by rewrite lookup_insert_ne.
Qed.

Lemma same_shape_wf m m' : same_shape m m' -> manager_wf m -> manager_wf m'.
Proof.
  intros [E Ht] [H1 H2]. split; [by rewrite E|]. intros i. by rewrite E, Ht, H2.
Qed.

Lemma scan_shape l src d m r m' : scan l src d m = Some (r, m') -> same_shape m m'.
Proof.
  revert m. induction l as [|i l IH]; intros m; cbn.
  { intros [= _ <-]. by apply same_shape_refl. }
  destruct (m.(tunnels) !! i) as [t|] eqn:Ht; [|apply IH].
  destruct (decapsulate_tunnel t src d) as [[o t']|]; cbn; [|done].
  pose proof (same_shape_insert i t t' m Ht) as Hs.
  destruct o as [res|e]; [case_match; [by intros [= _ <-]|]|];
    intros E%IH; by eapply same_shape_trans.
Qed.

Lemma dispatch_shape src d m r m' : dispatch src d m = Some (r, m') -> same_shape m m'.
Proof.
  unfold dispatch. destruct (m.(by_index_prefix) !! _) as [i|];
    [|intros [= _ <-]; by apply same_shape_refl].
  destruct (m.(tunnels) !! i) as [t|] eqn:Ht; [|intros [= _ <-]; by apply same_shape_refl].
  destruct (decapsulate_tunnel t src d) as [[o t']|]; cbn; [|done].
  intros [= _ <-]. by eapply same_shape_insert.
Qed.

Lemma decapsulate_shape order src now d m r m' :
  decapsulate order src now d m = Some (r, m') -> same_shape m m'.
Proof.
  unfold decapsulate. destruct d as [|b d]; [intros [= _ <-]; by apply same_shape_refl|].
  case_match; [apply dispatch_shape|]. case_match; [|intros [= _ <-]; by apply same_shape_refl].
  unfold handshake_init.
  assert (Hok : forall ok m1, (match src with Some ip => allow_handshake_init ip now m | None => (true, m) end)
                 = (ok, m1) -> same_shape m m1).
  { intros ok m1. destruct src as [ip|]; [|intros [= _ <-]; by apply same_shape_refl].
    unfold allow_handshake_init. case_match; intros [= _ <-]; by apply same_shape_refl. }
  destruct (match src with Some ip => _ | None => _ end) as [ok m1] eqn:E. specialize (Hok ok m1 eq_refl).
  destruct (negb ok); [by intros [= _ <-]|].
  destruct (scan order src (b :: d) m1) as [[o m2]|] eqn:Es; cbn; [|done]. intros [= _ <-].
  eapply same_shape_trans; [exact Hok | by eapply scan_shape].
Qed.

Lemma tick_shape l m : same_shape m (tick_all_timers l m).2.
Proof.
  revert m. induction l as [|i l IH]; intros m; cbn; [by apply same_shape_refl|].
  destruct (m.(tunnels) !! i) as [t|] eqn:Ht; [|apply IH].
  destruct (tick_timers t) as [ps t'].
  specialize (IH (with_tunnels (<[i:=t']> (tunnels m)) m)).
  destruct (tick_all_timers l _) as [rest m'] eqn:E. cbn in *.
  eapply same_shape_trans; [by eapply same_shape_insert | done].
Qed.

Lemma manager_step_wf m m' : manager_wf m -> manager_step m m' -> manager_wf m'.
Proof.
  intros Hwf Hs. destruct Hs as [k ep ka m|i m|i d m|order src now d m r m' E|l m].
  - destruct Hwf as [H1 H2]. split; cbn.
    + intros i j [[<- <-] | [_ Hij]]%lookup_insert_Some; auto.
    + intros i. rewrite !lookup_insert_is_Some, H2. done.
  - destruct Hwf as [H1 H2]. split; cbn.
    + intros a b [_ Hab]%lookup_delete_Some. auto.
    + intros a. by rewrite !lookup_delete_is_Some, H2.
  - eapply same_shape_wf; [|exact Hwf]. unfold manager_encapsulate.
    destruct (m.(tunnels) !! i) as [t|] eqn:Ht; [|by apply same_shape_refl].
    destruct (encapsulate t d) as [r t']. by eapply same_shape_insert.
  - eapply same_shape_wf; [by eapply decapsulate_shape | exact Hwf].
  - eapply same_shape_wf; [apply tick_shape | exact Hwf].
Qed.

Definition manager_reachable (m : TunnelManager) : Prop :=
  exists k, star manager_step (new_manager k) m.

Lemma manager_reachable_wf m : manager_reachable m -> manager_wf m.
Proof.
  intros [k Hs]. apply (star_invariant _ manager_wf _ _ manager_step_wf Hs).
  split; cbn; intros i; rewrite ?lookup_empty; done.
Qed.

(** ** Theorems *)

(** Receiving a datagram always ends: given that boringtun hands out its queued packets
    one by one, [decapsulate] of the manager returns for every datagram and order. *)
Theorem decapsulate_total order src now d m :
  is_Some (decapsulate order src now d m).
Proof.
  unfold decapsulate. destruct d as [|b d]; [by eexists|]. case_match.
  - unfold dispatch. destruct (m.(by_index_prefix) !! _) as [i|]; [|by eexists].
    destruct (m.(tunnels) !! i) as [t|]; [|by eexists].
    destruct (decapsulate_tunnel_total t src (b :: d)) as [[r t'] E]. rewrite E. by eexists.
  - case_match; [|by eexists]. unfold handshake_init.
    destruct (match src with Some ip => _ | None => _ end) as [ok m1].
    destruct (negb ok); [by eexists|].
    destruct (scan_total order src (b :: d) m1) as [[r m2] E]. rewrite E. by eexists.
Qed.

(** A transport, handshake-response or cookie message with room for its receiver index. *)
Definition indexed (d : list byte) : Prop :=
  exists b d', d = b :: d' /\ (b2z b = WG_MSG_DATA \/ b2z b = WG_MSG_HANDSHAKE_RESP \/ b2z b = WG_MSG_COOKIE_REPLY)
               /\ (8 <= length d)%nat.

(** Datagrams reach the tunnel they name and no other: in every reachable manager, a
    message with a receiver index is handled by the tunnel whose index is the index's upper
    24 bits, is ignored when there is none, and leaves every other tunnel untouched. *)
Theorem dispatch_by_index order src now d m r m'
    (Hm : manager_reachable m) (Hd : indexed d)
    (E : decapsulate order src now d m = Some (r, m')) :
  let i := Z.shiftr (receiver_idx d) 8 in
  (forall j, j <> i -> m'.(tunnels) !! j = m.(tunnels) !! j)
  /\ match m.(tunnels) !! i with
     | Some t => exists o t', decapsulate_tunnel t src d = Some (o, t')
                  /\ m'.(tunnels) !! i = Some t'
                  /\ r = match o with Ok res => Ok (Some (i, res)) | Err e => Err e end
     | None => r = Ok None /\ m' = m
     end.
Proof.
  apply manager_reachable_wf in Hm as [Hidx Hdom]. destruct Hd as (b & d' & -> & Hb & Hlen).
  intros i. unfold decapsulate in E. rewrite (proj2 (Nat.leb_le _ _) Hlen) in E.
  assert (Hty : (b2z b =? WG_MSG_DATA) || (b2z b =? WG_MSG_HANDSHAKE_RESP) || (b2z b =? WG_MSG_COOKIE_REPLY) = true).
  { rewrite !orb_true_iff, !Z.eqb_eq. tauto. }
  rewrite Hty in E. cbn [andb] in E. unfold dispatch in E. fold i in E.
  specialize (Hdom i). destruct (m.(by_index_prefix) !! i) as [j|] eqn:Hj.
  - apply Hidx in Hj as ->. destruct (proj1 Hdom (ex_intro _ i eq_refl)) as [t Ht]. rewrite Ht in *.
    destruct (decapsulate_tunnel t src (b :: d')) as [[o t']|] eqn:Eo; cbn in E; [|done].
    injection E as <- <-. split.
    + intros j Hne. cbn. by rewrite lookup_insert_ne.
    + exists o, t'. split; [done|]. split; [by cbn; rewrite lookup_insert_eq | by destruct o].
  - injection E as <- <-. split; [done|].
    destruct (m.(tunnels) !! i) as [t|]; [|done].
    destruct (proj2 Hdom (ex_intro _ t eq_refl)) as [? ?]. done.
Qed.

(** The index a peer is given matches the dispatch: while fewer than 2^24 peers were
    added, the receiver indices boringtun uses for a new peer's sessions (its index shifted
    by eight, plus a session number below 256) are exactly those dispatched to it. *)
Theorem add_peer_index k ep ka m session
    (Hnext : 0 <= m.(next_index) < 2 ^ 24) (Hs : 0 <= session < 256) :
  let '(index, m') := add_peer k ep ka m in
  exists t, m'.(tunnels) !! index = Some t /\ t.(endpoint) = ep
    /\ t.(peer_index) = 256 * index
    /\ Z.shiftr (t.(peer_index) + session) 8 = index
    /\ m'.(by_index_prefix) !! index = Some index.
Proof.
  cbn. eexists. rewrite !lookup_insert_eq. split; [done|].
  rewrite Z.shiftl_mul_pow2, Z.shiftr_div_pow2 by done. change (2 ^ 8) with 256.
  assert (Hw : wrap 32 (next_index m * 256) = next_index m * 256)
    by (apply wrap_small; unfold is_u; lia).
  destruct ep as [a|]; cbn; rewrite Hw; split; try done; (split; [lia|]);
    (split; [|done]); rewrite Z.div_add_l by lia; rewrite Z.div_small; lia.
Qed.

End TunnelProofs.

Section HandshakeLimit.
Context `{TunnApi}.

(** The answers to a series of initiations from one source, and how many were admitted. *)
Fixpoint admitted (ip : IpAddr) (times : list Z) (m : TunnelManager) : Z :=
  match times with
  | [] => 0
  | now :: ts => let '(ok, m') := allow_handshake_init ip now m in
                 (if ok then 1 else 0) + admitted ip ts m'
  end.

(** One step, on the entry of the source. *)
Definition next_entry (e : option (Z * Z)) (now : Z) : bool * (Z * Z) :=
  let entry0 := default (now, 0) e in
  let entry := if HANDSHAKE_INIT_WINDOW <? duration_since now entry0.1 then (now, 0) else entry0 in
  if HANDSHAKE_INIT_LIMIT <=? entry.2 then (false, entry) else (true, (entry.1, entry.2 + 1)).

Lemma allow_handshake_init_entry ip now m :
  let '(ok, e) := next_entry (m.(handshake_init_window) !! ip) now in
  (allow_handshake_init ip now m).1 = ok
  /\ (allow_handshake_init ip now m).2.(handshake_init_window) = <[ip := e]> m.(handshake_init_window).
Proof.
  unfold next_entry, allow_handshake_init.
  destruct (if HANDSHAKE_INIT_LIMIT <=? _ then _ else _) as [ok e]. done.
Qed.

(** How many of a series are admitted, from the entry alone. *)
Fixpoint admitted_from (e : option (Z * Z)) (times : list Z) : Z :=
  match times with
  | [] => 0
  | now :: ts => let '(ok, e') := next_entry e now in
                 (if ok then 1 else 0) + admitted_from (Some e') ts
  end.

Lemma admitted_entry ip times m :
  admitted ip times m = admitted_from (m.(handshake_init_window) !! ip) times.
Proof.
  revert m. induction times as [|now ts IH]; intros m; cbn; [done|].
  pose proof (allow_handshake_init_entry ip now m) as He.
  destruct (next_entry _ now) as [ok e]. destruct (allow_handshake_init ip now m) as [ok' m'].
  cbn in He. destruct He as [-> Hw]. by rewrite IH, Hw, lookup_insert_eq.
Qed.

(** While the window that started at [s] lasts, what is left of the limit. *)
Lemma admitted_same_window t times s c :
  t <= s -> c <= HANDSHAKE_INIT_LIMIT ->
  Forall (fun now => t <= now <= t + HANDSHAKE_INIT_WINDOW) times ->
  admitted_from (Some (s, c)) times <= HANDSHAKE_INIT_LIMIT - c.
Proof.
  intros Hs Hc Ht. revert c Hc. induction Ht as [|now ts Hnow _ IH]; intros c Hc; cbn; [lia|].
  unfold next_entry, duration_since. cbn [default from_option id fst snd].
  destruct (Z.ltb_spec HANDSHAKE_INIT_WINDOW (Z.max 0 (now - s)));
    [unfold HANDSHAKE_INIT_WINDOW in *; lia|]. cbn [fst snd].
  destruct (Z.leb_spec HANDSHAKE_INIT_LIMIT c).
  - specialize (IH c). lia.
  - specialize (IH (c + 1)). lia.
Qed.

Lemma admitted_interval t times s c :
  c <= HANDSHAKE_INIT_LIMIT ->
  Forall (fun now => t <= now <= t + HANDSHAKE_INIT_WINDOW) times ->
  admitted_from (Some (s, c)) times <= 2 * HANDSHAKE_INIT_LIMIT - c.
Proof.
  intros Hc Ht. revert c Hc. induction Ht as [|now ts Hnow Hts IH]; intros c Hc; cbn.
  { unfold HANDSHAKE_INIT_LIMIT in *. lia. }
  unfold next_entry. cbn [default from_option id fst snd].
  destruct (Z.ltb_spec HANDSHAKE_INIT_WINDOW (duration_since now s)); cbn [fst snd].
  - pose proof (admitted_same_window t ts now 1 (proj1 Hnow) ltac:(done) Hts).
    cbn. change (0 + 1) with 1. unfold HANDSHAKE_INIT_LIMIT in *. lia.
  - destruct (Z.leb_spec HANDSHAKE_INIT_LIMIT c).
    + specialize (IH c). lia.
    + specialize (IH (c + 1)). lia.
Qed.

(** Handshake initiations are bounded per source: within any interval of one second, at
    most twice the limit of ten are admitted from one address, whatever its counter was
    before (a window may end inside the interval); and the counters of other addresses are
    not touched. *)
Theorem handshake_init_bound ip t times m
    (Ht : Forall (fun now => t <= now <= t + HANDSHAKE_INIT_WINDOW) times)
    (Hm : forall s c, m.(handshake_init_window) !! ip = Some (s, c) -> 0 <= c <= HANDSHAKE_INIT_LIMIT) :
  admitted ip times m <= 2 * HANDSHAKE_INIT_LIMIT
  /\ forall now ip', ip' <> ip ->
       (allow_handshake_init ip now m).2.(handshake_init_window) !! ip'
       = m.(handshake_init_window) !! ip'.
Proof.
  split.
  - rewrite admitted_entry. destruct (m.(handshake_init_window) !! ip) as [[s c]|].
    + specialize (Hm s c eq_refl). pose proof (admitted_interval t times s c ltac:(lia) Ht). lia.
    + destruct times as [|now ts]; cbn; [done|]. apply Forall_cons in Ht as [Hnow Hts].
      unfold next_entry, duration_since. cbn [default from_option id fst snd].
      replace (Z.max 0 (now - now)) with 0 by lia. cbn. change (0 + 1) with 1.
      pose proof (admitted_same_window t ts now 1 (proj1 Hnow) ltac:(done) Hts).
      unfold HANDSHAKE_INIT_LIMIT in *. lia.
  - intros now ip' Hne. pose proof (allow_handshake_init_entry ip now m) as He.
    destruct (next_entry _ now) as [ok e]. destruct He as [_ ->]. by rewrite lookup_insert_ne.
Qed.

End HandshakeLimit.

(** ** Witnesses *)

Module TunnelExamples.

(** A tunnel that only counts its queue. *)
#[local] Instance toy : TunnApi := {|
  Tunn := nat; WgKeypair := unit; PublicKey := unit;
  tunn_new := fun _ _ _ _ _ => 2%nat;
  tunn_encapsulate := fun t _ => (Done, S t);
  tunn_decapsulate := fun t _ d =>
    match d with
    | [] => match t with O => (Done, O) | S n => (WriteToNetwork [x00], n) end
    | _ => (WriteToNetwork [x01], t)
    end;
  tunn_update_timers := fun t => (Done, t);
  tunn_queued := fun t => t
|}.

#[local] Instance toy_laws : TunnLaws.
Proof. constructor. intros [|n] r t'; cbn; intros [= <- <-]; lia. Qed.

Definition pk : @PublicKey toy := tt.
Definition kp : @WgKeypair toy := tt.
Definition mgr : TunnelManager := (add_peer pk None None (new_manager kp)).2.
Definition data_for_zero : list byte := [x04; x00; x00; x00; x07; x00; x00; x00].

Lemma decapsulate_total_witness : is_Some (decapsulate [] None 0 data_for_zero mgr).
Proof. apply decapsulate_total. Defined.

Lemma dispatch_by_index_witness :
  exists r m', decapsulate [] None 0 data_for_zero mgr = Some (r, m')
    /\ (forall j, j <> Z.shiftr (receiver_idx data_for_zero) 8 -> m'.(tunnels) !! j = mgr.(tunnels) !! j).
Proof.
  destruct (decapsulate [] None 0 data_for_zero mgr) as [[r m']|] eqn:E; [|discriminate].
  exists r, m'. split; [reflexivity|].
  refine (proj1 (dispatch_by_index [] None 0 data_for_zero mgr r m' _ _ E)).
  - exists kp. apply star_one. constructor.
  - exists x04, [x00; x00; x00; x07; x00; x00; x00]. split; [reflexivity|]. split; [by left | cbn; lia].
Defined.

Lemma add_peer_index_witness :
  exists t, mgr.(tunnels) !! 0 = Some t /\ Z.shiftr (t.(peer_index) + 7) 8 = 0.
Proof.
  destruct (add_peer_index pk None None (new_manager kp) 7) as (t & H1 & _ & _ & H2 & _);
    [done|done|]. exists t. split; assumption.
Defined.

Lemma handshake_init_bound_witness :
  admitted (V4 1) (repeat 5 30) mgr <= 2 * HANDSHAKE_INIT_LIMIT.
Proof.
  refine (proj1 (handshake_init_bound (V4 1) 0 (repeat 5 30) mgr _ _)).
  - apply Forall_forall. intros x Hx.
    apply list_elem_of_In, repeat_spec in Hx as ->. unfold HANDSHAKE_INIT_WINDOW. lia.
  - intros s c Hc. change (handshake_init_window mgr) with (∅ : gmap IpAddr (Z * Z)) in Hc.
    rewrite lookup_empty in Hc. discriminate.
Defined.

End TunnelExamples.
