(* ===== verification/AuditLog.v ===== *)
(** * The audit log ([runesh-audit/src/lib.rs])

    Entries, the hash chain and its verification, the in-memory and the file sink, and
    [AuditLog]. A [String] is the list of its UTF-8 bytes. SHA-256, the JSON values and
    their text, time stamps and the serde encoding of an entry are the interface
    [AuditEnv]. A file is its content; a write that fails leaves a prefix of what was to be
    written. *)
From S2P Require Import Prelude Str Utf8.

#[local] Open Scope Z_scope.

(** The UTF-8 bytes of an ASCII literal. *)
Definition ascii (s : string) : list byte := map (fun c => Ascii.byte_of_ascii c) (String.list_ascii_of_string s).

Inductive AuditError : Type :=
  | Io (e : list byte)       (* the text of the error *)
  | Serde (e : list byte)
  | ChainBroken (i : nat)
  | SeqNotMonotonic (i : nat).

Inductive Severity : Type := Info | Warning | Critical.

(** [Display for Severity]. *)
Definition severity_string (s : Severity) : list byte :=
  match s with
  | Info => ascii "info"
  | Warning => ascii "warning"
  | Critical => ascii "critical"
  end.

#[global] Instance severity_eq_dec : EqDecision Severity.
Proof. solve_decision. Defined.

Record AuditEntry {Json DateTime : Type} := {
  id : list byte;
  seq : Z;
  timestamp : DateTime;
  prev_hash : list byte;
  hash : list byte;
  actor : list byte;
  action : list byte;
  resource : list byte;
  details : Json;
  severity : Severity;
  tenant_id : option (list byte)
}.
Arguments AuditEntry : clear implicits.

(** The crates the log is built on: [sha2], [serde_json], [chrono]. *)
Class AuditEnv := {
  Json : Type;
  DateTime : Type;
  sha256 : list byte -> list byte;
  json_string : Json -> list byte;
  to_rfc3339 : DateTime -> list byte;
  entry_to_json : AuditEntry Json DateTime -> result (list byte) (list byte);
  entry_from_json : list byte -> result (list byte) (AuditEntry Json DateTime);
  entries_from_json : list byte -> result (list byte) (list (AuditEntry Json DateTime))
}.

Section Audit.
Context `{AuditEnv}.
Abbreviation Entry := (AuditEntry Json DateTime).

(** ** Hashing *)

(** The hasher is the bytes fed to it so far. *)
Definition update_field (hasher : list byte) (name value : list byte) : list byte :=
  hasher ++ to_be 8 (Z.of_nat (length name)) ++ name ++ to_be 8 (Z.of_nat (length value)) ++ value.

Definition hex_byte (d : Z) : byte := z2b (if d <? 10 then 48 + d else 87 + d).
(** [{:x}] of a digest. *)
Definition hex (bs : list byte) : list byte :=
  concat (map (fun b => [hex_byte (b2z b / 16); hex_byte (b2z b mod 16)]) bs).

(** What [compute_hash] feeds to the hasher. *)
Definition hash_input (id : list byte) (seq : Z) (timestamp : DateTime) (prev_hash actor action resource : list byte)
    (details : Json) (severity : Severity) (tenant_id : option (list byte)) : list byte :=
  let h := update_field [] (ascii "id") id in
  let h := update_field h (ascii "seq") (to_be 8 seq) in
  let h := update_field h (ascii "timestamp") (to_rfc3339 timestamp) in
  let h := update_field h (ascii "prev_hash") prev_hash in
  let h := update_field h (ascii "actor") actor in
  let h := update_field h (ascii "action") action in
  let h := update_field h (ascii "resource") resource in
  let h := update_field h (ascii "details") (json_string details) in
  let h := update_field h (ascii "severity") (severity_string severity) in
  update_field h (ascii "tenant_id") (default [] tenant_id).

Definition compute_hash (id : list byte) (seq : Z) (timestamp : DateTime) (prev_hash actor action resource : list byte)
    (details : Json) (severity : Severity) (tenant_id : option (list byte)) : list byte :=
  hex (sha256 (hash_input id seq timestamp prev_hash actor action resource details severity tenant_id)).

Definition hash_eq (a b : list byte) : bool :=
  if negb (length a =? length b)%nat then false else bool_decide (a = b).

(** ** Verification *)

Fixpoint verify_loop (i : nat) (expected_prev : list byte) (last_seq : option Z) (entries : list Entry)
    : result AuditError unit :=
  match entries with
  | [] => Ok tt
  | entry :: rest =>
      if negb (hash_eq entry.(prev_hash) expected_prev) then Err (ChainBroken i)
      else if (match last_seq with Some prev => entry.(seq) <=? prev | None => false end)
      then Err (SeqNotMonotonic i)
      else
        let computed := compute_hash entry.(id) entry.(seq) entry.(timestamp) entry.(prev_hash)
          entry.(actor) entry.(action) entry.(resource) entry.(details) entry.(severity)
          entry.(tenant_id) in
        if negb (hash_eq entry.(hash) computed) then Err (ChainBroken i)
        else verify_loop (S i) entry.(hash) (Some entry.(seq)) rest
  end.

Definition verify_entries (entries : list Entry) : result AuditError unit :=
  verify_loop 0 [] None entries.

(** ** Sinks *)

(** The trait [AuditSink] over a state of the sink: [append] and [iter]. *)
Record AuditSink (St : Type) := {
  sink_append : Entry -> St -> result AuditError unit * St;
  sink_iter : St -> result AuditError (list Entry)
}.
#[global] Arguments sink_append {St}.
#[global] Arguments sink_iter {St}.

Definition InMemoryAuditSink : AuditSink (list Entry) := {|
  sink_append e s := (Ok tt, s ++ [e]);
  sink_iter s := Ok s
|}.

(** A file that may be missing, and the fate of the next write to it. *)
Inductive io_fate : Type :=
  | Completes
  | OpenFails (e : list byte)
  | LineFails (k : nat) (e : list byte)   (* [k] bytes of the line are written *)
  | NewlineFails (e : list byte)
  | SyncFails (e : list byte).

Record File := {
  content : option (list byte);   (* [None]: no such file *)
  read_error : option (list byte);
  fate : io_fate
}.

Definition newline : byte := x0a.

Definition file_append (entry : Entry) (f : File) : result AuditError unit * File :=
  match entry_to_json entry with
  | Err e => (Err (Serde e), f)
  | Ok line =>
      let old := default [] f.(content) in
      let done_ r c := (r, {| content := Some c; read_error := f.(read_error); fate := Completes |}) in
      match f.(fate) with
      | Completes => done_ (Ok tt) (old ++ line ++ [newline])
      | OpenFails e => (Err (Io e), {| content := f.(content); read_error := f.(read_error); fate := Completes |})
      | LineFails k e => done_ (Err (Io e)) (old ++ take k line)
      | NewlineFails e => done_ (Err (Io e)) (old ++ line)
      | SyncFails e => done_ (Err (Io e)) (old ++ line ++ [newline])
      end
  end.

(** [AsyncBufReadExt::lines]: the text cut after each line feed; the line feed, and a
    carriage return before it, are then removed. *)
Fixpoint split_lines (bs : list byte) : list (list byte) :=
  match bs with
  | [] => []
  | b :: r =>
      if bool_decide (b = newline) then [b] :: split_lines r
      else match split_lines r with
           | l :: ls => (b :: l) :: ls
           | [] => [[b]]
           end
  end.

Definition chomp (l : list byte) : list byte :=
  match rev l with
  | x0a :: x0d :: r => rev r
  | x0a :: r => rev r
  | _ => l
  end.

Definition is_utf8 (bs : list byte) : bool := bool_decide (as_bytes (from_utf8_lossy bs) = bs).

Definition blank (l : list byte) : bool := bool_decide (trim (from_utf8_lossy l) = []).

Definition read_line (l : list byte) (out : list Entry) : result AuditError (list Entry) :=
  if negb (is_utf8 l) then Err (Io (ascii "stream did not contain valid UTF-8"))
  else if blank l then Ok out
  else match entry_from_json l with
       | Ok e => Ok (out ++ [e])
       | Err e => Err (Serde e)
       end.

Definition file_iter (f : File) : result AuditError (list Entry) :=
  match f.(content) with
  | None => Ok []
  | Some c =>
      match f.(read_error) with
      | Some e => Err (Io e)
      | None => try_for (fun l out => read_line (chomp l) out) (split_lines c) []
      end
  end.

Definition FileAuditSink : AuditSink File := {| sink_append := file_append; sink_iter := file_iter |}.

(** ** The log *)

Section Log.
Context {St : Type} (ops : AuditSink St).

Record AuditLog := {
  entries : list Entry;
  next_seq : Z;
  sink : option St
}.

Definition new : AuditLog := {| entries := []; next_seq := 0; sink := None |}.

Definition with_sink (s : St) (log : AuditLog) : AuditLog :=
  {| entries := log.(entries); next_seq := log.(next_seq); sink := Some s |}.

Definition from_entries (es : list Entry) : result AuditError AuditLog :=
  _ ← verify_entries es;
  Ok {| entries := es;
        next_seq := match last es with Some e => wadd 64 e.(seq) 1 | None => 0 end;
        sink := None |}.

Definition load (s : St) : result AuditError AuditLog :=
  es ← ops.(sink_iter) s;
  log ← from_entries es;
  Ok (with_sink s log).

(** The arguments of an append and the identifier and time it draws. *)
Record request := {
  r_id : list byte;
  r_timestamp : DateTime;
  r_actor : list byte;
  r_action : list byte;
  r_resource : list byte;
  r_details : Json;
  r_severity : Severity;
  r_tenant_id : option (list byte)
}.

Definition build_entry (r : request) (log : AuditLog) : Entry :=
  let prev_hash := match last log.(entries) with Some e => e.(hash) | None => [] end in
  {| id := r.(r_id); seq := log.(next_seq); timestamp := r.(r_timestamp);
     prev_hash := prev_hash;
     hash := compute_hash r.(r_id) log.(next_seq) r.(r_timestamp) prev_hash r.(r_actor)
               r.(r_action) r.(r_resource) r.(r_details) r.(r_severity) r.(r_tenant_id);
     actor := r.(r_actor); action := r.(r_action); resource := r.(r_resource);
     details := r.(r_details); severity := r.(r_severity); tenant_id := r.(r_tenant_id) |}.

Definition push_entry (e : Entry) (sk : option St) (log : AuditLog) : AuditLog :=
  {| entries := log.(entries) ++ [e]; next_seq := wadd 64 e.(seq) 1; sink := sk |}.

Definition append (r : request) (log : AuditLog) : result AuditError Entry * AuditLog :=
  let entry := build_entry r log in
  match log.(sink) with
  | Some s =>
      let '(res, s') := ops.(sink_append) entry s in
      match res with
      | Err e => (Err e, with_sink s' log)
      | Ok _ => (Ok entry, push_entry entry (Some s') log)
      end
  | None => (Ok entry, push_entry entry None log)
  end.

(** [None] when the assertion fails. *)
Definition append_in_memory (r : request) (log : AuditLog) : option (Entry * AuditLog) :=
  match log.(sink) with
  | Some _ => None
  | None => let entry := build_entry r log in Some (entry, push_entry entry None log)
  end.

(** [verify]: the index of the first broken entry. *)
Definition verify (log : AuditLog) : result nat unit :=
  match verify_entries log.(entries) with
  | Ok _ => Ok tt
  | Err (ChainBroken i) | Err (SeqNotMonotonic i) => Err i
  | Err _ => Err 0%nat
  end.

Definition len (log : AuditLog) : nat := length log.(entries).
Definition is_empty (log : AuditLog) : bool := bool_decide (length log.(entries) = 0%nat).
Definition by_actor (a : list byte) (log : AuditLog) : list Entry :=
  filter (fun e => e.(actor) = a) log.(entries).
Definition by_action (a : list byte) (log : AuditLog) : list Entry :=
  filter (fun e => e.(action) = a) log.(entries).
Definition by_tenant (t : list byte) (log : AuditLog) : list Entry :=
  filter (fun e => e.(tenant_id) = Some t) log.(entries).
Definition by_severity (s : Severity) (log : AuditLog) : list Entry :=
  filter (fun e => e.(severity) = s) log.(entries).

(** [Display for AuditError]. *)
Definition error_string (e : AuditError) : list byte :=
  match e with
  | ChainBroken i => ascii "chain broken at entry " ++ as_bytes (show_uint (Z.of_nat i))
  | SeqNotMonotonic i => ascii "sequence not monotonic at entry " ++ as_bytes (show_uint (Z.of_nat i))
  | Io e => ascii "io: " ++ e
  | Serde e => ascii "serialization: " ++ e
  end.

Definition from_json (json : list byte) : result (list byte) AuditLog :=
  match entries_from_json json with
  | Err e => Err (ascii "parse error: " ++ e)
  | Ok es => match from_entries es with Ok log => Ok log | Err e => Err (error_string e) end
  end.

End Log.
End Audit.

#[global] Arguments AuditLog {_} St.

(** ** Proofs: the hash covers every field *)

Section AuditProofs.
Context `{AuditEnv}.
Abbreviation Entry := (AuditEntry Json DateTime).

Definition fits (bs : list byte) : Prop := Z.of_nat (length bs) < 2 ^ 64.

(** Sizes of strings and counters that the machine can represent. *)
Record entry_wf (e : Entry) : Prop := {
  wf_seq : is_u 64 e.(seq);
  wf_id : fits e.(id);
  wf_timestamp : fits (to_rfc3339 e.(timestamp));
  wf_prev : fits e.(prev_hash);
  wf_actor : fits e.(actor);
  wf_action : fits e.(action);
  wf_resource : fits e.(resource);
  wf_details : fits (json_string e.(details));
  wf_tenant : fits (default [] e.(tenant_id))
}.

Definition entry_input (e : Entry) : list byte :=
  hash_input e.(id) e.(seq) e.(timestamp) e.(prev_hash) e.(actor) e.(action) e.(resource)
    e.(details) e.(severity) e.(tenant_id).
Definition entry_hash (e : Entry) : list byte := hex (sha256 (entry_input e)).

(** Equal in everything the log shows of an entry: time stamp and details in text form, an
    absent tenant like an empty one. *)
Record same_content (e e' : Entry) : Prop := {
  same_id : e.(id) = e'.(id);
  same_seq : e.(seq) = e'.(seq);
  same_timestamp : to_rfc3339 e.(timestamp) = to_rfc3339 e'.(timestamp);
  same_prev : e.(prev_hash) = e'.(prev_hash);
  same_actor : e.(actor) = e'.(actor);
  same_action : e.(action) = e'.(action);
  same_resource : e.(resource) = e'.(resource);
  same_details : json_string e.(details) = json_string e'.(details);
  same_severity : e.(severity) = e'.(severity);
  same_tenant : default [] e.(tenant_id) = default [] e'.(tenant_id)
}.

Lemma to_be_inj n a b :
  0 <= a < 256 ^ Z.of_nat n -> 0 <= b < 256 ^ Z.of_nat n -> to_be n a = to_be n b -> a = b.
Proof. intros Ha Hb E. rewrite <- (from_be_to_be n a), <- (from_be_to_be n b) by done. by rewrite E. Qed.

(** A length-prefixed field can be read back off the front. *)
Lemma field_inj name v v' r r' :
  fits v -> fits v' -> update_field [] name v ++ r = update_field [] name v' ++ r' -> v = v' /\ r = r'.
Proof.
  unfold update_field, fits. intros Hv Hv' E. cbn [app] in E. rewrite <- !app_assoc in E.
  apply app_inv_head, app_inv_head in E.
  apply app_inj_1 in E as [Hlen E]; [|by rewrite !length_to_be].
  apply to_be_inj in Hlen; [|lia..]. apply app_inj_1 in E; [done|lia].
Qed.

Lemma update_field_app h name v : update_field h name v = h ++ update_field [] name v.
Proof. done. Qed.

Lemma hash_input_app e :
  entry_input e =
    update_field [] (ascii "id") e.(id) ++ update_field [] (ascii "seq") (to_be 8 e.(seq))
    ++ update_field [] (ascii "timestamp") (to_rfc3339 e.(timestamp))
    ++ update_field [] (ascii "prev_hash") e.(prev_hash) ++ update_field [] (ascii "actor") e.(actor)
    ++ update_field [] (ascii "action") e.(action) ++ update_field [] (ascii "resource") e.(resource)
    ++ update_field [] (ascii "details") (json_string e.(details))
    ++ update_field [] (ascii "severity") (severity_string e.(severity))
    ++ update_field [] (ascii "tenant_id") (default [] e.(tenant_id)) ++ [].
Proof.
  unfold entry_input, hash_input. cbv zeta.
  do 9 (rewrite update_field_app; rewrite <- ?app_assoc). by rewrite app_nil_r.
Qed.

Lemma severity_string_inj s s' : severity_string s = severity_string s' -> s = s'.
Proof. by destruct s, s'. Qed.

(** The hashed bytes determine the entry. *)
Lemma entry_input_inj e e' :
  entry_wf e -> entry_wf e' -> entry_input e = entry_input e' -> same_content e e'.
Proof.
  intros [] [] E. rewrite !hash_input_app in E.
  assert (Hsev : forall s, fits (severity_string s)) by by intros [].
  assert (Hseq : forall z, fits (to_be 8 z)) by by intros z; unfold fits; rewrite length_to_be.
  do 10 (apply field_inj in E as [? E]; [|by auto..]).
  split; auto using severity_string_inj.
  eapply to_be_inj; [..|eassumption]; assumption.
Qed.

Lemma hex_byte_inj a b : 0 <= a < 16 -> 0 <= b < 16 -> hex_byte a = hex_byte b -> a = b.
Proof.
  unfold hex_byte. intros Ha Hb E%(f_equal b2z). rewrite !b2z_z2b in E.
  destruct (Z.ltb_spec a 10), (Z.ltb_spec b 10); rewrite !Z.mod_small in E by lia; lia.
Qed.

Lemma hex_inj a b : hex a = hex b -> a = b.
Proof.
  unfold hex. revert b. induction a as [|x a IH]; intros [|y b] E; [done..|].
  cbn in E. injection E as E1 E2 E3. pose proof (b2z_range x). pose proof (b2z_range y).
  apply hex_byte_inj in E1, E2; try (apply Z.mod_pos_bound; lia);
    try (split; [apply Z.div_pos|apply Z.div_lt_upper_bound]; lia).
  f_equal; [|by apply IH]. apply b2z_inj.
  rewrite (Z.div_mod (b2z x) 16), (Z.div_mod (b2z y) 16); lia.
Qed.

Lemma hex_nil bs : hex bs = [] -> bs = [].
Proof. by destruct bs. Qed.

(** ** Proofs: verification *)

Definition last_hash (es : list Entry) : list byte :=
  match last es with Some e => e.(hash) | None => [] end.

(** [e] may follow [prev]: it links to its hash, has a larger number and its own hash. *)
Definition links (prev : option Entry) (e : Entry) : Prop :=
  e.(prev_hash) = match prev with Some p => p.(hash) | None => [] end
  /\ (forall p, prev = Some p -> p.(seq) < e.(seq))
  /\ e.(hash) = entry_hash e.

(** Every entry may follow its predecessor; the list is read from its end. *)
Inductive chain : list Entry -> Prop :=
  | chain_nil : chain []
  | chain_snoc es e : chain es -> links (last es) e -> chain (es ++ [e]).

Lemma hash_eq_spec a b : hash_eq a b = true <-> a = b.
Proof.
  unfold hash_eq. destruct (Nat.eqb_spec (length a) (length b)); cbn.
  - by rewrite bool_decide_eq_true.
  - split; [done|]. congruence.
Qed.

(** One entry of the loop. *)
Definition check_entry (i : nat) (expected_prev : list byte) (last_seq : option Z) (e : Entry)
    : result AuditError unit :=
  verify_loop i expected_prev last_seq [e].

Lemma check_entry_ok i prev e :
  check_entry i (match prev with Some p => p.(hash) | None => [] end) (seq <$> prev) e = Ok tt
  <-> links prev e.
Proof.
  unfold check_entry, links. cbn [verify_loop].
  fold (entry_input e). unfold compute_hash. fold (entry_input e). fold (entry_hash e).
  pose proof (hash_eq_spec (prev_hash e) (match prev with Some p => p.(hash) | None => [] end)) as H1.
  pose proof (hash_eq_spec (hash e) (entry_hash e)) as H2.
  destruct (hash_eq (prev_hash e) _); cbn [negb]; [|split; [done|intros [? _]; intuition congruence]].
  destruct prev as [p|]; cbn [fmap option_fmap option_map].
  - destruct (Z.leb_spec (seq e) (seq p)).
    + split; [done|]. intros (_ & Hs & _). specialize (Hs p eq_refl). lia.
    + destruct (hash_eq (hash e) _); cbn [negb]; (split; [|intuition congruence]); [|done].
      intros _. split; [by apply H1|]. split; [|by apply H2]. by intros ? [= <-].
  - destruct (hash_eq (hash e) _); cbn [negb]; (split; [|intuition congruence]); [|done].
    intros _. split; [by apply H1|]. split; [done|by apply H2].
Qed.

Lemma verify_loop_cons i ep ls e es :
  verify_loop i ep ls (e :: es) =
  match check_entry i ep ls e with
  | Ok _ => verify_loop (S i) e.(hash) (Some e.(seq)) es
  | Err x => Err x
  end.
Proof. unfold check_entry. cbn [verify_loop]. by repeat case_match. Qed.

Lemma verify_loop_snoc es e : forall i prev,
  let cur := match last es with Some p => Some p | None => prev end in
  verify_loop i (match prev with Some p => p.(hash) | None => [] end) (seq <$> prev) (es ++ [e]) =
  match verify_loop i (match prev with Some p => p.(hash) | None => [] end) (seq <$> prev) es with
  | Ok _ => check_entry (i + length es) (match cur with Some p => p.(hash) | None => [] end) (seq <$> cur) e
  | Err x => Err x
  end.
Proof.
  induction es as [|a es IH]; intros i prev; cbv zeta.
  - cbn. by rewrite Nat.add_0_r.
  - rewrite <- app_comm_cons, !verify_loop_cons. destruct (check_entry i _ _ a); [|done].
    specialize (IH (S i) (Some a)). cbv zeta in IH. cbn in IH. rewrite IH.
    rewrite last_cons. replace (i + length (a :: es))%nat with (S i + length es)%nat by (cbn; lia).
    by destruct (last es).
Qed.

Lemma verify_snoc es e :
  verify_entries (es ++ [e]) =
  match verify_entries es with
  | Ok _ => check_entry (length es) (last_hash es) (seq <$> last es) e
  | Err x => Err x
  end.
Proof.
  unfold verify_entries, last_hash. pose proof (verify_loop_snoc es e 0 None) as E. cbn [fmap option_fmap option_map Nat.add] in E.
  rewrite E. by destruct (last es).
Qed.

Lemma verify_chain es : verify_entries es = Ok tt <-> chain es.
Proof.
  induction es as [|e es IH] using rev_ind.
  - split; [constructor|done].
  - rewrite verify_snoc. split.
    + intros E. destruct (verify_entries es) as [[]|] eqn:Ev; [|done].
      constructor; [by apply IH|]. by apply (check_entry_ok (length es)).
    + inversion 1 as [|es' e' Hc Hl Heq]; [by destruct es|].
      apply app_inj_tail in Heq as [-> ->]. apply IH in Hc as ->.
      by apply check_entry_ok.
Qed.

(** A failed check names its entry. *)
Lemma check_entry_err i prev e x :
  check_entry i (match prev with Some p => p.(hash) | None => [] end) (seq <$> prev) e = Err x ->
  ~ links prev e /\ (x = ChainBroken i \/ x = SeqNotMonotonic i).
Proof.
  intros E. split.
  - intros Hl. apply (check_entry_ok i) in Hl. congruence.
  - revert E. unfold check_entry. cbn [verify_loop]. repeat case_match; intros [= <-]; auto.
Qed.

(** Verification is exact: it accepts a list of entries exactly when every entry links to
    the hash of the one before it (the first to the empty hash), has a larger sequence
    number, and carries the hash of its own content; otherwise the reported index is that
    of the first entry for which this fails. *)
Theorem verify_entries_spec es :
  match verify_entries es with
  | Ok _ => forall i e, es !! i = Some e -> links (last (take i es)) e
  | Err x => exists i e, es !! i = Some e /\ ~ links (last (take i es)) e
               /\ (x = ChainBroken i \/ x = SeqNotMonotonic i)
               /\ forall j e', (j < i)%nat -> es !! j = Some e' -> links (last (take j es)) e'
  end.
Proof.
  induction es as [|e es IH] using rev_ind; [done|].
  assert (Htake : forall j, (j <= length es)%nat -> take j (es ++ [e]) = take j es)
    by (intros j Hj; by rewrite take_app_le).
  assert (Hat : (es ++ [e]) !! length es = Some e) by apply list_lookup_middle, eq_refl.
  rewrite verify_snoc. destruct (verify_entries es) as [u|x].
  - destruct (check_entry _ _ _ e) as [[]|x] eqn:E.
    + apply check_entry_ok in E. intros i e' [Hi|(Hi & Heq)]%lookup_app_Some.
      * rewrite Htake by (apply lookup_lt_Some in Hi; lia). by apply IH.
      * apply list_lookup_singleton_Some in Heq as [? <-].
        replace i with (length es) by lia. by rewrite Htake, take_ge by lia.
    + apply check_entry_err in E as [Hn Hx]. exists (length es), e.
      rewrite Htake, take_ge by lia. do 3 (split; [done|]).
      intros j e' Hj Hl. rewrite lookup_app_l in Hl by lia. rewrite Htake by lia. by apply IH.
  - destruct IH as (i & e1 & Hi & Hn & Hx & Hb). exists i, e1.
    pose proof (lookup_lt_Some _ _ _ Hi).
    rewrite lookup_app_l, Htake by lia. do 3 (split; [done|]).
    intros j e' Hj Hl. rewrite lookup_app_l in Hl by lia. rewrite Htake by lia. by apply Hb.
Qed.

(** ** Proofs: tampering *)

(** Two entries at which SHA-256 collides. *)
Definition collision (es es' : list Entry) : Prop :=
  exists e e', e ∈ es /\ e' ∈ es' /\ entry_input e <> entry_input e'
    /\ sha256 (entry_input e) = sha256 (entry_input e').

Definition same_entry (e e' : Entry) : Prop := same_content e e' /\ e.(hash) = e'.(hash).

Lemma last_snoc_hash (es : list Entry) e : last_hash (es ++ [e]) = e.(hash).
Proof. unfold last_hash. by rewrite last_snoc. Qed.

Lemma collision_app es es' a b : collision es es' -> collision (es ++ a) (es' ++ b).
Proof.
  intros (e & e' & ? & ? & ?). exists e, e'. rewrite !elem_of_app. auto.
Qed.

Lemma chains_agree es :
  (forall m, sha256 m <> []) -> Forall entry_wf es -> chain es ->
  forall es', Forall entry_wf es' -> chain es' -> last_hash es = last_hash es' ->
  Forall2 same_entry es es' \/ collision es es'.
Proof.
  intros Hsha Hwf Hc. revert Hwf. induction Hc as [|es e Hc IH Hl]; intros Hwf es' Hwf' Hc' Hh.
  - destruct Hc' as [|es' e' _ (_ & _ & Hhash)]; [by left|].
    rewrite last_snoc_hash, Hhash in Hh. symmetry in Hh. by apply hex_nil, Hsha in Hh.
  - rewrite last_snoc_hash in Hh. destruct Hc' as [|es' e' Hc' Hl'].
    + destruct Hl as (_ & _ & Hhash). rewrite Hhash in Hh. by apply hex_nil, Hsha in Hh.
    + rewrite last_snoc_hash in Hh. apply Forall_app in Hwf as [Hwf [He _]%Forall_cons].
      apply Forall_app in Hwf' as [Hwf' [He' _]%Forall_cons].
      destruct Hl as (Hp & _ & Hx), Hl' as (Hp' & _ & Hx').
      assert (Hs : sha256 (entry_input e) = sha256 (entry_input e'))
        by (apply hex_inj; fold (entry_hash e) (entry_hash e'); congruence).
      destruct (decide (entry_input e = entry_input e')) as [Heq|Hne].
      * apply entry_input_inj in Heq; [|done..].
        assert (Hlast : last_hash es = last_hash es').
        { unfold last_hash. rewrite <- Hp, <- Hp'. by apply same_prev. }
        destruct (IH Hwf es' Hwf' Hc' Hlast) as [HF|HC]; [left|right; by apply collision_app].
        apply Forall2_app; [done|]. constructor; [by split|constructor].
      * right. exists e, e'. rewrite !elem_of_app, !list_elem_of_singleton. auto.
Qed.

(** C3: The chain is tamper evident: two logs that both verify and end in the same hash have
    the same length and agree entry by entry in identifier, number, time, links, actor,
    action, resource, details, severity, tenant and hash, unless two of their entries are a
    collision of SHA-256. So whoever keeps the last hash detects every change, removal,
    insertion or reordering before it. *)
Theorem tamper_evident es es'
    (Hsha : forall m, length (sha256 m) = 32%nat)
    (Hwf : Forall entry_wf es) (Hwf' : Forall entry_wf es')
    (Hv : verify_entries es = Ok tt) (Hv' : verify_entries es' = Ok tt)
    (Hlast : last_hash es = last_hash es') :
  Forall2 same_entry es es' \/ collision es es'.
Proof.
  apply chains_agree; try done; try (by apply verify_chain).
  intros m Hm. specialize (Hsha m). by rewrite Hm in Hsha.
Qed.

(** An absent tenant made an empty one. *)
Definition retag (e : Entry) : Entry :=
  {| id := e.(id); seq := e.(seq); timestamp := e.(timestamp); prev_hash := e.(prev_hash);
     hash := e.(hash); actor := e.(actor); action := e.(action); resource := e.(resource);
     details := e.(details); severity := e.(severity); tenant_id := Some (default [] e.(tenant_id)) |}.

Lemma verify_loop_retag es : forall i ep ls,
  verify_loop i ep ls (map retag es) = verify_loop i ep ls es.
Proof.
  induction es as [|e es IH]; intros i ep ls; [done|]. cbn [map].
  rewrite !verify_loop_cons, IH. done.
Qed.

Lemma verify_prefix es es' : verify_entries (es ++ es') = Ok tt -> verify_entries es = Ok tt.
Proof.
  induction es' as [|e es' IH] using rev_ind; [by rewrite app_nil_r|].
  rewrite app_assoc, verify_snoc. destruct (verify_entries (es ++ es')) as [[]|]; auto.
Qed.

(** What verification alone does not see: the newest entries can be cut off a log that
    verifies, at any point, and a missing tenant can be replaced by an empty one anywhere,
    without any effect on the result. *)
Theorem undetected_changes es :
  (verify_entries es = Ok tt -> forall n, verify_entries (take n es) = Ok tt)
  /\ verify_entries (map retag es) = verify_entries es.
Proof.
  split; [|apply verify_loop_retag]. intros Hv n.
  apply (verify_prefix _ (drop n es)). by rewrite take_drop.
Qed.

End AuditProofs.

(** ** Proofs: the log *)

Section LogProofs.
Context `{AuditEnv} {St : Type} (ops : AuditSink St).
Abbreviation Entry := (AuditEntry Json DateTime).
Abbreviation Log := (AuditLog St).

Definition next_after (es : list Entry) : Z :=
  match last es with Some e => wadd 64 e.(seq) 1 | None => 0 end.

Definition log_ok (log : Log) : Prop :=
  verify_entries log.(entries) = Ok tt /\ log.(next_seq) = next_after log.(entries).

(** The sequence counter has not reached its end. *)
Definition no_wrap (log : Log) : Prop :=
  forall e, last log.(entries) = Some e -> 0 <= e.(seq) /\ e.(seq) + 1 < 2 ^ 64.

Lemma build_entry_links r (log : Log) :
  log_ok log -> no_wrap log -> links (last log.(entries)) (build_entry r log).
Proof.
  intros [_ Hn] Hw. split; [done|]. split; [|done].
  intros p Hp. cbn. rewrite Hn. unfold next_after. rewrite Hp.
  destruct (Hw p Hp). rewrite wadd_small by lia. lia.
Qed.

Lemma push_entry_ok r (log : Log) sk :
  log_ok log -> no_wrap log -> log_ok (push_entry (build_entry r log) sk log).
Proof.
  intros Hok Hw. split.
  - apply verify_chain. constructor; [by apply verify_chain, Hok|by apply build_entry_links].
  - cbn [entries push_entry]. unfold next_after. by rewrite last_snoc.
Qed.

(** Where a log comes from and what happens to it; a failed append counts as a step. *)
Inductive log_start : Log -> Prop :=
  | start_new : log_start new
  | start_entries es log : from_entries es = Ok log -> log_start log
  | start_load s log : load ops s = Ok log -> log_start log
  | start_json j log : from_json j = Ok log -> log_start log.

Inductive log_step : Log -> Log -> Prop :=
  | step_append r log : no_wrap log -> log_step log (append ops r log).2
  | step_memory r log e log' : no_wrap log -> append_in_memory r log = Some (e, log') -> log_step log log'
  | step_sink s log : log_step log (with_sink s log).

Lemma from_entries_ok es log : from_entries es = Ok log -> log_ok log /\ log.(entries) = es /\ log.(sink) = @None St.
Proof.
  unfold from_entries. intros ([] & Hv & [= <-])%bind_ok_inv. by repeat split.
Qed.

Lemma log_start_ok log : log_start log -> log_ok log.
Proof.
  destruct 1 as [|es log E|s log E|j log E].
  - by split.
  - by apply from_entries_ok in E as [? _].
  - unfold load in E. apply bind_ok_inv in E as (es & _ & E).
    apply bind_ok_inv in E as (l & E & [= <-]). by apply from_entries_ok in E as [? _].
  - unfold from_json in E. destruct (entries_from_json j) as [es|]; [|done].
    destruct (from_entries es) as [l|] eqn:El; [|done]. injection E as <-.
    by apply from_entries_ok in El as [? _].
Qed.

(** An append adds the built entry, or fails and leaves the entries alone. *)
Lemma append_cases r log :
  match append ops r log with
  | (Ok e, log') => e = build_entry r log /\ exists sk, log' = push_entry e sk log
  | (Err _, log') => exists s, log' = with_sink s log
  end.
Proof.
  unfold append. destruct (sink log) as [s|]; [|eauto].
  destruct (sink_append ops _ s) as [[[]|x] s']; eauto.
Qed.

Lemma log_step_ok log log' :
  log_ok log -> log_step log log' -> log_ok log' /\ log.(entries) `prefix_of` log'.(entries).
Proof.
  intros Hok. destruct 1 as [r log Hw|r log e log' Hw E|s log].
  - pose proof (append_cases r log) as Hc. destruct (append ops r log) as [[e|x] log']; cbn.
    + destruct Hc as (-> & sk & ->). split; [by apply push_entry_ok|]. by exists [build_entry r log].
    + by destruct Hc as (s & ->).
  - unfold append_in_memory in E. destruct (sink log); [done|]. injection E as <- <-.
    split; [by apply push_entry_ok|]. by exists [build_entry r log].
  - done.
Qed.

(** The log keeps its chain: a log that was created empty or loaded from entries, a sink
    or JSON verifies after any appends, failed ones included, as long as the 64-bit
    sequence counter does not run out; and entries are only ever added at the end. *)
Theorem log_verifies log log' (Hs : log_start log) (Hr : star log_step log log') :
  verify log' = Ok tt /\ log.(entries) `prefix_of` log'.(entries).
Proof.
  apply log_start_ok in Hs.
  assert (log_ok log' /\ log.(entries) `prefix_of` log'.(entries)) as [[Hv _] Hp].
  { induction Hr as [|a b c Hab _ IH]; [done|].
    destruct (log_step_ok a b Hs Hab) as [Hb Hp]. destruct (IH Hb) as [Hc Hp'].
    split; [done|]. by transitivity (entries b). }
  split; [|done]. unfold verify. by rewrite Hv.
Qed.

(** ** The contract of a sink, and reloading a log from it *)

(** What the trait [AuditSink] asks of its implementations: a sink that holds entries gives
    them back in order, and a successful append adds one. *)
Class SinkContract (holds : St -> list Entry -> Prop) (good : Entry -> Prop) : Prop := {
  holds_iter s es : holds s es -> ops.(sink_iter) s = Ok es;
  holds_append s es e s' :
    holds s es -> good e -> ops.(sink_append) e s = (Ok tt, s') -> holds s' (es ++ [e])
}.

Context {holds : St -> list Entry -> Prop} {good : Entry -> Prop}.

(** Successful appends of entries the sink can store. *)
Inductive persisted_step : Log -> Log -> Prop :=
  | persisted r log e log' :
      no_wrap log -> good (build_entry r log) -> append ops r log = (Ok e, log') ->
      persisted_step log log'.

Definition in_step (log : Log) : Prop :=
  log_ok log /\ exists s, log.(sink) = Some s /\ holds s log.(entries).

Lemma persisted_step_in_step `{!SinkContract holds good} log log' :
  in_step log -> persisted_step log log' -> in_step log'.
Proof.
  intros (Hok & s & Hs & Hh). destruct 1 as [r log e log' Hw Hg E].
  unfold append in E. rewrite Hs in E.
  destruct (sink_append ops _ s) as [[[]|x] s'] eqn:Ea; [|done]. injection E as <- <-.
  split; [by apply push_entry_ok|]. exists s'. split; [done|]. by eapply holds_append.
Qed.

(** Reloading: a log that writes to a sink which keeps its contract, and whose appends
    all succeeded, is found again, whole, by [load] from that sink. *)
Theorem reload `{!SinkContract holds good} log log' s
    (Hok : log_ok log) (Hs : log.(sink) = Some s) (Hh : holds s log.(entries))
    (Hr : star persisted_step log log') :
  exists s', log'.(sink) = Some s' /\ load ops s' = Ok log'.
Proof.
  destruct (star_invariant persisted_step in_step log log') as (Hok' & s' & Hs' & Hh');
    [apply persisted_step_in_step|done|by split; eauto|].
  exists s'. split; [done|]. unfold load. rewrite (holds_iter _ _ Hh'). cbn.
  destruct Hok' as [Hv Hn]. unfold from_entries. rewrite Hv. cbn.
  destruct log'; cbn in *. by rewrite Hs', Hn.
Qed.

End LogProofs.

(** ** The sinks keep the contract *)

Section Sinks.
Context `{AuditEnv}.
Abbreviation Entry := (AuditEntry Json DateTime).

#[global] Instance in_memory_contract : SinkContract InMemoryAuditSink eq (fun _ => True).
Proof. by split; [intros ?? <-|intros ???? <- _ [= <-]]. Qed.

(** A line of the file for an entry: serde's text, which reads back as the entry, is one
    line of UTF-8 and not blank. *)
Record encodes (e : Entry) (l : list byte) : Prop := {
  enc_to : entry_to_json e = Ok l;
  enc_from : entry_from_json l = Ok e;
  enc_line : newline ∉ l;
  enc_cr : last l <> Some x0d;
  enc_utf8 : is_utf8 l = true;
  enc_text : blank l = false
}.

Definition storable (e : Entry) : Prop := exists l, encodes e l.

(** The file has one line per entry and can be read. *)
Definition file_holds (f : File) (es : list Entry) : Prop :=
  f.(read_error) = None
  /\ (f.(content) = None /\ es = []
      \/ exists ls, Forall2 encodes es ls /\ f.(content) = Some (concat (map (fun l => l ++ [newline]) ls))).

Lemma split_lines_line l r : newline ∉ l -> split_lines (l ++ newline :: r) = (l ++ [newline]) :: split_lines r.
Proof.
  induction l as [|b l IH]; cbn; [done|]. intros [Hb Hl]%not_elem_of_cons.
  rewrite bool_decide_false by congruence. by rewrite IH.
Qed.

Lemma chomp_line l : last l <> Some x0d -> chomp (l ++ [newline]) = l.
Proof.
  intros Hl. unfold chomp. rewrite rev_app_distr. cbn.
  destruct (rev l) as [|c r] eqn:E.
  - apply (f_equal (@rev byte)) in E. by rewrite rev_involutive in E.
  - assert (l = rev r ++ [c]) as -> by (rewrite <- (rev_involutive l), E; done).
    rewrite last_snoc in Hl. rewrite <- E. destruct c; by rewrite ?rev_involutive, ?rev_app_distr.
Qed.

Lemma read_line_entry e l out : encodes e l -> read_line l out = Ok (out ++ [e]).
Proof. intros [_ E _ _ Hu Ht]. unfold read_line. by rewrite Hu, Ht, E. Qed.

Lemma read_lines es ls out :
  Forall2 encodes es ls ->
  try_for (fun l out => read_line (chomp l) out)
    (split_lines (concat (map (fun l => l ++ [newline]) ls))) out = Ok (out ++ es).
Proof.
  intros HF. revert out. induction HF as [|e l es ls He _ IH]; intros out; cbn [map concat].
  - by rewrite app_nil_r.
  - rewrite <- app_assoc. cbn [app]. rewrite split_lines_line by apply He.
    rewrite try_for_cons, chomp_line by apply He. rewrite (read_line_entry e) by done.
    cbn. by rewrite IH, <- app_assoc.
Qed.

Lemma file_holds_iter f es : file_holds f es -> file_iter f = Ok es.
Proof.
  intros (Hr & [[Hc ->]|(ls & HF & Hc)]); unfold file_iter; rewrite Hc; [done|].
  rewrite Hr. by apply (read_lines es ls []).
Qed.

(** The content after one more line. *)
Lemma file_holds_line f es e l :
  file_holds f es -> encodes e l ->
  forall g, g.(read_error) = None -> g.(content) = Some (default [] f.(content) ++ l ++ [newline]) ->
  file_holds g (es ++ [e]).
Proof.
  intros (_ & Hf) He g Hg Hc. split; [done|]. right.
  destruct Hf as [[Hn ->]|(ls & HF & Hls)].
  - exists [l]. rewrite Hc, Hn. cbn. rewrite app_nil_r. auto.
  - exists (ls ++ [l]). split; [by apply Forall2_app; auto|].
    rewrite Hc, Hls. cbn. by rewrite map_app, concat_app; cbn; rewrite app_nil_r.
Qed.

#[global] Instance file_contract : SinkContract FileAuditSink file_holds storable.
Proof.
  split; [apply file_holds_iter|]. intros f es e f' Hf [l He]. cbn. unfold file_append.
  rewrite (enc_to _ _ He). destruct (fate f); intros [= <-].
  eapply file_holds_line; [done|done|apply Hf|done].
Qed.

(** A write whose [sync_data] fails is reported as an error but is in the file. *)
Lemma failed_sync_written f es e l x :
  file_holds f es -> encodes e l -> f.(fate) = SyncFails x ->
  exists f', file_append e f = (Err (Io x), f') /\ file_holds f' (es ++ [e]) /\ f'.(fate) = Completes.
Proof.
  intros Hf He Hx. unfold file_append. rewrite (enc_to _ _ He), Hx.
  eexists. split; [done|]. split; [|done]. eapply file_holds_line; [done|done|apply Hf|done].
Qed.

(** A failed sync spoils the file: when [sync_data] fails, [append] returns the error
    and the log keeps its entries, but the line is in the file; the next append, although
    it succeeds, writes a second entry with the same sequence number and link, and from
    then on loading the file fails. *)
Theorem failed_sync_breaks_file log f r r' x
    (Hs : log.(sink) = Some f) (Hf : file_holds f log.(entries)) (Hx : f.(fate) = SyncFails x)
    (Hr : storable (build_entry r log)) (Hr' : storable (build_entry r' log)) :
  exists log1 log2 f2 err,
    append FileAuditSink r log = (Err (Io x), log1) /\ log1.(entries) = log.(entries)
    /\ append FileAuditSink r' log1 = (Ok (build_entry r' log), log2)
    /\ log2.(sink) = Some f2 /\ load FileAuditSink f2 = Err err.
Proof.
  destruct Hr as [l Hl]. destruct Hr' as [l' Hl'].
  destruct (failed_sync_written f log.(entries) _ l x Hf Hl Hx) as (f1 & E1 & Hf1 & Hfate).
  assert (exists f2, file_append (build_entry r' log) f1 = (Ok tt, f2)
            /\ file_holds f2 ((log.(entries) ++ [build_entry r log]) ++ [build_entry r' log]))
    as (f2 & E2 & Hf2).
  { unfold file_append. rewrite (enc_to _ _ Hl'), Hfate. eexists. split; [done|].
    eapply file_holds_line; [done|done|apply Hf1|done]. }
  assert (exists err, verify_entries ((log.(entries) ++ [build_entry r log]) ++ [build_entry r' log])
            = Err err) as [err Herr].
  { destruct (verify_entries _) as [[]|err] eqn:E; [|eauto]. exfalso.
    apply verify_chain in E. inversion E as [|es e _ (_ & Hlt & _) Heq]; [by destruct (entries log)|].
    apply app_inj_tail in Heq as [-> ->]. rewrite last_snoc in Hlt.
    specialize (Hlt _ eq_refl). cbn in Hlt. lia. }
  exists (with_sink f1 log), (push_entry (build_entry r' log) (Some f2) (with_sink f1 log)), f2, err.
  unfold append. cbn [sink with_sink]. rewrite Hs. cbn [sink_append FileAuditSink].
  change (build_entry r' (with_sink f1 log)) with (build_entry r' log).
  rewrite E1, E2. do 4 (split; [done|]).
  unfold load. cbn [sink_iter FileAuditSink]. rewrite (file_holds_iter _ _ Hf2). cbn.
  unfold from_entries. by rewrite Herr.
Qed.

End Sinks.

(** ** Runs *)

Module AuditExamples.

(** A stand-in digest, and lines that name an entry by its number. *)
Definition digest (m : list byte) : list byte := take 32 (drop 29 m ++ repeat x00 32).

#[local] Instance toy0 : AuditEnv := {|
  Json := unit; DateTime := unit; sha256 := digest;
  json_string _ := ascii "null"; to_rfc3339 _ := ascii "2024-01-01T00:00:00+00:00";
  entry_to_json e := Ok [x7b; z2b (48 + e.(seq)); x7d];
  entry_from_json _ := Err [];
  entries_from_json _ := Err []
|}.

Definition req_of {E : AuditEnv} (t : @DateTime E) (d : @Json E) : request :=
  {| r_id := [x61]; r_timestamp := t; r_actor := ascii "admin"; r_action := ascii "login";
     r_resource := ascii "host"; r_details := d; r_severity := Info; r_tenant_id := None |}.

Definition e0 : AuditEntry unit unit := build_entry (@req_of toy0 tt tt) (St := unit) new.
Definition e1 : AuditEntry unit unit := build_entry (@req_of toy0 tt tt) (push_entry e0 (@None unit) new).

#[local] Instance toy : AuditEnv := {|
  Json := unit; DateTime := unit; sha256 := digest;
  json_string _ := ascii "null"; to_rfc3339 _ := ascii "2024-01-01T00:00:00+00:00";
  entry_to_json e := Ok [x7b; z2b (48 + e.(seq)); x7d];
  entry_from_json l :=
    if bool_decide (l = ascii "{0}") then Ok e0
    else if bool_decide (l = ascii "{1}") then Ok e1 else Err [];
  entries_from_json _ := Err []
|}.

Definition req : @request toy := req_of tt tt.

Lemma digest_length m : length (digest m) = 32%nat.
Proof. unfold digest. rewrite length_take, length_app, repeat_length. lia. Qed.

Lemma entry_wf_e0 : @entry_wf toy e0.
Proof. by split. Qed.
Lemma entry_wf_e1 : @entry_wf toy e1.
Proof. by split. Qed.
Lemma entry_wf_retag (e : AuditEntry (@Json toy) (@DateTime toy)) : entry_wf e -> entry_wf (retag e).
Proof. intros []. by split. Qed.

Lemma tamper_evident_witness :
  let es := [e0; e1] : list (AuditEntry (@Json toy) (@DateTime toy)) in Forall2 same_entry es (map retag es) \/ collision es (map retag es).
Proof.
  apply (@tamper_evident toy [e0; e1] (map (@retag toy) [e0; e1]) digest_length).
  - repeat constructor; by (apply entry_wf_e0 || apply entry_wf_e1).
  - repeat constructor; apply entry_wf_retag; by (apply entry_wf_e0 || apply entry_wf_e1).
  - vm_compute. reflexivity.
  - vm_compute. reflexivity.
  - reflexivity.
Defined.

Definition disk (c : option (list byte)) (x : io_fate) : File :=
  {| content := c; read_error := None; fate := x |}.
Definition log0 (x : io_fate) : AuditLog File := with_sink (disk None x) new.

Lemma enc_e0 : @storable toy e0.
Proof. exists (ascii "{0}"). split; try (vm_compute; reflexivity); vm_compute; [set_solver|done]. Qed.
Lemma enc_e1 : @storable toy e1.
Proof. exists (ascii "{1}"). split; try (vm_compute; reflexivity); vm_compute; [set_solver|done]. Qed.

Definition log1 : AuditLog File := (append FileAuditSink req (log0 Completes)).2.
Definition log2 : AuditLog File := (append FileAuditSink req log1).2.

Definition room (log : AuditLog File) : bool :=
  match last log.(entries) with Some e => (0 <=? e.(seq)) && (e.(seq) + 1 <? 2 ^ 64) | None => true end.
Lemma room_no_wrap log : room log = true -> no_wrap log.
Proof. unfold room, no_wrap. intros Hr e He. rewrite He in Hr. bool_prop. lia. Qed.

Lemma log_verifies_witness : verify log2 = Ok tt /\ [] `prefix_of` log2.(entries).
Proof.
  apply (@log_verifies toy File FileAuditSink new log2); [constructor|].
  apply (star_step _ _ (log0 Completes)); [constructor|].
  apply (star_step _ _ log1); [apply (step_append FileAuditSink req (log0 Completes))|].
  - apply room_no_wrap. reflexivity.
  - apply star_one, (step_append FileAuditSink req log1), room_no_wrap. vm_compute. reflexivity.
Defined.

Lemma reload_witness : exists s, log2.(sink) = Some s /\ load FileAuditSink s = Ok log2.
Proof.
  apply (@reload toy File FileAuditSink file_holds storable file_contract (log0 Completes) log2 (disk None Completes)).
  - by split.
  - reflexivity.
  - split; [reflexivity|]. by left.
  - apply (star_step _ _ log1).
    + apply (persisted FileAuditSink req (log0 Completes) e0 log1);
        [apply room_no_wrap; reflexivity|apply enc_e0|vm_compute; reflexivity].
    + apply star_one, (persisted FileAuditSink req log1 e1 log2);
        [apply room_no_wrap; vm_compute; reflexivity|apply enc_e1|vm_compute; reflexivity].
Defined.

Lemma failed_sync_breaks_file_witness :
  exists l1 l2 f2 err,
    append FileAuditSink req (log0 (SyncFails [])) = (Err (Io []), l1)
    /\ append FileAuditSink req l1 = (Ok e0, l2)
    /\ l2.(sink) = Some f2 /\ load FileAuditSink f2 = Err err.
Proof.
  destruct (@failed_sync_breaks_file toy (log0 (SyncFails [])) (disk None (SyncFails [])) req req [])
    as (l1 & l2 & f2 & err & H1 & _ & H2 & H3 & H4).
  - reflexivity.
  - split; [reflexivity|]. by left.
  - reflexivity.
  - apply enc_e0.
  - apply enc_e0.
  - exists l1, l2, f2, err. exact (conj H1 (conj H2 (conj H3 H4))).
Defined.

Lemma undetected_changes_witness : verify_entries (take 1 log2.(entries)) = Ok tt.
Proof.
  refine (proj1 (@undetected_changes toy log2.(entries)) _ 1%nat). vm_compute. reflexivity.
Defined.

End AuditExamples.
