(* ===== verification/Jobs.v ===== *)
(** * Agent jobs ([runesh-jobs/src/task.rs, executor.rs])

    Tasks, the queue with its idempotency keys, and the executor with its allowlist and
    verifier, for a Unix build ([cfg!(windows)] is false; [macos] tells macOS from the
    others). The JSON parameters of a task are the interface [JsonValue]; starting a
    process is the argument [os]; every execution also gives the processes it started.
    The back-off delays (floating-point [powi] and random jitter) are not modelled. *)
From S2P Require Import Prelude Str Utf8.

#[local] Open Scope Z_scope.

(** [serde_json::Value] and the accessors the executor uses. *)
Class JsonValue := {
  Value : Type;
  json_get : str -> Value -> option Value;
  as_str : Value -> option str;
  as_array : Value -> option (list Value);
  as_u64 : Value -> option Z
}.

Inductive TaskType : Type :=
  | CollectInventory | RunCommand | RunScript | InstallPackage | RemovePackage
  | StartService | StopService | RestartService | ApplyBaseline | CheckCompliance
  | SelfUpdate | RotateNodeKey | DiagnosticBundle | ScheduleReboot
  | Custom (name : str).

Inductive TaskStatus : Type := Queued | Running | Completed | Failed | Cancelled | Skipped.

#[global] Instance task_type_eq_dec : EqDecision TaskType.
Proof. solve_decision. Defined.
#[global] Instance task_status_eq_dec : EqDecision TaskStatus.
Proof. solve_decision. Defined.

(** [RetryPolicy] without its back-off strategy. *)
Record RetryPolicy := { max_retries : Z; retry_count : Z; delay_secs : Z }.

Section Jobs.
Context `{JsonValue}.

Record TaskResult := {
  exit_code : Z;
  stdout : str;
  stderr : str;
  data : option Value;
  duration_ms : Z
}.

Record AgentTask := {
  id : str;
  idempotency_key : option str;
  task_type : TaskType;
  params : Value;
  status : TaskStatus;
  retry : RetryPolicy;
  timeout_secs : Z;
  task_result : option TaskResult
}.

Definition set_status (st : TaskStatus) (t : AgentTask) : AgentTask :=
  {| id := t.(id); idempotency_key := t.(idempotency_key); task_type := t.(task_type);
     params := t.(params); status := st; retry := t.(retry); timeout_secs := t.(timeout_secs);
     task_result := t.(task_result) |}.
Definition set_result (r : TaskResult) (t : AgentTask) : AgentTask :=
  {| id := t.(id); idempotency_key := t.(idempotency_key); task_type := t.(task_type);
     params := t.(params); status := t.(status); retry := t.(retry);
     timeout_secs := t.(timeout_secs); task_result := Some r |}.
Definition set_retry (r : RetryPolicy) (t : AgentTask) : AgentTask :=
  {| id := t.(id); idempotency_key := t.(idempotency_key); task_type := t.(task_type);
     params := t.(params); status := t.(status); retry := r;
     timeout_secs := t.(timeout_secs); task_result := t.(task_result) |}.

(** ** The life of a task *)

Definition can_retry (t : AgentTask) : bool :=
  bool_decide (t.(status) = Failed) && (t.(retry).(retry_count) <? t.(retry).(max_retries)).

Definition start (t : AgentTask) : AgentTask := set_status Running t.

Definition complete (r : TaskResult) (t : AgentTask) : AgentTask :=
  set_result r (set_status (if r.(exit_code) =? 0 then Completed else Failed) t).

Definition record_retry (t : AgentTask) : AgentTask :=
  set_retry {| max_retries := t.(retry).(max_retries);
               retry_count := wadd 32 t.(retry).(retry_count) 1;
               delay_secs := t.(retry).(delay_secs) |} t.

(** ** The queue *)

(** Instants and the window are in one unit of time. *)
Record TaskQueue := {
  tasks : list AgentTask;
  seen_keys : gmap str Z;
  idempotency_window : Z
}.

Definition with_idempotency_window (w : Z) : TaskQueue :=
  {| tasks := []; seen_keys := ∅; idempotency_window := w |}.

(** [TaskQueue::default], in seconds. *)
Definition default_queue : TaskQueue := with_idempotency_window 86400.

Definition with_tasks (ts : list AgentTask) (q : TaskQueue) : TaskQueue :=
  {| tasks := ts; seen_keys := q.(seen_keys); idempotency_window := q.(idempotency_window) |}.
Definition with_keys (m : gmap str Z) (q : TaskQueue) : TaskQueue :=
  {| tasks := q.(tasks); seen_keys := m; idempotency_window := q.(idempotency_window) |}.

(** [duration_since] saturates at zero. *)
Definition fresh (now seen_at w : Z) : bool := sat_sub now seen_at <? w.

Definition evict_expired_keys (cutoff : Z) (q : TaskQueue) : TaskQueue :=
  with_keys (filter (fun kv => fresh cutoff kv.2 q.(idempotency_window) = true) q.(seen_keys)) q.

(** The three readings of the clock are arguments. *)
Definition enqueue (cutoff probe stamp : Z) (task : AgentTask) (q0 : TaskQueue) : bool * TaskQueue :=
  let q := evict_expired_keys cutoff q0 in
  let accept q := (true, with_tasks (q.(tasks) ++ [set_status Queued task]) q) in
  match task.(idempotency_key) with
  | Some key =>
      match q.(seen_keys) !! key with
      | Some seen_at =>
          if fresh probe seen_at q.(idempotency_window)
          then (false, with_tasks (q.(tasks) ++ [set_status Skipped task]) q)
          else accept (with_keys (<[key := stamp]> q.(seen_keys)) q)
      | None => accept (with_keys (<[key := stamp]> q.(seen_keys)) q)
      end
  | None => accept q
  end.

Definition idempotency_key_count (q : TaskQueue) : nat := size q.(seen_keys).

Definition count_status (st : TaskStatus) (q : TaskQueue) : nat :=
  length (filter (fun t => t.(status) = st) q.(tasks)).
Definition pending_count (q : TaskQueue) : nat := count_status Queued q.
Definition completed_count (q : TaskQueue) : nat := count_status Completed q.

(** [next_pending]: the place of the task the reference points to. *)
Definition next_pending (q : TaskQueue) : option (nat * AgentTask) :=
  list_find (fun t => t.(status) = Queued) q.(tasks).

(** A change through that reference. *)
Definition update_task (i : nat) (f : AgentTask -> AgentTask) (q : TaskQueue) : TaskQueue :=
  with_tasks (alter f i q.(tasks)) q.

Definition finished (t : AgentTask) : bool :=
  bool_decide (t.(status) = Completed) || bool_decide (t.(status) = Failed).

Fixpoint retain_finished (completed max_completed : Z) (ts : list AgentTask) : list AgentTask :=
  match ts with
  | [] => []
  | t :: r =>
      if finished t
      then let completed := completed + 1 in
           if completed <=? max_completed then t :: retain_finished completed max_completed r
           else retain_finished completed max_completed r
      else t :: retain_finished completed max_completed r
  end.

Definition prune (max_completed : Z) (q : TaskQueue) : TaskQueue :=
  with_tasks (retain_finished 0 max_completed q.(tasks)) q.

(** ** The executor *)

(** [PathBuf] on Unix compares by components: a leading slash, then the parts between
    slashes without empty ones and without [.], which counts only as the first part of a
    relative path. *)
Definition path_part (s : str) : bool := negb (bool_decide (s = [])) && negb (bool_decide (s = [c_dot])).

Definition components (p : str) : bool * list str :=
  let rooted := starts_with [c_slash] p in
  let parts := split c_slash p in
  let body := filter (fun s => path_part s = true) parts in
  (rooted,
   match parts with
   | first :: _ => if negb rooted && bool_decide (first = [c_dot]) then first :: body else body
   | [] => body
   end).

(** [CommandAllowlist]: the set, as the list of the paths inserted. *)
Record CommandAllowlist := { allowed : list str }.

Definition allow_empty : CommandAllowlist := {| allowed := [] |}.
Definition from_paths (ps : list str) : CommandAllowlist := {| allowed := ps |}.
Definition allow (p : str) (al : CommandAllowlist) : CommandAllowlist := {| allowed := al.(allowed) ++ [p] |}.

Definition len (al : CommandAllowlist) : nat := length (remove_dups (map components al.(allowed))).
Definition is_empty (al : CommandAllowlist) : bool := bool_decide (al.(allowed) = []).

Definition is_allowed (command : str) (al : CommandAllowlist) : bool :=
  if bool_decide (al.(allowed) = []) then false
  else existsb (fun p => bool_decide (components p = components command)) al.(allowed).

Inductive VerifyError : Type :=
  | ScriptsDisabled
  | NotAllowlisted (s : str)
  | Other (s : str).

(** [Display for VerifyError]. *)
Definition verify_error_string (e : VerifyError) : str :=
  match e with
  | ScriptsDisabled => lit "scripts are disabled by policy"
  | NotAllowlisted s => lit "binary not on allowlist: " ++ s
  | Other s => lit "rejected by policy: " ++ s
  end.

(** The trait [TaskVerifier]. *)
Definition TaskVerifier : Type := AgentTask -> result VerifyError unit.

Definition RejectScripts : TaskVerifier := fun task =>
  if bool_decide (task.(task_type) = RunScript) then Err ScriptsDisabled else Ok tt.
Definition NullVerifier : TaskVerifier := fun _ => Ok tt.

(** A process to start, and what becomes of it. *)
Record Spawn := { command : str; args : list str; working_dir : option str }.

Inductive outcome : Type :=
  | Exited (code : option Z) (out err : list byte)
  | ProcessError (e : str)
  | SpawnError (e : str)
  | TimedOut.

(** Which process was started, if any, and the result. *)
Definition execution : Type := list Spawn * TaskResult.

Definition failure (msg : str) (ms : Z) : TaskResult :=
  {| exit_code := -1; stdout := []; stderr := msg; data := None; duration_ms := ms |}.

Section Executor.
(** The host: macOS or another Unix, which files exist, what becomes of a started process
    and how long (in milliseconds) it took; and [Debug] of a string. *)
Context (macos : bool) (path_exists : str -> bool) (os : Spawn -> Z -> outcome * Z)
        (debug_str : str -> str).

Definition execute_command (cmd : str) (argv : list str) (timeout : Z) (dir : option str) : execution :=
  let sp := {| command := cmd; args := argv; working_dir := dir |} in
  let '(o, ms) := os sp timeout in
  ([sp],
   match o with
   | Exited code out err =>
       {| exit_code := default (-1) code; stdout := from_utf8_lossy out;
          stderr := from_utf8_lossy err; data := None; duration_ms := ms |}
   | ProcessError e => failure (lit "process error: " ++ e) ms
   | SpawnError e => failure (lit "spawn error: " ++ e) ms
   | TimedOut => failure (lit "timeout after " ++ show_uint timeout ++ lit "s") ms
   end).

Definition execute_command_guarded (al : CommandAllowlist) (cmd : str) (argv : list str) (timeout : Z)
    (dir : option str) : execution :=
  if negb (is_allowed cmd al)
  then ([], failure (lit "command " ++ cmd ++ lit " not on allowlist") 0)
  else execute_command cmd argv timeout dir.

(** The inner function [run] of [execute_task_inner]. *)
Definition run (allowlist : option CommandAllowlist) (cmd : str) (argv : list str) (timeout : Z)
    (dir : option str) : execution :=
  match allowlist with
  | Some al => execute_command_guarded al cmd argv timeout dir
  | None => execute_command cmd argv timeout dir
  end.

Definition no_manager (package : str) : str * list str :=
  (lit "echo", [lit "no package manager found for " ++ package]).

Definition platform_pkg_install (package : str) : str * list str :=
  if macos then (lit "brew", [lit "install"; package])
  else if path_exists (lit "/usr/bin/apt-get") then (lit "apt-get", [lit "install"; lit "-y"; package])
  else if path_exists (lit "/usr/bin/dnf") then (lit "dnf", [lit "install"; lit "-y"; package])
  else if path_exists (lit "/usr/bin/pacman") then (lit "pacman", [lit "-S"; lit "--noconfirm"; package])
  else no_manager package.

Definition platform_pkg_remove (package : str) : str * list str :=
  if macos then (lit "brew", [lit "uninstall"; package])
  else if path_exists (lit "/usr/bin/apt-get") then (lit "apt-get", [lit "remove"; lit "-y"; package])
  else if path_exists (lit "/usr/bin/dnf") then (lit "dnf", [lit "remove"; lit "-y"; package])
  else if path_exists (lit "/usr/bin/pacman") then (lit "pacman", [lit "-R"; lit "--noconfirm"; package])
  else no_manager package.

Definition platform_svc_action (service action : str) : str * list str :=
  if macos then
    let launchctl_action :=
      if bool_decide (action = lit "start") then lit "load"
      else if bool_decide (action = lit "stop") then lit "unload"
      else if bool_decide (action = lit "restart") then lit "kickstart"
      else action in
    (lit "launchctl", [launchctl_action; service])
  else (lit "systemctl", [action; service]).

Definition platform_reboot (delay : Z) : str * list str :=
  let minutes := Z.max (delay / 60) 1 in
  (lit "shutdown", [lit "-r"; c_plus :: show_uint minutes]).

(** A string parameter of the task. *)
Definition param_str (name : str) (task : AgentTask) : option str :=
  json_get name task.(params) ≫= as_str.

(** [{:?}] of the task type. *)
Definition debug_task_type (t : TaskType) : str :=
  match t with
  | CollectInventory => lit "CollectInventory" | RunCommand => lit "RunCommand"
  | RunScript => lit "RunScript" | InstallPackage => lit "InstallPackage"
  | RemovePackage => lit "RemovePackage" | StartService => lit "StartService"
  | StopService => lit "StopService" | RestartService => lit "RestartService"
  | ApplyBaseline => lit "ApplyBaseline" | CheckCompliance => lit "CheckCompliance"
  | SelfUpdate => lit "SelfUpdate" | RotateNodeKey => lit "RotateNodeKey"
  | DiagnosticBundle => lit "DiagnosticBundle" | ScheduleReboot => lit "ScheduleReboot"
  | Custom s => lit "Custom(" ++ debug_str s ++ lit ")"
  end.

Definition execute_task_inner (task : AgentTask) (allowlist : option CommandAllowlist) : execution :=
  let timeout := task.(timeout_secs) in
  let run_pair '(cmd, argv) := run allowlist cmd argv timeout None in
  match task.(task_type) with
  | RunCommand =>
      let cmd := default [] (param_str (lit "command") task) in
      let argv := default [] (filter_map as_str <$> (json_get (lit "args") task.(params) ≫= as_array)) in
      run allowlist cmd argv timeout (param_str (lit "working_dir") task)
  | RunScript =>
      let script := default [] (param_str (lit "script") task) in
      let interp := default (lit "/bin/sh") (param_str (lit "interpreter") task) in
      run allowlist interp [lit "-c"; script] timeout None
  | InstallPackage => run_pair (platform_pkg_install (default [] (param_str (lit "package") task)))
  | RemovePackage => run_pair (platform_pkg_remove (default [] (param_str (lit "package") task)))
  | StartService => run_pair (platform_svc_action (default [] (param_str (lit "service") task)) (lit "start"))
  | StopService => run_pair (platform_svc_action (default [] (param_str (lit "service") task)) (lit "stop"))
  | RestartService =>
      run_pair (platform_svc_action (default [] (param_str (lit "service") task)) (lit "restart"))
  | ScheduleReboot =>
      run_pair (platform_reboot (default 60 (json_get (lit "delay_secs") task.(params) ≫= as_u64)))
  | t => ([], failure (lit "task type " ++ debug_task_type t ++ lit " not implemented in executor") 0)
  end.

Definition execute_task (task : AgentTask) : execution := execute_task_inner task None.
Definition execute_task_with_policy (task : AgentTask) (al : CommandAllowlist) : execution :=
  execute_task_inner task (Some al).

Record Executor := { allowlist : CommandAllowlist; verifier : TaskVerifier }.

Definition with_allowlist (al : CommandAllowlist) : Executor :=
  {| allowlist := al; verifier := RejectScripts |}.
Definition with_verifier (v : TaskVerifier) (ex : Executor) : Executor :=
  {| allowlist := ex.(allowlist); verifier := v |}.

Definition execute (task : AgentTask) (ex : Executor) : execution :=
  match ex.(verifier) task with
  | Err e => ([], failure (lit "verifier rejected task: " ++ verify_error_string e) 0)
  | Ok _ => execute_task_with_policy task ex.(allowlist)
  end.

End Executor.
End Jobs.

(** ** Proofs: the queue *)

Section QueueProofs.
Context `{JsonValue}.

(** Runs of a queue: the keyed tasks it accepted, with the stamps of their keys, and the
    latest time it has seen. Everything but [enqueue] leaves the keys alone. *)
Inductive queue_run (w : Z) : list (str * Z) -> Z -> TaskQueue -> Prop :=
  | run_new now : queue_run w [] now (with_idempotency_window w)
  | run_enqueue hist now q cutoff probe stamp task r q' :
      queue_run w hist now q ->
      now <= cutoff <= probe -> probe <= stamp ->
      enqueue cutoff probe stamp task q = (r, q') ->
      queue_run w
        (match task.(idempotency_key) with
         | Some k => if r then (k, stamp) :: hist else hist
         | None => hist
         end) stamp q'
  | run_update hist now q i f : queue_run w hist now q -> queue_run w hist now (update_task i f q)
  | run_prune hist now q n : queue_run w hist now q -> queue_run w hist now (prune n q).

(** The keys are stamps of accepted tasks; an accepted task's key is still there, with its
    stamp or a later one, or the window has passed. *)
Definition keys_inv (w : Z) (hist : list (str * Z)) (now : Z) (m : gmap str Z) : Prop :=
  (forall k s, m !! k = Some s -> (k, s) ∈ hist)
  /\ (forall k s, (k, s) ∈ hist -> s <= now /\ ((exists s', m !! k = Some s' /\ s <= s') \/ w <= now - s)).

Lemma fresh_spec now s w : s <= now -> fresh now s w = true <-> now - s < w.
Proof. unfold fresh, sat_sub. intros Hs. rewrite Z.ltb_lt. lia. Qed.

Lemma evict_lookup cutoff q k s :
  (evict_expired_keys cutoff q).(seen_keys) !! k = Some s
  <-> q.(seen_keys) !! k = Some s /\ fresh cutoff s q.(idempotency_window) = true.
Proof. cbn. apply map_lookup_filter_Some. Qed.

Lemma evict_inv w hist now cutoff q :
  keys_inv w hist now q.(seen_keys) -> q.(idempotency_window) = w -> now <= cutoff ->
  keys_inv w hist cutoff (evict_expired_keys cutoff q).(seen_keys).
Proof.
  intros [Hm Hh] Hw Hle. split.
  - intros k s [Hk _]%evict_lookup. by apply Hm.
  - intros k s Hin. destruct (Hh k s Hin) as [Hs Hcase]. split; [lia|].
    destruct Hcase as [(s' & Hk & Hss)|Hold]; [|right; lia].
    destruct (fresh cutoff s' w) eqn:Hf.
    + left. exists s'. rewrite evict_lookup, Hw. auto.
    + right. destruct (Hh k s' (Hm k s' Hk)) as [Hs' _].
      destruct (Z_lt_dec (cutoff - s') w) as [Hlt|]; [|lia].
      apply fresh_spec in Hlt; [congruence|lia].
Qed.

Lemma insert_inv w hist now m k stamp :
  keys_inv w hist now m -> now <= stamp -> keys_inv w ((k, stamp) :: hist) stamp (<[k := stamp]> m).
Proof.
  intros [Hm Hh] Hle. split.
  - intros k' s [[<- <-]|[_ Hk]]%lookup_insert_Some; [by left|]. right. by apply Hm.
  - intros k' s [[= -> ->]|Hin]%elem_of_cons.
    + split; [lia|]. left. exists stamp. by rewrite lookup_insert_eq.
    + destruct (Hh k' s Hin) as [Hs Hcase]. split; [lia|].
      destruct (decide (k = k')) as [<-|Hne].
      * left. exists stamp. rewrite lookup_insert_eq. split; [done|lia].
      * destruct Hcase as [(s' & Hk & ?)|]; [|right; lia].
        left. exists s'. by rewrite lookup_insert_ne.
Qed.

Lemma keys_inv_later w hist now now' m : keys_inv w hist now m -> now <= now' -> keys_inv w hist now' m.
Proof.
  intros [Hm Hh] Hle. split; [done|]. intros k s Hin. destruct (Hh k s Hin) as [? [?|?]].
  - split; [lia|]. by left.
  - split; [lia|]. right; lia.
Qed.

(** What [enqueue] does to the keys. *)
Lemma enqueue_cases cutoff probe stamp task q :
  let m := (evict_expired_keys cutoff q).(seen_keys) in
  let '(r, q') := enqueue cutoff probe stamp task q in
  q'.(idempotency_window) = q.(idempotency_window)
  /\ q'.(tasks) = q.(tasks) ++ [set_status (if r then Queued else Skipped) task]
  /\ match task.(idempotency_key) with
     | None => r = true /\ q'.(seen_keys) = m
     | Some k =>
         r = (match m !! k with Some s => negb (fresh probe s q.(idempotency_window)) | None => true end)
         /\ q'.(seen_keys) = if r then <[k := stamp]> m else m
     end.
Proof.
  unfold enqueue. destruct (idempotency_key task) as [k|]; [|done].
  destruct (seen_keys (evict_expired_keys cutoff q) !! k) as [s|]; [|done].
  change (idempotency_window (evict_expired_keys cutoff q)) with (idempotency_window q).
  by destruct (fresh probe s _).
Qed.

Lemma queue_run_inv w hist now q :
  queue_run w hist now q -> q.(idempotency_window) = w /\ keys_inv w hist now q.(seen_keys).
Proof.
  induction 1 as [now|hist now q c p st task r q' _ [Hw Hi] Hc Hp E|hist now q i f _ IH|hist now q n _ IH];
    [|..|done|done].
  - split; [done|]. split; intros k s Hin; cbn in Hin; [by rewrite lookup_empty in Hin|by apply elem_of_nil in Hin].
  - pose proof (enqueue_cases c p st task q) as Hcases. cbv zeta in Hcases. rewrite E in Hcases.
    destruct Hcases as (Hw' & _ & Hk). split; [congruence|].
    assert (Hev : keys_inv w hist c (evict_expired_keys c q).(seen_keys)) by (eapply evict_inv; eauto; lia).
    destruct (idempotency_key task) as [k|].
    + destruct Hk as [_ ->]. destruct r.
      * eapply insert_inv; [done|lia].
      * eapply keys_inv_later; [done|lia].
    + destruct Hk as [_ ->]. eapply keys_inv_later; [done|lia].
Qed.

(** Idempotency keys work: in every run of a queue, with clock readings in order, a task
    is accepted exactly when it has no key or the idempotency window has passed since every
    earlier accepted task with its key; either way it is recorded at the end of the list, as
    queued or as skipped. In particular, eviction of expired keys never lets a duplicate in. *)
Theorem enqueue_idempotent w hist now q cutoff probe stamp task
    (Hrun : queue_run w hist now q) (Hc : now <= cutoff <= probe) (Hp : probe <= stamp) :
  let '(r, q') := enqueue cutoff probe stamp task q in
  (r = true <-> forall k s, task.(idempotency_key) = Some k -> (k, s) ∈ hist -> w <= probe - s)
  /\ q'.(tasks) = q.(tasks) ++ [set_status (if r then Queued else Skipped) task].
Proof.
  destruct (queue_run_inv w hist now q Hrun) as [Hw Hi].
  assert (Hev : keys_inv w hist cutoff (evict_expired_keys cutoff q).(seen_keys))
    by (eapply evict_inv; eauto; lia).
  pose proof (enqueue_cases cutoff probe stamp task q) as Hcases. cbv zeta in Hcases.
  destruct (enqueue cutoff probe stamp task q) as [r q'].
  destruct Hcases as (_ & Ht & Hk). split; [|done].
  destruct (idempotency_key task) as [k|]; [|by destruct Hk as [-> _]].
  destruct Hk as [-> _]. rewrite Hw. destruct Hev as [Hm Hh].
  destruct (seen_keys (evict_expired_keys cutoff q) !! k) as [s0|] eqn:Hk0.
  - destruct (Hh k s0 (Hm k s0 Hk0)) as [Hs0 _].
    rewrite negb_true_iff, <- not_true_iff_false, fresh_spec by lia. split.
    + intros Hn k' s [= <-] Hin. destruct (Hh k s Hin) as [_ [(s' & Hs' & ?)|]]; [|lia].
      assert (s' = s0) as -> by congruence. lia.
    + intros Hall. specialize (Hall k s0 eq_refl (Hm k s0 Hk0)). lia.
  - split; [|done]. intros _ k' s [= <-] Hin.
    destruct (Hh k s Hin) as [_ [(s' & Hs' & ?)|]]; [congruence|lia].
Qed.

Lemma retain_finished_spec n max ts :
  0 <= n ->
  filter (fun t => finished t = true) (retain_finished n max ts)
  = take (Z.to_nat (max - n)) (filter (fun t => finished t = true) ts)
  /\ filter (fun t => finished t = false) (retain_finished n max ts)
     = filter (fun t => finished t = false) ts.
Proof.
  revert n. induction ts as [|t ts IH]; intros n Hn; cbn [retain_finished].
  - by rewrite !filter_nil, take_nil.
  - destruct (finished t) eqn:Hf.
    + destruct (IH (n + 1) ltac:(lia)) as [IH1 IH2].
      destruct (Z.leb_spec (n + 1) max).
      * rewrite !filter_cons_True, !filter_cons_False, IH1, IH2 by congruence.
        replace (Z.to_nat (max - n)) with (S (Z.to_nat (max - (n + 1)))) by lia. done.
      * rewrite IH1, IH2. rewrite !filter_cons_True, !filter_cons_False by congruence.
        replace (Z.to_nat (max - (n + 1))) with 0%nat by lia.
        by replace (Z.to_nat (max - n)) with 0%nat by lia.
    + destruct (IH n Hn) as [IH1 IH2].
      by rewrite !(filter_cons_False (fun t => finished t = true)), !filter_cons_True, IH1, IH2 by congruence.
Qed.

(** Pruning keeps the oldest results: of the finished tasks exactly the first ones, in the
    order they were enqueued, up to the limit, stay, and every newer one is dropped; tasks
    that are not finished are all kept. *)
Theorem prune_keeps_oldest max q (Hmax : 0 <= max) :
  filter (fun t => finished t = true) (prune max q).(tasks)
  = take (Z.to_nat max) (filter (fun t => finished t = true) q.(tasks))
  /\ filter (fun t => finished t = false) (prune max q).(tasks)
     = filter (fun t => finished t = false) q.(tasks).
Proof.
  cbn. destruct (retain_finished_spec 0 max q.(tasks)) as [H1 H2]; [done|].
  rewrite H1, H2. by rewrite Z.sub_0_r.
Qed.

End QueueProofs.

(** ** Proofs: the executor *)

Section ExecutorProofs.
Context `{JsonValue} (macos : bool) (path_exists : str -> bool) (os : Spawn -> Z -> outcome * Z)
        (debug_str : str -> str).

Lemma is_allowed_spec cmd al :
  is_allowed cmd al = true <-> exists p, p ∈ al.(allowed) /\ components p = components cmd.
Proof.
  unfold is_allowed. case_bool_decide as Hnil.
  - split; [done|]. intros (p & Hp & _). rewrite Hnil in Hp. by apply elem_of_nil in Hp.
  - rewrite existsb_elem. split; intros (p & Hp & Hc); exists p; (split; [done|]); by bool_prop || by apply bool_decide_eq_true.
Qed.

(** What the result of a started process is. *)
Definition process_result (timeout : Z) (o : outcome * Z) : TaskResult :=
  match o with
  | (Exited code out err, ms) =>
      {| exit_code := default (-1) code; stdout := from_utf8_lossy out;
         stderr := from_utf8_lossy err; data := None; duration_ms := ms |}
  | (ProcessError e, ms) => failure (lit "process error: " ++ e) ms
  | (SpawnError e, ms) => failure (lit "spawn error: " ++ e) ms
  | (TimedOut, ms) => failure (lit "timeout after " ++ show_uint timeout ++ lit "s") ms
  end.

(** The process a task stands for. *)
Definition spawn_of (task : AgentTask) : option Spawn :=
  let str_param name := default [] (param_str name task) in
  let plain '(c, a) := Some {| command := c; args := a; working_dir := None |} in
  match task.(task_type) with
  | RunCommand =>
      Some {| command := str_param (lit "command");
              args := default [] (filter_map as_str <$> (json_get (lit "args") task.(params) ≫= as_array));
              working_dir := param_str (lit "working_dir") task |}
  | RunScript =>
      plain (default (lit "/bin/sh") (param_str (lit "interpreter") task), [lit "-c"; str_param (lit "script")])
  | InstallPackage => plain (platform_pkg_install macos path_exists (str_param (lit "package")))
  | RemovePackage => plain (platform_pkg_remove macos path_exists (str_param (lit "package")))
  | StartService => plain (platform_svc_action macos (str_param (lit "service")) (lit "start"))
  | StopService => plain (platform_svc_action macos (str_param (lit "service")) (lit "stop"))
  | RestartService => plain (platform_svc_action macos (str_param (lit "service")) (lit "restart"))
  | ScheduleReboot => plain (platform_reboot (default 60 (json_get (lit "delay_secs") task.(params) ≫= as_u64)))
  | _ => None
  end.

Lemma run_spec al s timeout :
  let '(sps, r) := run os al s.(command) s.(args) timeout s.(working_dir) in
  let ok := match al with Some al => is_allowed s.(command) al | None => true end in
  sps = (if ok then [s] else [])
  /\ (if ok then r = process_result timeout (os s timeout) else r.(exit_code) = -1).
Proof.
  destruct s as [c a d]. unfold run, execute_command_guarded, execute_command. cbn.
  destruct al as [al|]; [destruct (is_allowed c al); cbn; [|done]|];
    destruct (os _ timeout) as [[] ms]; done.
Qed.

Lemma execute_task_inner_spec task al :
  let '(sps, r) := execute_task_inner macos path_exists os debug_str task al in
  match spawn_of task with
  | Some s =>
      let ok := match al with Some al => is_allowed s.(command) al | None => true end in
      sps = (if ok then [s] else [])
      /\ (if ok then r = process_result task.(timeout_secs) (os s task.(timeout_secs)) else r.(exit_code) = -1)
  | None => sps = [] /\ r.(exit_code) = -1
  end.
Proof.
  unfold execute_task_inner, spawn_of. destruct (task_type task); try done;
    repeat match goal with
    | |- context [platform_pkg_install ?m ?e ?p] => destruct (platform_pkg_install m e p)
    | |- context [platform_pkg_remove ?m ?e ?p] => destruct (platform_pkg_remove m e p)
    | |- context [platform_svc_action ?m ?p ?a] => destruct (platform_svc_action m p a)
    | |- context [platform_reboot ?d] => destruct (platform_reboot d)
    end;
    match goal with
    | |- context [run os al ?c ?a ?t ?d] =>
        exact (run_spec al {| command := c; args := a; working_dir := d |} t)
    end.
Qed.

(** The executor keeps its policy: it starts at most one process, and does so exactly when
    the verifier accepts the task, the task type stands for a process and its program equals,
    path component by path component, an entry of the allowlist; the result is then that
    process's, and otherwise a failure with exit code -1. With the default verifier no
    script is ever run. *)
Theorem execute_policy task ex :
  let '(sps, r) := execute macos path_exists os debug_str task ex in
  (forall s, s ∈ sps <->
     ex.(verifier) task = Ok tt /\ spawn_of task = Some s
     /\ exists p, p ∈ ex.(allowlist).(allowed) /\ components p = components s.(command))
  /\ (length sps <= 1)%nat
  /\ (forall s, s ∈ sps -> r = process_result task.(timeout_secs) (os s task.(timeout_secs)))
  /\ (sps = [] -> r.(exit_code) = -1)
  /\ (ex = with_allowlist ex.(allowlist) -> task.(task_type) = RunScript -> sps = []).
Proof.
  unfold execute. destruct (verifier ex task) as [[]|e] eqn:Hv.
  2: { split; [|split; [cbn; lia|split; [|done]]]; intros s.
       - rewrite elem_of_nil. split; [done|]. by intros (? & _).
       - by rewrite elem_of_nil. }
  assert (Hscript : ex = with_allowlist (allowlist ex) -> task_type task = RunScript -> False).
  { intros Hex Ht. rewrite Hex in Hv. cbn in Hv. unfold RejectScripts in Hv.
    by rewrite bool_decide_true in Hv. }
  pose proof (execute_task_inner_spec task (Some (allowlist ex))) as Hs.
  unfold execute_task_with_policy. destruct (execute_task_inner _ _ _ _ _ _) as [sps r].
  destruct (spawn_of task) as [s0|].
  - pose proof (is_allowed_spec (command s0) (allowlist ex)) as Ha.
    destruct (is_allowed (command s0) (allowlist ex)); destruct Hs as [-> Hr].
    + split; [|split; [done|split; [|split; [done|by intros H1 H2; destruct (Hscript H1 H2)]]]].
      * intros s. rewrite list_elem_of_singleton. split; [intros ->|by intros (_ & [= <-] & _)].
        by repeat split; [..|apply Ha].
      * by intros s ->%list_elem_of_singleton.
    + split; [|split; [cbn; lia|split; [|done]]]; intros s; rewrite elem_of_nil; [|done].
      split; [done|]. intros (_ & [= <-] & Hp). by apply Ha in Hp.
  - destruct Hs as [-> Hr]. split; [|split; [cbn; lia|split; [|done]]]; intros s; rewrite elem_of_nil; [|done].
    split; [done|]. by intros (_ & ? & _).
Qed.

End ExecutorProofs.

(** ** Runs *)

Module JobExamples.

(** String parameters only. *)
#[local] Instance strings_json : JsonValue := {|
  Value := list (str * str);
  json_get k v := (fun kv => [([], kv.2)]) <$> List.find (fun kv => bool_decide (kv.1 = k)) v;
  as_str v := match v with [([], s)] => Some s | _ => None end;
  as_array _ := None;
  as_u64 _ := None
|}.

Definition job (key : option str) (st : TaskStatus) (name : str) : AgentTask :=
  {| id := name; idempotency_key := key; task_type := RunCommand;
     params := [(lit "command", lit "/usr/bin/./id")]; status := st;
     retry := {| max_retries := 3; retry_count := 0; delay_secs := 30 |};
     timeout_secs := 300; task_result := None |}.

Definition queue1 : TaskQueue :=
  (enqueue 100 100 101 (job (Some (lit "k")) Running (lit "a")) (with_idempotency_window 60)).2.

Lemma queue1_run : queue_run 60 [(lit "k", 101)] 101 queue1.
Proof.
  eapply (run_enqueue 60 [] 0 (with_idempotency_window 60) 100 100 101 (job (Some (lit "k")) Running (lit "a")) true);
    [constructor|lia|lia|reflexivity].
Qed.

Lemma enqueue_idempotent_witness :
  let '(r, q') := enqueue 130 130 131 (job (Some (lit "k")) Running (lit "b")) queue1 in
  (r = true <-> forall k s, Some (lit "k") = Some k -> (k, s) ∈ [(lit "k", 101)] -> 60 <= 130 - s)
  /\ q'.(tasks) = queue1.(tasks) ++ [set_status (if r then Queued else Skipped) (job (Some (lit "k")) Running (lit "b"))].
Proof.
  apply (enqueue_idempotent 60 [(lit "k", 101)] 101 queue1 130 130 131
           (job (Some (lit "k")) Running (lit "b")) queue1_run); lia.
Defined.

Definition done_jobs : TaskQueue :=
  with_tasks [job None Completed (lit "old"); job None Failed (lit "new")] default_queue.

Lemma prune_keeps_oldest_witness :
  filter (fun t => finished t = true) (prune 1 done_jobs).(tasks) = [job None Completed (lit "old")].
Proof.
  rewrite (proj1 (prune_keeps_oldest 1 done_jobs ltac:(lia))). reflexivity.
Defined.

(** A path that names the allowed program in another way is accepted. *)
Lemma allowed_run :
  (execute false (fun _ => false) (fun _ _ => (Exited (Some 0) [] [], 1)) (fun s => s)
     (job None Queued (lit "id")) (with_allowlist (from_paths [lit "/usr/bin/id"]))).1
  = [{| command := lit "/usr/bin/./id"; args := []; working_dir := None |}].
Proof. vm_compute. reflexivity. Qed.

End JobExamples.
