(* ===== verification/Stun.v ===== *)
(** * STUN ([runesh-stun/src/client.rs, lib.rs])

    Binding requests and responses, the retransmission loop and the choice of a connection
    method. Reading a byte or a slice out of range panics in the source; the parser is in
    the option monad, [None] standing for a panic. DNS, sockets and the random transaction
    identifier are arguments. *)
From S2P Require Import Prelude Str Net Bytes.

#[local] Open Scope Z_scope.

Inductive StunError : Type :=
  | Timeout
  | ServerError (s : str)
  | StunIo (e : str).

Inductive NatType : Type :=
  | NoNat | FullCone | RestrictedCone | PortRestricted | Symmetric | Unknown.

Inductive ConnectionMethod : Type := Direct | HolePunch | HolePunchWithRelay | Relay.

Definition connection_strategy (local_nat remote_nat : NatType) : ConnectionMethod :=
  match local_nat, remote_nat with
  | NoNat, _ | _, NoNat => Direct
  | FullCone, _ | _, FullCone => Direct
  | Symmetric, Symmetric => Relay
  | Symmetric, _ | _, Symmetric => HolePunchWithRelay
  | _, _ => HolePunch
  end.

Definition MAGIC_COOKIE : Z := 0x2112A442.
Definition BINDING_REQUEST : Z := 0x0001.
Definition BINDING_RESPONSE : Z := 0x0101.
Definition ATTR_XOR_MAPPED_ADDRESS : Z := 0x0020.
Definition ATTR_MAPPED_ADDRESS : Z := 0x0001.

(** The request for a transaction identifier of 12 bytes. *)
Definition build_binding_request (txn_id : list byte) : list byte :=
  [z2b (Z.shiftr BINDING_REQUEST 8); z2b (Z.land BINDING_REQUEST 0xFF); x00; x00;
   z2b (Z.shiftr MAGIC_COOKIE 24); z2b (Z.shiftr MAGIC_COOKIE 16); z2b (Z.shiftr MAGIC_COOKIE 8);
   z2b (Z.land MAGIC_COOKIE 0xFF)] ++ txn_id.

Definition xor_bytes (a b : list byte) : list byte :=
  zip_with (fun x y => z2b (Z.lxor (b2z x) (b2z y))) a b.

Definition unknown_family {A} (family : byte) : result StunError A :=
  Err (ServerError (lit "unknown address family: " ++ show_uint (b2z family))).

Definition parse_xor_mapped_address (data txn_id : list byte) : option (result StunError SocketAddr) :=
  if (length data <? 8)%nat then Some (Err (ServerError (lit "XOR-MAPPED-ADDRESS too short")))
  else
    family ← data !! 1%nat;
    xport ← u16_at data 2;
    let port := Z.lxor xport (Z.shiftr MAGIC_COOKIE 16) in
    if b2z family =? 1 then
      xaddr ← u32_at data 4;
      Some (Ok {| sa_ip := V4 (Z.lxor xaddr MAGIC_COOKIE); sa_port := port |})
    else if b2z family =? 2 then
      if (length data <? 20)%nat then Some (Err (ServerError (lit "IPv6 address too short")))
      else
        let mask := to_be 4 MAGIC_COOKIE ++ txn_id in
        octets ← slice data 4 20;
        Some (Ok {| sa_ip := V6 (from_be (xor_bytes octets mask)); sa_port := port |})
    else Some (unknown_family family).

Definition parse_mapped_address (data : list byte) : option (result StunError SocketAddr) :=
  if (length data <? 8)%nat then Some (Err (ServerError (lit "MAPPED-ADDRESS too short")))
  else
    family ← data !! 1%nat;
    port ← u16_at data 2;
    if b2z family =? 1 then
      addr ← u32_at data 4;
      Some (Ok {| sa_ip := V4 addr; sa_port := port |})
    else if b2z family =? 2 then
      if (length data <? 20)%nat then Some (Err (ServerError (lit "IPv6 MAPPED-ADDRESS too short")))
      else
        octets ← slice data 4 20;
        Some (Ok {| sa_ip := V6 (from_be octets); sa_port := port |})
    else Some (unknown_family family).

(** [(n + 3) & !3]. *)
Definition pad4 (n : nat) : nat := Z.to_nat (Z.land (Z.of_nat n + 3) (Z.lnot 3)).

Definition no_address {A} : result StunError A := Err (ServerError (lit "no MAPPED-ADDRESS in response")).

Definition fails {E A} (r : result E A) : result (fault E) A :=
  match r with Ok a => Ok a | Err e => Err (Fails e) end.

(** The loop over the attributes; every round advances by at least four bytes. *)
Fixpoint attr_loop (fuel : nat) (data txn_id : list byte) (msg_len offset : nat)
    : option (result (fault StunError) SocketAddr) :=
  match fuel with
  | O => Some (Err OutOfFuel)
  | S fuel =>
      if (offset + 4 <=? 20 + msg_len)%nat then
        attr_type ← u16_at data offset;
        attr_len ← u16_at data (offset + 2);
        let attr_len := Z.to_nat attr_len in
        let offset := (offset + 4)%nat in
        if (length data <? offset + attr_len)%nat then Some (fails no_address)
        else if attr_type =? ATTR_XOR_MAPPED_ADDRESS then
          value ← slice data offset (offset + attr_len);
          r ← parse_xor_mapped_address value txn_id;
          Some (fails r)
        else if attr_type =? ATTR_MAPPED_ADDRESS then
          value ← slice data offset (offset + attr_len);
          r ← parse_mapped_address value;
          Some (fails r)
        else attr_loop fuel data txn_id msg_len (offset + pad4 attr_len)
      else Some (fails no_address)
  end.

Definition server_error {A} (s : str) : option (result (fault StunError) A) :=
  Some (Err (Fails (ServerError s))).

Definition parse_binding_response (data expected_txn_id : list byte)
    : option (result (fault StunError) SocketAddr) :=
  if (length data <? 20)%nat then server_error (lit "response too short")
  else
    msg_type ← u16_at data 0;
    if negb (msg_type =? BINDING_RESPONSE) then
      server_error (lit "unexpected message type: 0x" ++ hex02 (msg_type / 256) ++ hex02 (msg_type mod 256))
    else
      cookie ← u32_at data 4;
      if negb (cookie =? MAGIC_COOKIE) then server_error (lit "bad magic cookie")
      else
        txn ← slice data 8 20;
        if negb (bool_decide (txn = expected_txn_id)) then server_error (lit "transaction ID mismatch")
        else
          msg_len ← u16_at data 2;
          let msg_len := Z.to_nat msg_len in
          if (length data <? 20 + msg_len)%nat then server_error (lit "truncated response")
          else attr_loop (S (length data)) data expected_txn_id msg_len 20.

(** ** The probe *)

Definition RETRANSMIT_INITIAL_MS : Z := 500.
Definition RETRANSMIT_MAX_MS : Z := 1600.
Definition RETRANSMIT_MAX_COUNT : Z := 7.

(** The state of the loop of [stun_binding_request]; times are in milliseconds. *)
Record probe := {
  deadline : Z;
  next_rto_ms : Z;
  next_retransmit : Z;
  retransmit_count : Z;
  requests : nat                (* requests sent *)
}.

Definition start_probe (now timeout : Z) : probe :=
  {| deadline := now + timeout; next_rto_ms := RETRANSMIT_INITIAL_MS;
     next_retransmit := now + RETRANSMIT_INITIAL_MS; retransmit_count := 0; requests := 1 |}.

(** What the wait of one round ends with: a datagram, an error of the socket, or the timer at
    [now1]; a retransmission that succeeds ends at [now2], or fails. *)
Inductive wait_event : Type :=
  | Datagram (peer : SocketAddr) (data : list byte)
  | RecvError (e : str)
  | Elapsed (now1 : Z) (send : result str Z).

Inductive round_result : Type :=
  | Again (p : probe)
  | Response (data : list byte)
  | Gives (e : StunError).

Definition round (server : SocketAddr) (now : Z) (ev : wait_event) (p : probe) : round_result :=
  if p.(deadline) <=? now then Gives Timeout
  else
    match ev with
    | Datagram peer data => if bool_decide (peer = server) then Response data else Again p
    | RecvError e => Gives (StunIo e)
    | Elapsed now1 send =>
        if p.(deadline) <=? now1 then Gives Timeout
        else if RETRANSMIT_MAX_COUNT <=? p.(retransmit_count) then
          Again {| deadline := p.(deadline); next_rto_ms := p.(next_rto_ms);
                   next_retransmit := p.(deadline); retransmit_count := p.(retransmit_count);
                   requests := p.(requests) |}
        else
          let rto := Z.min (Z.min (p.(next_rto_ms) * 2) (2 ^ 64 - 1)) RETRANSMIT_MAX_MS in
          match send with
          | Err e => Gives (StunIo e)
          | Ok now2 =>
              Again {| deadline := p.(deadline); next_rto_ms := rto; next_retransmit := now2 + rto;
                       retransmit_count := p.(retransmit_count) + 1; requests := S p.(requests) |}
          end
    end.

(** After the loop. *)
Record StunResult := {
  mapped_address : SocketAddr;
  local_address : SocketAddr;
  nat_type : NatType;
  rtt_ms : Z
}.

Definition finish_probe (data txn_id : list byte) (local_addr : SocketAddr) (rtt : Z)
    : option (result (fault StunError) StunResult) :=
  r ← parse_binding_response data txn_id;
  Some (mapped ← r;
        Ok {| mapped_address := mapped; local_address := local_addr;
              nat_type := if bool_decide (mapped.(sa_ip) = local_addr.(sa_ip)) then NoNat else Unknown;
              rtt_ms := rtt |}).

(** ** Proofs: no panic *)

Lemma parse_xor_total d txn : is_Some (parse_xor_mapped_address d txn).
Proof.
  unfold parse_xor_mapped_address. destruct (Nat.ltb_spec (length d) 8); [done|].
  destruct (byte_at_some d 1) as [f ->]; [lia|]. destruct (u16_at_some d 2) as (x & -> & _); [lia|].
  cbn [mbind option_bind]. case_if.
  - destruct (u32_at_some d 4) as (z & -> & _); [lia|done].
  - case_if; [|done]. destruct (Nat.ltb_spec (length d) 20); [done|].
    destruct (slice_some d 4 20) as (s & -> & _); [lia|done].
Qed.

Lemma parse_mapped_total d : is_Some (parse_mapped_address d).
Proof.
  unfold parse_mapped_address. destruct (Nat.ltb_spec (length d) 8); [done|].
  destruct (byte_at_some d 1) as [f ->]; [lia|]. destruct (u16_at_some d 2) as (x & -> & _); [lia|].
  cbn [mbind option_bind]. case_if.
  - destruct (u32_at_some d 4) as (z & -> & _); [lia|done].
  - case_if; [|done]. destruct (Nat.ltb_spec (length d) 20); [done|].
    destruct (slice_some d 4 20) as (s & -> & _); [lia|done].
Qed.

(** Ends without a panic and within its fuel. *)
Definition returns {A} (x : option (result (fault StunError) A)) : Prop :=
  exists r, x = Some r /\ r <> Err OutOfFuel.

Lemma fails_returns {A} (r : result StunError A) : returns (Some (fails r)).
Proof. exists (fails r). split; [done|]. by destruct r. Qed.

Lemma attr_loop_total fuel d txn n offset :
  (20 + n <= length d)%nat -> (0 < fuel)%nat -> (20 + n < fuel + offset)%nat ->
  returns (attr_loop fuel d txn n offset).
Proof.
  intros Hn. revert offset. induction fuel as [|fuel IH]; intros offset H0 Hf; [lia|]; cbn [attr_loop].
  destruct (Nat.leb_spec (offset + 4) (20 + n)); [|apply (fails_returns no_address)].
  destruct (u16_at_some d offset) as (t & -> & _); [lia|].
  destruct (u16_at_some d (offset + 2)) as (l & -> & _); [lia|]. cbn [mbind option_bind]. cbv zeta.
  destruct (Nat.ltb_spec (length d) (offset + 4 + Z.to_nat l)); [apply (fails_returns no_address)|].
  case_if; [|case_if].
  - destruct (slice_some d (offset + 4) (offset + 4 + Z.to_nat l)) as (s & -> & _); [lia|]. cbn [mbind option_bind].
    destruct (parse_xor_total s txn) as [r ->]. apply fails_returns.
  - destruct (slice_some d (offset + 4) (offset + 4 + Z.to_nat l)) as (s & -> & _); [lia|]. cbn [mbind option_bind].
    destruct (parse_mapped_total s) as [r ->]. apply fails_returns.
  - apply IH; lia.
Qed.

Lemma server_error_returns {A} s : returns (A := A) (server_error s).
Proof. by eexists. Qed.

(** The response parser is safe on every datagram: it never reads out of bounds, its
    loop ends, and an address is only taken from a datagram with the type, the cookie and
    the transaction identifier of an answer to this request. *)
Theorem parse_binding_response_safe data txn :
  returns (parse_binding_response data txn)
  /\ (forall addr, parse_binding_response data txn = Some (Ok addr) ->
        take 2 data = to_be 2 BINDING_RESPONSE /\ take 4 (drop 4 data) = to_be 4 MAGIC_COOKIE
        /\ take 12 (drop 8 data) = txn).
Proof.
  unfold parse_binding_response. destruct (Nat.ltb_spec (length data) 20); [by split; [eexists|]|].
  destruct (u16_at_some data 0) as (t & Et & _); [lia|]. destruct (u16_at_some data 2) as (n & En & _); [lia|].
  destruct (u32_at_some data 4) as (c & Ec & _); [lia|].
  destruct (slice_some data 8 20) as (x & Ex & _); [lia|].
  rewrite Et, En, Ec, Ex. cbn [mbind option_bind].
  destruct (Z.eqb_spec t BINDING_RESPONSE) as [->|]; cbn [negb]; [|by split; [eexists|]].
  destruct (Z.eqb_spec c MAGIC_COOKIE) as [->|]; cbn [negb]; [|by split; [eexists|]].
  case_bool_decide as Htxn; cbn [negb]; [|by split; [eexists|]]. subst x.
  destruct (Nat.ltb_spec (length data) (20 + Z.to_nat n)); [by split; [eexists|]|].
  split; [apply attr_loop_total; lia|]. intros addr _.
  split; [by apply (u16_at_bytes data 0)|]. split; [by apply u32_at_bytes|].
  unfold slice in Ex. case_if; [|done]. by injection Ex.
Qed.

(** ** Proofs: answers are understood *)

(** An attribute as RFC 5389 lays it out, padded to four bytes. *)
Definition encode_attr (attr : Z * list byte) : list byte :=
  let '(t, v) := attr in
  to_be 2 t ++ to_be 2 (Z.of_nat (length v)) ++ v ++ repeat x00 (pad4 (length v) - length v).

Definition encode_response (txn body : list byte) : list byte :=
  to_be 2 BINDING_RESPONSE ++ to_be 2 (Z.of_nat (length body)) ++ to_be 4 MAGIC_COOKIE ++ txn ++ body.

(** XOR-MAPPED-ADDRESS and MAPPED-ADDRESS of an address. *)
Definition xor_value (txn : list byte) (a : SocketAddr) : list byte :=
  let xport := to_be 2 (Z.lxor a.(sa_port) (Z.shiftr MAGIC_COOKIE 16)) in
  match a.(sa_ip) with
  | V4 ip => x00 :: x01 :: xport ++ to_be 4 (Z.lxor ip MAGIC_COOKIE)
  | V6 ip => x00 :: x02 :: xport ++ xor_bytes (to_be 16 ip) (to_be 4 MAGIC_COOKIE ++ txn)
  end.
Definition plain_value (a : SocketAddr) : list byte :=
  match a.(sa_ip) with
  | V4 ip => x00 :: x01 :: to_be 2 a.(sa_port) ++ to_be 4 ip
  | V6 ip => x00 :: x02 :: to_be 2 a.(sa_port) ++ to_be 16 ip
  end.

Definition addr_wf (a : SocketAddr) : Prop :=
  is_u 16 a.(sa_port) /\ match a.(sa_ip) with V4 ip => is_u 32 ip | V6 ip => is_u 128 ip end.

Lemma pad4_spec n : (n <= pad4 n)%nat /\ pad4 n = (4 * ((n + 3) / 4))%nat.
Proof.
  assert (E : pad4 n = (4 * ((n + 3) / 4))%nat).
  { unfold pad4. rewrite <- Z.ldiff_land. change 3 with (Z.ones 2) at 2.
    rewrite Z.ldiff_ones_r by lia. rewrite Z.shiftl_mul_pow2, Z.shiftr_div_pow2 by lia.
    change (2 ^ 2) with 4. apply Nat2Z.inj. rewrite Z2Nat.id by (apply Z.mul_nonneg_nonneg; [apply Z.div_pos|]; lia).
    rewrite Nat2Z.inj_mul, Nat2Z.inj_div, Nat2Z.inj_add. lia. }
  split; [|done]. rewrite E. pose proof (Nat.div_mod (n + 3) 4). pose proof (Nat.mod_upper_bound (n + 3) 4). lia.
Qed.

Lemma xor_bytes_involutive a b : (length a <= length b)%nat -> xor_bytes (xor_bytes a b) b = a.
Proof.
  revert b. induction a as [|x a IH]; intros [|y b] Hl; cbn in *; try done; [lia|].
  unfold xor_bytes in IH |- *. cbn. rewrite IH by lia. f_equal.
  assert (Hx : is_u 8 (Z.lxor (b2z x) (b2z y))) by (apply lxor_range; [lia|apply b2z_range..]).
  rewrite b2z_z2b, Z.mod_small by exact Hx.
  by rewrite Z.lxor_assoc, Z.lxor_nilpotent, Z.lxor_0_r, z2b_b2z.
Qed.

Lemma length_xor_bytes a b : (length a <= length b)%nat -> length (xor_bytes a b) = length a.
Proof. intros Hl. unfold xor_bytes. rewrite length_zip_with. lia. Qed.

Lemma cookie_wf : is_u 32 MAGIC_COOKIE /\ is_u 16 (Z.shiftr MAGIC_COOKIE 16).
Proof. by vm_compute. Qed.

Lemma lxor_twice a b : Z.lxor (Z.lxor a b) b = a.
Proof. by rewrite Z.lxor_assoc, Z.lxor_nilpotent, Z.lxor_0_r. Qed.

Lemma parse_xor_value txn a :
  addr_wf a -> length txn = 12%nat -> parse_xor_mapped_address (xor_value txn a) txn = Some (Ok a).
Proof.
  destruct a as [[ip|ip] port]; intros [Hp Hip] Hl; cbn [sa_ip sa_port] in *; unfold xor_value; cbn [sa_ip sa_port];
    destruct cookie_wf as [Hc Hc16];
    (assert (Hxp : is_u 16 (Z.lxor port (Z.shiftr MAGIC_COOKIE 16))) by (apply lxor_range; [lia|done..])).
  - unfold parse_xor_mapped_address. rewrite !length_cons, length_app, !length_to_be.
    cbn [Nat.add Nat.ltb Nat.leb lookup list_lookup mbind option_bind].
    pose proof (u16_at_app [x00; x01] _ (to_be 4 (Z.lxor ip MAGIC_COOKIE)) Hxp) as E2.
    cbn [length app] in E2. rewrite E2. cbn [mbind option_bind].
    change (b2z x01 =? 1) with true. cbn iota.
    pose proof (u32_at_app (x00 :: x01 :: to_be 2 (Z.lxor port (Z.shiftr MAGIC_COOKIE 16)))
                  (Z.lxor ip MAGIC_COOKIE) []) as E.
    rewrite app_nil_r in E. cbn [length app to_be] in E |- *. rewrite E by (by apply lxor_range).
    cbn [mbind option_bind]. by rewrite !lxor_twice.
  - set (mask := to_be 4 MAGIC_COOKIE ++ txn). set (o := to_be 16 ip).
    assert (Ho : length o = 16%nat) by apply length_to_be.
    assert (Hm : length mask = 16%nat) by (unfold mask; rewrite length_app, length_to_be; lia).
    assert (Hx : length (xor_bytes o mask) = 16%nat)
      by (rewrite length_xor_bytes; lia).
    unfold parse_xor_mapped_address. rewrite !length_cons, length_app, length_to_be, Hx.
    cbn [Nat.add Nat.ltb Nat.leb lookup list_lookup mbind option_bind].
    pose proof (u16_at_app [x00; x02] _ (xor_bytes o mask) Hxp) as E2.
    cbn [length app] in E2. rewrite E2. cbn [mbind option_bind].
    change (b2z x02 =? 1) with false. change (b2z x02 =? 2) with true. cbn iota. cbv zeta. fold mask.
    pose proof (slice_app (x00 :: x02 :: to_be 2 (Z.lxor port (Z.shiftr MAGIC_COOKIE 16)))
                  (xor_bytes o mask) [] 16 (eq_sym Hx)) as E.
    rewrite app_nil_r in E. cbn [length app to_be Nat.add] in E |- *. rewrite E. cbn [mbind option_bind].
    rewrite xor_bytes_involutive by lia.
    unfold o. rewrite from_be_to_be, lxor_twice by exact Hip. done.
Qed.

Lemma parse_plain_value a : addr_wf a -> parse_mapped_address (plain_value a) = Some (Ok a).
Proof.
  destruct a as [[ip|ip] port]; intros [Hp Hip]; cbn [sa_ip sa_port] in *; unfold plain_value; cbn [sa_ip sa_port].
  - unfold parse_mapped_address. rewrite !length_cons, length_app, !length_to_be.
    cbn [Nat.add Nat.ltb Nat.leb lookup list_lookup mbind option_bind].
    pose proof (u16_at_app [x00; x01] _ (to_be 4 ip) Hp) as E2. cbn [length app] in E2. rewrite E2.
    cbn [mbind option_bind]. change (b2z x01 =? 1) with true. cbn iota.
    pose proof (u32_at_app (x00 :: x01 :: to_be 2 port) ip [] Hip) as E.
    rewrite app_nil_r in E. cbn [length app to_be] in E |- *. by rewrite E.
  - set (o := to_be 16 ip). assert (Ho : length o = 16%nat) by apply length_to_be.
    unfold parse_mapped_address. rewrite !length_cons, length_app, length_to_be, Ho.
    cbn [Nat.add Nat.ltb Nat.leb lookup list_lookup mbind option_bind].
    pose proof (u16_at_app [x00; x02] _ o Hp) as E2. cbn [length app] in E2. rewrite E2.
    cbn [mbind option_bind]. change (b2z x02 =? 1) with false. change (b2z x02 =? 2) with true. cbn iota.
    pose proof (slice_app (x00 :: x02 :: to_be 2 port) o [] 16 (eq_sym Ho)) as E.
    rewrite app_nil_r in E. cbn [length app to_be Nat.add] in E |- *. rewrite E. cbn [mbind option_bind].
    unfold o. by rewrite from_be_to_be by exact Hip.
Qed.

(** One attribute at the current offset. *)
Lemma attr_loop_step fuel pre t v rest txn n :
  is_u 16 t -> Z.of_nat (length v) < 2 ^ 16 -> (length pre + 4 <= 20 + n)%nat ->
  attr_loop (S fuel) (pre ++ encode_attr (t, v) ++ rest) txn n (length pre)
  = if t =? ATTR_XOR_MAPPED_ADDRESS then r ← parse_xor_mapped_address v txn; Some (fails r)
    else if t =? ATTR_MAPPED_ADDRESS then r ← parse_mapped_address v; Some (fails r)
    else attr_loop fuel (pre ++ encode_attr (t, v) ++ rest) txn n (length (pre ++ encode_attr (t, v))).
Proof.
  intros Ht Hv Hn. destruct (pad4_spec (length v)) as [Hpad _]. unfold encode_attr.
  set (z := repeat x00 (pad4 (length v) - length v)).
  set (l := Z.of_nat (length v)) in *.
  set (d := pre ++ (to_be 2 t ++ to_be 2 l ++ v ++ z) ++ rest).
  assert (Hd1 : d = pre ++ to_be 2 t ++ (to_be 2 l ++ v ++ z ++ rest)) by (unfold d; by rewrite <- !app_assoc).
  assert (Hd2 : d = (pre ++ to_be 2 t) ++ to_be 2 l ++ (v ++ z ++ rest)) by (unfold d; by rewrite <- !app_assoc).
  assert (Hd3 : d = (pre ++ to_be 2 t ++ to_be 2 l) ++ v ++ (z ++ rest)) by (unfold d; by rewrite <- !app_assoc).
  assert (Hl2 : length (pre ++ to_be 2 t) = (length pre + 2)%nat) by (by rewrite length_app, length_to_be).
  assert (Hl3 : length (pre ++ to_be 2 t ++ to_be 2 l) = (length pre + 4)%nat)
    by (rewrite !length_app, !length_to_be; lia).
  assert (Hlen : length d = (length pre + 4 + length v + length z + length rest)%nat)
    by (rewrite Hd3, !length_app, !length_to_be; lia).
  assert (E1 : u16_at d (length pre) = Some t) by (rewrite Hd1; by apply u16_at_app).
  assert (E2 : u16_at d (length pre + 2) = Some l)
    by (rewrite Hd2, <- Hl2; apply u16_at_app; unfold is_u, l in *; lia).
  assert (E3 : slice d (length pre + 4) (length pre + 4 + length v) = Some v)
    by (rewrite Hd3, <- Hl3; by apply slice_app).
  cbn [attr_loop]. rewrite (proj2 (Nat.leb_le _ _) Hn), E1. cbn [mbind option_bind]. rewrite E2.
  cbn [mbind option_bind]. cbv zeta. unfold l at 1 2 3 4 5. rewrite Nat2Z.id.
  rewrite (proj2 (Nat.ltb_ge _ _)) by lia. rewrite E3.
  case_if; [done|]. case_if; [done|]. f_equal.
  rewrite !length_app, !length_to_be. unfold z. rewrite repeat_length. lia.
Qed.

(** Attributes that are not an address are stepped over. *)
Definition skipped (attr : Z * list byte) : Prop :=
  is_u 16 attr.1 /\ Z.of_nat (length attr.2) < 2 ^ 16
  /\ attr.1 <> ATTR_XOR_MAPPED_ADDRESS /\ attr.1 <> ATTR_MAPPED_ADDRESS.

Lemma attr_loop_skip others : forall fuel pre rest txn n,
  Forall skipped others -> (length (concat (map encode_attr others)) + length pre <= 20 + n)%nat ->
  attr_loop (length others + fuel) (pre ++ concat (map encode_attr others) ++ rest) txn n (length pre)
  = attr_loop fuel (pre ++ concat (map encode_attr others) ++ rest) txn n
      (length (pre ++ concat (map encode_attr others))).
Proof.
  induction others as [|[t v] others IH]; intros fuel pre rest txn n Ho Hn.
  - cbn. by rewrite app_nil_r.
  - apply Forall_cons in Ho as [(Ht & Hv & Hx & Hm) Ho]. cbn [map concat fst snd] in *.
    rewrite <- app_assoc. cbn [length Nat.add].
    assert (Hl : (4 <= length (encode_attr (t, v)))%nat)
      by (cbn [encode_attr]; rewrite !length_app, !length_to_be; lia).
    rewrite length_app in Hn. rewrite attr_loop_step by (done || lia).
    rewrite (proj2 (Z.eqb_neq _ _) Hx), (proj2 (Z.eqb_neq _ _) Hm).
    rewrite !(app_assoc pre). rewrite IH; [|done|rewrite length_app; lia]. by rewrite <- !app_assoc.
Qed.

(** The attributes of an answer, and the address it tells: the first of its address attributes. *)
Definition address_attr (xor : bool) (txn : list byte) (a : SocketAddr) : Z * list byte :=
  if xor then (ATTR_XOR_MAPPED_ADDRESS, xor_value txn a) else (ATTR_MAPPED_ADDRESS, plain_value a).

Lemma address_attr_fits xor txn a :
  length txn = 12%nat -> Z.of_nat (length (address_attr xor txn a).2) < 2 ^ 16 /\ is_u 16 (address_attr xor txn a).1.
Proof.
  intros Hl. destruct xor; cbn [address_attr fst snd]; (split; [|done]);
    unfold xor_value, plain_value; destruct (sa_ip a);
    rewrite !length_cons, ?length_app, ?length_xor_bytes, ?length_app, ?length_to_be; try lia;
    rewrite length_app, !length_to_be; lia.
Qed.

(** The header of an answer passes the checks. *)
Lemma parse_header txn body trailing :
  length txn = 12%nat -> Z.of_nat (length body) < 2 ^ 16 ->
  let d := encode_response txn body ++ trailing in
  parse_binding_response d txn = attr_loop (S (length d)) d txn (length body) 20.
Proof.
  intros Htxn Hlen d.
  assert (Hd : d = to_be 2 BINDING_RESPONSE ++ to_be 2 (Z.of_nat (length body)) ++ to_be 4 MAGIC_COOKIE
                   ++ txn ++ body ++ trailing) by (unfold d, encode_response; by rewrite <- !app_assoc).
  assert (Hld : length d = (20 + length body + length trailing)%nat)
    by (rewrite Hd, !length_app, !length_to_be; lia).
  assert (E0 : u16_at d 0 = Some BINDING_RESPONSE) by (rewrite Hd; by apply (u16_at_app [])).
  assert (E2 : u16_at d 2 = Some (Z.of_nat (length body)))
    by (rewrite Hd; apply (u16_at_app (to_be 2 BINDING_RESPONSE)); unfold is_u; lia).
  assert (E4 : u32_at d 4 = Some MAGIC_COOKIE)
    by (rewrite Hd; apply (u32_at_app (to_be 2 BINDING_RESPONSE ++ to_be 2 (Z.of_nat (length body)))), cookie_wf).
  assert (E8 : slice d 8 20 = Some txn)
    by (rewrite Hd; by apply (slice_app (to_be 2 BINDING_RESPONSE ++ to_be 2 (Z.of_nat (length body))
                                         ++ to_be 4 MAGIC_COOKIE) txn (body ++ trailing) 12)).
  unfold parse_binding_response. rewrite (proj2 (Nat.ltb_ge _ _)) by lia.
  rewrite E0. cbn [mbind option_bind]. rewrite Z.eqb_refl. cbn [negb].
  rewrite E4. cbn [mbind option_bind]. rewrite Z.eqb_refl. cbn [negb].
  rewrite E8. cbn [mbind option_bind]. rewrite bool_decide_true by done. cbn [negb].
  rewrite E2. cbn [mbind option_bind]. rewrite Nat2Z.id. by rewrite (proj2 (Nat.ltb_ge _ _)) by lia.
Qed.

Lemma length_encode_attr attr : (4 <= length (encode_attr attr))%nat.
Proof. destruct attr. cbn [encode_attr]. rewrite !length_app, !length_to_be. lia. Qed.

Lemma length_attrs others : (length others <= length (concat (map encode_attr others)))%nat.
Proof.
  induction others as [|o others IH]; cbn [map concat]; [done|].
  rewrite length_app. pose proof (length_encode_attr o). cbn. lia.
Qed.

(** Answers are understood: a binding response that carries the address of the client in
    a XOR-MAPPED-ADDRESS or MAPPED-ADDRESS attribute, IPv4 or IPv6, after any attributes of
    other types and before anything else, with padding as RFC 5389 prescribes, is parsed to
    exactly that address. *)
Theorem binding_response_roundtrip txn others xor a rest trailing
    (Htxn : length txn = 12%nat) (Ha : addr_wf a) (Ho : Forall skipped others)
    (Hlen : Z.of_nat (length (concat (map encode_attr others) ++ encode_attr (address_attr xor txn a) ++ rest)) < 2 ^ 16) :
  let body := concat (map encode_attr others) ++ encode_attr (address_attr xor txn a) ++ rest in
  parse_binding_response (encode_response txn body ++ trailing) txn = Some (Ok a).
Proof.
  cbv zeta. rewrite parse_header by done. unfold encode_response.
  set (skip := concat (map encode_attr others)) in *.
  set (n := length (skip ++ encode_attr (address_attr xor txn a) ++ rest)) in *.
  set (hdr := to_be 2 BINDING_RESPONSE ++ to_be 2 (Z.of_nat n) ++ to_be 4 MAGIC_COOKIE ++ txn).
  assert (Hh : length hdr = 20%nat) by (unfold hdr; rewrite !length_app, !length_to_be; lia).
  pose proof (length_attrs others) as Hcount. fold skip in Hcount.
  pose proof (length_encode_attr (address_attr xor txn a)) as Hattr.
  assert (Hn : n = (length skip + (length (encode_attr (address_attr xor txn a)) + length rest))%nat)
    by (unfold n; by rewrite !length_app).
  replace ((to_be 2 BINDING_RESPONSE ++ _) ++ trailing)
    with (hdr ++ skip ++ (encode_attr (address_attr xor txn a) ++ rest ++ trailing))
    by (unfold hdr; by rewrite <- !app_assoc).
  set (tl := encode_attr (address_attr xor txn a) ++ rest ++ trailing).
  assert (Hfuel : exists fuel, S (length (hdr ++ skip ++ tl)) = (length others + S fuel)%nat).
  { exists (length (hdr ++ skip ++ tl) - length others)%nat. rewrite !length_app. lia. }
  destruct Hfuel as [fuel ->]. rewrite <- Hh. unfold skip.
  rewrite attr_loop_skip by (done || (fold skip; lia)). fold skip. unfold tl. rewrite app_assoc.
  destruct (address_attr_fits xor txn a Htxn) as [Hv Ht].
  destruct (address_attr xor txn a) as [t v] eqn:Eattr.
  rewrite attr_loop_step by (done || (rewrite length_app; lia)).
  destruct xor; injection Eattr as <- <-; cbn [Z.eqb Pos.eqb ATTR_XOR_MAPPED_ADDRESS ATTR_MAPPED_ADDRESS].
  - by rewrite parse_xor_value.
  - by rewrite parse_plain_value.
Qed.

(** ** Proofs: the probe *)

(** Rounds of the loop at non-decreasing times. *)
Inductive probing (server : SocketAddr) (t0 timeout : Z) : probe -> Z -> Prop :=
  | probing_start : probing server t0 timeout (start_probe t0 timeout) t0
  | probing_again p now now' ev p' later :
      probing server t0 timeout p now -> now <= now' ->
      round server now' ev p = Again p' ->
      match ev with Elapsed now1 send => now' <= now1 /\ (forall now2, send = Ok now2 -> now1 <= now2 <= later) | _ => True end ->
      now' <= later ->
      probing server t0 timeout p' later.

(** The schedule: a number of requests, the delay after it. *)
Definition rto_after (n : Z) : Z := Z.min (RETRANSMIT_INITIAL_MS * 2 ^ n) RETRANSMIT_MAX_MS.

Lemma rto_after_next n : 0 <= n -> Z.min (Z.min (rto_after n * 2) (2 ^ 64 - 1)) RETRANSMIT_MAX_MS = rto_after (n + 1).
Proof.
  intros Hn. unfold rto_after, RETRANSMIT_INITIAL_MS, RETRANSMIT_MAX_MS.
  rewrite Z.pow_add_r by lia. change (2 ^ 64) with 18446744073709551616. change (2 ^ 1) with 2. lia.
Qed.

(** The probe keeps to its schedule: at most seven retransmissions follow the first
    request, the n-th of them sets a delay of 500 ms doubled n times and capped at 1600 ms,
    the deadline never moves, and the loop hands on a datagram only if it came from the
    address of the server before the deadline; after the deadline every round ends with a
    time-out. *)
Theorem probe_schedule server t0 timeout p now (Hp : probing server t0 timeout p now) :
  p.(deadline) = t0 + timeout
  /\ 0 <= p.(retransmit_count) <= RETRANSMIT_MAX_COUNT
  /\ Z.of_nat p.(requests) = 1 + p.(retransmit_count)
  /\ p.(next_rto_ms) = rto_after p.(retransmit_count)
  /\ (forall now' ev data, round server now' ev p = Response data ->
        ev = Datagram server data /\ now' < t0 + timeout)
  /\ (forall now' ev, t0 + timeout <= now' -> round server now' ev p = Gives Timeout).
Proof.
  assert (Hinv : p.(deadline) = t0 + timeout /\ 0 <= p.(retransmit_count) <= RETRANSMIT_MAX_COUNT
                 /\ Z.of_nat p.(requests) = 1 + p.(retransmit_count)
                 /\ p.(next_rto_ms) = rto_after p.(retransmit_count)).
  { induction Hp as [|p now now' ev p' later _ IH _ Hr _ _]; [done|].
    destruct IH as (Hd & Hc & Hq & Hrto). unfold round in Hr. case_if; [done|].
    destruct ev as [peer data|e|now1 send]; [case_bool_decide; [done|]|done|].
    - by injection Hr as <-.
    - case_if; [done|]. case_if.
      + by injection Hr as <-.
      + destruct send as [now2|e]; [|done]. injection Hr as <-. cbn.
        rewrite Hrto, rto_after_next by lia. unfold RETRANSMIT_MAX_COUNT in *. split; [done|]. split; [lia|]. split; [lia|done]. }
  destruct Hinv as (Hd & Hc & Hq & Hrto). do 4 (split; [done|]). split.
  - intros now' ev data. unfold round. case_if; [done|]. destruct ev as [peer d|e|now1 send]; [|done|].
    + case_bool_decide; [|done]. intros [= ->]. subst. split; [done|lia].
    + repeat case_match; done.
  - intros now' ev Hnow. unfold round. by rewrite (proj2 (Z.leb_le _ _)) by lia.
Qed.

(** ** Runs *)

Module StunExamples.

Definition txn0 : list byte := repeat x2a 12.
Definition me : SocketAddr := {| sa_ip := V6 (2 ^ 127 + 1); sa_port := 4242 |}.
Definition software : Z * list byte := (0x8022, [x61; x62; x63]).

Lemma binding_response_roundtrip_witness :
  parse_binding_response
    (encode_response txn0 (concat (map encode_attr [software]) ++ encode_attr (address_attr true txn0 me) ++ []) ++ [x00]) txn0
  = Some (Ok me).
Proof.
  apply (binding_response_roundtrip txn0 [software] true me [] [x00]).
  - reflexivity.
  - by vm_compute.
  - constructor; [|constructor]. by vm_compute.
  - by vm_compute.
Defined.

Definition server0 : SocketAddr := {| sa_ip := V4 1; sa_port := 3478 |}.

Definition second : probe :=
  {| deadline := 5000; next_rto_ms := 1000; next_retransmit := 1501; retransmit_count := 1; requests := 2 |}.

Lemma second_probing : probing server0 0 5000 second 501.
Proof.
  eapply (probing_again server0 0 5000 (start_probe 0 5000) 0 0 (Elapsed 500 (Ok 501)));
    [constructor|lia|reflexivity|split; [lia|intros ? [= <-]; lia]|lia].
Qed.

Lemma probe_schedule_witness : second.(next_rto_ms) = rto_after second.(retransmit_count).
Proof. apply (probe_schedule server0 0 5000 second 501 second_probing). Defined.

End StunExamples.
