(* ===== verification/Flow.v ===== *)
(** * NetFlow ([runesh-flow/src/netflow.rs, lib.rs])

    The NetFlow v5 parser, the collector's source filter, the top-N aggregations and the
    bounded aggregator. The parser is in the option monad, [None] standing for a panic.
    [DateTime::from_timestamp] and the clock are arguments; hash maps are iterated in the
    order given. *)
From stdpp Require Import sorting.
From S2P Require Import Prelude Str Bytes Net.

#[local] Open Scope Z_scope.

Record NetflowV5Header := {
  version : Z;
  count : Z;
  sys_uptime_ms : Z;
  unix_secs : Z;
  unix_nsecs : Z;
  flow_sequence : Z;
  engine_type : Z;
  engine_id : Z;
  sampling_interval : Z
}.

Section Flow.
Context {DateTime : Type}.

Record FlowRecord := {
  src_ip : Z;
  dst_ip : Z;
  src_port : Z;
  dst_port : Z;
  protocol : Z;
  bytes : Z;
  packets : Z;
  start_time : DateTime;
  end_time : DateTime;
  src_name : option str;
  dst_name : option str
}.

(** ** The parser *)

Definition read_record (base_time : DateTime) (r : list byte) : option FlowRecord :=
  src ← u32_at r 0;
  dst ← u32_at r 4;
  pkts ← u32_at r 16;
  octets ← u32_at r 20;
  _ ← u32_at r 24;
  _ ← u32_at r 28;
  sport ← u16_at r 32;
  dport ← u16_at r 34;
  _ ← r !! 37%nat;
  proto ← r !! 38%nat;
  _ ← r !! 39%nat;
  Some {| src_ip := src; dst_ip := dst; src_port := sport; dst_port := dport;
          protocol := b2z proto; bytes := octets; packets := pkts;
          start_time := base_time; end_time := base_time; src_name := None; dst_name := None |}.

(** [from_timestamp] and the reading of [Utc::now]. *)
Context (from_timestamp : Z -> Z -> option DateTime) (now : DateTime).

Definition parse_netflow_v5 (data : list byte) : option (result str (NetflowV5Header * list FlowRecord)) :=
  let len := Z.of_nat (length data) in
  if len <? 24 then
    Some (Err (lit "packet too short: " ++ show_uint len ++ lit " bytes (need 24)"))
  else
    version ← u16_at data 0;
    if negb (version =? 5) then Some (Err (lit "not NetFlow v5: version " ++ show_uint version))
    else
      count ← u16_at data 2;
      if 30 <? count then
        Some (Err (lit "invalid record count: " ++ show_uint count ++ lit " (max 30)"))
      else
        let expected_len := 24 + count * 48 in
        if len <? expected_len then
          Some (Err (lit "packet truncated: " ++ show_uint len ++ lit " bytes (need "
                     ++ show_uint expected_len ++ lit ")"))
        else
          secs ← u32_at data 8;
          nsecs ← u32_at data 12;
          uptime ← u32_at data 4;
          sequence ← u32_at data 16;
          etype ← data !! 20%nat;
          eid ← data !! 21%nat;
          sampling ← u16_at data 22;
          let header :=
            {| version := version; count := count; sys_uptime_ms := uptime; unix_secs := secs;
               unix_nsecs := nsecs; flow_sequence := sequence; engine_type := b2z etype;
               engine_id := b2z eid; sampling_interval := sampling |} in
          let base_time := default now (from_timestamp secs nsecs) in
          records ← mapM (fun i => let offset := (24 + i * 48)%nat in
                                   r ← slice data offset (offset + 48); read_record base_time r)
                         (seq 0 (Z.to_nat count));
          Some (Ok (header, records)).

(** ** The collector *)

Definition ip_in_allowlist `{IpNetApi} (ip : IpAddr) (allowed : list IpNet) : bool :=
  existsb (fun net => ipnet_contains net ip) allowed.

(** One datagram: the batch handed to [on_flows], if any. The receive buffer has 2048 bytes. *)
Definition receive `{IpNetApi} (allowed_sources : option (list IpNet)) (src : IpAddr) (datagram : list byte)
    : option (option (NetflowV5Header * list FlowRecord)) :=
  if (match allowed_sources with Some l => negb (ip_in_allowlist src l) | None => false end)
  then Some None
  else r ← parse_netflow_v5 (take 2048 datagram); Some (ok r).

(** ** Aggregation *)

(** Bytes, packets and flows. *)
Definition totals : Type := Z * Z * Z.

Record TopNEntry := { key : str; e_bytes : Z; e_packets : Z; flow_count : Z }.

(** [sort_by(|a, b| b.bytes.cmp(&a.bytes))], which is stable. *)
Definition bytes_ge (a b : TopNEntry) : Prop := b.(e_bytes) <= a.(e_bytes).
#[global] Instance bytes_ge_dec a b : Decision (bytes_ge a b).
Proof. apply Z_le_dec. Defined.
Definition sort_by_bytes (l : list TopNEntry) : list TopNEntry := merge_sort bytes_ge l.

(** The unchecked additions of [top_talkers] and the like. *)
Definition add_flow (f : FlowRecord) (t : option totals) : totals :=
  let '(b, p, c) := default (0, 0, 0) t in
  (wadd 64 b f.(bytes), wadd 64 p f.(packets), wadd 64 c 1).

Definition aggregate (k : FlowRecord -> Z) (flows : list FlowRecord) : gmap Z totals :=
  foldl (fun m f => <[k f := add_flow f (m !! k f)]> m) ∅ flows.

Definition entry (name : Z -> str) (kv : Z * totals) : TopNEntry :=
  let '(k, (b, p, c)) := kv in {| key := name k; e_bytes := b; e_packets := p; flow_count := c |}.

(** [it] gives the order in which a map is iterated. *)
Definition top_talkers (it : gmap Z totals -> list (Z * totals)) (flows : list FlowRecord) (n : nat)
    : list TopNEntry :=
  take n (sort_by_bytes (map (entry show_ipv4) (it (aggregate src_ip flows)))).
Definition top_destinations (it : gmap Z totals -> list (Z * totals)) (flows : list FlowRecord) (n : nat)
    : list TopNEntry :=
  take n (sort_by_bytes (map (entry show_ipv4) (it (aggregate dst_ip flows)))).

Definition protocol_name (p : Z) : str :=
  (if p =? 6 then lit "TCP" else if p =? 17 then lit "UDP" else if p =? 1 then lit "ICMP" else lit "other")
  ++ lit " (" ++ show_uint p ++ lit ")".
Definition by_protocol (it : gmap Z totals -> list (Z * totals)) (flows : list FlowRecord) : list TopNEntry :=
  sort_by_bytes (map (entry protocol_name) (it (aggregate protocol flows))).

(** ** The bounded aggregator *)

Definition DEFAULT_MAX_ENTRIES : Z := 100000.

Record BoundedFlowAggregator := {
  max_entries : Z;
  by_src : gmap Z totals;
  resets : Z
}.

Definition new (max_entries : Z) : BoundedFlowAggregator :=
  {| max_entries := if max_entries =? 0 then DEFAULT_MAX_ENTRIES else max_entries;
     by_src := ∅; resets := 0 |}.
Definition default_sized : BoundedFlowAggregator := new DEFAULT_MAX_ENTRIES.

Definition sat_add_flow (f : FlowRecord) (t : option totals) : totals :=
  let '(b, p, c) := default (0, 0, 0) t in
  (sat_add 64 b f.(bytes), sat_add 64 p f.(packets), sat_add 64 c 1).

Definition record (f : FlowRecord) (a : BoundedFlowAggregator) : BoundedFlowAggregator :=
  let full := (a.(max_entries) <=? Z.of_nat (size a.(by_src))) && bool_decide (a.(by_src) !! f.(src_ip) = None) in
  let m := if full then ∅ else a.(by_src) in
  {| max_entries := a.(max_entries);
     by_src := <[f.(src_ip) := sat_add_flow f (m !! f.(src_ip))]> m;
     resets := if full then sat_add 64 a.(resets) 1 else a.(resets) |}.

Definition len (a : BoundedFlowAggregator) : nat := size a.(by_src).
Definition is_empty (a : BoundedFlowAggregator) : bool := bool_decide (a.(by_src) = ∅).

Definition top_n (it : gmap Z totals -> list (Z * totals)) (n : nat) (a : BoundedFlowAggregator) : list TopNEntry :=
  take n (sort_by_bytes (map (entry show_ipv4) (it a.(by_src)))).

End Flow.
#[global] Arguments FlowRecord : clear implicits.

(** ** Proofs: the parser *)

Section ParserProofs.
Context {DateTime : Type} (from_timestamp : Z -> Z -> option DateTime) (now : DateTime).

#[local] Abbreviation parse := (parse_netflow_v5 from_timestamp now).

Ltac read_some :=
  repeat match goal with
  | |- context [u32_at ?d ?i] => destruct (u32_at_some d i) as (? & -> & _); [lia|]
  | |- context [u16_at ?d ?i] => destruct (u16_at_some d i) as (? & -> & _); [lia|]
  | |- context [?d !! ?i] => destruct (byte_at_some d i) as [? ->]; [lia|]
  | |- context [@mbind option _ _ _ _ (Some _)] => progress cbn [mbind option_bind]
  end.

Lemma read_record_total (base : DateTime) r : length r = 48%nat -> is_Some (read_record base r).
Proof. intros Hr. unfold read_record. by read_some. Qed.

(** The records of a datagram that is long enough. *)
Lemma records_total (base : DateTime) data n :
  (24 + n * 48 <= length data)%nat ->
  exists rs, mapM (fun i => r ← slice data (24 + i * 48) (24 + i * 48 + 48); read_record base r) (seq 0 n) = Some rs
             /\ length rs = n.
Proof.
  intros Hn.
  assert (is_Some (mapM (fun i => r ← slice data (24 + i * 48) (24 + i * 48 + 48); read_record base r) (seq 0 n))) as [rs Hrs].
  { apply mapM_is_Some, Forall_forall. intros i Hi%elem_of_seq.
    destruct (slice_some data (24 + i * 48) (24 + i * 48 + 48)) as (r & Er & Hr); [lia|].
    unfold compose. cbv beta zeta. rewrite Er. cbn [mbind option_bind]. apply read_record_total. lia. }
  exists rs. split; [done|]. apply mapM_Some, Forall2_length in Hrs. by rewrite length_seq in Hrs.
Qed.

(** The NetFlow parser is safe and exact on every datagram: it never reads out of bounds,
    and it succeeds exactly on datagrams of version 5 that declare at most 30 records and
    are long enough for them, with exactly the declared number of records. *)
Theorem parse_netflow_v5_total data :
  exists r, parse data = Some r
  /\ (is_ok r = true <-> (24 <= length data)%nat /\ u16_at data 0 = Some 5
        /\ exists n, u16_at data 2 = Some (Z.of_nat n) /\ (n <= 30)%nat /\ (24 + n * 48 <= length data)%nat)
  /\ (forall h rs, r = Ok (h, rs) -> h.(count) = Z.of_nat (length rs) /\ (length rs <= 30)%nat).
Proof.
  unfold parse_netflow_v5. cbv zeta. destruct (Z.ltb_spec (Z.of_nat (length data)) 24).
  { eexists. split; [done|]. split; [|done]. split; [done|]. lia. }
  destruct (u16_at_some data 0) as (v & -> & _); [lia|]. cbn [mbind option_bind].
  destruct (Z.eqb_spec v 5) as [->|Hv]; cbn [negb].
  2: { eexists. split; [done|]. split; [|done]. split; [done|]. by intros (_ & [= ->] & _). }
  destruct (u16_at_some data 2) as (c & -> & Hc & _); [lia|]. cbn [mbind option_bind].
  destruct (Z.ltb_spec 30 c).
  { eexists. split; [done|]. split; [|done]. split; [done|]. intros (_ & _ & n & [= ->] & ? & _). lia. }
  destruct (Z.ltb_spec (Z.of_nat (length data)) (24 + c * 48)).
  { eexists. split; [done|]. split; [|done]. split; [done|]. intros (_ & _ & n & [= ->] & _ & ?). lia. }
  destruct (u32_at_some data 8) as (secs & -> & _); [lia|].
  destruct (u32_at_some data 12) as (nsecs & -> & _); [lia|]. cbn [mbind option_bind].
  destruct (records_total (default now (from_timestamp secs nsecs)) data (Z.to_nat c))
    as (rs & Ers & Hrs); [lia|]. read_some. rewrite Ers. cbn [mbind option_bind].
  eexists. split; [done|]. split.
  - split; [|done]. intros _. split; [lia|]. split; [done|]. exists (Z.to_nat c).
    rewrite Z2Nat.id by lia. split; [done|]. lia.
  - intros h rs' [= <- <-]. cbn. lia.
Qed.

(** A record as it is laid out on the wire; the fields the parser does not keep are raw. *)
Record wire_record := {
  w_src : Z; w_dst : Z;
  w_hop : list byte;             (* next hop and interfaces *)
  w_packets : Z; w_bytes : Z;
  w_uptimes : list byte;
  w_sport : Z; w_dport : Z;
  w_flags : list byte;           (* padding and TCP flags *)
  w_proto : byte;
  w_rest : list byte             (* type of service, systems, masks, padding *)
}.

Record wire_wf (w : wire_record) : Prop := {
  wf_src : is_u 32 w.(w_src); wf_dst : is_u 32 w.(w_dst); wf_hop : length w.(w_hop) = 8%nat;
  wf_packets : is_u 32 w.(w_packets); wf_bytes : is_u 32 w.(w_bytes);
  wf_uptimes : length w.(w_uptimes) = 8%nat;
  wf_sport : is_u 16 w.(w_sport); wf_dport : is_u 16 w.(w_dport);
  wf_flags : length w.(w_flags) = 2%nat; wf_rest : length w.(w_rest) = 9%nat
}.

Definition encode_record (w : wire_record) : list byte :=
  to_be 4 w.(w_src) ++ to_be 4 w.(w_dst) ++ w.(w_hop) ++ to_be 4 w.(w_packets) ++ to_be 4 w.(w_bytes)
  ++ w.(w_uptimes) ++ to_be 2 w.(w_sport) ++ to_be 2 w.(w_dport) ++ w.(w_flags) ++ [w.(w_proto)] ++ w.(w_rest).

Definition flow_of (base : DateTime) (w : wire_record) : FlowRecord DateTime :=
  {| src_ip := w.(w_src); dst_ip := w.(w_dst); src_port := w.(w_sport); dst_port := w.(w_dport);
     protocol := b2z w.(w_proto); bytes := w.(w_bytes); packets := w.(w_packets);
     start_time := base; end_time := base; src_name := None; dst_name := None |}.

Definition encode_header (h : NetflowV5Header) : list byte :=
  to_be 2 h.(version) ++ to_be 2 h.(count) ++ to_be 4 h.(sys_uptime_ms) ++ to_be 4 h.(unix_secs)
  ++ to_be 4 h.(unix_nsecs) ++ to_be 4 h.(flow_sequence) ++ [z2b h.(engine_type)] ++ [z2b h.(engine_id)]
  ++ to_be 2 h.(sampling_interval).

Record header_wf (h : NetflowV5Header) : Prop := {
  hwf_version : h.(version) = 5;
  hwf_uptime : is_u 32 h.(sys_uptime_ms); hwf_secs : is_u 32 h.(unix_secs);
  hwf_nsecs : is_u 32 h.(unix_nsecs); hwf_sequence : is_u 32 h.(flow_sequence);
  hwf_type : is_u 8 h.(engine_type); hwf_id : is_u 8 h.(engine_id);
  hwf_sampling : is_u 16 h.(sampling_interval)
}.

Lemma length_encode_record w : wire_wf w -> length (encode_record w) = 48%nat.
Proof. intros []. unfold encode_record. rewrite !length_app, !length_to_be. cbn. lia. Qed.

Lemma read_encode_record (base : DateTime) w : wire_wf w -> read_record base (encode_record w) = Some (flow_of base w).
Proof.
  destruct w as [src dst hop pk by_ up sp dp fl pr rest]. intros []; cbn [w_src w_dst w_hop w_packets w_bytes
    w_uptimes w_sport w_dport w_flags w_proto w_rest] in *.
  do 8 (destruct hop as [|? hop]; [done|]). do 8 (destruct up as [|? up]; [done|]).
  do 2 (destruct fl as [|? fl]; [done|]). destruct rest as [|? rest]; [done|].
  destruct hop, up, fl; try done.
  pose proof (from_be_to_be 4 src wf_src0) as E1. pose proof (from_be_to_be 4 dst wf_dst0) as E2.
  pose proof (from_be_to_be 4 pk wf_packets0) as E3. pose proof (from_be_to_be 4 by_ wf_bytes0) as E4.
  pose proof (from_be_to_be 2 sp wf_sport0) as E5. pose proof (from_be_to_be 2 dp wf_dport0) as E6.
  unfold read_record, encode_record, flow_of, u32_at, u16_at.
  cbn [w_src w_dst w_hop w_packets w_bytes w_uptimes w_sport w_dport w_flags w_proto w_rest
       to_be app lookup list_lookup mbind option_bind Nat.add] in *.
  by rewrite E1, E2, E3, E4, E5, E6.
Qed.

(** The records of an encoded datagram. *)
Lemma read_records (base : DateTime) pre ws trailing :
  Forall wire_wf ws -> length pre = 24%nat ->
  mapM (fun i => r ← slice (pre ++ concat (map encode_record ws) ++ trailing) (24 + i * 48) (24 + i * 48 + 48);
                 read_record base r) (seq 0 (length ws)) = Some (map (flow_of base) ws).
Proof.
  intros Hws Hpre. apply mapM_Some, Forall2_same_length_lookup.
  split; [by rewrite length_seq, length_map|]. intros i j f Hi Hf.
  apply lookup_seq in Hi as [-> Hi]. rewrite Nat.add_0_l.
  rewrite list_lookup_fmap in Hf. destruct (ws !! i) as [w|] eqn:Hw; [|done]. injection Hf as <-.
  assert (Hwf : wire_wf w) by (eapply Forall_lookup_1; eauto).
  assert (Hlen : forall us, Forall wire_wf us -> length (concat (map encode_record us)) = (length us * 48)%nat).
  { induction 1 as [|u us Hu _ IH]; [done|]. cbn [map concat length]. rewrite length_app, IH, length_encode_record by done. lia. }
  rewrite <- (take_drop_middle ws i w Hw), map_app, concat_app. cbn [map concat].
  replace (pre ++ _ ++ trailing) with ((pre ++ concat (map encode_record (take i ws))) ++ encode_record w
    ++ (concat (map encode_record (drop (S i) ws)) ++ trailing)) by (by rewrite <- !app_assoc).
  assert (Hoff : length (pre ++ concat (map encode_record (take i ws))) = (24 + i * 48)%nat)
    by (rewrite length_app, Hlen, length_take by (by apply Forall_take); lia).
  rewrite <- Hoff, slice_app by (symmetry; by apply length_encode_record).
  cbn [mbind option_bind]. by apply read_encode_record.
Qed.

(** The fields of the header. *)
Lemma read_header h rest : header_wf h -> is_u 16 h.(count) ->
  let d := encode_header h ++ rest in
  u16_at d 0 = Some h.(version) /\ u16_at d 2 = Some h.(count) /\ u32_at d 4 = Some h.(sys_uptime_ms)
  /\ u32_at d 8 = Some h.(unix_secs) /\ u32_at d 12 = Some h.(unix_nsecs)
  /\ u32_at d 16 = Some h.(flow_sequence) /\ d !! 20%nat = Some (z2b h.(engine_type))
  /\ d !! 21%nat = Some (z2b h.(engine_id)) /\ u16_at d 22 = Some h.(sampling_interval).
Proof.
  intros [] Hc d. unfold d, encode_header.
  pose proof (from_be_to_be 4 _ hwf_uptime0) as E3. pose proof (from_be_to_be 4 _ hwf_secs0) as E4.
  pose proof (from_be_to_be 4 _ hwf_nsecs0) as E5. pose proof (from_be_to_be 4 _ hwf_sequence0) as E6.
  pose proof (from_be_to_be 2 _ hwf_sampling0) as E7. pose proof (from_be_to_be 2 _ Hc) as E2.
  assert (E1 : from_be (to_be 2 (version h)) = version h) by (by rewrite hwf_version0).
  unfold u16_at, u32_at.
  cbn [to_be app lookup list_lookup mbind option_bind Nat.add] in *.
  by rewrite E1, E2, E3, E4, E5, E6, E7.
Qed.

(** NetFlow datagrams are understood: for every header of version 5 and up to 30 records
    laid out as the protocol has them, and whatever follows, the parser returns the header
    and the flows with their addresses, ports, protocol and counters, stamped with the
    header's time. *)
Theorem netflow_roundtrip h ws trailing
    (Hh : header_wf h) (Hws : Forall wire_wf ws) (Hcount : h.(count) = Z.of_nat (length ws))
    (Hmax : (length ws <= 30)%nat) :
  parse (encode_header h ++ concat (map encode_record ws) ++ trailing)
  = Some (Ok (h, map (flow_of (default now (from_timestamp h.(unix_secs) h.(unix_nsecs)))) ws)).
Proof.
  assert (Hl : length (encode_header h) = 24%nat)
    by (unfold encode_header; rewrite !length_app, !length_to_be; done).
  set (base := default now _).
  pose proof (read_records base (encode_header h) ws trailing Hws Hl) as Hrs.
  assert (Hlen : (24 + length ws * 48 <= length (encode_header h ++ concat (map encode_record ws) ++ trailing))%nat).
  { rewrite !length_app, Hl. enough (length (concat (map encode_record ws)) = length ws * 48)%nat as -> by lia.
    clear -Hws. induction Hws as [|w ws Hw _ IH]; [done|]. cbn [map concat length].
    rewrite length_app, IH, length_encode_record by done. lia. }
  destruct (read_header h (concat (map encode_record ws) ++ trailing) Hh) as (E0 & E2 & E4 & E8 & E12 & E16 & E20 & E21 & E22);
    [unfold is_u; lia|].
  set (d := encode_header h ++ _) in *. unfold parse_netflow_v5. cbv zeta.
  rewrite (proj2 (Z.ltb_ge _ _)) by lia.
  rewrite E0. cbn [mbind option_bind]. rewrite (hwf_version _ Hh). cbn [Z.eqb Pos.eqb negb].
  rewrite E2. cbn [mbind option_bind]. rewrite !(proj2 (Z.ltb_ge _ _)) by lia.
  rewrite E8, E12, E4, E16, E20, E21, E22. cbn [mbind option_bind]. fold base.
  replace (Z.to_nat (count h)) with (length ws) by lia. rewrite Hrs.
  cbn [mbind option_bind]. destruct Hh, h; cbn in *. subst. by rewrite !b2z_z2b, !Z.mod_small by assumption.
Qed.

End ParserProofs.

(** ** Proofs: aggregation *)

Section AggregatorProofs.
Context {DateTime : Type}.
#[local] Abbreviation Flow := (FlowRecord DateTime).

Definition flow_wf (f : Flow) : Prop := 0 <= f.(bytes) /\ 0 <= f.(packets).

Definition of_source (ip : Z) (fs : list Flow) : list Flow := filter (fun f => f.(src_ip) = ip) fs.
Definition sum_of (g : Flow -> Z) (fs : list Flow) : Z := foldr (fun f acc => g f + acc) 0 fs.
Definition capped (z : Z) : Z := Z.min z (2 ^ 64 - 1).

(** What the table should hold for a source. *)
Definition source_totals (ip : Z) (fs : list Flow) : option totals :=
  match of_source ip fs with
  | [] => None
  | l => Some (capped (sum_of bytes l), capped (sum_of packets l), capped (Z.of_nat (length l)))
  end.

Definition record_all (fs : list Flow) (a : BoundedFlowAggregator) : BoundedFlowAggregator :=
  foldl (fun a f => record f a) a fs.

Lemma sum_of_snoc g fs f : sum_of g (fs ++ [f]) = sum_of g fs + g f.
Proof. unfold sum_of. induction fs as [|x fs IH]; cbn; [lia|]. rewrite IH. lia. Qed.

Lemma sum_of_nonneg g fs : Forall (fun f => 0 <= g f) fs -> 0 <= sum_of g fs.
Proof. induction 1 as [|x fs Hx _ IH]; cbn; [done|]. fold (sum_of g fs) in *. lia. Qed.

Lemma capped_add a x : 0 <= a -> 0 <= x -> sat_add 64 (capped a) x = capped (a + x).
Proof. unfold sat_add, capped. change (2 ^ 64) with 18446744073709551616. lia. Qed.

Lemma source_totals_other ip fs f : f.(src_ip) <> ip -> source_totals ip (fs ++ [f]) = source_totals ip fs.
Proof.
  intros Hne. unfold source_totals, of_source. rewrite filter_app, filter_cons_False by done.
  by rewrite filter_nil, app_nil_r.
Qed.

Lemma source_totals_snoc fs f :
  Forall flow_wf fs -> flow_wf f ->
  source_totals f.(src_ip) (fs ++ [f]) = Some (sat_add_flow f (source_totals f.(src_ip) fs)).
Proof.
  intros Hfs [Hb Hp]. unfold source_totals, of_source. rewrite filter_app, filter_cons_True, filter_nil by done.
  set (l := filter _ fs).
  assert (Hl : Forall (fun f => 0 <= bytes f) l /\ Forall (fun f => 0 <= packets f) l).
  { rewrite Forall_forall in Hfs. split; apply Forall_forall; intros x [_ Hx]%list_elem_of_filter; by apply Hfs. }
  transitivity (Some (capped (sum_of bytes (l ++ [f])), capped (sum_of packets (l ++ [f])),
                      capped (Z.of_nat (length (l ++ [f]))))).
  { by destruct l. }
  rewrite !sum_of_snoc, length_app. cbn [length]. rewrite Nat2Z.inj_add.
  pose proof (sum_of_nonneg bytes l (proj1 Hl)). pose proof (sum_of_nonneg packets l (proj2 Hl)).
  f_equal. unfold sat_add_flow. destruct l as [|x l'] eqn:El.
  - cbn. unfold capped, sat_add. repeat f_equal; lia.
  - cbn [from_option id]. rewrite !capped_add by lia. done.
Qed.

(** Recording one flow: the table continues the sums, or starts again with this flow. *)
Lemma record_totals (f : Flow) a kept :
  Forall flow_wf kept -> flow_wf f -> 0 <= a.(resets) ->
  (forall ip, a.(by_src) !! ip = source_totals ip kept) ->
  exists kept', (kept' = kept ++ [f] /\ (record f a).(resets) = a.(resets)
                 \/ kept' = [f] /\ 0 < (record f a).(resets))
    /\ forall ip, (record f a).(by_src) !! ip = source_totals ip kept'.
Proof.
  intros Hkept Hf Hr Ha. unfold record. cbv zeta. set (full := _ && _). destruct full.
  - exists [f]. split; [right; split; [done|]; cbn; unfold sat_add; lia|]. intros ip. cbn [by_src].
    destruct (decide (src_ip f = ip)) as [<-|Hne].
    + rewrite lookup_insert_eq, lookup_empty. symmetry. by apply (source_totals_snoc []).
    + rewrite lookup_insert_ne, lookup_empty by done. symmetry. by apply (source_totals_other ip []).
  - exists (kept ++ [f]). split; [by left|]. intros ip. cbn [by_src].
    destruct (decide (src_ip f = ip)) as [<-|Hne].
    + rewrite lookup_insert_eq, Ha. symmetry. by apply source_totals_snoc.
    + rewrite lookup_insert_ne, Ha by done. symmetry. by apply source_totals_other.
Qed.

Lemma record_size (f : Flow) a :
  1 <= a.(max_entries) -> Z.of_nat (size a.(by_src)) <= a.(max_entries) ->
  Z.of_nat (size (record f a).(by_src)) <= a.(max_entries).
Proof.
  intros Hm Hs. unfold record. cbv zeta. cbn [by_src].
  destruct (Z.leb_spec (max_entries a) (Z.of_nat (size (by_src a)))); cbn [andb].
  - case_bool_decide as Hnone.
    + rewrite map_size_insert, lookup_empty, map_size_empty. cbn. lia.
    + rewrite map_size_insert. destruct (by_src a !! src_ip f); [unfold id; lia|done].
  - rewrite map_size_insert. destruct (by_src a !! src_ip f); unfold id; lia.
Qed.

(** The bounded aggregator is exact and bounded: after any flows it holds at most
    [max_entries] sources, and for every source exactly the number of flows and the sums of
    bytes and packets (capped at 2^64 - 1) of the flows since its last reset, which are all
    flows as long as it reports no reset. *)
Theorem aggregator_exact m flows (Hm : 0 <= m) (Hflows : Forall flow_wf flows) :
  let a := record_all flows (new m) in
  Z.of_nat (len a) <= a.(max_entries)
  /\ exists dropped kept, flows = dropped ++ kept
     /\ (a.(resets) = 0 -> dropped = [])
     /\ forall ip, a.(by_src) !! ip = source_totals ip kept.
Proof.
  cbv zeta. unfold len.
  assert (Hinv : 1 <= (record_all flows (new m)).(max_entries) /\ 0 <= (record_all flows (new m)).(resets)
    /\ Z.of_nat (size (record_all flows (new m)).(by_src)) <= (record_all flows (new m)).(max_entries)
    /\ exists dropped kept, flows = dropped ++ kept /\ ((record_all flows (new m)).(resets) = 0 -> dropped = [])
       /\ forall ip, (record_all flows (new m)).(by_src) !! ip = source_totals ip kept).
  { induction flows as [|f flows IH] using rev_ind.
    - cbn. unfold DEFAULT_MAX_ENTRIES. split; [destruct (Z.eqb_spec m 0); lia|]. split; [done|].
      split; [rewrite map_size_empty; destruct (Z.eqb_spec m 0); lia|]. by exists [], [].
    - apply Forall_app in Hflows as [Hflows [Hf _]%Forall_cons].
      destruct (IH Hflows) as (H1 & Hr0 & H2 & dropped & kept & Heq & Hr & Hk).
      unfold record_all in *. rewrite foldl_snoc. set (a := foldl _ _ flows) in *.
      split; [done|]. split; [cbn; unfold sat_add; case_if; lia|]. split; [exact (record_size f a H1 H2)|].
      assert (Hwf : Forall flow_wf kept) by (rewrite Heq in Hflows; by apply Forall_app in Hflows as [_ ?]).
      destruct (record_totals f a kept Hwf Hf Hr0 Hk) as (kept' & Hkept' & Ht).
      destruct Hkept' as [[-> Hres]|[-> Hres]].
      + exists dropped, (kept ++ [f]). rewrite Heq, <- app_assoc, Hres. auto.
      + exists flows, [f]. split; [done|]. split; [lia|done]. }
  by destruct Hinv as (_ & _ & ? & ?).
Qed.

(** Top-N lists are right: whatever the iteration order, the result has the entries of the
    [n] sources with the most bytes, in descending order, and no entry left out has more
    bytes than one shown. *)
Theorem top_n_spec it n (a : BoundedFlowAggregator) (Hit : iter_of a.(by_src) (it a.(by_src))) :
  exists rest,
    top_n it n a ++ rest ≡ₚ map (entry show_ipv4) (map_to_list a.(by_src))
    /\ length (top_n it n a) = min n (len a)
    /\ StronglySorted bytes_ge (top_n it n a)
    /\ forall e r, e ∈ top_n it n a -> r ∈ rest -> bytes_ge e r.
Proof.
  unfold top_n. set (l := map _ (it _)). exists (drop n (sort_by_bytes l)).
  assert (Hsort : StronglySorted bytes_ge (sort_by_bytes l)).
  { unfold sort_by_bytes. apply StronglySorted_merge_sort; unfold bytes_ge; [intros ???; lia|intros ??; lia]. }
  assert (Hperm : sort_by_bytes l ≡ₚ l) by apply merge_sort_Permutation.
  rewrite <- (take_drop n (sort_by_bytes l)) in Hsort. apply StronglySorted_app in Hsort as (Hall & Htop & _).
  split; [|split; [|done]].
  - rewrite take_drop, Hperm. unfold l. apply Permutation_map, Hit.
  - rewrite length_take, Hperm. unfold l, len. rewrite length_map, Hit. by rewrite length_map_to_list.
Qed.

End AggregatorProofs.

(** ** Runs *)

Module FlowExamples.

Definition header0 : NetflowV5Header :=
  {| version := 5; count := 1; sys_uptime_ms := 1000; unix_secs := 1700000000; unix_nsecs := 0;
     flow_sequence := 7; engine_type := 0; engine_id := 1; sampling_interval := 0 |}.
Definition wire0 : wire_record :=
  {| w_src := ipv4 10 0 0 1; w_dst := ipv4 8 8 8 8; w_hop := repeat x00 8; w_packets := 3; w_bytes := 1500;
     w_uptimes := repeat x00 8; w_sport := 5353; w_dport := 53; w_flags := [x00; x00]; w_proto := x11;
     w_rest := repeat x00 9 |}.

(** Time as the pair of seconds and nanoseconds. *)
Definition stamp (s n : Z) : option (Z * Z) := Some (s, n).

Lemma netflow_roundtrip_witness :
  parse_netflow_v5 stamp (0, 0) (encode_header header0 ++ concat (map encode_record [wire0]) ++ [x00])
  = Some (Ok (header0, map (flow_of (1700000000, 0)) [wire0])).
Proof.
  apply (netflow_roundtrip stamp (0, 0) header0 [wire0] [x00]).
  - split; by vm_compute.
  - constructor; [|constructor]. split; by vm_compute.
  - reflexivity.
  - cbn. lia.
Defined.

Definition flow (src octets : Z) : FlowRecord (Z * Z) :=
  flow_of (0, 0) {| w_src := src; w_dst := 1; w_hop := []; w_packets := 1; w_bytes := octets; w_uptimes := [];
                    w_sport := 1; w_dport := 2; w_flags := []; w_proto := x06; w_rest := [] |}.
Definition flows0 : list (FlowRecord (Z * Z)) := [flow 1 100; flow 2 300; flow 1 50].

Lemma aggregator_exact_witness : Z.of_nat (len (record_all flows0 (new 2))) <= (record_all flows0 (new 2)).(max_entries).
Proof. apply (aggregator_exact 2 flows0); [lia|]. repeat constructor; vm_compute; discriminate. Defined.

Lemma top_n_spec_witness : length (top_n map_to_list 1 (record_all flows0 (new 2))) = 1%nat.
Proof.
  destruct (top_n_spec map_to_list 1 (record_all flows0 (new 2))) as (rest & _ & -> & _);
    [apply iter_of_self|]. vm_compute. reflexivity.
Defined.

End FlowExamples.
