(* ===== verification/Alert.v ===== *)
(** * Alerts ([runesh-monitor/src/alert.rs])

    The alert state machine and the table of alerts. Times are integers; the clock read by
    [Utc::now] is an argument. The file store (serde_json and the file system) is not
    modelled; a snapshot is the table itself. *)
From S2P Require Import Prelude Str.

#[local] Open Scope Z_scope.

(** [CheckStatus] and [CheckResult] of [check.rs]. *)
Inductive CheckStatus : Type := S_Ok | S_Warning | S_Critical | S_Unknown.

Record CheckResult := {
  r_check_id : str;
  r_status : CheckStatus;
  r_message : str;
  r_duration_ms : Z;
  r_timestamp : Z
}.

Inductive AlertState : Type := A_Ok | Pending | Firing | Resolved.

#[global] Instance check_status_eq_dec : EqDecision CheckStatus.
Proof. solve_decision. Defined.
#[global] Instance alert_state_eq_dec : EqDecision AlertState.
Proof. solve_decision. Defined.

Record Alert := {
  check_id : str;
  check_name : str;
  state : AlertState;
  message : str;
  consecutive_failures : Z;
  consecutive_successes : Z;
  failure_threshold : Z;
  recovery_threshold : Z;
  last_check : option Z;
  fired_at : option Z;
  resolved_at : option Z
}.

Record AlertEvent := {
  e_check_id : str;
  e_check_name : str;
  from_state : AlertState;
  to_state : AlertState;
  e_message : str;
  e_timestamp : Z
}.

Definition new_alert (id name : str) (failure recovery : Z) : Alert :=
  {| check_id := id; check_name := name; state := A_Ok; message := [];
     consecutive_failures := 0; consecutive_successes := 0; failure_threshold := failure;
     recovery_threshold := recovery; last_check := None; fired_at := None; resolved_at := None |}.

(** A success, the counters updated. *)
Definition on_success (now : Z) (a : Alert) : Alert :=
  let successes := wadd 32 a.(consecutive_successes) 1 in
  let recovered := match a.(state) with Firing => a.(recovery_threshold) <=? successes | _ => false end in
  {| check_id := a.(check_id); check_name := a.(check_name);
     state := match a.(state) with
              | Pending => A_Ok
              | Firing => if recovered then Resolved else Firing
              | Resolved => A_Ok
              | A_Ok => A_Ok
              end;
     message := match a.(state) with Pending => [] | _ => a.(message) end;
     consecutive_failures := 0; consecutive_successes := successes;
     failure_threshold := a.(failure_threshold); recovery_threshold := a.(recovery_threshold);
     last_check := a.(last_check); fired_at := a.(fired_at);
     resolved_at := if recovered then Some now else a.(resolved_at) |}.

(** A failure (critical or warning). *)
Definition on_failure (now : Z) (msg : str) (a : Alert) : Alert :=
  let failures := wadd 32 a.(consecutive_failures) 1 in
  let fires := match a.(state) with Pending => a.(failure_threshold) <=? failures | _ => false end in
  {| check_id := a.(check_id); check_name := a.(check_name);
     state := match a.(state) with
              | A_Ok => Pending
              | Pending => if fires then Firing else Pending
              | Firing => Firing
              | Resolved => Resolved
              end;
     message := msg;
     consecutive_failures := failures; consecutive_successes := 0;
     failure_threshold := a.(failure_threshold); recovery_threshold := a.(recovery_threshold);
     last_check := a.(last_check); fired_at := if fires then Some now else a.(fired_at);
     resolved_at := a.(resolved_at) |}.

Definition seen (t : Z) (a : Alert) : Alert :=
  {| check_id := a.(check_id); check_name := a.(check_name); state := a.(state); message := a.(message);
     consecutive_failures := a.(consecutive_failures); consecutive_successes := a.(consecutive_successes);
     failure_threshold := a.(failure_threshold); recovery_threshold := a.(recovery_threshold);
     last_check := Some t; fired_at := a.(fired_at); resolved_at := a.(resolved_at) |}.

Definition process (now : Z) (r : CheckResult) (a0 : Alert) : option AlertEvent * Alert :=
  let a := seen r.(r_timestamp) a0 in
  let a' := match r.(r_status) with
            | S_Ok => on_success now a
            | S_Critical | S_Warning => on_failure now r.(r_message) a
            | S_Unknown => a
            end in
  (if bool_decide (a'.(state) = a.(state)) then None
   else Some {| e_check_id := a'.(check_id); e_check_name := a'.(check_name); from_state := a.(state);
                to_state := a'.(state); e_message := a'.(message); e_timestamp := now |}, a').

(** ** The table *)

Record AlertManager := { alerts : gmap str Alert }.

Definition new_manager : AlertManager := {| alerts := ∅ |}.

Definition set_thresholds (name : str) (failure recovery : Z) (a : Alert) : Alert :=
  {| check_id := a.(check_id); check_name := name; state := a.(state); message := a.(message);
     consecutive_failures := a.(consecutive_failures); consecutive_successes := a.(consecutive_successes);
     failure_threshold := failure; recovery_threshold := recovery;
     last_check := a.(last_check); fired_at := a.(fired_at); resolved_at := a.(resolved_at) |}.

Definition register (id name : str) (failure recovery : Z) (m : AlertManager) : AlertManager :=
  match m.(alerts) !! id with
  | Some a => {| alerts := <[id := set_thresholds name failure recovery a]> m.(alerts) |}
  | None => {| alerts := <[id := new_alert id name failure recovery]> m.(alerts) |}
  end.

Definition manager_process (now : Z) (r : CheckResult) (m : AlertManager) : option AlertEvent * AlertManager :=
  match m.(alerts) !! r.(r_check_id) with
  | Some a => let '(ev, a') := process now r a in (ev, {| alerts := <[r.(r_check_id) := a']> m.(alerts) |})
  | None => (None, m)
  end.

(** [l] is the order in which the table is iterated. *)
Definition firing (l : list (str * Alert)) : list Alert := filter (fun a => a.(state) = Firing) (map snd l).
Definition all (l : list (str * Alert)) : list Alert := map snd l.
Definition get (id : str) (m : AlertManager) : option Alert := m.(alerts) !! id.
Definition snapshot (m : AlertManager) : gmap str Alert := m.(alerts).
Definition restore_from (snap : gmap str Alert) (m : AlertManager) : AlertManager := {| alerts := snap |}.

(** ** Proofs *)

Definition failing (st : CheckStatus) : bool :=
  match st with S_Critical | S_Warning => true | _ => false end.

(** The length of the run of failures, or of successes, a history ends with; unknown results
    do not interrupt a run. The history is the latest result first. *)
Fixpoint failure_run (hist : list CheckStatus) : Z :=
  match hist with
  | S_Unknown :: h => failure_run h
  | S_Critical :: h | S_Warning :: h => 1 + failure_run h
  | _ => 0
  end.
Fixpoint success_run (hist : list CheckStatus) : Z :=
  match hist with
  | S_Unknown :: h => success_run h
  | S_Ok :: h => 1 + success_run h
  | _ => 0
  end.

(** An alert after a history of results, latest first. *)
Inductive after (id name : str) (f r : Z) : list CheckStatus -> Alert -> Prop :=
  | after_new : after id name f r [] (new_alert id name f r)
  | after_result hist a now res :
      after id name f r hist a ->
      after id name f r (res.(r_status) :: hist) (process now res a).2.

Record alert_inv (f r : Z) (hist : list CheckStatus) (a : Alert) : Prop := {
  inv_failures : a.(consecutive_failures) = failure_run hist;
  inv_successes : a.(consecutive_successes) = success_run hist;
  inv_failure_threshold : a.(failure_threshold) = f;
  inv_recovery_threshold : a.(recovery_threshold) = r;
  inv_pending : a.(state) = Pending -> 1 <= failure_run hist
}.

Lemma runs_bound hist :
  0 <= failure_run hist <= Z.of_nat (length hist) /\ 0 <= success_run hist <= Z.of_nat (length hist).
Proof. induction hist as [|[] h IH]; cbn [failure_run success_run length]; lia. Qed.

Lemma process_inv f r hist a now res :
  alert_inv f r hist a -> Z.of_nat (length hist) + 1 < 2 ^ 32 ->
  alert_inv f r (res.(r_status) :: hist) (process now res a).2.
Proof.
  intros [Hf Hs Hft Hrt Hp] Hlen. pose proof (runs_bound hist).
  unfold process. destruct (r_status res); cbn [snd]; split; cbn; try done;
    rewrite ?Hf, ?Hs, ?wadd_small by lia; try lia.
  by destruct (state a); try case_if.
Qed.

Lemma after_inv id name f r hist a :
  after id name f r hist a -> Z.of_nat (length hist) < 2 ^ 32 -> alert_inv f r hist a.
Proof.
  induction 1 as [|hist a now res _ IH]; intros Hlen; [by split|]. cbn [length] in Hlen.
  apply process_inv; [apply IH|]; lia.
Qed.

(** Alert events are exactly the documented transitions, at the documented counts: after any
    history of results and one more, an event is emitted exactly when the state changes; an
    alert becomes pending on a failure, returns to OK on a success, fires when the run of
    failures reaches the threshold (and is at least two), resolves when the run of successes
    reaches the recovery threshold; and without an event none of these conditions holds. *)
Theorem alert_events id name f r hist a now res
    (Ha : after id name f r hist a) (Hlen : Z.of_nat (length hist) + 1 < 2 ^ 32) :
  let '(ev, a') := process now res a in
  let st := res.(r_status) in
  match ev with
  | Some e =>
      e.(from_state) = a.(state) /\ e.(to_state) = a'.(state)
      /\ match a.(state), a'.(state) with
         | A_Ok, Pending => failing st = true
         | Pending, A_Ok => st = S_Ok
         | Pending, Firing => failing st = true /\ f <= failure_run (st :: hist) /\ 2 <= failure_run (st :: hist)
         | Firing, Resolved => st = S_Ok /\ r <= success_run (st :: hist)
         | Resolved, A_Ok => st = S_Ok
         | _, _ => False
         end
  | None =>
      a'.(state) = a.(state)
      /\ match a.(state) with
         | A_Ok => failing st = false
         | Pending => st <> S_Ok /\ (failing st = true -> failure_run (st :: hist) < f)
         | Firing => st = S_Ok -> success_run (st :: hist) < r
         | Resolved => st <> S_Ok
         end
  end.
Proof.
  destruct (after_inv id name f r hist a Ha ltac:(lia)) as [Hf Hs Hft Hrt Hp].
  pose proof (runs_bound hist). unfold process. cbv zeta.
  destruct (r_status res), (state a) eqn:Ea; unfold on_success, on_failure, seen; cbn;
    rewrite ?Ea, ?Hf, ?Hs, ?Hft, ?Hrt, ?wadd_small by lia; cbn;
    try (specialize (Hp eq_refl)); repeat (case_if; cbn); rewrite ?Ea; cbn.
  all: try done.
  all: repeat split; try done; lia.
Qed.

(** Results fed one after the other, with the events they give. *)
Fixpoint process_all (rs : list (Z * CheckResult)) (a : Alert) : list AlertEvent * Alert :=
  match rs with
  | [] => ([], a)
  | (now, r) :: rs =>
      let '(ev, a') := process now r a in
      let '(evs, a'') := process_all rs a' in
      (match ev with Some e => e :: evs | None => evs end, a'')
  end.

(** A resolved alert does not fire again by itself: until a check succeeds, no number of
    failures makes it leave the resolved state or emits an event. *)
Theorem resolved_masks_failures a rs
    (Ha : a.(state) = Resolved) (Hrs : Forall (fun nr => nr.2.(r_status) <> S_Ok) rs) :
  (process_all rs a).1 = [] /\ (process_all rs a).2.(state) = Resolved.
Proof.
  revert a Ha. induction Hrs as [|[now r] rs Hr _ IH]; intros a Ha; [done|]. cbn [process_all].
  assert (Hstep : exists a', process now r a = (None, a') /\ a'.(state) = Resolved).
  { unfold process. cbv zeta. cbn in Hr.
    destruct (r_status r); [done| | |]; unfold on_failure, seen; cbn; rewrite Ha; cbn; eauto. }
  destruct Hstep as (a' & -> & Ha'). specialize (IH a' Ha').
  by destruct (process_all rs a').
Qed.

(** Registering keeps the state of a known check; processing touches one alert only. *)
Lemma register_state id name f r m a :
  get id m = Some a -> exists a', get id (register id name f r m) = Some a' /\ a'.(state) = a.(state)
    /\ a'.(failure_threshold) = f /\ a'.(recovery_threshold) = r.
Proof.
  unfold get, register. intros Ha. rewrite Ha. eexists. cbn. by rewrite lookup_insert_eq.
Qed.

Lemma manager_process_other now res m id :
  id <> res.(r_check_id) -> get id (manager_process now res m).2 = get id m.
Proof.
  intros Hne. unfold get, manager_process. destruct (alerts m !! _) as [a|]; [|done].
  destruct (process now res a). cbn. by rewrite lookup_insert_ne.
Qed.

(** ** Runs *)

Module AlertExamples.

Definition result (st : CheckStatus) : CheckResult :=
  {| r_check_id := lit "disk"; r_status := st; r_message := lit "full"; r_duration_ms := 1; r_timestamp := 0 |}.
Definition alert0 : Alert := new_alert (lit "disk") (lit "Disk") 1 1.
Definition pending0 : Alert := (process 0 (result S_Critical) alert0).2.

(** With threshold one, the second failure fires. *)
Lemma alert_events_witness :
  let '(ev, a') := process 1 (result S_Warning) pending0 in
  match ev with
  | Some e => e.(to_state) = a'.(state)
  | None => False
  end.
Proof.
  pose proof (alert_events (lit "disk") (lit "Disk") 1 1 [S_Critical] pending0 1 (result S_Warning)
                (after_result _ _ _ _ [] alert0 0 (result S_Critical) (after_new _ _ _ _)) ltac:(cbn; lia)) as H.
  exact (proj1 (proj2 H)).
Defined.

Definition resolved0 : Alert :=
  (process_all [(0, result S_Critical); (1, result S_Critical); (2, result S_Ok)] alert0).2.

Lemma resolved_masks_failures_witness :
  (process_all [(3, result S_Critical); (4, result S_Critical)] resolved0).1 = [].
Proof.
  refine (proj1 (resolved_masks_failures resolved0 [(3, result S_Critical); (4, result S_Critical)] _ _)).
  - vm_compute. reflexivity.
  - repeat constructor; discriminate.
Defined.

End AlertExamples.
