(* ===== verification/RateLimit.v ===== *)
(** * Rate limiting ([runesh-core/src/rate_limit.rs])

    The in-memory sliding-window limiter: [check], [cleanup] and the background task, which
    does what [cleanup] does. Each operation runs under the map's lock and is one step; the
    time is an argument. It is read before the lock is taken, so that two threads can get the
    lock against the order of their times; the theorems are about operations that get it in the
    order of their times. The Redis backend is in [RedisLimit]; of it, only the choice
    of the fail mode is here. *)
From S2P Require Import Prelude Str.

#[local] Open Scope Z_scope.

Record InMemoryRateLimiter := {
  requests : gmap str (list Z);
  max_requests : Z;
  window : Z
}.

Definition new (max_requests window : Z) : InMemoryRateLimiter :=
  {| requests := ∅; max_requests := max_requests; window := window |}.

Definition with_requests (m : gmap str (list Z)) (l : InMemoryRateLimiter) : InMemoryRateLimiter :=
  {| requests := m; max_requests := l.(max_requests); window := l.(window) |}.

(** [now.duration_since(t) < window], the difference saturating at zero. *)
Definition live (now w t : Z) : bool := sat_sub now t <? w.
Definition retain_live (now w : Z) (ts : list Z) : list Z := filter (fun t => live now w t = true) ts.

Definition check (now : Z) (key : str) (l : InMemoryRateLimiter) : bool * InMemoryRateLimiter :=
  let m := match l.(requests) !! key with
           | Some ts =>
               let ts' := retain_live now l.(window) ts in
               if bool_decide (ts' = []) then delete key l.(requests) else <[key := ts']> l.(requests)
           | None => l.(requests)
           end in
  let ts := default [] (m !! key) in
  if l.(max_requests) <=? Z.of_nat (length ts)
  then (false, with_requests (<[key := ts]> m) l)
  else (true, with_requests (<[key := ts ++ [now]]> m) l).

Definition cleanup (now : Z) (l : InMemoryRateLimiter) : InMemoryRateLimiter :=
  with_requests
    (omap (fun ts => let ts' := retain_live now l.(window) ts in
                     if bool_decide (ts' = []) then None else Some ts') l.(requests)) l.

(** ** Failing open or closed *)

Inductive FailMode : Type := Closed | Open.

(** The Redis limiter's answer, from the reply of the script or its absence. *)
Definition redis_answer (mode : FailMode) (reply : option Z) : bool :=
  match reply with
  | Some n => n =? 1
  | None => match mode with Open => true | Closed => false end
  end.

(** ** Proofs *)

(** Runs of a limiter, with the requests it let through, latest first. *)
Inductive limited (max w : Z) : list (str * Z) -> Z -> InMemoryRateLimiter -> Prop :=
  | limited_new now : limited max w [] now (new max w)
  | limited_check hist now l now' key ok l' :
      limited max w hist now l -> now <= now' -> check now' key l = (ok, l') ->
      limited max w (if ok then (key, now') :: hist else hist) now' l'
  | limited_cleanup hist now l now' :
      limited max w hist now l -> now <= now' -> limited max w hist now' (cleanup now' l).

(** The requests of a key let through in the window before [now]. *)
Definition recent (hist : list (str * Z)) (key : str) (now w : Z) : list Z :=
  filter (fun t => now - t < w) (map snd (filter (fun kt => kt.1 = key) hist)).

(** The times kept for a key are, once the expired are dropped, exactly its recent ones. *)
Definition kept (m : gmap str (list Z)) (key : str) : list Z := default [] (m !! key).

Record times_inv (w : Z) (hist : list (str * Z)) (now : Z) (m : gmap str (list Z)) : Prop := {
  inv_past key t : t ∈ kept m key -> t <= now;
  inv_hist : Forall (fun kt => kt.2 <= now) hist;
  inv_recent key now' : now <= now' -> filter (fun t => now' - t < w) (kept m key) ≡ₚ recent hist key now' w
}.

Lemma retain_live_spec now w ts :
  (forall t, t ∈ ts -> t <= now) -> retain_live now w ts = filter (fun t => now - t < w) ts.
Proof.
  intros Hts. unfold retain_live. induction ts as [|t ts IH]; [done|].
  assert (Ht : t <= now) by (apply Hts; by left). rewrite !filter_cons, IH by (intros; apply Hts; by right).
  unfold live, sat_sub. by destruct (Z.ltb_spec (Z.max (now - t) 0) w), (decide (now - t < w)); try (exfalso; lia).
Qed.

(** Dropping the times expired at [now'] keeps the invariant. *)
Lemma expire_inv w hist now now' m m' :
  times_inv w hist now m -> now <= now' ->
  (forall key, kept m' key = kept m key \/ kept m' key = retain_live now' w (kept m key)) ->
  times_inv w hist now' m'.
Proof.
  intros [Hp Hh Hr] Hle Hm.
  assert (Hlive : forall key, retain_live now' w (kept m key) = filter (fun t => now' - t < w) (kept m key))
    by (intros key; apply retain_live_spec; intros t Ht; specialize (Hp key t Ht); lia).
  split.
  - intros key t Ht. enough (t ∈ kept m key) by (specialize (Hp key t); intuition lia).
    destruct (Hm key) as [E|E]; rewrite E in Ht; [done|].
    rewrite Hlive in Ht. by apply list_elem_of_filter in Ht as [_ ?].
  - eapply Forall_impl; [exact Hh|]. cbn. lia.
  - intros key t Ht. rewrite <- Hr by lia. destruct (Hm key) as [->|E]; [done|].
    rewrite E, Hlive, list_filter_filter_l by (intros; lia). done.
Qed.

Lemma recent_cons key0 t hist key now w :
  recent ((key0, t) :: hist) key now w
  = (if decide (key0 = key) then if decide (now - t < w) then [t] else [] else []) ++ recent hist key now w.
Proof.
  unfold recent. rewrite filter_cons. cbn [fst]. destruct (decide (key0 = key)); [|done].
  cbn [map snd]. rewrite filter_cons. by destruct (decide (now - t < w)).
Qed.

(** Letting a request through. *)
Lemma push_inv w hist now m key :
  times_inv w hist now m -> times_inv w ((key, now) :: hist) now (<[key := kept m key ++ [now]]> m).
Proof.
  intros [Hp Hh Hr]. split.
  - intros k t. unfold kept. destruct (decide (key = k)) as [<-|Hne].
    + rewrite lookup_insert_eq. cbn. intros [Ht| ->%list_elem_of_singleton]%elem_of_app; [by apply (Hp key)|done].
    + rewrite lookup_insert_ne by done. apply Hp.
  - by constructor.
  - intros k t Ht. rewrite recent_cons. unfold kept. destruct (decide (key = k)) as [<-|Hne].
    + rewrite lookup_insert_eq. cbn [from_option id]. rewrite filter_app, filter_cons, filter_nil.
      specialize (Hr key t Ht). unfold kept in Hr. rewrite Hr.
      destruct (decide (t - now < w)); [|by rewrite app_nil_r]. by rewrite Permutation_app_comm.
    + rewrite lookup_insert_ne by done. by apply Hr.
Qed.

Lemma kept_insert_same m key ts : kept (<[key := ts]> m) key = ts.
Proof. unfold kept. by rewrite lookup_insert_eq. Qed.

(** [check] in terms of the pruned table. *)
Lemma check_cases now key l :
  exists m, kept m key = retain_live now l.(window) (kept l.(requests) key)
  /\ (forall k, k <> key -> kept m k = kept l.(requests) k)
  /\ check now key l
     = (negb (l.(max_requests) <=? Z.of_nat (length (kept m key))),
        with_requests (<[key := kept m key ++ (if l.(max_requests) <=? Z.of_nat (length (kept m key)) then [] else [now])]> m) l).
Proof.
  unfold check. cbv zeta. set (m := match requests l !! key with Some _ => _ | None => _ end). exists m.
  split; [|split].
  - unfold m, kept. destruct (requests l !! key) as [ts|] eqn:E; cbn [from_option id].
    + case_bool_decide as Hn; [by rewrite lookup_delete_eq, Hn|by rewrite lookup_insert_eq].
    + by rewrite E.
  - intros k Hk. unfold m, kept. destruct (requests l !! key) as [ts|]; [|done].
    case_bool_decide; [by rewrite lookup_delete_ne|by rewrite lookup_insert_ne].
  - unfold kept. destruct (_ <=? _); cbn [negb]; [by rewrite app_nil_r|done].
Qed.

Lemma limited_inv max w hist now l :
  limited max w hist now l ->
  l.(max_requests) = max /\ l.(window) = w /\ times_inv w hist now l.(requests).
Proof.
  induction 1 as [now|hist now l now' key ok l' _ (Hm & Hw & Hi) Hle E|hist now l now' _ (Hm & Hw & Hi) Hle].
  - split; [done|]. split; [done|]. split; [|constructor|done].
    intros key t. unfold kept. cbn. rewrite lookup_empty. by intros ?%elem_of_nil.
  - destruct (check_cases now' key l) as (m & Hk & Ho & Ec). rewrite E in Ec. injection Ec as -> ->.
    assert (Hi' : times_inv w hist now' m).
    { eapply expire_inv; [exact Hi|done|]. intros k. destruct (decide (k = key)) as [->|Hne]; [right|left; by apply Ho].
      by rewrite <- Hw. }
    split; [done|]. split; [done|]. cbn [requests with_requests].
    destruct (_ <=? _); cbn [negb]; [|by apply push_inv]. rewrite app_nil_r.
    eapply expire_inv; [exact Hi'|done|]. intros k. left. unfold kept.
    destruct (decide (key = k)) as [<-|Hne]; [by rewrite lookup_insert_eq|by rewrite lookup_insert_ne].
  - split; [done|]. split; [done|]. eapply expire_inv; [exact Hi|done|]. intros k. right.
    unfold kept. cbn [requests cleanup with_requests]. rewrite lookup_omap. rewrite Hw.
    destruct (requests l !! k) as [ts|]; [|done]. cbn [mbind option_bind from_option id]. cbv zeta.
    case_bool_decide as Hn; [by rewrite Hn|done].
Qed.

(** Requests of a key let through at times in [t, t + w). *)
Definition in_window (hist : list (str * Z)) (key : str) (t w : Z) : list (str * Z) :=
  filter (fun kt => kt.1 = key /\ t <= kt.2 < t + w) hist.

Lemma in_window_recent hist key t w now :
  Forall (fun kt => kt.2 <= now) hist -> t <= now < t + w ->
  (length (in_window hist key t w) <= length (recent hist key now w))%nat.
Proof.
  intros Hh Ht. unfold in_window, recent. induction Hh as [|[k s] hist Hs _ IH]; [done|].
  rewrite !filter_cons. cbn [fst snd] in *. destruct (decide (k = key /\ t <= s < t + w)) as [[-> Hw]|Hn].
  - rewrite decide_True by done. cbn [map snd]. rewrite filter_cons, decide_True by lia. cbn. lia.
  - destruct (decide (k = key)); [|done]. cbn [map snd]. rewrite filter_cons.
    destruct (decide (now - s < w)); cbn; lia.
Qed.

(** The exact decision. *)
Lemma check_decision max w hist now l now' key :
  limited max w hist now l -> now <= now' ->
  (check now' key l).1 = true <-> Z.of_nat (length (recent hist key now' w)) < max.
Proof.
  intros Hl Hle. destruct (limited_inv _ _ _ _ _ Hl) as (Hm & Hw & [Hp _ Hr]).
  destruct (check_cases now' key l) as (m & Hk & _ & ->). cbn [fst].
  rewrite Hk, Hm, Hw, retain_live_spec by (intros t Ht; specialize (Hp key t Ht); lia).
  rewrite (Hr key now') by lia. rewrite negb_true_iff, Z.leb_gt. done.
Qed.

(** C40: The limiter is an exact sliding window: whatever checks and clean-ups came before, in
    order of time, a request is let through exactly when fewer than the maximum were let
    through for its key within the window before it; so in every interval as long as the
    window, at most the maximum pass. *)
Theorem sliding_window max w hist now l (Hmax : 0 <= max) (Hl : limited max w hist now l) :
  (forall now' key, now <= now' ->
     (check now' key l).1 = true <-> Z.of_nat (length (recent hist key now' w)) < max)
  /\ (forall key t, Z.of_nat (length (in_window hist key t w)) <= max).
Proof.
  split; [intros now' key Hle; by eapply check_decision|]. intros key t.
  induction Hl as [now|hist now l now' key' ok l' Hl IH Hle E|hist now l now' _ IH _]; [done| |done].
  destruct ok; [|done]. unfold in_window in *. rewrite filter_cons. cbn [fst snd].
  destruct (decide (key' = key /\ t <= now' < t + w)) as [[-> Ht]|]; [|done].
  assert (Hd : (check now' key l).1 = true) by (by rewrite E).
  apply (check_decision _ _ _ _ _ _ _ Hl Hle) in Hd.
  destruct (limited_inv _ _ _ _ _ Hl) as (_ & _ & [_ Hh _]).
  pose proof (in_window_recent hist key t w now') as Hin. unfold in_window in Hin.
  assert (Forall (fun kt => kt.2 <= now') hist) by (eapply Forall_impl; [exact Hh|cbn; lia]).
  specialize (Hin ltac:(done) Ht). cbn [length]. lia.
Qed.

(** ** Runs *)

Module RateExamples.

Definition k : str := lit "10.0.0.1".
Definition once : InMemoryRateLimiter := (check 5 k (new 1 60)).2.

Lemma once_limited : limited 1 60 [(k, 5)] 5 once.
Proof. apply (limited_check 1 60 [] 0 (new 1 60) 5 k true once); [constructor|lia|vm_compute; reflexivity]. Qed.

Lemma sliding_window_witness :
  (check 30 k once).1 = true <-> Z.of_nat (length (recent [(k, 5)] k 30 60)) < 1.
Proof. apply (sliding_window 1 60 [(k, 5)] 5 once ltac:(lia) once_limited). lia. Defined.

End RateExamples.
