(* ===== verification/Ipam.v ===== *)
(** * Address management ([runesh-ipam/src/lib.rs])

    Prefixes, VLANs and address assignments. Every method holds the store's lock, so an
    operation is one step on the state. [Ipv4Net] of the ipnet crate is the interface
    [Ipv4NetApi]. *)
From S2P Require Import Prelude Str F64 Net.

#[local] Open Scope Z_scope.

(** [ipnet::Ipv4Net]: the host addresses in order, membership, the text. *)
Class Ipv4NetApi := {
  Ipv4Net : Type;
  hosts : Ipv4Net -> list Z;
  net_contains : Ipv4Net -> Z -> bool;
  net_string : Ipv4Net -> str
}.

(** Its documented behaviour: the hosts are addresses of the network. *)
Class Ipv4NetLaws `{Ipv4NetApi} : Prop := {
  hosts_contained n a : a ∈ hosts n -> net_contains n a = true
}.

Inductive PrefixStatus : Type := P_Active | P_Reserved | P_Deprecated.
Inductive IpStatus : Type := I_Active | I_Reserved | I_Deprecated | I_Dhcp.

Inductive IpamError : Type :=
  | PrefixNotFound (s : str)
  | Exhausted (s : str)
  | OutOfRange (s : str)
  | AlreadyAssigned (s : str).

Record Vlan := { v_id : Z; v_name : str; v_description : str; v_site : option str }.

Record IpAssignment := {
  address : Z;
  a_prefix : str;
  assigned_to : str;
  a_description : str;
  a_status : IpStatus
}.

Section Ipam.
Context `{Ipv4NetApi}.

Record Prefix := {
  id : str;
  network : Ipv4Net;
  description : str;
  vlan_id : option Z;
  site : option str;
  p_status : PrefixStatus
}.

Record IpamState := {
  prefixes : gmap str Prefix;
  vlans : gmap Z Vlan;
  assignments : list IpAssignment
}.

Definition new : IpamState := {| prefixes := ∅; vlans := ∅; assignments := [] |}.

Definition with_assignments (l : list IpAssignment) (s : IpamState) : IpamState :=
  {| prefixes := s.(prefixes); vlans := s.(vlans); assignments := l |}.

Definition add_prefix (p : Prefix) (s : IpamState) : IpamState :=
  {| prefixes := <[p.(id) := p]> s.(prefixes); vlans := s.(vlans); assignments := s.(assignments) |}.
Definition add_vlan (v : Vlan) (s : IpamState) : IpamState :=
  {| prefixes := s.(prefixes); vlans := <[v.(v_id) := v]> s.(vlans); assignments := s.(assignments) |}.

Definition active (pid to desc : str) (ip : Z) : IpAssignment :=
  {| address := ip; a_prefix := pid; assigned_to := to; a_description := desc; a_status := I_Active |}.

(** The addresses assigned in a prefix. *)
Definition assigned_in (pid : str) (s : IpamState) : list Z :=
  map address (filter (fun a => a.(a_prefix) = pid) s.(assignments)).

(** The loop over the hosts. *)
Fixpoint first_free (taken : list Z) (hs : list Z) : option Z :=
  match hs with
  | [] => None
  | h :: hs => if contains taken h then first_free taken hs else Some h
  end.

Definition allocate (pid to desc : str) (s : IpamState) : result IpamError Z * IpamState :=
  match s.(prefixes) !! pid with
  | None => (Err (PrefixNotFound pid), s)
  | Some p =>
      match first_free (assigned_in pid s) (hosts p.(network)) with
      | Some h => (Ok h, with_assignments (s.(assignments) ++ [active pid to desc h]) s)
      | None => (Err (Exhausted pid), s)
      end
  end.

Definition assign_specific (pid : str) (ip : Z) (to desc : str) (s : IpamState) : result IpamError unit * IpamState :=
  match s.(prefixes) !! pid with
  | None => (Err (PrefixNotFound pid), s)
  | Some p =>
      if negb (net_contains p.(network) ip) then (Err (OutOfRange (show_ipv4 ip)), s)
      else if existsb (fun a => (a.(address) =? ip) && bool_decide (a.(a_prefix) = pid)) s.(assignments)
      then (Err (AlreadyAssigned (show_ipv4 ip)), s)
      else (Ok tt, with_assignments (s.(assignments) ++ [active pid to desc ip]) s)
  end.

Definition release (pid : str) (ip : Z) (s : IpamState) : bool * IpamState :=
  let l := filter (fun a => ~ (a.(address) = ip /\ a.(a_prefix) = pid)) s.(assignments) in
  ((length l <? length s.(assignments))%nat, with_assignments l s).

Definition release_all (ip : Z) (s : IpamState) : bool * IpamState :=
  let l := filter (fun a => a.(address) <> ip) s.(assignments) in
  ((length l <? length s.(assignments))%nat, with_assignments l s).

Record PrefixUtilization := {
  u_prefix : str;
  u_network : str;
  total_hosts : Z;
  assigned : Z;
  available : Z;
  utilization_percent : f64
}.

Definition utilization (pid : str) (s : IpamState) : option PrefixUtilization :=
  prefix ← s.(prefixes) !! pid;
  let total := wrap 32 (Z.of_nat (length (hosts prefix.(network)))) in
  let assigned := wrap 32 (Z.of_nat (length (assigned_in pid s))) in
  Some {| u_prefix := pid; u_network := net_string prefix.(network); total_hosts := total;
          assigned := assigned; available := sat_sub total assigned;
          utilization_percent :=
            if total =? 0 then of_int 0 else fmul (fdiv (of_int assigned) (of_int total)) (of_int 100) |}.

(** [l] is the order in which the prefixes are iterated. *)
Definition find_prefix (l : list (str * Prefix)) (ip : Z) : option Prefix :=
  snd <$> List.find (fun kv => net_contains kv.2.(network) ip) l.

Definition assignments_for (to : str) (s : IpamState) : list IpAssignment :=
  filter (fun a => a.(assigned_to) = to) s.(assignments).
Definition prefix_count (s : IpamState) : nat := size s.(prefixes).
Definition assignment_count (s : IpamState) : nat := length s.(assignments).

(** ** Proofs *)

Inductive ipam_step : IpamState -> IpamState -> Prop :=
  | step_prefix p s : ipam_step s (add_prefix p s)
  | step_vlan v s : ipam_step s (add_vlan v s)
  | step_allocate pid to desc s : ipam_step s (allocate pid to desc s).2
  | step_assign pid ip to desc s : ipam_step s (assign_specific pid ip to desc s).2
  | step_release pid ip s : ipam_step s (release pid ip s).2
  | step_release_all ip s : ipam_step s (release_all ip s).2.

(** No address is assigned twice in a prefix. *)
Definition place (a : IpAssignment) : str * Z := (a.(a_prefix), a.(address)).
Definition unique (s : IpamState) : Prop := NoDup (map place s.(assignments)).

Lemma elem_of_assigned_in pid ip s : ip ∈ assigned_in pid s <-> (pid, ip) ∈ map place s.(assignments).
Proof.
  unfold assigned_in. rewrite !list_elem_of_fmap. split.
  - intros (a & -> & [<- Ha]%list_elem_of_filter). by exists a.
  - intros (a & [= -> ->] & Ha). exists a. by rewrite list_elem_of_filter.
Qed.

Lemma first_free_spec taken hs :
  match first_free taken hs with
  | Some h => exists before after, hs = before ++ h :: after /\ (h ∉ taken) /\ forall x, x ∈ before -> x ∈ taken
  | None => forall h, h ∈ hs -> h ∈ taken
  end.
Proof.
  induction hs as [|h hs IH]; cbn; [by intros h ?%elem_of_nil|].
  destruct (contains taken h) eqn:Hc.
  - apply contains_true in Hc. destruct (first_free taken hs) as [h'|].
    + destruct IH as (b & a & -> & Hn & Hb). exists (h :: b), a. split; [done|]. split; [done|].
      intros x [->|Hx]%elem_of_cons; auto.
    + intros x [->|Hx]%elem_of_cons; auto.
  - exists [], hs. split; [done|]. split; [|by intros x ?%elem_of_nil].
    intros Hin. apply contains_true in Hin. congruence.
Qed.

Lemma push_unique s a :
  unique s -> place a ∉ map place s.(assignments) -> unique (with_assignments (s.(assignments) ++ [a]) s).
Proof.
  unfold unique. intros Hu Hn. cbn. rewrite map_app. cbn. apply NoDup_app.
  split; [done|]. split; [|apply NoDup_singleton]. intros x Hx ->%list_elem_of_singleton. done.
Qed.

Lemma filter_unique P `{forall a : IpAssignment, Decision (P a)} s :
  unique s -> unique (with_assignments (filter P s.(assignments)) s).
Proof.
  unfold unique. cbn. induction (assignments s) as [|a l IH]; [done|].
  rewrite filter_cons. cbn [map]. intros [Hn Hu]%NoDup_cons. destruct (decide (P a)); [|by apply IH].
  cbn [map]. apply NoDup_cons. split; [|by apply IH]. intros (b & Eb & [_ Hb]%list_elem_of_filter)%list_elem_of_fmap.
  apply Hn. rewrite Eb. by apply list_elem_of_fmap_2.
Qed.

Lemma ipam_step_unique s s' : unique s -> ipam_step s s' -> unique s'.
Proof.
  intros Hu. destruct 1 as [p s|v s|pid to desc s|pid ip to desc s|pid ip s|ip s]; try done.
  - unfold allocate. destruct (prefixes s !! pid) as [p|]; [|done].
    pose proof (first_free_spec (assigned_in pid s) (hosts (network p))) as Hf.
    destruct (first_free _ _) as [h|]; [|done]. destruct Hf as (_ & _ & _ & Hn & _).
    apply push_unique; [done|]. change (place (active pid to desc h)) with (pid, h).
    by rewrite <- elem_of_assigned_in.
  - unfold assign_specific. destruct (prefixes s !! pid) as [p|]; [|done].
    case_if; [done|]. destruct (existsb _ _) eqn:He; [done|].
    apply push_unique; [done|]. change (place (active pid to desc ip)) with (pid, ip).
    rewrite <- elem_of_assigned_in. unfold assigned_in.
    rewrite list_elem_of_fmap. intros (a & Ea & [Hpa Ha]%list_elem_of_filter).
    rewrite existsb_elem_false in He. specialize (He a Ha).
    rewrite Ea, Z.eqb_refl, bool_decide_true in He by done. done.
  - by apply filter_unique.
  - by apply filter_unique.
Qed.

(** Address allocation is sound: in every store reached by any operations, no address is
    assigned twice in a prefix, and allocating in a known prefix gives its first host that is
    not assigned there, which lies in the network, and records exactly that assignment; it
    reports exhaustion exactly when every host is assigned. *)
Theorem ipam_allocate_spec `{!Ipv4NetLaws} s pid to desc p
    (Hs : star ipam_step new s) (Hp : s.(prefixes) !! pid = Some p) :
  unique s
  /\ match allocate pid to desc s with
     | (Ok ip, s') =>
         (exists before after, hosts p.(network) = before ++ ip :: after
            /\ forall h, h ∈ before -> h ∈ assigned_in pid s)
         /\ net_contains p.(network) ip = true /\ (ip ∉ assigned_in pid s)
         /\ s'.(assignments) = s.(assignments) ++ [active pid to desc ip]
         /\ s'.(prefixes) = s.(prefixes)
     | (Err e, s') => e = Exhausted pid /\ s' = s /\ forall h, h ∈ hosts p.(network) -> h ∈ assigned_in pid s
     end.
Proof.
  split.
  - apply (star_invariant ipam_step unique new s ipam_step_unique Hs). apply NoDup_nil_2.
  - unfold allocate. rewrite Hp.
    pose proof (first_free_spec (assigned_in pid s) (hosts (network p))) as Hf.
    destruct (first_free _ _) as [ip|]; [|done].
    destruct Hf as (b & a & Eh & Hn & Hb). split; [by exists b, a|]. split; [|done].
    apply hosts_contained. rewrite Eh. apply elem_of_app. right. by left.
Qed.

Lemma filter_shorter {A} (P : A -> Prop) `{forall x, Decision (P x)} l :
  (length (filter P l) < length l)%nat -> exists x, x ∈ l /\ ~ P x.
Proof.
  induction l as [|x l IH]; cbn [length]; [lia|]. rewrite filter_cons. destruct (decide (P x)).
  - cbn. intros Hl. destruct IH as (y & Hy & Hn); [lia|]. exists y. split; [by right|done].
  - intros _. exists x. split; [by left|done].
Qed.

(** A released address is free again, and only that one. *)
Lemma release_spec pid ip s :
  let '(found, s') := release pid ip s in
  (found = true <-> ip ∈ assigned_in pid s)
  /\ forall pid' ip', ip' ∈ assigned_in pid' s' <-> ip' ∈ assigned_in pid' s /\ ~ (pid' = pid /\ ip' = ip).
Proof.
  unfold release. cbv zeta. split.
  - rewrite Nat.ltb_lt, elem_of_assigned_in. split.
    + intros (a & Ha & Hn)%filter_shorter. apply dec_stable in Hn as [Hip Hpid].
      apply list_elem_of_fmap. exists a. split; [|done]. unfold place. by rewrite Hip, Hpid.
    + intros (a & Ea & Ha)%list_elem_of_fmap. apply (length_filter_lt _ _ a); [done|].
      injection Ea as -> ->. tauto.
  - intros pid' ip'. rewrite !elem_of_assigned_in. cbn [assignments with_assignments].
    rewrite !list_elem_of_fmap. split.
    + intros (a & Ea & [Hn Ha]%list_elem_of_filter). split; [by exists a|]. injection Ea as -> ->. tauto.
    + intros [(a & Ea & Ha) Hn]. exists a. split; [done|]. apply list_elem_of_filter. split; [|done].
      injection Ea as -> ->. tauto.
Qed.

End Ipam.

(** ** Runs *)

Module IpamStoreExamples.

(** Networks as a base address and a number of hosts. *)
#[local] Instance block_net : Ipv4NetApi := {|
  Ipv4Net := Z * nat;
  hosts n := map (fun i => n.1 + 1 + Z.of_nat i) (seq 0 n.2);
  net_contains n a := (n.1 <=? a) && (a <=? n.1 + 1 + Z.of_nat n.2);
  net_string n := show_ipv4 n.1
|}.

#[local] Instance block_laws : Ipv4NetLaws.
Proof.
  split. intros [b n] a. cbn. intros (i & -> & Hi%elem_of_seq)%list_elem_of_fmap.
  apply andb_true_iff. rewrite !Z.leb_le. lia.
Qed.

Definition lan : Prefix :=
  {| id := lit "lan"; network := (ipv4 10 0 0 0, 2%nat) : @Ipv4Net block_net; description := []; vlan_id := None;
     site := None; p_status := P_Active |}.
Definition store : IpamState := add_prefix lan new.

Lemma ipam_allocate_spec_witness : unique store /\ (allocate (lit "lan") [] [] store).1 = Ok (ipv4 10 0 0 1).
Proof.
  split; [|vm_compute; reflexivity].
  apply (ipam_allocate_spec store (lit "lan") [] [] lan); [|reflexivity].
  apply star_one. constructor.
Defined.

End IpamStoreExamples.
