(* ===== verification/License.v ===== *)
(** * Licenses ([runesh-license/src/lib.rs])

    License records, the store and seat assignment. Dates are day numbers, and the clock is
    an argument. *)
From Stdlib Require Import Floats.SpecFloat.
From S2P Require Import Prelude Str F64.

#[local] Open Scope Z_scope.

Inductive LicenseType : Type :=
  | Perpetual | Subscription | PerUser | PerDevice | SiteLicense | OpenSource | Trial.

Record License := {
  id : str;
  product : str;
  vendor : str;
  license_type : LicenseType;
  total_seats : Z;
  used_seats : Z;
  purchase_date : option Z;
  expiry_date : option Z;
  cost : option f64;
  currency : option str;
  license_key : option str;
  notes : str
}.

Record Assignment := { license_id : str; assigned_to : str; assigned_at : Z }.

Record Utilization := {
  u_license_id : str;
  u_product : str;
  u_total : Z;
  u_used : Z;
  u_available : Z;
  u_percent : f64
}.

Definition available_seats (l : License) : Z := sat_sub l.(total_seats) l.(used_seats).

Definition utilization_percent (l : License) : f64 :=
  if l.(total_seats) =? 0 then of_int 0
  else fmul (fdiv (of_int l.(used_seats)) (of_int l.(total_seats))) (of_int 100).

Definition is_expired (today : Z) (l : License) : bool :=
  match l.(expiry_date) with Some e => e <? today | None => false end.

Definition is_over_licensed (l : License) : bool :=
  SFltb (utilization_percent l) (of_int 50) && (5 <? l.(total_seats)).

Definition is_under_licensed (l : License) : bool := l.(total_seats) <? l.(used_seats).

Definition to_utilization (l : License) : Utilization :=
  {| u_license_id := l.(id); u_product := l.(product); u_total := l.(total_seats); u_used := l.(used_seats);
     u_available := available_seats l; u_percent := utilization_percent l |}.

Definition set_used (n : Z) (l : License) : License :=
  {| id := l.(id); product := l.(product); vendor := l.(vendor); license_type := l.(license_type);
     total_seats := l.(total_seats); used_seats := n; purchase_date := l.(purchase_date);
     expiry_date := l.(expiry_date); cost := l.(cost); currency := l.(currency);
     license_key := l.(license_key); notes := l.(notes) |}.

(** ** The store *)

Record LicenseStore := { licenses : gmap str License; assignments : list Assignment }.

Definition new : LicenseStore := {| licenses := ∅; assignments := [] |}.

Definition add (l : License) (s : LicenseStore) : LicenseStore :=
  {| licenses := <[l.(id) := l]> s.(licenses); assignments := s.(assignments) |}.

Definition get (i : str) (s : LicenseStore) : option License := s.(licenses) !! i.

Definition assign (i to : str) (now : Z) (s : LicenseStore) : result str unit * LicenseStore :=
  match s.(licenses) !! i with
  | None => (Err (lit "license " ++ i ++ lit " not found"), s)
  | Some lic =>
      if lic.(total_seats) <=? lic.(used_seats) then (Err (lit "no available seats"), s)
      else (Ok tt,
            {| licenses := <[i := set_used (wadd 32 lic.(used_seats) 1) lic]> s.(licenses);
               assignments := s.(assignments) ++ [{| license_id := i; assigned_to := to; assigned_at := now |}] |})
  end.

Definition revoke (i from : str) (s : LicenseStore) : bool * LicenseStore :=
  match s.(licenses) !! i with
  | None => (false, s)
  | Some lic =>
      let l := filter (fun a => ~ (a.(license_id) = i /\ a.(assigned_to) = from)) s.(assignments) in
      if (length l <? length s.(assignments))%nat
      then (true, {| licenses := <[i := set_used (sat_sub lic.(used_seats) 1) lic]> s.(licenses); assignments := l |})
      else (false, {| licenses := s.(licenses); assignments := l |})
  end.

(** [l] is the order in which the licenses are iterated. *)
Definition over_licensed (l : list (str * License)) : list License :=
  filter (fun x => is_over_licensed x = true) (map snd l).
Definition under_licensed (l : list (str * License)) : list License :=
  filter (fun x => is_under_licensed x = true) (map snd l).
Definition expiring_within (today days : Z) (l : list (str * License)) : list License :=
  filter (fun x => match x.(expiry_date) with
                   | Some e => (e <=? today + days) && (today <=? e)
                   | None => false
                   end = true) (map snd l).
Definition len (s : LicenseStore) : nat := size s.(licenses).
Definition is_empty (s : LicenseStore) : bool := bool_decide (s.(licenses) = ∅).

(** ** Proofs *)

Definition held (i : str) (s : LicenseStore) : list Assignment := filter (fun a => a.(license_id) = i) s.(assignments).

(** Licenses are added unused and once; then seats are assigned and revoked. *)
Inductive license_step : LicenseStore -> LicenseStore -> Prop :=
  | step_add l s : get l.(id) s = None -> l.(used_seats) = 0 -> is_u 32 l.(total_seats) -> license_step s (add l s)
  | step_assign i to now s : license_step s (assign i to now s).2
  | step_revoke i from s : license_step s (revoke i from s).2.

(** Seats in use are within the total and cover the assignments. *)
Definition seats_ok (s : LicenseStore) : Prop :=
  (forall i l, get i s = Some l ->
     is_u 32 l.(total_seats) /\ Z.of_nat (length (held i s)) <= l.(used_seats) <= l.(total_seats))
  /\ (forall a, a ∈ s.(assignments) -> is_Some (get a.(license_id) s)).

Lemma held_snoc i s a m :
  held i {| licenses := m; assignments := s.(assignments) ++ [a] |}
  = held i s ++ (if decide (a.(license_id) = i) then [a] else []).
Proof. unfold held. cbn. by rewrite filter_app, filter_cons, filter_nil. Qed.

Lemma assign_ok i to now s : seats_ok s -> seats_ok (assign i to now s).2.
Proof.
  intros [Hs Ha]. unfold assign. destruct (licenses s !! i) as [lic|] eqn:Hi; [|done].
  destruct (Z.leb_spec (total_seats lic) (used_seats lic)); [done|]. cbn [snd].
  destruct (Hs i lic Hi) as [Ht Hu]. unfold is_u in Ht. split.
  - intros j l. unfold get. cbn [licenses]. rewrite held_snoc. cbn [license_id].
    destruct (decide (i = j)) as [<-|Hne].
    + rewrite lookup_insert_eq. intros [= <-]. cbn. rewrite length_app, wadd_small by lia. cbn. split; [done|lia].
    + rewrite lookup_insert_ne, app_nil_r by done. apply Hs.
  - intros a. unfold get. cbn [licenses assignments]. rewrite elem_of_app, list_elem_of_singleton.
    intros [Hin| ->]; cbn; rewrite lookup_insert_is_Some; [|by left].
    destruct (decide (i = license_id a)); [by left|right; split; [done|by apply Ha]].
Qed.

(** The assignments of a license to one holder. *)
Definition held_by (i from : str) (s : LicenseStore) : list Assignment :=
  filter (fun a => a.(license_id) = i /\ a.(assigned_to) = from) s.(assignments).

(** What remains of the assignments of a license when those of one holder go. *)
Lemma held_after_revoke i from (l : list Assignment) :
  length (filter (fun a => a.(license_id) = i) l)
  = (length (filter (fun a => a.(license_id) = i) (filter (fun a => ~ (a.(license_id) = i /\ a.(assigned_to) = from)) l))
     + length (filter (fun a => a.(license_id) = i /\ a.(assigned_to) = from) l))%nat.
Proof.
  induction l as [|a l IH]; [done|]. rewrite !filter_cons.
  destruct (decide (a.(license_id) = i)) as [Hi|Hi].
  - destruct (decide (a.(assigned_to) = from)) as [Hf|Hf].
    + rewrite decide_False by tauto. rewrite decide_True by done. cbn [length]. lia.
    + rewrite decide_True by tauto. rewrite filter_cons, decide_True by done.
      rewrite decide_False by tauto. cbn [length]. lia.
  - rewrite decide_True by tauto. rewrite filter_cons, decide_False by done. by rewrite decide_False by tauto.
Qed.

Lemma other_held i j from (l : list Assignment) :
  i <> j ->
  filter (fun a => a.(license_id) = j) (filter (fun a => ~ (a.(license_id) = i /\ a.(assigned_to) = from)) l)
  = filter (fun a => a.(license_id) = j) l.
Proof. intros Hne. apply list_filter_filter_l. intros a <- [? _]. congruence. Qed.

(** Some assignment goes exactly when the holder has one. *)
Lemma revoke_shrinks i from (l : list Assignment) :
  (length (filter (fun a => ~ (a.(license_id) = i /\ a.(assigned_to) = from)) l) <? length l)%nat
  = negb (length (filter (fun a => a.(license_id) = i /\ a.(assigned_to) = from) l) =? 0)%nat.
Proof.
  assert (Hsum : (length (filter (fun a => ~ (a.(license_id) = i /\ a.(assigned_to) = from)) l)
           + length (filter (fun a => a.(license_id) = i /\ a.(assigned_to) = from) l) = length l)%nat).
  { induction l as [|a l IH]; [done|]. rewrite !filter_cons.
    destruct (decide (a.(license_id) = i /\ a.(assigned_to) = from)).
    - rewrite decide_False by tauto. cbn [length]. lia.
    - rewrite decide_True by tauto. cbn [length]. lia. }
  destruct (Nat.eqb_spec (length (filter (fun a => a.(license_id) = i /\ a.(assigned_to) = from) l)) 0); cbn [negb].
  - apply Nat.ltb_ge. lia.
  - apply Nat.ltb_lt. lia.
Qed.

Lemma revoke_ok i from s : seats_ok s -> seats_ok (revoke i from s).2.
Proof.
  intros [Hs Ha]. unfold revoke. destruct (licenses s !! i) as [lic|] eqn:Hi; [|done]. cbv zeta.
  rewrite revoke_shrinks. pose proof (held_after_revoke i from (assignments s)) as Hh.
  fold (held_by i from s) in *. fold (held i s) in Hh. destruct (Hs i lic Hi) as [Ht Hu].
  assert (Hsub : forall a, a ∈ filter (fun a => ~ (a.(license_id) = i /\ a.(assigned_to) = from)) s.(assignments) ->
            is_Some (get a.(license_id) s)) by (intros a [_ Hin]%list_elem_of_filter; by apply Ha).
  destruct (Nat.eqb_spec (length (held_by i from s)) 0); cbn [negb snd].
  - split; [|done]. intros j l Hj. destruct (Hs j l Hj) as [Htj Huj]. split; [done|]. unfold held. cbn [assignments].
    destruct (decide (i = j)) as [<-|Hne]; [lia|]. by rewrite other_held.
  - split.
    + intros j l. unfold get, held. cbn [licenses assignments]. destruct (decide (i = j)) as [<-|Hne].
      * rewrite lookup_insert_eq. intros [= <-]. cbn. split; [done|]. unfold sat_sub. lia.
      * rewrite lookup_insert_ne, other_held by done. apply Hs.
    + intros a Hin. unfold get. cbn [licenses]. apply lookup_insert_is_Some.
      destruct (decide (i = license_id a)); [by left|right; split; [done|by apply Hsub]].
Qed.

Lemma add_ok l s :
  seats_ok s -> get l.(id) s = None -> l.(used_seats) = 0 -> is_u 32 l.(total_seats) -> seats_ok (add l s).
Proof.
  intros [Hs Ha] Hn Hu Ht. split.
  - intros j lic. unfold get. cbn [licenses add]. destruct (decide (l.(id) = j)) as [<-|Hne].
    + rewrite lookup_insert_eq. intros [= <-]. split; [done|]. unfold is_u in Ht. rewrite Hu.
      destruct (held (id l) (add l s)) as [|a r] eqn:E; [cbn; lia|]. exfalso.
      assert (Hin : a ∈ held (id l) (add l s)) by (rewrite E; by left).
      apply list_elem_of_filter in Hin as [Hid Hin]. destruct (Ha a Hin) as [x Hx]. congruence.
    + rewrite lookup_insert_ne by done. apply Hs.
  - intros a Hin. unfold get. cbn [licenses add]. apply lookup_insert_is_Some.
    destruct (decide (l.(id) = license_id a)); [by left|right; split; [done|by apply Ha]].
Qed.

(** Seats are never oversold: in every store built by adding unused licenses and assigning
    and revoking seats, the seats in use are at most the seats bought and at least the
    assignments; and assigning succeeds exactly when a seat is free, and then takes one. *)
Theorem seats_not_oversold s i l to now (Hs : star license_step new s) (Hi : get i s = Some l) :
  Z.of_nat (length (held i s)) <= l.(used_seats) <= l.(total_seats)
  /\ ((assign i to now s).1 = Ok tt <-> 0 < available_seats l)
  /\ ((assign i to now s).1 = Ok tt ->
      exists l', get i (assign i to now s).2 = Some l' /\ l'.(used_seats) = l.(used_seats) + 1
        /\ length (held i (assign i to now s).2) = S (length (held i s))).
Proof.
  assert (Hok : seats_ok s).
  { apply (star_invariant license_step seats_ok new s); [|done|].
    - intros a b Hab. destruct 1; [by apply add_ok|by apply assign_ok|by apply revoke_ok].
    - split; [intros j x; unfold get; cbn; by rewrite lookup_empty|]. intros a Hin. by apply elem_of_nil in Hin. }
  destruct Hok as [Hok _]. destruct (Hok i l Hi) as [Ht Hu]. split; [done|].
  unfold assign, available_seats, sat_sub. unfold get in Hi. rewrite Hi.
  destruct (Z.leb_spec (total_seats l) (used_seats l)); cbn [fst snd].
  - split; [split; [done|lia]|done].
  - split; [split; [lia|done]|]. intros _. exists (set_used (wadd 32 (used_seats l) 1) l).
    unfold get. cbn [licenses]. rewrite lookup_insert_eq, held_snoc, decide_True, length_app by done. cbn.
    unfold is_u in Ht. rewrite wadd_small by lia. split; [done|]. split; [done|lia].
Qed.

(** Revoking loses seats: when a holder has several assignments of a license, [revoke]
    removes them all but gives back a single seat, so the difference stays in use with no
    holder. *)
Theorem revoke_loses_seats s i from l
    (Hi : get i s = Some l) (Hheld : held_by i from s <> []) (Hused : 1 <= l.(used_seats)) :
  (revoke i from s).1 = true
  /\ exists l', get i (revoke i from s).2 = Some l' /\ l'.(used_seats) = l.(used_seats) - 1
  /\ length (held i (revoke i from s).2) = (length (held i s) - length (held_by i from s))%nat.
Proof.
  unfold revoke. unfold get in Hi. rewrite Hi. cbv zeta. rewrite revoke_shrinks.
  pose proof (held_after_revoke i from (assignments s)) as Hh. fold (held_by i from s) (held i s) in *.
  destruct (Nat.eqb_spec (length (held_by i from s)) 0) as [E|]; cbn [negb fst snd].
  - by apply nil_length_inv in E.
  - split; [done|]. eexists. unfold get. cbn [licenses]. rewrite lookup_insert_eq. split; [done|].
    cbn [used_seats set_used]. unfold sat_sub. split; [lia|]. unfold held in *. cbn [assignments]. lia.
Qed.

(** ** Runs *)

Module LicenseExamples.

Definition office : License :=
  {| id := lit "office"; product := []; vendor := []; license_type := PerUser; total_seats := 2; used_seats := 0;
     purchase_date := None; expiry_date := None; cost := None; currency := None; license_key := None; notes := [] |}.
Definition s1 : LicenseStore := add office new.
Definition s2 : LicenseStore := (assign (lit "office") (lit "ann") 0 s1).2.
Definition s3 : LicenseStore := (assign (lit "office") (lit "ann") 1 s2).2.

Lemma seats_not_oversold_witness : (assign (lit "office") (lit "ann") 0 s1).1 = Ok tt <-> 0 < available_seats office.
Proof.
  apply (seats_not_oversold s1 (lit "office") office (lit "ann") 0); [|reflexivity].
  apply star_one. by constructor.
Defined.

(** Two assignments to one holder, revoked: one seat stays in use. *)
Lemma revoke_loses_seats_witness :
  (revoke (lit "office") (lit "ann") s3).1 = true
  /\ used_seats <$> get (lit "office") (revoke (lit "office") (lit "ann") s3).2 = Some 1
  /\ held (lit "office") (revoke (lit "office") (lit "ann") s3).2 = [].
Proof.
  destruct (revoke_loses_seats s3 (lit "office") (lit "ann") (set_used 2 office)) as [H1 _].
  - reflexivity.
  - vm_compute. discriminate.
  - cbn. lia.
  - split; [exact H1|]. split; vm_compute; reflexivity.
Defined.

End LicenseExamples.
