(* ===== verification/Proxy.v ===== *)
(** * The reverse proxy's configuration and router ([runesh-proxy/src/config.rs, router.rs])

    Resources, their validation at load time, host normalization and the routing decision
    with its round-robin counters. A counter is an atomic integer: [fetch_add] is one step
    and wraps at 64 bits. [resolve] is in the option monad, [None] standing for the panic of
    a missing counter. The orders of iteration and the debug text of a header name are
    arguments; [ipnet] is the interface of [Net]. *)
From S2P Require Import Prelude Str Net.

#[local] Open Scope Z_scope.

Inductive ProxyError : Type :=
  | NoRoute (e : str)
  | BackendUnreachable (e : str)
  | AccessDenied (e : str)
  | Certificate (e : str)
  | InvalidConfig (e : str)
  | Io (e : str).

(** ** Configuration *)

Inductive Protocol : Type := Https | Http | Tcp | Udp | Grpc.

Record Backend := { address : str; port : Z; b_tls : bool; weight : Z; healthy : bool }.

Inductive LoadBalance : Type := RoundRobin | LeastConn | Random | IpHash.

Inductive AcmeChallenge : Type := Dns01 | TlsAlpn01.

Record TlsConfig := {
  acme : bool;
  acme_challenge : AcmeChallenge;
  cert_pem : option str;
  key_pem : option str
}.

Record NetworkFilter := {
  allow_ips : list str;
  deny_ips : list str;
  allow_geo : list str;
  deny_geo : list str;
  rate_limit_rps : Z
}.

Record TimeFilter := { windows : list str; maintenance : bool }.

Inductive AuthMode : Type := Public | Sso | Group | Mtls | Psk | OneTime | MeshOnly.

#[global] Instance AuthMode_eq_dec : EqDecision AuthMode.
Proof. solve_decision. Defined.

Record IdentityGate := { mode : AuthMode }.

Record AuthzFilter := {
  groups : list str;
  methods : list str;
  paths : list str;
  require_mfa : bool;
  posture : list str
}.

Record AccessConfig := {
  network : NetworkFilter;
  time : option TimeFilter;
  identity : IdentityGate;
  authz : option AuthzFilter
}.

Record PathRewrite := { match_prefix : str; replace_prefix : str }.

Record HttpConfig := {
  rewrites : list PathRewrite;
  request_headers : gmap str str;
  response_headers : gmap str str;
  hsts : bool;
  force_https : bool
}.

Record Resource := {
  id : str;
  tenant_id : str;
  hostname : str;
  public_port : Z;
  protocol : Protocol;
  backends : list Backend;
  load_balance : LoadBalance;
  tls : TlsConfig;
  access : AccessConfig;
  http : option HttpConfig;
  enabled : bool
}.

Record ProxyConfig := { resources : gmap str Resource }.

Definition BLOCKED_HEADER_NAMES : list str :=
  [lit "connection"; lit "content-length"; lit "transfer-encoding"; lit "upgrade"; lit "host";
   lit "x-forwarded-for"; lit "x-forwarded-proto"; lit "x-real-ip"; lit "authorization"].

Definition SSRF_DENY_CIDRS : list str :=
  [lit "127.0.0.0/8"; lit "::1/128"; lit "169.254.0.0/16"; lit "fe80::/10"].

Definition route (h : str) (c : ProxyConfig) : option Resource := c.(resources) !! h.

Definition upsert (r : Resource) (c : ProxyConfig) : ProxyConfig :=
  {| resources := <[r.(hostname) := r]> c.(resources) |}.

Definition remove (h : str) (c : ProxyConfig) : option Resource * ProxyConfig :=
  (c.(resources) !! h, {| resources := delete h c.(resources) |}).

(** [l] is the order in which the resources are iterated. *)
Definition tenant_resources (l : list (str * Resource)) (t : str) : list Resource :=
  filter (fun r => r.(tenant_id) = t) (map snd l).

Definition hostnames (l : list (str * Resource)) : list str :=
  map hostname (filter (fun r => r.(enabled) = true) (map snd l)).

(** RFC 7230 token characters. *)
Definition token_char (b : Z) : bool :=
  contains (lit "!#$%&'*+-.^_`|~") b || is_ascii_alphanumeric b.

Definition validate_header (name value : str) : result str unit :=
  if bool_decide (name = []) then Err (lit "empty header name")
  else if negb (forallb token_char name) then Err (lit "header name contains invalid characters")
  else if existsb (fun blocked => eq_ignore_ascii_case name blocked) BLOCKED_HEADER_NAMES
  then Err (lit "header name is blocked")
  else if existsb (fun b => (b =? 0) || (b =? 13) || (b =? 10)) value
  then Err (lit "header value contains CR, LF, or NUL")
  else Ok tt.

Definition normalize_hostname (input : str) : str :=
  let trimmed := to_ascii_lowercase (trim_end_matches c_dot (trim input)) in
  let strip_port :=
    match rsplit_once c_colon trimmed with
    | Some (host, port) => if forallb is_ascii_digit port then host else trimmed
    | None => trimmed
    end in
  if starts_with [c_lbracket] trimmed
  then match rsplit_once c_rbracket trimmed with
       | Some (a, _) => a ++ [c_rbracket]
       | None => strip_port
       end
  else strip_port.

(** ** Resources *)

Definition healthy_backends (r : Resource) : list Backend :=
  filter (fun b => b.(healthy) = true) r.(backends).

Definition requires_auth (r : Resource) : bool :=
  negb (bool_decide (r.(access).(identity).(mode) = Public)).

Definition is_mesh_only (r : Resource) : bool :=
  bool_decide (r.(access).(identity).(mode) = MeshOnly).

Section Proxy.
Context `{IpNetApi}.

Definition ip_matches (entry : str) (ip : IpAddr) : bool :=
  match ipnet_from_str entry with
  | Some net => ipnet_contains net ip
  | None => match ip_from_str entry with
            | Some entry_ip => bool_decide (entry_ip = ip)
            | None => false
            end
  end.

Definition check_ip (ip : str) (r : Resource) : bool :=
  let nf := r.(access).(network) in
  match ip_from_str ip with
  | None => false
  | Some parsed =>
      if negb (bool_decide (nf.(deny_ips) = [])) && existsb (fun d => ip_matches d parsed) nf.(deny_ips)
      then false
      else if negb (bool_decide (nf.(allow_ips) = []))
      then existsb (fun a => ip_matches a parsed) nf.(allow_ips)
      else true
  end.

(** ** Validation *)

Inductive HostSpec : Type :=
  | Exact (s : str)
  | Suffix (s : str)
  | Cidr (n : IpNet).

Record BackendValidation := {
  allowed_backend_schemes : gset str;
  allowed_backend_hosts : option (list HostSpec)
}.

Definition default_validation : BackendValidation :=
  {| allowed_backend_schemes := {[lit "http"; lit "https"]}; allowed_backend_hosts := None |}.

Definition host_spec_matches (spec : HostSpec) (address : str) : bool :=
  match spec with
  | Exact s => eq_ignore_ascii_case s address
  | Suffix suffix => ends_with (to_ascii_lowercase suffix) (to_ascii_lowercase address)
  | Cidr net => match ip_from_str address with Some ip => ipnet_contains net ip | None => false end
  end.

Definition is_ssrf_sensitive (host : str) : bool :=
  if bool_decide (host = lit "169.254.169.254")
     || eq_ignore_ascii_case host (lit "metadata.google.internal") then true
  else if match ip_from_str host with
          | Some ip => existsb (fun cidr => match ipnet_from_str cidr with
                                            | Some net => ipnet_contains net ip
                                            | None => false
                                            end) SSRF_DENY_CIDRS
          | None => false
          end then true
  else eq_ignore_ascii_case host (lit "localhost").

Definition allowlist_permits (host : str) (v : BackendValidation) : bool :=
  match v.(allowed_backend_hosts) with
  | Some entries => existsb (fun spec => host_spec_matches spec host) entries
  | None => false
  end.

(** The host part: user information, port and path are cut off. *)
Definition backend_host (rest : str) : str :=
  let host := default rest (head (split c_slash rest)) in
  let host := match rsplit_once c_at host with Some (_, h) => h | None => host end in
  let bare := trim_end_matches c_rbracket (trim_start_matches c_lbracket host) in
  match rsplit_once c_colon host with
  | Some (h, _) => if negb (bool_decide (h = [])) && negb (contains_char c_colon h) then h else bare
  | None => bare
  end.

Definition validate_backend_address (address : str) (v : BackendValidation) : result str unit :=
  if bool_decide (address = []) then Err (lit "empty address")
  else if contains_char 0 address then Err (lit "address contains null byte")
  else
    let '(scheme, rest) := match split_once_str (lit "://") address with
                           | Some (s, rest) => (Some (to_ascii_lowercase s), rest)
                           | None => (None, address)
                           end in
    let host := backend_host rest in
    match scheme with
    | Some s => if bool_decide (s ∈ v.(allowed_backend_schemes)) then Ok tt
                else Err (lit "scheme '" ++ s ++ lit "' not allowed")
    | None => Ok tt
    end ≫= fun _ =>
    if is_ssrf_sensitive host && negb (allowlist_permits host v)
    then Err (lit "host '" ++ host ++ lit "' resolves to a loopback, link-local, or metadata endpoint")
    else match v.(allowed_backend_hosts) with
         | Some allowed =>
             if existsb (fun spec => host_spec_matches spec host) allowed then Ok tt
             else Err (lit "host '" ++ host ++ lit "' not in allowlist")
         | None => Ok tt
         end.

Definition map_err {E F A} (f : E -> F) (r : result E A) : result F A :=
  match r with Ok a => Ok a | Err e => Err (f e) end.

(** [debug] is the [{:?}] text of a string, [order] the order of iteration of a header map. *)
Definition validate_resource (debug : str -> str) (order : gmap str str -> list (str * str))
    (r : Resource) (v : BackendValidation) : result ProxyError unit :=
  _ ← try_for (fun b _ =>
        map_err (fun msg => InvalidConfig (lit "resource " ++ r.(id) ++ lit ": backend " ++ b.(address)
                                           ++ lit ": " ++ msg))
                (validate_backend_address b.(address) v)) r.(backends) tt;
  match r.(http) with
  | Some http =>
      try_for (fun nv _ =>
        map_err (fun msg => InvalidConfig (lit "resource " ++ r.(id) ++ lit ": header " ++ debug nv.1
                                           ++ lit ": " ++ msg))
                (validate_header nv.1 nv.2)) (order http.(request_headers) ++ order http.(response_headers)) tt
  | None => Ok tt
  end.

Definition validate (debug : str -> str) (order : gmap str str -> list (str * str))
    (l : list (str * Resource)) (v : BackendValidation) : result ProxyError unit :=
  try_for (fun kr _ => validate_resource debug order kr.2 v) l tt.

(** ** The router *)

Record ResolvedRoute := {
  resource_id : str;
  route_tenant_id : str;
  backend_addr : str;
  backend_port : Z;
  backend_tls : bool
}.

Inductive RouteDecision : Type :=
  | Forward (r : ResolvedRoute)
  | AuthRequired
  | Denied (reason : str).

Record Router := { config : ProxyConfig; rr_counters : gmap str Z }.

Definition new (c : ProxyConfig) : Router :=
  {| config := c; rr_counters := (fun _ => 0) <$> c.(resources) |}.

(** Known hosts keep their counter, new ones start at zero, the others go. *)
Definition update_config (c : ProxyConfig) (r : Router) : Router :=
  {| config := c;
     rr_counters := filter (fun kv => is_Some (c.(resources) !! kv.1))
                      (r.(rr_counters) ∪ ((fun _ => 0) <$> c.(resources))) |}.

Definition pick_backend (h : str) (bs : list Backend) (strategy : LoadBalance) (r : Router)
    : option (Backend * Router) :=
  counter ← r.(rr_counters) !! h;
  match strategy with
  | RoundRobin | Random | LeastConn | IpHash =>
      let idx := counter mod Z.of_nat (length bs) in
      b ← bs !! Z.to_nat idx;
      Some (b, {| config := r.(config); rr_counters := <[h := wadd 64 counter 1]> r.(rr_counters) |})
  end.

Definition resolve_with_context (h : str) (source_ip : option str) (is_mesh : bool) (r : Router)
    : option (RouteDecision * Router) :=
  let normalized := normalize_hostname h in
  match route normalized r.(config) with
  | None => Some (Denied (lit "no route for '" ++ normalized ++ lit "'"), r)
  | Some resource =>
      if negb resource.(enabled) then Some (Denied (normalized ++ lit " (disabled)"), r)
      else if is_mesh_only resource && negb is_mesh
      then Some (Denied (lit "mesh-only resource, public access blocked"), r)
      else if match source_ip with Some ip => negb (check_ip ip resource) | None => false end
      then Some (Denied (lit "source ip " ++ default [] source_ip ++ lit " denied"), r)
      else if requires_auth resource then Some (AuthRequired, r)
      else
        let bs := healthy_backends resource in
        if bool_decide (bs = []) then Some (Denied (lit "no healthy backends for " ++ normalized), r)
        else
          '(b, r') ← pick_backend normalized bs resource.(load_balance) r;
          Some (Forward {| resource_id := resource.(id); route_tenant_id := resource.(tenant_id);
                           backend_addr := b.(address); backend_port := b.(port); backend_tls := b.(b_tls) |}, r')
  end.

Definition resolve (h : str) (r : Router) : option (result ProxyError ResolvedRoute * Router) :=
  '(d, r') ← resolve_with_context h None false r;
  Some (match d with
        | Forward rt => Ok rt
        | AuthRequired => Err (AccessDenied (lit "authentication required"))
        | Denied reason => Err (AccessDenied reason)
        end, r').

(** ** Routing *)

(** The router's states: a configuration, then requests and new configurations. *)
Inductive router_step : Router -> Router -> Prop :=
  | step_update c r : router_step r (update_config c r)
  | step_resolve h ip mesh r d r' :
      resolve_with_context h ip mesh r = Some (d, r') -> router_step r r'.

Definition router_reachable (r : Router) : Prop := exists c, star router_step (new c) r.

(** Every configured host has a counter, and it is a 64-bit integer. *)
Definition router_ok (r : Router) : Prop :=
  forall h, match r.(config).(resources) !! h, r.(rr_counters) !! h with
            | Some _, Some c => is_u 64 c
            | None, None => True
            | _, _ => False
            end.

Lemma router_ok_counter r h res : router_ok r -> route h r.(config) = Some res ->
  exists c, r.(rr_counters) !! h = Some c /\ is_u 64 c.
Proof. intros Hr Hh. specialize (Hr h). unfold route in Hh. rewrite Hh in Hr. destruct (_ !! _); eauto. done. Qed.

Lemma new_ok c : router_ok (new c).
Proof. intros h. cbn. rewrite lookup_fmap. by destruct (resources c !! h). Qed.

Lemma update_config_ok c r : router_ok r -> router_ok (update_config c r).
Proof.
  intros Hr h. cbn. specialize (Hr h). destruct (resources c !! h) as [res|] eqn:Hc.
  - rewrite (map_lookup_filter_Some_2 _ _ _ (default 0 (r.(rr_counters) !! h))).
    + by destruct (resources (config r) !! h), (rr_counters r !! h).
    + rewrite lookup_union, lookup_fmap, Hc. by destruct (rr_counters r !! h).
    + cbn. by rewrite Hc.
  - rewrite map_lookup_filter_None_2; [done|]. right. intros x _. cbn. rewrite Hc. by intros [].
Qed.

(** The route to a backend of a resource. *)
Definition route_to (res : Resource) (b : Backend) : ResolvedRoute :=
  {| resource_id := res.(id); route_tenant_id := res.(tenant_id); backend_addr := b.(address);
     backend_port := b.(port); backend_tls := b.(b_tls) |}.

(** A request either leaves the router alone or forwards to the backend the counter names. *)
Lemma resolve_inv h ip mesh r d r' :
  resolve_with_context h ip mesh r = Some (d, r') ->
  (r' = r /\ forall rt, d <> Forward rt)
  \/ exists res c b, route (normalize_hostname h) r.(config) = Some res
       /\ r.(rr_counters) !! normalize_hostname h = Some c
       /\ healthy_backends res !! Z.to_nat (c mod Z.of_nat (length (healthy_backends res))) = Some b
       /\ d = Forward (route_to res b)
       /\ r' = {| config := r.(config); rr_counters := <[normalize_hostname h := wadd 64 c 1]> r.(rr_counters) |}.
Proof.
  unfold resolve_with_context. cbv zeta. destruct (route _ _) as [res|] eqn:Hres; [|naive_solver].
  repeat case_if; try naive_solver. unfold pick_backend.
  destruct (rr_counters r !! normalize_hostname h) as [c|] eqn:Hc; [|done]. cbn [mbind option_bind].
  destruct (healthy_backends res !! _) as [b|] eqn:Hb; [|by destruct (load_balance res)].
  intros E. right. exists res, c, b. destruct (load_balance res); cbn in E; naive_solver.
Qed.

Lemma resolve_ok h ip mesh r d r' :
  router_ok r -> resolve_with_context h ip mesh r = Some (d, r') -> router_ok r'.
Proof.
  intros Hr [[-> _]|(res & c & b & Hres & Hc & _ & _ & ->)]%resolve_inv; [done|].
  intros k. cbn. destruct (decide (normalize_hostname h = k)) as [<-|Hne].
  - rewrite lookup_insert_eq. unfold route in Hres. rewrite Hres. by apply wrap_range.
  - rewrite lookup_insert_ne by done. apply Hr.
Qed.

Lemma reachable_ok r : router_reachable r -> router_ok r.
Proof.
  intros [c Hr]. apply (star_invariant router_step router_ok (new c) r); [|done|apply new_ok].
  intros a b Ha. destruct 1; [by apply update_config_ok|by eapply resolve_ok].
Qed.

(** Some healthy backend is always at the index of a pick. *)
Lemma pick_index {A} (l : list A) c : l <> [] -> 0 <= c -> is_Some (l !! Z.to_nat (c mod Z.of_nat (length l))).
Proof.
  intros Hl Hc. apply lookup_lt_is_Some_2. assert (0 < length l)%nat by (destruct l; [done|cbn; lia]).
  pose proof (Z.mod_pos_bound c (Z.of_nat (length l))). lia.
Qed.

Lemma resolve_total h ip mesh r : router_ok r -> is_Some (resolve_with_context h ip mesh r).
Proof.
  intros Hr. unfold resolve_with_context. cbv zeta. destruct (route _ _) as [res|] eqn:Hres; [|eauto].
  destruct (router_ok_counter _ _ _ Hr Hres) as (c & Hc & Hu).
  repeat case_if; eauto. unfold pick_backend. rewrite Hc. cbn [mbind option_bind].
  destruct (pick_index (healthy_backends res) c) as [b Hb]; [done|apply Hu|].
  destruct (load_balance res); rewrite Hb; cbn; eauto.
Qed.





(** A resource reserved to the mesh is never forwarded to, from the mesh or from outside: its
    mode is not public, so the identity gate asks for authentication that is never granted. *)
Theorem mesh_only_never_forwarded r h source mesh res rt r'
    (Hres : route (normalize_hostname h) r.(config) = Some res)
    (Hmode : res.(access).(identity).(mode) = MeshOnly) :
  resolve_with_context h source mesh r <> Some (Forward rt, r').
Proof.
  unfold resolve_with_context, requires_auth. cbv zeta. rewrite Hres, Hmode.
  rewrite (bool_decide_eq_false_2 (MeshOnly = Public)) by done. repeat case_if; done.
Qed.

(** ** Fairness *)

Record request := { req_host : str; req_ip : option str; req_mesh : bool }.

(** A sequence of requests: their decisions and the router after them. *)
Fixpoint serve (qs : list request) (r : Router) : option (list RouteDecision * Router) :=
  match qs with
  | [] => Some ([], r)
  | q :: qs' =>
      '(d, r1) ← resolve_with_context q.(req_host) q.(req_ip) q.(req_mesh) r;
      '(ds, r2) ← serve qs' r1;
      Some (d :: ds, r2)
  end.

(** The routes given to the requests for a host, in order. *)
Definition forwarded (h : str) (qs : list request) (ds : list RouteDecision) : list ResolvedRoute :=
  filter_map (fun qd => match qd.2 with
                        | Forward rt => if bool_decide (normalize_hostname qd.1.(req_host) = h) then Some rt else None
                        | _ => None
                        end) (zip qs ds).

Lemma forwarded_cons h q qs d ds :
  forwarded h (q :: qs) (d :: ds)
  = match d with
    | Forward rt => if bool_decide (normalize_hostname q.(req_host) = h) then rt :: forwarded h qs ds
                    else forwarded h qs ds
    | _ => forwarded h qs ds
    end.
Proof. unfold forwarded. destruct d; try done. cbn. by case_bool_decide. Qed.

Lemma serve_total qs r : router_ok r -> exists ds r', serve qs r = Some (ds, r').
Proof.
  revert r. induction qs as [|q qs IH]; intros r Hr; cbn [serve]; [eauto|].
  destruct (resolve_total q.(req_host) q.(req_ip) q.(req_mesh) r Hr) as [[d r1] E]. rewrite E. cbn.
  destruct (IH r1) as (ds & r2 & ->); [by eapply resolve_ok|]. cbn. eauto.
Qed.

(** The routes of a host follow its healthy backends cyclically from the counter. *)
Lemma serve_cyclic h res qs : forall r c ds r',
  route h r.(config) = Some res -> r.(rr_counters) !! h = Some c -> 0 <= c ->
  serve qs r = Some (ds, r') -> c + Z.of_nat (length (forwarded h qs ds)) <= 2 ^ 64 ->
  forall i rt, forwarded h qs ds !! i = Some rt ->
    exists b, healthy_backends res !! Z.to_nat ((c + Z.of_nat i) mod Z.of_nat (length (healthy_backends res))) = Some b
              /\ rt = route_to res b.
Proof.
  induction qs as [|q qs IH]; intros r c ds r' Hres Hc H0 E Hle i rt Hi; cbn [serve] in E.
  { injection E as <- _. done. }
  destruct (resolve_with_context _ _ _ r) as [[d r1]|] eqn:Er; [|done]. cbn in E.
  destruct (serve qs r1) as [[ds' r2]|] eqn:Es; [|done]. cbn in E. injection E as <- <-.
  apply resolve_inv in Er as [[-> Hnf]|(res' & c' & b & Hres' & Hc' & Hb & -> & ->)].
  { rewrite forwarded_cons in Hle, Hi. destruct d; [by destruct (Hnf r0)|by eapply (IH r)..]. }
  rewrite forwarded_cons in Hle, Hi.
  destruct (bool_decide_reflect (normalize_hostname (req_host q) = h)) as [Hh|Hh].
  - rewrite Hh in *. assert (res' = res) as -> by congruence. assert (c' = c) as -> by congruence.
    destruct i as [|i]; [injection Hi as <-; exists b; by rewrite Z.add_0_r|]. cbn [length] in Hle. change (forwarded h qs ds' !! i = Some rt) in Hi.
    assert (0 < length (forwarded h qs ds'))%nat by (apply lookup_lt_Some in Hi; lia).
    rewrite wadd_small in Es by lia.
    destruct (IH {| config := config r; rr_counters := <[h:=c + 1]> (rr_counters r) |} (c + 1) ds' r2) with (i := i) (rt := rt)
      as (b' & Hb' & ->); [done|apply lookup_insert_eq|lia|done|lia|done|].
    exists b'. split; [|done]. rewrite <- Hb'. f_equal. f_equal. f_equal. lia.
  - eapply (IH {| config := config r; rr_counters := <[normalize_hostname (req_host q):=wadd 64 c' 1]> (rr_counters r) |});
      [done|cbn [rr_counters]; by rewrite lookup_insert_ne|done|done|done|done].
Qed.

(** The position of [j] in the next [n] steps of a cycle. *)
Lemma cycle_hits c n j :
  0 <= c -> 0 <= j < n -> exists m, 0 <= m < n /\ (c + m) mod n = j.
Proof.
  intros Hc Hj. exists ((j - c) mod n). split; [apply Z.mod_pos_bound; lia|].
  rewrite Zplus_mod_idemp_r. replace (c + (j - c)) with j by lia. by apply Z.mod_small.
Qed.

(** Load balancing is fair: whatever requests for other hosts are mixed in, the requests
    forwarded for a host go to its healthy backends in cyclic order, starting where the
    host's counter stands; so every healthy backend gets one of any run of as many
    forwarded requests as there are healthy backends. The counter must not pass 2^64 on the
    way, where it wraps. *)
Theorem round_robin_fair r h res c qs
    (Hr : router_reachable r) (Hres : route h r.(config) = Some res) (Hc : r.(rr_counters) !! h = Some c) :
  exists ds r', serve qs r = Some (ds, r')
  /\ let fs := forwarded h qs ds in
     let bs := healthy_backends res in
     c + Z.of_nat (length fs) <= 2 ^ 64 ->
     (forall i rt, fs !! i = Some rt ->
        exists b, bs !! Z.to_nat ((c + Z.of_nat i) mod Z.of_nat (length bs)) = Some b /\ rt = route_to res b)
     /\ (forall i b, b ∈ bs -> (i + length bs <= length fs)%nat ->
          exists m, (i <= m < i + length bs)%nat /\ fs !! m = Some (route_to res b)).
Proof.
  pose proof (reachable_ok r Hr) as Hok. destruct (serve_total qs r Hok) as (ds & r' & E).
  destruct (router_ok_counter _ _ _ Hok Hres) as (c' & Hc' & Hu). assert (c' = c) as -> by congruence.
  exists ds, r'. split; [done|]. cbv zeta. intros Hle.
  assert (Hcyc := serve_cyclic h res qs r c ds r' Hres Hc (proj1 Hu) E Hle). split; [exact Hcyc|].
  intros i b [j Hj]%list_elem_of_lookup_1 Hi. pose proof (lookup_lt_Some _ _ _ Hj) as Hlt.
  destruct (cycle_hits (c + Z.of_nat i) (Z.of_nat (length (healthy_backends res))) (Z.of_nat j)) as (m & Hm & Hmod);
    [destruct Hu; lia|lia|].
  exists (i + Z.to_nat m)%nat. split; [lia|].
  destruct (lookup_lt_is_Some_2 (forwarded h qs ds) (i + Z.to_nat m)) as [rt Hrt]; [lia|].
  destruct (Hcyc _ _ Hrt) as (b' & Hb' & ->). rewrite Hrt. f_equal. f_equal.
  replace (c + Z.of_nat (i + Z.to_nat m)) with (c + Z.of_nat i + m) in Hb' by lia.
  rewrite Hmod, Nat2Z.id in Hb'. congruence.
Qed.

(** ** Validation at load time *)

(** A header a tenant may inject: a token that is not reserved, and a value in one line. *)
Definition header_safe (n v : str) : Prop :=
  n <> [] /\ (forall c, c ∈ n -> token_char c = true)
  /\ (forall b, b ∈ BLOCKED_HEADER_NAMES -> eq_ignore_ascii_case n b = false)
  /\ (forall c, c ∈ v -> c <> 0 /\ c <> 13 /\ c <> 10).

(** A backend address the policy admits: an allowed scheme if it has one, and a host that is
    on the allowlist if there is one or if the host is sensitive. *)
Definition backend_safe (v : BackendValidation) (a : str) : Prop :=
  a <> [] /\ contains_char 0 a = false
  /\ exists rest,
       match split_once_str (lit "://") a with
       | Some (s, r) => to_ascii_lowercase s ∈ v.(allowed_backend_schemes) /\ rest = r
       | None => rest = a
       end
       /\ (is_ssrf_sensitive (backend_host rest) = true \/ v.(allowed_backend_hosts) <> None ->
           exists specs spec, v.(allowed_backend_hosts) = Some specs /\ spec ∈ specs
             /\ host_spec_matches spec (backend_host rest) = true).

Lemma map_err_ok {E F A} (f : E -> F) (r : result E A) a : map_err f r = Ok a <-> r = Ok a.
Proof. destruct r; cbn; split; congruence. Qed.

Lemma validate_header_spec n v : validate_header n v = Ok tt <-> header_safe n v.
Proof.
  unfold validate_header, header_safe. destruct (bool_decide_reflect (n = [])) as [->|Hne]; [naive_solver|].
  destruct (forallb token_char n) eqn:Ht; cbn [negb].
  2: { split; [done|]. intros (_ & Hall & _). assert (forallb token_char n = true); [|congruence].
       apply forallb_forall. intros c Hc. by apply Hall, list_elem_of_In. }
  assert (Hall : forall c, c ∈ n -> token_char c = true).
  { intros c Hc. rewrite forallb_forall in Ht. by apply Ht, list_elem_of_In. }
  destruct (existsb _ BLOCKED_HEADER_NAMES) eqn:Hb.
  { split; [done|]. intros (_ & _ & Hno & _). apply existsb_elem in Hb as (b & Hin & Heq). by rewrite Hno in Heq. }
  pose proof (proj1 (existsb_elem_false _ _) Hb) as Hno.
  destruct (existsb _ v) eqn:Hv.
  { split; [done|]. intros (_ & _ & _ & Hval). apply existsb_elem in Hv as (c & Hin & Hc).
    destruct (Hval c Hin) as (?&?&?). repeat (apply orb_true_iff in Hc as [Hc|Hc]); bool_prop; done. }
  split; [|done]. intros _. split; [done|]. split; [done|]. split; [done|]. intros c Hc.
  apply (existsb_elem_false _ v) with (x := c) in Hv; [|done]. bool_prop. done.
Qed.

Lemma allowlist_spec host v :
  allowlist_permits host v = true
  <-> exists specs spec, v.(allowed_backend_hosts) = Some specs /\ spec ∈ specs /\ host_spec_matches spec host = true.
Proof.
  unfold allowlist_permits. destruct (allowed_backend_hosts v) as [specs|].
  - rewrite existsb_elem. split; [intros (x & ? & ?); eauto|]. intros (? & spec & [= <-] & ? & ?). eauto.
  - split; [done|]. by intros (? & ? & ? & _).
Qed.

Lemma validate_backend_address_spec a v : validate_backend_address a v = Ok tt <-> backend_safe v a.
Proof.
  unfold validate_backend_address, backend_safe.
  destruct (bool_decide_reflect (a = [])) as [->|Hne]; [naive_solver|].
  destruct (contains_char 0 a) eqn:H0; [naive_solver|].
  assert (Hhost : forall rest,
    (if is_ssrf_sensitive (backend_host rest) && negb (allowlist_permits (backend_host rest) v)
     then Err (lit "host '" ++ backend_host rest ++ lit "' resolves to a loopback, link-local, or metadata endpoint")
     else match v.(allowed_backend_hosts) with
          | Some allowed => if existsb (fun spec => host_spec_matches spec (backend_host rest)) allowed then Ok tt
                            else Err (lit "host '" ++ backend_host rest ++ lit "' not in allowlist")
          | None => Ok tt
          end) = Ok tt
    <-> (is_ssrf_sensitive (backend_host rest) = true \/ v.(allowed_backend_hosts) <> None ->
         allowlist_permits (backend_host rest) v = true)).
  { intros rest. unfold allowlist_permits. destruct (allowed_backend_hosts v) as [specs|].
    - destruct (existsb _ specs) eqn:E; cbn; [rewrite andb_false_r; by split|].
      split; [by destruct (is_ssrf_sensitive _)|]. intros Hx. specialize (Hx ltac:(by right)). done.
    - cbn [negb]. rewrite andb_true_r. destruct (is_ssrf_sensitive _); split; [done| |by intros _ [?|?]|done].
      intros Hx. by specialize (Hx (or_introl eq_refl)). }
  destruct (split_once_str (lit "://") a) as [[s r]|].
  - destruct (bool_decide_reflect (to_ascii_lowercase s ∈ allowed_backend_schemes v)) as [Hs|Hs]; cbn [mbind result_bind].
    + rewrite Hhost, allowlist_spec. split; [intros Hx; split; [done|]; split; [done|]; by exists r|].
      intros (_ & _ & rest & [_ ->] & Hx). exact Hx.
    + split; [done|]. intros (_ & _ & rest & [? _] & _). done.
  - cbn [mbind result_bind]. rewrite Hhost, allowlist_spec.
    split; [intros Hx; split; [done|]; split; [done|]; by exists a|]. intros (_ & _ & rest & -> & Hx). exact Hx.
Qed.

(** Validation is exact: whatever order the maps are iterated in, a configuration is
    accepted exactly when every backend address of every resource is one the policy admits
    and every injected header is a token that is not reserved with a value that cannot
    split a message. *)
Theorem validate_config_spec debug order c l v
    (Hl : iter_of c.(resources) l) (Horder : forall m, iter_of m (order m)) :
  validate debug order l v = Ok tt
  <-> forall h r, c.(resources) !! h = Some r ->
      (forall b, b ∈ r.(backends) -> backend_safe v b.(address))
      /\ (forall hc n x, r.(http) = Some hc ->
            hc.(request_headers) !! n = Some x \/ hc.(response_headers) !! n = Some x -> header_safe n x).
Proof.
  unfold validate. rewrite try_for_unit.
  assert (Hres : forall r, validate_resource debug order r v = Ok tt
    <-> (forall b, b ∈ r.(backends) -> backend_safe v b.(address))
        /\ (forall hc n x, r.(http) = Some hc ->
              hc.(request_headers) !! n = Some x \/ hc.(response_headers) !! n = Some x -> header_safe n x)).
  { intros r. unfold validate_resource. rewrite bind_unit_ok, try_for_unit. split; intros [Hb Hh]; split.
    - intros b Hin. apply validate_backend_address_spec. specialize (Hb b Hin). by apply map_err_ok in Hb.
    - intros hc n x E Hx. rewrite E in Hh. rewrite try_for_unit in Hh.
      specialize (Hh (n, x)). rewrite elem_of_app, !(iter_of_elem _ _ _ _ (Horder _)) in Hh.
      specialize (Hh Hx). apply map_err_ok in Hh. by apply validate_header_spec.
    - intros b Hin. by apply map_err_ok, validate_backend_address_spec, Hb.
    - destruct (http r) as [hc|] eqn:E; [|done]. apply try_for_unit. intros [n x]. rewrite elem_of_app, !(iter_of_elem _ _ _ _ (Horder _)).
      intros Hx. by apply map_err_ok, validate_header_spec, (Hh hc). }
  split.
  - intros Hall h r Hr. apply Hres. apply (Hall (h, r)). by apply (iter_of_elem (resources c) l).
  - intros Hall [h r] Hin. apply Hres, (Hall h). by apply (iter_of_elem (resources c) l).
Qed.

(** The texts of an address around its host. *)
Definition user_part (u : option str) : str := match u with Some u => u ++ [c_at] | None => [] end.
Definition port_part (p : option str) : str := match p with Some p => c_colon :: p | None => [] end.

(** None of the characters occurs. *)
Definition lacks (cs : list Z) (s : str) : Prop := forall c, c ∈ cs -> contains_char c s = false.

Lemma lacks_in cs s c : lacks cs s -> c ∈ cs -> contains_char c s = false.
Proof. auto. Qed.

Ltac lacks := solve [eapply lacks_in; [eassumption|]; rewrite !elem_of_cons; tauto].

(** User information, port and path are cut off. *)
Lemma backend_host_plain u h p path :
  h <> [] -> lacks [c_slash; c_at; c_colon; c_lbracket; c_rbracket] h ->
  lacks [c_slash] (default [] u) -> lacks [c_slash; c_at; c_colon] (default [] p) ->
  path = [] \/ (exists q, path = c_slash :: q) ->
  backend_host (user_part u ++ h ++ port_part p ++ path) = h.
Proof.
  intros Hne Hh Hu Hp Hpath. unfold backend_host.
  replace (user_part u ++ h ++ port_part p ++ path) with ((user_part u ++ h ++ port_part p) ++ path) by (by rewrite <- !app_assoc).
  assert (Hport : forall c, c <> c_colon -> contains_char c (default [] p) = false -> contains_char c (port_part p) = false).
  { intros c Hc Hd. destruct p as [p|]; [|done]. apply orb_false_iff. split; [apply Z.eqb_neq; congruence|done]. }
  rewrite split_head; [|rewrite !contains_char_app, Hport by (done || lacks)|done].
  2: { rewrite (lacks_in _ _ c_slash Hh) by (by left). destruct u as [u|]; [|done]. cbn [user_part].
       rewrite contains_char_app, (lacks_in _ u c_slash Hu) by (by left). done. }
  cbn [from_option Datatypes.id].
  assert (Hat : match rsplit_once c_at (user_part u ++ h ++ port_part p) with Some (_, x) => x
                | None => user_part u ++ h ++ port_part p end = h ++ port_part p).
  { assert (Hno : contains_char c_at (h ++ port_part p) = false) by (rewrite contains_char_app, Hport by (done || lacks); rewrite orb_false_r; lacks).
    destruct u as [u|]; cbn [user_part].
    - rewrite <- app_assoc. cbn [app]. by rewrite rsplit_once_app.
    - cbn [app]. by rewrite rsplit_once_none. }
  rewrite Hat. destruct p as [p|]; cbn [port_part].
  - rewrite rsplit_once_app by lacks. rewrite bool_decide_eq_false_2 by done.
    by rewrite (lacks_in _ _ c_colon Hh) by (rewrite !elem_of_cons; tauto).
  - rewrite app_nil_r, rsplit_once_none by lacks.
    by rewrite (trim_start_matches_none c_lbracket), (trim_end_matches_none c_rbracket) by lacks.
Qed.

Lemma ip_lacks h ip : ip_from_str h = Some ip -> lacks [c_slash; c_at; c_lbracket; c_rbracket; 0] h.
Proof.
  intros Hip c Hc. rewrite !elem_of_cons, elem_of_nil in Hc.
  destruct Hc as [->|[->|[->|[->|[->|[]]]]]]; by eapply ip_from_str_no_char.
Qed.

(** Loopback and link-local IPv4 addresses are sensitive. *)
Lemma v4_sensitive `{!IpNetText} h a :
  ip_from_str h = Some (V4 a) -> a / 2 ^ 24 = 127 \/ a / 2 ^ 16 = 169 * 256 + 254 -> is_ssrf_sensitive h = true.
Proof.
  intros Hip Ha. unfold is_ssrf_sensitive. case_if; [done|]. rewrite Hip.
  assert (He : existsb (fun cidr => match ipnet_from_str cidr with Some net => ipnet_contains net (V4 a) | None => false end)
                 SSRF_DENY_CIDRS = true); [|by rewrite He].
  apply existsb_elem. destruct Ha as [Ha|Ha].
  - exists (lit "127.0.0.0" ++ c_slash :: lit "8"). split; [by left|].
    destruct (ipnet_from_str_v4 (lit "127.0.0.0") (lit "8") (ipv4 127 0 0 0) 8) as (n & -> & Hn); [done..|lia|].
    apply Hn. change (32 - 8) with 24. by rewrite Ha.
  - exists (lit "169.254.0.0" ++ c_slash :: lit "16"). split; [right; right; by left|].
    destruct (ipnet_from_str_v4 (lit "169.254.0.0") (lit "16") (ipv4 169 254 0 0) 16) as (n & -> & Hn); [done..|lia|].
    apply Hn. change (32 - 16) with 16. by rewrite Ha.
Qed.

(** Dotted loopback and link-local addresses never pass as backends without an allowlist:
    an address with any scheme, user information, port and path around such a host is
    rejected. *)
Theorem ssrf_v4_rejected `{!IpNetText} v scheme u h p path a
    (Hv : v.(allowed_backend_hosts) = None)
    (Hip : ip_from_str h = Some (V4 a)) (Ha : a / 2 ^ 24 = 127 \/ a / 2 ^ 16 = 169 * 256 + 254)
    (Hu : lacks [c_slash] (default [] u)) (Hp : lacks [c_slash; c_at; c_colon] (default [] p))
    (Hpath : path = [] \/ exists q, path = c_slash :: q)
    (Hs : match scheme with
          | Some s => contains_char c_colon s = false
          | None => split_once_str (lit "://") (user_part u ++ h ++ port_part p ++ path) = None
          end) :
  validate_backend_address
    (match scheme with Some s => s ++ lit "://" | None => [] end ++ user_part u ++ h ++ port_part p ++ path) v <> Ok tt.
Proof.
  rewrite validate_backend_address_spec. intros (_ & _ & rest & Hsplit & Hrest).
  assert (Hl : lacks [c_slash; c_at; c_colon; c_lbracket; c_rbracket] h).
  { intros c Hc. rewrite !elem_of_cons in Hc. destruct (decide (c = c_colon)) as [->|].
    - by eapply ip_from_str_v4_colon.
    - apply (ip_lacks h _ Hip). rewrite !elem_of_cons. tauto. }
  assert (rest = user_part u ++ h ++ port_part p ++ path) as ->.
  { destruct scheme as [s|]; [|cbn [app] in Hsplit; by rewrite Hs in Hsplit].
    rewrite <- app_assoc in Hsplit. change (lit "://") with (c_colon :: lit "//") in Hsplit.
    rewrite split_once_str_app in Hsplit by done. by destruct Hsplit. }
  rewrite backend_host_plain in Hrest by (done || (by intros ->)).
  destruct Hrest as (specs & _ & E & _); [left; by eapply v4_sensitive|]. congruence.
Qed.

(** A closing bracket in a host hides it from every test for sensitive hosts. *)
Lemma bracket_not_sensitive h : contains_char c_rbracket h = true -> is_ssrf_sensitive h = false.
Proof.
  intros Hc. unfold is_ssrf_sensitive.
  assert (Hlit : forall t, contains_char c_rbracket (to_ascii_lowercase t) = false -> eq_ignore_ascii_case h t = false).
  { intros t Ht. apply bool_decide_eq_false. intros E. rewrite <- E, contains_char_lower in Ht by done. congruence. }
  rewrite !Hlit by done. rewrite bool_decide_eq_false_2 by (by intros ->).
  destruct (ip_from_str h) as [ip|] eqn:Hip; [|done].
  by rewrite (ip_lacks h ip Hip) in Hc by (rewrite !elem_of_cons; tauto).
Qed.

(** A bracketed IPv6 backend with a port is never recognised as sensitive: the closing
    bracket and the port stay in the host that is tested, so that even the loopback address
    is accepted by the default policy. *)
Theorem ssrf_bracketed_accepted b p
    (Hb : lacks [c_slash; c_at; c_lbracket; 0] b) (Hcol : contains_char c_colon b = true)
    (Hp : forallb is_ascii_digit p = true) :
  validate_backend_address (lit "http" ++ lit "://" ++ c_lbracket :: b ++ c_rbracket :: c_colon :: p) default_validation = Ok tt.
Proof.
  assert (Hdig : forall c, is_ascii_digit c = false -> contains_char c p = false).
  { intros c Hc. apply existsb_elem_false. intros d Hd. rewrite forallb_forall in Hp. apply list_elem_of_In, Hp in Hd.
    destruct (Z.eqb_spec d c); congruence. }
  assert (Hrest : forall c, contains_char c b = false -> c <> c_lbracket -> c <> c_rbracket -> c <> c_colon ->
            is_ascii_digit c = false -> contains_char c (c_lbracket :: b ++ c_rbracket :: c_colon :: p) = false).
  { intros c H1 H2 H3 H4 H5. change (c_lbracket :: b ++ c_rbracket :: c_colon :: p) with ([c_lbracket] ++ b ++ [c_rbracket; c_colon] ++ p).
    rewrite !contains_char_app, H1, Hdig by done. unfold contains_char. cbn [existsb].
    by rewrite !(proj2 (Z.eqb_neq _ _)) by congruence. }
  apply validate_backend_address_spec. split; [done|]. split.
  { rewrite !contains_char_app. rewrite Hrest by (done || lacks). done. }
  exists (c_lbracket :: b ++ c_rbracket :: c_colon :: p).
  change (lit "://") with (c_colon :: lit "//"). rewrite split_once_str_app by done.
  split; [split; [apply elem_of_union; left; by apply elem_of_singleton|done]|].
  enough (Hh : backend_host (c_lbracket :: b ++ c_rbracket :: c_colon :: p) = b ++ c_rbracket :: c_colon :: p).
  { rewrite Hh, bracket_not_sensitive; [intros [?|?]; done|]. rewrite contains_char_app. cbn. by rewrite orb_true_r. }
  unfold backend_host. rewrite <- (app_nil_r (c_lbracket :: _)), split_head; [|by apply Hrest; [lacks|..]|by left].
  cbn [from_option Datatypes.id]. rewrite (rsplit_once_none c_at) by (apply Hrest; (lacks || done)).
  replace (c_lbracket :: b ++ c_rbracket :: c_colon :: p) with ((c_lbracket :: b ++ [c_rbracket]) ++ c_colon :: p)
    by (cbn; by rewrite <- app_assoc).
  rewrite rsplit_once_app by (by apply Hdig). rewrite app_comm_cons, contains_char_app.
  change (c_lbracket :: b) with ([c_lbracket] ++ b). rewrite contains_char_app, Hcol, andb_false_r. cbn [app orb].
  rewrite <- app_assoc. cbn [app trim_start_matches]. rewrite Z.eqb_refl, trim_start_matches_none.
  2: { change (b ++ c_rbracket :: c_colon :: p) with (b ++ [c_rbracket; c_colon] ++ p).
       rewrite !contains_char_app, (Hdig c_lbracket) by done. rewrite (lacks_in _ _ c_lbracket Hb) by (rewrite !elem_of_cons; tauto). done. }
  destruct (exists_last (l := c_rbracket :: c_colon :: p)) as (q & d & E); [done|]. rewrite E, app_assoc.
  apply trim_end_matches_stop. destruct p as [|x p] using rev_ind.
  - change [c_rbracket; c_colon] with ([c_rbracket] ++ [c_colon]) in E. apply app_inj_tail in E as [_ <-]. done.
  - rewrite !app_comm_cons in E. apply app_inj_tail in E as [_ <-]. rewrite forallb_app in Hp. cbn in Hp.
    intros ->. by apply andb_true_iff in Hp as [_ ?].
Qed.

End Proxy.

(** ** Host names *)

(** A character of a host name. *)
Definition host_char (c : Z) : bool := is_ascii_alphanumeric c || (c =? c_minus) || (c =? c_dot).

Lemma host_char_not_white c : host_char c = true -> is_whitespace c = false.
Proof.
  unfold host_char, is_ascii_alphanumeric, is_ascii_digit, is_ascii_upper, is_ascii_lower, is_whitespace, c_minus, c_dot.
  intros Hc. repeat (apply orb_true_iff in Hc as [Hc|Hc]); bool_prop; repeat (apply orb_false_iff; split);
    try (apply andb_false_iff); lia.
Qed.

Lemma lower_digits p : forallb is_ascii_digit p = true -> to_ascii_lowercase p = p.
Proof.
  induction p as [|c p IH]; [done|]. intros [Hc Hp]%andb_true_iff.
  change (to_ascii_lower_char c :: to_ascii_lowercase p = c :: p). rewrite (IH Hp). f_equal.
  unfold to_ascii_lower_char, is_ascii_upper, is_ascii_digit in *. bool_prop. case_if; [lia|done].
Qed.

Lemma host_lacks n c : forallb host_char n = true -> host_char c = false -> contains_char c n = false.
Proof.
  intros Hn Hc. apply existsb_elem_false. intros d Hd. rewrite forallb_forall in Hn. apply list_elem_of_In, Hn in Hd.
  destruct (Z.eqb_spec d c); congruence.
Qed.

(** White space and dots after the text of a host go, for a text without white space that
    ends in another character. *)
Lemma normalize_trim ws ws' k s d :
  forallb is_whitespace ws = true -> forallb is_whitespace ws' = true ->
  forallb (fun c => negb (is_whitespace c)) (s ++ [d]) = true -> d <> c_dot ->
  trim_end_matches c_dot (trim (ws ++ (s ++ [d] ++ repeat c_dot k) ++ ws')) = s ++ [d].
Proof.
  intros Hws Hws' Hs Hd.
  assert (Hw : forall c, c ∈ s ++ [d] ++ repeat c_dot k -> is_whitespace c = false).
  { intros c. rewrite app_assoc. intros [Hc|Hc]%elem_of_app.
    - rewrite forallb_forall in Hs. by apply negb_true_iff, Hs, list_elem_of_In.
    - apply list_elem_of_In, repeat_spec in Hc as ->. done. }
  rewrite trim_around; [|done|done| | |by destruct s].
  - rewrite app_assoc, trim_end_matches_repeat. by apply trim_end_matches_stop.
  - intros c Hc. by apply Hw, head_Some_elem_of.
  - intros c Hc. by apply Hw, last_Some_elem_of.
Qed.

Abbreviation dark := (forallb (fun c => negb (is_whitespace c))) (only parsing).

Lemma host_dark n : forallb host_char n = true -> dark n = true.
Proof.
  rewrite !forallb_forall. intros Hn c Hc. by apply negb_true_iff, host_char_not_white, Hn.
Qed.

Lemma digits_host p : forallb is_ascii_digit p = true -> forallb host_char p = true.
Proof.
  rewrite !forallb_forall. intros Hp c Hc. unfold host_char, is_ascii_alphanumeric. by rewrite (Hp c Hc).
Qed.

Lemma host_no_bracket n r :
  forallb host_char n = true -> head r <> Some c_lbracket -> starts_with [c_lbracket] (to_ascii_lowercase n ++ r) = false.
Proof.
  intros Hn Ht. destruct (starts_with _ _) eqn:E; [|done]. apply starts_with_spec in E as [x E].
  destruct n as [|c n]; [cbn in E; by rewrite E in Ht|]. injection E as E _.
  pose proof (host_lacks _ c_lbracket Hn eq_refl) as Hl. rewrite <- (contains_char_lower c_lbracket) in Hl by done.
  apply orb_false_iff in Hl as [Hl _]. rewrite E in Hl. done.
Qed.

Lemma normalize_port ws ws' t p :
  forallb is_whitespace ws = true -> forallb is_whitespace ws' = true ->
  forallb host_char t = true -> forallb is_ascii_digit p = true ->
  normalize_hostname (ws ++ (t ++ c_colon :: p) ++ ws') = to_ascii_lowercase t.
Proof.
  intros Hws Hws' Ht Hp. unfold normalize_hostname.
  destruct (exists_last (l := c_colon :: p)) as (q & d & E); [done|].
  assert (Hd : d <> c_dot).
  { assert (Hd : d ∈ c_colon :: p) by (rewrite E, elem_of_app; right; by left).
    apply elem_of_cons in Hd as [->|Hd]; [done|]. rewrite forallb_forall in Hp. apply list_elem_of_In, Hp in Hd. by intros ->. }
  pose proof (normalize_trim ws ws' 0 (t ++ q) d Hws Hws') as Htrim.
  cbn [repeat] in Htrim. rewrite app_nil_r, <- app_assoc, <- E in Htrim.
  rewrite Htrim; [|rewrite forallb_app, (host_dark t), andb_true_l by done; cbn; by apply host_dark, digits_host|done].
  rewrite lower_app. change (to_ascii_lowercase (c_colon :: p)) with (c_colon :: to_ascii_lowercase p).
  rewrite (lower_digits p), host_no_bracket, rsplit_once_app by (done || (apply host_lacks; [by apply digits_host|done])).
  by rewrite Hp.
Qed.

(** Host normalization finds the resource for every spelling of its host: letters of any
    case, white space around it, any number of trailing dots, or a port, lead to the lower
    case name. A trailing dot before a port is not removed, so that a fully qualified name
    with a port misses its resource. *)
Theorem normalize_variants n ws ws' k p
    (Hn : forallb host_char n = true) (Hne : n <> []) (Hdot : last n <> Some c_dot)
    (Hws : forallb is_whitespace ws = true) (Hws' : forallb is_whitespace ws' = true)
    (Hp : forallb is_ascii_digit p = true) :
  normalize_hostname (ws ++ (n ++ repeat c_dot k) ++ ws') = to_ascii_lowercase n
  /\ normalize_hostname (ws ++ (n ++ c_colon :: p) ++ ws') = to_ascii_lowercase n
  /\ normalize_hostname (ws ++ (n ++ c_dot :: c_colon :: p) ++ ws') = to_ascii_lowercase n ++ [c_dot].
Proof.
  split; [|split].
  - unfold normalize_hostname. destruct (exists_last Hne) as (s & d & En).
    assert (Hd : d <> c_dot) by (rewrite En, last_snoc in Hdot; congruence).
    pose proof (normalize_trim ws ws' k s d Hws Hws') as Ht. rewrite (app_assoc s), <- En in Ht.
    rewrite Ht; [|by apply host_dark|done].
    rewrite (rsplit_once_none c_colon) by (rewrite contains_char_lower by done; by apply host_lacks).
    pose proof (host_no_bracket n [] Hn ltac:(discriminate)) as Hs. rewrite app_nil_r in Hs. by rewrite Hs.
  - by apply normalize_port.
  - pose proof (normalize_port ws ws' (n ++ [c_dot]) p Hws Hws') as Ht.
    rewrite <- (app_assoc n) in Ht. cbn [app] in Ht. rewrite Ht; [by rewrite lower_app|by rewrite forallb_app, Hn|done].
Qed.

(** ** Examples *)

Module ProxyExamples.

Definition backend (a : string) (ok : bool) : Backend :=
  {| address := lit a; port := 8080; b_tls := false; weight := 1; healthy := ok |}.
Definition web (m : AuthMode) : Resource :=
  {| id := lit "web"; tenant_id := lit "t1"; hostname := lit "app.example.com"; public_port := 443; protocol := Https;
     backends := [backend "100.64.0.10" true; backend "100.64.0.11" false; backend "100.64.0.12" true];
     load_balance := RoundRobin;
     tls := {| acme := true; acme_challenge := Dns01; cert_pem := None; key_pem := None |};
     access := {| network := {| allow_ips := []; deny_ips := [lit "10.0.0.0/8"]; allow_geo := []; deny_geo := []; rate_limit_rps := 0 |};
                  time := None; identity := {| mode := m |}; authz := None |};
     http := None; enabled := true |}.
Definition config0 (m : AuthMode) : ProxyConfig := upsert (web m) {| resources := ∅ |}.
Definition router0 : Router := new (config0 Public).
Definition ask : request := {| req_host := lit "App.Example.com:443"; req_ip := Some (lit "192.0.2.1"); req_mesh := false |}.
Definition mesh_router : Router := new (config0 MeshOnly).

Lemma router0_reachable : router_reachable router0.
Proof. exists (config0 Public). constructor. Qed.


Lemma round_robin_fair_witness :
  exists ds r', serve [ask; ask; ask] router0 = Some (ds, r')
    /\ map backend_addr (forwarded (lit "app.example.com") [ask; ask; ask] ds)
       = [lit "100.64.0.10"; lit "100.64.0.12"; lit "100.64.0.10"].
Proof.
  destruct (round_robin_fair router0 (lit "app.example.com") (web Public) 0 [ask; ask; ask] router0_reachable
              eq_refl eq_refl) as (ds & r' & E & _).
  exists ds, r'. split; [exact E|]. vm_compute in E. injection E as <- _. reflexivity.
Defined.

Lemma validate_config_spec_witness :
  validate (fun s => s) map_to_list (map_to_list (resources (config0 Public))) default_validation = Ok tt.
Proof.
  apply (validate_config_spec _ _ (config0 Public)); [apply iter_of_self|apply iter_of_self|].
  intros h r Hr. unfold config0, upsert in Hr. cbn [resources] in Hr. apply lookup_insert_Some in Hr as [[_ <-]|[_ Hr]]; [|by rewrite lookup_empty in Hr].
  split; [|done]. intros b Hb. apply validate_backend_address_spec.
  cbn [backends web] in Hb. rewrite !elem_of_cons, elem_of_nil in Hb. destruct Hb as [->|[->|[->|[]]]]; vm_compute; reflexivity.
Defined.

Lemma ssrf_v4_rejected_witness :
  validate_backend_address (lit "https://me@127.0.0.1:80/x") default_validation <> Ok tt.
Proof.
  change (lit "https://me@127.0.0.1:80/x")
    with ((lit "https" ++ lit "://") ++ user_part (Some (lit "me")) ++ lit "127.0.0.1" ++ port_part (Some (lit "80")) ++ lit "/x").
  apply (ssrf_v4_rejected default_validation (Some (lit "https")) (Some (lit "me")) (lit "127.0.0.1") (Some (lit "80")) (lit "/x")
           (ipv4 127 0 0 1)); [reflexivity|reflexivity|left; reflexivity| | |right; eexists; reflexivity|reflexivity];
    intros c Hc; rewrite ?elem_of_cons, elem_of_nil in Hc; cbn in Hc; intuition subst; reflexivity.
Defined.

Lemma ssrf_bracketed_accepted_witness :
  validate_backend_address (lit "http://[::1]:8080") default_validation = Ok tt.
Proof.
  change (lit "http://[::1]:8080") with (lit "http" ++ lit "://" ++ c_lbracket :: lit "::1" ++ c_rbracket :: c_colon :: lit "8080").
  apply ssrf_bracketed_accepted; [|reflexivity|reflexivity].
  intros c Hc. rewrite !elem_of_cons, elem_of_nil in Hc. intuition subst; reflexivity.
Defined.

(** Other spellings of the host itself that pass. *)
Example ssrf_other_spellings :
  map (fun a => is_ok (validate_backend_address (lit a) default_validation))
    ["::ffff:127.0.0.1"; "0.0.0.0"; "localhost."; "127.1"]%string = [true; true; true; true].
Proof. vm_compute. reflexivity. Qed.

Lemma mesh_only_never_forwarded_witness :
  resolve_with_context (lit "app.example.com") None true mesh_router = Some (AuthRequired, mesh_router)
  /\ forall rt r', resolve_with_context (lit "app.example.com") None true mesh_router <> Some (Forward rt, r').
Proof.
  split; [vm_compute; reflexivity|]. intros rt r'.
  apply (mesh_only_never_forwarded mesh_router (lit "app.example.com") None true (web MeshOnly)); vm_compute; reflexivity.
Defined.

Lemma normalize_variants_witness :
  normalize_hostname (lit " App.Example.com.. ") = lit "app.example.com"
  /\ normalize_hostname (lit "app.example.com.:443") = lit "app.example.com.".
Proof.
  destruct (normalize_variants (lit "App.Example.com") (lit " ") (lit " ") 2 (lit "443")) as (H1 & _ & _);
    [reflexivity|discriminate|discriminate|reflexivity..|].
  split; [exact H1|vm_compute; reflexivity].
Defined.

End ProxyExamples.
