(* ===== verification/Vault.v ===== *)
(** * The secret vault ([runesh-vault/src/lib.rs, entry.rs])

    Sealed secrets, typed entries and the operations of a vault. ChaCha20-Poly1305,
    HMAC-SHA256, Base64, Argon2 and the serde encodings are the interface [VaultEnv]; the
    clock and the random nonces are arguments. A cipher is its key. The current TOTP code
    (the totp-rs crate) is not modelled. *)
From S2P Require Import Prelude Str Utf8.

#[local] Open Scope Z_scope.

(** ** Typed entries *)

(** The content of an entry, with the fields of the struct of each kind. *)
Inductive EntryContent : Type :=
  | Login (username password : str) (totp_secret : option str) (autofill_urls : list str)
  | ApiKey (key : str) (secret prefix : option str) (scopes : list str)
  | SshKey (private_key public_key : str) (key_type fingerprint passphrase : option str)
  | Totp (secret : str) (issuer account : option str) (digits period : Z) (algorithm : str)
  | Passkey (credential_id private_key rp_id user_handle : str) (user_name : option str) (sign_count : Z)
  | Card (cardholder number expiry cvv : str) (brand : option str)
  | SecureNote (text : str)
  | Certificate (cert_pem key_pem : str) (common_name expires : option str)
  | WireguardKey (private_key public_key : str) (preshared_key endpoint : option str)
  | Database (db_type host : str) (port : Z) (database username password : str) (ssl : bool)
      (connection_string : option str)
  | Custom (fields : gmap str str).

Record VaultEntry := {
  name : str;
  folder : option str;
  tags : list str;
  url : option str;
  notes : str;
  favorite : bool;
  content : EntryContent
}.

Definition entry_type (e : VaultEntry) : str :=
  match e.(content) with
  | Login _ _ _ _ => lit "login"
  | ApiKey _ _ _ _ => lit "api_key"
  | SshKey _ _ _ _ _ => lit "ssh_key"
  | Totp _ _ _ _ _ _ => lit "totp"
  | Passkey _ _ _ _ _ _ => lit "passkey"
  | Card _ _ _ _ _ => lit "card"
  | SecureNote _ => lit "secure_note"
  | Certificate _ _ _ _ => lit "certificate"
  | WireguardKey _ _ _ _ => lit "wireguard_key"
  | Database _ _ _ _ _ _ _ _ => lit "database"
  | Custom _ => lit "custom"
  end.

Definition totp_uri (e : VaultEntry) : option str :=
  match e.(content) with
  | Totp secret issuer account digits period algorithm =>
      let issuer := default e.(name) issuer in
      let account := default [] account in
      let label := if bool_decide (account = []) then issuer else issuer ++ lit ":" ++ account in
      Some (lit "otpauth://totp/" ++ label ++ lit "?secret=" ++ secret ++ lit "&issuer=" ++ issuer
            ++ lit "&digits=" ++ show_uint digits ++ lit "&period=" ++ show_uint period
            ++ lit "&algorithm=" ++ algorithm)
  | Login _ _ (Some s) _ =>
      Some (lit "otpauth://totp/" ++ e.(name) ++ lit "?secret=" ++ s ++ lit "&digits=6&period=30")
  | _ => None
  end.

(** ** Sealed secrets *)

Record SealedSecret := {
  id : str;
  ciphertext : str;
  nonce : str;
  integrity_tag : str;
  created_at : Z;
  rotated_at : option Z;
  expires_at : option Z;
  secret_type : str
}.

Record VaultConfig := { argon2_m_cost : Z; argon2_t_cost : Z; argon2_p_cost : Z }.

Definition default_config : VaultConfig :=
  {| argon2_m_cost := 65536; argon2_t_cost := 3; argon2_p_cost := 4 |}.

Inductive VaultError : Type :=
  | NotFound (id : str)
  | Expired (id : str)
  | EncryptionFailed
  | DecryptionFailed
  | CorruptData
  | IntegrityCheckFailed (id : str)
  | WeakKdfParams.

(** The crates the vault is built on. *)
Class VaultEnv := {
  (** ChaCha20-Poly1305 under a key, a nonce and the text. *)
  encrypt : list byte -> list byte -> list byte -> option (list byte);
  decrypt : list byte -> list byte -> list byte -> option (list byte);
  hmac : list byte -> list byte -> list byte;
  b64_encode : list byte -> str;
  b64_decode : str -> option (list byte);
  (** [Params::new] and [hash_password_into] of Argon2id. *)
  argon2 : Z -> Z -> Z -> option (list byte -> list byte -> option (list byte));
  secrets_to_json : list SealedSecret -> option str;
  secrets_from_json : str -> option (list SealedSecret);
  entry_to_bytes : VaultEntry -> option (list byte);
  entry_from_bytes : list byte -> option VaultEntry
}.

(** Documented behaviour: decryption inverts encryption, decoding and deserialising invert
    encoding and serialising. *)
Class VaultLaws `{VaultEnv} : Prop := {
  decrypt_encrypt : forall k n p c, encrypt k n p = Some c -> decrypt k n c = Some p;
  b64_decode_encode : forall bs, b64_decode (b64_encode bs) = Some bs;
  b64_encode_nil : b64_encode [] = [];
  hmac_length : forall k m, length (hmac k m) = 32%nat;
  secrets_from_to_json : forall ss json, secrets_to_json ss = Some json -> secrets_from_json json = Some ss;
  entry_from_to_bytes : forall e bytes, entry_to_bytes e = Some bytes -> entry_from_bytes bytes = Some e
}.

Section Vault.
Context `{VaultEnv}.

Definition INTEGRITY_INFO : str := lit "vault-integrity".

Definition derive_integrity_key (master_key : list byte) : list byte :=
  hmac master_key (as_bytes INTEGRITY_INFO).

(** What is authenticated: the three fields, each after its length. *)
Definition envelope (id nonce_b64 ciphertext_b64 : str) : list byte :=
  concat (map (fun field => to_be 8 (Z.of_nat (length field)) ++ field)
              [as_bytes id; as_bytes nonce_b64; as_bytes ciphertext_b64]).

Definition make_tag (key : list byte) (id nonce_b64 ciphertext_b64 : str) : str :=
  b64_encode (hmac key (envelope id nonce_b64 ciphertext_b64)).

Definition verify_integrity_tag (key : list byte) (id nonce_b64 ciphertext_b64 tag_b64 : str) : bool :=
  let expected := make_tag key id nonce_b64 ciphertext_b64 in
  if negb (byte_len expected =? byte_len tag_b64) then false
  else bool_decide (as_bytes expected = as_bytes tag_b64).

(** ** The vault *)

Record Vault := {
  cipher : list byte;
  integrity_key : list byte;
  secrets : gmap str SealedSecret;
  config : VaultConfig
}.

Definition from_key_bytes (master_key : list byte) (config : VaultConfig) : Vault :=
  {| cipher := master_key; integrity_key := derive_integrity_key master_key; secrets := ∅; config := config |}.

Definition open (master_key : list byte) : Vault := from_key_bytes master_key default_config.

Definition from_password_and_salt_with_config (password salt : list byte) (config : VaultConfig)
    : result VaultError Vault :=
  kdf ← ok_or WeakKdfParams (argon2 config.(argon2_m_cost) config.(argon2_t_cost) config.(argon2_p_cost));
  key ← ok_or EncryptionFailed (kdf password salt);
  Ok (from_key_bytes key config).

Definition with_secrets (m : gmap str SealedSecret) (v : Vault) : Vault :=
  {| cipher := v.(cipher); integrity_key := v.(integrity_key); secrets := m; config := v.(config) |}.

(** [nonce_arr] are the random bytes drawn. *)
Definition put (now : Z) (nonce_arr : list byte) (i : str) (plaintext : list byte) (ty : str) (expires : option Z)
    (v : Vault) : result VaultError unit * Vault :=
  match encrypt v.(cipher) nonce_arr plaintext with
  | None => (Err EncryptionFailed, v)
  | Some ct =>
      let ciphertext_b64 := b64_encode ct in
      let nonce_b64 := b64_encode nonce_arr in
      let tag := make_tag v.(integrity_key) i nonce_b64 ciphertext_b64 in
      let old := v.(secrets) !! i in
      (Ok tt, with_secrets (<[i :=
         {| id := i; ciphertext := ciphertext_b64; nonce := nonce_b64; integrity_tag := tag;
            created_at := match old with Some s => s.(created_at) | None => now end;
            rotated_at := match old with Some _ => Some now | None => None end;
            expires_at := expires; secret_type := ty |}]> v.(secrets)) v)
  end.

(** Decoding and decrypting a sealed secret, as [get] and [rotate_master_key] do. *)
Definition unseal (key : list byte) (s : SealedSecret) : result VaultError (list byte) :=
  ct ← ok_or CorruptData (b64_decode s.(ciphertext));
  nonce_bytes ← ok_or CorruptData (b64_decode s.(nonce));
  if negb (length nonce_bytes =? 12)%nat then Err CorruptData
  else ok_or DecryptionFailed (decrypt key nonce_bytes ct).

Definition get (now : Z) (i : str) (v : Vault) : result VaultError (list byte) :=
  s ← ok_or (NotFound i) (v.(secrets) !! i);
  if match s.(expires_at) with Some e => e <? now | None => false end then Err (Expired i)
  else unseal v.(cipher) s.

Definition delete (i : str) (v : Vault) : bool * Vault :=
  (bool_decide (is_Some (v.(secrets) !! i)), with_secrets (base.delete i v.(secrets)) v).

(** [l] is the order in which the secrets are iterated. *)
Definition list_secrets (l : list (str * SealedSecret)) : list SealedSecret := map snd l.

Definition expiring_within (now duration : Z) (l : list (str * SealedSecret)) : list SealedSecret :=
  filter (fun s => match s.(expires_at) with Some e => e <=? now + duration | None => false end = true) (map snd l).

Definition list_by_type (ty : str) (l : list (str * SealedSecret)) : list SealedSecret :=
  filter (fun s => s.(secret_type) = ty) (map snd l).

Definition len (v : Vault) : nat := size v.(secrets).

Definition export (l : list (str * SealedSecret)) : option str := secrets_to_json (map snd l).

Definition put_entry (now : Z) (nonce_arr : list byte) (i : str) (e : VaultEntry) (expires : option Z) (v : Vault)
    : result VaultError unit * Vault :=
  match entry_to_bytes e with
  | None => (Err EncryptionFailed, v)
  | Some bytes => put now nonce_arr i bytes (entry_type e) expires v
  end.

Definition get_entry (now : Z) (i : str) (v : Vault) : result VaultError VaultEntry :=
  bytes ← get now i v;
  ok_or CorruptData (entry_from_bytes bytes).

(** [lower] is [str::to_lowercase]. *)
Definition search (lower : str -> str) (now : Z) (query : str) (l : list (str * SealedSecret)) (v : Vault)
    : list (str * VaultEntry) :=
  let query_lower := lower query in
  filter_map (fun kv =>
    match get_entry now kv.1 v with
    | Err _ => None
    | Ok entry =>
        if contains_str query_lower (lower entry.(name))
           || existsb (fun t => contains_str query_lower (lower t)) entry.(tags)
           || contains_str query_lower (lower (default [] entry.(url)))
        then Some (kv.1, entry) else None
    end) l.

Definition check_imported (key : list byte) (s : SealedSecret) : result VaultError unit :=
  if bool_decide (s.(integrity_tag) = []) then Err (IntegrityCheckFailed s.(id))
  else if negb (verify_integrity_tag key s.(id) s.(nonce) s.(ciphertext) s.(integrity_tag))
  then Err (IntegrityCheckFailed s.(id))
  else Ok tt.

Definition import (json : str) (v : Vault) : result VaultError nat * Vault :=
  match secrets_from_json json with
  | None => (Err CorruptData, v)
  | Some ss =>
      match try_for (fun s _ => check_imported v.(integrity_key) s) ss tt with
      | Err e => (Err e, v)
      | Ok _ => (Ok (length ss), with_secrets (foldl (fun m s => <[s.(id) := s]> m) v.(secrets) ss) v)
      end
  end.

(** The body of the loop of [rotate_master_key] for one secret and the nonce drawn for it. *)
Definition rewrap (now : Z) (old_key new_key : list byte) (x : str * SealedSecret * list byte)
    (fresh : gmap str SealedSecret) : result VaultError (gmap str SealedSecret) :=
  let '(i, sealed, new_nonce) := x in
  plaintext ← unseal old_key sealed;
  new_ct ← ok_or EncryptionFailed (encrypt new_key new_nonce plaintext);
  let new_ct_b64 := b64_encode new_ct in
  let new_nonce_b64 := b64_encode new_nonce in
  let new_tag := make_tag (derive_integrity_key new_key) i new_nonce_b64 new_ct_b64 in
  Ok (<[i := {| id := sealed.(id); ciphertext := new_ct_b64; nonce := new_nonce_b64; integrity_tag := new_tag;
                created_at := sealed.(created_at); rotated_at := Some now; expires_at := sealed.(expires_at);
                secret_type := sealed.(secret_type) |}]> fresh).

(** [l] is the order in which the secrets are iterated, each with the nonce drawn for it. *)
Definition rotate_master_key (now : Z) (new_key : list byte) (l : list (str * SealedSecret * list byte)) (v : Vault)
    : result VaultError unit * Vault :=
  match try_for (rewrap now v.(cipher) new_key) l ∅ with
  | Err e => (Err e, v)
  | Ok fresh =>
      (Ok tt, {| cipher := new_key; integrity_key := derive_integrity_key new_key; secrets := fresh; config := v.(config) |})
  end.

(** ** What a vault is for

    The abstract vault is a map from identifiers to plain texts with their metadata. *)

Record item := {
  it_text : list byte;
  it_type : str;
  it_created : Z;
  it_rotated : option Z;
  it_expires : option Z
}.

Definition abs_put (now : Z) (i : str) (p : list byte) (ty : str) (e : option Z) (m : gmap str item) : gmap str item :=
  <[i := {| it_text := p; it_type := ty; it_created := default now (it_created <$> m !! i);
            it_rotated := (fun _ => now) <$> m !! i; it_expires := e |}]> m.

Definition rotated (now : Z) (it : item) : item :=
  {| it_text := it.(it_text); it_type := it.(it_type); it_created := it.(it_created); it_rotated := Some now;
     it_expires := it.(it_expires) |}.

Definition abs_get (now : Z) (i : str) (m : gmap str item) : result VaultError (list byte) :=
  match m !! i with
  | None => Err (NotFound i)
  | Some it => match it.(it_expires) with
               | Some e => if e <? now then Err (Expired i) else Ok it.(it_text)
               | None => Ok it.(it_text)
               end
  end.

(** A sealed secret stands for an item under a key. *)
Definition seals (key : list byte) (i : str) (s : SealedSecret) (it : item) : Prop :=
  s.(id) = i /\ unseal key s = Ok it.(it_text) /\ s.(secret_type) = it.(it_type)
  /\ s.(created_at) = it.(it_created) /\ s.(rotated_at) = it.(it_rotated) /\ s.(expires_at) = it.(it_expires)
  /\ s.(integrity_tag) = make_tag (derive_integrity_key key) i s.(nonce) s.(ciphertext).

Definition represents (v : Vault) (m : gmap str item) : Prop :=
  v.(integrity_key) = derive_integrity_key v.(cipher)
  /\ forall i, match v.(secrets) !! i, m !! i with
               | Some s, Some it => seals v.(cipher) i s it
               | None, None => True
               | _, _ => False
               end.

(** A run of a vault next to its abstract map. *)
Inductive vault_run : Vault -> gmap str item -> Prop :=
  | run_open key cfg : vault_run (from_key_bytes key cfg) ∅
  | run_put v m v' now nonce i p ty e :
      vault_run v m -> length nonce = 12%nat -> put now nonce i p ty e v = (Ok tt, v') ->
      vault_run v' (abs_put now i p ty e m)
  | run_delete v m i : vault_run v m -> vault_run (delete i v).2 (base.delete i m)
  | run_rotate v m v' now key l :
      vault_run v m -> iter_of v.(secrets) (map fst l) -> (forall x, x ∈ l -> length x.2 = 12%nat) ->
      rotate_master_key now key l v = (Ok tt, v') -> vault_run v' (rotated now <$> m)
  | run_failed v m v' now nonce i p ty e err :
      vault_run v m -> put now nonce i p ty e v = (Err err, v') -> vault_run v' m
  | run_rotate_failed v m v' now key l err :
      vault_run v m -> rotate_master_key now key l v = (Err err, v') -> vault_run v' m.

Section Laws.
Context `{!VaultLaws}.

Lemma unseal_sealed k n p c s :
  length n = 12%nat -> encrypt k n p = Some c -> s.(ciphertext) = b64_encode c -> s.(nonce) = b64_encode n ->
  unseal k s = Ok p.
Proof.
  intros Hn He Hc Hs. unfold unseal. rewrite Hc, Hs, !b64_decode_encode. cbn. rewrite Hn. cbn.
  by rewrite (decrypt_encrypt _ _ _ _ He).
Qed.

Lemma put_represents v m v' now n i p ty e :
  represents v m -> length n = 12%nat -> put now n i p ty e v = (Ok tt, v') ->
  represents v' (abs_put now i p ty e m).
Proof.
  intros [Hk Hm] Hn. unfold put. destruct (encrypt _ _ _) as [c|] eqn:He; [|done]. intros [= <-]. split; [done|].
  intros j. unfold abs_put. cbn. destruct (decide (i = j)) as [<-|Hne]; [|rewrite !lookup_insert_ne by done; apply Hm].
  rewrite !lookup_insert_eq. specialize (Hm i). split; [done|]. cbn. split; [by eapply unseal_sealed|]. rewrite Hk.
  destruct (secrets v !! i) as [s|], (m !! i) as [it|]; try done. cbn. by destruct Hm as (_ & _ & _ & -> & _).
Qed.

Lemma delete_represents v m i : represents v m -> represents (delete i v).2 (base.delete i m).
Proof.
  intros [Hk Hm]. split; [done|]. intros j. cbn. destruct (decide (i = j)) as [<-|Hne]; [by rewrite !lookup_delete_eq|].
  rewrite !lookup_delete_ne by done. apply Hm.
Qed.

(** Re-encryption of one secret. *)
Lemma rewrap_seals now k k' i s n it fresh acc :
  seals k i s it -> length n = 12%nat -> rewrap now k k' (i, s, n) acc = Ok fresh ->
  exists s', fresh = <[i := s']> acc /\ seals k' i s' (rotated now it).
Proof.
  intros (Hid & Hu & Hty & Hc & Hr & He & Ht) Hn. unfold rewrap. rewrite Hu. cbn [mbind result_bind].
  destruct (encrypt k' n (it_text it)) as [c|] eqn:Henc; [|done]. cbn. intros [= <-]. eexists. split; [done|].
  split; [done|]. cbn. split; [by eapply unseal_sealed|]. done.
Qed.

Lemma rewrap_all now k k' l : forall acc fresh,
  NoDup (map (fun x => x.1.1) l) -> (forall x, x ∈ l -> length x.2 = 12%nat) ->
  (forall x, x ∈ l -> exists it, seals k x.1.1 x.1.2 it) -> try_for (rewrap now k k') l acc = Ok fresh ->
  (forall i, i ∉ map (fun x => x.1.1) l -> fresh !! i = acc !! i)
  /\ forall i s n it, (i, s, n) ∈ l -> seals k i s it -> exists s', fresh !! i = Some s' /\ seals k' i s' (rotated now it).
Proof.
  induction l as [|[[i s] n] l IH]; intros acc fresh Hnd Hlen Hs; [intros [= <-]; split; [done|]; intros * Hin; by apply not_elem_of_nil in Hin|].
  rewrite try_for_cons. intros (acc1 & E1 & E2)%bind_ok_inv. apply NoDup_cons in Hnd as [Hni Hnd]. cbn in Hni.
  destruct (Hs (i, s, n)) as [it Hit]; [by left|].
  destruct (rewrap_seals _ _ _ _ _ _ _ _ _ Hit (Hlen (i, s, n) ltac:(by left)) E1) as (s1 & -> & Hs1).
  destruct (IH _ _ Hnd ltac:(intros; apply Hlen; by right) ltac:(intros; apply Hs; by right) E2) as [Hout Hin]. split.
  - intros j [Hj Hj']%not_elem_of_cons. rewrite Hout by done. by apply lookup_insert_ne.
  - intros j t n' it' [[= -> -> ->]|Hjin]%elem_of_cons Ht; [|by eapply Hin].
    destruct (rewrap_seals _ _ _ _ _ _ _ _ _ Ht (Hlen (i, s, n) ltac:(by left)) E1) as (s2 & E & Hs2).
    exists s2. split; [|done]. rewrite Hout by done. rewrite E. apply lookup_insert_eq.
Qed.

Lemma keys_nodup v (l : list (str * SealedSecret * list byte)) :
  iter_of v.(secrets) (map fst l) -> NoDup (map (fun x => x.1.1) l).
Proof.
  intros Hl. replace (map (fun x => x.1.1) l) with ((map fst l).*1) by (clear; induction l; cbn; congruence).
  rewrite Hl. apply NoDup_fst_map_to_list.
Qed.

Lemma rotate_represents v m v' now key l :
  represents v m -> iter_of v.(secrets) (map fst l) -> (forall x, x ∈ l -> length x.2 = 12%nat) ->
  rotate_master_key now key l v = (Ok tt, v') -> represents v' (rotated now <$> m).
Proof.
  intros [Hk Hm] Hl Hlen. unfold rotate_master_key. destruct (try_for _ l ∅) as [fresh|] eqn:E; [|done]. intros [= <-].
  split; [done|]. intros i. cbn [secrets cipher]. rewrite lookup_fmap.
  assert (Hmem : forall i s, v.(secrets) !! i = Some s <-> exists n, (i, s, n) ∈ l).
  { intros j s. rewrite <- (iter_of_elem _ _ _ _ Hl). rewrite list_elem_of_fmap. split.
    - intros ([[??] n] & [= -> ->] & Hin). eauto.
    - intros [n Hin]. by exists (j, s, n). }
  destruct (rewrap_all now v.(cipher) key l ∅ fresh) as [Hout Hin]; [by eapply keys_nodup|done| |done|].
  { intros [[j s] n] Hx. cbn. specialize (Hm j). assert (Hj : secrets v !! j = Some s) by (apply Hmem; eauto).
    rewrite Hj in Hm. destruct (m !! j); [eauto|done]. }
  specialize (Hm i). destruct (secrets v !! i) as [s|] eqn:Hi, (m !! i) as [it|]; try done.
  - apply Hmem in Hi as [n Hx]. destruct (Hin _ _ _ _ Hx Hm) as (s' & -> & Hs'). done.
  - rewrite Hout, lookup_empty; [done|]. intros ([[j s] n] & -> & Hx)%list_elem_of_fmap.
    assert (secrets v !! j = Some s) by (apply Hmem; eauto). cbn in Hi. congruence.
Qed.

Lemma put_err now n i p ty e v err v' : put now n i p ty e v = (Err err, v') -> err = EncryptionFailed /\ v' = v.
Proof. unfold put. destruct (encrypt _ _ _); naive_solver. Qed.

Lemma rotate_err now key l v err v' : rotate_master_key now key l v = (Err err, v') -> v' = v.
Proof. unfold rotate_master_key. destruct (try_for _ _ _); naive_solver. Qed.

Lemma run_represents v m : vault_run v m -> represents v m.
Proof.
  induction 1; [|by eapply put_represents|by apply delete_represents|by eapply rotate_represents| |].
  - split; [done|]. intros i. cbn. by rewrite !lookup_empty.
  - by match goal with E : put _ _ _ _ _ _ _ = _ |- _ => apply put_err in E as [_ ->] end.
  - by match goal with E : rotate_master_key _ _ _ _ = _ |- _ => apply rotate_err in E as -> end.
Qed.

(** On a vault that stands for a map, rotation can only fail to encrypt. *)
Lemma rotate_total v m now key l err v' :
  represents v m -> iter_of v.(secrets) (map fst l) -> (forall x, x ∈ l -> length x.2 = 12%nat) ->
  rotate_master_key now key l v = (Err err, v') -> err = EncryptionFailed.
Proof.
  intros [_ Hm] Hl Hlen. unfold rotate_master_key. destruct (try_for _ l ∅) as [|e] eqn:E; [done|]. intros [= <- _].
  apply (try_for_inv_err _ (fun _ => True)) in E as ([[i s] n] & acc & Hin & _ & E); [|done|done].
  assert (Hi : v.(secrets) !! i = Some s) by (apply (iter_of_elem _ _ _ _ Hl), list_elem_of_fmap; by exists (i, s, n)).
  specialize (Hm i). rewrite Hi in Hm. destruct (m !! i) as [it|]; [|done]. destruct Hm as (_ & Hu & _).
  unfold rewrap in E. rewrite Hu in E. cbn [mbind result_bind] in E. destruct (encrypt _ _ _); cbn in E; congruence.
Qed.

(** C4: The vault is a map of secrets: after any stores, deletions and key rotations, failed
    ones included, reading gives exactly what the map says, the plain text as stored, or
    that it is unknown or expired; and a rotation keeps every secret, whatever the order,
    failing only when the cipher cannot encrypt and then leaving the vault as it was. *)
Theorem vault_refines v m now i key l (Hrun : vault_run v m)
    (Hl : iter_of v.(secrets) (map fst l)) (Hlen : forall x, x ∈ l -> length x.2 = 12%nat) :
  get now i v = abs_get now i m
  /\ match rotate_master_key now key l v with
     | (Ok _, v') => forall now' j, get now' j v' = abs_get now' j m
     | (Err e, v') => e = EncryptionFailed /\ v' = v
     end.
Proof.
  assert (Hget : forall v m now i, represents v m -> get now i v = abs_get now i m).
  { clear. intros v m now i [_ Hm]. specialize (Hm i). unfold get, abs_get.
    destruct (secrets v !! i) as [s|], (m !! i) as [it|]; try done. cbn.
    destruct Hm as (_ & -> & _ & _ & _ & -> & _). destruct (it_expires it) as [e|]; [|done]. by destruct (e <? now). }
  pose proof (run_represents v m Hrun) as Hr. split; [by apply Hget|].
  destruct (rotate_master_key now key l v) as [[[]|e] v'] eqn:E.
  - intros now' j. rewrite (Hget v' (rotated now <$> m)) by (by eapply rotate_represents).
    unfold abs_get. rewrite lookup_fmap. by destruct (m !! j).
  - split; [by eapply rotate_total|by eapply rotate_err].
Qed.

(** *** Import *)

Lemma b64_encode_inj a b : b64_encode a = b64_encode b -> a = b.
Proof. intros E. apply (f_equal b64_decode) in E. rewrite !b64_decode_encode in E. congruence. Qed.

Lemma make_tag_nonempty k i n c : make_tag k i n c <> [].
Proof.
  unfold make_tag. rewrite <- b64_encode_nil. intros E%b64_encode_inj.
  pose proof (hmac_length k (envelope i n c)) as Hlen. by rewrite E in Hlen.
Qed.

Lemma check_own_tag k s :
  s.(integrity_tag) = make_tag k s.(id) s.(nonce) s.(ciphertext) -> check_imported k s = Ok tt.
Proof.
  intros Ht. unfold check_imported, verify_integrity_tag. rewrite Ht, bool_decide_eq_false_2 by apply make_tag_nonempty.
  by rewrite Z.eqb_refl, bool_decide_eq_true_2.
Qed.

(** A backup restores the vault: the secrets exported by a vault are all accepted by a
    vault opened with the same key, and every read there gives what the exporting vault
    gives. *)
Theorem import_restores v m l json cfg (Hrun : vault_run v m)
    (Hl : iter_of v.(secrets) l) (Hexport : export l = Some json) :
  exists v', import json (from_key_bytes v.(cipher) cfg) = (Ok (len v), v')
  /\ forall now i, get now i v' = get now i v.
Proof.
  destruct (run_represents v m Hrun) as [Hk Hm]. unfold import. rewrite (secrets_from_to_json _ _ Hexport). cbn [integrity_key from_key_bytes].
  assert (Hmem : forall i s, (i, s) ∈ l -> v.(secrets) !! i = Some s /\ s.(id) = i
            /\ s.(integrity_tag) = make_tag (derive_integrity_key v.(cipher)) s.(id) s.(nonce) s.(ciphertext)).
  { intros i s Hs%(iter_of_elem _ _ _ _ Hl). specialize (Hm i). rewrite Hs in Hm. destruct (m !! i); [|done].
    destruct Hm as (Hid & _ & _ & _ & _ & _ & Ht). by rewrite Hid. }
  rewrite (proj2 (try_for_unit _ _)).
  2: { intros s ([i t] & -> & Hin)%list_elem_of_fmap. apply check_own_tag, (Hmem i t Hin). }
  assert (Hsz : length (map snd l) = len v).
  { rewrite length_map, (Permutation_length Hl). apply length_map_to_list. }
  eexists. split; [by rewrite Hsz|].
  assert (Hids : map id (map snd l) = l.*1).
  { clear Hl Hexport Hsz. induction l as [|[i s] l IH]; [done|]. cbn. rewrite IH by (intros; apply Hmem; by apply elem_of_cons; right).
    destruct (Hmem i s) as (_ & -> & _); [by apply elem_of_cons; left|done]. }
  destruct (foldl_insert_lookup id (fun s => s) (map snd l) (∅ : gmap str SealedSecret)) as [Hin Hout]; [rewrite Hids, Hl; apply NoDup_fst_map_to_list|].
  intros now i. unfold get. cbn [secrets cipher with_secrets from_key_bytes].
  enough (E : foldl (fun m s => <[s.(id) := s]> m) ∅ (map snd l) !! i = v.(secrets) !! i) by (by rewrite E).
  destruct (secrets v !! i) as [s|] eqn:Hi.
  - apply (iter_of_elem _ _ _ _ Hl) in Hi. destruct (Hmem i s Hi) as (_ & <- & _). apply Hin.
    apply list_elem_of_fmap. by exists (id s, s).
  - rewrite Hout; [apply lookup_empty|]. rewrite Hids. intros ([j s] & -> & Hj)%list_elem_of_fmap.
    cbn in Hi. apply (iter_of_elem _ _ _ _ Hl) in Hj. congruence.
Qed.

(** The tag does not cover the metadata: a secret read from an export whose expiry was
    removed is accepted, and the expired secret can be read again. *)
Theorem import_revives_expired v m i it s json now
    (Hrun : vault_run v m) (Hi : m !! i = Some it) (Hs : v.(secrets) !! i = Some s)
    (Hjson : secrets_from_json json
             = Some [{| id := s.(id); ciphertext := s.(ciphertext); nonce := s.(nonce); integrity_tag := s.(integrity_tag);
                        created_at := s.(created_at); rotated_at := s.(rotated_at); expires_at := None;
                        secret_type := s.(secret_type) |}]) :
  exists v', import json v = (Ok 1%nat, v') /\ get now i v' = Ok it.(it_text).
Proof.
  destruct (run_represents v m Hrun) as [Hk Hm]. specialize (Hm i). rewrite Hs, Hi in Hm.
  destruct Hm as (Hid & Hu & _ & _ & _ & _ & Ht). unfold import. rewrite Hjson. cbn [try_for].
  rewrite check_own_tag by (cbn; by rewrite Hk, Hid). eexists. split; [done|].
  unfold get. cbn. rewrite Hid, lookup_insert_eq. cbn. exact Hu.
Qed.

(** An entry stored under an identifier is read back until it expires, with its type
    recorded for the listings. *)
Theorem entry_roundtrip v m now nonce_arr i e expires v' now'
    (Hrun : vault_run v m) (Hnonce : length nonce_arr = 12%nat)
    (Hput : put_entry now nonce_arr i e expires v = (Ok tt, v')) :
  get_entry now' i v' = (if match expires with Some x => x <? now' | None => false end then Err (Expired i) else Ok e)
  /\ exists s, v'.(secrets) !! i = Some s /\ s.(secret_type) = entry_type e.
Proof.
  unfold put_entry in Hput. destruct (entry_to_bytes e) as [bytes|] eqn:He; [|done].
  destruct (run_represents _ _ (run_put _ _ _ _ _ _ _ _ _ Hrun Hnonce Hput)) as [_ Hm]. specialize (Hm i).
  unfold abs_put in Hm. rewrite lookup_insert_eq in Hm. destruct (secrets v' !! i) as [s|] eqn:Hs; [|done].
  destruct Hm as (_ & Hu & Hty & _ & _ & Hexp & _). cbn [it_text it_type it_expires] in *. split; [|by exists s].
  unfold get_entry, get. rewrite Hs. cbn [ok_or mbind result_bind]. rewrite Hexp.
  destruct (match expires with Some _ => _ | None => _ end); [done|]. rewrite Hu. cbn [mbind result_bind].
  by rewrite (entry_from_to_bytes _ _ He).
Qed.

(** *** What the tag protects *)

(** The envelope determines the fields. *)
Lemma envelope_inj i n c i' n' c' :
  Forall is_scalar i -> Forall is_scalar i' -> Forall is_scalar n -> Forall is_scalar n' -> Forall is_scalar c -> Forall is_scalar c' ->
  Forall (fun f => Z.of_nat (length (as_bytes f)) < 2 ^ 64) [i; n; c; i'; n'; c'] ->
  envelope i n c = envelope i' n' c' -> i = i' /\ n = n' /\ c = c'.
Proof.
  intros Si Si' Sn Sn' Sc Sc' Hlen E.
  assert (Hinj : forall a b, Forall is_scalar a -> Forall is_scalar b -> as_bytes a = as_bytes b -> a = b).
  { intros a b Ha Hb Eab. apply (f_equal from_utf8_lossy) in Eab. by rewrite !from_utf8_lossy_as_bytes in Eab. }
  assert (Hfield : forall f f' r r', Z.of_nat (length f) < 2 ^ 64 -> Z.of_nat (length f') < 2 ^ 64 ->
            to_be 8 (Z.of_nat (length f)) ++ f ++ r = to_be 8 (Z.of_nat (length f')) ++ f' ++ r' -> f = f' /\ r = r').
  { intros f f' r r' Hf Hf' Ef. apply app_inj_1 in Ef as [El Ef]; [|by rewrite !length_to_be].
    apply (f_equal from_be) in El. rewrite !from_be_to_be in El by (change (256 ^ Z.of_nat 8) with (2 ^ 64); lia).
    by apply app_inj_1 in Ef; [|lia]. }
  repeat (apply Forall_cons in Hlen as [? Hlen]). unfold envelope in E. cbn [map concat] in E. rewrite !app_nil_r, <- !app_assoc in E.
  apply Hfield in E as [E1 E]; [|done..]. apply Hfield in E as [E2 E]; [|done..].
  destruct (Hfield (as_bytes c) (as_bytes c') [] []) as [E3 _]; [done|done|by rewrite !app_nil_r|]. auto.
Qed.

(** The fields of a sealed secret as the source can hold them. *)
Definition sealed_ok (s : SealedSecret) : Prop :=
  Forall (fun f => Forall is_scalar f /\ Z.of_nat (length (as_bytes f)) < 2 ^ 64)
         [s.(id); s.(nonce); s.(ciphertext); s.(integrity_tag)].

Lemma check_imported_tag k s : sealed_ok s -> Forall is_scalar (make_tag k s.(id) s.(nonce) s.(ciphertext)) ->
  check_imported k s = Ok tt -> s.(integrity_tag) = make_tag k s.(id) s.(nonce) s.(ciphertext).
Proof.
  intros Hok Hsc. unfold check_imported, verify_integrity_tag. case_bool_decide; [done|].
  destruct (_ =? _); [|done]. case_bool_decide as E; [|done]. intros _. symmetry.
  apply (f_equal from_utf8_lossy) in E. rewrite !from_utf8_lossy_as_bytes in E; [done| |done].
  unfold sealed_ok in Hok. rewrite !Forall_cons in Hok. tauto.
Qed.

(** An import is all or nothing, and what it accepts under the tag of a stored secret is
    that secret, its identifier, nonce and ciphertext unchanged, unless two messages with
    the same HMAC were found. *)
Theorem import_authentic v m json
    (Hrun : vault_run v m) (Hb64 : forall bs, Forall is_scalar (b64_encode bs))
    (Hok : forall ss s, secrets_from_json json = Some ss -> s ∈ ss -> sealed_ok s) :
  match import json v with
  | (Err _, v') => v' = v
  | (Ok n, v') =>
      exists ss, secrets_from_json json = Some ss /\ n = length ss
      /\ forall s i s0, s ∈ ss -> v.(secrets) !! i = Some s0 -> sealed_ok s0 ->
           s.(integrity_tag) = s0.(integrity_tag) ->
           (s.(id) = i /\ s.(nonce) = s0.(nonce) /\ s.(ciphertext) = s0.(ciphertext))
           \/ exists x y, x <> y /\ hmac v.(integrity_key) x = hmac v.(integrity_key) y
  end.
Proof.
  destruct (run_represents v m Hrun) as [Hk Hm]. unfold import.
  destruct (secrets_from_json json) as [ss|]; [|done].
  destruct (try_for _ ss tt) as [[]|e] eqn:Hloop; [|done]. exists ss. do 2 (split; [done|]).
  intros s i s0 Hs Hi Hok0 Htag. pose proof (Hok ss s eq_refl Hs) as Hoks. specialize (Hm i). rewrite Hi in Hm.
  destruct (m !! i); [|done]. destruct Hm as (Hid & _ & _ & _ & _ & _ & Ht0). subst i.
  pose proof (check_imported_tag _ _ Hoks (Hb64 _) (proj1 (try_for_unit _ _) Hloop s Hs)) as Ht.
  rewrite Ht, Ht0, <- Hk in Htag. apply b64_encode_inj in Htag.
  destruct (decide (envelope s.(id) s.(nonce) s.(ciphertext) = envelope s0.(id) s0.(nonce) s0.(ciphertext))) as [E|];
    [left|right; by eexists _, _].
  unfold sealed_ok in Hoks, Hok0. rewrite !Forall_cons in Hoks, Hok0.
  apply envelope_inj in E; rewrite ?Forall_cons, ?Forall_nil; tauto.
Qed.

End Laws.

End Vault.

(** ** A concrete run

    A stand-in for the crates: a ciphertext is the text after a check byte of the key and the
    nonce, and the authentication code is the sum of the bytes. *)
Module VaultExamples.

#[local] Instance sealed_eq_dec : EqDecision SealedSecret.
Proof. solve_decision. Defined.

(** Strings after their lengths, times after a mark. *)
Definition put_str (s : str) : str := Z.of_nat (length s) :: s.
Definition put_time (t : option Z) : str := match t with Some t => [1; t] | None => [0; 0] end.
Definition put_secret (s : SealedSecret) : str :=
  s.(created_at) :: put_time s.(rotated_at) ++ put_time s.(expires_at)
  ++ put_str s.(id) ++ put_str s.(ciphertext) ++ put_str s.(nonce) ++ put_str s.(integrity_tag) ++ put_str s.(secret_type).
Definition put_secrets (ss : list SealedSecret) : str := concat (map put_secret ss).

Definition get_str (s : str) : str * str := match s with n :: r => (take (Z.to_nat n) r, drop (Z.to_nat n) r) | [] => ([], []) end.
Definition get_time (s : str) : option Z * str :=
  match s with m :: t :: r => (if m =? 1 then Some t else None, r) | _ => (None, []) end.
Definition get_secret (s : str) : SealedSecret * str :=
  let cr := default 0 (head s) in
  let '(ro, r) := get_time (tail s) in
  let '(ex, r) := get_time r in
  let '(i, r) := get_str r in
  let '(c, r) := get_str r in
  let '(n, r) := get_str r in
  let '(t, r) := get_str r in
  let '(ty, r) := get_str r in
  ({| id := i; ciphertext := c; nonce := n; integrity_tag := t; created_at := cr; rotated_at := ro; expires_at := ex;
      secret_type := ty |}, r).
Fixpoint get_secrets (fuel : nat) (s : str) : list SealedSecret :=
  match fuel, s with S fuel, _ :: _ => let '(x, r) := get_secret s in x :: get_secrets fuel r | _, _ => [] end.

Definition get_note (bs : list byte) : option (str * str) := split_once 58 (map b2z bs).

Definition sum_bytes (l : list byte) : Z := fold_right (fun b n => b2z b + n) 0 l.

#[local] Instance toy : VaultEnv := {
  encrypt k n p := if 100000 <? Z.of_nat (length p) then None else Some (z2b (sum_bytes k + sum_bytes n) :: p);
  decrypt k n c := match c with
    | t :: p => if bool_decide (t = z2b (sum_bytes k + sum_bytes n)) then Some p else None
    | [] => None
    end;
  hmac k m := z2b (sum_bytes k + sum_bytes m) :: repeat x00 31;
  b64_encode bs := map b2z bs;
  b64_decode s := Some (map z2b s);
  argon2 m t p := if (m <? 8 * p) || (t <? 1) || (p <? 1) then None else Some (fun pw salt => Some (pw ++ salt));
  secrets_to_json ss := let s := put_secrets ss in if bool_decide (get_secrets (length s) s = ss) then Some s else None;
  secrets_from_json s := Some (get_secrets (length s) s);
  entry_to_bytes e := match e with
    | {| name := n; folder := None; tags := []; url := None; notes := []; favorite := false; content := SecureNote t |} =>
        let bs := map z2b (n ++ 58 :: t) in if bool_decide (get_note bs = Some (n, t)) then Some bs else None
    | _ => None
    end;
  entry_from_bytes bs := match get_note bs with
    | Some (n, t) => Some {| name := n; folder := None; tags := []; url := None; notes := []; favorite := false;
                             content := SecureNote t |}
    | None => None
    end
}.

#[local] Instance toy_laws : VaultLaws.
Proof.
  split; try done.
  - intros k n p c. cbn. destruct (_ <? _); [done|]. intros [= <-]. by rewrite bool_decide_eq_true_2.
  - intros bs. cbn. f_equal. rewrite map_map. rewrite <- (map_id bs) at 2. apply map_ext, z2b_b2z.
  - intros ss json. unfold secrets_to_json, toy. cbv zeta. case_bool_decide as E; [|done]. intros [= <-]. cbn. by rewrite E.
  - intros [n [] [] [] [] [] []] bs; try done. unfold entry_to_bytes, toy. cbv zeta. case_bool_decide as E; [|done].
    intros [= <-]. cbn. by rewrite E.
Qed.

Definition key0 : list byte := repeat x07 32.
Definition nonce0 : list byte := repeat x09 12.
Definition note0 : VaultEntry :=
  {| name := lit "wifi"; folder := None; tags := []; url := None; notes := []; favorite := false; content := SecureNote (lit "pw") |}.
Definition v1 : Vault := (put 100 nonce0 (lit "db") (as_bytes (lit "hunter2")) (lit "login") (Some 200) (open key0)).2.
Definition m1 : gmap str item := abs_put 100 (lit "db") (as_bytes (lit "hunter2")) (lit "login") (Some 200) ∅.
Definition sealed1 : SealedSecret :=
  let ct := b64_encode (z2b (sum_bytes key0 + sum_bytes nonce0) :: as_bytes (lit "hunter2")) in
  {| id := lit "db"; ciphertext := ct; nonce := b64_encode nonce0;
     integrity_tag := make_tag (derive_integrity_key key0) (lit "db") (b64_encode nonce0) ct;
     created_at := 100; rotated_at := None; expires_at := Some 200; secret_type := lit "login" |}.

Lemma v1_run : vault_run v1 m1.
Proof. apply (run_put (open key0) ∅ v1 100 nonce0); [apply run_open|reflexivity..]. Qed.

Lemma v1_secrets : map_to_list v1.(secrets) = [(lit "db", sealed1)].
Proof. vm_compute. reflexivity. Qed.

Lemma vault_refines_witness :
  get 150 (lit "db") v1 = Ok (as_bytes (lit "hunter2"))
  /\ get 150 (lit "db") (rotate_master_key 150 (repeat x03 32) [(lit "db", sealed1, repeat x05 12)] v1).2 = Ok (as_bytes (lit "hunter2")).
Proof.
  destruct (vault_refines v1 m1 150 (lit "db") (repeat x03 32) [(lit "db", sealed1, repeat x05 12)] v1_run) as [Hg Hr].
  - unfold iter_of. by rewrite v1_secrets.
  - intros x [->|Hx%not_elem_of_nil]%elem_of_cons; done.
  - split; [rewrite Hg; vm_compute; reflexivity|].
    destruct (rotate_master_key _ _ _ v1) as [[[]|e] v'] eqn:E; [|vm_compute in E; discriminate].
    cbn [snd]. rewrite Hr. vm_compute. reflexivity.
Defined.

Lemma import_restores_witness :
  exists v', import (put_secrets [sealed1]) (from_key_bytes key0 default_config) = (Ok 1%nat, v')
  /\ get 150 (lit "db") v' = Ok (as_bytes (lit "hunter2")).
Proof.
  destruct (import_restores v1 m1 [(lit "db", sealed1)] (put_secrets [sealed1]) default_config v1_run) as (v' & E & Hg).
  - unfold iter_of. by rewrite v1_secrets.
  - reflexivity.
  - exists v'. split; [exact E|]. rewrite Hg. vm_compute. reflexivity.
Defined.

Lemma entry_roundtrip_witness :
  get_entry 300 (lit "n") (put_entry 100 nonce0 (lit "n") note0 None v1).2 = Ok note0
  /\ get_entry 300 (lit "n") (put_entry 100 nonce0 (lit "n") note0 (Some 200) v1).2 = Err (Expired (lit "n")).
Proof.
  split.
  - exact (proj1 (entry_roundtrip v1 m1 100 nonce0 (lit "n") note0 None _ 300 v1_run eq_refl eq_refl)).
  - exact (proj1 (entry_roundtrip v1 m1 100 nonce0 (lit "n") note0 (Some 200) _ 300 v1_run eq_refl eq_refl)).
Defined.

(** At time 300 the secret of [v1] has expired; after the import it is read. *)
Lemma import_revives_expired_witness :
  get 300 (lit "db") v1 = Err (Expired (lit "db"))
  /\ exists json v', import json v1 = (Ok 1%nat, v') /\ get 300 (lit "db") v' = Ok (as_bytes (lit "hunter2")).
Proof.
  split; [vm_compute; reflexivity|]. eexists.
  apply (import_revives_expired v1 m1 (lit "db") {| it_text := as_bytes (lit "hunter2"); it_type := lit "login"; it_created := 100;
           it_rotated := None; it_expires := Some 200 |} sealed1 _ 300 v1_run); [vm_compute; reflexivity..|].
  apply secrets_from_to_json. reflexivity.
Defined.

Lemma import_authentic_witness :
  exists ss, secrets_from_json (put_secrets [sealed1]) = Some ss /\ length ss = 1%nat.
Proof.
  pose proof (import_authentic v1 m1 (put_secrets [sealed1]) v1_run) as Hi.
  assert (Hss : secrets_from_json (put_secrets [sealed1]) = Some [sealed1]) by (apply secrets_from_to_json; reflexivity).
  destruct (import (put_secrets [sealed1]) v1) as [[n|e] v'] eqn:E.
  - destruct Hi as (ss & Hs & Hn & _); [| |exists ss; split; [exact Hs|]].
    + intros bs. apply Forall_map, Forall_true. intros b. left. pose proof (b2z_range b). lia.
    + intros ss s Hs. rewrite Hss in Hs. injection Hs as <-. intros [->|Hx%not_elem_of_nil]%elem_of_cons; [|done].
      repeat constructor; vm_compute; intuition congruence.
    + rewrite Hs in Hss. by injection Hss as ->.
  - vm_compute in E. discriminate.
Defined.

End VaultExamples.
