(* ===== verification/Backup.v ===== *)
(** * The backup engine ([runesh-backup/src/lib.rs])

    Content-addressed chunks, snapshots, restoring, garbage collection and the retention
    policy. SHA-256 and the calendar of chrono are the interfaces [Sha256] and [Datelike];
    the clock and the identifiers drawn are arguments. FastCDC and the directory scan are not
    modelled: a backup is any list of chunks addressed by their content. *)
From S2P Require Import Prelude Str.

#[local] Open Scope Z_scope.

Record Manifest := {
  id : str;
  hostname : str;
  paths : list str;
  created_at : Z;
  total_size : Z;
  chunk_ids : list str;
  tags : list str
}.

Record Chunk := { c_id : str; c_data : list byte; original_size : Z }.

Inductive BackupError : Type :=
  | SnapshotNotFound (id : str)
  | ChunkMissing (id : str)
  | HashMismatch (expected actual : str)
  | Storage
  | Serde.

Record RetentionPolicy := {
  keep_daily : Z;
  keep_weekly : Z;
  keep_monthly : Z;
  keep_yearly : Z;
  keep_last : Z
}.

Definition default_policy : RetentionPolicy :=
  {| keep_daily := 7; keep_weekly := 4; keep_monthly := 12; keep_yearly := 0; keep_last := 1 |}.

(** The calendar: the day, month and year of a time, and the year and week of ISO 8601. *)
Class Datelike := {
  date : Z -> Z;
  month : Z -> Z;
  year : Z -> Z;
  iso_year : Z -> Z;
  iso_week : Z -> Z
}.

Class Sha256 := { sha256 : list byte -> list byte }.
Class Sha256Laws `{Sha256} : Prop := { sha256_length : forall d, length (sha256 d) = 32%nat }.

(** ** Chunks *)

Section Chunks.
Context `{Sha256}.

Definition content_hash (data : list byte) : str := concat (map (fun b => hex02 (b2z b)) (sha256 data)).

(** [slice::chunks]; the fuel is the length of the data. *)
Fixpoint chunks_of (fuel : nat) (n : nat) (data : list byte) : list (list byte) :=
  match fuel, data with
  | S fuel, _ :: _ => take n data :: chunks_of fuel n (drop n data)
  | _, _ => []
  end.

(** [None]: [slice::chunks] panics on the size zero. *)
Definition chunk_data (data : list byte) (chunk_size : nat) : option (list Chunk) :=
  if (chunk_size =? 0)%nat then None
  else Some (map (fun slice => {| c_id := content_hash slice; c_data := slice; original_size := Z.of_nat (length slice) |})
                 (chunks_of (length data) chunk_size data)).

End Chunks.

(** ** Retention *)

Section Retention.
Context `{Datelike}.

(** [slice::sort_by], which is stable, newest first. *)
Fixpoint insert_newest (s : Manifest) (l : list Manifest) : list Manifest :=
  match l with
  | [] => [s]
  | t :: l' => if s.(created_at) <? t.(created_at) then t :: insert_newest s l' else s :: l
  end.
Definition newest_first (l : list Manifest) : list Manifest := foldr insert_newest [] l.

Fixpoint fill_loop {K} `{Countable K} (limit : Z) (key : Manifest -> K) (ordered : list Manifest) (seen : gset K)
    (dst : gset str) : gset str :=
  match ordered with
  | [] => dst
  | s :: ordered =>
      if limit <=? Z.of_nat (size seen) then dst
      else if bool_decide (key s ∈ seen) then fill_loop limit key ordered seen dst
      else fill_loop limit key ordered ({[key s]} ∪ seen) ({[s.(id)]} ∪ dst)
  end.

Definition fill {K} `{Countable K} (dst : gset str) (ordered : list Manifest) (limit : Z) (key : Manifest -> K) : gset str :=
  if limit =? 0 then dst else fill_loop limit key ordered ∅ dst.

Definition by_day (s : Manifest) : Z := date s.(created_at).
Definition by_week (s : Manifest) : Z * Z := (iso_year s.(created_at), iso_week s.(created_at)).
Definition by_month (s : Manifest) : Z * Z := (year s.(created_at), month s.(created_at)).
Definition by_year (s : Manifest) : Z := year s.(created_at).

Definition select_keep (p : RetentionPolicy) (snapshots : list Manifest) : gset str :=
  let ordered := newest_first snapshots in
  let keep : gset str := foldl (fun k s => {[s.(id)]} ∪ k) ∅ (take (Z.to_nat p.(keep_last)) ordered) in
  let keep := fill keep ordered p.(keep_daily) by_day in
  let keep := fill keep ordered p.(keep_weekly) by_week in
  let keep := fill keep ordered p.(keep_monthly) by_month in
  fill keep ordered p.(keep_yearly) by_year.

Definition select_delete (p : RetentionPolicy) (snapshots : list Manifest) : list str :=
  let keep := select_keep p snapshots in
  map id (filter (fun s => s.(id) ∉ keep) snapshots).

End Retention.

(** ** The repository *)

Section Repo.
Context `{Sha256} `{Datelike}.

Record BackupRepo := { snapshots : list Manifest; chunks : gmap str (list byte) }.

Definition new : BackupRepo := {| snapshots := []; chunks := ∅ |}.

Definition store_chunk (c : Chunk) (r : BackupRepo) : bool * BackupRepo :=
  if bool_decide (is_Some (r.(chunks) !! c.(c_id))) then (false, r)
  else (true, {| snapshots := r.(snapshots); chunks := <[c.(c_id) := c.(c_data)]> r.(chunks) |}).

Definition get_chunk (i : str) (r : BackupRepo) : option (list byte) := r.(chunks) !! i.

(** [i] and [now] are the identifier drawn and the time. *)
Definition create_snapshot (i : str) (now : Z) (hostname : str) (paths : list str) (cs : list Chunk) (tags : list str)
    (r : BackupRepo) : Manifest * BackupRepo :=
  let chunk_ids := map c_id cs in
  let total_size := foldl (fun n c => wadd 64 n c.(original_size)) 0 cs in
  let r := foldl (fun r c => (store_chunk c r).2) r cs in
  let snapshot := {| id := i; hostname := hostname; paths := paths; created_at := now; total_size := total_size;
                     chunk_ids := chunk_ids; tags := tags |} in
  (snapshot, {| snapshots := r.(snapshots) ++ [snapshot]; chunks := r.(chunks) |}).

(** The chunk a snapshot refers to, its content checked. *)
Definition fetch (cs : gmap str (list byte)) (chunk_id : str) : result BackupError (list byte) :=
  data ← ok_or (ChunkMissing chunk_id) (cs !! chunk_id);
  let computed := content_hash data in
  if bool_decide (computed = chunk_id) then Ok data else Err (HashMismatch chunk_id computed).

Definition find_snapshot (i : str) (r : BackupRepo) : result BackupError Manifest :=
  ok_or (SnapshotNotFound i) (snd <$> list_find (fun s => s.(id) = i) r.(snapshots)).

Definition restore (i : str) (r : BackupRepo) : result BackupError (list byte) :=
  snapshot ← find_snapshot i r;
  try_for (fun c data => chunk ← fetch r.(chunks) c; Ok (data ++ chunk)) snapshot.(chunk_ids) [].

(** Writing to a stream: [write_all] and [flush] give its new state, [None] on an error, after
    which the stream is not used. *)
Definition restore_to {W} (write_all : list byte -> W -> option W) (flush : W -> option W) (i : str) (w : W) (r : BackupRepo)
    : result BackupError W :=
  snapshot ← find_snapshot i r;
  w ← try_for (fun c w => chunk ← fetch r.(chunks) c; ok_or Storage (write_all chunk w)) snapshot.(chunk_ids) w;
  ok_or Storage (flush w).

Definition delete_snapshot (i : str) (r : BackupRepo) : bool * BackupRepo :=
  let kept := filter (fun s => s.(id) <> i) r.(snapshots) in
  ((length kept <? length r.(snapshots))%nat, {| snapshots := kept; chunks := r.(chunks) |}).

Definition chunk_count (r : BackupRepo) : nat := size r.(chunks).

Definition storage_bytes (r : BackupRepo) : Z :=
  foldl (fun n kd => wadd 64 n (Z.of_nat (length kd.2))) 0 (map_to_list r.(chunks)).

Definition gc (r : BackupRepo) : nat * BackupRepo :=
  let referenced : gset str := list_to_set (concat (map chunk_ids r.(snapshots))) in
  let kept := filter (fun kd => kd.1 ∈ referenced) r.(chunks) in
  ((size r.(chunks) - size kept)%nat, {| snapshots := r.(snapshots); chunks := kept |}).

Definition apply_retention (p : RetentionPolicy) (r : BackupRepo) : nat * nat * BackupRepo :=
  let to_delete := select_delete p r.(snapshots) in
  let kept := filter (fun s => s.(id) ∉ to_delete) r.(snapshots) in
  let '(chunks_removed, r') := gc {| snapshots := kept; chunks := r.(chunks) |} in
  ((length r.(snapshots) - length kept)%nat, chunks_removed, r').

End Repo.

(** ** What a retention policy keeps *)

Section RetentionSpec.
Context `{Datelike}.

Lemma insert_newest_perm s l : insert_newest s l ≡ₚ s :: l.
Proof. induction l as [|t l IH]; cbn; [done|]. case_if; [|done]. rewrite IH. apply perm_swap. Qed.

Lemma newest_first_perm l : newest_first l ≡ₚ l.
Proof. induction l as [|s l IH]; cbn; [done|]. by rewrite insert_newest_perm, IH. Qed.

Definition no_newer (a b : Manifest) : Prop := b.(created_at) <= a.(created_at).

Lemma insert_newest_sorted s l : StronglySorted no_newer l -> StronglySorted no_newer (insert_newest s l).
Proof.
  unfold no_newer. induction 1 as [|t l Hl IH Ht]; cbn; [repeat constructor|]. case_if; constructor; try done.
  - rewrite Forall_forall in *. intros u. rewrite insert_newest_perm, elem_of_cons. intros [->|Hu]; [lia|by apply Ht].
  - by constructor.
  - constructor; [lia|]. eapply Forall_impl; [exact Ht|]. cbn. lia.
Qed.

Lemma newest_first_sorted l : StronglySorted no_newer (newest_first l).
Proof. induction l as [|s l IH]; cbn; [constructor|]. by apply insert_newest_sorted. Qed.

Lemma fill_loop_spec {K} `{Countable K} limit (key : Manifest -> K) l : forall seen dst i,
  i ∈ fill_loop limit key l seen dst <->
  i ∈ dst \/ exists pre s post, l = pre ++ s :: post /\ s.(id) = i /\ (key s ∉ seen ∪ list_to_set (map key pre))
                                /\ Z.of_nat (size (seen ∪ list_to_set (map key pre) : gset K)) < limit.
Proof.
  induction l as [|s l IH]; intros seen dst i; cbn [fill_loop].
  { split; [by left|]. intros [?|([|??] & ? & ? & ? & _)]; done. }
  case_if.
  { split; [by left|]. intros [?|(pre & t & post & _ & _ & _ & Hlt)]; [done|].
    assert (size seen <= size (seen ∪ list_to_set (map key pre) : gset K))%nat by (apply subseteq_size; set_solver). lia. }
  case_if; rewrite IH.
  - split; intros [?|(pre & t & post & E & Hid & Hni & Hlt)]; try by left.
    + right. exists (s :: pre), t, post. cbn. rewrite E.
      replace (seen ∪ ({[key s]} ∪ list_to_set (map key pre))) with (seen ∪ list_to_set (map key pre)) by set_solver. done.
    + destruct pre as [|u pre]; cbn in E; injection E as -> ->; [set_solver|]. right. exists pre, t, post. cbn in Hni, Hlt.
      replace (seen ∪ ({[key u]} ∪ list_to_set (map key pre))) with (seen ∪ list_to_set (map key pre)) in * by set_solver. done.
  - rewrite elem_of_union, elem_of_singleton. split.
    + intros [[->|?]|(pre & t & post & E & Hid & Hni & Hlt)]; [|by left|].
      * right. exists [], s, l. cbn. rewrite union_empty_r_L. repeat split; [done|lia].
      * right. exists (s :: pre), t, post. cbn. rewrite E.
        replace (seen ∪ ({[key s]} ∪ list_to_set (map key pre))) with ({[key s]} ∪ seen ∪ list_to_set (map key pre)) by set_solver. done.
    + intros [?|(pre & t & post & E & Hid & Hni & Hlt)]; [by left; right|].
      destruct pre as [|u pre]; cbn in E; injection E as -> ->; [by left; left|]. right. exists pre, t, post. cbn in Hni, Hlt.
      replace (seen ∪ ({[key u]} ∪ list_to_set (map key pre))) with ({[key u]} ∪ seen ∪ list_to_set (map key pre)) in * by set_solver. done.
Qed.

(** The snapshots newer than [s]. *)
Definition newer (s : Manifest) (l : list Manifest) : list Manifest := filter (fun t => s.(created_at) < t.(created_at)) l.

(** [s] is the newest of its period, and fewer than [limit] periods are more recent. *)
Definition kept_by {K} `{Countable K} (limit : Z) (key : Manifest -> K) (l : list Manifest) (s : Manifest) : Prop :=
  (forall t, t ∈ newer s l -> key t <> key s)
  /\ Z.of_nat (size (list_to_set (map key (newer s l)) : gset K)) < limit.

(** With distinct times, what stands before a snapshot in the order are the newer ones. *)
Lemma sorted_newer pre s post :
  StronglySorted no_newer (pre ++ s :: post) -> NoDup (map created_at (pre ++ s :: post)) ->
  newer s (pre ++ s :: post) = pre.
Proof.
  unfold newer, no_newer. induction pre as [|u pre IH]; cbn [app map].
  - intros Hs _. rewrite filter_cons_False by lia. inversion Hs as [|? ? _ Hall]; subst. clear Hs.
    induction Hall as [|t post Ht _ IHp]; [done|]. by rewrite filter_cons_False by lia.
  - inversion 1 as [|? ? Hs Hall]; subst. inversion 1 as [|? ? Hni Hnd]; subst.
    rewrite Forall_forall in Hall. specialize (Hall s ltac:(set_solver)).
    rewrite filter_cons_True, IH; [done..|]. rewrite list_elem_of_fmap in Hni.
    destruct (decide (s.(created_at) = u.(created_at))) as [Eq|]; [|lia]. destruct Hni. exists s. set_solver.
Qed.

Lemma newest_first_split l pre s post :
  NoDup (map created_at l) -> newest_first l = pre ++ s :: post -> pre ≡ₚ newer s l.
Proof.
  intros Hnd E. assert (Hn : newer s (pre ++ s :: post) = pre).
  { apply sorted_newer; rewrite <- E; [apply newest_first_sorted|]. by rewrite newest_first_perm. }
  unfold newer in *. by rewrite <- Hn at 1; rewrite <- E, newest_first_perm.
Qed.

Lemma fill_spec {K} `{Countable K} limit (key : Manifest -> K) dst l i :
  0 <= limit -> NoDup (map created_at l) ->
  i ∈ fill dst (newest_first l) limit key <-> i ∈ dst \/ exists s, s ∈ l /\ s.(id) = i /\ kept_by limit key l s.
Proof.
  intros Hlim Hnd. unfold fill. case_if.
  { split; [by left|]. intros [?|(s & _ & _ & _ & Hlt)]; [done|]. lia. }
  rewrite fill_loop_spec. apply or_iff_compat_l. unfold kept_by. split.
  - intros (pre & s & post & E & Hid & Hni & Hlt). exists s.
    pose proof (newest_first_split l pre s post Hnd E) as Hp. rewrite union_empty_l_L in *. repeat split; [|done| |].
    + rewrite <- (newest_first_perm l), E. set_solver.
    + intros t Ht. rewrite <- Hp in Ht. set_solver.
    + by rewrite <- (list_to_set_perm_L _ _ (Permutation_map key Hp)).
  - intros (s & Hs & Hid & Hni & Hlt). rewrite <- (newest_first_perm l) in Hs.
    apply list_elem_of_split in Hs as (pre & post & E). exists pre, s, post.
    pose proof (newest_first_split l pre s post Hnd E) as Hp. rewrite union_empty_l_L. repeat split; [done|done| |].
    + rewrite elem_of_list_to_set, list_elem_of_fmap. intros (t & Ht & Hin). rewrite Hp in Hin. by apply (Hni t Hin).
    + by rewrite (list_to_set_perm_L _ _ (Permutation_map key Hp)).
Qed.

(** C39: The retention policy keeps the newest [keep_last] snapshots and, for the days, ISO
    weeks, months and years, the newest snapshot of each of the most recent periods that
    have one, as many as the policy says, and no other. *)
Theorem select_keep_spec p l i
    (Hp : Forall (fun n => 0 <= n) [p.(keep_daily); p.(keep_weekly); p.(keep_monthly); p.(keep_yearly); p.(keep_last)])
    (Hnd : NoDup (map created_at l)) :
  i ∈ select_keep p l <->
  exists s, s ∈ l /\ s.(id) = i
    /\ (Z.of_nat (length (newer s l)) < p.(keep_last) \/ kept_by p.(keep_daily) by_day l s
        \/ kept_by p.(keep_weekly) by_week l s \/ kept_by p.(keep_monthly) by_month l s
        \/ kept_by p.(keep_yearly) by_year l s).
Proof.
  rewrite !Forall_cons in Hp. destruct Hp as (? & ? & ? & ? & ? & _).
  unfold select_keep. rewrite !fill_spec by done.
  assert (Hlast : forall m (k : gset str), i ∈ foldl (fun k s => {[id s]} ∪ k) k m <-> i ∈ k \/ exists s, s ∈ m /\ id s = i).
  { clear. induction m as [|s m IH]; intros k; cbn; [set_solver|]. rewrite IH. set_solver. }
  rewrite Hlast.
  assert (Htake : forall s, s ∈ take (Z.to_nat (keep_last p)) (newest_first l)
                            <-> s ∈ l /\ Z.of_nat (length (newer s l)) < keep_last p).
  { intros s. split.
    - intros Hs. apply list_elem_of_split in Hs as (pre & post & E).
      pose proof (take_drop (Z.to_nat (keep_last p)) (newest_first l)) as Hd. rewrite E, <- app_assoc in Hd. cbn in Hd.
      rewrite <- (newest_first_split l pre s _ Hnd (eq_sym Hd)).
      split; [rewrite <- (newest_first_perm l), <- Hd; set_solver|].
      apply (f_equal length) in E. rewrite length_take, length_app in E. cbn in E. lia.
    - rewrite <- (newest_first_perm l) at 1. intros [(pre & post & E)%list_elem_of_split Hlt].
      rewrite <- (newest_first_split l pre s post Hnd E) in Hlt. rewrite E.
      apply list_elem_of_lookup. exists (length pre). rewrite lookup_take_lt by lia. by apply list_lookup_middle. }
  setoid_rewrite Htake. set_solver.
Qed.

Lemma fill_loop_size {K} `{Countable K} limit (key : Manifest -> K) l : forall seen dst,
  Z.of_nat (size (fill_loop limit key l seen dst))
  <= Z.of_nat (size dst) + Z.max 0 (limit - Z.of_nat (size seen)).
Proof.
  induction l as [|s l IH]; intros seen dst; cbn [fill_loop]; [lia|]. case_if; [lia|]. case_if; [apply IH|].
  etrans; [apply IH|]. rewrite (size_union {[key s]} seen), size_singleton by (by apply disjoint_singleton_l).
  pose proof (size_union_alt {[id s]} dst) as Hd. assert (size (dst ∖ {[id s]}) <= size dst)%nat by (apply subseteq_size; set_solver).
  rewrite Hd, size_singleton. lia.
Qed.

Lemma fill_size {K} `{Countable K} dst l limit (key : Manifest -> K) :
  0 <= limit -> Z.of_nat (size (fill dst l limit key)) <= Z.of_nat (size dst) + limit.
Proof. intros Hl. unfold fill. case_if; [lia|]. etrans; [apply fill_loop_size|]. rewrite size_empty. lia. Qed.

Lemma fill_newest {K} `{Countable K} dst s l limit (key : Manifest -> K) :
  0 <= limit -> s.(id) ∈ dst \/ 0 < limit -> s.(id) ∈ fill dst (s :: l) limit key.
Proof.
  intros Hl [Hd|Hpos]; unfold fill; case_if; try done; try lia; apply fill_loop_spec; [by left|].
  right. exists [], s, l. cbn. rewrite union_empty_r_L, size_empty. set_solver by lia.
Qed.

(** A policy keeps at most as many snapshots as its numbers add up to, and it never
    empties a repository unless they are all zero. *)
Theorem select_keep_bound p l
    (Hp : Forall (fun n => 0 <= n) [p.(keep_daily); p.(keep_weekly); p.(keep_monthly); p.(keep_yearly); p.(keep_last)]) :
  Z.of_nat (size (select_keep p l))
    <= p.(keep_last) + p.(keep_daily) + p.(keep_weekly) + p.(keep_monthly) + p.(keep_yearly)
  /\ (l <> [] -> 0 < p.(keep_last) + p.(keep_daily) + p.(keep_weekly) + p.(keep_monthly) + p.(keep_yearly) ->
      exists s, s ∈ l /\ (forall t, t ∈ l -> t.(created_at) <= s.(created_at)) /\ s.(id) ∈ select_keep p l).
Proof.
  rewrite !Forall_cons in Hp. destruct Hp as (? & ? & ? & ? & ? & _). unfold select_keep. split.
  - repeat (etrans; [apply fill_size; done|]; rewrite ?Z.add_assoc; apply Z.add_le_mono_r).
    assert (Hf : forall m (k : gset str), (size (foldl (fun k s => {[id s]} ∪ k) k m) <= size k + length m)%nat).
    { clear. induction m as [|s m IH]; intros k; cbn; [lia|]. etrans; [apply IH|].
      rewrite size_union_alt, size_singleton.
      assert (size (k ∖ {[id s]}) <= size k)%nat by (apply subseteq_size; set_solver). lia. }
    etrans; [apply Nat2Z.inj_le, Hf|]. rewrite size_empty, length_take. lia.
  - intros Hl Hpos. destruct (newest_first l) as [|s m] eqn:E.
    { pose proof (newest_first_perm l) as Hn. rewrite E in Hn. by apply Permutation_nil in Hn. }
    pose proof (newest_first_perm l) as Hperm. pose proof (newest_first_sorted l) as Hs. rewrite E in Hperm, Hs.
    exists s. split; [rewrite <- Hperm; set_solver|]. split.
    + intros t. rewrite <- Hperm, elem_of_cons. inversion Hs as [|? ? _ Hall]; subst. rewrite Forall_forall in Hall.
      intros [->|Ht]; [lia|by apply Hall].
    + assert (Hf : forall m (k : gset str), k ⊆ foldl (fun k s => {[id s]} ∪ k) k m).
      { clear. induction m as [|t m IH]; intros k; cbn; [done|]. etrans; [|apply IH]. set_solver. }
      apply fill_newest; [done|]. destruct (decide (0 < keep_yearly p)); [by right|left].
      apply fill_newest; [done|]. destruct (decide (0 < keep_monthly p)); [by right|left].
      apply fill_newest; [done|]. destruct (decide (0 < keep_weekly p)); [by right|left].
      apply fill_newest; [done|]. destruct (decide (0 < keep_daily p)); [by right|left].
      replace (Z.to_nat (keep_last p)) with (S (Z.to_nat (keep_last p - 1))) by lia.
      cbn [take foldl]. apply (elem_of_weaken _ ({[id s]} ∪ ∅)); [set_solver|apply Hf].
Qed.

End RetentionSpec.

(** ** A repository keeps what was backed up *)

Section RepoSpec.
Context `{Sha256} `{Datelike}.

(** No two of these chunks have the same SHA-256. *)
Definition told_apart (D : list (list byte)) : Prop := forall x y, x ∈ D -> y ∈ D -> content_hash x = content_hash y -> x = y.

Definition addressed (c : Chunk) : Prop := c.(c_id) = content_hash c.(c_data).

(** A run of a repository next to the map from snapshots to the data they stand for, and the
    chunks that were ever backed up. *)
Inductive repo_run : BackupRepo -> gmap str (list byte) -> list (list byte) -> Prop :=
  | run_new : repo_run new ∅ []
  | run_backup r m D i now host paths cs tags :
      repo_run r m D -> Forall addressed cs -> m !! i = None ->
      repo_run (create_snapshot i now host paths cs tags r).2 (<[i := concat (map c_data cs)]> m) (map c_data cs ++ D)
  | run_delete r m D i : repo_run r m D -> repo_run (delete_snapshot i r).2 (delete i m) D
  | run_gc r m D : repo_run r m D -> repo_run (gc r).2 m D
  | run_retention r m D p :
      repo_run r m D -> repo_run (apply_retention p r).2 (filter (fun kd => kd.1 ∈ select_keep p r.(snapshots)) m) D.

(** The chunks of a snapshot are stored, addressed by their content, and put together
    they are the data. *)
Definition holds (cs : gmap str (list byte)) (ids : list str) (data : list byte) : Prop :=
  exists ds, ids = map content_hash ds /\ data = concat ds /\ forall d, d ∈ ds -> cs !! content_hash d = Some d.

Record repo_inv (r : BackupRepo) (m : gmap str (list byte)) (D : list (list byte)) : Prop := {
  inv_addressed : forall i d, r.(chunks) !! i = Some d -> i = content_hash d /\ d ∈ D;
  inv_ids : NoDup (map id r.(snapshots));
  inv_dom : forall i, is_Some (m !! i) <-> i ∈ map id r.(snapshots);
  inv_data : forall s, s ∈ r.(snapshots) -> exists data, m !! s.(id) = Some data /\ holds r.(chunks) s.(chunk_ids) data
}.

Lemma holds_mono cs cs' ids data :
  (forall i, i ∈ ids -> cs' !! i = cs !! i) -> holds cs ids data -> holds cs' ids data.
Proof.
  intros Hcs (ds & -> & -> & Hd). exists ds. do 2 (split; [done|]). intros d Hin. rewrite Hcs; [by apply Hd|].
  apply list_elem_of_fmap. by exists d.
Qed.

(** Storing addressed chunks: the old ones stay, the new ones are there. *)
Lemma store_chunks D cs : told_apart D -> forall r, Forall addressed cs -> (forall c, c ∈ cs -> c.(c_data) ∈ D) ->
  (forall i d, r.(chunks) !! i = Some d -> i = content_hash d /\ d ∈ D) ->
  let r' := foldl (fun r c => (store_chunk c r).2) r cs in
  r'.(snapshots) = r.(snapshots) /\ r.(chunks) ⊆ r'.(chunks)
  /\ (forall i d, r'.(chunks) !! i = Some d -> i = content_hash d /\ d ∈ D)
  /\ forall c, c ∈ cs -> r'.(chunks) !! content_hash c.(c_data) = Some c.(c_data).
Proof.
  intros Hdist. induction cs as [|c cs IH]; intros r Hcs HD Hr.
  { split; [done|]. split; [done|]. split; [done|]. intros c Hc. by apply not_elem_of_nil in Hc. }
  apply Forall_cons in Hcs as [Hc Hcs]. unfold addressed in Hc. cbn [foldl]. pose proof (HD c ltac:(set_solver)) as HcD.
  assert (H1 : (store_chunk c r).2.(snapshots) = r.(snapshots) /\ r.(chunks) ⊆ (store_chunk c r).2.(chunks)
     /\ (forall i d, (store_chunk c r).2.(chunks) !! i = Some d -> i = content_hash d /\ d ∈ D)
     /\ (store_chunk c r).2.(chunks) !! content_hash c.(c_data) = Some c.(c_data)).
  { unfold store_chunk. case_bool_decide as Hs; cbn.
    - split; [done|]. split; [done|]. split; [done|]. destruct Hs as [d Hd]. rewrite <- Hc.
      destruct (Hr _ _ Hd) as [Ed HdD]. by rewrite (Hdist c.(c_data) d HcD HdD) by congruence.
    - apply eq_None_not_Some in Hs. split; [done|]. split; [by apply insert_subseteq|]. split.
      + intros i d [[<- <-]|[_ Hd]]%lookup_insert_Some; [done|by apply Hr].
      + rewrite <- Hc. apply lookup_insert_eq. }
  destruct H1 as (Hsn & Hsub & Hadr & Hin). destruct (IH _ Hcs ltac:(set_solver) Hadr) as (Hsn' & Hsub' & Hadr' & Hin').
  split; [congruence|]. split; [by etrans|]. split; [done|].
  intros c' [->|Hc']%elem_of_cons; [|by apply Hin']. by eapply lookup_weaken.
Qed.

(** Dropping snapshots and unreferenced chunks. *)
Lemma inv_filter (P : Manifest -> Prop) `{!forall s, Decision (P s)} r m m' D cs' :
  repo_inv r m D ->
  (forall s, s ∈ r.(snapshots) -> m' !! s.(id) = if decide (P s) then m !! s.(id) else None) ->
  (forall i, is_Some (m' !! i) -> is_Some (m !! i)) ->
  cs' ⊆ r.(chunks) ->
  (forall s i, s ∈ r.(snapshots) -> P s -> i ∈ s.(chunk_ids) -> cs' !! i = r.(chunks) !! i) ->
  repo_inv {| snapshots := filter P r.(snapshots); chunks := cs' |} m' D.
Proof.
  intros [Ha Hi Hd Hs] Hm Hdom Hsub Hcs. split; cbn [snapshots chunks].
  - intros i d Hid. apply Ha. by eapply lookup_weaken.
  - eapply sublist_NoDup; [exact Hi|]. apply (fmap_sublist id), sublist_filter.
  - intros i. rewrite list_elem_of_fmap. split.
    + intros Hsome. pose proof (proj1 (Hd i) (Hdom i Hsome)) as (s & -> & Hin)%list_elem_of_fmap. exists s. split; [done|].
      apply list_elem_of_filter. split; [|done]. rewrite Hm in Hsome by done. case_decide; [done|]. by destruct Hsome.
    + intros (s & -> & [HP Hin]%list_elem_of_filter). rewrite Hm by done. rewrite decide_True by done.
      apply Hd, list_elem_of_fmap. by exists s.
  - intros s [HP Hin]%list_elem_of_filter. destruct (Hs s Hin) as (data & Hdata & Hh). exists data. split.
    + by rewrite Hm, decide_True.
    + eapply holds_mono; [|exact Hh]. intros i Hi'. by eapply Hcs.
Qed.

Lemma gc_keeps r s i : s ∈ r.(snapshots) -> i ∈ s.(chunk_ids) -> (gc r).2.(chunks) !! i = r.(chunks) !! i.
Proof.
  intros Hs Hi. cbn. apply option_eq. intros d. rewrite map_lookup_filter_Some. cbn. split; [tauto|]. intros Hd. split; [done|].
  apply elem_of_list_to_set, list_elem_of_In, in_concat. exists s.(chunk_ids). split; apply list_elem_of_In; [|done].
  apply list_elem_of_fmap. by exists s.
Qed.

Lemma not_in_delete p l s : s ∈ l -> s.(id) ∉ select_delete p l <-> s.(id) ∈ select_keep p l.
Proof.
  intros Hs. unfold select_delete. rewrite list_elem_of_fmap. split.
  - intros Hn. destruct (decide (s.(id) ∈ select_keep p l)) as [|Hni]; [done|]. destruct Hn. exists s. split; [done|].
    by apply list_elem_of_filter.
  - intros Hk (t & E & [Ht _]%list_elem_of_filter). by rewrite <- E in Ht.
Qed.

Lemma run_inv r m D : repo_run r m D -> told_apart D -> repo_inv r m D.
Proof.
  induction 1 as [|r m D i now host paths cs tags Hrun IH Hcs Hfresh|r m D i Hrun IH|r m D Hrun IH|r m D p Hrun IH]; intros Hdist.
  - split; cbn.
    + intros i d Hd. by rewrite lookup_empty in Hd.
    + constructor.
    + intros i. rewrite lookup_empty. split; [by intros []|by intros ?%not_elem_of_nil].
    + by intros s ?%not_elem_of_nil.
  - destruct IH as [Ha Hi Hd Hs]; [intros x y Hx Hy; apply Hdist; set_solver|].
    assert (Ha0 : forall i d, r.(chunks) !! i = Some d -> i = content_hash d /\ d ∈ map c_data cs ++ D) by (intros j d Ej; destruct (Ha j d Ej); set_solver).
    destruct (store_chunks _ cs Hdist r Hcs) as (Hsn & Hsub & Ha' & Hst); [intros c Hc; apply elem_of_app; left; apply list_elem_of_fmap; by exists c|done|].
    unfold create_snapshot. split; cbn [snd snapshots chunks]; [done| | |].
    + rewrite Hsn, map_app. apply NoDup_app. split; [done|]. split; [|by apply NoDup_singleton].
      cbn [map id]. intros j Hj Hji%list_elem_of_singleton. subst j. apply Hd in Hj. rewrite Hfresh in Hj. by destruct Hj.
    + intros j. rewrite Hsn, map_app, elem_of_app, <- Hd. cbn. rewrite list_elem_of_singleton.
      destruct (decide (i = j)) as [->|Hne]; [rewrite lookup_insert_eq; naive_solver|].
      rewrite lookup_insert_ne by done. naive_solver.
    + intros s. rewrite Hsn. intros [Hin|Hin]%elem_of_app; [|apply list_elem_of_singleton in Hin; subst s].
      * destruct (Hs s Hin) as (data & Hdata & ds & E & -> & Hds). exists (concat ds). split.
        { rewrite lookup_insert_ne; [done|]. congruence. }
        exists ds. do 2 (split; [done|]). intros d Hd'. by eapply lookup_weaken, Hsub; apply Hds.
      * cbn. exists (concat (map c_data cs)). rewrite lookup_insert_eq. split; [done|]. exists (map c_data cs). split.
        { rewrite map_map. clear -Hcs. induction Hcs as [|c cs Hc _ IH]; cbn; [done|]. by rewrite Hc, IH. }
        split; [done|]. intros d (c & -> & Hc)%list_elem_of_fmap. by apply Hst.
  - specialize (IH Hdist). cbn. apply (inv_filter _ _ _ _ _ _ IH); try done.
    + intros s _. case_decide as E; [by rewrite lookup_delete_ne|]. rewrite E. apply lookup_delete_eq.
    + intros j [d [_ Hd]%lookup_delete_Some]. by exists d.
  - pose proof (inv_filter (fun _ => True) r m m D (gc r).2.(chunks) (IH Hdist)) as Hf.
    assert (Hall : filter (fun _ : Manifest => True) r.(snapshots) = r.(snapshots)).
    { clear. induction r.(snapshots) as [|s l IH]; [done|]. by rewrite filter_cons_True, IH. }
    rewrite Hall in Hf. apply Hf; try done; [apply map_filter_subseteq|]. intros s i Hs _ Hi. by eapply gc_keeps.
  - specialize (IH Hdist). unfold apply_retention.
    set (kept := filter _ r.(snapshots)). set (r1 := {| snapshots := kept; chunks := r.(chunks) |}).
    apply (inv_filter _ _ _ _ _ _ IH).
    + intros s Hs. case_decide as E.
      * apply not_in_delete in E; [|done]. apply option_eq. intros d. rewrite map_lookup_filter_Some. naive_solver.
      * apply map_lookup_filter_None. right. intros d _ Hk. by apply (not_in_delete p _ s Hs) in Hk.
    + intros i [d [Hd _]%map_lookup_filter_Some]. by exists d.
    + apply map_filter_subseteq.
    + intros s i Hs E Hi. apply (gc_keeps r1 s i); [|done]. by apply list_elem_of_filter.
Qed.

(** C11: A snapshot can be restored, and gives the data that was backed up, for as long as it is
    neither deleted nor expired by the retention policy, whatever was stored, collected or
    expired meanwhile; an unknown one is reported.  This is where no two different chunks of
    those ever backed up to the repository have the same SHA-256. *)
Theorem repo_refines r m D i (Hrun : repo_run r m D) (Hdist : told_apart D) :
  restore i r = ok_or (SnapshotNotFound i) (m !! i).
Proof.
  destruct (run_inv r m D Hrun Hdist) as [Ha Hids Hdom Hdata]. unfold restore, find_snapshot.
  destruct (list_find _ _) as [[k s]|] eqn:Hf.
  - apply list_find_Some in Hf as (Hk & Hs & _). cbn. apply list_elem_of_lookup_2 in Hk.
    destruct (Hdata s Hk) as (data & Hm & ds & Hc & -> & Hds). subst i. rewrite Hm, Hc. cbn.
    change (concat ds) with ([] ++ concat ds). generalize (@nil byte) as acc. clear -Hds.
    induction ds as [|d ds IH]; intros acc; cbn; [by rewrite app_nil_r|].
    unfold fetch at 1. rewrite Hds by set_solver. cbn. rewrite bool_decide_eq_true_2 by done. cbn.
    rewrite app_assoc. apply IH. intros d' Hd'. apply Hds. set_solver.
  - cbn. destruct (m !! i) as [d|] eqn:Hm; [|done].
    assert (Hi : i ∈ map id r.(snapshots)) by (apply Hdom; by exists d).
    apply list_elem_of_fmap in Hi as (s & Hs & Hin). apply list_find_None in Hf. rewrite Forall_forall in Hf.
    by destruct (Hf s Hin).
Qed.

End RepoSpec.

(** ** Chunking *)

Section ChunkSpec.
Context `{Sha256}.

Lemma chunks_of_spec n : (0 < n)%nat -> forall fuel data, (length data <= fuel)%nat ->
  concat (chunks_of fuel n data) = data
  /\ Forall (fun c => 0 < length c <= n)%nat (chunks_of fuel n data)
  /\ forall k, (S k < length (chunks_of fuel n data))%nat -> length <$> chunks_of fuel n data !! k = Some n.
Proof.
  intros Hn. induction fuel as [|fuel IH]; intros data Hlen; destruct data as [|b data]; cbn [length] in Hlen;
    try (split; [done|]; split; [constructor|cbn; lia]); try lia.
  cbn [chunks_of]. destruct (IH (drop n (b :: data))) as (Hc & Hs & Hk); [rewrite length_drop; cbn [length]; lia|].
  split; [cbn [concat]; rewrite Hc; apply take_drop|]. split.
  - constructor; [|done]. rewrite length_take. cbn [length]. lia.
  - intros [|k] Hk'; cbn [length] in Hk'; [|apply Hk; lia]. cbn [lookup list_lookup fmap option_fmap option_map].
    f_equal. rewrite length_take. destruct (chunks_of fuel n (drop n (b :: data))) as [|c cs] eqn:E; [cbn in Hk'; lia|].
    assert (Hd : drop n (b :: data) <> []) by (intros Hd; rewrite Hd in E; by destruct fuel).
    apply (f_equal length) in Hc. rewrite length_drop in Hc. destruct (drop n (b :: data)) eqn:Ed; [done|].
    apply (f_equal length) in Ed. rewrite length_drop in Ed. cbn [length] in *. lia.
Qed.

(** Chunking is total for a positive size; the chunks put together are the data, each
    is addressed by its content and, but for the last, of the size asked for; the total size
    recorded in a snapshot of them is the number of bytes. *)
Theorem chunk_data_spec data n (Hn : (0 < n)%nat) (Hlen : Z.of_nat (length data) < 2 ^ 64) :
  exists cs, chunk_data data n = Some cs
  /\ Forall addressed cs /\ concat (map c_data cs) = data
  /\ (forall c, c ∈ cs -> (0 < length c.(c_data) <= n)%nat /\ c.(original_size) = Z.of_nat (length c.(c_data)))
  /\ (forall k c, (S k < length cs)%nat -> cs !! k = Some c -> length c.(c_data) = n)
  /\ foldl (fun s c => wadd 64 s c.(original_size)) 0 cs = Z.of_nat (length data).
Proof.
  unfold chunk_data. destruct (n =? 0)%nat eqn:En; [apply Nat.eqb_eq in En; lia|].
  destruct (chunks_of_spec n Hn (length data) data ltac:(lia)) as (Hc & Hs & Hk).
  set (l := chunks_of _ _ _) in *. clearbody l. eexists. split; [done|]. split; [|split; [|split; [|split]]].
  - apply Forall_map, Forall_true. done.
  - rewrite map_map. cbn. rewrite map_id. done.
  - intros c (d & -> & Hd)%list_elem_of_fmap. cbn. rewrite Forall_forall in Hs. split; [by apply Hs|done].
  - intros k c Hlt. rewrite length_map in Hlt. specialize (Hk k Hlt).
    rewrite list_lookup_fmap. destruct (l !! k); [|done]. intros [= <-]. cbn. by injection Hk.
  - subst data. clear -Hlen. assert (Hgen : forall l s, 0 <= s -> s + Z.of_nat (length (concat l)) < 2 ^ 64 ->
      foldl (fun s c => wadd 64 s c.(original_size)) s
        (map (fun slice => {| c_id := content_hash slice; c_data := slice; original_size := Z.of_nat (length slice) |}) l)
      = s + Z.of_nat (length (concat l))).
    { clear. induction l as [|d l IH]; intros s Hs Hb; cbn [map foldl concat] in *; [cbn [length]; lia|].
      rewrite length_app in *. cbn [original_size]. rewrite wadd_small by lia. rewrite IH by lia. lia. }
    by rewrite Hgen.
Qed.

End ChunkSpec.

(** ** Concrete runs *)
Module BackupExamples.

(** The proleptic Gregorian calendar on seconds since the epoch. *)
Definition civil (t : Z) : Z * Z :=
  let z := t / 86400 + 719468 in
  let era := z / 146097 in
  let doe := z - era * 146097 in
  let yoe := (doe - doe / 1460 + doe / 36524 - doe / 146096) / 365 in
  let doy := doe - (365 * yoe + yoe / 4 - yoe / 100) in
  let mp := (5 * doy + 2) / 153 in
  let m := if mp <? 10 then mp + 3 else mp - 9 in
  (yoe + era * 400 + (if m <=? 2 then 1 else 0), m).

Definition thursday (t : Z) : Z := let d := t / 86400 in 86400 * (d - (d + 3) mod 7 + 3).

#[local] Instance gregorian : Datelike := {
  date t := t / 86400;
  month t := (civil t).2;
  year t := (civil t).1;
  iso_year t := (civil (thursday t)).1;
  iso_week t := thursday t / 604800
}.

#[local] Instance toy_sha : Sha256 := {
  sha256 d := [z2b (Z.of_nat (length d)); default x00 (head d); default x00 (last d)] ++ repeat x00 29
}.

Definition at_ (i : string) (t : Z) : Manifest :=
  {| id := lit i; hostname := lit "h"; paths := []; created_at := t; total_size := 0; chunk_ids := []; tags := [] |}.

(** The snapshots of the unit test [retention_gfs_buckets_are_independent]. *)
Definition history : list Manifest :=
  [at_ "d1_new" 1767182400; at_ "d1_old" 1767150000; at_ "d2" 1767063600; at_ "w_old" 1765681200; at_ "m_old" 1759287600;
   at_ "y_old" 1705287600].
Definition two_each : RetentionPolicy := {| keep_daily := 2; keep_weekly := 2; keep_monthly := 2; keep_yearly := 2; keep_last := 1 |}.

Lemma two_each_u32 :
  Forall (fun n => 0 <= n)
    [two_each.(keep_daily); two_each.(keep_weekly); two_each.(keep_monthly); two_each.(keep_yearly); two_each.(keep_last)].
Proof. repeat constructor; vm_compute; discriminate. Qed.

Lemma select_keep_spec_witness :
  select_keep two_each history = {[lit "d1_new"; lit "d2"; lit "w_old"; lit "m_old"; lit "y_old"]}
  /\ forall s, s ∈ history -> s.(id) = lit "d1_old" -> ~ kept_by 2 by_day history s.
Proof.
  split; [vm_compute; reflexivity|]. intros s Hs Hid Hk.
  assert (Hin : lit "d1_old" ∈ select_keep two_each history).
  { apply (select_keep_spec two_each history (lit "d1_old") two_each_u32).
    - apply (bool_decide_unpack _). vm_compute. exact I.
    - exists s. split; [exact Hs|]. split; [exact Hid|]. right. left. exact Hk. }
  revert Hin. apply (bool_decide_unpack (_ ∉ _)). vm_compute. exact I.
Defined.

Lemma select_keep_bound_witness : Z.of_nat (size (select_keep two_each history)) <= 9.
Proof. apply (proj1 (select_keep_bound two_each history two_each_u32)). Defined.

Definition text : list byte := map z2b [1; 2; 3; 1; 2; 3; 7].
Definition cs0 : list Chunk := default [] (chunk_data text 3).
Definition repo0 : BackupRepo := (create_snapshot (lit "s1") 5 (lit "h") [] cs0 [] new).2.

Lemma chunk_data_spec_witness :
  chunk_data text 3 = Some cs0 /\ concat (map c_data cs0) = text /\ length cs0 = 3%nat.
Proof.
  destruct (chunk_data_spec text 3 ltac:(lia) ltac:(vm_compute; reflexivity)) as (cs & E & _ & Hc & _).
  unfold cs0. rewrite E. split; [reflexivity|]. split; [exact Hc|]. vm_compute in E. injection E as <-. reflexivity.
Defined.

Lemma repo_refines_witness :
  chunk_count repo0 = 2%nat /\ restore (lit "s1") (apply_retention default_policy (gc repo0).2).2 = Ok text.
Proof.
  split; [vm_compute; reflexivity|].
  assert (Hr : repo_run repo0 (<[lit "s1" := concat (map c_data cs0)]> ∅) (map c_data cs0 ++ [])).
  { apply run_backup; [apply run_new| |apply lookup_empty]. repeat constructor. }
  rewrite (repo_refines _ _ _ (lit "s1") (run_retention _ _ _ default_policy (run_gc _ _ _ Hr))); [vm_compute; reflexivity|].
  assert (Hall : forallb (fun x => forallb (fun y => implb (bool_decide (content_hash x = content_hash y)) (bool_decide (x = y))) (map c_data cs0 ++ [])) (map c_data cs0 ++ []) = true)
    by (vm_compute; reflexivity).
  intros x y Hx Hy E. rewrite forallb_forall in Hall. pose proof (Hall x (proj1 (list_elem_of_In _ _) Hx)) as Hx'. rewrite forallb_forall in Hx'.
  pose proof (Hx' y (proj1 (list_elem_of_In _ _) Hy)) as Hy'. rewrite (bool_decide_eq_true_2 _ E) in Hy'. exact (proj1 (bool_decide_eq_true _) Hy').
Defined.

End BackupExamples.
