(* ===== verification/BackupStore.v ===== *)
(** * Backup storage ([runesh-backup/src/store.rs])

    The trait [BackupStore] as an interface over a state, the collector and the retention
    written against it, and its two implementations. [StoreLaws] is what the trait promises;
    the clients are proved against it. The disk of [FileBackupStore] is a map from paths to
    contents with a list of failures of the calls to come; zstd and serde are the interface
    [StoreCodec]. Tasks of [spawn_blocking] are their bodies. *)
From S2P Require Import Prelude Str Backup.

#[local] Open Scope Z_scope.

(** ** Operations on a store *)

(** An operation gives a result and the new state of the store. *)
Definition St (T A : Type) : Type := T -> result BackupError A * T.

#[global] Instance st_ret {T} : MRet (St T) := fun A a t => (Ok a, t).
#[global] Instance st_bind {T} : MBind (St T) := fun A B f m t =>
  match m t with (Ok a, t') => f a t' | (Err e, t') => (Err e, t') end.

Definition lift {T A} (r : result BackupError A) : St T A := fun t => (r, t).

(** A [for] loop whose body may return early with an error. *)
Fixpoint for_each {T A B} (f : A -> B -> St T B) (l : list A) (b : B) : St T B :=
  match l with
  | [] => mret b
  | x :: l => b' ← f x b; for_each f l b'
  end.

Class BackupStore (T : Type) := {
  put_chunk : str -> list byte -> St T unit;
  get_chunk : str -> St T (list byte);
  has_chunk : str -> St T bool;
  write_manifest : str -> Manifest -> St T unit;
  read_manifest : str -> St T Manifest;
  list_manifests : St T (list str);
  delete_manifest : str -> St T unit;
  delete_chunk : str -> St T unit;
  list_chunks : St T (list str)
}.

Section Clients.
Context {T : Type} `{BackupStore T} `{Sha256} `{Datelike}.

Definition gc_offline : St T nat :=
  names ← list_manifests;
  referenced ← for_each (fun name (referenced : gset str) =>
                 manifest ← read_manifest name;
                 mret (foldl (fun r h => {[h]} ∪ r) referenced manifest.(chunk_ids))) names ∅;
  found ← list_chunks;
  for_each (fun chunk removed =>
    if bool_decide (chunk ∈ referenced) then mret removed
    else _ ← delete_chunk chunk; mret (S removed)) found 0%nat.

Definition apply_retention_offline (policy : RetentionPolicy) : St T (nat * nat) :=
  names ← list_manifests;
  read ← for_each (fun name '(manifests, id_to_name) =>
           m ← read_manifest name;
           mret (manifests ++ [m], <[m.(id) := name]> id_to_name)) names ([], ∅ : gmap str str);
  let '(manifests, id_to_name) := read in
  let to_delete_ids := select_delete policy manifests in
  manifests_removed ← for_each (fun i removed =>
    match id_to_name !! i with
    | Some name => _ ← delete_manifest name; mret (S removed)
    | None => mret removed
    end) to_delete_ids 0%nat;
  chunks_removed ← gc_offline;
  mret (manifests_removed, chunks_removed).

(** Writing to a stream: [write_all] and [flush] give its new state, [None] on an error, after
    which the stream is not used. *)
Definition restore_manifest_to {W} (write_all : list byte -> W -> option W) (flush : W -> option W)
    (manifest : Manifest) (w : W) : St T W :=
  w ← for_each (fun hash w =>
        data ← get_chunk hash;
        let actual := content_hash data in
        if negb (bool_decide (actual = hash)) then lift (Err (HashMismatch hash actual))
        else lift (ok_or Storage (write_all data w))) manifest.(chunk_ids) w;
  lift (ok_or Storage (flush w)).

End Clients.

(** ** The store in memory *)

Section InMemory.
Context `{Sha256}.

Record InMemoryInner := { chunks : gmap str (list byte); manifests : gmap str Manifest }.

(** [keys] is the order in which the keys of a map are iterated. *)
Context (keys : list str -> list str).

#[local] Instance InMemoryBackupStore : BackupStore InMemoryInner := {
  put_chunk hash data := fun g => (Ok tt, {| chunks := <[hash := data]> g.(chunks); manifests := g.(manifests) |});
  get_chunk hash := fun g =>
    (data ← ok_or (ChunkMissing hash) (g.(chunks) !! hash);
     let actual := content_hash data in
     if bool_decide (actual = hash) then Ok data else Err (HashMismatch hash actual), g);
  has_chunk hash := fun g => (Ok (bool_decide (is_Some (g.(chunks) !! hash))), g);
  write_manifest name manifest := fun g =>
    (Ok tt, {| chunks := g.(chunks); manifests := <[name := manifest]> g.(manifests) |});
  read_manifest name := fun g => (ok_or (SnapshotNotFound name) (g.(manifests) !! name), g);
  list_manifests := fun g => (Ok (keys (map_to_list g.(manifests)).*1), g);
  delete_manifest name := fun g => (Ok tt, {| chunks := g.(chunks); manifests := delete name g.(manifests) |});
  delete_chunk hash := fun g => (Ok tt, {| chunks := delete hash g.(chunks); manifests := g.(manifests) |});
  list_chunks := fun g => (Ok (keys (map_to_list g.(chunks)).*1), g)
}.

End InMemory.

(** ** The store on disk *)

(** The crates: zstd, and the JSON of a manifest. *)
Class StoreCodec := {
  encode_all : list byte -> option (list byte);
  decode_all : list byte -> option (list byte);
  to_vec_pretty : Manifest -> option (list byte);
  from_slice : list byte -> option Manifest
}.

Class StoreCodecLaws `{StoreCodec} : Prop := {
  encode_total : forall d, exists b, encode_all d = Some b;
  decode_encode_all : forall d b, encode_all d = Some b -> decode_all b = Some d;
  to_vec_total : forall m, exists b, to_vec_pretty m = Some b;
  from_slice_to_vec : forall m b, to_vec_pretty m = Some b -> from_slice b = Some m
}.

Inductive IoError : Type := NotFound | Other.

(** Paths are relative to the root, as lists of components; [faults] tells which of the
    next calls fail. *)
Record Disk := { files : gmap (list str) (list byte); faults : list bool }.

Section File.
Context `{Sha256} `{StoreCodec}.
(** The order in which a directory is read. *)
Context (dir_order : list str -> list str).

Definition fs_call {A} (call : gmap (list str) (list byte) -> result IoError A * gmap (list str) (list byte)) (d : Disk)
    : result IoError A * Disk :=
  if default false (head d.(faults)) then (Err Other, {| files := d.(files); faults := tail d.(faults) |})
  else let '(r, f) := call d.(files) in (r, {| files := f; faults := tail d.(faults) |}).

Definition fs_exists (p : list str) (d : Disk) : result IoError bool * Disk :=
  match fs_call (fun f => (Ok (bool_decide (is_Some (f !! p))), f)) d with
  | (Err _, d') => (Ok false, d')
  | r => r
  end.
Definition fs_create_dir_all : Disk -> result IoError unit * Disk := fs_call (fun f => (Ok tt, f)).
Definition fs_write (p : list str) (b : list byte) : Disk -> result IoError unit * Disk := fs_call (fun f => (Ok tt, <[p := b]> f)).
Definition fs_read (p : list str) : Disk -> result IoError (list byte) * Disk := fs_call (fun f => (ok_or NotFound (f !! p), f)).
Definition fs_rename (p q : list str) : Disk -> result IoError unit * Disk :=
  fs_call (fun f => match f !! p with Some b => (Ok tt, <[q := b]> (delete p f)) | None => (Err NotFound, f) end).
Definition fs_remove_file (p : list str) : Disk -> result IoError unit * Disk :=
  fs_call (fun f => match f !! p with Some _ => (Ok tt, delete p f) | None => (Err NotFound, f) end).

(** The component of [q] after the directory [p]. *)
Fixpoint below (p q : list str) : option str :=
  match p, q with
  | [], c :: _ => Some c
  | x :: p, y :: q => if bool_decide (x = y) then below p q else None
  | _, _ => None
  end.
Definition entries (p : list str) (f : gmap (list str) (list byte)) : list str :=
  remove_dups (filter_map (below p) (map_to_list f).*1).
Definition fs_read_dir (p : list str) : Disk -> result IoError (list str) * Disk :=
  fs_call (fun f => (Ok (dir_order (entries p f)), f)).
Definition is_dir (p : list str) (d : Disk) : bool := negb (bool_decide (entries p d.(files) = [])).

(** [Path::file_stem] and [Path::with_extension] of a file name. *)
Definition file_stem (name : str) : str :=
  match rsplit_once 46 name with Some (before, _) => if bool_decide (before = []) then name else before | None => name end.
Definition with_extension (ext name : str) : str := file_stem name ++ lit "." ++ ext.

Definition map_err {A} (f : IoError -> BackupError) (m : Disk -> result IoError A * Disk) : St Disk A := fun d =>
  match m d with (Ok a, d') => (Ok a, d') | (Err e, d') => (Err (f e), d') end.

Definition storage {A} : (Disk -> result IoError A * Disk) -> St Disk A := map_err (fun _ => Storage).

Definition file_new : St Disk unit :=
  _ ← storage fs_create_dir_all;
  storage fs_create_dir_all.

(** Hashes are hexadecimal, so that their first two bytes are two characters; they and the
    names of manifests are single components of a path. *)
Definition chunk_file (name : str -> str) (hash : str) : list str :=
  let prefix := if 2 <=? byte_len hash then take 2 hash else lit "00" in
  [lit "chunks"; prefix; name (hash ++ lit ".zst")].
Definition chunk_path (hash : str) : list str := chunk_file (fun n => n) hash.

Definition manifest_file (name : str -> str) (n : str) : list str := [lit "manifests"; name (n ++ lit ".json")].
Definition manifest_path (name : str) : list str := manifest_file (fun n => n) name.

Definition file_put_chunk (hash : str) (data : list byte) : St Disk unit :=
  let path := chunk_path hash in
  let actual := content_hash data in
  if negb (bool_decide (actual = hash)) then lift (Err (HashMismatch hash actual))
  else
    present ← storage (fs_exists path);
    if (present : bool) then mret tt
    else
      _ ← storage fs_create_dir_all;
      compressed ← lift (ok_or Storage (encode_all data));
      let tmp := chunk_file (with_extension (lit "zst.tmp")) hash in
      _ ← storage (fs_write tmp compressed);
      storage (fs_rename tmp path).

Definition file_get_chunk (hash : str) : St Disk (list byte) :=
  compressed ← map_err (fun e => match e with NotFound => ChunkMissing hash | Other => Storage end) (fs_read (chunk_path hash));
  data ← lift (ok_or Storage (decode_all compressed));
  let actual := content_hash data in
  if negb (bool_decide (actual = hash)) then lift (Err (HashMismatch hash actual)) else mret data.

Definition file_has_chunk (hash : str) : St Disk bool := storage (fs_exists (chunk_path hash)).

Definition file_write_manifest (name : str) (manifest : Manifest) : St Disk unit :=
  bytes ← lift (ok_or Serde (to_vec_pretty manifest));
  _ ← storage fs_create_dir_all;
  let tmp := manifest_file (with_extension (lit "json.tmp")) name in
  _ ← storage (fs_write tmp bytes);
  storage (fs_rename tmp (manifest_path name)).

(** The message of an error of kind [NotFound] on Linux. *)
Definition not_found : str := lit "No such file or directory (os error 2)".

Definition file_read_manifest (name : str) : St Disk Manifest :=
  bytes ← map_err (fun e => match e with NotFound => SnapshotNotFound not_found | Other => Storage end)
                  (fs_read (manifest_path name));
  lift (ok_or Serde (from_slice bytes)).

Definition file_list_manifests : St Disk (list str) :=
  names ← storage (fs_read_dir [lit "manifests"]);
  mret (map file_stem names).

(** Removing a file that may be gone already. *)
Definition remove_quietly (p : list str) : St Disk unit := fun d =>
  match fs_remove_file p d with
  | (Ok _, d') => (Ok tt, d')
  | (Err NotFound, d') => (Ok tt, d')
  | (Err Other, d') => (Err Storage, d')
  end.

Definition file_delete_manifest (name : str) : St Disk unit := remove_quietly (manifest_path name).

Definition file_delete_chunk (hash : str) : St Disk unit := remove_quietly (chunk_path hash).

Definition file_list_chunks : St Disk (list str) :=
  shards ← storage (fs_read_dir [lit "chunks"]);
  for_each (fun shard out d =>
    let sp := [lit "chunks"; shard] in
    if negb (is_dir sp d) then (Ok out, d)
    else (names ← storage (fs_read_dir sp); mret (out ++ map file_stem names)) d) shards [].

#[local] Instance FileBackupStore : BackupStore Disk := {
  put_chunk := file_put_chunk;
  get_chunk := file_get_chunk;
  has_chunk := file_has_chunk;
  write_manifest := file_write_manifest;
  read_manifest := file_read_manifest;
  list_manifests := file_list_manifests;
  delete_manifest := file_delete_manifest;
  delete_chunk := file_delete_chunk;
  list_chunks := file_list_chunks
}.

End File.

(** ** What the trait promises *)

Record contents := { c_chunks : gmap str (list byte); c_manifests : gmap str Manifest }.

(** [repr t a]: the state [t] of the store holds the chunks and manifests of [a];
    [valid_name n]: a manifest can be stored under the name [n]. *)
Class StoreLaws (T : Type) `{BackupStore T} `{Sha256} := {
  repr : T -> contents -> Prop;
  valid_name : str -> Prop;
  put_chunk_ok t a h d :
    repr t a -> content_hash d = h -> (forall d', a.(c_chunks) !! h = Some d' -> d' = d) ->
    exists t', put_chunk h d t = (Ok tt, t')
      /\ repr t' {| c_chunks := <[h := d]> a.(c_chunks); c_manifests := a.(c_manifests) |};
  get_chunk_ok t a h : repr t a -> get_chunk h t = (fetch a.(c_chunks) h, t);
  has_chunk_ok t a h : repr t a -> has_chunk h t = (Ok (bool_decide (is_Some (a.(c_chunks) !! h))), t);
  write_manifest_ok t a n m :
    repr t a -> valid_name n -> exists t', write_manifest n m t = (Ok tt, t')
      /\ repr t' {| c_chunks := a.(c_chunks); c_manifests := <[n := m]> a.(c_manifests) |};
  read_manifest_ok t a n m : repr t a -> a.(c_manifests) !! n = Some m -> read_manifest n t = (Ok m, t);
  list_manifests_ok t a :
    repr t a -> exists l, list_manifests t = (Ok l, t) /\ l ≡ₚ (map_to_list a.(c_manifests)).*1;
  delete_manifest_ok t a n :
    repr t a -> exists t', delete_manifest n t = (Ok tt, t')
      /\ repr t' {| c_chunks := a.(c_chunks); c_manifests := delete n a.(c_manifests) |};
  delete_chunk_ok t a h :
    repr t a -> exists t', delete_chunk h t = (Ok tt, t')
      /\ repr t' {| c_chunks := delete h a.(c_chunks); c_manifests := a.(c_manifests) |};
  list_chunks_ok t a :
    repr t a -> exists l, list_chunks t = (Ok l, t) /\ l ≡ₚ (map_to_list a.(c_chunks)).*1
}.

Section ClientSpec.
Context {T : Type} `{HS : BackupStore T} `{HH : Sha256} `{HD : Datelike} `{HL : !StoreLaws T}.

Lemma st_bind_ok {A B} (m : St T A) (f : A -> St T B) t a t' : m t = (Ok a, t') -> (m ≫= f) t = f a t'.
Proof. intros E. unfold mbind, st_bind. by rewrite E. Qed.

Lemma fold_insert (l : list str) : forall r : gset str, foldl (fun r h => {[h]} ∪ r) r l = list_to_set l ∪ r.
Proof. induction l as [|h l IH]; intros r; cbn; [set_solver|]. rewrite IH. set_solver. Qed.

(** The chunks some manifest refers to. *)
Definition referenced (a : contents) : gset str := list_to_set (concat (map (fun nm => nm.2.(chunk_ids)) (map_to_list a.(c_manifests)))).

Lemma elem_of_referenced a h : h ∈ referenced a <-> exists n m, a.(c_manifests) !! n = Some m /\ h ∈ m.(chunk_ids).
Proof.
  unfold referenced. rewrite elem_of_list_to_set, list_elem_of_In, in_concat. split.
  - intros (l & ([n m] & <- & Hin)%in_map_iff & Hh). apply list_elem_of_In, elem_of_map_to_list in Hin.
    exists n, m. split; [done|by apply list_elem_of_In].
  - intros (n & m & Hn & Hh). exists m.(chunk_ids). split; [|by apply list_elem_of_In].
    apply in_map_iff. exists (n, m). split; [done|]. by apply list_elem_of_In, elem_of_map_to_list.
Qed.

Definition swept (a : contents) : contents :=
  {| c_chunks := filter (fun kd => kd.1 ∈ referenced a) a.(c_chunks); c_manifests := a.(c_manifests) |}.

(** The first loop of the collector. *)
Lemma mark_ok t a l : forall r : gset str, repr t a -> (forall n, n ∈ l -> is_Some (a.(c_manifests) !! n)) ->
  for_each (fun name r => manifest ← read_manifest name; mret (foldl (fun r h => {[h]} ∪ r) r manifest.(chunk_ids))) l r t
  = (Ok (r ∪ list_to_set (concat (map (fun n => default [] (chunk_ids <$> a.(c_manifests) !! n)) l))), t).
Proof.
  induction l as [|n l IH]; intros r Hr Hl; cbn [for_each map concat]; [cbn; by rewrite union_empty_r_L|].
  destruct (Hl n) as [m Hm]; [by left|]. erewrite st_bind_ok.
  2: { erewrite st_bind_ok by (by apply (read_manifest_ok t a n m)). reflexivity. }
  rewrite IH; [|done|intros; apply Hl; by right]. rewrite Hm. cbn. rewrite fold_insert, list_to_set_app_L.
  do 2 f_equal. set_solver.
Qed.

Lemma repr_chunks t cs cs' ms :
  repr t {| c_chunks := cs; c_manifests := ms |} -> cs' = cs -> repr t {| c_chunks := cs'; c_manifests := ms |}.
Proof. by intros Hr ->. Qed.

(** The second loop: every listed chunk that is not referenced goes. *)
Lemma sweep_ok (keep : gset str) l : forall n t a, repr t a -> NoDup l -> exists t',
  for_each (fun chunk removed => if bool_decide (chunk ∈ keep) then mret removed
                                 else _ ← delete_chunk chunk; mret (S removed)) l n t
  = (Ok (n + length (filter (fun h => h ∉ keep) l))%nat, t')
  /\ repr t' {| c_chunks := filter (fun kd => kd.1 ∈ keep \/ kd.1 ∉ l) a.(c_chunks); c_manifests := a.(c_manifests) |}.
Proof.
  induction l as [|h l IH]; intros n t a Hr Hnd.
  { exists t. split; [cbn; by rewrite Nat.add_0_r|]. rewrite map_filter_id; [by destruct a|]. intros i d _. right. apply not_elem_of_nil. }
  apply NoDup_cons in Hnd as [Hni Hnd]. cbn [for_each]. case_bool_decide as Hk.
  - destruct (IH n t a Hr Hnd) as (t' & E & Hr'). exists t'. erewrite st_bind_ok by reflexivity.
    rewrite E, filter_cons_False by (intros Hn; by apply Hn). split; [done|].
    eapply repr_chunks; [exact Hr'|]. apply map_filter_ext. intros i d _. cbn. rewrite elem_of_cons. split; [intros [?|?]; [by left|right; tauto]|].
    intros [?|Hi]; [by left|]. destruct (decide (i = h)) as [->|]; [by left|right; naive_solver].
  - destruct (delete_chunk_ok t a h Hr) as (t1 & E1 & Hr1). destruct (IH (S n) t1 _ Hr1 Hnd) as (t' & E & Hr').
    exists t'. erewrite st_bind_ok by (erewrite st_bind_ok by exact E1; reflexivity).
    rewrite E, filter_cons_True by done. cbn [length]. split; [do 2 f_equal; lia|]. cbn in Hr'.
    eapply repr_chunks; [exact Hr'|]. apply map_eq. intros i. apply option_eq. intros d.
    rewrite !map_lookup_filter_Some, lookup_delete_Some. cbn. rewrite elem_of_cons.
    destruct (decide (h = i)) as [->|]; naive_solver.
Qed.

Lemma filter_count {V} (P : str * V -> Prop) `{!forall x, Decision (P x)} (m : gmap str V) l : l ≡ₚ map_to_list m ->
  length (filter (fun x => ~ P x) l) = (size m - size (filter P m))%nat.
Proof.
  intros Hl. enough (E : (length (filter (fun x => ~ P x) l) + size (filter P m) = size m)%nat) by lia.
  rewrite Hl. clear l Hl. induction m as [|i x m Hi IH] using map_ind.
  { by rewrite map_to_list_empty, map_filter_empty. }
  rewrite map_to_list_insert, map_size_insert_None by done. destruct (decide (P (i, x))) as [HP|HP].
  - rewrite filter_cons_False, map_filter_insert_True, map_size_insert_None; [lia| |done|naive_solver].
    apply map_lookup_filter_None. by left.
  - rewrite filter_cons_True, map_filter_insert_False, delete_id by done. cbn [length]. lia.
Qed.

Lemma sweep_count (keep : gset str) (m : gmap str (list byte)) l : l ≡ₚ (map_to_list m).*1 ->
  length (filter (fun h => h ∉ keep) l) = (size m - size (filter (fun kd => kd.1 ∈ keep) m))%nat.
Proof.
  intros (l' & -> & Hl)%Permutation_map_inv. rewrite list_filter_map, length_map.
  by rewrite <- (filter_count _ m l').
Qed.

Lemma gc_offline_ok t a : repr t a -> exists t',
  gc_offline t = (Ok (size a.(c_chunks) - size (swept a).(c_chunks))%nat, t') /\ repr t' (swept a).
Proof.
  intros Hr. destruct (list_manifests_ok t a Hr) as (names & En & Hn). destruct (list_chunks_ok t a Hr) as (found & Ef & Hf).
  assert (Hrefs : ∅ ∪ list_to_set (concat (map (fun n => default [] (chunk_ids <$> a.(c_manifests) !! n)) names)) = referenced a).
  { apply set_eq. intros h. rewrite elem_of_referenced, union_empty_l_L, elem_of_list_to_set, list_elem_of_In, in_concat. split.
    - intros (l & (n & <- & Hin)%in_map_iff & Hh). destruct (c_manifests a !! n) as [m|] eqn:Em; [|done].
      exists n, m. split; [done|]. by apply list_elem_of_In.
    - intros (n & m & Em & Hh). eexists. split; [|by apply list_elem_of_In].
      apply in_map_iff. exists n. rewrite Em. split; [done|]. apply list_elem_of_In. rewrite Hn.
      apply list_elem_of_fmap. exists (n, m). split; [done|]. by apply elem_of_map_to_list. }
  destruct (sweep_ok (referenced a) found 0 t a Hr) as (t' & Es & Hr').
  { rewrite Hf. apply NoDup_fst_map_to_list. }
  exists t'. unfold gc_offline. erewrite st_bind_ok by exact En. erewrite st_bind_ok.
  2: { apply mark_ok; [exact Hr|]. intros n Hin. rewrite Hn in Hin. apply list_elem_of_fmap in Hin as ([? m] & -> & Hin).
       exists m. by apply elem_of_map_to_list. }
  rewrite Hrefs. erewrite st_bind_ok by exact Ef. rewrite Es. cbn [Nat.add].
  assert (Hsame : filter (fun kd : str * list byte => kd.1 ∈ referenced a \/ kd.1 ∉ found) a.(c_chunks) = (swept a).(c_chunks)).
  { apply map_filter_ext. intros i d Hi. cbn. split; [|by left]. intros [?|Hno]; [done|]. destruct Hno. rewrite Hf.
    apply list_elem_of_fmap. exists (i, d). split; [done|]. by apply elem_of_map_to_list. }
  rewrite Hsame in Hr'. split; [|exact Hr']. do 2 f_equal. by apply sweep_count.
Qed.

(** What restoring a manifest from given chunks gives. *)
Definition restored {W} (wr : list byte -> W -> option W) (fl : W -> option W) (cs : gmap str (list byte)) (m : Manifest) (w : W)
    : result BackupError W :=
  w ← try_for (fun c w => chunk ← fetch cs c; ok_or Storage (wr chunk w)) m.(chunk_ids) w;
  ok_or Storage (fl w).

Lemma restore_ok {W} (wr : list byte -> W -> option W) fl m w t a :
  repr t a -> restore_manifest_to wr fl m w t = (restored wr fl a.(c_chunks) m w, t).
Proof.
  intros Hr. unfold restore_manifest_to, restored.
  assert (Hloop : forall l w, for_each (fun hash w => data ← get_chunk hash;
        let actual := content_hash data in
        if negb (bool_decide (actual = hash)) then lift (Err (HashMismatch hash actual))
        else lift (ok_or Storage (wr data w))) l w t
     = (try_for (fun c w => chunk ← fetch a.(c_chunks) c; ok_or Storage (wr chunk w)) l w, t)).
  { induction l as [|h l IH]; intros w'; [done|]. cbn [for_each try_for]. unfold mbind at 1, st_bind at 1. unfold mbind at 1, st_bind at 1. rewrite (get_chunk_ok t a h Hr).
    destruct (fetch (c_chunks a) h) as [d|e] eqn:Ef; [|done]. cbn [mbind result_bind].
    assert (Hh : content_hash d = h).
    { unfold fetch in Ef. apply bind_ok_inv in Ef as (d' & _ & Ed). case_bool_decide; [|done]. by injection Ed as <-. }
    rewrite bool_decide_eq_true_2 by done. cbn. unfold lift. destruct (wr d w') as [w1|]; [apply IH|done]. }
  unfold mbind at 1, st_bind. rewrite Hloop. by destruct (try_for _ _ _).
Qed.

(** C24: The offline collector, over any store: it removes exactly the chunks no manifest
    refers to and counts them, and every manifest is restored after it as before. *)
Theorem gc_offline_safe t a (Hr : repr t a) : exists t',
  gc_offline t = (Ok (size a.(c_chunks) - size (swept a).(c_chunks))%nat, t')
  /\ repr t' (swept a)
  /\ forall W (wr : list byte -> W -> option W) fl n m w, a.(c_manifests) !! n = Some m ->
       (restore_manifest_to wr fl m w t').1 = (restore_manifest_to wr fl m w t).1.
Proof.
  destruct (gc_offline_ok t a Hr) as (t' & E & Hr'). exists t'. do 2 (split; [done|]). intros W wr fl n m w Hm.
  rewrite (restore_ok _ _ _ _ _ _ Hr'), (restore_ok _ _ _ _ _ _ Hr). cbn [fst]. unfold restored. f_equal.
  apply try_for_ext. intros h w' Hh. f_equal. unfold fetch. f_equal. f_equal. cbn. apply option_eq. intros d.
  rewrite map_lookup_filter_Some. cbn. split; [tauto|]. intros Hd. split; [done|]. apply elem_of_referenced. by exists n, m.
Qed.

(** *** Retention *)

Lemma read_all_ok t a l : forall acc (mp : gmap str str), repr t a -> (forall nm, nm ∈ l -> a.(c_manifests) !! nm.1 = Some nm.2) ->
  for_each (fun name '(manifests, id_to_name) => m ← read_manifest name; mret (manifests ++ [m], <[m.(id) := name]> id_to_name))
    l.*1 (acc, mp) t
  = (Ok (acc ++ l.*2, foldl (fun mp nm => <[nm.2.(id) := nm.1]> mp) mp l), t).
Proof.
  induction l as [|[n m] l IH]; intros acc mp Hr Hl; [by rewrite app_nil_r|]. cbn [fmap list_fmap fst for_each].
  erewrite st_bind_ok by (erewrite st_bind_ok by (apply (read_manifest_ok t a n m Hr), (Hl (n, m)); by left); reflexivity).
  rewrite IH; [|done|intros; apply Hl; by right]. by rewrite <- app_assoc.
Qed.

Lemma delete_all_ok (idn : gmap str str) (dl : list (str * Manifest)) : forall n t a, repr t a ->
  (forall nm, nm ∈ dl -> idn !! nm.2.(id) = Some nm.1) -> exists t',
  for_each (fun i removed => match idn !! i with
                             | Some name => _ ← delete_manifest name; mret (S removed)
                             | None => mret removed
                             end) (map id dl.*2) n t
  = (Ok (n + length dl)%nat, t')
  /\ repr t' {| c_chunks := a.(c_chunks); c_manifests := filter (fun nm => nm.1 ∉ dl.*1) a.(c_manifests) |}.
Proof.
  induction dl as [|[k m] dl IH]; intros n t a Hr Hd.
  { exists t. split; [cbn; by rewrite Nat.add_0_r|]. rewrite map_filter_id; [by destruct a|]. intros i x _. apply not_elem_of_nil. }
  destruct (delete_manifest_ok t a k Hr) as (t1 & E1 & Hr1).
  destruct (IH (S n) t1 _ Hr1) as (t' & E & Hr'); [intros; apply Hd; by right|]. exists t'.
  pose proof (Hd (k, m) ltac:(by left)) as Hk. cbn [fst snd] in Hk. cbn [fmap list_fmap snd map for_each]. rewrite Hk.
  erewrite st_bind_ok by (erewrite st_bind_ok by exact E1; reflexivity). split; [rewrite E; cbn [length]; do 2 f_equal; lia|].
  cbn in Hr'. erewrite (map_eq (filter _ (c_manifests a))); [exact Hr'|]. intros i. apply option_eq. intros x.
  rewrite !map_lookup_filter_Some, lookup_delete_Some. cbn. rewrite elem_of_cons. naive_solver.
Qed.

(** The offline retention, over any store whose manifests have different identifiers:
    it removes exactly the manifests the policy does not keep, then the chunks they alone
    referred to, and counts both. *)
Theorem apply_retention_offline_spec p t a (Hr : repr t a)
    (Hids : forall n n' m m', a.(c_manifests) !! n = Some m -> a.(c_manifests) !! n' = Some m' -> m.(id) = m'.(id) -> n = n') :
  exists l t', l ≡ₚ map_to_list a.(c_manifests)
  /\ let b := {| c_chunks := a.(c_chunks);
                 c_manifests := filter (fun nm => nm.2.(id) ∈ select_keep p l.*2) a.(c_manifests) |} in
     apply_retention_offline p t
     = (Ok (size a.(c_manifests) - size b.(c_manifests), size b.(c_chunks) - size (swept b).(c_chunks))%nat, t')
     /\ repr t' (swept b).
Proof.
  destruct (list_manifests_ok t a Hr) as (names & En & (l & -> & Hl)%Permutation_map_inv). symmetry in Hl.
  assert (Hmem : forall nm, nm ∈ l <-> a.(c_manifests) !! nm.1 = Some nm.2).
  { intros [n m]. rewrite Hl. apply elem_of_map_to_list. }
  pose (idn := foldl (fun mp nm => <[nm.2.(id) := nm.1]> mp) (∅ : gmap str str) l).
  assert (Hidn : forall nm, nm ∈ l -> idn !! nm.2.(id) = Some nm.1).
  { apply (foldl_insert_lookup (fun nm => nm.2.(id)) fst). apply NoDup_fmap_2_strong; [|rewrite Hl; apply NoDup_map_to_list].
    intros [n m] [n' m'] Hx Hy E. apply Hmem in Hx, Hy. cbn in *. pose proof (Hids _ _ _ _ Hx Hy E). congruence. }
  pose (dl := filter (fun nm => ~ nm.2.(id) ∈ select_keep p l.*2) l).
  destruct (delete_all_ok idn dl 0 t a Hr) as (t1 & E1 & Hr1).
  { intros nm [_ Hin]%list_elem_of_filter. by apply Hidn. }
  assert (Hb : filter (fun nm => nm.1 ∉ dl.*1) a.(c_manifests)
               = filter (fun nm => nm.2.(id) ∈ select_keep p l.*2) a.(c_manifests)).
  { apply map_filter_ext. intros n m Hn. cbn. split.
    - intros Hni. apply dec_stable. intros Hk. apply Hni, list_elem_of_fmap. exists (n, m). split; [done|].
      apply list_elem_of_filter. split; [done|]. by apply Hmem.
    - intros Hk ([n' m'] & E & [Hk' Hin]%list_elem_of_filter)%list_elem_of_fmap. apply Hmem in Hin. cbn in *. subst n'. congruence. }
  rewrite Hb in Hr1. destruct (gc_offline_ok t1 _ Hr1) as (t' & Eg & Hr'). exists l, t'. split; [done|]. cbv zeta. split; [|exact Hr'].
  unfold apply_retention_offline. erewrite st_bind_ok by exact En.
  erewrite st_bind_ok by (apply (read_all_ok t a l [] ∅ Hr); intros nm; apply Hmem). cbn beta iota zeta. rewrite app_nil_l.
  assert (Hdl : select_delete p l.*2 = map id dl.*2).
  { unfold select_delete, dl. by rewrite list_filter_map. }
  rewrite Hdl. erewrite st_bind_ok by exact E1. erewrite st_bind_ok by exact Eg. cbn [mret st_ret].
  unfold mret, st_ret. do 3 f_equal. cbn [Nat.add]. unfold dl. by apply (filter_count (fun nm => nm.2.(id) ∈ select_keep p l.*2)).
Qed.

End ClientSpec.

(** ** The store in memory keeps the promise *)

Section InMemorySpec.
Context `{Sha256} (keys : list str -> list str) (Hkeys : forall l, keys l ≡ₚ l).

#[local] Existing Instance InMemoryBackupStore.

#[local] Program Instance InMemoryLaws : StoreLaws InMemoryInner (H := InMemoryBackupStore keys) := {
  repr g a := g = {| chunks := a.(c_chunks); manifests := a.(c_manifests) |};
  valid_name _ := True
}.
Solve All Obligations with (intros; cbn in *; subst; eauto).
Next Obligation. intros t a n m -> Hm. cbn. by rewrite Hm. Qed.

End InMemorySpec.

(** ** The store on disk keeps the promise, as long as no call fails *)

Section FileSpec.
Context `{Sha256Laws} `{StoreCodecLaws} (dir_order : list str -> list str) (Hdir : forall l, dir_order l ≡ₚ l).

#[local] Instance the_store : BackupStore Disk := FileBackupStore dir_order.

Record file_repr (d : Disk) (a : contents) : Prop := {
  fr_faults : d.(faults) = [];
  fr_files : forall p b, d.(files) !! p = Some b ->
    (exists h x, p = chunk_path h /\ a.(c_chunks) !! h = Some x /\ decode_all b = Some x)
    \/ (exists n m, p = manifest_path n /\ a.(c_manifests) !! n = Some m /\ from_slice b = Some m);
  fr_chunks : forall h x, a.(c_chunks) !! h = Some x -> is_Some (d.(files) !! chunk_path h) /\ content_hash x = h;
  fr_manifests : forall n m, a.(c_manifests) !! n = Some m -> is_Some (d.(files) !! manifest_path n) /\ n <> []
}.

Lemma content_hash_nonempty d : content_hash d <> [].
Proof.
  unfold content_hash. pose proof (sha256_length d) as Hl. by destruct (sha256 d).
Qed.

Lemma chunk_path_inj h h' : chunk_path h = chunk_path h' -> h = h'.
Proof. intros E. unfold chunk_path, chunk_file in E. injection E as _ E. by apply app_inv_tail in E. Qed.

Lemma manifest_path_inj n n' : manifest_path n = manifest_path n' -> n = n'.
Proof. intros E. unfold manifest_path, manifest_file in E. injection E as E. by apply app_inv_tail in E. Qed.

Lemma chunk_not_manifest h n : chunk_path h <> manifest_path n.
Proof. done. Qed.

Lemma fr_chunk_file d a h : file_repr d a ->
  match d.(files) !! chunk_path h, a.(c_chunks) !! h with
  | Some b, Some x => decode_all b = Some x
  | None, None => True
  | _, _ => False
  end.
Proof.
  intros [_ Hf Hc _]. destruct (files d !! chunk_path h) as [b|] eqn:Eb.
  - destruct (Hf _ _ Eb) as [(h' & x & E & Hx & Hd)|(n & m & E & _)]; [|done]. apply chunk_path_inj in E as <-. by rewrite Hx.
  - destruct (c_chunks a !! h) as [x|] eqn:Ex; [|done]. destruct (Hc _ _ Ex) as [[b Hb] _]. congruence.
Qed.

Lemma fr_manifest_file d a n : file_repr d a ->
  match d.(files) !! manifest_path n, a.(c_manifests) !! n with
  | Some b, Some m => from_slice b = Some m
  | None, None => True
  | _, _ => False
  end.
Proof.
  intros [_ Hf _ Hm]. destruct (files d !! manifest_path n) as [b|] eqn:Eb.
  - destruct (Hf _ _ Eb) as [(h & x & E & _)|(n' & m & E & Hn & Hd)]; [done|]. apply manifest_path_inj in E as <-. by rewrite Hn.
  - destruct (c_manifests a !! n) as [m|] eqn:Em; [|done]. destruct (Hm _ _ Em) as [[b Hb] _]. congruence.
Qed.

(** Storing a chunk or a manifest, and removing one, on the disk and in the contents. *)
Lemma fr_insert_chunk f a h x b :
  file_repr {| files := f; faults := [] |} a -> content_hash x = h -> decode_all b = Some x ->
  file_repr {| files := <[chunk_path h := b]> f; faults := [] |}
            {| c_chunks := <[h := x]> a.(c_chunks); c_manifests := a.(c_manifests) |}.
Proof.
  intros [_ Hf Hc Hm] Hh Hb. split; cbn [files faults c_chunks c_manifests] in *; [done| | |].
  - intros p b' [[<- <-]|[Hp Hlook]]%lookup_insert_Some.
    + left. exists h, x. by rewrite lookup_insert_eq.
    + destruct (Hf _ _ Hlook) as [(h' & x' & -> & Hx & Hd)|Hman]; [left|by right]. exists h', x'.
      rewrite lookup_insert_ne by congruence. done.
  - intros h' x' [[<- <-]|[Hne Hx]]%lookup_insert_Some; [rewrite lookup_insert_eq; eauto|].
    rewrite lookup_insert_ne; [by apply Hc|]. intros E%chunk_path_inj. done.
  - intros n m Hn. rewrite lookup_insert_ne by done. by eapply Hm.
Qed.

Lemma fr_insert_manifest f a n m b :
  file_repr {| files := f; faults := [] |} a -> n <> [] -> from_slice b = Some m ->
  file_repr {| files := <[manifest_path n := b]> f; faults := [] |}
            {| c_chunks := a.(c_chunks); c_manifests := <[n := m]> a.(c_manifests) |}.
Proof.
  intros [_ Hf Hc Hm] Hn Hb. split; cbn [files faults c_chunks c_manifests] in *; [done| | |].
  - intros p b' [[<- <-]|[Hp Hlook]]%lookup_insert_Some.
    + right. exists n, m. by rewrite lookup_insert_eq.
    + destruct (Hf _ _ Hlook) as [Hch|(n' & m' & -> & Hx & Hd)]; [by left|right]. exists n', m'.
      rewrite lookup_insert_ne by congruence. done.
  - intros h x Hx. rewrite lookup_insert_ne by done. by eapply Hc.
  - intros n' m' [[<- <-]|[Hne Hx]]%lookup_insert_Some; [rewrite lookup_insert_eq; eauto|].
    rewrite lookup_insert_ne; [by eapply Hm|]. intros E%manifest_path_inj. done.
Qed.

Lemma fr_delete_chunk f a h :
  file_repr {| files := f; faults := [] |} a ->
  file_repr {| files := delete (chunk_path h) f; faults := [] |}
            {| c_chunks := delete h a.(c_chunks); c_manifests := a.(c_manifests) |}.
Proof.
  intros [_ Hf Hc Hm]. split; cbn [files faults c_chunks c_manifests] in *; [done| | |].
  - intros p b [Hp Hlook]%lookup_delete_Some. destruct (Hf _ _ Hlook) as [(h' & x & -> & Hx & Hd)|Hman]; [left|by right].
    exists h', x. rewrite lookup_delete_ne by congruence. done.
  - intros h' x [Hne Hx]%lookup_delete_Some. rewrite lookup_delete_ne; [by apply Hc|]. intros E%chunk_path_inj. done.
  - intros n m Hn. rewrite lookup_delete_ne by done. by eapply Hm.
Qed.

Lemma fr_delete_manifest f a n :
  file_repr {| files := f; faults := [] |} a ->
  file_repr {| files := delete (manifest_path n) f; faults := [] |}
            {| c_chunks := a.(c_chunks); c_manifests := delete n a.(c_manifests) |}.
Proof.
  intros [_ Hf Hc Hm]. split; cbn [files faults c_chunks c_manifests] in *; [done| | |].
  - intros p b [Hp Hlook]%lookup_delete_Some. destruct (Hf _ _ Hlook) as [Hch|(n' & m & -> & Hx & Hd)]; [by left|right].
    exists n', m. rewrite lookup_delete_ne by congruence. done.
  - intros h x Hx. rewrite lookup_delete_ne by done. by eapply Hc.
  - intros n' m [Hne Hx]%lookup_delete_Some. rewrite lookup_delete_ne; [by eapply Hm|]. intros E%manifest_path_inj. done.
Qed.

Lemma file_stem_app n ext : n <> [] -> contains_char 46 ext = false -> file_stem (n ++ 46 :: ext) = n.
Proof.
  intros Hn He. unfold file_stem. rewrite rsplit_once_app by done. by rewrite bool_decide_eq_false_2.
Qed.

Lemma json_stem n : n <> [] -> file_stem (n ++ lit ".json") = n.
Proof. intros Hn. by apply (file_stem_app n (lit "json")). Qed.

Lemma tmp_stem n : file_stem (n ++ lit ".json.tmp") = n ++ lit ".json".
Proof.
  change (n ++ lit ".json.tmp") with (n ++ lit ".json" ++ 46 :: lit "tmp"). rewrite app_assoc, file_stem_app; [done| |done].
  by destruct n.
Qed.

Lemma json_tmp n : n <> [] ->
  manifest_file (with_extension (lit "json.tmp")) n = [lit "manifests"] ++ [(n ++ lit ".json") ++ lit ".tmp"].
Proof. intros Hn. unfold manifest_file, with_extension. rewrite json_stem by done. by rewrite <- app_assoc. Qed.

Lemma file_read_eq f n :
  file_read_manifest n {| files := f; faults := [] |}
  = (b ← ok_or (SnapshotNotFound not_found) (f !! manifest_path n); ok_or Serde (from_slice b), {| files := f; faults := [] |}).
Proof.
  unfold file_read_manifest. unfold mbind at 1, st_bind at 1, map_err, fs_read, fs_call. cbn [files faults head default tail].
  by destruct (f !! manifest_path n).
Qed.

(** A file being written is none of the stored ones. *)
Lemma tmp_fresh f a dir n :
  file_repr {| files := f; faults := [] |} a -> f !! (dir ++ [n ++ lit ".tmp"]) = None.
Proof.
  intros [_ Hf _ _]. apply eq_None_not_Some. intros [b Hb].
  destruct (Hf _ _ Hb) as [(h & x & E & _)|(m & x & E & _)];
    apply (f_equal last) in E; rewrite last_snoc in E; injection E as E; apply (f_equal (@rev char)) in E;
    by rewrite !rev_app_distr in E.
Qed.

(** Writing to a fresh file that is then renamed. *)
Lemma write_rename_ok f p q b : f !! p = None ->
  (_ ← storage (fs_write p b); storage (fs_rename p q)) {| files := f; faults := [] |}
  = (Ok tt, {| files := <[q := b]> f; faults := [] |}).
Proof.
  intros Hp. erewrite st_bind_ok by reflexivity. unfold storage, map_err, fs_rename, fs_call.
  cbn [files faults head default tail]. by rewrite lookup_insert_eq, delete_insert_eq, delete_id.
Qed.

Lemma file_put_ok d a h x : file_repr d a -> content_hash x = h -> (forall x', a.(c_chunks) !! h = Some x' -> x' = x) ->
  exists d', file_put_chunk h x d = (Ok tt, d')
    /\ file_repr d' {| c_chunks := <[h := x]> a.(c_chunks); c_manifests := a.(c_manifests) |}.
Proof.
  intros Hr Hh Hx. pose proof (fr_chunk_file d a h Hr) as Hfile. destruct d as [f fs].
  pose proof (fr_faults _ _ Hr) as Hfs. cbn in Hfs. subst fs. cbn [files] in Hfile.
  assert (Hne : h <> []) by (subst h; apply content_hash_nonempty).
  unfold file_put_chunk. rewrite bool_decide_eq_true_2 by done. cbn [negb].
  erewrite st_bind_ok by reflexivity. cbn [files].
  destruct (f !! chunk_path h) as [b|] eqn:Eb; [rewrite bool_decide_eq_true_2 by eauto|rewrite bool_decide_eq_false_2 by (by intros [])].
  - destruct (c_chunks a !! h) as [x'|] eqn:Ex; [|done]. rewrite (Hx x' eq_refl) in Ex.
    eexists. split; [reflexivity|]. rewrite insert_id by done. by destruct a.
  - destruct (encode_total x) as [b Henc].
    assert (Htmp : chunk_file (with_extension (lit "zst.tmp")) h = [lit "chunks"; if 2 <=? byte_len h then take 2 h else lit "00"] ++ [(h ++ lit ".zst") ++ lit ".tmp"]).
    { unfold chunk_file, with_extension. change (h ++ lit ".zst") with (h ++ 46 :: lit "zst") at 1.
      rewrite file_stem_app by done. by rewrite <- app_assoc. }
    eexists. split.
    + erewrite st_bind_ok by reflexivity. erewrite st_bind_ok by (unfold lift; by rewrite Henc).
      apply write_rename_ok. rewrite Htmp. by eapply tmp_fresh.
    + apply fr_insert_chunk; [done|done|by apply decode_encode_all].
Qed.

Lemma file_write_ok d a n m : file_repr d a -> n <> [] ->
  exists d', file_write_manifest n m d = (Ok tt, d')
    /\ file_repr d' {| c_chunks := a.(c_chunks); c_manifests := <[n := m]> a.(c_manifests) |}.
Proof.
  intros Hr Hn. destruct d as [f fs]. pose proof (fr_faults _ _ Hr) as Hfs. cbn in Hfs. subst fs.
  destruct (to_vec_total m) as [b Henc].
  unfold file_write_manifest. eexists. split.
  - erewrite st_bind_ok by (unfold lift; by rewrite Henc). erewrite st_bind_ok by reflexivity.
    apply write_rename_ok. rewrite json_tmp by done. by eapply tmp_fresh.
  - apply fr_insert_manifest; [done|done|by apply from_slice_to_vec].
Qed.

Lemma remove_ok f p : remove_quietly p {| files := f; faults := [] |} = (Ok tt, {| files := delete p f; faults := [] |}).
Proof.
  unfold remove_quietly, fs_remove_file, fs_call. cbn [files faults head default tail].
  destruct (f !! p) eqn:E; [done|]. by rewrite delete_id.
Qed.

Lemma below_spec p q c : below p q = Some c <-> exists r, q = p ++ c :: r.
Proof.
  revert q. induction p as [|x p IH]; intros [|y q]; cbn [below]; try (split; [done|by intros []]).
  - split; [intros [= <-]; by exists q|by intros [r [= <-]]].
  - case_bool_decide as E; [subst y; rewrite IH; split; intros [r Hr]; exists r; naive_solver|].
    split; [done|]. by intros [r [= ?]].
Qed.

Lemma elem_of_entries p f c : c ∈ entries p f <-> exists r, is_Some (f !! (p ++ c :: r)).
Proof.
  unfold entries. rewrite elem_of_remove_dups, elem_of_filter_map. split.
  - intros (q & ([q' b] & -> & Hq)%list_elem_of_fmap & (r & E)%below_spec). cbn in E. subst q'. exists r, b.
    by apply elem_of_map_to_list.
  - intros (r & b & Hb). exists (p ++ c :: r). split; [|apply below_spec; by exists r].
    apply list_elem_of_fmap. exists (p ++ c :: r, b). split; [done|]. by apply elem_of_map_to_list.
Qed.

Lemma file_list_manifests_ok d a : file_repr d a ->
  exists l, file_list_manifests dir_order d = (Ok l, d) /\ l ≡ₚ (map_to_list a.(c_manifests)).*1.
Proof.
  intros Hr. destruct d as [f fs]. pose proof (fr_faults _ _ Hr) as Hfs. cbn in Hfs. subst fs.
  eexists. split; [reflexivity|]. cbn [files]. rewrite Hdir.
  assert (Hin : forall c, c ∈ entries [lit "manifests"] f <-> exists n, is_Some (a.(c_manifests) !! n) /\ c = n ++ lit ".json").
  { intros c. rewrite elem_of_entries. split.
    - intros (r & b & Hb). destruct (fr_files _ _ Hr _ _ Hb) as [(h & x & E & _)|(n & m & E & Hn & _)]; [done|].
      unfold manifest_path, manifest_file in E. injection E as -> _. by exists n.
    - intros (n & [m Hm] & ->). exists []. by destruct (fr_manifests _ _ Hr n m Hm). }
  assert (Hstem : forall n, is_Some (a.(c_manifests) !! n) -> file_stem (n ++ lit ".json") = n).
  { intros n [m Hm]. destruct (fr_manifests _ _ Hr n m Hm) as [_ Hne]. by apply json_stem. }
  apply NoDup_Permutation; [|apply NoDup_fst_map_to_list|].
  - apply NoDup_fmap_2_strong; [|apply NoDup_remove_dups]. intros c c' (n & Hn & ->)%Hin (n' & Hn' & ->)%Hin.
    rewrite !Hstem by done. by intros ->.
  - intros n. rewrite !list_elem_of_fmap. split.
    + intros (c & -> & (n' & [m Hm] & ->)%Hin). rewrite Hstem by eauto. exists (n', m). split; [done|]. by apply elem_of_map_to_list.
    + intros ([n' m] & -> & Hm%elem_of_map_to_list). exists (n' ++ lit ".json"). cbn [fst]. split; [by rewrite Hstem by eauto|].
      apply Hin. eauto.
Qed.

(** The shard of a chunk. *)
Definition shard (h : str) : str := if 2 <=? byte_len h then take 2 h else lit "00".

(** A listing in parts, each element telling its part. *)
Lemma NoDup_parts {A B} (part : A -> list B) (owner : B -> A) l :
  NoDup l -> (forall a, a ∈ l -> NoDup (part a)) -> (forall a b, b ∈ part a -> owner b = a) -> NoDup (concat (map part l)).
Proof.
  intros Hnd Hp Hof. induction Hnd as [|a l Hni Hnd IH]; cbn; [constructor|]. apply NoDup_app.
  split; [apply Hp; by left|]. split; [|apply IH; intros; apply Hp; by right].
  intros b Hb Hin. apply Hni. rewrite <- (Hof a b Hb). apply list_elem_of_In, in_concat in Hin as (x & Hx & Hbx).
  apply in_map_iff in Hx as (a' & <- & Ha'). rewrite (Hof a' b) by (by apply list_elem_of_In). by apply list_elem_of_In.
Qed.

(** What one shard adds to the listing. *)
Definition part (f : gmap (list str) (list byte)) (s : str) : list str :=
  map file_stem (dir_order (entries [lit "chunks"; s] f)).

Lemma list_shards_ok f l : forall out, (forall s, s ∈ l -> entries [lit "chunks"; s] f <> []) ->
  for_each (fun shard out d =>
    let sp := [lit "chunks"; shard] in
    if negb (is_dir sp d) then (Ok out, d)
    else (names ← storage (fs_read_dir dir_order sp); mret (out ++ map file_stem names)) d) l out {| files := f; faults := [] |}
  = (Ok (out ++ concat (map (part f) l)), {| files := f; faults := [] |}).
Proof.
  induction l as [|s l IH]; intros out Hl; cbn [for_each map concat]; [by rewrite app_nil_r|].
  erewrite st_bind_ok.
  2: { cbv zeta. unfold is_dir. rewrite bool_decide_eq_false_2 by (apply Hl; by left). reflexivity. }
  rewrite IH by (intros; apply Hl; by right). by rewrite <- app_assoc.
Qed.

Lemma elem_of_shard f a s c : file_repr {| files := f; faults := [] |} a ->
  c ∈ entries [lit "chunks"; s] f <-> exists h, is_Some (a.(c_chunks) !! h) /\ s = shard h /\ c = h ++ lit ".zst".
Proof.
  intros Hr. rewrite elem_of_entries. split.
  - intros (r & b & Hb). destruct (fr_files _ _ Hr _ _ Hb) as [(h & x & E & Hx & _)|(n & m & E & _)]; [|done].
    unfold chunk_path, chunk_file in E. injection E as -> -> _. exists h. by rewrite Hx.
  - intros (h & [x Hx] & -> & ->). exists []. by destruct (fr_chunks _ _ Hr h x Hx).
Qed.

Lemma file_list_chunks_ok d a : file_repr d a ->
  exists l, file_list_chunks dir_order d = (Ok l, d) /\ l ≡ₚ (map_to_list a.(c_chunks)).*1.
Proof.
  intros Hr. destruct d as [f fs]. pose proof (fr_faults _ _ Hr) as Hfs. cbn in Hfs. subst fs.
  pose proof (fun s c => elem_of_shard f a s c Hr) as Hin.
  assert (Hstem : forall h, is_Some (a.(c_chunks) !! h) -> file_stem (h ++ lit ".zst") = h).
  { intros h [x Hx]. destruct (fr_chunks _ _ Hr h x Hx) as [_ <-].
    by apply (file_stem_app _ (lit "zst") (content_hash_nonempty x)). }
  assert (Hpart : forall s h, h ∈ part f s <-> is_Some (a.(c_chunks) !! h) /\ s = shard h).
  { intros s h. unfold part. rewrite list_elem_of_fmap. setoid_rewrite Hdir. setoid_rewrite Hin. split.
    - intros (c & -> & h' & Hh & -> & ->). by rewrite !Hstem.
    - intros [Hh ->]. exists (h ++ lit ".zst"). split; [by rewrite Hstem|]. eauto. }
  eexists. split.
  { unfold file_list_chunks. erewrite st_bind_ok by reflexivity. cbn [files]. apply list_shards_ok.
    intros s Hs E. rewrite Hdir, elem_of_entries in Hs. destruct Hs as (r & b & Hb).
    destruct (fr_files _ _ Hr _ _ Hb) as [(h & x & Ep & Hx & _)|(n & m & Ep & _)]; [|done].
    unfold chunk_path, chunk_file in Ep. injection Ep as -> ->.
    assert (Hc : h ++ lit ".zst" ∈ entries [lit "chunks"; shard h] f) by (apply Hin; eauto).
    unfold shard in Hc. rewrite E in Hc. by apply not_elem_of_nil in Hc. }
  rewrite app_nil_l. apply NoDup_Permutation; [|apply NoDup_fst_map_to_list|].
  - apply (NoDup_parts (part f) shard); [rewrite Hdir; apply NoDup_remove_dups| |intros s h Hh; by apply Hpart in Hh as [_ ->]].
    intros s _. unfold part. apply NoDup_fmap_2_strong; [|rewrite Hdir; apply NoDup_remove_dups].
    intros c c'. rewrite !Hdir, !Hin. intros (h & Hh & _ & ->) (h' & Hh' & _ & ->). rewrite !Hstem by done. by intros ->.
  - intros h. rewrite list_elem_of_In, in_concat, list_elem_of_fmap. split.
    + intros (l & (s & <- & _)%in_map_iff & Hh). apply list_elem_of_In, Hpart in Hh as [[x Hx] _].
      exists (h, x). split; [done|]. by apply elem_of_map_to_list.
    + intros ([h' x] & -> & Hx%elem_of_map_to_list). cbn [fst]. exists (part f (shard h')). split; [|apply list_elem_of_In, Hpart; eauto].
      apply in_map, list_elem_of_In. rewrite Hdir, elem_of_entries. destruct (fr_chunks _ _ Hr h' x Hx) as [Hb _].
      exists [h' ++ lit ".zst"]. exact Hb.
Qed.

#[local] Program Instance FileLaws : StoreLaws Disk (H := the_store) := {
  repr := file_repr;
  valid_name n := n <> []
}.
Next Obligation. apply file_put_ok. Qed.
Next Obligation.
  intros t a h Hr. pose proof (fr_chunk_file t a h Hr) as Hf. destruct t as [f fs].
  pose proof (fr_faults _ _ Hr) as Hfs. cbn in Hfs. subst fs. cbn [files] in Hf.
  cbn [get_chunk the_store FileBackupStore]. unfold file_get_chunk, fetch.
  unfold mbind at 1, st_bind at 1, map_err, fs_read, fs_call. cbn [files faults head default tail].
  destruct (f !! chunk_path h) as [b|] eqn:Eb, (c_chunks a !! h) as [x|] eqn:Ex; try done.
  cbn [ok_or]. erewrite st_bind_ok by (unfold lift; by rewrite Hf). cbn [ok_or mbind result_bind]. cbv zeta.
  by case_bool_decide.
Qed.
Next Obligation.
  intros t a h Hr. pose proof (fr_chunk_file t a h Hr) as Hf. destruct t as [f fs].
  pose proof (fr_faults _ _ Hr) as Hfs. cbn in Hfs. subst fs. cbn [files] in Hf.
  cbn. by destruct (f !! chunk_path h) as [b|], (c_chunks a !! h) as [x|].
Qed.
Next Obligation. apply file_write_ok. Qed.
Next Obligation.
  intros t a n m Hr Hn. pose proof (fr_manifest_file t a n Hr) as Hf. destruct t as [f fs].
  pose proof (fr_faults _ _ Hr) as Hfs. cbn in Hfs. subst fs. cbn [files] in Hf. rewrite Hn in Hf.
  cbn [read_manifest the_store FileBackupStore]. rewrite file_read_eq. destruct (f !! manifest_path n); [|done]. cbn. by rewrite Hf.
Qed.
Next Obligation. apply file_list_manifests_ok. Qed.
Next Obligation.
  intros t a n Hr. destruct t as [f fs]. pose proof (fr_faults _ _ Hr) as Hfs. cbn in Hfs. subst fs.
  eexists. split; [apply remove_ok|]. by apply fr_delete_manifest.
Qed.
Next Obligation.
  intros t a h Hr. destruct t as [f fs]. pose proof (fr_faults _ _ Hr) as Hfs. cbn in Hfs. subst fs.
  eexists. split; [apply remove_ok|]. by apply fr_delete_chunk.
Qed.
Next Obligation. apply file_list_chunks_ok. Qed.

(** *** A manifest whose writing was interrupted *)

(** A loop that meets a failing element, the elements before it leaving the state alone. *)
Lemma for_each_fails {T A B} (f : A -> B -> St T B) l e t : forall b,
  (forall x b, x ∈ l -> f x b t = (Err e, t) \/ exists b', f x b t = (Ok b', t)) ->
  (exists x, x ∈ l /\ forall b, f x b t = (Err e, t)) -> for_each f l b t = (Err e, t).
Proof.
  induction l as [|y l IH]; intros b Hl (x & Hx & Hfx); [by apply not_elem_of_nil in Hx|]. cbn [for_each].
  unfold mbind, st_bind. destruct (Hl y b) as [E|[b' E]]; [by left|by rewrite E|]. rewrite E. apply IH; [intros; apply Hl; by right|].
  apply elem_of_cons in Hx as [->|Hx]; [by rewrite Hfx in E|by exists x].
Qed.

(** The listed manifests after the interruption: each stored one is read, and the name of
    the one interrupted, with its extension, is not. *)
Lemma leftover_names f a n b :
  file_repr {| files := f; faults := [] |} a -> n <> [] -> a.(c_manifests) !! (n ++ lit ".json") = None ->
  let d := {| files := <[[lit "manifests"; n ++ lit ".json.tmp"] := b]> f; faults := [] |} in
  exists names, list_manifests d = (Ok names, d)
  /\ (forall x, x ∈ names -> read_manifest x d = (Err (SnapshotNotFound not_found), d) \/ exists y, read_manifest x d = (Ok y, d))
  /\ exists x, x ∈ names /\ read_manifest x d = (Err (SnapshotNotFound not_found), d).
Proof.
  intros Hr Hn Hfresh d. cbn [list_manifests read_manifest the_store FileBackupStore].
  assert (Hbad : file_read_manifest (n ++ lit ".json") d = (Err (SnapshotNotFound not_found), d)).
  { unfold d. rewrite file_read_eq.
    rewrite lookup_insert_ne by (intros E; injection E as E; apply (f_equal (@rev char)) in E; by rewrite !rev_app_distr in E).
    pose proof (fr_manifest_file _ _ (n ++ lit ".json") Hr) as Hf. cbn [files] in Hf. rewrite Hfresh in Hf.
    by destruct (f !! manifest_path (n ++ lit ".json")). }
  eexists. split; [reflexivity|]. split.
  - intros x (c & -> & Hc)%list_elem_of_fmap. rewrite Hdir, elem_of_entries in Hc. destruct Hc as (r & b' & Hb').
    cbn [files d] in Hb'. apply lookup_insert_Some in Hb' as [[E _]|[Hne Hb']]; [injection E as <- _; left; by rewrite tmp_stem|right].
    destruct (fr_files _ _ Hr _ _ Hb') as [(h & z & E & _)|(n' & m' & E & Hn' & Hs)]; [done|]. exists m'.
    unfold manifest_path, manifest_file in E. injection E as -> ->. destruct (fr_manifests _ _ Hr n' m' Hn') as [_ Hne'].
    rewrite json_stem by done. unfold d. rewrite file_read_eq. unfold manifest_path, manifest_file.
    cbn [app] in Hb', Hne. rewrite lookup_insert_ne by done. rewrite Hb'. cbn. by rewrite Hs.
  - exists (n ++ lit ".json"). split; [|done]. apply list_elem_of_fmap. exists (n ++ lit ".json.tmp"). split; [by rewrite tmp_stem|].
    rewrite Hdir, elem_of_entries. exists []. cbn [files d]. by rewrite lookup_insert_eq.
Qed.

(** When the renaming of a manifest just written fails, the temporary file left behind
    is listed as a manifest: from then on every collection and every retention fails, with
    nothing removed. *)
Theorem leftover_blocks_gc `{Datelike} f a n m p
    (Hr : file_repr {| files := f; faults := [] |} a) (Hn : n <> []) (Hfresh : a.(c_manifests) !! (n ++ lit ".json") = None) :
  exists d, file_write_manifest n m {| files := f; faults := [false; false; true] |} = (Err Storage, d)
  /\ gc_offline d = (Err (SnapshotNotFound not_found), d)
  /\ apply_retention_offline p d = (Err (SnapshotNotFound not_found), d).
Proof.
  destruct (to_vec_total m) as [b Henc]. destruct (leftover_names f a n b Hr Hn Hfresh) as (names & Hlist & Hread & x & Hx & Hbad).
  eexists. split.
  { unfold file_write_manifest. erewrite st_bind_ok by (unfold lift; by rewrite Henc). erewrite st_bind_ok by reflexivity.
    erewrite st_bind_ok by reflexivity. cbv zeta. rewrite json_tmp by done. cbn [app]. rewrite <- app_assoc. reflexivity. }
  unfold gc_offline, apply_retention_offline.
  split; (erewrite st_bind_ok by exact Hlist); unfold mbind at 1, st_bind at 1; (erewrite for_each_fails; [done| |]).
  - intros y r Hy. unfold mbind, st_bind. destruct (Hread y Hy) as [->|[z ->]]; [by left|right]. by eexists.
  - exists x. split; [done|]. intros r. unfold mbind, st_bind. by rewrite Hbad.
  - intros y [r r'] Hy. unfold mbind, st_bind. destruct (Hread y Hy) as [->|[z ->]]; [by left|right]. by eexists.
  - exists x. split; [done|]. intros [r r']. unfold mbind, st_bind. by rewrite Hbad.
Qed.

End FileSpec.

(** ** Concrete stores *)
Module StoreExamples.
Import BackupExamples.

#[local] Existing Instance toy_sha.
#[local] Existing Instance gregorian.

#[local] Instance toy_sha_laws : Sha256Laws.
Proof. split. done. Qed.

Definition tup (m : Manifest) := (m.(id), m.(hostname), m.(paths), m.(created_at), m.(total_size), m.(chunk_ids), m.(tags)).
Definition untup (x : str * str * list str * Z * Z * list str * list str) : Manifest :=
  let '(i, h, p, c, t, cs, ts) := x in
  {| id := i; hostname := h; paths := p; created_at := c; total_size := t; chunk_ids := cs; tags := ts |}.

(** A number in bits. *)
Fixpoint pos_bytes (p : positive) : list byte :=
  match p with xH => [] | xO p => x00 :: pos_bytes p | xI p => x01 :: pos_bytes p end.
Fixpoint bytes_pos (bs : list byte) : positive :=
  match bs with [] => xH | x00 :: bs => xO (bytes_pos bs) | _ :: bs => xI (bytes_pos bs) end.
Lemma bytes_pos_bytes p : bytes_pos (pos_bytes p) = p.
Proof. induction p; cbn; congruence. Qed.

#[local] Instance toy_codec : StoreCodec := {
  encode_all d := Some (x28 :: d);
  decode_all b := match b with x28 :: d => Some d | _ => None end;
  to_vec_pretty m := Some (pos_bytes (encode (tup m)));
  from_slice b := untup <$> decode (bytes_pos b)
}.

#[local] Instance toy_codec_laws : StoreCodecLaws.
Proof.
  split; [by eauto|by intros d b [= <-]|by eauto|]. intros m b [= <-]. cbn. rewrite bytes_pos_bytes, decode_encode. by destruct m.
Qed.

#[local] Instance disk_store : BackupStore Disk := FileBackupStore (@rev str).
#[local] Instance disk_laws : StoreLaws Disk := FileLaws (@rev str) (fun l => Permutation_sym (Permutation_rev l)).

Definition blob1 : list byte := map z2b [1; 2; 3].
Definition blob2 : list byte := map z2b [4; 5].
Definition snap (cs : list str) : Manifest :=
  {| id := lit "a"; hostname := lit "h"; paths := []; created_at := 7; total_size := 3; chunk_ids := cs; tags := [] |}.
Definition stored : contents :=
  {| c_chunks := <[content_hash blob2 := blob2]> (<[content_hash blob1 := blob1]> ∅);
     c_manifests := <[lit "snap1" := snap [content_hash blob1]]> ∅ |}.
Definition no_disk : Disk := {| files := ∅; faults := [] |}.

Lemma no_disk_file : file_repr no_disk {| c_chunks := ∅; c_manifests := ∅ |}.
Proof. split; [done|..]; intros x y Hxy; cbn in Hxy; by rewrite lookup_empty in Hxy. Qed.

Lemma no_disk_repr : repr no_disk {| c_chunks := ∅; c_manifests := ∅ |}.
Proof. unfold disk_laws. cbn [repr FileLaws]. exact no_disk_file. Qed.

Lemma stored_repr : exists d, repr d stored.
Proof.
  destruct (put_chunk_ok no_disk {| c_chunks := ∅; c_manifests := ∅ |} (content_hash blob1) blob1 no_disk_repr eq_refl) as (d1 & _ & H1); [done|].
  destruct (put_chunk_ok d1 _ (content_hash blob2) blob2 H1 eq_refl) as (d2 & _ & H2).
  { intros d'. cbn [c_chunks]. rewrite lookup_insert_ne by (vm_compute; discriminate). by rewrite lookup_empty. }
  destruct (write_manifest_ok d2 _ (lit "snap1") (snap [content_hash blob1]) H2) as (d3 & _ & H3); [done|].
  by exists d3.
Qed.

Lemma gc_offline_safe_witness :
  exists d t', repr d stored /\ gc_offline d = (Ok 1%nat, t') /\ repr t' (swept stored).
Proof.
  destruct stored_repr as [d Hd]. destruct (gc_offline_safe d stored Hd) as (t' & E & Hr & _).
  exists d, t'. split; [exact Hd|]. split; [|exact Hr]. rewrite E. vm_compute. reflexivity.
Defined.

Lemma apply_retention_offline_spec_witness :
  exists d t' r, repr d stored /\ apply_retention_offline default_policy d = (Ok r, t').
Proof.
  destruct stored_repr as [d Hd]. destruct (apply_retention_offline_spec default_policy d stored Hd) as (l & t' & _ & E & _).
  - intros n n' m m' Hn Hn' _. cbn in Hn, Hn'. apply lookup_insert_Some in Hn as [[<- _]|[_ Hn]], Hn' as [[<- _]|[_ Hn']];
      try reflexivity; by rewrite lookup_empty in *.
  - exists d, t'. eexists. split; [exact Hd|exact E].
Defined.

(** Two manifests with one identifier: the second name replaces the first in the map from
    identifiers, so that the same manifest is deleted twice, and the other one stays. *)
Definition twins : InMemoryInner :=
  {| chunks := ∅; manifests := <[lit "x" := snap []]> (<[lit "y" := snap []]> ∅) |}.

Example twins_kept :
  match @apply_retention_offline _ (InMemoryBackupStore (fun l => l)) gregorian
          {| keep_daily := 0; keep_weekly := 0; keep_monthly := 0; keep_yearly := 0; keep_last := 0 |} twins with
  | (Ok (n, _), t) => n = 2%nat /\ size t.(manifests) = 1%nat
  | _ => False
  end.
Proof. vm_compute. split; reflexivity. Qed.

Lemma leftover_blocks_gc_witness :
  exists d, file_write_manifest (lit "snap2") (snap []) {| files := ∅; faults := [false; false; true] |} = (Err Storage, d)
  /\ gc_offline d = (Err (SnapshotNotFound not_found), d).
Proof.
  destruct (leftover_blocks_gc (@rev str) (fun l => Permutation_sym (Permutation_rev l)) ∅ {| c_chunks := ∅; c_manifests := ∅ |}
              (lit "snap2") (snap []) default_policy no_disk_file) as (d & E & Hg & _).
  - discriminate.
  - apply lookup_empty.
  - exists d. split; [exact E|exact Hg].
Defined.

End StoreExamples.
