(* ===== verification/Enroll.v ===== *)
(** * Enrollment tokens ([runesh-mdm/src/lib.rs])

    The token of a device enrollment and its atomic use counter. [consume] is given as one
    step and, for calls that run at the same time, as the steps of the loop of
    [AtomicU32::fetch_update]: load, compute, compare and exchange, which may fail
    spuriously. Profiles and their Ed25519 signatures are not modelled; the attestation is in
    [Attestation]. *)
From S2P Require Import Prelude Str.

#[local] Open Scope Z_scope.

Record EnrollmentToken := {
  token : str;
  created_at : Z;
  expires_at : Z;
  max_uses : Z;
  used_count : Z;
  auto_profiles : list str
}.

Inductive MdmError : Type :=
  | DeviceNotFound (id : str)
  | ProfileNotFound (id : str)
  | TokenExpired
  | ActionFailed (what : str)
  | InvalidSignature
  | UnsignedProfile
  | InvalidPayload (why : str).

Definition new (now : Z) (token : str) (expires_at max_uses : Z) : EnrollmentToken :=
  {| token := token; created_at := now; expires_at := expires_at; max_uses := max_uses; used_count := 0; auto_profiles := [] |}.

Definition is_valid (now : Z) (t : EnrollmentToken) : bool :=
  (now <? t.(expires_at)) && (t.(used_count) <? t.(max_uses)).

(** The closure given to [fetch_update]. *)
Definition next_use (max current : Z) : option Z := if max <=? current then None else Some (wadd 32 current 1).

Definition with_count (n : Z) (t : EnrollmentToken) : EnrollmentToken :=
  {| token := t.(token); created_at := t.(created_at); expires_at := t.(expires_at); max_uses := t.(max_uses); used_count := n;
     auto_profiles := t.(auto_profiles) |}.

(** A call that nothing interrupts. *)
Definition consume (now : Z) (t : EnrollmentToken) : result MdmError Z * EnrollmentToken :=
  if t.(expires_at) <=? now then (Err TokenExpired, t)
  else match next_use t.(max_uses) t.(used_count) with
       | None => (Err TokenExpired, t)
       | Some n => (Ok (wadd 32 t.(used_count) 1), with_count n t)
       end.

(** ** Calls at the same time *)

(** Where a call of [consume] is: not begun, in the loop with the count last seen, done. *)
Inductive phase : Type :=
  | Begin
  | Update (prev : Z)
  | Done (r : result MdmError Z).

(** A call reads the clock once, at its beginning. *)
Record call := { at_time : Z; pc : phase }.

(** One step of one call: the new count and the new phase. *)
Inductive call_step (expires max : Z) : Z * call -> Z * call -> Prop :=
  | step_expired c now : expires <= now ->
      call_step expires max (c, {| at_time := now; pc := Begin |}) (c, {| at_time := now; pc := Done (Err TokenExpired) |})
  | step_load c now : now < expires ->
      call_step expires max (c, {| at_time := now; pc := Begin |}) (c, {| at_time := now; pc := Update c |})
  | step_full c now prev : next_use max prev = None ->
      call_step expires max (c, {| at_time := now; pc := Update prev |}) (c, {| at_time := now; pc := Done (Err TokenExpired) |})
  | step_exchange c now prev n : next_use max prev = Some n -> c = prev ->
      call_step expires max (c, {| at_time := now; pc := Update prev |}) (n, {| at_time := now; pc := Done (Ok (wadd 32 prev 1)) |})
  | step_retry c now prev n : next_use max prev = Some n ->
      call_step expires max (c, {| at_time := now; pc := Update prev |}) (c, {| at_time := now; pc := Update c |}).

(** The calls take their steps in any order. *)
Inductive calls_step (expires max : Z) : Z * list call -> Z * list call -> Prop :=
  | calls_step_one c c' pre x x' post :
      call_step expires max (c, x) (c', x') -> calls_step expires max (c, pre ++ x :: post) (c', pre ++ x' :: post).

Definition result_of (x : call) : option Z := match x.(pc) with Done (Ok n) => Some n | _ => None end.

Definition begun (nows : list Z) : list call := map (fun now => {| at_time := now; pc := Begin |}) nows.

Section Tokens.
Context (expires max start : Z) (Hmax : is_u 32 max) (Hstart : 0 <= start <= max).

(** The numbers handed out are those between the counts, each once; a failed call was
    late or found the token used up. *)
Definition call_ok (c : Z) (x : call) : Prop :=
  match x.(pc) with
  | Begin => True
  | Update prev => x.(at_time) < expires /\ start <= prev <= c
  | Done (Ok _) => x.(at_time) < expires
  | Done (Err e) => e = TokenExpired /\ (expires <= x.(at_time) \/ c = max)
  end.

Definition token_inv (st : Z * list call) : Prop :=
  start <= st.1 <= max
  /\ filter_map result_of st.2 ≡ₚ seqZ (start + 1) (st.1 - start)
  /\ forall x, x ∈ st.2 -> call_ok st.1 x.

Lemma call_ok_mono c c' x : c <= c' <= max -> call_ok c x -> call_ok c' x.
Proof. unfold call_ok. destruct (pc x) as [|prev|[n|e]]; intros Hc Hx; intuition lia. Qed.

Lemma filter_map_app {A B} (f : A -> option B) l1 l2 : filter_map f (l1 ++ l2) = filter_map f l1 ++ filter_map f l2.
Proof. induction l1 as [|x l1 IH]; cbn; [done|]. destruct (f x); cbn; by rewrite IH. Qed.

Lemma token_inv_step st st' : token_inv st -> calls_step expires max st st' -> token_inv st'.
Proof.
  intros Hinv Hs. destruct Hs as [c c' pre x x' post Hstep]. destruct Hinv as (Hc & Hp & Hx). cbn [fst snd] in *.
  assert (Hxo : call_ok c x) by (apply Hx; set_solver).
  assert (Hnew : c <= c' <= max /\ call_ok c' x'
     /\ ((c' = c /\ result_of x' = result_of x) \/ (c' = c + 1 /\ result_of x = None /\ result_of x' = Some (c + 1)))).
  { unfold is_u in *. inversion Hstep as [? now He|? now He|? now prev Hn|? now prev n Hn|? now prev n Hn]; subst; clear Hstep;
      unfold next_use in *; unfold call_ok, result_of in *; cbn in *; try case_if; try done.
    all: try (split; [lia|]; split; [intuition lia|by left]).
    injection Hn as <-. rewrite wadd_small by lia. split; [lia|]. split; [tauto|]. by right. }
  destruct Hnew as (Hcc & Hx' & Hres). split; [cbn; lia|]. split.
  - cbn [fst snd]. rewrite !filter_map_app in *. cbn [filter_map] in *. destruct Hres as [(-> & ->)|(-> & Hr & ->)]; [done|].
    rewrite Hr in Hp. replace (c + 1 - start) with ((c - start) + 1) by lia.
    rewrite seqZ_app by lia. rewrite <- Hp. replace (start + 1 + (c - start)) with (c + 1) by lia.
    rewrite (seqZ_cons (c + 1) 1) by lia. change (seqZ _ (Z.pred 1)) with (@nil Z). rewrite <- Permutation_middle. apply Permutation_cons_append.
  - intros y. cbn [fst snd]. rewrite elem_of_app, elem_of_cons. intros [Hy|[->|Hy]]; [|done|];
      (eapply call_ok_mono; [exact Hcc|]); apply Hx; set_solver.
Qed.

Definition inv_at (nows : list Z) (st : Z * list call) : Prop := token_inv st /\ map at_time st.2 = nows.

Lemma inv_begin nows : inv_at nows (start, begun nows).
Proof.
  split; [|cbn; unfold begun; rewrite map_map; apply map_id]. split; [cbn; lia|]. cbn [fst snd]. split.
  - rewrite Z.sub_diag. unfold begun. induction nows as [|now nows IH]; [done|]. exact IH.
  - intros x (now & -> & _)%list_elem_of_fmap. done.
Qed.

Lemma inv_step nows st st' : inv_at nows st -> calls_step expires max st st' -> inv_at nows st'.
Proof.
  intros [Hinv Hn] Hs. split; [by eapply token_inv_step|]. rewrite <- Hn. destruct Hs as [c c' pre x x' post Hstep].
  cbn [snd]. rewrite !map_app. cbn [map]. do 2 f_equal. by inversion Hstep.
Qed.

End Tokens.

(** C26: However the calls of [consume] on one token interleave, the ones that succeed get
    the numbers after the first count, each once and none above the maximum; and once all
    the calls have returned, none of them late, as many succeeded as there were uses left. *)
Theorem consume_concurrent expires max start nows c calls (Hmax : is_u 32 max) (Hstart : 0 <= start <= max)
    (Hrun : star (calls_step expires max) (start, begun nows) (c, calls)) :
  start <= c <= max
  /\ filter_map result_of calls ≡ₚ seqZ (start + 1) (c - start)
  /\ (forall x e, x ∈ calls -> x.(pc) = Done (Err e) -> e = TokenExpired)
  /\ (Forall (fun now => now < expires) nows -> (forall x, x ∈ calls -> exists r, x.(pc) = Done r) ->
      c = Z.min max (start + Z.of_nat (length nows))).
Proof.
  assert (Hinv : inv_at expires max start nows (c, calls)).
  { eapply (star_invariant _ (inv_at expires max start nows)); [|exact Hrun|by apply inv_begin].
    intros st st' Hi Hs. by eapply inv_step. }
  destruct Hinv as [(Hc & Hp & Hx) Hn]. cbn [fst snd] in *. split; [done|]. split; [done|]. split.
  { intros x e Hin Hpc. specialize (Hx x Hin). unfold call_ok in Hx. rewrite Hpc in Hx. tauto. }
  intros Htime Hdone. destruct (decide (c = max)) as [->|Hne].
  - apply Permutation_length in Hp. rewrite length_seqZ in Hp.
    pose proof (filter_map_length result_of calls) as Hle. rewrite Hp, <- (length_map at_time), Hn in Hle. lia.
  - assert (Hall : length (filter_map result_of calls) = length calls).
    { rewrite Forall_forall in Htime. clear Hp. subst nows.
      assert (Hok : forall x, x ∈ calls -> exists n, result_of x = Some n).
      { intros x Hin. destruct (Hdone x Hin) as [[n|e] Hpc]; unfold result_of; rewrite Hpc; [by eauto|].
        specialize (Hx x Hin). unfold call_ok in Hx. rewrite Hpc in Hx. destruct Hx as [_ [Hlate|?]]; [|lia].
        specialize (Htime (at_time x) ltac:(apply list_elem_of_fmap; eauto)). cbn in Htime. lia. }
      clear -Hok. induction calls as [|x calls IH]; [done|]. cbn.
      destruct (Hok x) as [n ->]; [by left|]. cbn. f_equal. apply IH. intros y Hy. apply Hok. by right. }
    apply Permutation_length in Hp. rewrite length_seqZ, Hall in Hp. rewrite <- Hn, length_map. lia.
Qed.

(** An uninterrupted call is one run of the steps. *)
Lemma consume_atomic now t (Hu : is_u 32 t.(used_count)) (Hm : is_u 32 t.(max_uses)) :
  let '(r, t') := consume now t in
  star (calls_step t.(expires_at) t.(max_uses)) (t.(used_count), begun [now]) (t'.(used_count), [{| at_time := now; pc := Done r |}]).
Proof.
  unfold consume. case_if.
  - apply star_one, (calls_step_one _ _ _ _ [] _ _ []). by apply step_expired.
  - assert (Hload : calls_step (expires_at t) (max_uses t) (used_count t, begun [now]) (used_count t, [{| at_time := now; pc := Update (used_count t) |}])).
    { apply (calls_step_one _ _ _ _ [] _ _ []). by apply step_load. }
    destruct (next_use (max_uses t) (used_count t)) as [n|] eqn:E; (eapply star_step; [exact Hload|]);
      apply star_one, (calls_step_one _ _ _ _ [] _ _ []); by constructor.
Qed.

Module EnrollExamples.

(** Two calls on a token with one use left, the second one overtaken by the first. *)
Lemma consume_concurrent_witness :
  exists calls, star (calls_step 100 5) (4, begun [10; 20]) (5, calls) /\ filter_map result_of calls = [5].
Proof.
  pose (x := fun now p => {| at_time := now; pc := p |}).
  assert (Hrun : star (calls_step 100 5) (4, begun [10; 20]) (5, [x 10 (Done (Ok 5)); x 20 (Done (Err TokenExpired))])).
  { eapply star_step; [apply (calls_step_one 100 5 4 4 [] _ (x 10 (Update 4)) [x 20 Begin]); by apply step_load|].
    eapply star_step; [apply (calls_step_one 100 5 4 4 [x 10 (Update 4)] _ (x 20 (Update 4)) []); by apply step_load|].
    eapply star_step; [apply (calls_step_one 100 5 4 5 [] _ (x 10 (Done (Ok 5))) [x 20 (Update 4)]);
                       by apply (step_exchange 100 5 4 10 4 5)|].
    eapply star_step; [apply (calls_step_one 100 5 5 5 [x 10 (Done (Ok 5))] _ (x 20 (Update 5)) []);
                       by apply (step_retry 100 5 5 20 4 5)|].
    apply star_one, (calls_step_one 100 5 5 5 [x 10 (Done (Ok 5))] _ (x 20 (Done (Err TokenExpired))) []). by apply step_full. }
  eexists. split; [exact Hrun|].
  destruct (consume_concurrent 100 5 4 [10; 20] 5 _ ltac:(unfold is_u; lia) ltac:(lia) Hrun) as (_ & Hp & _).
  apply Permutation_length_1_inv. symmetry. exact Hp.
Defined.

End EnrollExamples.
