(* ===== verification/Baseline.v ===== *)
(** * Baselines ([runesh-baseline/src/lib.rs, checker.rs])

    Declarations of desired state, their inheritance, and the check of a baseline against a
    collected state. Semantic versions are the interface [Semver]; the firewall and the
    custom commands are asked through the environment [Host] of the Linux build. The
    collector and the remediator are in [Remedy]. *)
From Stdlib Require Import Floats.SpecFloat.
From S2P Require Import Prelude Str F64.

#[local] Open Scope Z_scope.

Inductive BaselineError : Type :=
  | InheritanceCycle (chain : list str)
  | ParentNotFound (id : str).

Inductive EnforcementMode : Type := Audit | Notify | Enforce.

Inductive ServiceState : Type := Running | Stopped.

(** A JSON value: a string, or the text of any other value. *)
Inductive Value : Type := JString (s : str) | JText (text : str).

Inductive StateDeclaration : Type :=
  | Package (name : str) (version : option str) (present : bool)
  | Service (name : str) (state : ServiceState) (enabled : bool)
  | File (path : str) (content mode owner : option str) (present : bool)
  | Firewall (rule : str) (present : bool)
  | User (name : str) (groups : list str) (present : bool)
  | Setting (key : str) (value : Value)
  | Custom (name check_command : str) (fix_command : option str).

Record Baseline := {
  name : str;
  inherits : option str;
  mode : EnforcementMode;
  vars : gmap str str;
  state : list StateDeclaration
}.

Inductive DriftSeverity : Type := Compliant | Drifted | Missing | Extra | Unknown.

Record Drift := { declaration : str; expected : str; actual : str; severity : DriftSeverity }.

Record ComplianceReport := {
  baseline_name : str;
  total : nat;
  compliant : nat;
  drifted : nat;
  missing : nat;
  unknown : nat;
  entries : list Drift
}.

Definition compliance_percent (r : ComplianceReport) : f64 :=
  if (r.(total) =? 0)%nat then of_int 100
  else fmul (fdiv (of_int (Z.of_nat r.(compliant))) (of_int (Z.of_nat r.(total)))) (of_int 100).

Definition is_compliant (r : ComplianceReport) : bool := (r.(drifted) =? 0)%nat && (r.(missing) =? 0)%nat.

(** ** Inheritance *)

Definition declaration_key (d : StateDeclaration) : str * str :=
  match d with
  | Package n _ _ => (lit "package", n)
  | Service n _ _ => (lit "service", n)
  | File p _ _ _ _ => (lit "file", p)
  | Firewall r _ => (lit "firewall", r)
  | User n _ _ => (lit "user", n)
  | Setting k _ => (lit "setting", k)
  | Custom n _ _ => (lit "custom", n)
  end.

(** The body of the loop of [merge_parent]: the table and the order of its keys. *)
Definition merge_step (acc : gmap (str * str) StateDeclaration * list (str * str)) (d : StateDeclaration) :=
  let key := declaration_key d in
  (<[key := d]> acc.1, if bool_decide (is_Some (acc.1 !! key)) then acc.2 else acc.2 ++ [key]).

(** The last loop: each key takes its declaration out of the table. *)
Fixpoint drain (by_key : gmap (str * str) StateDeclaration) (order : list (str * str)) : list StateDeclaration :=
  match order with
  | [] => []
  | k :: order => match by_key !! k with
                  | Some d => d :: drain (delete k by_key) order
                  | None => drain by_key order
                  end
  end.

Definition merge_parent (parent self : Baseline) : Baseline :=
  let '(by_key, order) := foldl merge_step (∅, []) (parent.(state) ++ self.(state)) in
  {| name := self.(name); inherits := self.(inherits); mode := self.(mode);
     vars := self.(vars) ∪ parent.(vars); state := drain by_key order |}.

(** The loop of [compose] up the ancestors. *)
Fixpoint climb (fuel : nat) (lookup : str -> option Baseline) (chain : list str) (visited : gset str)
    (ancestors : list Baseline) (current_parent : option str) : result (fault BaselineError) (list Baseline) :=
  match fuel, current_parent with
  | _, None => Ok ancestors
  | O, Some _ => Err OutOfFuel
  | S fuel, Some parent_id =>
      if bool_decide (parent_id ∈ visited) then Err (Fails (InheritanceCycle (chain ++ [parent_id])))
      else match lookup parent_id with
           | None => Err (Fails (ParentNotFound parent_id))
           | Some parent =>
               climb fuel lookup (chain ++ [parent_id]) ({[parent_id]} ∪ visited) (ancestors ++ [parent]) parent.(inherits)
           end
  end.

Definition compose (fuel : nat) (lookup : str -> option Baseline) (self : Baseline) : result (fault BaselineError) Baseline :=
  ancestors ← climb fuel lookup [self.(name)] {[self.(name)]} [] self.(inherits);
  Ok (foldl (fun self ancestor => merge_parent ancestor self) self (rev ancestors)).

(** [l] is the order in which the variables are iterated. *)
Definition substitute (s : str) (l : list (str * str)) : str :=
  foldl (fun r kv => replace (lit "${" ++ kv.1 ++ lit "}") kv.2 r) s l.

Definition resolve_vars (l : list (str * str)) (b : Baseline) : Baseline :=
  {| name := b.(name); inherits := b.(inherits); mode := b.(mode); vars := b.(vars);
     state := map (fun d => match d with
                            | File p (Some c) m o pr => File p (Some (substitute c l)) m o pr
                            | Setting k (JString s) => Setting k (JString (substitute s l))
                            | d => d
                            end) b.(state) |}.

(** ** The checker *)

Record SystemState := {
  packages : gmap str str;
  services : gmap str bool;
  services_enabled : gmap str bool;
  files : gmap str (option str);
  users : gmap str (list str);
  settings : gmap str str
}.

(** The semver crate. *)
Class Semver := {
  VersionReq : Type;
  Version : Type;
  parse_req : str -> option VersionReq;
  parse_version : str -> option Version;
  req_matches : VersionReq -> Version -> bool
}.

(** The outputs of nft, iptables-save and ip6tables-save, where they ran successfully, and
    the outcome of a shell command: [Err] with the message when it could not be started,
    else its exit code, if it has one. *)
Class Host := {
  nft : option str;
  iptables_save : option str;
  ip6tables_save : option str;
  shell : str -> result str (option Z)
}.

Section Checker.
Context `{Semver} `{Host}.

Definition version_satisfies (actual expected : str) : bool :=
  match parse_req expected with
  | None => bool_decide (actual = expected)
  | Some req => match parse_version actual with
                | None => bool_decide (actual = expected)
                | Some ver => req_matches req ver
                end
  end.

Definition rule_char (c : char) : bool :=
  is_ascii_alphanumeric c || existsb (fun d => c =? d) (lit " -_.:/()").

Definition firewall_rule_present (rule : str) : option bool :=
  if bool_decide (rule = []) || (200 <? byte_len rule) then None
  else if negb (forallb rule_char rule) then None
  else match nft with
       | Some (c :: text) => Some (contains_str rule (c :: text))
       | _ => match iptables_save with
              | Some text => Some (contains_str rule text)
              | None => match ip6tables_save with
                        | Some text => Some (contains_str rule text)
                        | None => None
                        end
              end
       end.

Inductive CustomCheckOutcome : Type :=
  | CheckCompliant
  | NonZero (code : Z)
  | InvalidCommand (reason : str)
  | CouldNotRun (err : str).

Definition run_custom_check (command : str) : CustomCheckOutcome :=
  if bool_decide (command = []) then InvalidCommand (lit "empty")
  else if contains_char 0 command then InvalidCommand (lit "null byte in command")
  else if 4096 <? byte_len command then InvalidCommand (lit "command too long")
  else match shell command with
       | Ok (Some code) => if code =? 0 then CheckCompliant else NonZero code
       | Ok None => NonZero (-1)
       | Err e => CouldNotRun e
       end.

Definition drift (d e a : str) (s : DriftSeverity) : Drift := {| declaration := d; expected := e; actual := a; severity := s |}.

Definition check_package (st : SystemState) (name : str) (version : option str) (present : bool) : Drift :=
  let decl := lit "package:" ++ name in
  match present, st.(packages) !! name with
  | true, None => drift decl (lit "installed" ++ match version with Some v => lit " >= " ++ v | None => [] end) (lit "not installed") Missing
  | true, Some ver =>
      match version with
      | Some req =>
          if negb (version_satisfies ver req) then drift decl (lit "version " ++ req) (lit "version " ++ ver) Drifted
          else drift decl (lit "installed") (lit "installed (" ++ ver ++ lit ")") Compliant
      | None => drift decl (lit "installed") (lit "installed (" ++ ver ++ lit ")") Compliant
      end
  | false, Some _ => drift decl (lit "not installed") (lit "installed") Drifted
  | false, None => drift decl (lit "not installed") (lit "not installed") Compliant
  end.

Definition debug_state (s : ServiceState) : str := match s with Running => lit "Running" | Stopped => lit "Stopped" end.

Definition check_service (st : SystemState) (name : str) (desired : ServiceState) (enabled : bool) : Drift :=
  let decl := lit "service:" ++ name in
  let is_enabled := st.(services_enabled) !! name in
  match st.(services) !! name with
  | None => drift decl (debug_state desired) (lit "not found") Missing
  | Some is_running =>
      let want_running := match desired with Running => true | Stopped => false end in
      let state_ok := eqb is_running want_running in
      let enabled_ok := match is_enabled with Some e => eqb e enabled | None => true end in
      if state_ok && enabled_ok then drift decl (debug_state desired) (debug_state desired) Compliant
      else drift decl (debug_state desired ++ lit ", enabled=" ++ (if enabled then lit "true" else lit "false"))
                 ((if is_running then lit "running" else lit "stopped")
                  ++ match is_enabled with Some true => lit ", enabled" | Some false => lit ", disabled" | None => [] end) Drifted
  end.

Definition check_file (st : SystemState) (path : str) (content : option str) (present : bool) : Drift :=
  let decl := lit "file:" ++ path in
  match present, bool_decide (is_Some (st.(files) !! path)) with
  | true, false => drift decl (lit "present") (lit "missing") Missing
  | false, true => drift decl (lit "absent") (lit "present") Drifted
  | false, false => drift decl (lit "absent") (lit "absent") Compliant
  | true, true =>
      match content with
      | None => drift decl (lit "present") (lit "present") Compliant
      | Some expected_content =>
          match st.(files) !! path with
          | Some (Some c) =>
              if bool_decide (c = expected_content) then drift decl (lit "content matches") (lit "content matches") Compliant
              else drift decl (lit "specific content") (lit "content differs") Drifted
          | _ => drift decl (lit "specific content") (lit "content not read") Drifted
          end
      end
  end.

Definition check_user (st : SystemState) (name : str) (groups : list str) (present : bool) : Drift :=
  let decl := lit "user:" ++ name in
  match present, st.(users) !! name with
  | true, None => drift decl (lit "present") (lit "missing") Missing
  | false, Some _ => drift decl (lit "absent") (lit "present") Drifted
  | false, None => drift decl (lit "absent") (lit "absent") Compliant
  | true, Some actual_groups =>
      let missing := filter (fun g => g ∉ actual_groups) groups in
      if bool_decide (missing = [])
      then drift decl (lit "groups: " ++ join 44 groups) (lit "groups: " ++ join 44 actual_groups) Compliant
      else drift decl (lit "groups: " ++ join 44 groups) (lit "missing groups: " ++ join 44 missing) Drifted
  end.

Definition check_setting (st : SystemState) (key : str) (value : Value) : Drift :=
  let decl := lit "setting:" ++ key in
  let expected_str := match value with JString s => s | JText t => t end in
  match st.(settings) !! key with
  | None => drift decl expected_str (lit "not set") Missing
  | Some a => drift decl expected_str a (if bool_decide (a = expected_str) then Compliant else Drifted)
  end.

Definition check_firewall (rule : str) (present : bool) : Drift :=
  let decl := lit "firewall:" ++ rule in
  let label (b : bool) := if b then lit "present" else lit "absent" in
  match firewall_rule_present rule with
  | None => drift decl (label present) (lit "firewall tool unavailable or rule not introspectable") Unknown
  | Some is_present =>
      drift decl (label present) (label is_present)
            (if eqb is_present present then Compliant else if present then Missing else Extra)
  end.

Definition check_custom (name check_command : str) : Drift :=
  let decl := lit "custom:" ++ name in
  let exp := lit "'" ++ check_command ++ lit "' exits 0" in
  match run_custom_check check_command with
  | CheckCompliant => drift decl exp (lit "exit 0") Compliant
  | NonZero code => drift decl exp (lit "exit " ++ show_uint code) Drifted
  | InvalidCommand reason => drift decl exp (lit "invalid command: " ++ reason) Unknown
  | CouldNotRun err => drift decl exp (lit "spawn failed: " ++ err) Unknown
  end.

Definition check_declaration (d : StateDeclaration) (st : SystemState) : Drift :=
  match d with
  | Package n v p => check_package st n v p
  | Service n s e => check_service st n s e
  | File path c _ _ p => check_file st path c p
  | User n g p => check_user st n g p
  | Setting k v => check_setting st k v
  | Firewall r p => check_firewall r p
  | Custom n c _ => check_custom n c
  end.

(** The body of the loop of [check_compliance]. *)
Definition count_drift (r : ComplianceReport) (d : Drift) : ComplianceReport :=
  let '{| baseline_name := n; total := t; compliant := c; drifted := dr; missing := m; unknown := u; entries := es |} := r in
  match d.(severity) with
  | Compliant => {| baseline_name := n; total := t; compliant := S c; drifted := dr; missing := m; unknown := u; entries := es |}
  | Drifted => {| baseline_name := n; total := t; compliant := c; drifted := S dr; missing := m; unknown := u; entries := es ++ [d] |}
  | Missing => {| baseline_name := n; total := t; compliant := c; drifted := dr; missing := S m; unknown := u; entries := es ++ [d] |}
  | Extra => {| baseline_name := n; total := t; compliant := c; drifted := dr; missing := m; unknown := u; entries := es ++ [d] |}
  | Unknown => {| baseline_name := n; total := t; compliant := c; drifted := dr; missing := m; unknown := S u; entries := es ++ [d] |}
  end.

Definition check_compliance (b : Baseline) (st : SystemState) : ComplianceReport :=
  foldl (fun r d => count_drift r (check_declaration d st))
        {| baseline_name := b.(name); total := length b.(state); compliant := 0; drifted := 0; missing := 0; unknown := 0; entries := [] |}
        b.(state).

End Checker.

(** ** What inheritance gives *)

(** The declaration in force for a key: the last one. *)
Definition declared (k : str * str) (l : list StateDeclaration) : option StateDeclaration :=
  last (filter (fun d => declaration_key d = k) l).

(** The different elements, in the order of their first occurrence. *)
Definition uniq (l : list (str * str)) : list (str * str) :=
  foldl (fun acc k => if bool_decide (k ∈ acc) then acc else acc ++ [k]) [] l.

Lemma declared_key k l d : declared k l = Some d -> declaration_key d = k.
Proof. intros Hl%last_Some_elem_of. by apply list_elem_of_filter in Hl as [? _]. Qed.

Lemma declared_app k l1 l2 :
  declared k (l1 ++ l2) = match declared k l2 with Some d => Some d | None => declared k l1 end.
Proof. unfold declared. rewrite filter_app, last_app. done. Qed.

Lemma declared_one k d : declared k [d] = if decide (declaration_key d = k) then Some d else None.
Proof. unfold declared. rewrite filter_cons. by case_decide. Qed.

Lemma declared_some k l : is_Some (declared k l) <-> k ∈ map declaration_key l.
Proof.
  unfold declared. rewrite last_is_Some, filter_nil_iff, list_elem_of_fmap. split.
  - intros Hne. destruct (list_find (fun d => declaration_key d = k) l) as [[i d]|] eqn:E.
    + apply list_find_Some in E as (Hd & Hk & _). exists d. split; [done|]. by eapply list_elem_of_lookup_2.
    + apply list_find_None in E. rewrite Forall_forall in E. done.
  - intros (d & -> & Hin) Hall. by apply (Hall d Hin).
Qed.

Lemma uniq_snoc l k : uniq (l ++ [k]) = if bool_decide (k ∈ uniq l) then uniq l else uniq l ++ [k].
Proof. unfold uniq. by rewrite foldl_app. Qed.

Lemma elem_of_uniq l k : k ∈ uniq l <-> k ∈ l.
Proof.
  induction l as [|x l IH] using rev_ind; [done|]. rewrite uniq_snoc. case_bool_decide; set_solver.
Qed.

Lemma NoDup_uniq l : NoDup (uniq l).
Proof.
  induction l as [|x l IH] using rev_ind; [constructor|]. rewrite uniq_snoc. case_bool_decide; [done|].
  apply NoDup_app. split; [done|]. split; [set_solver|apply NoDup_singleton].
Qed.

(** The loop of [merge_parent]. *)
Lemma merge_loop l :
  let r := foldl merge_step (∅, []) l in
  (forall k, r.1 !! k = declared k l) /\ r.2 = uniq (map declaration_key l).
Proof.
  induction l as [|d l [IH1 IH2]] using rev_ind; [split; [intros; apply lookup_empty|done]|].
  rewrite foldl_app, map_app. cbn [map foldl]. rewrite uniq_snoc. unfold merge_step at 1 3. cbn [fst snd]. split.
  - intros k. rewrite declared_app. unfold declared at 1. rewrite filter_cons. case_decide as E.
    + subst k. cbn. apply lookup_insert_eq.
    + cbn. rewrite lookup_insert_ne by done. apply IH1.
  - rewrite IH1, IH2. rewrite (bool_decide_ext _ _ (declared_some (declaration_key d) l)).
    by rewrite (bool_decide_ext _ _ (elem_of_uniq (map declaration_key l) (declaration_key d))).
Qed.

Lemma drain_eq order : forall t, NoDup order -> drain t order = filter_map (fun k => t !! k) order.
Proof.
  induction order as [|k order IH]; intros t Hnd; [done|]. apply NoDup_cons in Hnd as [Hni Hnd]. cbn.
  destruct (t !! k) as [d|] eqn:E; [|by apply IH]. f_equal. rewrite IH by done. clear -Hni.
  induction order as [|k' order IH]; [done|]. cbn. rewrite lookup_delete_ne by set_solver. rewrite IH by set_solver. done.
Qed.

Lemma merge_state p c :
  (merge_parent p c).(state)
  = filter_map (fun k => declared k (p.(state) ++ c.(state))) (uniq (map declaration_key (p.(state) ++ c.(state)))).
Proof.
  unfold merge_parent. destruct (merge_loop (p.(state) ++ c.(state))) as [H1 H2].
  destruct (foldl merge_step _ _) as [t order]. cbn [state fst snd] in *. subst order.
  rewrite drain_eq by apply NoDup_uniq. generalize (uniq (map declaration_key (state p ++ state c))). clear -H1.
  induction l as [|k l IH]; [done|]. cbn. by rewrite H1, IH.
Qed.

Lemma merge_vars p c : (merge_parent p c).(vars) = c.(vars) ∪ p.(vars).
Proof. unfold merge_parent. by destruct (foldl merge_step _ _). Qed.

Lemma keys_filter_map l ks : (forall k, k ∈ ks -> is_Some (declared k l)) ->
  map declaration_key (filter_map (fun k => declared k l) ks) = ks.
Proof.
  induction ks as [|k ks IH]; intros Hk; [done|]. cbn. destruct (Hk k) as [d Hd]; [by left|]. rewrite Hd. cbn.
  rewrite (declared_key k l d Hd), IH; [done|]. intros k' Hk'. apply Hk. by right.
Qed.

Lemma declared_merge p c k :
  declared k (merge_parent p c).(state) = match declared k c.(state) with Some d => Some d | None => declared k p.(state) end.
Proof.
  rewrite <- declared_app, merge_state. set (l := p.(state) ++ c.(state)).
  assert (Hgen : forall ks, NoDup ks -> declared k (filter_map (fun k => declared k l) ks) = if bool_decide (k ∈ ks) then declared k l else None).
  { induction ks as [|k' ks IH]; intros Hnd; [done|]. apply NoDup_cons in Hnd as [Hni Hnd]. cbn.
    assert (Hskip : k' <> k -> bool_decide (k ∈ k' :: ks) = bool_decide (k ∈ ks))
      by (intros ?; apply bool_decide_ext; rewrite elem_of_cons; naive_solver).
    destruct (declared k' l) as [d|] eqn:Ed.
    - change (d :: filter_map (fun k => declared k l) ks) with ([d] ++ filter_map (fun k => declared k l) ks).
      rewrite declared_app, IH by done. destruct (decide (k' = k)) as [->|Hne].
      + rewrite bool_decide_eq_false_2 by done. rewrite bool_decide_eq_true_2 by (by left).
        rewrite declared_one, decide_True by (by apply declared_key in Ed). by rewrite Ed.
      + rewrite (Hskip Hne). rewrite declared_one, decide_False by (apply declared_key in Ed; congruence).
        by destruct (bool_decide (k ∈ ks)), (declared k l).
    - rewrite IH by done. destruct (decide (k' = k)) as [->|Hne].
      + rewrite Ed. by destruct (bool_decide (k ∈ ks)), (bool_decide (k ∈ k :: ks)).
      + by rewrite (Hskip Hne). }
  rewrite Hgen by apply NoDup_uniq. case_bool_decide as Hin; [done|]. rewrite elem_of_uniq, <- declared_some in Hin.
  symmetry. by apply eq_None_not_Some.
Qed.

(** Merging a parent: the declarations of the result have different keys, those of parent
    and child in the order they come; for each key the child's last declaration is in
    force if it has one, else the parent's; likewise for the variables. *)
Theorem merge_parent_spec p c :
  let r := merge_parent p c in
  map declaration_key r.(state) = uniq (map declaration_key (p.(state) ++ c.(state)))
  /\ NoDup (map declaration_key r.(state))
  /\ (forall k, declared k r.(state) = match declared k c.(state) with Some d => Some d | None => declared k p.(state) end)
  /\ (forall k, r.(vars) !! k = match c.(vars) !! k with Some v => Some v | None => p.(vars) !! k end)
  /\ r.(name) = c.(name) /\ r.(inherits) = c.(inherits) /\ r.(mode) = c.(mode).
Proof.
  intros r. assert (Hkeys : map declaration_key r.(state) = uniq (map declaration_key (p.(state) ++ c.(state)))).
  { unfold r. rewrite merge_state. apply keys_filter_map. intros k. rewrite elem_of_uniq. apply declared_some. }
  split; [done|]. split; [rewrite Hkeys; apply NoDup_uniq|]. split; [intros k; apply declared_merge|]. split.
  - intros k. unfold r. rewrite merge_vars, lookup_union. by destruct (vars c !! k), (vars p !! k).
  - unfold r, merge_parent. by destruct (foldl merge_step _ _).
Qed.

(** ** Composing a chain *)

(** The ancestors from a parent on, with the names they were looked up by, up to the
    parent where the walk stops. *)
Inductive ancestry (lookup : str -> option Baseline) : option str -> list (str * Baseline) -> option str -> Prop :=
  | anc_here o : ancestry lookup o [] o
  | anc_up n p ps o : lookup n = Some p -> ancestry lookup p.(inherits) ps o -> ancestry lookup (Some n) ((n, p) :: ps) o.

Lemma ancestry_snoc lookup o ps n p :
  ancestry lookup o ps (Some n) -> lookup n = Some p -> ancestry lookup o (ps ++ [(n, p)]) p.(inherits).
Proof.
  intros Ha Hn. remember (Some n) as o' eqn:E. induction Ha as [?|n' p' ps o' Hn' Ha IH]; subst; cbn.
  - apply anc_up; [done|constructor].
  - apply anc_up; [done|]. by apply IH.
Qed.

(** What the loop of [compose] answers, from the ancestors [ps] on. *)
Definition climb_answer (lookup : str -> option Baseline) (b : Baseline) (r : result (fault BaselineError) (list Baseline)) : Prop :=
  match r with
  | Ok ancestors => exists ps, ancestry lookup b.(inherits) ps None /\ ancestors = ps.*2 /\ NoDup (b.(name) :: ps.*1)
  | Err (Fails (InheritanceCycle chain)) =>
      exists ps n, ancestry lookup b.(inherits) ps (Some n) /\ n ∈ b.(name) :: ps.*1 /\ NoDup (b.(name) :: ps.*1)
                   /\ chain = b.(name) :: ps.*1 ++ [n]
  | Err (Fails (ParentNotFound n)) => exists ps, ancestry lookup b.(inherits) ps (Some n) /\ lookup n = None
  | Err OutOfFuel => False
  end.

Lemma climb_ok (lookup : str -> option Baseline) (b : Baseline) (known : gset str) : (forall n p, lookup n = Some p -> n ∈ known) -> forall fuel ps o,
  ancestry lookup b.(inherits) ps o -> NoDup (b.(name) :: ps.*1) ->
  (size (known ∖ list_to_set ps.*1) < fuel)%nat ->
  climb_answer lookup b
    (climb fuel lookup (b.(name) :: ps.*1) ({[b.(name)]} ∪ list_to_set ps.*1) ps.*2 o).
Proof.
  intros Hknown. induction fuel as [|fuel IH]; intros ps o Ha Hnd Hfuel; [lia|]. cbn [climb].
  destruct o as [n|]; [|by exists ps]. case_bool_decide as Hv.
  { exists ps, n. split; [done|]. split; [set_solver|done]. }
  destruct (lookup n) as [p|] eqn:Hn; [|by exists ps].
  pose proof (ancestry_snoc _ _ _ _ _ Ha Hn) as Ha'.
  assert (Hnew : n ∉ b.(name) :: ps.*1) by set_solver.
  assert (Hk : n ∈ known ∖ list_to_set ps.*1) by (apply Hknown in Hn; set_solver).
  specialize (IH (ps ++ [(n, p)]) (inherits p) Ha'). rewrite !fmap_app in IH. cbn [fmap list_fmap fst snd] in IH.
  replace ({[n]} ∪ ({[name b]} ∪ list_to_set ps.*1)) with ({[name b]} ∪ list_to_set (ps.*1 ++ [n]) : gset str) by set_solver.
  apply IH.
  - change (b.(name) :: ps.*1 ++ [n]) with ((b.(name) :: ps.*1) ++ [n]). apply NoDup_app. split; [done|].
    split; [set_solver|apply NoDup_singleton].
  - assert (Hlt : (size (known ∖ list_to_set (ps.*1 ++ [n])) < size (known ∖ list_to_set ps.*1))%nat); [|lia].
    apply subset_size. set_solver.
Qed.

(** Composing terminates when finitely many baselines are known, with one step per known
    baseline and one more; it reports a cycle exactly as it is met, names the first
    parent that is not known, and otherwise merges the ancestors, the oldest first. *)
Theorem compose_spec (lookup : str -> option Baseline) (b : Baseline) (known : gset str) fuel
    (Hknown : forall n p, lookup n = Some p -> n ∈ known) (Hfuel : (size known < fuel)%nat) :
  match compose fuel lookup b with
  | Ok r => exists ps, ancestry lookup b.(inherits) ps None /\ NoDup (b.(name) :: ps.*1)
                       /\ r = foldl (fun self ancestor => merge_parent ancestor self) b (rev ps.*2)
  | Err (Fails (InheritanceCycle chain)) =>
      exists ps n, ancestry lookup b.(inherits) ps (Some n) /\ n ∈ b.(name) :: ps.*1 /\ NoDup (b.(name) :: ps.*1)
                   /\ chain = b.(name) :: ps.*1 ++ [n]
  | Err (Fails (ParentNotFound n)) => exists ps, ancestry lookup b.(inherits) ps (Some n) /\ lookup n = None
  | Err OutOfFuel => False
  end.
Proof.
  assert (Hc : climb_answer lookup b (climb fuel lookup [b.(name)] {[b.(name)]} [] b.(inherits))).
  { pose proof (climb_ok lookup b known Hknown fuel [] b.(inherits)) as Hc. cbn [fmap list_fmap list_to_set] in Hc.
    rewrite union_empty_r_L in Hc. apply Hc; [constructor|apply NoDup_singleton|].
    replace (known ∖ ∅) with known by set_solver. done. }
  unfold compose. destruct (climb _ _ _ _ _ _) as [ancestors|[[chain|n]|]]; cbn; try done.
  destruct Hc as (ps & Ha & -> & Hnd). by exists ps.
Qed.

(** In a chain of three, what the grandparent declares overrides the parent: a
    declaration or a variable of the parent is in force only if neither the child nor
    the grandparent has one for its key. *)
Theorem compose_grandparent_wins (lookup : str -> option Baseline) (child parent grand : Baseline) (p g : str)
    (Hp : child.(inherits) = Some p) (Hlp : lookup p = Some parent)
    (Hg : parent.(inherits) = Some g) (Hlg : lookup g = Some grand) (Hend : grand.(inherits) = None)
    (Hnd : NoDup [child.(name); p; g]) :
  exists r, compose 3 lookup child = Ok r
  /\ (forall k, declared k r.(state)
        = match declared k child.(state) with
          | Some d => Some d
          | None => match declared k grand.(state) with Some d => Some d | None => declared k parent.(state) end
          end)
  /\ (forall k, r.(vars) !! k
        = match child.(vars) !! k with
          | Some v => Some v
          | None => match grand.(vars) !! k with Some v => Some v | None => parent.(vars) !! k end
          end).
Proof.
  apply NoDup_cons in Hnd as [Hn1 Hnd]. apply NoDup_cons in Hnd as [Hn2 _].
  exists (merge_parent parent (merge_parent grand child)). split.
  { unfold compose. cbn [climb]. rewrite Hp. rewrite bool_decide_eq_false_2 by set_solver. rewrite Hlp, Hg.
    rewrite bool_decide_eq_false_2 by set_solver. rewrite Hlg, Hend. done. }
  split; intros k.
  - rewrite !declared_merge. by destruct (declared k (state child)).
  - rewrite !merge_vars, !lookup_union. by destruct (vars child !! k), (vars grand !! k), (vars parent !! k).
Qed.

(** ** What the checker reports *)

#[global] Instance severity_eq_dec : EqDecision DriftSeverity.
Proof. solve_decision. Defined.

Section CheckerSpec.
Context `{Semver} `{Host}.

(** What a declaration asks of the collected state. *)
Definition satisfied (st : SystemState) (d : StateDeclaration) : Prop :=
  match d with
  | Package n v true => exists ver, st.(packages) !! n = Some ver /\ forall req, v = Some req -> version_satisfies ver req = true
  | Package n _ false => st.(packages) !! n = None
  | Service n s e =>
      st.(services) !! n = Some (match s with Running => true | Stopped => false end)
      /\ forall e', st.(services_enabled) !! n = Some e' -> e' = e
  | File p c _ _ true => exists f, st.(files) !! p = Some f /\ forall x, c = Some x -> f = Some x
  | File p _ _ _ false => st.(files) !! p = None
  | Firewall r p => firewall_rule_present r = Some p
  | User n g true => exists gs, st.(users) !! n = Some gs /\ forall x, x ∈ g -> x ∈ gs
  | User n _ false => st.(users) !! n = None
  | Setting k v => st.(settings) !! k = Some (match v with JString s => s | JText t => t end)
  | Custom _ c _ => run_custom_check c = CheckCompliant
  end.

Lemma check_declaration_compliant d st : (check_declaration d st).(severity) = Compliant <-> satisfied st d.
Proof.
  destruct d as [n v p|n s e|path c md o p|r p|n g p|k v|n c f]; cbn.
  - unfold check_package. destruct p, (packages st !! n) as [ver|]; cbn; try naive_solver.
    destruct v as [req|]; cbn; [|naive_solver]. destruct (version_satisfies ver req) eqn:E; cbn; [naive_solver|].
    split; [done|]. intros (ver' & [= <-] & Hr). specialize (Hr req eq_refl). congruence.
  - unfold check_service. destruct (services st !! n) as [r|]; cbn; [|naive_solver].
    destruct (services_enabled st !! n) as [e'|], r, s; cbn; try destruct e', e; cbn; naive_solver.
  - unfold check_file. destruct (files st !! path) as [f|] eqn:Ef; [rewrite bool_decide_eq_true_2 by eauto|rewrite bool_decide_eq_false_2 by (by intros [])];
      destruct p; cbn; try naive_solver.
    destruct c as [x|]; cbn; [|naive_solver]. destruct f as [y|]; cbn; [|naive_solver].
    case_bool_decide; cbn; naive_solver.
  - unfold check_firewall. destruct (firewall_rule_present r) as [q|]; cbn; [|done]. destruct q, p; cbn; naive_solver.
  - unfold check_user. destruct p, (users st !! n) as [gs|]; cbn; try naive_solver. case_bool_decide as E; cbn.
    + rewrite filter_nil_iff in E. split; [|done]. intros _. exists gs. split; [done|]. intros x Hx. apply dec_stable. by apply E.
    + rewrite filter_nil_iff in E. split; [done|]. intros (gs' & [= <-] & Hall). destruct E. intros x Hx Hn. by apply Hn, Hall.
  - unfold check_setting. destruct (settings st !! k) as [a|]; cbn; [|naive_solver]. case_bool_decide; naive_solver.
  - unfold check_custom. destruct (run_custom_check c); cbn; naive_solver.
Qed.

Definition of_severity (st : SystemState) (s : DriftSeverity) (l : list StateDeclaration) : list StateDeclaration :=
  filter (fun d => (check_declaration d st).(severity) = s) l.

Lemma count_loop st l : forall r,
  let r' := foldl (fun r d => count_drift r (check_declaration d st)) r l in
  r'.(baseline_name) = r.(baseline_name) /\ r'.(total) = r.(total)
  /\ r'.(compliant) = (r.(compliant) + length (of_severity st Compliant l))%nat
  /\ r'.(drifted) = (r.(drifted) + length (of_severity st Drifted l))%nat
  /\ r'.(missing) = (r.(missing) + length (of_severity st Missing l))%nat
  /\ r'.(unknown) = (r.(unknown) + length (of_severity st Unknown l))%nat
  /\ r'.(entries) = r.(entries) ++ filter (fun e => e.(severity) <> Compliant) (map (fun d => check_declaration d st) l).
Proof.
  induction l as [|d l IH]; intros r; cbn [foldl map].
  { cbn. rewrite !Nat.add_0_r, app_nil_r. done. }
  destruct (IH (count_drift r (check_declaration d st))) as (-> & -> & -> & -> & -> & -> & ->). destruct r as [n t c dr m u es].
  unfold of_severity. rewrite !filter_cons. unfold count_drift.
  destruct (severity (check_declaration d st)) eqn:E; cbn; repeat split; try lia; by rewrite <- ?app_assoc.
Qed.

Lemma severity_partition st l :
  length l = (length (of_severity st Compliant l) + length (filter (fun e => e.(severity) <> Compliant) (map (fun d => check_declaration d st) l)))%nat.
Proof.
  unfold of_severity. induction l as [|d l IH]; [done|]. cbn [map length]. rewrite !filter_cons.
  do 2 case_decide; cbn [length]; try done; lia.
Qed.

(** The report counts the declarations of a baseline: compliant are exactly those the
    state satisfies, every other one has its entry, in order, and the report as a whole is
    compliant exactly when no declaration was found drifted or missing. *)
Theorem check_compliance_spec b st :
  let r := check_compliance b st in
  (forall d, (check_declaration d st).(severity) = Compliant <-> satisfied st d)
  /\ r.(total) = length b.(state)
  /\ r.(compliant) = length (of_severity st Compliant b.(state))
  /\ r.(total) = (r.(compliant) + length r.(entries))%nat
  /\ r.(entries) = filter (fun e => e.(severity) <> Compliant) (map (fun d => check_declaration d st) b.(state))
  /\ (is_compliant r = true <->
      forall d, d ∈ b.(state) -> (check_declaration d st).(severity) <> Drifted /\ (check_declaration d st).(severity) <> Missing).
Proof.
  intros r. split; [intros d; apply check_declaration_compliant|].
  destruct (count_loop st b.(state) {| baseline_name := b.(name); total := length b.(state); compliant := 0; drifted := 0;
              missing := 0; unknown := 0; entries := [] |}) as (_ & Ht & Hc & Hd & Hm & _ & He).
  change (foldl _ _ _) with r in Ht, Hc, Hd, Hm, He. cbn in Ht, Hc, Hd, Hm, He. split; [done|]. split; [done|].
  split; [rewrite Ht, Hc, He; apply severity_partition|]. split; [done|].
  assert (Hnone : forall s, length (of_severity st s b.(state)) = 0%nat <-> forall d, d ∈ b.(state) -> (check_declaration d st).(severity) <> s).
  { intros s. unfold of_severity. rewrite length_zero_iff_nil. apply filter_nil_iff. }
  unfold is_compliant. rewrite andb_true_iff, !Nat.eqb_eq, Hd, Hm, !Hnone. naive_solver.
Qed.

(** A rule that must be absent does not count when it is present: a report is compliant
    as a whole although the forbidden rules it checked for are all there. *)
Theorem forbidden_rules_pass b st
    (Hb : forall d, d ∈ b.(state) -> satisfied st d \/ exists r, d = Firewall r false /\ firewall_rule_present r = Some true) :
  is_compliant (check_compliance b st) = true.
Proof.
  destruct (count_loop st b.(state) {| baseline_name := b.(name); total := length b.(state); compliant := 0; drifted := 0;
              missing := 0; unknown := 0; entries := [] |}) as (_ & _ & _ & Hd & Hm & _).
  unfold is_compliant, check_compliance. rewrite Hd, Hm. cbn [drifted missing Nat.add]. unfold of_severity.
  assert (Hsev : forall d s, d ∈ b.(state) -> s = Drifted \/ s = Missing -> severity (check_declaration d st) <> s).
  { intros d s Hd' Hs. destruct (Hb d Hd') as [Hsat|(r & -> & Hr)].
    - apply check_declaration_compliant in Hsat. rewrite Hsat. destruct Hs; by subst.
    - cbn. unfold check_firewall. rewrite Hr. cbn. destruct Hs; by subst. }
  assert (Hnil : forall s, s = Drifted \/ s = Missing -> filter (fun d => severity (check_declaration d st) = s) b.(state) = []).
  { intros s Hs. apply filter_nil_iff. intros d Hd'. by apply Hsev. }
  by rewrite !Hnil by auto.
Qed.

End CheckerSpec.

Module BaselineExamples.

Definition base (n : string) (up : option string) (d : StateDeclaration) (v : string) : Baseline :=
  {| name := lit n; inherits := lit <$> up; mode := Audit; vars := {[lit "env" := lit v]}; state := [d] |}.
Definition nginx (v : string) : StateDeclaration := Package (lit "nginx") (Some (lit v)) true.
Definition grand : Baseline := base "root" None (nginx "1.0") "dev".
Definition parent : Baseline := base "linux" (Some "root"%string) (nginx "2.0") "prod".
Definition child : Baseline := {| name := lit "web"; inherits := Some (lit "linux"); mode := Enforce; vars := ∅; state := [] |}.
Definition known_baselines (n : str) : option Baseline :=
  if bool_decide (n = lit "root") then Some grand else if bool_decide (n = lit "linux") then Some parent else None.

(** The child gets the version and the variable of its grandparent. *)
Lemma compose_grandparent_wins_witness :
  exists r, compose 3 known_baselines child = Ok r
  /\ declared (lit "package", lit "nginx") r.(state) = Some (nginx "1.0") /\ r.(vars) !! lit "env" = Some (lit "dev").
Proof.
  destruct (compose_grandparent_wins known_baselines child parent grand (lit "linux") (lit "root")) as (r & E & Hd & Hv); try reflexivity.
  - apply (bool_decide_unpack _). vm_compute. exact I.
  - exists r. split; [exact E|]. split; [rewrite Hd|rewrite Hv]; vm_compute; reflexivity.
Defined.

Lemma compose_spec_witness :
  exists r, compose 3 known_baselines child = Ok r
  /\ exists ps, ancestry known_baselines (Some (lit "linux")) ps None.
Proof.
  assert (Hk : forall n p, known_baselines n = Some p -> n ∈ ({[lit "root"; lit "linux"]} : gset str)).
  { intros n p. unfold known_baselines. case_bool_decide; [set_solver|]. case_bool_decide; [set_solver|done]. }
  pose proof (compose_spec known_baselines child {[lit "root"; lit "linux"]} 3 Hk ltac:(vm_compute; lia)) as Hs.
  destruct (compose 3 known_baselines child) as [r|e] eqn:E; [|vm_compute in E; discriminate].
  exists r. split; [reflexivity|]. destruct Hs as (ps & Ha & _). exists ps. exact Ha.
Defined.

(** A cycle is reported with the chain that led to it. *)
Example cycle_reported :
  compose 5 (fun n => if bool_decide (n = lit "a") then Some (base "a" (Some "b"%string) (nginx "1") "x")
                      else if bool_decide (n = lit "b") then Some (base "b" (Some "a"%string) (nginx "1") "x") else None)
            (base "a" (Some "b"%string) (nginx "1") "x")
  = Err (Fails (InheritanceCycle [lit "a"; lit "b"; lit "a"])).
Proof. vm_compute. reflexivity. Qed.

(** The text of a substitution depends on the order of the variables when a value names
    another variable. *)
Example substitute_order :
  substitute (lit "${a}") [(lit "a", lit "${b}"); (lit "b", lit "1")] = lit "1"
  /\ substitute (lit "${a}") [(lit "b", lit "1"); (lit "a", lit "${b}")] = lit "${b}".
Proof. vm_compute. split; reflexivity. Qed.

#[local] Instance no_semver : Semver :=
  {| VersionReq := str; Version := str; parse_req _ := None; parse_version _ := None; req_matches _ _ := false |}.
#[local] Instance linux_host : Host := {
  nft := Some (lit "table inet filter { chain input { comment open-telnet } }");
  iptables_save := None;
  ip6tables_save := None;
  shell c := Ok (Some 1)
}.

Definition bare : SystemState :=
  {| packages := ∅; services := ∅; services_enabled := ∅; files := ∅; users := ∅; settings := ∅ |}.
Definition no_telnet : Baseline :=
  {| name := lit "hardened"; inherits := None; mode := Audit; vars := ∅; state := [Firewall (lit "open-telnet") false] |}.

Lemma forbidden_rules_pass_witness :
  is_compliant (check_compliance no_telnet bare) = true /\ length (check_compliance no_telnet bare).(entries) = 1%nat.
Proof.
  split; [|vm_compute; reflexivity]. apply (forbidden_rules_pass no_telnet bare).
  intros d [->|Hd%not_elem_of_nil]%elem_of_cons; [|done]. right. eexists. split; [reflexivity|vm_compute; reflexivity].
Defined.

End BaselineExamples.
