(* ===== verification/Path.v ===== *)
(** * Paths

    [std::path] on Unix.  A path is the list of its components, which is what its
    equality, [starts_with] and [join] look at; [components] is [Path::new(s).components()].
    The crates reach their directories through [normal_only]: the loop that keeps the
    normal components of a relative path, skips [.] and refuses the rest. *)
From S2P Require Import Prelude Str.

#[local] Open Scope Z_scope.

Inductive Component : Type :=
  | RootDir
  | CurDir
  | ParentDir
  | Normal (name : str).

#[global] Instance Component_eq_dec : EqDecision Component.
Proof. solve_decision. Defined.

Abbreviation path := (list Component) (only parsing).

Definition part (s : str) : option Component :=
  if bool_decide (s = []) || bool_decide (s = [c_dot]) then None
  else if bool_decide (s = [c_dot; c_dot]) then Some ParentDir
  else Some (Normal s).

(** Repeated slashes and [.] disappear, except for a leading [.]. *)
Definition components (s : str) : path :=
  let body := filter_map part (split c_slash s) in
  if starts_with [c_slash] s then RootDir :: body
  else match split c_slash s with
       | first :: _ => if bool_decide (first = [c_dot]) then CurDir :: body else body
       | [] => body
       end.

Definition is_absolute (p : path) : bool := bool_decide (head p = Some RootDir).

(** [Path::join]: an absolute path replaces, a leading [.] disappears. *)
Definition join_path (p q : path) : path :=
  if is_absolute q then q
  else match p, q with
       | [], _ => q
       | _, CurDir :: r => p ++ r
       | _, _ => p ++ q
       end.

(** The last component and those before it. *)
Definition unsnoc {A} (l : list A) : option (list A * A) :=
  match rev l with
  | [] => None
  | x :: r => Some (rev r, x)
  end.

Definition parent (p : path) : option path :=
  match unsnoc p with
  | Some (_, RootDir) | None => None
  | Some (front, _) => Some front
  end.

Definition file_name (p : path) : option str :=
  match unsnoc p with
  | Some (_, Normal n) => Some n
  | _ => None
  end.

(** [Path::extension] of a file name: what follows the last dot, unless nothing precedes it. *)
Definition extension_of (name : str) : option str :=
  match rsplit_once c_dot name with
  | Some ([], _) | None => None
  | Some (_, ext) => Some ext
  end.
Definition extension (p : path) : option str := file_name p ≫= extension_of.

(** The names of a path made of normal components only. *)
Fixpoint normal_only (p : path) : option (list str) :=
  match p with
  | [] => Some []
  | Normal n :: r => ns ← normal_only r; Some (n :: ns)
  | CurDir :: r => normal_only r
  | _ => None
  end.

(** A clean absolute path, and its display. *)
Definition absolute (ns : list str) : path := RootDir :: map Normal ns.
Fixpoint join_names (ns : list str) : str :=
  match ns with
  | [] => []
  | n :: r => c_slash :: n ++ join_names r
  end.
Definition display_absolute (ns : list str) : str :=
  match ns with
  | [] => [c_slash]
  | _ => join_names ns
  end.

(** ** Lemmas *)

Lemma unsnoc_snoc {A} (l : list A) x : unsnoc (l ++ [x]) = Some (l, x).
Proof. unfold unsnoc. rewrite rev_app_distr. cbn. by rewrite rev_involutive. Qed.

Lemma unsnoc_some {A} (l f : list A) x : unsnoc l = Some (f, x) -> l = f ++ [x].
Proof.
  unfold unsnoc. destruct (rev l) as [|y r] eqn:E; [done|]. intros [= <- ->].
  by rewrite <- (rev_involutive l), E.
Qed.

(** A name of a path is not empty, not [.], not [..], and contains no slash. *)
Definition good_name (n : str) : Prop :=
  n <> [] /\ n <> [c_dot] /\ n <> [c_dot; c_dot] /\ contains_char c_slash n = false.

Lemma part_normal s n : part s = Some (Normal n) -> n = s /\ n <> [] /\ n <> [c_dot] /\ n <> [c_dot; c_dot].
Proof.
  unfold part. destruct (bool_decide_reflect (s = [])), (bool_decide_reflect (s = [c_dot])); cbn; try done.
  destruct (bool_decide_reflect (s = [c_dot; c_dot])); [done|]. intros [= <-]. done.
Qed.

Lemma split_no_char c s : forall x, x ∈ split c s -> contains_char c x = false.
Proof.
  induction s as [|d s IH]; cbn [split]; intros x Hx.
  - apply list_elem_of_singleton in Hx. by subst.
  - destruct (d =? c) eqn:E.
    + apply elem_of_cons in Hx as [-> |Hx]; [done|]. by apply IH.
    + destruct (split c s) as [|y ys] eqn:Es.
      * apply list_elem_of_singleton in Hx. subst. cbn. by rewrite E.
      * apply elem_of_cons in Hx as [-> |Hx].
        -- change (contains_char c (d :: y)) with ((d =? c) || contains_char c y). rewrite E. cbn.
           apply IH. apply elem_of_cons. by left.
        -- apply IH. apply elem_of_cons. by right.
Qed.

Lemma components_names s n : Normal n ∈ components s -> good_name n.
Proof.
  intros Hin.
  assert (Hb : Normal n ∈ filter_map part (split c_slash s)).
  { unfold components in Hin. destruct (starts_with _ _).
    - apply elem_of_cons in Hin as [?|?]; done.
    - destruct (split c_slash s) as [|f r] eqn:E; [done|]. destruct (bool_decide _); [|done].
      apply elem_of_cons in Hin as [?|?]; done. }
  apply elem_of_filter_map in Hb as (x & Hx & Hp). apply part_normal in Hp as (-> & H1 & H2 & H3).
  split_and!; try done. by eapply split_no_char.
Qed.

Lemma normal_only_names p ns : normal_only p = Some ns -> forall n, n ∈ ns <-> Normal n ∈ p.
Proof.
  revert ns. induction p as [|[]]; intros ns Hp m; cbn in Hp; try done.
  - injection Hp as <-. split; intros Hm; by apply elem_of_nil in Hm.
  - rewrite elem_of_cons, <- (IHp _ Hp). naive_solver.
  - destruct (normal_only p) as [ns'|] eqn:E; [|done]. injection Hp as <-.
    rewrite !elem_of_cons, (IHp _ eq_refl). naive_solver.
Qed.

Lemma normal_only_none p : normal_only p = None <-> RootDir ∈ p \/ ParentDir ∈ p.
Proof.
  induction p as [|[] p IH]; cbn; rewrite ?elem_of_cons.
  - split; [done|]. intros [H|H]; by apply elem_of_nil in H.
  - naive_solver.
  - rewrite IH. naive_solver.
  - naive_solver.
  - destruct (normal_only p); naive_solver.
Qed.

Lemma normal_only_map ns : normal_only (map Normal ns) = Some ns.
Proof. induction ns as [|n ns IH]; cbn; [done|]. by rewrite IH. Qed.

(** The names that [normal_only] keeps of a relative path given by a string. *)
Lemma normal_only_good s ns : normal_only (components s) = Some ns -> Forall good_name ns.
Proof.
  intros H. apply Forall_forall. intros n Hn.
  apply (components_names s). by apply (normal_only_names _ _ H).
Qed.

Lemma join_relative ns q r :
  normal_only q = Some r -> normal_only (join_path (map Normal ns) q) = Some (ns ++ r).
Proof.
  intros Hq.
  assert (Happ : forall p p' a b, normal_only p = Some a -> normal_only p' = Some b -> normal_only (p ++ p') = Some (a ++ b)).
  { induction p as [|[] p IH]; cbn; intros p' a b Ha Hb; try done.
    - by injection Ha as <-.
    - by apply IH.
    - destruct (normal_only p) as [a'|]; [|done]. injection Ha as <-. by rewrite (IH _ _ _ eq_refl Hb). }
  unfold join_path. destruct q as [|[] q]; cbn in Hq; try done.
  - injection Hq as <-. destruct ns; cbn [map]; [done|]. cbn [is_absolute head].
    change (Normal l :: map Normal ns) with (map Normal (l :: ns)).
    rewrite !app_nil_r. apply normal_only_map.
  - change (is_absolute (CurDir :: q)) with false. destruct ns; cbn [map]; [done|].
    change (Normal l :: map Normal ns) with (map Normal (l :: ns)).
    apply Happ; [apply normal_only_map|done].
  - change (is_absolute (Normal name :: q)) with false. destruct ns as [|l ns]; cbn [map]; [done|].
    change (Normal l :: map Normal ns) with (map Normal (l :: ns)).
    apply Happ; [apply normal_only_map|done].
Qed.

Example components_example :
  components (lit "a//./b/../c.txt") = [Normal (lit "a"); Normal (lit "b"); ParentDir; Normal (lit "c.txt")]
  /\ components (lit "./a/") = [CurDir; Normal (lit "a")]
  /\ components (lit "/etc") = [RootDir; Normal (lit "etc")].
Proof. split_and!; vm_compute; reflexivity. Qed.

(** ** Paths written out

    [canonical ns s]: [s] is the names [ns] with a slash between them. *)
Definition canonical (ns : list str) (s : str) : Prop := ns <> [] /\ Forall good_name ns /\ s = join c_slash ns.

Lemma split_app c a s : contains_char c a = false -> split c (a ++ c :: s) = a :: split c s.
Proof.
  induction a as [|d a IH]; intros Ha; cbn [app split].
  - by rewrite Z.eqb_refl.
  - change (contains_char c (d :: a)) with ((d =? c) || contains_char c a) in Ha. apply orb_false_iff in Ha as [-> Ha].
    by rewrite (IH Ha).
Qed.

Lemma split_join c ns : ns <> [] -> Forall (fun n => contains_char c n = false) ns -> split c (join c ns) = ns.
Proof.
  intros Hne Hall. induction Hall as [|n ns Hn Hall IH]; [done|]. destruct ns as [|m ns].
  - cbn [join]. clear IH Hne Hall. induction n as [|d n IH]; [done|]. cbn [split].
    change (contains_char c (d :: n)) with ((d =? c) || contains_char c n) in Hn. apply orb_false_iff in Hn as [-> Hn].
    by rewrite (IH Hn).
  - change (join c (n :: m :: ns)) with (n ++ c :: join c (m :: ns)). rewrite split_app by done. by rewrite IH.
Qed.

Lemma canonical_components ns s : canonical ns s -> components s = map Normal ns.
Proof.
  intros (Hne & Hg & ->). unfold components.
  assert (Hsp : split c_slash (join c_slash ns) = ns).
  { apply split_join; [done|]. eapply Forall_impl; [exact Hg|]. by intros n (_ & _ & _ & ?). }
  rewrite Hsp.
  assert (Hb : filter_map part ns = map Normal ns).
  { clear Hsp Hne. induction Hg as [|n ns (H1 & H2 & H3 & _) Hg IH]; [done|]. cbn [filter_map map].
    replace (part n) with (Some (Normal n)); [by rewrite IH|].
    unfold part. by rewrite !bool_decide_false by done. }
  rewrite Hb. destruct ns as [|n ns]; [done|]. inversion Hg as [|? ? (H1 & H2 & H3 & H4) _]; subst.
  assert (Hs : starts_with [c_slash] (join c_slash (n :: ns)) = false).
  { destruct (starts_with _ _) eqn:E; [|done]. apply starts_with_spec in E as [r Hr]. destruct n as [|c n]; [done|].
    assert (c = c_slash) as -> by (destruct ns; cbn in Hr; by injection Hr).
    change (contains_char c_slash (c_slash :: n)) with ((c_slash =? c_slash) || contains_char c_slash n) in H4. by rewrite Z.eqb_refl in H4. }
  rewrite Hs. by rewrite bool_decide_false.
Qed.

Lemma canonical_inj ns ms s : canonical ns s -> canonical ms s -> ns = ms.
Proof.
  intros Hn Hm. apply canonical_components in Hn, Hm. rewrite Hn in Hm. clear Hn. revert ms Hm.
  induction ns as [|n ns IH]; intros [|m ms] Hm; try done. injection Hm as -> Hm. f_equal. by apply IH.
Qed.
