(* ===== verification/Text.v ===== *)
(** * Lines, words and columns

    The operations of [str] that the crates use to read what commands print: lines, words,
    fields and columns at byte offsets, with the lemmas that read back what was printed. *)
From S2P Require Import Prelude Str Path.

#[local] Open Scope Z_scope.

Definition c_tab : char := 9.
Definition c_cr : char := 13.
Definition c_space : char := 32.

(** [str::lines]: a line ends with a line feed, with or without a carriage return before it;
    the last one need not. *)
Definition chomp (s : str) : str := default s (strip_suffix [c_cr] s).
Fixpoint line_list (ps : list str) : list str :=
  match ps with
  | [] => []
  | [p] => if bool_decide (p = []) then [] else [p]
  | p :: ps => chomp p :: line_list ps
  end.
Definition lines (s : str) : list str := line_list (split c_nl s).

(** [str::split] of a predicate, and [str::split_whitespace]. *)
Fixpoint split_by (f : char -> bool) (s : str) : list str :=
  match s with
  | [] => [[]]
  | c :: s => if f c then [] :: split_by f s
              else match split_by f s with p :: ps => (c :: p) :: ps | [] => [[c]] end
  end.
Definition split_whitespace (s : str) : list str := filter (fun p => p <> []) (split_by is_whitespace s).

(** [str::splitn] of a character. *)
Fixpoint splitn (n : nat) (c : char) (s : str) : list str :=
  match n with
  | O => []
  | S O => [s]
  | S n => match split_once c s with Some (a, b) => a :: splitn n c b | None => [s] end
  end.

(** The second part of [str::split] of a string. *)
Definition split_second (p s : str) : option str :=
  '(_, r) ← split_once_str p s;
  Some (match split_once_str p r with Some (a, _) => a | None => r end).

(** [str::trim_matches] of characters. *)
Fixpoint drop_while (f : char -> bool) (s : str) : str :=
  match s with [] => [] | c :: r => if f c then drop_while f r else s end.
Definition trim_matches (f : char -> bool) (s : str) : str := rev (drop_while f (rev (drop_while f s))).

(** [join] of strings with a separator. *)
Fixpoint join_str (sep : str) (ps : list str) : str :=
  match ps with
  | [] => []
  | [p] => p
  | p :: ps => p ++ sep ++ join_str sep ps
  end.

(** [str::find] of a string: the offset in bytes. *)
Definition find_str (p s : str) : option Z := '(a, _) ← split_once_str p s; Some (byte_len a).

(** [str::split_at] and [str::get] at byte offsets; nothing inside a character. *)
Fixpoint split_at (n : Z) (s : str) : option (str * str) :=
  if n =? 0 then Some ([], s)
  else match s with
       | [] => None
       | c :: r => if n <? len_utf8 c then None else '(a, b) ← split_at (n - len_utf8 c) r; Some (c :: a, b)
       end.
Definition get_from (i : Z) (s : str) : option str := snd <$> split_at i s.
Definition get_range (i j : Z) (s : str) : option str := '(a, _) ← split_at j s; get_from i a.

(** ** Reading back lines *)

(** What can stand in a line. *)
Definition one_line (s : str) : Prop := contains_char c_nl s = false /\ last s <> Some c_cr.

Lemma chomp_id s : last s <> Some c_cr -> chomp s = s.
Proof.
  intros H. unfold chomp. destruct (strip_suffix [c_cr] s) as [r|] eqn:E; [|done].
  apply strip_suffix_spec in E as ->. by rewrite last_snoc in H.
Qed.

Definition unlines (ls : list str) : str := concat (map (fun l => l ++ [c_nl]) ls).

(** A character is not in a string all of whose characters pass a test it fails. *)
Lemma contains_char_absent (f : char -> bool) c s : (forall d, d ∈ s -> f d = true) -> f c = false -> contains_char c s = false.
Proof.
  intros Hs Hc. destruct (contains_char c s) eqn:E; [|done]. unfold contains_char in E. apply existsb_exists in E as (d & Hd & Ed).
  apply Z.eqb_eq in Ed. subst d. apply list_elem_of_In, Hs in Hd. congruence.
Qed.

Lemma split_one c s : contains_char c s = false -> split c s = [s].
Proof. intros Hs. apply (split_join c [s]); [done|by constructor]. Qed.

Lemma lines_cons l s : contains_char c_nl l = false -> lines (l ++ c_nl :: s) = chomp l :: lines s.
Proof.
  intros H. unfold lines. rewrite split_app by done. cbn [line_list].
  destruct (split c_nl s) eqn:E; [by apply split_nonempty in E|done].
Qed.

Lemma lines_unlines ls : Forall one_line ls -> lines (unlines ls) = ls.
Proof.
  induction 1 as [|l ls [Hn Hc] _ IH]; [done|]. unfold unlines in *. cbn [map concat]. rewrite <- app_assoc. cbn [app].
  rewrite lines_cons by done. by rewrite chomp_id, IH.
Qed.

(** ** Words *)

Definition word (s : str) : Prop := s <> [] /\ forallb (fun c => negb (is_whitespace c)) s = true.

Lemma split_by_app f a c s : forallb (fun c => negb (f c)) a = true -> f c = true -> split_by f (a ++ c :: s) = a :: split_by f s.
Proof.
  intros Ha Hc. induction a as [|d a IH]; cbn [app split_by]; [by rewrite Hc|].
  cbn in Ha. apply andb_true_iff in Ha as [Hd Ha]. apply negb_true_iff in Hd. by rewrite Hd, IH.
Qed.

Lemma split_by_none f a : forallb (fun c => negb (f c)) a = true -> split_by f a = [a].
Proof.
  induction a as [|d a IH]; [done|]. cbn. intros [Hd Ha]%andb_true_iff. apply negb_true_iff in Hd. by rewrite Hd, IH.
Qed.

Lemma words_cons w c s : word w -> is_whitespace c = true -> split_whitespace (w ++ c :: s) = w :: split_whitespace s.
Proof. intros [Hne Hw] Hc. unfold split_whitespace. rewrite split_by_app by done. by rewrite filter_cons_True. Qed.

Lemma words_space c s : is_whitespace c = true -> split_whitespace (c :: s) = split_whitespace s.
Proof. intros Hc. unfold split_whitespace. cbn [split_by]. rewrite Hc. by rewrite filter_cons_False by auto. Qed.

Lemma split_by_sep f a c s : f c = true -> split_by f (a ++ c :: s) = split_by f a ++ split_by f s.
Proof.
  intros Hc. induction a as [|d a IH]; cbn [app split_by]; [by rewrite Hc|]. destruct (f d); [by rewrite IH|]. rewrite IH.
  destruct (split_by f a) as [|p ps] eqn:E; [|done]. by destruct a as [|x a]; cbn in E; [|destruct (f x), (split_by f a)].
Qed.

Lemma words_sep a c s : is_whitespace c = true -> split_whitespace (a ++ c :: s) = split_whitespace a ++ split_whitespace s.
Proof. intros Hc. unfold split_whitespace. by rewrite split_by_sep, filter_app by done. Qed.

Lemma words_one w : word w -> split_whitespace w = [w].
Proof. intros [Hne Hw]. unfold split_whitespace. rewrite split_by_none by done. by rewrite filter_cons_True, filter_nil by done. Qed.

Lemma words_spaces a s : forallb is_whitespace a = true -> split_whitespace (a ++ s) = split_whitespace s.
Proof. induction a as [|c a IH]; [done|]. cbn [forallb app]. intros [Hc Ha]%andb_true_iff. rewrite words_space by done. auto. Qed.

Lemma words_join ws : Forall word ws -> split_whitespace (join_str (lit " ") ws) = ws.
Proof.
  induction 1 as [|w ws Hw Hws IH]; [done|]. cbn [join_str]. destruct ws as [|w' ws]; [by apply words_one|].
  change (lit " ") with [c_space] in IH |- *. cbn [app]. rewrite words_cons by done. by rewrite IH.
Qed.

(** ** Columns *)

Definition ascii (s : str) : Prop := Forall (fun c => c < 128) s.

Lemma byte_len_app a b : byte_len (a ++ b) = byte_len a + byte_len b.
Proof. induction a as [|c a IH]; cbn; lia. Qed.

Lemma len_utf8_pos c : 1 <= len_utf8 c <= 4.
Proof. unfold len_utf8. repeat case_match; lia. Qed.

Lemma byte_len_nonneg s : 0 <= byte_len s.
Proof. induction s as [|c s IH]; cbn; [lia|]. pose proof (len_utf8_pos c). lia. Qed.

Lemma byte_len_ascii s : ascii s -> byte_len s = Z.of_nat (length s).
Proof.
  induction 1 as [|c s Hc _ IH]; [done|]. cbn [byte_len length]. unfold len_utf8.
  rewrite (proj2 (Z.ltb_lt _ _) Hc). lia.
Qed.

Lemma split_at_app a b : split_at (byte_len a) (a ++ b) = Some (a, b).
Proof.
  induction a as [|c a IH]; [by destruct b|]. cbn [byte_len app split_at]. pose proof (len_utf8_pos c). pose proof (byte_len_nonneg a).
  rewrite (proj2 (Z.eqb_neq _ _)) by lia. rewrite (proj2 (Z.ltb_ge _ _)) by lia.
  replace (len_utf8 c + byte_len a - len_utf8 c) with (byte_len a) by lia. by rewrite IH.
Qed.

Lemma get_from_app a b : get_from (byte_len a) (a ++ b) = Some b.
Proof. unfold get_from. by rewrite split_at_app. Qed.

Lemma get_range_app a b c : get_range (byte_len a) (byte_len a + byte_len b) (a ++ b ++ c) = Some b.
Proof.
  unfold get_range. rewrite <- byte_len_app, (app_assoc a b c), split_at_app. cbn. apply get_from_app.
Qed.

(** A text padded with spaces to a column. *)
Definition pad (w : nat) (s : str) : str := s ++ repeat c_space (w - length s).

Lemma spaces_ws n : forallb is_whitespace (repeat c_space n) = true.
Proof. induction n as [|n IH]; [done|]. by cbn. Qed.

Lemma length_pad w s : (length s <= w)%nat -> length (pad w s) = w.
Proof. intros H. unfold pad. rewrite length_app, repeat_length. lia. Qed.

Lemma ascii_pad w s : ascii s -> ascii (pad w s).
Proof. intros H. apply Forall_app. split; [done|]. apply Forall_forall. intros x Hx. apply list_elem_of_In, repeat_spec in Hx as ->. done. Qed.

Lemma byte_len_pad w s : ascii s -> (length s <= w)%nat -> byte_len (pad w s) = Z.of_nat w.
Proof. intros Ha Hl. rewrite byte_len_ascii by (by apply ascii_pad). by rewrite length_pad. Qed.

(** A text that [trim] leaves as it is. *)
Definition trimmed (s : str) : Prop :=
  s <> [] /\ (forall c, head s = Some c -> is_whitespace c = false) /\ (forall c, last s = Some c -> is_whitespace c = false).

Lemma trim_pad w s : trimmed s -> trim (pad w s) = s.
Proof. intros (Hne & Hh & Hl). apply (trim_around [] (repeat c_space (w - length s)) s); auto using spaces_ws. Qed.

Lemma trim_trimmed s : trimmed s -> trim s = s.
Proof. intros (Hne & Hh & Hl). pose proof (trim_around [] [] s eq_refl eq_refl Hh Hl Hne) as H. by rewrite app_nil_r in H. Qed.

Lemma word_trimmed s : word s -> trimmed s.
Proof.
  intros [Hne Hw]. rewrite forallb_forall in Hw. split_and!; [done|..]; intros c Hc; apply negb_true_iff, Hw.
  - destruct s; [done|]. injection Hc as ->. by left.
  - apply last_Some in Hc as [s' ->]. apply in_or_app. right. by left.
Qed.

(** ** Finding a text *)

Lemma split_once_str_here p s : split_once_str p (p ++ s) = Some ([], s).
Proof. destruct (p ++ s) as [|c r] eqn:E; cbn [split_once_str]; by rewrite <- E, strip_prefix_app. Qed.

Lemma strip_prefix_differs c d p s : c <> d -> strip_prefix (c :: p) (d :: s) = None.
Proof. intros H. cbn. by rewrite (proj2 (Z.eqb_neq _ _)) by done. Qed.

Lemma split_once_str_skip c p a s : contains_char c a = false -> split_once_str (c :: p) (a ++ (c :: p) ++ s) = Some (a, s).
Proof.
  intros Ha. induction a as [|d a IH]; [apply (split_once_str_here (c :: p))|].
  cbn in Ha. apply orb_false_iff in Ha as [Hd Ha]. apply Z.eqb_neq in Hd.
  cbn [app]. cbn [split_once_str]. rewrite strip_prefix_differs by done. cbn [app] in IH. by rewrite IH.
Qed.

(** ** Order

    [str] is ordered by its bytes, which is the order of its characters. *)
Fixpoint str_le (a b : str) : bool :=
  match a, b with
  | [], _ => true
  | _, [] => false
  | x :: a, y :: b => (x <? y) || ((x =? y) && str_le a b)
  end.

Lemma str_le_total a : forall b, str_le a b = true \/ str_le b a = true.
Proof.
  induction a as [|x a IH]; intros [|y b]; cbn; auto.
  destruct (Z.ltb_spec x y), (Z.ltb_spec y x), (Z.eqb_spec x y), (Z.eqb_spec y x); cbn; auto; lia.
Qed.

Lemma str_le_trans a : forall b c, str_le a b = true -> str_le b c = true -> str_le a c = true.
Proof.
  induction a as [|x a IH]; intros [|y b] [|z c]; cbn; try done. rewrite !orb_true_iff, !andb_true_iff, !Z.ltb_lt, !Z.eqb_eq.
  intros [H1|[-> H1]] [H2|[-> H2]]; [left; lia|by left|by left|right; eauto].
Qed.
