(* ===== verification/Fs.v ===== *)
(** * A directory on disk

    The calls of [std::fs] and [tokio::fs] that the crates make below a directory of their
    own: a tree of files and directories, keyed by the names from that directory down.
    Every call takes its fate from a list, so that a theorem ranges over every way in
    which calls can fail; a write that fails half way leaves a prefix of its data. *)
From S2P Require Import Prelude Str Path.

#[local] Open Scope Z_scope.

Inductive node : Type := File (content : list byte) | Dir.

Inductive IoErrorKind : Type := NotFound | NotADirectory | IsADirectory | OtherIo.

#[global] Instance IoErrorKind_eq_dec : EqDecision IoErrorKind.
Proof. solve_decision. Defined.

Abbreviation tree := (gmap (list str) node) (only parsing).

Inductive fate : Type := Works | Refused | Torn (written : nat).

(** [fates] are those of the next calls; calls after them succeed. *)
Record Disk := { nodes : tree; fates : list fate }.

(** Code that changes a state and may return early with an error. *)
Definition act (T E A : Type) : Type := T -> result E A * T.

#[global] Instance act_ret {T E} : MRet (act T E) := fun A a t => (Ok a, t).
#[global] Instance act_bind {T E} : MBind (act T E) := fun A B f m t =>
  match m t with
  | (Ok a, t') => f a t'
  | (Err e, t') => (Err e, t')
  end.

Definition from_result {T E A} (r : result E A) : act T E A := fun t => (r, t).
Definition map_err {T E F A} (f : E -> F) (m : act T E A) : act T F A := fun t =>
  match m t with
  | (Ok a, t') => (Ok a, t')
  | (Err e, t') => (Err (f e), t')
  end.
(** [let _ = m]. *)
Definition quietly {T E A} (m : act T E A) (t : T) : T := (m t).2.

(** A [for] loop whose body may return early with an error. *)
Fixpoint each {T E A} (f : A -> act T E unit) (l : list A) : act T E unit :=
  match l with
  | [] => mret tt
  | x :: l => _ ← f x; each f l
  end.

Abbreviation io A := (act Disk IoErrorKind A) (only parsing).

Definition fs_call {A} (works : tree -> result IoErrorKind A * tree) (torn : nat -> tree -> tree) : io A := fun d =>
  let rest := tail d.(fates) in
  match default Works (head d.(fates)) with
  | Works => let '(r, m) := works d.(nodes) in (r, {| nodes := m; fates := rest |})
  | Refused => (Err OtherIo, {| nodes := d.(nodes); fates := rest |})
  | Torn n => (Err OtherIo, {| nodes := torn n d.(nodes); fates := rest |})
  end.
Definition no_tear (n : nat) (m : tree) : tree := m.

Definition node_at (m : tree) (p : list str) : option node :=
  match p with
  | [] => Some Dir
  | _ => m !! p
  end.

(** Why there is nothing at [p]. *)
Definition absent (m : tree) (p : list str) : IoErrorKind :=
  if existsb (fun k => match m !! take k p with Some (File _) => true | _ => false end) (seq 1 (length p))
  then NotADirectory else NotFound.

(** The directory that is to hold [p]. *)
Definition in_dir (m : tree) (p : list str) : result IoErrorKind unit :=
  match unsnoc p with
  | None => Err IsADirectory
  | Some (q, _) =>
      match node_at m q with
      | Some Dir => Ok tt
      | Some (File _) => Err NotADirectory
      | None => Err (absent m q)
      end
  end.

Definition metadata (p : list str) : io node :=
  fs_call (fun m => (ok_or (absent m p) (node_at m p), m)) no_tear.

(** [Path::exists] and [Path::is_dir] are false on an error. *)
Definition path_exists (p : list str) (d : Disk) : bool * Disk :=
  let '(r, d) := metadata p d in (is_ok r, d).
Definition path_is_dir (p : list str) (d : Disk) : bool * Disk :=
  let '(r, d) := metadata p d in (match r with Ok Dir => true | _ => false end, d).

Fixpoint mkdirs (pre rest : list str) (m : tree) : result IoErrorKind unit * tree :=
  match rest with
  | [] => (Ok tt, m)
  | n :: r =>
      let p := pre ++ [n] in
      match m !! p with
      | Some (File _) => (Err OtherIo, m)
      | _ => mkdirs p r (<[p := Dir]> m)
      end
  end.
Definition create_dir_all (p : list str) : io unit := fs_call (mkdirs [] p) no_tear.

(** [fs::write] and [File::create] truncate or create. *)
Definition put_file (p : list str) (b : list byte) (m : tree) : result IoErrorKind unit * tree :=
  match in_dir m p with
  | Err e => (Err e, m)
  | Ok _ =>
      match m !! p with
      | Some Dir => (Err IsADirectory, m)
      | _ => (Ok tt, <[p := File b]> m)
      end
  end.
Definition write (p : list str) (b : list byte) : io unit :=
  fs_call (put_file p b) (fun n m => snd (put_file p (take n b) m)).

Definition create (p : list str) : io unit := fs_call (put_file p []) no_tear.

Definition get_file (p : list str) (m : tree) : result IoErrorKind (list byte) :=
  match node_at m p with
  | Some (File b) => Ok b
  | Some Dir => Err IsADirectory
  | None => Err (absent m p)
  end.
Definition read (p : list str) : io (list byte) := fs_call (fun m => (get_file p m, m)) no_tear.

(** What a file holds after [data] is written at [off]; a gap is filled with zeros. *)
Definition splice (old : list byte) (off : nat) (data : list byte) : list byte :=
  match data with
  | [] => old
  | _ => take off (old ++ repeat x00 (off - length old)) ++ data ++ drop (off + length data) old
  end.

Definition change_file (p : list str) (f : list byte -> list byte) (m : tree) : result IoErrorKind unit * tree :=
  match get_file p m with
  | Ok b => (Ok tt, <[p := File (f b)]> m)
  | Err e => (Err e, m)
  end.
Definition write_at (p : list str) (off : nat) (data : list byte) : io unit :=
  fs_call (change_file p (fun b => splice b off data)) (fun n m => snd (change_file p (fun b => splice b off (take n data)) m)).

(** [write_all] on the handle of a file that is being written from its start. *)
Definition append (p : list str) (data : list byte) : io unit :=
  fs_call (change_file p (fun b => b ++ data)) (fun n m => snd (change_file p (fun b => b ++ take n data) m)).

Definition remove_file (p : list str) : io unit :=
  fs_call (fun m => match node_at m p with
                    | Some (File _) => (Ok tt, delete p m)
                    | Some Dir => (Err IsADirectory, m)
                    | None => (Err (absent m p), m)
                    end) no_tear.

(** The names that follow [p] in [q]. *)
Fixpoint after (p q : list str) : option (list str) :=
  match p, q with
  | [], _ => Some q
  | x :: p, y :: q => if bool_decide (x = y) then after p q else None
  | _, [] => None
  end.

Definition remove_dir_all (p : list str) : io unit :=
  fs_call (fun m => match node_at m p with
                    | Some Dir => (Ok tt, filter (fun kv => after p kv.1 = None) m)
                    | Some (File _) => (Err NotADirectory, m)
                    | None => (Err (absent m p), m)
                    end) no_tear.

(** The names in the directory [p]. *)
Definition children (m : tree) (p : list str) : list str :=
  filter_map (fun kv => match after p kv.1 with Some [n] => Some n | _ => None end) (map_to_list m).
Definition read_dir (p : list str) : io (list str) :=
  fs_call (fun m => match node_at m p with
                    | Some Dir => (Ok (children m p), m)
                    | Some (File _) => (Err NotADirectory, m)
                    | None => (Err (absent m p), m)
                    end) no_tear.

(** A directory moves with what it holds. *)
Definition move_tree (p q : list str) (m : tree) : tree :=
  list_to_map (map (fun kv => match after p kv.1 with Some r => (q ++ r, kv.2) | None => kv end)
                   (map_to_list (delete q m))).

Definition rename_node (p q : list str) (m : tree) : result IoErrorKind unit * tree :=
  match node_at m p with
  | None => (Err (absent m p), m)
  | Some n =>
      match in_dir m q with
      | Err e => (Err e, m)
      | Ok _ =>
          match n, m !! q with
          | File _, Some Dir => (Err IsADirectory, m)
          | File b, _ => (Ok tt, <[q := File b]> (delete p m))
          | Dir, Some (File _) => (Err NotADirectory, m)
          | Dir, _ =>
              if bool_decide (p = q) then (Ok tt, m)
              else if bool_decide (is_Some (after p q)) then (Err OtherIo, m)
              else if bool_decide (children m q = []) then (Ok tt, move_tree p q m)
              else (Err OtherIo, m)
          end
      end
  end.
Definition rename (p q : list str) : io unit := fs_call (rename_node p q) no_tear.

(** ** What the calls do to files *)

Lemma act_bind_ok {T E A B} (m : act T E A) (f : A -> act T E B) t b t' :
  mbind f m t = (Ok b, t') -> exists a t1, m t = (Ok a, t1) /\ f a t1 = (Ok b, t').
Proof. unfold mbind, act_bind. destruct (m t) as [[a|e] t1]; [|done]. intros. by exists a, t1. Qed.

Lemma act_bind_err {T E A B} (m : act T E A) (f : A -> act T E B) t e t' :
  mbind f m t = (Err e, t') -> m t = (Err e, t') \/ exists a t1, m t = (Ok a, t1) /\ f a t1 = (Err e, t').
Proof. unfold mbind, act_bind. destruct (m t) as [[a|e'] t1]; [|naive_solver]. right. by exists a, t1. Qed.

Lemma act_map_err_ok {T E F A} (f : E -> F) (m : act T E A) t a t' : map_err f m t = (Ok a, t') <-> m t = (Ok a, t').
Proof. unfold map_err. destruct (m t) as [[] ?]; naive_solver. Qed.

Lemma map_err_err {T E F A} (f : E -> F) (m : act T E A) t e t' :
  map_err f m t = (Err e, t') -> exists e0, m t = (Err e0, t').
Proof. unfold map_err. destruct (m t) as [[] ?]; naive_solver. Qed.

(** What a call did, if it succeeded or if it failed. *)
Lemma fs_call_ok {A} (works : tree -> result IoErrorKind A * tree) torn d a d' :
  fs_call works torn d = (Ok a, d') -> works d.(nodes) = (Ok a, d'.(nodes)).
Proof. unfold fs_call. destruct (default Works _); try done. destruct (works (nodes d)) as [r m]. by intros [= -> <-]. Qed.

Lemma fs_call_err {A} (works : tree -> result IoErrorKind A * tree) torn d e d' :
  fs_call works torn d = (Err e, d') ->
  works d.(nodes) = (Err e, d'.(nodes)) \/ d'.(nodes) = d.(nodes) \/ exists n, d'.(nodes) = torn n d.(nodes).
Proof.
  unfold fs_call. destruct (default Works _); [|intros [= <- <-]; naive_solver..].
  destruct (works (nodes d)) as [r m]. intros [= -> <-]. by left.
Qed.

Definition file_at (m : tree) (p : list str) : option (list byte) :=
  match node_at m p with
  | Some (File b) => Some b
  | _ => None
  end.

Lemma file_at_lookup m p b : file_at m p = Some b <-> p <> [] /\ m !! p = Some (File b).
Proof. unfold file_at, node_at. destruct p; [naive_solver|]. destruct (m !! (l :: p)) as [[]|]; naive_solver. Qed.

Lemma get_file_ok p m b : get_file p m = Ok b <-> file_at m p = Some b.
Proof. unfold get_file, file_at. destruct (node_at m p) as [[]|]; naive_solver. Qed.

Lemma file_at_insert_dir m p q : (forall b, m !! p <> Some (File b)) -> file_at (<[p := Dir]> m) q = file_at m q.
Proof.
  intros Hp. unfold file_at, node_at. destruct q as [|x q]; [done|].
  destruct (decide (p = x :: q)) as [->|Hne]; [|by rewrite lookup_insert_ne].
  rewrite lookup_insert_eq. destruct (m !! (x :: q)) as [[b|]|] eqn:E; try done. by destruct (Hp b).
Qed.

(** Making directories leaves every file as it is, also when it fails. *)
Lemma mkdirs_files rest : forall pre m r m', mkdirs pre rest m = (r, m') -> forall q, file_at m' q = file_at m q.
Proof.
  induction rest as [|n rest IH]; intros pre m r m' H q; cbn [mkdirs] in H; [by injection H as <- <-|].
  destruct (m !! (pre ++ [n])) as [[b|]|] eqn:E; [by injection H as <- <-| |];
    rewrite (IH _ _ _ _ H), file_at_insert_dir; try done; naive_solver.
Qed.

(** After making directories, they are there, and so is every directory of before. *)
Lemma mkdirs_dirs rest : forall pre m m', mkdirs pre rest m = (Ok tt, m') ->
  (forall k, (0 < k <= length rest)%nat -> m' !! (pre ++ take k rest) = Some Dir)
  /\ (forall q, m !! q = Some Dir -> m' !! q = Some Dir).
Proof.
  induction rest as [|n rest IH]; intros pre m m' H; cbn [mkdirs] in H.
  { injection H as <-. split; [cbn; lia|done]. }
  assert (H' : mkdirs (pre ++ [n]) rest (<[pre ++ [n] := Dir]> m) = (Ok tt, m')) by (by destruct (m !! (pre ++ [n])) as [[b|]|]).
  destruct (IH _ _ _ H') as [Hk Hq]. split.
  - intros [|[|k]] Hl; [lia| |].
    + cbn [take]. apply Hq, lookup_insert_eq.
    + cbn [length] in Hl. replace (pre ++ take (S (S k)) (n :: rest)) with ((pre ++ [n]) ++ take (S k) rest) by (by rewrite <- app_assoc).
      apply Hk. lia.
  - intros q Hd. apply Hq. destruct (decide (pre ++ [n] = q)) as [->|]; [by rewrite lookup_insert_eq|by rewrite lookup_insert_ne].
Qed.

Lemma put_file_ok p b m m' : put_file p b m = (Ok tt, m') ->
  p <> [] /\ m' = <[p := File b]> m /\ forall q, file_at m' q = if bool_decide (q = p) then Some b else file_at m q.
Proof.
  unfold put_file. destruct p as [|x p]; [done|]. intros H.
  assert (m' = <[x :: p := File b]> m) as ->.
  { destruct (in_dir m (x :: p)); [|done]. destruct (m !! (x :: p)) as [[]|]; naive_solver. }
  split_and!; try done. intros q. case_bool_decide as Hq; [subst|].
  - unfold file_at, node_at. by rewrite lookup_insert_eq.
  - unfold file_at, node_at. destruct q; [done|]. by rewrite lookup_insert_ne.
Qed.

Lemma put_file_err p b m m' e : put_file p b m = (Err e, m') -> m' = m.
Proof. unfold put_file. destruct (in_dir m p); [|naive_solver]. destruct (m !! p) as [[]|]; naive_solver. Qed.

Lemma change_file_ok p f m m' : change_file p f m = (Ok tt, m') ->
  exists b, file_at m p = Some b /\ m' = <[p := File (f b)]> m /\ forall q, file_at m' q = if bool_decide (q = p) then Some (f b) else file_at m q.
Proof.
  unfold change_file. destruct (get_file p m) as [b|] eqn:E; [|done]. intros [= <-]. apply get_file_ok in E.
  exists b. split_and!; try done. apply file_at_lookup in E as [Hp _]. intros q. unfold file_at, node_at.
  destruct q; [by rewrite bool_decide_false|]. case_bool_decide as Hq; [rewrite Hq, lookup_insert_eq|rewrite lookup_insert_ne]; done.
Qed.

Lemma change_file_err p f m m' e : change_file p f m = (Err e, m') -> m' = m.
Proof. unfold change_file. destruct (get_file p m); naive_solver. Qed.

(** A call that is refused or fails changes no file but those its torn write names. *)
Lemma file_at_delete m p q : file_at (delete p m) q = if bool_decide (q = p) then None else file_at m q.
Proof.
  unfold file_at, node_at. destruct q as [|x q].
  - by case_bool_decide.
  - case_bool_decide as Hq; [rewrite Hq, lookup_delete_eq|rewrite lookup_delete_ne by congruence]; done.
Qed.

(** A name just made below a directory. *)
Lemma in_dir_ok m q n : node_at m q = Some Dir -> in_dir m (q ++ [n]) = Ok tt.
Proof. intros H. unfold in_dir. by rewrite unsnoc_snoc, H. Qed.

Lemma in_dir_mkdirs q n m m' : mkdirs [] q m = (Ok tt, m') -> in_dir m' (q ++ [n]) = Ok tt.
Proof.
  intros H. apply in_dir_ok. destruct q as [|x q]; [done|]. cbn [node_at].
  destruct (mkdirs_dirs _ _ _ _ H) as [Hk _]. specialize (Hk (length (x :: q))). rewrite firstn_all in Hk.
  apply Hk. cbn. lia.
Qed.

Lemma after_app p r : after p (p ++ r) = Some r.
Proof. induction p as [|x p IH]; cbn; [done|]. by rewrite bool_decide_true. Qed.

Lemma after_some p q r : after p q = Some r -> q = p ++ r.
Proof.
  revert q. induction p as [|x p IH]; intros q H; cbn in H; [by injection H as ->|].
  destruct q as [|y q]; [done|]. destruct (bool_decide_reflect (x = y)) as [<-|]; [|done]. cbn. by rewrite (IH _ H).
Qed.

Lemma after_self p : after p p = Some [].
Proof. rewrite <- (app_nil_r p) at 2. apply after_app. Qed.

(** A healthy disk: every call to come succeeds where it can. *)
Definition healthy (d : Disk) : Prop := Forall (fun f => f = Works) d.(fates).

Lemma fs_call_healthy {A} (works : tree -> result IoErrorKind A * tree) torn d :
  healthy d ->
  (fs_call works torn d).1 = (works d.(nodes)).1
  /\ (fs_call works torn d).2.(nodes) = (works d.(nodes)).2
  /\ healthy (fs_call works torn d).2.
Proof.
  unfold fs_call, healthy. intros Hd. destruct (fates d) as [|f fs]; cbn.
  - destruct (works (nodes d)); cbn. done.
  - apply Forall_cons in Hd as [-> Hd]. destruct (works (nodes d)); cbn. done.
Qed.

Example splice_example :
  splice (to_be 3 0x010203) 1 (to_be 1 9) = to_be 3 0x010903
  /\ splice (to_be 1 7) 3 (to_be 1 9) = to_be 4 0x07000009
  /\ splice (to_be 3 0x010203) 3 [] = to_be 3 0x010203.
Proof. split_and!; vm_compute; reflexivity. Qed.

(** ** Frames

    [frame P m]: whatever happens, [m] changes no file but those [P] holds of. *)

Definition frame {E A} (P : list str -> Prop) (m : act Disk E A) : Prop :=
  forall d r d', m d = (r, d') -> forall q, ~ P q -> file_at d'.(nodes) q = file_at d.(nodes) q.

Section Frame.
Context {E : Type} (P : list str -> Prop).

Lemma frame_ret {A} (a : A) : frame (E := E) P (mret a).
Proof. intros d r d' [= <- <-]. done. Qed.

Lemma frame_result {A} (r : result E A) : frame P (from_result r).
Proof. intros d r' d' [= <- <-]. done. Qed.

Lemma frame_bind {A B} (m : act Disk E A) (f : A -> act Disk E B) :
  frame P m -> (forall a, frame P (f a)) -> frame P (mbind f m).
Proof.
  intros Hm Hf d r d' H q Hq. unfold mbind, act_bind in H. destruct (m d) as [[a|e] d1] eqn:E1.
  - rewrite (Hf _ _ _ _ H _ Hq). by apply (Hm _ _ _ E1).
  - injection H as <- <-. by apply (Hm _ _ _ E1).
Qed.

Lemma frame_each {A} (f : A -> act Disk E unit) l : (forall x, frame P (f x)) -> frame P (each f l).
Proof. intros Hf. induction l; cbn [each]; [apply frame_ret|by apply frame_bind]. Qed.

Lemma frame_map_err {F A} (g : F -> E) (m : act Disk F A) : frame P m -> frame P (map_err g m).
Proof.
  intros Hm d r d' H. unfold map_err in H. destruct (m d) as [[a|e] d1] eqn:E1; injection H as <- <-; by apply (Hm _ _ _ E1).
Qed.

(** A call, given what it does to files when it works and when it is torn. *)
Lemma frame_call {A} (works : tree -> result IoErrorKind A * tree) torn :
  (forall m q, ~ P q -> file_at (works m).2 q = file_at m q) ->
  (forall n m q, ~ P q -> file_at (torn n m) q = file_at m q) ->
  frame P (fs_call works torn).
Proof.
  intros Hw Ht d r d' H q Hq. unfold fs_call in H. destruct (default Works _).
  - specialize (Hw d.(nodes) q Hq). destruct (works (nodes d)) as [r1 m1]. by injection H as <- <-.
  - by injection H as <- <-.
  - injection H as <- <-. cbn. by apply Ht.
Qed.

Lemma frame_put_file p b m q : P p -> ~ P q -> file_at (put_file p b m).2 q = file_at m q.
Proof.
  intros Hp Hq. destruct (put_file p b m) as [[[]|e] m'] eqn:E1; cbn.
  - apply put_file_ok in E1 as (_ & _ & ->). rewrite bool_decide_false; [done|]. by intros ->.
  - by apply put_file_err in E1 as ->.
Qed.

Lemma frame_change_file p f m q : P p -> ~ P q -> file_at (change_file p f m).2 q = file_at m q.
Proof.
  intros Hp Hq. destruct (change_file p f m) as [[[]|e] m'] eqn:E1; cbn.
  - apply change_file_ok in E1 as (b & _ & _ & ->). rewrite bool_decide_false; [done|]. by intros ->.
  - by apply change_file_err in E1 as ->.
Qed.

End Frame.

Section FrameCalls.
Context (P : list str -> Prop).

Lemma frame_metadata p : frame P (metadata p).
Proof. by apply frame_call. Qed.

Lemma frame_read p : frame P (read p).
Proof. by apply frame_call. Qed.

Lemma frame_read_dir p : frame P (read_dir p).
Proof. apply frame_call; [|done]. intros m q _. by destruct (node_at m p) as [[]|]. Qed.

Lemma frame_create_dir_all p : frame P (create_dir_all p).
Proof. apply frame_call; [|done]. intros m q _. destruct (mkdirs [] p m) as [r m'] eqn:E1. by apply (mkdirs_files _ _ _ _ _ E1). Qed.

Lemma frame_write p b : P p -> frame P (write p b).
Proof. intros Hp. apply frame_call; intros; by apply (frame_put_file P). Qed.

Lemma frame_create p : P p -> frame P (create p).
Proof. intros Hp. apply frame_call; [|done]. intros. by apply (frame_put_file P). Qed.

Lemma frame_append p b : P p -> frame P (append p b).
Proof. intros Hp. apply frame_call; intros; by apply (frame_change_file P). Qed.

Lemma frame_write_at p off b : P p -> frame P (write_at p off b).
Proof. intros Hp. apply frame_call; intros; by apply (frame_change_file P). Qed.

Lemma frame_remove_file p : P p -> frame P (remove_file p).
Proof.
  intros Hp. apply frame_call; [|done]. intros m q Hq. destruct (node_at m p) as [[]|]; cbn; try done.
  rewrite file_at_delete, bool_decide_false; [done|]. by intros ->.
Qed.

End FrameCalls.

Create HintDb fs.
#[export] Hint Resolve frame_ret frame_result frame_bind frame_each frame_map_err frame_metadata frame_read
  frame_read_dir frame_create_dir_all frame_write frame_create frame_append frame_write_at frame_remove_file : fs.

Lemma frame_quietly {E A} (P : list str -> Prop) (m : act Disk E A) d q :
  frame P m -> ~ P q -> file_at (quietly m d).(nodes) q = file_at d.(nodes) q.
Proof. intros Hm Hq. unfold quietly. destruct (m d) as [r d'] eqn:E1. cbn. by apply (Hm _ _ _ E1). Qed.

(** What a successful call gives. *)
Lemma write_ok p b d d' : write p b d = (Ok tt, d') ->
  p <> [] /\ forall q, file_at d'.(nodes) q = if bool_decide (q = p) then Some b else file_at d.(nodes) q.
Proof. intros H. apply fs_call_ok in H. apply put_file_ok in H as (? & _ & ?). done. Qed.

Lemma create_ok p d d' : create p d = (Ok tt, d') ->
  p <> [] /\ forall q, file_at d'.(nodes) q = if bool_decide (q = p) then Some [] else file_at d.(nodes) q.
Proof. intros H. apply fs_call_ok in H. apply put_file_ok in H as (? & _ & ?). done. Qed.

Lemma append_ok p b d d' : append p b d = (Ok tt, d') ->
  exists old, file_at d.(nodes) p = Some old
    /\ forall q, file_at d'.(nodes) q = if bool_decide (q = p) then Some (old ++ b) else file_at d.(nodes) q.
Proof. intros H. apply fs_call_ok in H. apply change_file_ok in H as (old & ? & _ & ?). by exists old. Qed.

Lemma write_at_ok p off b d d' : write_at p off b d = (Ok tt, d') ->
  exists old, file_at d.(nodes) p = Some old
    /\ forall q, file_at d'.(nodes) q = if bool_decide (q = p) then Some (splice old off b) else file_at d.(nodes) q.
Proof. intros H. apply fs_call_ok in H. apply change_file_ok in H as (old & ? & _ & ?). by exists old. Qed.

Lemma read_ok p d b d' : read p d = (Ok b, d') -> file_at d.(nodes) p = Some b /\ d'.(nodes) = d.(nodes).
Proof. intros H. apply fs_call_ok in H. injection H as H <-. split; [by apply get_file_ok|done]. Qed.

Lemma remove_file_ok p d d' : remove_file p d = (Ok tt, d') ->
  (exists b, file_at d.(nodes) p = Some b)
  /\ forall q, file_at d'.(nodes) q = if bool_decide (q = p) then None else file_at d.(nodes) q.
Proof.
  intros H. apply fs_call_ok in H. destruct (node_at (nodes d) p) as [[b|]|] eqn:E1; try done. injection H as <-. split.
  - exists b. unfold file_at. by rewrite E1.
  - apply file_at_delete.
Qed.

(** Renaming a file. *)
Lemma rename_file_ok p q d d' b : rename p q d = (Ok tt, d') -> file_at d.(nodes) p = Some b -> p <> q ->
  forall x, file_at d'.(nodes) x = if bool_decide (x = q) then Some b else if bool_decide (x = p) then None else file_at d.(nodes) x.
Proof.
  intros H Hb Hne x. apply fs_call_ok in H. unfold rename_node, file_at in *. destruct (node_at (nodes d) p) as [[b'|]|] eqn:E1; try done.
  injection Hb as ->. destruct (in_dir (nodes d) q) as [[]|] eqn:E2; [|done].
  assert (d'.(nodes) = <[q := File b]> (delete p d.(nodes))) as -> by (destruct (nodes d !! q) as [[]|]; congruence).
  assert (Hq : q <> []) by (intros ->; done).
  destruct x as [|n x]; [|cbn [node_at]].
  { rewrite (bool_decide_false ([] = q)), (bool_decide_false ([] = p)); [done|by intros <-|congruence]. }
  destruct (bool_decide_reflect (n :: x = q)) as [<-|]; [by rewrite lookup_insert_eq|]. rewrite lookup_insert_ne by done.
  destruct (bool_decide_reflect (n :: x = p)) as [<-|]; [by rewrite lookup_delete_eq|]. by rewrite lookup_delete_ne.
Qed.

Lemma rename_err p q d e d' : rename p q d = (Err e, d') -> d'.(nodes) = d.(nodes).
Proof.
  intros H. apply fs_call_err in H as [H|[H|[n H]]]; [|done..]. unfold rename_node in H.
  repeat match goal with
         | H : context [match ?x with _ => _ end] |- _ => destruct x eqn:?; try congruence
         end.
Qed.

(** ** A healthy disk *)

Lemma call_healthy {A} (works : tree -> result IoErrorKind A * tree) torn d r m :
  healthy d -> works d.(nodes) = (r, m) ->
  exists d', fs_call works torn d = (r, d') /\ d'.(nodes) = m /\ healthy d'.
Proof.
  intros Hd Hw. destruct (fs_call_healthy works torn d Hd) as (H1 & H2 & H3). rewrite Hw in H1, H2.
  destruct (fs_call works torn d) as [r' d'] eqn:E1. cbn in *. subst r'. by exists d'.
Qed.

Lemma path_exists_healthy p d : healthy d ->
  exists d', path_exists p d = (bool_decide (is_Some (node_at d.(nodes) p)), d') /\ d'.(nodes) = d.(nodes) /\ healthy d'.
Proof.
  intros Hd. unfold path_exists, metadata.
  destruct (call_healthy (fun m => (ok_or (absent m p) (node_at m p), m)) no_tear d _ _ Hd eq_refl) as (d' & -> & Hn & Hh).
  exists d'. split_and!; try done. by destruct (node_at (nodes d) p).
Qed.

Lemma read_healthy p d b : healthy d -> file_at d.(nodes) p = Some b ->
  exists d', read p d = (Ok b, d') /\ d'.(nodes) = d.(nodes) /\ healthy d'.
Proof.
  intros Hd Hb. apply (call_healthy (fun m => (get_file p m, m)) no_tear d); [done|]. by apply get_file_ok in Hb as ->.
Qed.

Lemma file_at_exists m p b : file_at m p = Some b -> is_Some (node_at m p).
Proof. unfold file_at. destruct (node_at m p); [eauto|done]. Qed.

(** Making directories changes nothing but the names on the way. *)
Lemma mkdirs_other rest : forall pre m r m', mkdirs pre rest m = (r, m') ->
  forall q, ~ q `prefix_of` pre ++ rest -> m' !! q = m !! q.
Proof.
  induction rest as [|n rest IH]; intros pre m r m' H q Hq; cbn [mkdirs] in H; [by injection H as <- <-|].
  assert (Hne : pre ++ [n] <> q) by (intros <-; apply Hq; exists rest; by rewrite <- app_assoc).
  destruct (m !! (pre ++ [n])) as [[b|]|]; [by injection H as <- <-| |];
    rewrite (IH _ _ _ _ H), lookup_insert_ne; try done; by rewrite <- app_assoc.
Qed.

(** What a range of calls leaves of the nodes: [keeps P m] is [frame] for files and directories. *)
Definition keeps {E A} (P : list str -> Prop) (m : act Disk E A) : Prop :=
  forall d r d', m d = (r, d') -> forall q, ~ P q -> node_at d'.(nodes) q = node_at d.(nodes) q.

Lemma keeps_create_dir_all p : keeps (fun q => q `prefix_of` p) (create_dir_all p).
Proof.
  intros d r d' H q Hq. unfold create_dir_all, fs_call in H. destruct q as [|x q]; [done|]. cbn [node_at].
  destruct (default Works _); [|by injection H as <- <-..]. destruct (mkdirs [] p (nodes d)) as [r1 m1] eqn:E1.
  injection H as <- <-. by apply (mkdirs_other _ _ _ _ _ E1).
Qed.

Lemma keeps_write p b : keeps (fun q => q = p) (write p b).
Proof.
  intros d r d' H q Hq. destruct q as [|x q]; [done|]. cbn [node_at]. unfold write, fs_call in H.
  assert (Hp : forall c m, (put_file p c m).2 !! (x :: q) = m !! (x :: q)).
  { intros c m. unfold put_file. destruct (in_dir m p); [|done]. destruct (m !! p) as [[]|]; cbn; try done; by rewrite lookup_insert_ne. }
  destruct (default Works _).
  - specialize (Hp b (nodes d)). destruct (put_file p b (nodes d)) as [r1 m1]. by injection H as <- <-.
  - by injection H as <- <-.
  - injection H as <- <-. cbn. apply Hp.
Qed.

Lemma keeps_write_at p off b : keeps (fun q => q = p) (write_at p off b).
Proof.
  intros d r d' H q Hq. destruct q as [|x q]; [done|]. cbn [node_at]. unfold write_at, fs_call in H.
  assert (Hp : forall f m, (change_file p f m).2 !! (x :: q) = m !! (x :: q)).
  { intros f m. unfold change_file. destruct (get_file p m); cbn; [by rewrite lookup_insert_ne|done]. }
  destruct (default Works _).
  - specialize (Hp (fun b0 => splice b0 off b) (nodes d)). destruct (change_file p _ (nodes d)) as [r1 m1]. by injection H as <- <-.
  - by injection H as <- <-.
  - injection H as <- <-. cbn. apply Hp.
Qed.

Lemma file_at_node m m' p : node_at m' p = node_at m p -> file_at m' p = file_at m p.
Proof. unfold file_at. by intros ->. Qed.

(** Writing all of a short file, or from its start, is a splice. *)
Lemma splice_all old data : (length old <= length data)%nat -> splice old 0 data = data.
Proof.
  intros Hl. destruct data as [|x data]; [destruct old; [done|cbn in Hl; lia]|]. unfold splice. rewrite take_0, Nat.add_0_l, drop_ge by done.
  by rewrite app_nil_r.
Qed.
