(* ===== verification/Upload.v ===== *)
(** * Uploads

    [runesh-core/src/upload.rs]: saving a multipart field to disk.  The bytes go to a
    temporary sibling, are checked against the signature of their extension before and
    after they are written, and are renamed into place.  [save_upload] is the whole
    handler on a disk whose calls may fail; the stream is the list of what it yields.  The
    theorems state that a reader of the directory sees nothing of an upload until it is
    complete and checked, and what is left behind when it fails. *)
From S2P Require Import Prelude Str Path Fs.

#[local] Open Scope Z_scope.

Inductive AppError : Type :=
  | NotFound (msg : str)
  | Unauthorized
  | Forbidden (msg : str)
  | BadRequest (msg : str)
  | Conflict (msg : str)
  | RateLimited
  | Internal (msg : str).

Definition bytes_of (l : list Z) : list byte := map z2b l.

Definition MAGIC_BYTES : list (str * list byte) :=
  [ (lit "jpg", bytes_of [0xFF; 0xD8; 0xFF]);
    (lit "jpeg", bytes_of [0xFF; 0xD8; 0xFF]);
    (lit "png", bytes_of [0x89; 0x50; 0x4E; 0x47; 0x0D; 0x0A; 0x1A; 0x0A]);
    (lit "gif", bytes_of [0x47; 0x49; 0x46; 0x38]);
    (lit "webp", bytes_of [0x52; 0x49; 0x46; 0x46]);
    (lit "pdf", bytes_of [0x25; 0x50; 0x44; 0x46]);
    (lit "zip", bytes_of [0x50; 0x4B; 0x03; 0x04]) ].

Definition SAFE_UPLOAD_EXTENSIONS : list str :=
  map lit ["jpg"; "jpeg"; "png"; "gif"; "webp"; "pdf"; "txt"; "md"; "csv"; "json"; "mp3"; "mp4"; "webm";
           "ogg"; "wav"; "zip"]%string.

Definition validate_magic_bytes (data : list byte) (extension : str) : result AppError unit :=
  let ext := to_ascii_lowercase extension in
  let expected := map snd (filter (fun em => em.1 = ext) MAGIC_BYTES) in
  if bool_decide (expected = []) then Ok tt
  else if existsb (fun magic => (length magic <=? length data)%nat && bool_decide (take (length magic) data = magic)) expected
  then Ok tt
  else Err (BadRequest (lit "File content does not match ." ++ ext ++ lit " format (magic bytes mismatch)")).

Record UploadedFile := {
  filename : str;
  content_type : str;
  size : Z;
  storage_path : list str;
  storage_key : str
}.

(** The field of the form: its headers, and what its stream yields until it ends. *)
Inductive chunk_event : Type := Chunk (data : list byte) | StreamError (e : str).
Record Field := {
  field_file_name : option str;
  field_content_type : option str;
  stream : list chunk_event
}.

Definition MAGIC_BUFFER : nat := 512.

Definition read_failed (e : str) : AppError := BadRequest (lit "Failed to read upload: " ++ e).
Definition too_large (max_size : Z) : AppError :=
  BadRequest (lit "File too large: exceeds max " ++ show_uint max_size ++ lit " bytes").

Definition blen (b : list byte) : Z := Z.of_nat (length b).

(** The first loop: the preamble, what is left of the chunk that filled it, the size so
    far and the rest of the stream. *)
Fixpoint fill_preamble (max_size : Z) (evs : list chunk_event) (preamble : list byte) (trailing_chunks : list (list byte))
    (total_size : Z) : result AppError (list byte * list (list byte) * Z * list chunk_event) :=
  if (length preamble <? MAGIC_BUFFER)%nat then
    match evs with
    | [] => Ok (preamble, trailing_chunks, total_size, [])
    | StreamError e :: _ => Err (read_failed e)
    | Chunk chunk :: evs' =>
        let total_size := wadd 64 total_size (blen chunk) in
        if total_size >? max_size then Err (too_large max_size)
        else
          let room := (MAGIC_BUFFER - length preamble)%nat in
          if (length chunk <=? room)%nat then fill_preamble max_size evs' (preamble ++ chunk) trailing_chunks total_size
          else fill_preamble max_size evs' (preamble ++ take room chunk) (trailing_chunks ++ [drop room chunk]) total_size
    end
  else Ok (preamble, trailing_chunks, total_size, evs).

(** [[T]::join] of the standard library. *)
Fixpoint join_str (sep : str) (l : list str) : str :=
  match l with
  | [] => []
  | [x] => x
  | x :: r => x ++ sep ++ join_str sep r
  end.

Section SaveUpload.
(** The display of an I/O error. *)
Context (show_io : IoErrorKind -> str).

Definition internal (what : string) (e : IoErrorKind) : AppError := Internal (lit what ++ lit ": " ++ show_io e).

(** The second loop: the remainder of the stream, appended to the temporary file. *)
Fixpoint drain_stream (max_size : Z) (temp_path : list str) (evs : list chunk_event) (total_size : Z) : act Disk AppError Z :=
  match evs with
  | [] => mret total_size
  | StreamError e :: _ => from_result (Err (read_failed e))
  | Chunk chunk :: evs' =>
      let total_size := wadd 64 total_size (blen chunk) in
      if total_size >? max_size then from_result (Err (too_large max_size))
      else
        _ ← map_err (internal "Failed to write file") (append temp_path chunk);
        drain_stream max_size temp_path evs' total_size
  end.

(** [cleanup_on_err]: the temporary file is removed, whatever comes of that. *)
Definition cleaning {A} (temp_path : list str) (m : act Disk AppError A) : act Disk AppError A := fun d =>
  match m d with
  | (Ok a, d') => (Ok a, d')
  | (Err e, d') => (Err e, quietly (remove_file temp_path) d')
  end.

(** The second pass over the file on disk. *)
Definition verify_temp (temp_path : list str) (ext : str) : act Disk AppError unit :=
  _ ← cleaning temp_path (map_err (internal "Failed to reopen file") (_ ← read temp_path; mret tt));
  verify_buf ← map_err (internal "Failed to re-read file for validation") (read temp_path);
  cleaning temp_path (from_result (validate_magic_bytes (take MAGIC_BUFFER verify_buf) ext)).

Definition flush : io unit := fs_call (fun m => (Ok tt, m)) no_tear.

(** The temporary file from the preamble to its last byte. *)
Definition write_temp (max_size : Z) (temp_path : list str) (preamble : list byte) (trailing_chunks : list (list byte))
    (evs : list chunk_event) (total_size : Z) : act Disk AppError Z :=
  _ ← map_err (internal "Failed to write file") (append temp_path preamble);
  _ ← each (fun chunk => map_err (internal "Failed to write file") (append temp_path chunk)) trailing_chunks;
  total_size ← drain_stream max_size temp_path evs total_size;
  _ ← map_err (internal "Failed to flush file") flush;
  mret total_size.

Definition needs_magic_check (ext : str) : bool := negb (bool_decide (ext = [])).

(** From the temporary file, just created, to the final one. *)
Definition fill_and_commit (max_size : Z) (temp_path storage_path : list str) (ext : str) (preamble : list byte)
    (trailing_chunks : list (list byte)) (evs : list chunk_event) (total_size : Z) : act Disk AppError Z :=
  total_size ← cleaning temp_path (write_temp max_size temp_path preamble trailing_chunks evs total_size);
  _ ← (if needs_magic_check ext then verify_temp temp_path ext else mret tt);
  _ ← cleaning temp_path (map_err (internal "Failed to commit upload") (rename temp_path storage_path));
  mret total_size.

Definition upload_ext (field : Field) : str :=
  default [] (extension (components (default (lit "upload") field.(field_file_name)))).
Definition key_of (new_v4 : str * str) (ext : str) : str :=
  if bool_decide (ext = []) then new_v4.1 else new_v4.1 ++ [c_dot] ++ to_ascii_lowercase ext.
Definition temp_of (new_v4 : str * str) (storage_dir : list str) (storage_key : str) : list str :=
  storage_dir ++ [lit ".tmp-" ++ new_v4.2 ++ [c_minus] ++ storage_key].

Definition ext_allowed (allowed_extensions : option (list str)) (ext : str) : bool :=
  match allowed_extensions with
  | Some allowed => negb (bool_decide (ext = [])) && existsb (fun a => eq_ignore_ascii_case a ext) allowed
  | None => true
  end.

(** [new_v4] gives the identifiers of the key and of the temporary file. *)
Definition save_upload (new_v4 : str * str) (field : Field) (storage_dir : list str) (max_size : Z)
    (allowed_extensions : option (list str)) : act Disk AppError UploadedFile :=
  let filename := default (lit "upload") field.(field_file_name) in
  let content_type := default (lit "application/octet-stream") field.(field_content_type) in
  let ext := upload_ext field in
  if negb (ext_allowed allowed_extensions ext) then
    from_result (Err (BadRequest (lit "File must have an allowed extension. Allowed: " ++ join_str (lit ", ") (default [] allowed_extensions))))
  else
    let storage_key := key_of new_v4 ext in
    let storage_path := storage_dir ++ [storage_key] in
    let temp_path := temp_of new_v4 storage_dir storage_key in
    _ ← map_err (internal "Failed to create storage dir") (create_dir_all storage_dir);
    '(preamble, trailing_chunks, total_size, evs) ← from_result (fill_preamble max_size field.(stream) [] [] 0);
    _ ← (if needs_magic_check ext then from_result (validate_magic_bytes preamble ext) else mret tt);
    _ ← map_err (internal "Failed to create file") (create temp_path);
    total_size ← fill_and_commit max_size temp_path storage_path ext preamble trailing_chunks evs total_size;
    mret {| filename := filename; content_type := content_type; size := total_size;
            storage_path := storage_path; storage_key := storage_key |}.

End SaveUpload.

(** ** Signatures *)

(** The content agrees with every known signature of the extension. *)
Definition has_magic (data : list byte) (ext : str) : Prop :=
  (forall e m, (e, m) ∈ MAGIC_BYTES -> e <> to_ascii_lowercase ext)
  \/ exists m, (to_ascii_lowercase ext, m) ∈ MAGIC_BYTES /\ m `prefix_of` data.

Lemma take_prefix {A} `{EqDecision A} (m d : list A) :
  (length m <=? length d)%nat && bool_decide (take (length m) d = m) = true <-> m `prefix_of` d.
Proof.
  rewrite andb_true_iff, Nat.leb_le, bool_decide_eq_true. split.
  - intros [_ H]. exists (drop (length m) d). by rewrite <- H at 1; rewrite take_drop.
  - intros [r ->]. rewrite length_app, take_app_length. split; [lia|done].
Qed.

Lemma validate_magic_spec data ext : validate_magic_bytes data ext = Ok tt <-> has_magic data ext.
Proof.
  unfold validate_magic_bytes, has_magic. set (x := to_ascii_lowercase ext).
  destruct (bool_decide_reflect (map snd (filter (fun em => em.1 = x) MAGIC_BYTES) = [])) as [Hn|Hn].
  - split; [|done]. intros _. left. intros e m Hin He. apply map_eq_nil in Hn. rewrite filter_nil_iff in Hn. by apply (Hn _ Hin).
  - destruct (existsb _ _) eqn:E.
    + split; [|done]. intros _. right. apply existsb_elem in E as (m & Hm & Hp). apply take_prefix in Hp.
      apply list_elem_of_fmap in Hm as ([e m'] & -> & Hf). apply list_elem_of_filter in Hf as [<- Hf]. by exists m'.
    + split; [done|]. intros [H|(m & Hm & Hp)].
      * destruct Hn. rewrite (proj2 (filter_nil_iff (fun em => em.1 = x) MAGIC_BYTES)); [done|].
        intros [e m] Hin He. by apply (H _ _ Hin).
      * rewrite existsb_elem_false in E. apply take_prefix in Hp. rewrite (E m) in Hp; [done|].
        apply list_elem_of_fmap. exists (x, m). split; [done|]. apply list_elem_of_filter. done.
Qed.

Lemma has_magic_take n data ext : has_magic (take n data) ext -> has_magic data ext.
Proof.
  intros [H|(m & Hm & Hp)]; [by left|right]. exists m. split; [done|].
  etrans; [done|]. apply prefix_take.
Qed.

(** ** The stream *)

Definition data_of (ev : chunk_event) : option (list byte) := match ev with Chunk c => Some c | StreamError _ => None end.

(** What a stream without an error carries. *)
Definition carried (evs : list chunk_event) : option (list byte) := cs ← mapM data_of evs; Some (concat cs).

Lemma carried_cons c evs b : carried (Chunk c :: evs) = Some b <-> exists r, carried evs = Some r /\ b = c ++ r.
Proof.
  unfold carried. cbn. destruct (mapM data_of evs) as [cs|]; cbn; [|naive_solver]. split.
  - intros [= <-]. eauto.
  - intros (r & [= <-] & ->). done.
Qed.

Lemma stopped (pre : list byte) tr tot evs b max_size :
  carried evs = Some b ->
  exists a, carried evs = Some (a ++ b) /\ pre ++ concat tr = pre ++ concat tr ++ a
    /\ (tot + blen (a ++ b) < 2 ^ 64 -> tot = tot + blen a) /\ (tot = tot \/ tot <= max_size).
Proof. exists []. rewrite !app_nil_r. unfold blen. cbn [length]. split_and!; try done; [lia|by left]. Qed.

Lemma fill_preamble_ok max_size evs : forall pre tr tot pre' tr' tot' evs' b,
  fill_preamble max_size evs pre tr tot = Ok (pre', tr', tot', evs') ->
  (tr = [] \/ (MAGIC_BUFFER <= length pre)%nat) -> 0 <= tot ->
  carried evs' = Some b ->
  exists a, carried evs = Some (a ++ b) /\ pre' ++ concat tr' = pre ++ concat tr ++ a
    /\ (tot + blen (a ++ b) < 2 ^ 64 -> tot' = tot + blen a)
    /\ (tot' = tot \/ tot' <= max_size).
Proof.
  induction evs as [|[c|e] evs IH]; intros pre tr tot pre' tr' tot' evs' b H Htr Ht Hb; cbn [fill_preamble] in H.
  1, 3: by destruct (length pre <? MAGIC_BUFFER)%nat; try done; injection H as <- <- <- <-; apply stopped.
  destruct (length pre <? MAGIC_BUFFER)%nat eqn:E; [|by injection H as <- <- <- <-; apply stopped].
  apply Nat.ltb_lt in E. destruct Htr as [-> |?]; [|lia].
  destruct (wadd 64 tot (blen c) >? max_size) eqn:Em; [done|].
  assert (Hmax : wadd 64 tot (blen c) <= max_size) by lia.
  assert (Hw : 0 <= wadd 64 tot (blen c)) by (apply wrap_range; lia).
  assert (Hc : 0 <= blen c) by (unfold blen; lia).
  cbn [concat app].
  assert (Hgo : forall pre1 tr1, fill_preamble max_size evs pre1 tr1 (wadd 64 tot (blen c)) = Ok (pre', tr', tot', evs') ->
    pre1 ++ concat tr1 = pre ++ c -> (tr1 = [] \/ (MAGIC_BUFFER <= length pre1)%nat) ->
    exists a, carried (Chunk c :: evs) = Some (a ++ b) /\ pre' ++ concat tr' = pre ++ a
      /\ (tot + blen (a ++ b) < 2 ^ 64 -> tot' = tot + blen a) /\ (tot' = tot \/ tot' <= max_size)).
  { intros pre1 tr1 H1 Heq Htr1. destruct (IH _ _ _ _ _ _ _ _ H1 Htr1 Hw Hb) as (a & Ha & Hp & Hs & Hm).
    exists (c ++ a). split_and!.
    - apply carried_cons. exists (a ++ b). by rewrite app_assoc.
    - rewrite Hp, app_assoc, Heq. by rewrite app_assoc.
    - unfold blen in *. rewrite !length_app in *. intros Hlt. rewrite wadd_small in Hs by lia. rewrite Hs by lia. lia.
    - right. lia. }
  destruct (length c <=? MAGIC_BUFFER - length pre)%nat eqn:Er.
  - apply (Hgo _ _ H); [by rewrite app_nil_r|by left].
  - apply Nat.leb_gt in Er. apply (Hgo _ _ H).
    + cbn [concat app]. by rewrite app_nil_r, <- app_assoc, take_drop.
    + right. rewrite length_app, length_take. lia.
Qed.

Lemma fill_preamble_nonneg max_size evs : forall pre tr tot pre' tr' tot' evs',
  fill_preamble max_size evs pre tr tot = Ok (pre', tr', tot', evs') -> 0 <= tot -> 0 <= tot'.
Proof.
  induction evs as [|[c|e] evs IH]; intros pre tr tot pre' tr' tot' evs' H Ht; cbn [fill_preamble] in H;
    destruct (length pre <? MAGIC_BUFFER)%nat; try done; try (by injection H as <- <- <- <-).
  assert (Hw : 0 <= wadd 64 tot (blen c)) by (apply wrap_range; lia).
  destruct (_ >? _); [done|]. destruct (_ <=? _)%nat; by eapply IH.
Qed.

(** ** The temporary file *)

Section Saved.
Context (show_io : IoErrorKind -> str).

Lemma frame_cleaning {A} (P : list str -> Prop) temp (m : act Disk AppError A) :
  P temp -> frame P m -> frame P (cleaning temp m).
Proof.
  intros Hp Hm d r d' H q Hq. unfold cleaning in H. destruct (m d) as [[a|e] d1] eqn:E1; injection H as <- <-.
  - by apply (Hm _ _ _ E1).
  - rewrite (frame_quietly P) by auto with fs. by apply (Hm _ _ _ E1).
Qed.
#[local] Hint Resolve frame_cleaning : fs.

Lemma frame_flush (P : list str -> Prop) : frame P flush.
Proof. by apply frame_call. Qed.
#[local] Hint Resolve frame_flush : fs.

Lemma frame_drain (P : list str -> Prop) max_size temp evs : P temp -> forall tot,
  frame P (drain_stream show_io max_size temp evs tot).
Proof.
  intros Hp. induction evs as [|[c|e] evs IH]; intros tot; cbn [drain_stream]; auto with fs.
  destruct (_ >? _); auto 6 with fs.
Qed.
#[local] Hint Resolve frame_drain : fs.

Lemma frame_verify (P : list str -> Prop) temp ext : P temp -> frame P (verify_temp show_io temp ext).
Proof. intros Hp. unfold verify_temp. auto 10 with fs. Qed.
#[local] Hint Resolve frame_verify : fs.

Lemma frame_write_temp (P : list str -> Prop) max_size temp pre tr evs tot :
  P temp -> frame P (write_temp show_io max_size temp pre tr evs tot).
Proof. intros Hp. unfold write_temp. auto 10 with fs. Qed.
#[local] Hint Resolve frame_write_temp : fs.

(** What a successful cleaning step did. *)
Lemma cleaning_ok {A} temp (m : act Disk AppError A) d a d' : cleaning temp m d = (Ok a, d') <-> m d = (Ok a, d').
Proof. unfold cleaning. destruct (m d) as [[] ?]; naive_solver. Qed.

Lemma each_append_ok f temp cs : forall d d' b,
  each (fun chunk => map_err f (append temp chunk) : act Disk AppError unit) cs d = (Ok tt, d') ->
  file_at d.(nodes) temp = Some b -> file_at d'.(nodes) temp = Some (b ++ concat cs).
Proof.
  induction cs as [|c cs IH]; intros d d' b H Hb; cbn [each] in H.
  - injection H as <-. by rewrite app_nil_r.
  - apply act_bind_ok in H as ([] & d1 & H1 & H). apply act_map_err_ok, append_ok in H1 as (old & Hold & H1).
    cbn [concat]. rewrite app_assoc. apply (IH _ _ _ H). rewrite H1, bool_decide_true by done. congruence.
Qed.

Lemma drain_ok max_size temp evs : forall tot d tot' d' b,
  drain_stream show_io max_size temp evs tot d = (Ok tot', d') -> 0 <= tot ->
  file_at d.(nodes) temp = Some b ->
  exists r, carried evs = Some r /\ file_at d'.(nodes) temp = Some (b ++ r)
    /\ (tot + blen r < 2 ^ 64 -> tot' = tot + blen r) /\ (tot' = tot \/ tot' <= max_size).
Proof.
  induction evs as [|[c|e] evs IH]; intros tot d tot' d' b H Ht Hb; cbn [drain_stream] in H; [|  |done].
  - injection H as <- <-. exists []. rewrite app_nil_r. unfold blen. cbn. split_and!; try done; [lia|by left].
  - destruct (wadd 64 tot (blen c) >? max_size) eqn:Em; [done|].
    apply act_bind_ok in H as ([] & d1 & H1 & H). apply act_map_err_ok, append_ok in H1 as (old & Hold & H1).
    assert (Hw : 0 <= wadd 64 tot (blen c)) by (apply wrap_range; lia).
    assert (Hc : file_at d1.(nodes) temp = Some (b ++ c)) by (rewrite H1, bool_decide_true by done; congruence).
    destruct (IH _ _ _ _ _ H Hw Hc) as (r & Hr & Hf & Hs & Hm). exists (c ++ r). split_and!.
    + apply carried_cons. eauto.
    + by rewrite app_assoc.
    + unfold blen in *. rewrite !length_app in *. intros. rewrite wadd_small in Hs by lia. rewrite Hs; lia.
    + right. lia.
Qed.

(** Writing the temporary file from the preamble on. *)
Lemma written_ok max_size temp pre tr evs tot d tot' d' :
  write_temp show_io max_size temp pre tr evs tot d = (Ok tot', d') -> 0 <= tot ->
  file_at d.(nodes) temp = Some [] ->
  exists r, carried evs = Some r /\ file_at d'.(nodes) temp = Some ((pre ++ concat tr) ++ r)
    /\ (tot + blen r < 2 ^ 64 -> tot' = tot + blen r) /\ (tot' = tot \/ tot' <= max_size).
Proof.
  intros H Ht H0. unfold write_temp in H.
  apply act_bind_ok in H as ([] & d1 & H1 & H). apply act_map_err_ok, append_ok in H1 as (old & Hold & H1).
  apply act_bind_ok in H as ([] & d2 & H2 & H). apply (each_append_ok _ _ _ _ _ pre) in H2.
  2: { rewrite H1, bool_decide_true by done. rewrite H0 in Hold. by injection Hold as <-. }
  apply act_bind_ok in H as (t3 & d3 & H3 & H). destruct (drain_ok _ _ _ _ _ _ _ _ H3 Ht H2) as (r & Hr1 & Hr2 & Hr3 & Hr4).
  apply act_bind_ok in H as ([] & d4 & H4 & H). injection H as -> ->. apply act_map_err_ok, fs_call_ok in H4. injection H4 as Hn4.
  exists r. by rewrite <- Hn4.
Qed.

Lemma verify_ok temp ext d d' b : verify_temp show_io temp ext d = (Ok tt, d') -> file_at d.(nodes) temp = Some b ->
  d'.(nodes) = d.(nodes) /\ has_magic b ext.
Proof.
  intros H Hb. unfold verify_temp in H.
  apply act_bind_ok in H as ([] & d1 & H1 & H). apply cleaning_ok, act_map_err_ok, act_bind_ok in H1 as (b1 & d0 & H1 & H0).
  injection H0 as <-. apply read_ok in H1 as [_ Hn].
  apply act_bind_ok in H as (b2 & d2 & H2 & H). apply act_map_err_ok, read_ok in H2 as [Hb2 Hn2].
  apply cleaning_ok in H. injection H as Hv <-. apply validate_magic_spec, has_magic_take in Hv.
  assert (b2 = b) as -> by congruence. split; [congruence|done].
Qed.

(** The temporary file is not the final one. *)
Lemma temp_ne dir new_v4 key : temp_of new_v4 dir key <> dir ++ [key].
Proof.
  unfold temp_of. intros H. apply app_inv_head in H.
  assert (E : lit ".tmp-" ++ new_v4.2 ++ [c_minus] ++ key = key) by congruence. clear H. rename E into H.
  apply (f_equal length) in H. rewrite !length_app in H. cbn [length] in H. change (length (lit ".tmp-")) with 5%nat in H. lia.
Qed.

Lemma commit_ok max_size temp final ext pre tr evs tot d tot' d' :
  fill_and_commit show_io max_size temp final ext pre tr evs tot d = (Ok tot', d') -> 0 <= tot -> temp <> final ->
  file_at d.(nodes) temp = Some [] ->
  exists r, carried evs = Some r
    /\ (forall q, file_at d'.(nodes) q = if bool_decide (q = final) then Some ((pre ++ concat tr) ++ r)
                                       else if bool_decide (q = temp) then None else file_at d.(nodes) q)
    /\ (ext <> [] -> has_magic ((pre ++ concat tr) ++ r) ext)
    /\ (tot + blen r < 2 ^ 64 -> tot' = tot + blen r) /\ (tot' = tot \/ tot' <= max_size).
Proof.
  intros H Ht Hne H0. unfold fill_and_commit in H.
  apply act_bind_ok in H as (t & d1 & H1 & H). apply cleaning_ok in H1.
  destruct (written_ok _ _ _ _ _ _ _ _ _ H1 Ht H0) as (r & Hr & Hf & Hs & Hm). set (content := (pre ++ concat tr) ++ r) in *.
  apply act_bind_ok in H as ([] & d2 & H2 & H).
  assert (d2.(nodes) = d1.(nodes) /\ (ext <> [] -> has_magic content ext)) as [Hn Hv].
  { unfold needs_magic_check in H2. destruct (bool_decide_reflect (ext = [])) as [He|He]; cbn [negb] in H2.
    - injection H2 as <-. done.
    - destruct (verify_ok _ _ _ _ _ H2 Hf). done. }
  apply act_bind_ok in H as ([] & d3 & H3 & H). injection H as -> ->. apply cleaning_ok, act_map_err_ok in H3.
  exists r. split_and!; try done. intros q. rewrite (rename_file_ok _ _ _ _ content H3); [|by rewrite Hn|done].
  destruct (bool_decide (q = final)); [done|]. destruct (bool_decide_reflect (q = temp)); [done|]. rewrite Hn.
  by apply (frame_write_temp (fun x => x = temp) max_size temp pre tr evs tot eq_refl _ _ _ H1).
Qed.

(** The key is a single name: the extension of a client's file name brings no slash into it. *)
Lemma storage_key_good new_v4 field :
  new_v4.1 <> [] -> contains_char c_slash new_v4.1 = false -> contains_char c_dot new_v4.1 = false ->
  good_name (key_of new_v4 (upload_ext field)).
Proof.
  intros Hu Hs Hd. unfold key_of. set (name := default (lit "upload") field.(field_file_name)).
  destruct (bool_decide_reflect (upload_ext field = [])) as [|He].
  - split_and!; try done; intros Hx; rewrite Hx in Hd; done.
  - assert (Hslash : contains_char c_slash (upload_ext field) = false).
    { unfold upload_ext, extension, file_name in *. fold name in He |- *. destruct (unsnoc (components name)) as [[f []]|] eqn:E1; try done.
      apply unsnoc_some in E1. cbn in *. unfold extension_of in *.
      assert (Hg : good_name name0) by (apply (components_names name); rewrite E1; apply elem_of_app; right; by apply list_elem_of_singleton).
      destruct (rsplit_once c_dot name0) as [[a b]|] eqn:E2; [|done]. apply rsplit_once_spec in E2 as [-> _].
      destruct Hg as (_ & _ & _ & Hg). rewrite contains_char_app in Hg. apply orb_false_iff in Hg as [_ Hg].
      change (contains_char c_slash (c_dot :: b)) with ((c_dot =? c_slash) || contains_char c_slash b) in Hg.
      apply orb_false_iff in Hg as [_ Hg]. by destruct a. }
    destruct new_v4 as [u v]. cbn [fst] in *. destruct u as [|c u]; [done|].
    split_and!; try done.
    + intros Hx. apply (f_equal length) in Hx. rewrite !length_app in Hx. cbn in Hx. lia.
    + intros Hx. injection Hx as -> Hx. done.
    + rewrite !contains_char_app, (contains_char_lower c_slash) by done. by rewrite Hs, Hslash.
Qed.

(** What the files of these formats begin with.  (The signature of WebP has a second part, at
    offset 8.) *)
Definition signatures : list (str * list byte) :=
  [ (lit "jpg", bytes_of [255; 216; 255]); (lit "jpeg", bytes_of [255; 216; 255]);
    (lit "png", bytes_of (137 :: lit "PNG" ++ [13; 10; 26; 10])); (lit "gif", bytes_of (lit "GIF8"));
    (lit "pdf", bytes_of (lit "%PDF")); (lit "zip", bytes_of (lit "PK" ++ [3; 4])) ].

Lemma has_magic_signature content ext e m : has_magic content ext -> (e, m) ∈ signatures -> to_ascii_lowercase ext = e -> m `prefix_of` content.
Proof.
  intros H Hin <-. unfold has_magic in H. set (x := to_ascii_lowercase ext) in *. clearbody x.
  assert (Hall : forallb (fun em => bool_decide (em ∈ MAGIC_BYTES) && forallb (fun em' => implb (bool_decide (em'.1 = em.1)) (bool_decide (em'.2 = em.2))) MAGIC_BYTES) signatures = true)
    by (vm_compute; reflexivity).
  rewrite forallb_forall in Hall. specialize (Hall (x, m) (proj1 (list_elem_of_In _ _) Hin)). apply andb_true_iff in Hall as [H1%bool_decide_eq_true H2].
  destruct H as [H|(m' & Hm & Hp)]; [by destruct (H _ _ H1)|].
  rewrite forallb_forall in H2. specialize (H2 (x, m') (proj1 (list_elem_of_In _ _) Hm)). cbn [fst snd] in H2. rewrite bool_decide_true in H2 by done.
  cbn [implb] in H2. apply bool_decide_eq_true in H2. by subst m'.
Qed.

(** C17: For an upload that succeeds, the stream ended without an error, and the file at the
    storage path, which is the new identifier with the extension in lower case, holds exactly
    the bytes it carried; they are as many as the result says and at most [max_size]; the
    extension is one of the allowed ones, where these are given, up to the case of its letters;
    the bytes of a jpg, jpeg, png, gif, pdf or zip begin with its signature; the temporary file
    is gone and no other file has changed. *)
Theorem save_upload_ok new_v4 field dir max_size allowed d f d' :
  save_upload show_io new_v4 field dir max_size allowed d = (Ok f, d') -> 0 <= max_size ->
  exists content, carried field.(stream) = Some content
    /\ f.(storage_path) = dir ++ [f.(storage_key)]
    /\ f.(storage_key) = new_v4.1 ++ (if decide (upload_ext field = []) then [] else lit "." ++ to_ascii_lowercase (upload_ext field))
    /\ (forall q, file_at d'.(nodes) q =
         if bool_decide (q = f.(storage_path)) then Some content
         else if bool_decide (q = dir ++ [lit ".tmp-" ++ new_v4.2 ++ lit "-" ++ f.(storage_key)]) then None
         else file_at d.(nodes) q)
    /\ (forall l, allowed = Some l -> upload_ext field <> [] /\ exists a, a ∈ l /\ to_ascii_lowercase a = to_ascii_lowercase (upload_ext field))
    /\ (forall e m, (e, m) ∈ signatures -> to_ascii_lowercase (upload_ext field) = e -> m `prefix_of` content)
    /\ (blen content < 2 ^ 64 -> f.(size) = blen content /\ f.(size) <= max_size).
Proof.
  intros H Hmax. unfold save_upload in H. set (ext := upload_ext field) in *. destruct (ext_allowed allowed ext) eqn:Ea; [|done].
  cbn [negb] in H. set (key := key_of new_v4 ext) in *. set (temp := temp_of new_v4 dir key) in *.
  apply act_bind_ok in H as ([] & d1 & H1 & H). apply act_map_err_ok in H1.
  pose proof (fun q => frame_create_dir_all (fun _ => False) dir _ _ _ H1 q (fun x => x)) as F1.
  apply act_bind_ok in H as ([[[pre tr] tot] evs] & d2 & H2 & H). injection H2 as H2 <-.
  apply act_bind_ok in H as ([] & d3 & H3 & H).
  assert (d3 = d1) as -> by (destruct (needs_magic_check ext) in H3; by injection H3). clear H3.
  apply act_bind_ok in H as ([] & d4 & H4 & H). apply act_map_err_ok, create_ok in H4 as [_ F4].
  apply act_bind_ok in H as (tot' & d5 & H5 & H). injection H as <- <-. cbn [storage_path storage_key size].
  assert (Ht : 0 <= tot) by (by eapply fill_preamble_nonneg).
  destruct (commit_ok _ _ _ _ _ _ _ _ _ _ _ H5 Ht) as (r & Hr & Hf & Hv & Hs & Hm); [apply temp_ne|by rewrite F4, bool_decide_true|].
  destruct (fill_preamble_ok _ _ _ _ _ _ _ _ _ _ H2 (or_introl eq_refl) ltac:(lia) Hr) as (a & Hc & Hp & Hs1 & Hm1).
  cbn [concat app] in Hp. rewrite Hp in *.
  exists (a ++ r). split_and!; try done.
  - unfold key, key_of. destruct (decide (ext = [])) as [Hx|Hne]; [by rewrite bool_decide_true, app_nil_r|by rewrite bool_decide_false].
  - intros q. rewrite Hf. change (dir ++ [lit ".tmp-" ++ new_v4.2 ++ lit "-" ++ key]) with temp. destruct (bool_decide (q = dir ++ [key])); [done|].
    destruct (bool_decide_reflect (q = temp)); [done|]. rewrite F4, bool_decide_false by done. apply F1.
  - intros l ->. cbn [ext_allowed] in Ea. apply andb_true_iff in Ea as [Hne%negb_true_iff%bool_decide_eq_false Ex]. split; [done|].
    apply existsb_elem in Ex as (x & Hx & E). exists x. split; [done|]. unfold eq_ignore_ascii_case in E. by apply bool_decide_eq_true in E.
  - intros e m Hin E. apply (has_magic_signature _ ext e m); [|done|done]. apply Hv. intros Hx. rewrite Hx in E. subst e.
    vm_compute in Hin. by repeat (apply elem_of_cons in Hin as [Hin|Hin]; [discriminate Hin|]); apply elem_of_nil in Hin.
  - rewrite Z.add_0_l in *. unfold blen in *. rewrite length_app in *. lia.
Qed.

(** ** Failed uploads *)

(** A healthy disk stays so. *)
Definition steady {E A} (m : act Disk E A) : Prop := forall d r d', m d = (r, d') -> healthy d -> healthy d'.

Lemma steady_call {A} (works : tree -> result IoErrorKind A * tree) torn : steady (fs_call works torn).
Proof.
  intros d r d' H Hd. replace d' with (fs_call works torn d).2 by (by rewrite H). by apply fs_call_healthy.
Qed.
Lemma steady_ret {E A} (a : A) : steady (E := E) (mret a).
Proof. by intros d r d' [= <- <-]. Qed.
Lemma steady_result {E A} (r : result E A) : steady (from_result r).
Proof. by intros d r' d' [= <- <-]. Qed.
Lemma steady_bind {E A B} (m : act Disk E A) (f : A -> act Disk E B) : steady m -> (forall a, steady (f a)) -> steady (mbind f m).
Proof.
  intros Hm Hf d r d' H Hd. unfold mbind, act_bind in H. destruct (m d) as [[a|e] d1] eqn:E1.
  - apply (Hf _ _ _ _ H). by apply (Hm _ _ _ E1).
  - injection H as <- <-. by apply (Hm _ _ _ E1).
Qed.
Lemma steady_map_err {E F A} (g : F -> E) (m : act Disk F A) : steady m -> steady (map_err g m).
Proof. intros Hm d r d' H. unfold map_err in H. destruct (m d) as [[a|e] d1] eqn:E1; injection H as <- <-; by apply (Hm _ _ _ E1). Qed.
Lemma steady_each {E A} (f : A -> act Disk E unit) l : (forall x, steady (f x)) -> steady (each f l).
Proof. intros Hf. induction l; cbn [each]; [apply steady_ret|by apply steady_bind]. Qed.
#[local] Hint Resolve steady_call steady_ret steady_result steady_bind steady_map_err steady_each : fs.

Lemma steady_write_temp max_size temp pre tr evs tot : steady (write_temp show_io max_size temp pre tr evs tot).
Proof.
  assert (Hd : forall tot, steady (drain_stream show_io max_size temp evs tot)).
  { induction evs as [|[c|e] evs IH]; intros t; cbn [drain_stream]; auto with fs.
    destruct (_ >? _); unfold append; auto 6 with fs. }
  unfold write_temp, append, flush. auto 12 with fs.
Qed.

(** On a healthy disk no file is left at a path that is being cleaned. *)
Lemma remove_healthy p d : healthy d -> file_at (quietly (remove_file p) d).(nodes) p = None.
Proof.
  intros Hd. unfold quietly. destruct (fs_call_healthy (fun m => match node_at m p with
      | Some (File _) => (Ok tt, delete p m) | Some Dir => (Err IsADirectory, m) | None => (Err (absent m p), m) end) no_tear d Hd)
    as (_ & Hn & _). unfold remove_file. rewrite Hn. unfold file_at.
  destruct (node_at (nodes d) p) as [[]|] eqn:E1; cbn; [|by rewrite E1..].
  destruct p; [done|]. cbn. by rewrite lookup_delete_eq.
Qed.

Lemma cleaning_healthy {A} temp (m : act Disk AppError A) d e d' :
  steady m -> healthy d -> cleaning temp m d = (Err e, d') -> file_at d'.(nodes) temp = None.
Proof.
  intros Hs Hd H. unfold cleaning in H. destruct (m d) as [[a|e0] d1] eqn:E1; [done|]. injection H as <- <-.
  by apply remove_healthy, (Hs _ _ _ E1).
Qed.

Lemma steady_verify temp ext : steady (verify_temp show_io temp ext).
Proof.
  assert (Hc : forall A (m : act Disk AppError A), steady m -> steady (cleaning temp m)).
  { intros A m Hm d r d' H Hd. unfold cleaning in H. destruct (m d) as [[a|e] d1] eqn:E1; injection H as <- <-.
    - by apply (Hm _ _ _ E1).
    - unfold quietly. destruct (remove_file temp d1) as [r2 d2] eqn:E2. apply (steady_call _ _ _ _ _ E2). by apply (Hm _ _ _ E1). }
  unfold verify_temp, read. auto 10 with fs.
Qed.

(** On a healthy disk, checking a file that is there only fails by removing it. *)
Lemma verify_healthy temp ext d e d' b :
  healthy d -> file_at d.(nodes) temp = Some b -> verify_temp show_io temp ext d = (Err e, d') -> file_at d'.(nodes) temp = None.
Proof.
  intros Hd Hb H. unfold verify_temp in H.
  apply act_bind_err in H as [H|([] & d1 & H1 & H)].
  { apply cleaning_healthy in H; [done| |done]. unfold read. auto with fs. }
  apply cleaning_ok, act_map_err_ok in H1. pose proof H1 as H1'. apply act_bind_ok in H1 as (b1 & d0 & H1 & H0). injection H0 as <-.
  assert (Hd0 : healthy d0) by (by apply (steady_call _ _ _ _ _ H1)). apply read_ok in H1 as [_ Hn].
  destruct (fs_call_healthy (fun m => (get_file temp m, m)) no_tear d0 Hd0) as (Hr & _ & Hd2).
  rewrite Hn in Hr. rewrite (proj2 (get_file_ok _ _ _) Hb) in Hr. cbn in Hr.
  apply act_bind_err in H as [H|(b2 & d2 & H2 & H)].
  { apply map_err_err in H as [e0 H]. unfold read in H. rewrite H in Hr. done. }
  apply act_map_err_ok in H2. unfold read in H2. rewrite H2 in Hd2. apply cleaning_healthy in H; auto with fs.
Qed.

Lemma commit_err max_size temp final ext pre tr evs tot d e d' :
  fill_and_commit show_io max_size temp final ext pre tr evs tot d = (Err e, d') -> 0 <= tot ->
  file_at d.(nodes) temp = Some [] ->
  (forall q, q <> temp -> file_at d'.(nodes) q = file_at d.(nodes) q) /\ (healthy d -> file_at d'.(nodes) temp = None).
Proof.
  intros H Ht H0. set (P := fun x : list str => x = temp). unfold fill_and_commit in H.
  pose proof (frame_write_temp P max_size temp pre tr evs tot eq_refl) as Fw.
  pose proof (steady_write_temp max_size temp pre tr evs tot) as Sw.
  apply act_bind_err in H as [H|(t & d1 & H1 & H)].
  { split; [|intros Hd; by apply (cleaning_healthy _ _ _ _ _ Sw Hd H)].
    intros q Hq. by apply (frame_cleaning P temp _ eq_refl Fw _ _ _ H). }
  apply cleaning_ok in H1. assert (F1 : forall q, q <> temp -> file_at d1.(nodes) q = file_at d.(nodes) q) by (intros q Hq; by apply (Fw _ _ _ H1)).
  assert (S1 : healthy d -> healthy d1) by (intros; by eapply Sw).
  destruct (written_ok _ _ _ _ _ _ _ _ _ H1 Ht H0) as (r & Hr & Hf & _).
  apply act_bind_err in H as [H|([] & d2 & H2 & H)].
  { destruct (needs_magic_check ext); [|done]. split.
    - intros q Hq. rewrite <- F1 by done. by apply (frame_verify P temp ext eq_refl _ _ _ H).
    - intros Hd. by apply (verify_healthy _ _ _ _ _ _ (S1 Hd) Hf H). }
  assert (F2 : d2.(nodes) = d1.(nodes) /\ (healthy d1 -> healthy d2)).
  { destruct (needs_magic_check ext); [|by injection H2 as <-]. destruct (verify_ok _ _ _ _ _ H2 Hf). split; [done|].
    intros Hd. apply (steady_verify _ _ _ _ _ H2 Hd). }
  destruct F2 as [F2 S2]. apply act_bind_err in H as [H|([] & d3 & H3 & H)]; [|done]. split.
  - intros q Hq. rewrite <- F1, <- F2 by done. unfold cleaning in H.
    destruct (map_err _ _ _) as [[[]|e1] d3] eqn:E1 in H; [done|]. injection H as _ <-. apply map_err_err in E1 as [e0 E1].
    apply rename_err in E1. rewrite (frame_quietly P _ _ _ (frame_remove_file P temp eq_refl) Hq). by rewrite E1.
  - intros Hd. apply cleaning_healthy in H; [done| |auto]. unfold rename. auto with fs.
Qed.

(** an upload that fails changes no file but its temporary one: nothing appears at
    the storage path, whichever call failed and however far it got.  On a healthy disk the
    temporary file does not stay behind either. *)
Theorem save_upload_err new_v4 field dir max_size allowed d e d' :
  save_upload show_io new_v4 field dir max_size allowed d = (Err e, d') ->
  let temp := temp_of new_v4 dir (key_of new_v4 (upload_ext field)) in
  (forall q, q <> temp -> file_at d'.(nodes) q = file_at d.(nodes) q)
  /\ (healthy d -> file_at d.(nodes) temp = None -> file_at d'.(nodes) temp = None).
Proof.
  intros H temp. unfold save_upload in H. set (ext := upload_ext field) in *.
  change (temp_of new_v4 dir (key_of new_v4 ext)) with temp in H.
  destruct (ext_allowed allowed ext); cbn [negb] in H; [|by injection H as _ <-].
  assert (F : forall d1, (forall q, file_at d1.(nodes) q = file_at d.(nodes) q) -> (forall q, q <> temp -> file_at d1.(nodes) q = file_at d.(nodes) q)
    /\ (healthy d -> file_at d.(nodes) temp = None -> file_at d1.(nodes) temp = None)) by (intros d1 Hq; split; [auto|intros; by rewrite Hq]).
  apply act_bind_err in H as [H|([] & d1 & H1 & H)].
  { apply map_err_err in H as [e0 H]. apply F. intros q. exact (frame_create_dir_all (fun _ => False) _ _ _ _ H q (fun x => x)). }
  apply act_map_err_ok in H1. assert (Hd1 : healthy d -> healthy d1) by (apply (steady_call _ _ _ _ _ H1)).
  pose proof (fun q => frame_create_dir_all (fun _ => False) dir _ _ _ H1 q (fun x => x)) as F1.
  apply act_bind_err in H as [H|([[[pre tr] tot] evs] & d2 & H2 & H)]; [injection H as _ <-; by apply F|].
  injection H2 as H2 <-. apply act_bind_err in H as [H|([] & d3 & H3 & H)].
  { destruct (needs_magic_check ext); [|done]. injection H as _ <-. by apply F. }
  assert (d3 = d1) as -> by (destruct (needs_magic_check ext) in H3; by injection H3). clear H3.
  apply act_bind_err in H as [H|([] & d4 & H4 & H)].
  { apply map_err_err in H as [e0 H]. apply F. intros q. rewrite <- F1.
    apply fs_call_err in H as [H|[H|[n H]]]; [by apply put_file_err in H as ->|by rewrite H..]. }
  apply act_map_err_ok in H4. assert (Hd4 : healthy d -> healthy d4) by (intros; eapply (steady_call _ _ _ _ _ H4); auto).
  apply create_ok in H4 as [_ F4]. apply act_bind_err in H as [H|(tot' & d5 & H5 & H)]; [|done].
  destruct (commit_err _ _ _ _ _ _ _ _ _ _ _ H) as [Hq Ht]; [by eapply fill_preamble_nonneg|by rewrite F4, bool_decide_true|].
  split; [|by auto]. intros q Hne. rewrite Hq, F4, bool_decide_false by done. apply F1.
Qed.

End Saved.

(** ** Examples *)

Definition png : list byte := bytes_of [0x89; 0x50; 0x4E; 0x47; 0x0D; 0x0A; 0x1A; 0x0A; 1; 2; 3].
Definition a_field (evs : list chunk_event) : Field :=
  {| field_file_name := Some (lit "x/photo.PNG"); field_content_type := None; stream := evs |}.
Definition ids : str * str := (lit "11", lit "22").
Definition final : list str := [lit "up"; lit "11.png"].
Definition temp : list str := [lit "up"; lit ".tmp-22-11.png"].
Definition fresh (fs : list fate) : Disk := {| nodes := ∅; fates := fs |}.
Definition no_msg (e : IoErrorKind) : str := [].

Definition upload (evs : list chunk_event) (fs : list fate) : result AppError UploadedFile * Disk :=
  save_upload no_msg ids (a_field evs) [lit "up"] 100 (Some SAFE_UPLOAD_EXTENSIONS) (fresh fs).

Lemma save_upload_ok_witness :
  exists f d', upload [Chunk (take 4 png); Chunk (drop 4 png)] [] = (Ok f, d') /\ f.(storage_path) = [lit "up"] ++ [f.(storage_key)].
Proof.
  eexists _, _. split; [vm_compute; reflexivity|].
  edestruct (save_upload_ok no_msg ids (a_field [Chunk (take 4 png); Chunk (drop 4 png)]) [lit "up"] 100 (Some SAFE_UPLOAD_EXTENSIONS) (fresh []))
    as (content & _ & E & _); [vm_compute; reflexivity|lia|exact E].
Defined.

Lemma save_upload_err_witness :
  exists e d', upload [Chunk png; StreamError (lit "reset")] [] = (Err e, d')
    /\ let temp := temp_of ids [lit "up"] (key_of ids (upload_ext (a_field [Chunk png; StreamError (lit "reset")]))) in
       (forall q, q <> temp -> file_at d'.(nodes) q = file_at (fresh []).(nodes) q)
       /\ (healthy (fresh []) -> file_at (fresh []).(nodes) temp = None -> file_at d'.(nodes) temp = None).
Proof.
  eexists _, _. split; [vm_compute; reflexivity|].
  apply (save_upload_err no_msg ids (a_field [Chunk png; StreamError (lit "reset")]) [lit "up"] 100 (Some SAFE_UPLOAD_EXTENSIONS) (fresh []) (read_failed (lit "reset"))).
  vm_compute; reflexivity.
Defined.

(** Every error after the temporary file exists removes it, but one: when the second read
    for the check fails, the file stays. *)
Theorem reread_leaves_temp :
  let '(r, d') := upload [Chunk png] [Works; Works; Works; Works; Works; Refused] in
  r = Err (Internal (lit "Failed to re-read file for validation: ")) /\ file_at d'.(nodes) temp = Some png
  /\ file_at d'.(nodes) final = None /\ d'.(fates) = [].
Proof. vm_compute. split_and!; reflexivity. Qed.

(** The comment of the table asks for [WEBP] at offset 8 as well; the check is the RIFF header
    alone, which a WAV file has. *)
Theorem riff_passes_for_webp :
  validate_magic_bytes (bytes_of [0x52; 0x49; 0x46; 0x46; 36; 0; 0; 0; 0x57; 0x41; 0x56; 0x45]) (lit "webp") = Ok tt.
Proof. vm_compute. reflexivity. Qed.
