(* ===== verification/Redact.v ===== *)
(** * Redaction of secrets

    [runesh-workload/src/lib.rs]: the errors of the workload drivers, [redact_sensitive],
    which every driver passes error texts through before it logs them, and [validate_host].
    The loop of the code advances by bytes, but it only stops at character boundaries:
    the prefixes and the delimiters are ASCII, and other characters are copied or skipped
    whole; the model works on characters.  A slice that is not at a boundary panics. *)
From S2P Require Import Prelude Str.

#[local] Open Scope Z_scope.

Inductive ErrorKind : Type := Transient | Permanent | Auth | KindNotFound | Conflict.

Inductive WorkloadError : Type :=
  | NotFound (s : str)
  | OperationFailed (kind : ErrorKind) (message : str)
  | DriverError (s : str)
  | NotSupported (s : str)
  | Cancelled.

Definition permanent (msg : str) : WorkloadError := OperationFailed Permanent msg.

Definition is_transient (e : WorkloadError) : bool :=
  match e with
  | OperationFailed Transient _ => true
  | _ => false
  end.

Definition MAX : Z := 4096.

Definition prefixes : list str :=
  map lit ["password="; "passwd="; "token="; "secret="; "api_key="; "apikey="; "authorization: bearer ";
           "authorization: basic "; "bearer "; "csrfpreventiontoken="; "pveauthcookie="; "pveapitoken="]%string.

Definition is_delim (c : char) : bool := existsb (Z.eqb c) [32; 9; 10; 13; 44; 59; 38].

(** The value of a secret, up to a delimiter. *)
Fixpoint skip_value (s : str) : str :=
  match s with
  | [] => []
  | c :: r => if is_delim c then s else skip_value r
  end.

(** The first prefix of the table that the text, in lower case, starts with. *)
Definition matched (s : str) : option str := head (filter (fun p => starts_with p (to_ascii_lowercase s) = true) prefixes).

Definition redacted : str := lit "<redacted>".

Fixpoint redact_loop (fuel : nat) (s : str) : str :=
  match fuel, s with
  | O, _ => s
  | _, [] => []
  | S n, c :: r =>
      match matched s with
      | Some pfx => take (length pfx) s ++ redacted ++ redact_loop n (skip_value (drop (length pfx) s))
      | None => c :: redact_loop n r
      end
  end.
Definition redact_text (s : str) : str := redact_loop (length s) s.

(** [&s[..n]]: [None] is a panic, when [n] is inside a character or past the end. *)
Fixpoint slice_to (n : Z) (s : str) : option str :=
  if n =? 0 then Some []
  else match s with
       | [] => None
       | c :: r => if n <? len_utf8 c then None else r' ← slice_to (n - len_utf8 c) r; Some (c :: r')
       end.

Definition redact_sensitive (s : str) : option str :=
  truncated ← (if byte_len s >? MAX then slice_to MAX s else Some s);
  Some (redact_text truncated ++ (if byte_len s >? MAX then lit "...<truncated>" else [])).

Definition banned : list str :=
  map lit ["169.254.169.254"; "fd00:ec2::254"; "metadata.google.internal"; "metadata.goog"]%string.

(** [host_parse] is [url::Host::parse] with the message of its error.  [None] is a panic. *)
Definition validate_host (host_parse : str -> result str unit) (host : str) : option (result WorkloadError unit) :=
  if bool_decide (host = []) then Some (Err (permanent (lit "host is empty")))
  else if contains_char c_slash host || contains_char 32 host then
    shown ← redact_sensitive host;
    Some (Err (permanent (lit "invalid host: " ++ shown)))
  else if existsb (fun b => bool_decide (to_ascii_lowercase host = b)) banned then
    Some (Err (permanent (lit "host resolves to a banned metadata endpoint")))
  else match host_parse host with
       | Ok _ => Some (Ok tt)
       | Err e => Some (Err (permanent (lit "invalid host: " ++ e)))
       end.

(** ** What is hidden *)

(** In the table no prefix starts another, and none continues past an occurrence of another
    that begins inside it. *)
Definition occurs_inside (p q : str) : bool :=
  existsb (fun k => starts_with p (drop k q) && (k + length p <? length q)%nat) (seq 1 (length q)).

Lemma table_independent :
  forallb (fun p => forallb (fun q => negb (occurs_inside p q) && (bool_decide (p = q) || negb (starts_with p q))) prefixes) prefixes = true.
Proof. vm_compute. reflexivity. Qed.

Lemma length_lower s : length (to_ascii_lowercase s) = length s.
Proof. apply length_map. Qed.

Lemma table_facts p q : p ∈ prefixes -> q ∈ prefixes -> occurs_inside p q = false /\ (starts_with p q = true -> p = q).
Proof.
  intros Hp Hq. pose proof table_independent as H. rewrite forallb_forall in H.
  specialize (H p (proj1 (list_elem_of_In _ _) Hp)). rewrite forallb_forall in H.
  specialize (H q (proj1 (list_elem_of_In _ _) Hq)). apply andb_true_iff in H as [H1 H2]. split; [by apply negb_true_iff|].
  intros Hs. rewrite Hs in H2. destruct (bool_decide_reflect (p = q)); done.
Qed.

Lemma matched_some s p : matched s = Some p -> p ∈ prefixes /\ starts_with p (to_ascii_lowercase s) = true.
Proof.
  unfold matched. intros H. destruct (filter _ prefixes) as [|x l] eqn:E; [done|]. injection H as ->.
  assert (Hin : p ∈ filter (fun p => starts_with p (to_ascii_lowercase s) = true) prefixes) by (rewrite E; apply elem_of_cons; by left).
  apply list_elem_of_filter in Hin as [? ?]. done.
Qed.

Lemma matched_none s : matched s = None <-> forall p, p ∈ prefixes -> starts_with p (to_ascii_lowercase s) = false.
Proof.
  unfold matched. split.
  - intros H p Hp. destruct (starts_with p _) eqn:E; [|done]. destruct (filter _ prefixes) as [|x l] eqn:Ef; [|done].
    rewrite filter_nil_iff in Ef. by destruct (Ef p Hp).
  - intros H. replace (filter _ prefixes) with (@nil str); [done|]. symmetry. apply filter_nil_iff. intros p Hp. by rewrite H.
Qed.

Lemma prefix_cases (p q s : str) : starts_with p s = true -> starts_with q s = true -> starts_with p q = true \/ starts_with q p = true.
Proof.
  rewrite !starts_with_spec. intros [a ->] [b Hb]. revert q Hb. induction p as [|c p IH]; intros q Hb; [left; by exists q|].
  destruct q as [|d q]; [right; by exists (c :: p)|]. injection Hb as <- Hb. destruct (IH _ Hb) as [[r Hr]|[r Hr]].
  - left. exists r. cbn. by rewrite Hr.
  - right. exists r. cbn. by rewrite Hr.
Qed.

Lemma matched_at p s : p ∈ prefixes -> starts_with p (to_ascii_lowercase s) = true -> matched s = Some p.
Proof.
  intros Hp Hs. destruct (matched s) as [q|] eqn:E.
  - apply matched_some in E as [Hq Hs']. f_equal. destruct (prefix_cases _ _ _ Hs Hs') as [H|H].
    + symmetry. by apply table_facts.
    + by apply table_facts.
  - rewrite matched_none in E. rewrite (E p Hp) in Hs. done.
Qed.

Lemma skip_value_delim v r : existsb is_delim v = false -> (r = [] \/ exists d r', r = d :: r' /\ is_delim d = true) ->
  skip_value (v ++ r) = r.
Proof.
  intros Hv Hr. induction v as [|c v IH]; cbn [app skip_value].
  - destruct Hr as [-> |(d & r' & -> & Hd)]; [done|]. cbn [skip_value]. by rewrite Hd.
  - cbn [existsb] in Hv. apply orb_false_iff in Hv as [Hc Hv]. rewrite Hc. by apply IH.
Qed.

Lemma length_skip_value s : (length (skip_value s) <= length s)%nat.
Proof. induction s as [|c s IH]; cbn [skip_value length]; [lia|]. destruct (is_delim c); cbn [length]; lia. Qed.

(** Enough fuel: every round consumes a character. *)
Lemma redact_fuel n : forall s, (length s <= n)%nat -> redact_loop n s = redact_text s.
Proof.
  assert (Hm : forall n m s, (length s <= n)%nat -> (length s <= m)%nat -> redact_loop n s = redact_loop m s).
  { clear n. induction n as [|n IH]; intros m s Hn Hmm.
    { destruct s; [|cbn in Hn; lia]. by destruct m. }
    destruct s as [|c r]; [by destruct m|]. destruct m as [|m]; [cbn in Hmm; lia|]. cbn [redact_loop]. cbn [length] in *.
    destruct (matched (c :: r)) as [pfx|] eqn:E.
    - do 2 f_equal. apply matched_some in E as [Hp _].
      assert (Hl : (0 < length pfx)%nat) by (assert (Hnz : forallb (fun p => (0 <? length p)%nat) prefixes = true) by (vm_compute; reflexivity);
        rewrite forallb_forall in Hnz; apply Nat.ltb_lt, Hnz, list_elem_of_In, Hp).
      pose proof (length_skip_value (drop (length pfx) (c :: r))). rewrite length_drop in H. cbn [length] in H. apply IH; lia.
    - f_equal. apply IH; lia. }
  intros s Hs. by apply Hm.
Qed.

(** No prefix begins inside [a] when [a] stands before [b]. *)
Definition quiet (a b : str) : Prop := forall k, (k < length a)%nat -> matched (drop k (a ++ b)) = None.

Lemma redact_copy a : forall b, quiet a b -> redact_text (a ++ b) = a ++ redact_text b.
Proof.
  induction a as [|c a IH]; intros b Hq; [done|].
  assert (Hc : matched (c :: a ++ b) = None) by (apply (Hq 0%nat); cbn; lia).
  unfold redact_text. cbn [app length redact_loop]. rewrite Hc. cbn [app]. f_equal. rewrite redact_fuel by done. apply IH.
  intros k Hk. apply (Hq (S k)). cbn. lia.
Qed.

(** A prefix that matches before an occurrence of [p] ends where it or earlier. *)
Lemma quiet_extends a p' v : to_ascii_lowercase p' ∈ prefixes -> quiet a p' -> quiet a (p' ++ v).
Proof.
  intros Hp Hq k Hk. destruct (matched (drop k (a ++ p' ++ v))) as [q|] eqn:E; [|done]. exfalso.
  apply matched_some in E as [Hin Hs]. specialize (Hq k Hk). rewrite matched_none in Hq. specialize (Hq q Hin).
  rewrite drop_app_le in Hq, Hs by lia. rewrite !lower_app in *. set (x := to_ascii_lowercase (drop k a)) in *.
  assert (Hx : (0 < length x)%nat) by (unfold x; rewrite length_lower, length_drop; lia).
  destruct (table_facts _ _ Hp Hin) as [Ho _]. apply starts_with_spec in Hs as [r Hr].
  set (p := to_ascii_lowercase p') in *.
  destruct (decide (length q <= length (x ++ p))%nat) as [Hl|Hl].
  - assert (starts_with q (x ++ p) = true); [|congruence]. apply starts_with_spec. exists (drop (length q) (x ++ p)).
    rewrite app_assoc in Hr. apply (f_equal (take (length q))) in Hr. rewrite take_app_length, take_app_le in Hr by lia.
    by rewrite <- Hr at 1; rewrite take_drop.
  - assert (Hq2 : q = (x ++ p) ++ drop (length (x ++ p)) q).
    { rewrite app_assoc in Hr. apply (f_equal (take (length (x ++ p)))) in Hr. rewrite take_app_length, take_app_le in Hr by lia.
      rewrite Hr at 1. by rewrite take_drop. }
    unfold occurs_inside in Ho. rewrite existsb_elem_false in Ho.
    specialize (Ho (length x)). rewrite length_app in Hl.
    assert (starts_with p (drop (length x) q) && (length x + length p <? length q)%nat = true) as Hb; [|rewrite Hb in Ho; discriminate Ho; apply elem_of_seq; lia].
    apply andb_true_iff. split; [|apply Nat.ltb_lt; lia].
    rewrite Hq2, <- app_assoc, drop_app_length. apply starts_with_spec. eauto.
Qed.

(** what follows a secret's prefix, up to a delimiter, is not in the output: for any text
    [a] in which no prefix begins, any spelling [p'] of a prefix in upper or lower case and
    any value [v] without a delimiter, the output is [a], the prefix and [<redacted>], and
    goes on as the rest of the text alone would; it does not depend on [v]. *)
Theorem redact_hides a p' v r :
  to_ascii_lowercase p' ∈ prefixes -> quiet a p' ->
  existsb is_delim v = false -> (r = [] \/ exists d r', r = d :: r' /\ is_delim d = true) ->
  redact_text (a ++ p' ++ v ++ r) = a ++ p' ++ redacted ++ redact_text r.
Proof.
  intros Hp Hq Hv Hr. rewrite redact_copy by (by apply quiet_extends). f_equal.
  assert (Hm : matched (p' ++ v ++ r) = Some (to_ascii_lowercase p')).
  { apply matched_at; [done|]. apply starts_with_spec. rewrite lower_app. eauto. }
  unfold redact_text at 1. destruct p' as [|c p']; [by apply list_elem_of_In in Hp; vm_compute in Hp; repeat destruct Hp as [Hp|Hp]|].
  cbn [app length redact_loop]. change (c :: p' ++ v ++ r) with ((c :: p') ++ v ++ r). rewrite Hm.
  assert (Hl : length (to_ascii_lowercase (c :: p')) = length (c :: p')) by apply length_lower.
  rewrite Hl, take_app_length, drop_app_length, skip_value_delim by done. cbn [app]. do 3 f_equal.
  apply redact_fuel. rewrite !length_app. lia.
Qed.

Lemma redact_hides_witness :
  to_ascii_lowercase (lit "Token=") ∈ prefixes
  /\ redact_text (lit "url?" ++ lit "Token=" ++ lit "s3cr3t" ++ lit "&x=1") = lit "url?" ++ lit "Token=" ++ redacted ++ redact_text (lit "&x=1").
Proof.
  assert (Hp : to_ascii_lowercase (lit "Token=") ∈ prefixes) by (apply list_elem_of_In; vm_compute; tauto).
  split; [exact Hp|]. apply (redact_hides (lit "url?") (lit "Token=") (lit "s3cr3t") (lit "&x=1")).
  - exact Hp.
  - intros k Hk. do 4 (destruct k as [|k]; [vm_compute; reflexivity|]). vm_compute in Hk. lia.
  - vm_compute. reflexivity.
  - right. eexists _, _. split; vm_compute; reflexivity.
Defined.

(** A text in which no prefix occurs is unchanged. *)
Lemma redact_unchanged a : quiet a [] -> redact_text a = a.
Proof. intros H. rewrite <- (app_nil_r a) at 1. rewrite redact_copy by done. apply app_nil_r. Qed.

(** ** The panic *)

Lemma slice_to_none s : forall n, 0 <= n -> slice_to n s = None <-> (forall a b, s = a ++ b -> byte_len a <> n).
Proof.
  assert (Hpos : forall c, 0 < len_utf8 c) by (intros c; unfold len_utf8; repeat destruct (_ <? _); lia).
  assert (Hnn : forall s, 0 <= byte_len s) by (induction s0 as [|c s0 IH]; cbn [byte_len]; [lia|pose proof (Hpos c); lia]).
  induction s as [|c s IH]; intros n Hn; cbn [slice_to]; destruct (Z.eqb_spec n 0) as [->|Hz].
  - split; [done|]. intros H. by destruct (H [] []).
  - split; [|done]. intros _ a b Hab. symmetry in Hab. apply app_nil in Hab as [-> _]. cbn. lia.
  - split; [done|]. intros H. by destruct (H [] (c :: s)).
  - destruct (Z.ltb_spec n (len_utf8 c)) as [Hlt|Hge].
    + split; [|done]. intros _ a b Hab. destruct a as [|d a]; [cbn; lia|]. injection Hab as <- _. cbn [byte_len]. pose proof (Hnn a). lia.
    + assert (Hi := IH (n - len_utf8 c) ltac:(lia)). destruct (slice_to (n - len_utf8 c) s) as [r|]; cbn.
      * split; [done|]. intros H. assert (Hx : Some r = None); [|done]. apply Hi. intros a b -> Hl.
        apply (H (c :: a) b eq_refl). cbn [byte_len]. lia.
      * split; [|done]. intros _ a b Hab. destruct a as [|d a]; [cbn; lia|]. injection Hab as <- ->. cbn [byte_len].
        pose proof (proj1 Hi eq_refl a b eq_refl). lia.
Qed.

(** [redact_sensitive] panics on exactly the texts longer than 4096 bytes whose byte 4096
    is inside a character. *)
Theorem redact_panics_iff s :
  redact_sensitive s = None <-> MAX < byte_len s /\ forall a b, s = a ++ b -> byte_len a <> MAX.
Proof.
  unfold redact_sensitive. destruct (byte_len s >? MAX) eqn:E.
  - rewrite <- slice_to_none by (unfold MAX; lia). destruct (slice_to MAX s); cbn; [naive_solver|]. split; [|done]. split; [lia|done].
  - cbn. split; [done|]. lia.
Qed.

(** Such a text: 4095 ASCII characters and one that takes two bytes. *)
Theorem redact_panics : redact_sensitive (repeat 97 (Z.to_nat 4095) ++ [233]) = None.
Proof. vm_compute. reflexivity. Qed.

(** [validate_host] compares the text of the host: the address of the metadata service in brackets,
    the form in which [url::Host::parse] accepts an IPv6 address, is not in the list. *)
Theorem banned_ipv6_in_brackets host_parse :
  host_parse (lit "[fd00:ec2::254]") = Ok tt -> validate_host host_parse (lit "[fd00:ec2::254]") = Some (Ok tt).
Proof. intros H. unfold validate_host. replace (host_parse _) with (Ok (E := str) tt). vm_compute. reflexivity. Qed.
