(* ===== verification/Cache.v ===== *)
(** * The cache of hydrated files

    [runesh-vfs/src/cache.rs]: [CacheManager], which keeps files on disk below a directory
    and evicts the least recently used ones when their total exceeds a limit.  A call is
    one step (the code holds its mutex while it accounts and evicts).  The comment of the
    file promises that the total never exceeds the limit between calls; the theorems state
    when that holds, what is evicted, and two ways in which it fails. *)
From stdpp Require Import sorting.
From S2P Require Import Prelude Str Path Fs F64.

#[local] Open Scope Z_scope.

(** [runesh-vfs/src/error.rs]. *)
Inductive VfsError : Type :=
  | NotFound (s : str)
  | PermissionDenied (s : str)
  | PathTraversal
  | ReadOnly
  | AlreadyMounted (s : str)
  | NotMounted (s : str)
  | Provider (s : str)
  | CacheError (s : str)
  | Io (e : IoErrorKind)
  | Platform (s : str)
  | Config (s : str)
  | Internal (s : str).

Record CacheEntry := { path : str; size : Z; last_access : Z }.

(** [Inner], and the disk. *)
Record Cache := { entries : gmap str CacheEntry; current_bytes : Z; disk : Disk }.

Definition on_disk {A} (m : act Disk IoErrorKind A) : act Cache VfsError A := fun c =>
  match m c.(disk) with
  | (Ok a, d) => (Ok a, {| entries := c.(entries); current_bytes := c.(current_bytes); disk := d |})
  | (Err e, d) => (Err (Io e), {| entries := c.(entries); current_bytes := c.(current_bytes); disk := d |})
  end.

Definition older (a b : CacheEntry) : Prop := a.(last_access) <= b.(last_access).
#[global] Instance older_dec a b : Decision (older a b).
Proof. unfold older. apply _. Defined.

Section CacheManager.
Context (cache_dir : list str) (max_bytes : Z).
(** The order in which a [HashMap] is iterated. *)
Context (it : gmap str CacheEntry -> list (str * CacheEntry)).

Definition cache_path (p : str) : result VfsError (list str) :=
  if contains_str (lit "..") p || contains_char 0 p then Err PathTraversal
  else match normal_only (components p) with
       | None => Err PathTraversal
       | Some names =>
           let normalized := cache_dir ++ names in
           if bool_decide (cache_dir `prefix_of` normalized) then Ok normalized else Err PathTraversal
       end.

Definition target : Z := to_u64 (fmul (of_int max_bytes) f64_0_8).

Definition drop_entry (p : str) (c : Cache) : Cache :=
  {| entries := delete p c.(entries); current_bytes := c.(current_bytes); disk := c.(disk) |}.

Fixpoint evict_loop (sorted : list CacheEntry) (c : Cache) : Cache :=
  match sorted with
  | [] => c
  | entry :: rest =>
      if c.(current_bytes) <=? target then c
      else match cache_path entry.(path) with
           | Err _ => evict_loop rest (drop_entry entry.(path) c)
           | Ok cache_file =>
               match remove_file cache_file c.(disk) with
               | (Ok _, d) =>
                   evict_loop rest {| entries := delete entry.(path) c.(entries);
                                      current_bytes := sat_sub c.(current_bytes) entry.(size); disk := d |}
               | (Err _, d) =>
                   evict_loop rest {| entries := c.(entries); current_bytes := c.(current_bytes); disk := d |}
               end
           end
  end.
Definition evict_lru_locked (c : Cache) : Cache := evict_loop (merge_sort older (map snd (it c.(entries)))) c.

(** The entry of a put, before eviction. *)
Definition account (now : Z) (p : str) (sz : Z) (c : Cache) : Cache :=
  let entry := {| path := p; size := sz; last_access := now |} in
  let bytes := match c.(entries) !! p with
               | Some old => sat_sub c.(current_bytes) old.(size)
               | None => c.(current_bytes)
               end in
  {| entries := <[p := entry]> c.(entries); current_bytes := sat_add 64 bytes sz; disk := c.(disk) |}.

Definition insert_and_evict (now : Z) (p : str) (sz : Z) : act Cache VfsError unit := fun c =>
  let c := account now p sz c in
  (Ok tt, if c.(current_bytes) >? max_bytes then evict_lru_locked c else c).

Definition put (now : Z) (p : str) (data : list byte) : act Cache VfsError unit :=
  cache_file ← from_result (cache_path p);
  _ ← (match unsnoc cache_file with
       | Some (parent, _) => on_disk (create_dir_all parent)
       | None => mret tt
       end);
  _ ← on_disk (write cache_file data);
  insert_and_evict now p (Z.of_nat (length data)).

Definition get (now : Z) (p : str) (c : Cache) : option (list byte) * Cache :=
  match cache_path p with
  | Err _ => (None, c)
  | Ok cache_file =>
      let '(found, d) := path_exists cache_file c.(disk) in
      let c := {| entries := c.(entries); current_bytes := c.(current_bytes); disk := d |} in
      if found then
        let touched := alter (fun e => {| path := e.(path); size := e.(size); last_access := now |}) p c.(entries) in
        let '(r, d) := read cache_file c.(disk) in
        (ok r, {| entries := touched; current_bytes := c.(current_bytes); disk := d |})
      else (None, c)
  end.

Definition contains (p : str) (c : Cache) : bool * Cache :=
  match cache_path p with
  | Err _ => (false, c)
  | Ok cache_file =>
      let '(found, d) := path_exists cache_file c.(disk) in
      (found, {| entries := c.(entries); current_bytes := c.(current_bytes); disk := d |})
  end.

Definition evict (p : str) : act Cache VfsError unit := fun c =>
  match cache_path p with
  | Err e => (Err e, c)
  | Ok cache_file =>
    match remove_file cache_file c.(disk) with
    | (Ok _, d) =>
        let sz := match c.(entries) !! p with Some e => e.(size) | None => 0 end in
        (Ok tt, {| entries := delete p c.(entries); current_bytes := sat_sub c.(current_bytes) sz; disk := d |})
    | (Err Fs.NotFound, d) => (Ok tt, {| entries := c.(entries); current_bytes := c.(current_bytes); disk := d |})
    | (Err e, d) => (Err (Io e), {| entries := c.(entries); current_bytes := c.(current_bytes); disk := d |})
    end
  end.

(** [scan_existing]: every file below the directory becomes an entry.  [files] lists them with the
    path from the directory and their size, in the order of the walk. *)
Definition scan_existing (now : Z) (files : list (str * Z)) (d : Disk) : Cache :=
  {| entries := foldl (fun m '(key, sz) => <[key := {| path := key; size := sz; last_access := now |}]> m) ∅ files;
     current_bytes := foldl (fun total '(_, sz) => wadd 64 total sz) 0 files;
     disk := d |}.

(** The files of the tree below the directory. *)
Definition files_below (m : gmap (list str) node) : list (str * Z) :=
  filter_map (fun kv => match after cache_dir kv.1, kv.2 with
                        | Some names, File b => Some (join c_slash names, Z.of_nat (length b))
                        | _, _ => None
                        end) (map_to_list m).

Definition new_cache (now : Z) (d : Disk) : result VfsError Cache :=
  match create_dir_all cache_dir d with
  | (Err e, _) => Err (Io e)
  | (Ok _, d) => Ok (scan_existing now (files_below d.(nodes)) d)
  end.

End CacheManager.

(** ** The total *)

Definition total (m : gmap str CacheEntry) : Z := map_fold (fun _ e acc => e.(size) + acc) 0 m.

Lemma total_insert m k e : m !! k = None -> total (<[k := e]> m) = e.(size) + total m.
Proof. intros Hk. unfold total. rewrite map_fold_insert_L; [done|intros; lia|done]. Qed.

Lemma total_delete m k e : m !! k = Some e -> total m = e.(size) + total (delete k m).
Proof. intros Hk. rewrite <- (total_insert (delete k m) k e) by apply lookup_delete_eq. by rewrite insert_delete_id. Qed.

Lemma total_nonneg m : (forall k e, m !! k = Some e -> 0 <= e.(size)) -> 0 <= total m.
Proof.
  induction m as [|k e m Hk IH] using map_ind; intros Hs; [done|]. rewrite total_insert by done.
  pose proof (Hs k e (lookup_insert_eq _ _ _)). assert (0 <= total m); [|lia]. apply IH. intros k' e' Hk'.
  apply (Hs k'). rewrite lookup_insert_ne; [done|]. intros ->. congruence.
Qed.

(** ** Keeping within the limit *)

Section Bound.
Context (cache_dir : list str) (max_bytes : Z) (it : gmap str CacheEntry -> list (str * CacheEntry)).
Hypothesis it_iterates : forall m, iter_of m (it m).
Hypothesis max_u64 : is_u 64 max_bytes.

#[local] Abbreviation cache_path := (cache_path cache_dir).
#[local] Abbreviation target := (target max_bytes).

(** An entry: its key is its path, written out, and its file is on disk. *)
Definition cached (d : Disk) (k : str) (e : CacheEntry) : Prop :=
  e.(path) = k /\ 0 <= e.(size) /\ exists names f b, canonical names k /\ cache_path k = Ok f /\ file_at d.(nodes) f = Some b.

Definition tracked (c : Cache) : Prop :=
  map_Forall (cached c.(disk)) c.(entries) /\ c.(current_bytes) = total c.(entries) /\ healthy c.(disk).

Lemma target_range : 0 <= target <= max_bytes.
Proof. apply four_fifths_le, max_u64. Qed.

Lemma cache_path_names names k f : canonical names k -> cache_path k = Ok f -> f = cache_dir ++ names.
Proof.
  intros Hc. unfold Cache.cache_path. destruct (_ || _); [done|]. rewrite (canonical_components _ _ Hc), normal_only_map.
  destruct (bool_decide _); [|done]. by intros [= <-].
Qed.

(** Different keys have different files. *)
Lemma cached_inj d d' k1 e1 k2 e2 f : cached d k1 e1 -> cached d' k2 e2 -> cache_path k1 = Ok f -> cache_path k2 = Ok f -> k1 = k2.
Proof.
  intros (_ & _ & n1 & f1 & _ & Hc1 & Hp1 & _) (_ & _ & n2 & f2 & _ & Hc2 & Hp2 & _) H1 H2.
  rewrite (cache_path_names _ _ _ Hc1 H1) in H2. apply (cache_path_names _ _ _ Hc2) in H2.
  apply app_inv_head in H2 as ->. destruct Hc1 as (_ & _ & ->), Hc2 as (_ & _ & ->). done.
Qed.

(** Removing the file of an entry. *)
Lemma evict_one c k e : tracked c -> c.(entries) !! k = Some e ->
  exists f d, cache_path e.(path) = Ok f /\ remove_file f c.(disk) = (Ok tt, d)
    /\ sat_sub c.(current_bytes) e.(size) = total (delete k c.(entries))
    /\ tracked {| entries := delete k c.(entries); current_bytes := sat_sub c.(current_bytes) e.(size); disk := d |}
    /\ forall q, file_at d.(nodes) q = if bool_decide (q = f) then None else file_at c.(disk).(nodes) q.
Proof.
  intros (Hall & Hb & Hh) Hk. pose proof (Hall _ _ Hk) as Hce. destruct Hce as (Hp & Hsz & names & f & b & Hcan & Hpath & Hf).
  rewrite Hp. destruct (remove_file f (disk c)) as [r d] eqn:Er.
  assert (r = Ok tt /\ healthy d) as [-> Hd].
  { destruct (fs_call_healthy (fun m => match node_at m f with
      | Some (File _) => (Ok tt, delete f m) | Some Dir => (Err IsADirectory, m) | None => (Err (absent m f), m) end) no_tear (disk c) Hh) as (H1 & _ & H2).
    unfold remove_file in Er. rewrite Er in H1, H2. cbn in H1. unfold file_at in Hf. destruct (node_at _ f) as [[]|]; try done. }
  destruct (remove_file_ok _ _ _ Er) as [_ Hq].
  assert (Hnn : 0 <= total (delete k (entries c))).
  { apply total_nonneg. intros k' e' Hk'. apply lookup_delete_Some in Hk' as [_ Hk']. apply (Hall _ _ Hk'). }
  assert (Hs : sat_sub c.(current_bytes) e.(size) = total (delete k c.(entries))).
  { rewrite Hb, (total_delete _ _ _ Hk). unfold sat_sub. lia. }
  exists f, d. split_and!; try done. split_and!; cbn; [|by rewrite Hs|done].
  intros k' e' Hk'. apply lookup_delete_Some in Hk' as [Hne Hk'].
  pose proof (Hall _ _ Hk') as Hc'. pose proof Hc' as (Hp' & Hsz' & names' & f' & b' & Hcan' & Hpath' & Hf').
  split_and!; try done. exists names', f', b'. split_and!; try done. rewrite Hq, bool_decide_false; [done|].
  intros ->. apply Hne. exact (cached_inj _ _ _ _ _ _ _ (Hall _ _ Hk) Hc' Hpath Hpath').
Qed.

(** What a run of the loop evicts: a prefix of the sorted entries, as short as the target allows. *)
Definition remove_all (l : list CacheEntry) (m : gmap str CacheEntry) : gmap str CacheEntry :=
  foldl (fun m e => delete e.(path) m) m l.
Definition sum_sizes (l : list CacheEntry) : Z := foldr (fun e acc => e.(size) + acc) 0 l.

Lemma evict_loop_spec l : forall c, tracked c ->
  NoDup (map path l) -> (forall e, e ∈ l -> c.(entries) !! e.(path) = Some e) ->
  exists out kept, l = out ++ kept
    /\ (evict_loop cache_dir max_bytes l c).(entries) = remove_all out c.(entries)
    /\ tracked (evict_loop cache_dir max_bytes l c)
    /\ (kept = [] \/ (evict_loop cache_dir max_bytes l c).(current_bytes) <= target)
    /\ (forall pre e, out = pre ++ [e] -> target < c.(current_bytes) - sum_sizes pre).
Proof.
  induction l as [|e l IH]; intros c Hc Hnd Hin; cbn [evict_loop].
  { exists [], []. split_and!; try done; [by left|]. intros [|? ?] ? H; done. }
  destruct (Z.leb_spec (current_bytes c) target) as [Hle|Hgt].
  { exists [], (e :: l). split_and!; try done; [by right|]. intros [|? ?] ? H; done. }
  assert (He : entries c !! path e = Some e) by (apply Hin, elem_of_cons; by left).
  destruct (evict_one _ _ _ Hc He) as (f & d & -> & -> & Hsum & Hc' & _).
  cbn [map] in Hnd. apply NoDup_cons in Hnd as [Hni Hnd].
  destruct (IH _ Hc' Hnd) as (out & kept & -> & He1 & Ht & Hk & Hmin).
  { intros e' He'. cbn. rewrite lookup_delete_ne; [apply Hin, elem_of_cons; by right|].
    intros Heq. apply Hni. rewrite Heq. by apply list_elem_of_fmap_2. }
  exists (e :: out), kept. split_and!; try done. intros [|x pre] e' Heq.
  - cbn. lia.
  - injection Heq as <- Heq. specialize (Hmin _ _ Heq). cbn [current_bytes sum_sizes foldr] in *. fold (sum_sizes pre).
    destruct Hc as (_ & Hb & _). rewrite Hb, (total_delete _ _ _ He). rewrite Hsum in Hmin. lia.
Qed.

Lemma remove_all_lookup l : forall m k, remove_all l m !! k = if bool_decide (k ∈ map path l) then None else m !! k.
Proof.
  induction l as [|e l IH]; intros m k; cbn [remove_all foldl map].
  - by rewrite bool_decide_false by apply not_elem_of_nil.
  - fold (remove_all l (delete (path e) m)). rewrite IH. destruct (bool_decide_reflect (k ∈ map path l)) as [Hi|Hi].
    + by rewrite bool_decide_true by (apply elem_of_cons; by right).
    + destruct (decide (k = path e)) as [->|Hne].
      * rewrite lookup_delete_eq. by rewrite bool_decide_true by (apply elem_of_cons; by left).
      * rewrite lookup_delete_ne by congruence. rewrite bool_decide_false; [done|]. rewrite elem_of_cons. naive_solver.
Qed.

(** The disk changes, no entry loses its file. *)
Lemma tracked_disk c d : tracked c -> healthy d ->
  (forall k e q b, c.(entries) !! k = Some e -> cache_path k = Ok q -> file_at c.(disk).(nodes) q = Some b -> exists b', file_at d.(nodes) q = Some b') ->
  tracked {| entries := c.(entries); current_bytes := c.(current_bytes); disk := d |}.
Proof.
  intros (Hall & Hb & Hh) Hd Hf. split_and!; cbn; try done. intros k e Hk.
  destruct (Hall _ _ Hk) as (Hp & Hs & names & f & b & Hc & Hpath & Hfile). split_and!; try done.
  destruct (Hf _ _ _ _ Hk Hpath Hfile) as [b' Hb']. by exists names, f, b'.
Qed.

Lemma on_disk_inv {A} (m : act Disk IoErrorKind A) c r c' : on_disk m c = (r, c') ->
  exists r0, m c.(disk) = (r0, c'.(disk)) /\ c' = {| entries := c.(entries); current_bytes := c.(current_bytes); disk := c'.(disk) |}
    /\ (forall a, r = Ok a <-> r0 = Ok a).
Proof.
  unfold on_disk. destruct (m (disk c)) as [[a|e] d]; intros [= <- <-]; eexists; split_and!; try done; naive_solver.
Qed.

Lemma healthy_step {A} (works : gmap (list str) node -> result IoErrorKind A * gmap (list str) node) torn d r d' :
  healthy d -> fs_call works torn d = (r, d') -> healthy d'.
Proof. intros Hd H. replace d' with (fs_call works torn d).2 by (by rewrite H). by apply fs_call_healthy. Qed.

(** Accounting for a file that has just been written. *)
Lemma tracked_account c now p names f data :
  tracked c -> canonical names p -> cache_path p = Ok f -> file_at c.(disk).(nodes) f = Some data ->
  c.(current_bytes) + Z.of_nat (length data) < 2 ^ 64 ->
  tracked (account now p (Z.of_nat (length data)) c).
Proof.
  intros (Hall & Hb & Hh) Hcan Hpath Hf Hlt. unfold account. set (e := {| path := p; size := Z.of_nat (length data); last_access := now |}).
  assert (Hnn : 0 <= total (delete p (entries c))).
  { apply total_nonneg. intros k' e' Hk'. apply lookup_delete_Some in Hk' as [_ Hk']. apply (Hall _ _ Hk'). }
  split_and!; cbn; [| |done].
  - intros k e' Hk. apply lookup_insert_Some in Hk as [[<- <-]|[_ Hk]]; [|by apply Hall].
    split_and!; [done|cbn; lia|]. by exists names, f, data.
  - rewrite <- insert_delete_eq, total_insert by apply lookup_delete_eq. cbn [size e].
    destruct (entries c !! p) as [old|] eqn:Ho.
    + rewrite (total_delete _ _ _ Ho) in Hb. pose proof (Hall _ _ Ho) as (_ & Hs & _).
      unfold sat_add, sat_sub. lia.
    + rewrite delete_id in * by done. unfold sat_add. lia.
Qed.

(** Evicting from the accounted state. *)
Lemma evict_lru_spec c : tracked c ->
  exists out, (evict_lru_locked cache_dir max_bytes it c).(entries) = remove_all out c.(entries)
    /\ tracked (evict_lru_locked cache_dir max_bytes it c)
    /\ (evict_lru_locked cache_dir max_bytes it c).(current_bytes) <= target
    /\ (forall e k e', e ∈ out -> (evict_lru_locked cache_dir max_bytes it c).(entries) !! k = Some e' -> e.(last_access) <= e'.(last_access))
    /\ (forall pre e, out = pre ++ [e] -> target < c.(current_bytes) - sum_sizes pre).
Proof.
  intros Hc. unfold evict_lru_locked. set (l := merge_sort older (map snd (it (entries c)))).
  assert (Hperm : l ≡ₚ map snd (it (entries c))) by apply merge_sort_Permutation.
  assert (Hsort : StronglySorted older l).
  { apply StronglySorted_merge_sort; unfold older; [intros ???; lia|intros ??; lia]. }
  assert (Hin : forall e, e ∈ l <-> exists k, entries c !! k = Some e).
  { intros e. rewrite Hperm, list_elem_of_fmap. split.
    - intros ([k e'] & -> & Hk). exists k. by apply (iter_of_elem _ _ _ _ (it_iterates _)).
    - intros [k Hk]. exists (k, e). split; [done|]. by apply (iter_of_elem _ _ _ _ (it_iterates _)). }
  assert (Hkey : forall k e, entries c !! k = Some e -> path e = k) by (intros k e Hk; by destruct (proj1 Hc k e Hk)).
  assert (Hl : forall e, e ∈ l -> entries c !! path e = Some e).
  { intros e He. apply Hin in He as [k Hk]. by rewrite (Hkey _ _ Hk). }
  assert (Hnd : NoDup (map path l)).
  { rewrite Hperm, map_map. rewrite (map_ext_in _ fst).
    - assert (map fst (it (entries c)) ≡ₚ (map_to_list (entries c)).*1) as -> by (apply fmap_Permutation, it_iterates).
      apply NoDup_fst_map_to_list.
    - intros [k e] Hk. cbn. apply Hkey. apply (iter_of_elem _ _ _ _ (it_iterates _)). by apply list_elem_of_In. }
  destruct (evict_loop_spec l c Hc Hnd Hl) as (out & kept & Heq & He & Ht & Hk & Hmin).
  exists out. split_and!; try done.
  - destruct Hk as [-> |Hk]; [|done]. rewrite app_nil_r in Heq. destruct Ht as (_ & -> & _). rewrite He.
    replace (remove_all out (entries c)) with (∅ : gmap str CacheEntry); [change (total ∅) with 0; apply target_range|].
    symmetry. apply map_empty. intros k. rewrite remove_all_lookup, <- Heq. destruct (bool_decide_reflect (k ∈ map path l)) as [|Hni]; [done|].
    destruct (entries c !! k) as [e|] eqn:Ee; [|done]. destruct Hni. rewrite <- (Hkey _ _ Ee). apply list_elem_of_fmap_2, Hin. eauto.
  - intros e k e' He1 He2. rewrite He, remove_all_lookup in He2. destruct (bool_decide_reflect (k ∈ map path out)) as [|Hni]; [done|].
    assert (Hk' : e' ∈ kept).
    { assert (Hel : e' ∈ l) by (apply Hin; eauto). rewrite Heq in Hel. apply elem_of_app in Hel as [Hel|Hel]; [|done].
      destruct Hni. rewrite <- (Hkey _ _ He2). by apply list_elem_of_fmap_2. }
    rewrite Heq in Hsort. apply StronglySorted_app in Hsort as (Hx & _ & _). by apply Hx.
Qed.

(** The file is written before anything is accounted. *)
Lemma put_writes now p data names c r c' :
  tracked c -> canonical names p -> put cache_dir max_bytes it now p data c = (r, c') ->
  (exists d, healthy d /\ r <> Ok tt /\ c' = {| entries := c.(entries); current_bytes := c.(current_bytes); disk := d |} /\ tracked c')
  \/ (exists f d, r = Ok tt /\ cache_path p = Ok f /\ file_at d.(nodes) f = Some data
       /\ tracked {| entries := c.(entries); current_bytes := c.(current_bytes); disk := d |}
       /\ c' = (insert_and_evict cache_dir max_bytes it now p (Z.of_nat (length data))
                  {| entries := c.(entries); current_bytes := c.(current_bytes); disk := d |}).2).
Proof.
  intros Hc Hcan H. unfold put in H. destruct (cache_path p) as [f|e] eqn:Ep.
  2: { injection H as <- <-. left. exists (disk c). split_and!; try done; [apply Hc|]. by destruct c. }
  cbn in H. unfold mbind, act_bind in H.
  assert (Hmk : exists r1 d1, (match unsnoc f with Some (parent, _) => on_disk (create_dir_all parent) | None => mret tt end) c
     = (r1, {| entries := c.(entries); current_bytes := c.(current_bytes); disk := d1 |})
     /\ tracked {| entries := c.(entries); current_bytes := c.(current_bytes); disk := d1 |}).
  { destruct (unsnoc f) as [[parent n]|]; [|eexists _, (disk c); by destruct c].
    destruct (on_disk (create_dir_all parent) c) as [r1 c1] eqn:E1. apply on_disk_inv in E1 as (r0 & E1 & -> & _).
    eexists _, _. split; [done|]. apply tracked_disk; [done|by eapply healthy_step, E1; apply Hc|].
    intros _ _ q b _ _ Hq. exists b. rewrite <- Hq. exact (frame_create_dir_all (fun _ => False) _ _ _ _ E1 q (fun x => x)). }
  destruct Hmk as (r1 & d1 & Hmk & Ht1). cbn in H. rewrite Hmk in H.
  destruct r1 as [[]|e].
  2: { injection H as <- <-. left. exists d1. split_and!; try done. apply Ht1. }
  destruct (on_disk (write f data) _) as [r2 c2] eqn:E2. apply on_disk_inv in E2 as (r0 & E2 & Hc2 & Hr). cbn in E2, Hc2.
  assert (Hd2 : healthy (disk c2)) by (eapply healthy_step, E2; apply Ht1).
  assert (Hkeep : forall q b, file_at d1.(nodes) q = Some b -> exists b', file_at (disk c2).(nodes) q = Some b').
  { intros q b Hq. destruct r0 as [[]|e].
    - apply write_ok in E2 as [_ ->]. destruct (bool_decide _); eauto.
    - exists b. rewrite <- Hq. f_equal. destruct (fs_call_healthy (put_file f data) (fun n m => snd (put_file f (take n data) m)) d1) as (H1 & H2 & _); [apply Ht1|].
      unfold write in E2. rewrite E2 in H1, H2. cbn in H1, H2. rewrite H2.
      destruct (put_file f data (nodes d1)) as [x m'] eqn:Ex. cbn in *. subst x. by apply put_file_err in Ex. }
  pose proof (tracked_disk _ _ Ht1 Hd2 (fun _ _ q b _ _ => Hkeep q b)) as Ht2. cbn in Ht2. rewrite <- Hc2 in Ht2.
  destruct r2 as [[]|e].
  - right. exists f, (disk c2). assert (r0 = Ok tt) as -> by (by apply Hr). apply write_ok in E2 as [_ Hw].
    injection H as <- <-. split_and!; try done; [by rewrite Hw, bool_decide_true|by rewrite Hc2 in Ht2|by rewrite Hc2].
  - injection H as <- <-. left. exists (disk c2). split_and!; try done.
Qed.

(** on a healthy disk, for paths written out: a put that succeeds leaves the total within the
    limit, equal to the sizes of the entries, each of which has its file; it evicts
    nothing when the new total fits, and otherwise the least recently used entries, no
    more than it takes to get under the target.  A put that fails changes no entry. *)
Theorem put_within_limit now p data names c r c' :
  tracked c -> c.(current_bytes) <= max_bytes -> canonical names p -> max_bytes + Z.of_nat (length data) < 2 ^ 64 ->
  put cache_dir max_bytes it now p data c = (r, c') ->
  tracked c' /\ c'.(current_bytes) <= max_bytes
  /\ match r with
     | Err _ => c'.(entries) = c.(entries)
     | Ok _ =>
         let added := account now p (Z.of_nat (length data)) c in
         exists out, c'.(entries) = remove_all out added.(entries)
           /\ (added.(current_bytes) <= max_bytes -> out = [])
           /\ (forall e k e', e ∈ out -> c'.(entries) !! k = Some e' -> e.(last_access) <= e'.(last_access))
           /\ (forall pre e, out = pre ++ [e] -> target < added.(current_bytes) - sum_sizes pre)
     end.
Proof.
  intros Hc Hle Hcan Hlt H. destruct (put_writes _ _ _ _ _ _ _ Hc Hcan H) as [(d & Hd & Hr & -> & Ht)|(f & d & -> & Hpath & Hf & Ht & ->)].
  { split_and!; try done. by destruct r as [[]|]. }
  pose proof (tracked_account _ now p names f data Ht Hcan Hpath Hf ltac:(cbn; lia)) as Ha.
  unfold insert_and_evict. cbn [snd]. set (a := account now p (Z.of_nat (length data)) {| entries := entries c; current_bytes := current_bytes c; disk := d |}) in *.
  change (entries (account now p (Z.of_nat (length data)) c)) with (entries a).
  change (current_bytes (account now p (Z.of_nat (length data)) c)) with (current_bytes a).
  destruct (current_bytes a >? max_bytes) eqn:E.
  - destruct (evict_lru_spec a Ha) as (out & He & Ht2 & Hb & Hlru & Hmin). pose proof target_range.
    split_and!; [done|lia|]. exists out. split_and!; try done. lia.
  - split_and!; [done|lia|]. exists []. split_and!; try done.
    + intros e k e' He. by apply not_elem_of_nil in He.
    + by intros [|? ?] e He.
Qed.

(** What was put is read back until it is evicted: every entry of a tracked cache has its
    content returned, and is then the most recent. *)
Theorem get_cached now c k e : tracked c -> c.(entries) !! k = Some e ->
  exists f b, cache_path k = Ok f /\ file_at c.(disk).(nodes) f = Some b
    /\ (get cache_dir now k c).1 = Some b
    /\ (get cache_dir now k c).2.(entries) = <[k := {| path := k; size := e.(size); last_access := now |}]> c.(entries)
    /\ (get cache_dir now k c).2.(current_bytes) = c.(current_bytes).
Proof.
  intros Hc Hk. destruct (proj1 Hc _ _ Hk) as (Hp & Hs & names & f & b & Hcan & Hpath & Hf). exists f, b.
  unfold get. rewrite Hpath. destruct (path_exists_healthy f (disk c) (proj2 (proj2 Hc))) as (d1 & -> & Hn1 & Hh1).
  rewrite bool_decide_true by (by eapply file_at_exists). cbn [entries current_bytes disk].
  destruct (read_healthy f d1 b Hh1) as (d2 & -> & _ & _); [by rewrite Hn1|]. cbn. split_and!; try done.
  apply map_eq. intros k'. destruct (decide (k = k')) as [<-|Hne].
  - by rewrite lookup_alter_eq, lookup_insert_eq, Hk, <- Hp.
  - by rewrite lookup_alter_ne, lookup_insert_ne.
Qed.

(** Evicting one path keeps the cache tracked. *)
Theorem evict_tracked p names c r c' : tracked c -> canonical names p -> evict cache_dir p c = (r, c') ->
  tracked c' /\ c'.(current_bytes) <= c.(current_bytes) /\ (r = Ok tt -> c'.(entries) !! p = None).
Proof.
  intros Hc Hcan H. unfold evict in H. destruct (cache_path p) as [f|e] eqn:Ep; [|by injection H as <- <-].
  assert (Hnn : 0 <= c.(current_bytes)).
  { destruct Hc as (Hall & -> & _). apply total_nonneg. intros k e Hk. apply (Hall _ _ Hk). }
  destruct (entries c !! p) as [e|] eqn:Ee.
  - destruct (evict_one _ _ _ Hc Ee) as (f' & d & Hf' & Hrm & Hs & Ht & _). pose proof (proj1 Hc _ _ Ee) as (Hpe & Hsz & _).
    rewrite Hpe, Ep in Hf'. injection Hf' as <-. rewrite Hrm in H. injection H as <- <-. split_and!; [done|cbn; unfold sat_sub; lia|].
    intros _. apply lookup_delete_eq.
  - destruct (remove_file f (disk c)) as [r1 d] eqn:Er. assert (Hd : healthy d) by (eapply healthy_step, Er; apply Hc).
    assert (Ht : tracked {| entries := entries c; current_bytes := current_bytes c; disk := d |}).
    { apply tracked_disk; try done. intros k e q b Hk Hq Hb. exists b. rewrite <- Hb.
      apply (frame_remove_file (fun x => x = f) f eq_refl _ _ _ Er). intros ->.
      destruct (proj1 Hc _ _ Hk) as (_ & _ & n2 & f2 & b2 & Hcan2 & Hp2 & _).
      rewrite (cache_path_names _ _ _ Hcan2 Hq) in Ep. apply (cache_path_names _ _ _ Hcan) in Ep.
      apply app_inv_head in Ep as ->. destruct Hcan as (_ & _ & ->), Hcan2 as (_ & _ & ->). congruence. }
    destruct r1 as [u|[]]; injection H as <- <-; split_and!; cbn; try done.
    + rewrite delete_id by done. unfold sat_sub. replace (Z.max _ _) with (current_bytes c) by lia. done.
    + unfold sat_sub. lia.
    + intros _. by rewrite delete_id.
Qed.

End Bound.

(** ** Where the promise fails *)

Definition abytes (n : nat) : list byte := repeat x00 n.
Definition keys_in_order (m : gmap str CacheEntry) : list (str * CacheEntry) := map_to_list m.
Definition empty_cache : Cache := {| entries := ∅; current_bytes := 0; disk := {| nodes := ∅; fates := [] |} |}.

(** Two spellings of one path are two entries with one file: evicting one removes the file of the other,
    whose size can then never be given back.  On a healthy disk, after two successful puts, the
    total exceeds the limit and the file just put is not there. *)
Theorem alias_exceeds_limit :
  let c1 := (put [lit "c"] 1000 keys_in_order 1 (lit "f") (abytes 10) empty_cache).2 in
  let '(r, c2) := put [lit "c"] 1000 keys_in_order 2 (lit "./f") (abytes 2000) c1 in
  r = Ok tt /\ c2.(current_bytes) = 2000 /\ (get [lit "c"] 3 (lit "./f") c2).1 = None.
Proof. vm_compute. split_and!; reflexivity. Qed.

(** [new] counts what it finds and evicts nothing. *)
Theorem new_exceeds_limit :
  let d := {| nodes := <[[lit "c"; lit "f"] := File (abytes 2000)]> (<[[lit "c"] := Dir]> ∅); fates := [] |} in
  exists c, new_cache [lit "c"] 1 d = Ok c /\ c.(current_bytes) = 2000.
Proof. eexists. split; vm_compute; reflexivity. Qed.

Lemma put_within_limit_witness :
  exists r c', put [lit "c"] 1000 map_to_list 1 (lit "f") (abytes 20) empty_cache = (r, c')
    /\ r = Ok tt /\ tracked [lit "c"] c' /\ c'.(current_bytes) <= 1000.
Proof.
  eexists _, _. split; [vm_compute; reflexivity|]. split; [reflexivity|].
  destruct (put_within_limit [lit "c"] 1000 map_to_list iter_of_self ltac:(unfold is_u; lia) 1 (lit "f") (abytes 20) [lit "f"] empty_cache
     (Ok tt) (put [lit "c"] 1000 map_to_list 1 (lit "f") (abytes 20) empty_cache).2) as (H1 & H2 & _).
  - split_and!; [apply map_Forall_empty|reflexivity|constructor].
  - vm_compute. discriminate.
  - split_and!; [done| |reflexivity]. repeat constructor; vm_compute; done.
  - vm_compute. reflexivity.
  - vm_compute. reflexivity.
  - split; [exact H1|exact H2].
Defined.
