(* ===== verification/Overlay.v ===== *)
(** * The overlay

    [runesh-vfs/src/overlay.rs]: [OverlayProvider], a copy-on-write layer over a read-only
    provider.  The lower provider is a parameter; the upper layer is a directory on disk;
    [modified] and [deleted] are the two sets the overlay keeps in memory, the second also
    in a file.  Every operation of the provider is one step, except [write_file], which is
    the composition of its three phases, so that two of them can be interleaved.  The theorems
    state what each operation does to what a reader sees, and where it does not do it. *)
From stdpp Require Import sorting.
From S2P Require Import Prelude Str Path Fs Cache Text.

#[local] Open Scope Z_scope.
#[local] Set Default Proof Using "Type".

(** [runesh-vfs/src/provider.rs]. *)
Record VfsEntry := {
  ename : str;
  epath : str;
  is_dir : bool;
  esize : Z;
  created : option Z;
  emodified : option Z;
  accessed : option Z;
  readonly : bool;
  is_hydrated : bool;
  content_hash : option str;
  content_type : option str;
  uid : option Z;
  gid : option Z
}.

Record Overlay := { modified : gset str; deleted : gset str; upper : Disk }.

Definition with_upper (d : Disk) (o : Overlay) : Overlay := {| modified := o.(modified); deleted := o.(deleted); upper := d |}.
Definition with_modified (f : gset str -> gset str) : act Overlay VfsError unit := fun o =>
  (Ok tt, {| modified := f o.(modified); deleted := o.(deleted); upper := o.(upper) |}).
Definition with_deleted (f : gset str -> gset str) : act Overlay VfsError unit := fun o =>
  (Ok tt, {| modified := o.(modified); deleted := f o.(deleted); upper := o.(upper) |}).

(** A call on the disk, its error turned into [VfsError::Io]. *)
Definition on_upper {A} (m : act Disk IoErrorKind A) : act Overlay VfsError A := fun o =>
  match m o.(upper) with
  | (Ok a, d) => (Ok a, with_upper d o)
  | (Err e, d) => (Err (Io e), with_upper d o)
  end.
Definition asking {A} (m : Disk -> A * Disk) : act Overlay VfsError A := fun o =>
  let '(a, d) := m o.(upper) in (Ok a, with_upper d o).
Definition reading {A} (f : Overlay -> A) : act Overlay VfsError A := fun o => (Ok (f o), o).

Definition safe_join (base : list str) (relative : str) : result VfsError (list str) :=
  if contains_char 0 relative then Err PathTraversal
  else match normal_only (components relative) with
       | None => Err PathTraversal
       | Some names =>
           if bool_decide (base `prefix_of` base ++ names) then Ok (base ++ names) else Err PathTraversal
       end.

(** [read_from_disk]: an optional range of a file. *)
Definition read_from_disk (p : list str) (offset length : Z) : act Disk IoErrorKind (list byte) :=
  b ← read p;
  let rest := drop (Z.to_nat offset) b in
  mret (if length >? 0 then take (Z.to_nat length) rest else rest).

Definition is_safe_deleted_entry (p : str) : bool :=
  if bool_decide (p = []) || contains_char 0 p then false
  else if starts_with [c_slash] p || starts_with [c_backslash] p then false
  else forallb (fun c => match c with Normal _ | CurDir => true | _ => false end) (components p).

Definition meta_prefix : str := lit ".overlay-".
Definition list_name : str := lit ".overlay-deleted.json".

Section OverlayProvider.
(** The lower provider, of which the overlay only calls these. *)
Context (lower_list_dir : str -> result VfsError (list VfsEntry)).
Context (lower_stat : str -> result VfsError VfsEntry).
Context (lower_read_file : str -> Z -> Z -> result VfsError (list byte)).
(** The JSON of the deleted list. *)
Context (to_json : gset str -> list byte) (from_json : list byte -> option (gset str)).
(** What the system says of a file besides its content: its times, and the length of a directory. *)
Context (stamps : list str -> option Z * option Z * option Z) (dir_len : Z).
(** The order of a directory listing, and [str::to_lowercase]. *)
Context (dir_order : list str -> list str) (to_lowercase : str -> str).
Context (upper_path : list str).

Definition upper_file (path : str) : result VfsError (list str) := safe_join upper_path path.
Definition has_upper (path : str) (o : Overlay) : bool := bool_decide (path ∈ o.(modified)).
Definition is_deleted (path : str) (o : Overlay) : bool := bool_decide (path ∈ o.(deleted)).

(** [if let Some(parent) = f.parent() { create_dir_all(parent)? }]. *)
Definition create_parent (f : list str) : act Overlay VfsError unit :=
  match unsnoc f with
  | Some (parent, _) => on_upper (create_dir_all parent)
  | None => mret tt
  end.

Definition copy_up (path : str) : act Overlay VfsError unit :=
  present ← reading (has_upper path);
  if (present : bool) then mret tt
  else
    content ← from_result (lower_read_file path 0 0);
    f ← from_result (upper_file path);
    _ ← create_parent f;
    _ ← on_upper (write f content);
    with_modified (union {[path]}).

Definition save_deleted_list (o : Overlay) : Overlay :=
  with_upper (quietly (write (upper_path ++ [list_name]) (to_json o.(deleted))) o.(upper)) o.

Definition saving : act Overlay VfsError unit := fun o => (Ok tt, save_deleted_list o).

Definition modified_files (o : Overlay) : gset str := o.(modified).

Definition len_of (n : node) : Z := match n with File b => Z.of_nat (length b) | Dir => dir_len end.

Definition entry_of (f : list str) (name path : str) (n : node) : VfsEntry :=
  let '(c, m, a) := stamps f in
  {| ename := name; epath := path; is_dir := match n with Dir => true | File _ => false end; esize := len_of n;
     created := c; emodified := m; accessed := a; readonly := false; is_hydrated := true;
     content_hash := None; content_type := None; uid := None; gid := None |}.

(** Replace the first entry of that name, or add one at the end. *)
Fixpoint replace_or_add (e : VfsEntry) (l : list VfsEntry) : list VfsEntry :=
  match l with
  | [] => [e]
  | x :: r => if bool_decide (x.(ename) = e.(ename)) then e :: r else x :: replace_or_add e r
  end.

(** Directories first, then by name in lower case. *)
Definition entry_le (a b : VfsEntry) : Prop :=
  (a.(is_dir) = true /\ b.(is_dir) = false)
  \/ (a.(is_dir) = b.(is_dir) /\ str_le (to_lowercase a.(ename)) (to_lowercase b.(ename)) = true).

Fixpoint merge_upper (dir : list str) (path : str) (names : list str) (entries : list VfsEntry) : act Overlay VfsError (list VfsEntry) :=
  match names with
  | [] => mret entries
  | name :: rest =>
      if starts_with meta_prefix name then merge_upper dir path rest entries
      else
        let entry_path := if bool_decide (path = []) then name else path ++ [c_slash] ++ name in
        n ← on_upper (metadata (dir ++ [name]));
        merge_upper dir path rest (replace_or_add (entry_of (dir ++ [name]) name entry_path n) entries)
  end.

#[local] Instance entry_le_dec a b : Decision (entry_le a b).
Proof. unfold entry_le. apply _. Defined.

Definition list_dir (path : str) : act Overlay VfsError (list VfsEntry) :=
  entries ← from_result (lower_list_dir path);
  entries ← reading (fun o => filter (fun e => e.(epath) ∉ o.(deleted)) entries);
  upper_dir ← from_result (upper_file path);
  there ← asking (path_is_dir upper_dir);
  entries ← (if (there : bool) then
               names ← on_upper (read_dir upper_dir);
               merge_upper upper_dir path (dir_order names) entries
             else mret entries);
  mret (merge_sort entry_le entries).

Definition stat (path : str) : act Overlay VfsError VfsEntry :=
  hidden ← reading (is_deleted path);
  if (hidden : bool) then from_result (Err (NotFound path))
  else
    f ← from_result (upper_file path);
    there ← asking (path_exists f);
    if (there : bool) then
      n ← on_upper (metadata f);
      mret (entry_of f (default [] (last f)) path n)
    else from_result (lower_stat path).

Definition read_file (path : str) (offset length : Z) : act Overlay VfsError (list byte) :=
  hidden ← reading (is_deleted path);
  if (hidden : bool) then from_result (Err (NotFound path))
  else
    f ← from_result (upper_file path);
    there ← asking (path_exists f);
    if (there : bool) then on_upper (read_from_disk f offset length)
    else from_result (lower_read_file path offset length).

(** [write_file], phase 1: is the file in the upper layer, and what does the lower one hold?
    [Some content] is to be copied up. *)
Definition write_prepare (path : str) : act Overlay VfsError (option (list byte)) :=
  present ← reading (has_upper path);
  if (present : bool) then mret None
  else
    _ ← from_result (upper_file path);
    match lower_read_file path 0 0 with
    | Ok content => mret (Some content)
    | Err (NotFound _) => mret (Some [])
    | Err e => from_result (Err e)
    end.

(** Phase 2: copy it up. *)
Definition write_copy (path : str) (content : option (list byte)) : act Overlay VfsError unit :=
  match content with
  | None => mret tt
  | Some content =>
      f ← from_result (upper_file path);
      _ ← create_parent f;
      _ ← on_upper (write f content);
      with_modified (union {[path]})
  end.

(** Phase 3: write to the upper layer, and take the path off the deleted ones. *)
Definition write_apply (path : str) (data : list byte) (offset : Z) : act Overlay VfsError unit :=
  f ← from_result (upper_file path);
  old ← (if offset =? 0 then
           asking (fun d => let '(r, d) := metadata f d in (match r with Ok n => len_of n | Err _ => 0 end, d))
         else mret 0);
  _ ← (if (offset =? 0) && (old <=? Z.of_nat (length data)) then on_upper (write f data)
       else on_upper (write_at f (Z.to_nat offset) data));
  with_deleted (fun s => s ∖ {[path]}).

Definition write_file (path : str) (data : list byte) (offset : Z) : act Overlay VfsError unit :=
  content ← write_prepare path;
  _ ← write_copy path content;
  write_apply path data offset.

Definition delete_path (path : str) : act Overlay VfsError unit :=
  f ← from_result (upper_file path);
  there ← asking (path_exists f);
  _ ← (if (there : bool) then
         dir ← asking (path_is_dir f);
         _ ← (if (dir : bool) then on_upper (remove_dir_all f) else on_upper (remove_file f));
         with_modified (fun s => s ∖ {[path]})
       else mret tt);
  _ ← with_deleted (union {[path]});
  saving.

Definition mkdir (path : str) : act Overlay VfsError unit :=
  f ← from_result (upper_file path);
  _ ← on_upper (create_dir_all f);
  _ ← with_modified (union {[path]});
  with_deleted (fun s => s ∖ {[path]}).

Definition rename_path (old_path new_path : str) : act Overlay VfsError unit :=
  _ ← copy_up old_path;
  old_upper ← from_result (upper_file old_path);
  new_upper ← from_result (upper_file new_path);
  _ ← create_parent new_upper;
  _ ← on_upper (rename old_upper new_upper);
  _ ← with_modified (fun s => {[new_path]} ∪ (s ∖ {[old_path]}));
  _ ← with_deleted (union {[old_path]});
  saving.

(** [scan_upper_dir]: every path below the directory, but for the overlay's own files. *)
Definition scan_upper_dir (m : gmap (list str) node) : gset str :=
  list_to_set (filter_map (fun kv =>
    match after upper_path kv.1 with
    | Some ((_ :: _) as names) => if existsb (starts_with meta_prefix) names then None else Some (join c_slash names)
    | _ => None
    end) (map_to_list m)).

Definition load_deleted_list (d : Disk) : gset str * Disk :=
  match read (upper_path ++ [list_name]) d with
  | (Err _, d) => (∅, d)
  | (Ok data, d) =>
      (match from_json data with
       | Some s => filter (fun p => is_safe_deleted_entry p = true) s
       | None => ∅
       end, d)
  end.

Definition new_overlay (d : Disk) : result VfsError Overlay :=
  match create_dir_all upper_path d with
  | (Err e, _) => Err (Io e)
  | (Ok _, d) =>
      let m := scan_upper_dir d.(nodes) in
      let '(del, d) := load_deleted_list d in
      Ok {| modified := m; deleted := del; upper := d |}
  end.

End OverlayProvider.

(** ** What a reader sees *)

Section Seen.
Context (lower_read_file : str -> Z -> Z -> result VfsError (list byte)).
Context (dir_len : Z) (upper_path : list str).

#[local] Abbreviation upper_file := (upper_file upper_path).
#[local] Abbreviation read_file := (read_file lower_read_file upper_path).
#[local] Abbreviation write_file := (write_file lower_read_file dir_len upper_path).

(** The content of the path [p], which is [f] in the upper layer. *)
Definition seen (o : Overlay) (p : str) (f : list str) : result VfsError (list byte) :=
  if bool_decide (p ∈ o.(deleted)) then Err (NotFound p)
  else match node_at o.(upper).(nodes) f with
       | Some (File b) => Ok b
       | Some Dir => Err (Io IsADirectory)
       | None => lower_read_file p 0 0
       end.


(** ** Writing *)

(** What a write starts from. *)
Definition write_base (o : Overlay) (p : str) (f : list str) : list byte :=
  if bool_decide (p ∈ o.(modified)) then default [] (file_at o.(upper).(nodes) f)
  else match lower_read_file p 0 0 with Ok c => c | Err _ => [] end.

Lemma on_upper_ok {A} (m : act Disk IoErrorKind A) o a o' : on_upper m o = (Ok a, o') ->
  exists d, m o.(upper) = (Ok a, d) /\ o' = with_upper d o.
Proof. unfold on_upper. destruct (m (upper o)) as [[x|e] d]; [|done]. intros [= -> <-]. by exists d. Qed.

(** Making the directories above a file. *)
Lemma parent_created f o o1 : create_parent f o = (Ok tt, o1) ->
  exists d1, o1 = with_upper d1 o /\ (forall g, ~ g `prefix_of` f -> node_at d1.(nodes) g = node_at o.(upper).(nodes) g)
    /\ (forall g, file_at d1.(nodes) g = file_at o.(upper).(nodes) g) /\ (healthy o.(upper) -> healthy d1).
Proof.
  intros H1. unfold create_parent in H1. destruct (unsnoc f) as [[par n]|] eqn:Eu.
  - apply on_upper_ok in H1 as (d1 & H1 & ->). exists d1. split_and!; [done| | |intros Hh; by eapply healthy_step, H1].
    + intros g Hg. apply (keeps_create_dir_all _ _ _ _ H1). intros Hp. apply Hg. apply unsnoc_some in Eu as ->. by apply prefix_app_r.
    + intros g. exact (frame_create_dir_all (fun _ => False) _ _ _ _ H1 g (fun x => x)).
  - injection H1 as <-. exists (upper o). by destruct o.
Qed.

(** Copying up: the file holds the content, and nothing else of the upper layer has changed but directories on the way. *)
Lemma copied o p f content o' :
  upper_file p = Ok f -> write_copy upper_path p (Some content) o = (Ok tt, o') ->
  f <> [] /\ o'.(modified) = {[p]} ∪ o.(modified) /\ o'.(deleted) = o.(deleted)
  /\ file_at o'.(upper).(nodes) f = Some content
  /\ (forall g, ~ g `prefix_of` f -> node_at o'.(upper).(nodes) g = node_at o.(upper).(nodes) g)
  /\ (forall g, g <> f -> file_at o'.(upper).(nodes) g = file_at o.(upper).(nodes) g)
  /\ (healthy o.(upper) -> healthy o'.(upper)).
Proof.
  intros Hf H. unfold write_copy in H. apply act_bind_ok in H as (f' & o1 & H1 & H). injection H1 as H1 <-.
  rewrite Hf in H1. injection H1 as <-. apply act_bind_ok in H as ([] & o1 & H1 & H).
  destruct (parent_created _ _ _ H1) as (d1 & -> & Hk1 & Hf1 & Hh1). apply act_bind_ok in H as ([] & o2 & H2 & H).
  apply on_upper_ok in H2 as (d2 & H2 & ->). cbn in H2. injection H as <-. cbn [with_upper modified deleted upper].
  pose proof (write_ok _ _ _ _ H2) as [Hne Hw]. split_and!; try done.
  - by rewrite Hw, bool_decide_true.
  - intros g Hg. rewrite <- Hk1 by done. apply (keeps_write _ _ _ _ _ H2). intros ->. by apply Hg.
  - intros g Hg. by rewrite Hw, bool_decide_false.
  - intros Hh. eapply healthy_step, H2. auto.
Qed.





(** ** Deleting *)

Context (to_json : gset str -> list byte) (from_json : list byte -> option (gset str)).

#[local] Abbreviation delete_path := (delete_path to_json upper_path).

Lemma deleted_after o p o' : delete_path p o = (Ok tt, o') ->
  exists f d, upper_file p = Ok f /\ o'.(deleted) = {[p]} ∪ o.(deleted)
    /\ o'.(upper) = quietly (write (upper_path ++ [list_name]) (to_json ({[p]} ∪ o.(deleted)))) d
    /\ (healthy o.(upper) -> healthy d)
    /\ forall g, after f g = None -> node_at d.(nodes) g = node_at o.(upper).(nodes) g.
Proof.
  clear lower_read_file dir_len. intros H. unfold Overlay.delete_path in H.
  apply act_bind_ok in H as (f & o1 & H1 & H). injection H1 as Hf <-.
  apply act_bind_ok in H as (there & o1 & H1 & H). unfold asking in H1.
  destruct (path_exists f (upper o)) as [b1 d1] eqn:E1. injection H1 as <- <-.
  assert (Hd1 : (healthy o.(upper) -> healthy d1) /\ d1.(nodes) = o.(upper).(nodes)).
  { unfold path_exists in E1. destruct (metadata f (upper o)) as [r d] eqn:Em. injection E1 as _ <-. split.
    - intros Hh. by eapply healthy_step, Em.
    - unfold metadata, fs_call in Em. destruct (default Works _); by injection Em as _ <-. }
  apply act_bind_ok in H as ([] & o2 & H2 & H). apply act_bind_ok in H as ([] & o3 & H3 & H). injection H3 as <-. injection H as <-. cbn.
  assert (Hd2 : exists d2, o2.(upper) = d2 /\ o2.(deleted) = o.(deleted) /\ (healthy o.(upper) -> healthy d2)
     /\ forall g, after f g = None -> node_at d2.(nodes) g = node_at o.(upper).(nodes) g).
  { exists o2.(upper). split; [done|]. destruct b1; [|by injection H2 as <-; cbn; rewrite (proj2 Hd1); tauto].
    apply act_bind_ok in H2 as (isdir & o3 & H3 & H2). unfold asking in H3. cbn [upper with_upper] in H3.
    destruct (path_is_dir f d1) as [b2 d2] eqn:E2. injection H3 as <- <-.
    assert (Hd2 : (healthy d1 -> healthy d2) /\ d2.(nodes) = d1.(nodes)).
    { unfold path_is_dir in E2. destruct (metadata f d1) as [r d] eqn:Em. injection E2 as _ <-. split.
      - intros Hh. by eapply healthy_step, Em.
      - unfold metadata, fs_call in Em. destruct (default Works _); by injection Em as _ <-. }
    apply act_bind_ok in H2 as ([] & o4 & H4 & H2). injection H2 as <-. cbn [deleted upper].
    destruct b2; apply on_upper_ok in H4 as (d3 & H4 & ->); cbn [upper with_upper deleted] in *.
    - split_and!; [done|intros Hh; eapply healthy_step, H4; tauto|]. intros g Hg. rewrite <- (proj2 Hd1), <- (proj2 Hd2).
      apply fs_call_ok in H4. destruct (node_at (nodes d2) f) as [[]|]; try done. injection H4 as <-.
      destruct g as [|x g]; [done|]. cbn [node_at]. rewrite map_lookup_filter. destruct (nodes d2 !! (x :: g)); [|done]. cbn. by rewrite option_guard_True.
    - split_and!; [done|intros Hh; eapply healthy_step, H4; tauto|]. intros g Hg. rewrite <- (proj2 Hd1), <- (proj2 Hd2).
      apply fs_call_ok in H4. destruct (node_at (nodes d2) f) as [[]|]; try done. injection H4 as <-.
      destruct g as [|x g]; [done|]. cbn [node_at]. rewrite lookup_delete_ne; [done|]. intros ->. by rewrite after_self in Hg. }
  destruct Hd2 as (d2 & Hu & Hdel & Hh2 & Hk2). exists f, d2. rewrite Hu, Hdel. split_and!; auto.
Qed.

(** a path that was deleted is not found, neither by [read_file] nor by [stat]; and if the list of
    deleted paths can be written and read back, it is still not found after a restart. *)
Theorem delete_hides o p o' :
  delete_path p o = (Ok tt, o') -> healthy o.(upper) ->
  (forall off len, (Overlay.read_file lower_read_file upper_path p off len o').1 = Err (NotFound p))
  /\ (forall q, q ∈ o.(deleted) -> q ∈ o'.(deleted))
  /\ (is_safe_deleted_entry p = true -> node_at o.(upper).(nodes) upper_path = Some Dir ->
      node_at o.(upper).(nodes) (upper_path ++ [list_name]) <> Some Dir ->
      (forall f, upper_file p = Ok f -> after f upper_path = None /\ after f (upper_path ++ [list_name]) = None) ->
      from_json (to_json ({[p]} ∪ o.(deleted))) = Some ({[p]} ∪ o.(deleted)) ->
      forall o'', new_overlay from_json upper_path o'.(upper) = Ok o'' ->
        forall off len, (Overlay.read_file lower_read_file upper_path p off len o'').1 = Err (NotFound p)).
Proof.
  intros H Hh. destruct (deleted_after _ _ _ H) as (f & d & Hf & Hdel & Hup & Hhd & Hk).
  assert (Hnf : forall o1, p ∈ o1.(deleted) -> forall off len, (Overlay.read_file lower_read_file upper_path p off len o1).1 = Err (NotFound p)).
  { intros o1 Hin off len. unfold Overlay.read_file, mbind, act_bind, reading, is_deleted. by rewrite bool_decide_true. }
  split_and!; [apply Hnf; set_solver|set_solver|]. intros Hsafe Hdir Hlist Hout Hjson o'' Hnew.
  apply Hnf. destruct (Hout f Hf) as [Ho1 Ho2]. set (L := upper_path ++ [list_name]) in *. set (s := {[p]} ∪ deleted o) in *.
  destruct (call_healthy (put_file L (to_json s)) (fun n m => snd (put_file L (take n (to_json s)) m)) d (Ok tt) (<[L := File (to_json s)]> d.(nodes)) (Hhd Hh))
    as (d1 & Hw & Hn1 & Hh1).
  { unfold put_file. replace (in_dir (nodes d) L) with (Ok (E := IoErrorKind) tt) by (symmetry; apply in_dir_ok; by rewrite Hk). rewrite <- Hk in Hlist by done. unfold L in *.
    destruct (upper_path ++ [list_name]) as [|x l] eqn:El; [by destruct upper_path|]. cbn [node_at] in Hlist.
    by destruct (nodes d !! (x :: l)) as [[]|]. }
  unfold quietly, write in Hup. rewrite Hw in Hup. cbn in Hup. unfold new_overlay in Hnew. rewrite Hup in Hnew.
  destruct (create_dir_all upper_path d1) as [[[]|e] d2] eqn:Ec; [|done].
  assert (Hh2 : healthy d2) by (by eapply healthy_step, Ec). unfold load_deleted_list in Hnew. fold L in Hnew.
  assert (HL : file_at d2.(nodes) L = Some (to_json s)).
  { rewrite (frame_create_dir_all (fun _ => False) _ _ _ _ Ec L (fun x => x)), Hn1. apply file_at_lookup.
    split; [by unfold L; destruct upper_path|apply lookup_insert_eq]. }
  destruct (read_healthy L d2 _ Hh2 HL) as (d3 & Hr & _ & _). rewrite Hr, Hjson in Hnew. injection Hnew as <-. cbn.
  apply elem_of_filter. split; [done|]. set_solver.
Qed.

(** ** Renaming *)

#[local] Abbreviation rename_path := (rename_path lower_read_file to_json upper_path).

(** renaming a file onto a path that is not deleted: the new path holds what the old one held, the
    old path is not found. *)
Theorem rename_moves o p q f g b o' :
  healthy o.(upper) -> upper_file p = Ok f -> upper_file q = Ok g -> f <> g -> p <> q ->
  (p ∈ o.(modified) -> is_Some (file_at o.(upper).(nodes) f)) ->
  b = write_base o p f -> q ∉ o.(deleted) -> g <> upper_path ++ [list_name] ->
  rename_path p q o = (Ok tt, o') ->
  seen o' q g = Ok b /\ seen o' p f = Err (NotFound p).
Proof.
  intros Hh Hf Hg Hne Hpq Hmod -> Hq Hlist H. unfold Overlay.rename_path in H.
  apply act_bind_ok in H as ([] & o1 & H1 & H).
  assert (Hc : healthy o1.(upper) /\ file_at o1.(upper).(nodes) f = Some (write_base o p f) /\ o1.(deleted) = o.(deleted)).
  { unfold copy_up in H1. apply act_bind_ok in H1 as (pres & o0 & H0 & H1). injection H0 as <- <-. unfold has_upper, write_base in *.
    destruct (bool_decide_reflect (p ∈ modified o)) as [Hin|Hin].
    - injection H1 as <-. destruct (Hmod Hin) as [b Hb]. by rewrite Hb.
    - apply act_bind_ok in H1 as (content & o0 & H0 & H1). injection H0 as Hl <-. rewrite Hl.
      destruct (copied _ _ _ content o1 Hf H1) as (_ & _ & Hd & Hfile & _ & _ & Hheal). auto. }
  destruct Hc as (Hh1 & Hf1 & Hd1). rewrite Hf, Hg in H. cbn in H. unfold mbind at 1, act_bind at 1 in H. cbn [from_result] in H.
  apply act_bind_ok in H as (g' & o2 & H2 & H). injection H2 as <- <-. apply act_bind_ok in H as ([] & o2 & H2 & H).
  destruct (parent_created _ _ _ H2) as (d2 & -> & _ & Hf2 & Hh2). apply act_bind_ok in H as ([] & o3 & H3 & H).
  apply on_upper_ok in H3 as (d3 & H3 & ->). cbn [upper with_upper] in H3.
  pose proof (rename_file_ok _ _ _ _ (write_base o p f) H3 ltac:(by rewrite Hf2) Hne g) as Hr. rewrite bool_decide_true in Hr by done.
  apply act_bind_ok in H as ([] & o4 & H4 & H). injection H4 as <-. apply act_bind_ok in H as ([] & o5 & H5 & H). injection H5 as <-.
  injection H as <-. unfold seen. cbn [save_deleted_list with_upper deleted upper modified]. rewrite Hd1.
  rewrite (bool_decide_false (q ∈ _)) by set_solver. rewrite (bool_decide_true (p ∈ _)) by set_solver. split; [|done].
  assert (Hs : file_at (quietly (write (upper_path ++ [list_name]) (to_json ({[p]} ∪ deleted o))) d3).(nodes) g = Some (write_base o p f)).
  { rewrite (frame_quietly (fun x => x = upper_path ++ [list_name])); [done| |done]. by apply frame_write. }
  unfold file_at in Hs. destruct (node_at _ g) as [[]|]; try done. by injection Hs as ->.
Qed.

End Seen.

(** ** Examples *)

Definition bytes (s : string) : list byte := map z2b (lit s).

(** A lower provider with a file, and a file in a directory. *)
Definition a_lower (p : str) (off len : Z) : result VfsError (list byte) :=
  if bool_decide (p = lit "a") then Ok (bytes "hello world")
  else if bool_decide (p = lit "d/b") then Ok (bytes "below d")
  else Err (NotFound p).

(** A format for the list: one path to a line. *)
Definition lines (s : gset str) : list byte := concat (map (fun p => map z2b (p ++ [c_nl])) (elements s)).
Definition of_lines (b : list byte) : option (gset str) :=
  Some (list_to_set (filter (fun l => l <> []) (split c_nl (map b2z b)))).

Definition fresh : Overlay := {| modified := ∅; deleted := ∅; upper := {| nodes := ∅; fates := [] |} |}.
Definition ov_read (p : string) (o : Overlay) : result VfsError (list byte) := (read_file a_lower [] (lit p) 0 0 o).1.
Definition ov_write (p data : string) (off : Z) (o : Overlay) : Overlay := (write_file a_lower 4096 [] (lit p) (bytes data) off o).2.
Definition ov_delete (p : string) (o : Overlay) : Overlay := (delete_path lines [] (lit p) o).2.
Definition ov_rename (p q : string) (o : Overlay) : Overlay := (rename_path a_lower lines [] (lit p) (lit q) o).2.
Definition restarted (o : Overlay) : option Overlay := ok (new_overlay of_lines [] o.(upper)).


(** A call that gave [r]. *)
Lemma ran {T E A} (x : result E A * T) r : x.1 = r -> x = (r, x.2).
Proof. destruct x. cbn. by intros ->. Qed.

Lemma delete_hides_witness :
  (forall off len, (read_file a_lower [] (lit "a") off len (ov_delete "a" fresh)).1 = Err (NotFound (lit "a")))
  /\ forall o'', new_overlay of_lines [] (ov_delete "a" fresh).(upper) = Ok o'' ->
       forall off len, (read_file a_lower [] (lit "a") off len o'').1 = Err (NotFound (lit "a")).
Proof.
  assert (H0 : delete_path lines [] (lit "a") fresh = (Ok tt, ov_delete "a" fresh)) by (apply ran; vm_compute; reflexivity).
  destruct (delete_hides a_lower [] lines of_lines fresh (lit "a") (ov_delete "a" fresh) H0 ltac:(constructor)) as (H1 & _ & H2).
  split; [exact H1|]. apply H2.
  - vm_compute. reflexivity.
  - reflexivity.
  - vm_compute. discriminate.
  - intros f Hf. vm_compute in Hf. injection Hf as <-. split; vm_compute; reflexivity.
  - vm_compute. reflexivity.
Defined.

Lemma rename_moves_witness :
  seen a_lower (ov_rename "a" "c" fresh) (lit "c") [lit "c"] = Ok (bytes "hello world")
  /\ seen a_lower (ov_rename "a" "c" fresh) (lit "a") [lit "a"] = Err (NotFound (lit "a")).
Proof.
  apply (rename_moves a_lower [] lines fresh (lit "a") (lit "c") [lit "a"] [lit "c"] (bytes "hello world") (ov_rename "a" "c" fresh)).
  1: constructor.
  1, 2: vm_compute; reflexivity.
  1, 2: vm_compute; discriminate.
  - intros Hin. by apply not_elem_of_empty in Hin.
  - vm_compute. reflexivity.
  - apply not_elem_of_empty.
  - vm_compute. discriminate.
  - apply ran. vm_compute. reflexivity.
Defined.

(** ** Where the overlay does not do what it says *)

(** A file that is created again after it was deleted starts with the deleted content: the copy-up of
    [write_file] does not look at the deleted set. *)
Theorem write_after_delete_resurrects :
  ov_read "a" (ov_delete "a" fresh) = Err (NotFound (lit "a"))
  /\ ov_read "a" (ov_write "a" "hi" 0 (ov_delete "a" fresh)) = Ok (bytes "hillo world").
Proof. split; vm_compute; reflexivity. Qed.

(** The path taken off the deleted set by a write is still in the file: after a restart what was written
    is not found, although it is on disk. *)
Theorem undelete_not_saved :
  let o := ov_write "n" "new" 0 (ov_delete "n" fresh) in
  ov_read "n" o = Ok (bytes "new")
  /\ match restarted o with
     | Some o' => ov_read "n" o' = Err (NotFound (lit "n")) /\ file_at o'.(upper).(nodes) [lit "n"] = Some (bytes "new")
     | None => False
     end.
Proof. vm_compute. split_and!; reflexivity. Qed.

(** A rename onto a deleted path succeeds, and the file can be found under neither name. *)
Theorem rename_onto_deleted_loses :
  let '(r, o) := rename_path a_lower lines [] (lit "a") (lit "b") (ov_delete "b" fresh) in
  r = Ok tt /\ ov_read "a" o = Err (NotFound (lit "a")) /\ ov_read "b" o = Err (NotFound (lit "b")).
Proof. vm_compute. split_and!; reflexivity. Qed.

(** Deleting a directory hides the directory, not what the lower layer has in it; *)
Theorem deleted_directory_shows_children :
  let o := ov_delete "d" fresh in
  (stat (fun p => Err (NotFound p)) (fun _ => (None, None, None)) 0 [] (lit "d") o).1 = Err (NotFound (lit "d"))
  /\ ov_read "d/b" o = Ok (bytes "below d").
Proof. split; vm_compute; reflexivity. Qed.

(** and what the upper layer had in it stays in the modified set, so that writing it again fails. *)
Theorem write_below_deleted_directory_fails :
  let o := ov_delete "e" (ov_write "e/x" "1" 0 fresh) in
  (write_file a_lower 4096 [] (lit "e/x") (bytes "2") 0 o).1 = Err (Io Fs.NotFound).
Proof. vm_compute. reflexivity. Qed.

(** Two writes of different parts of a file that is not yet in the upper layer: the locks of [copy_up]
    are not taken by [write_file], so that the second copy overwrites the first write. *)
Theorem concurrent_writes_lose_one :
  let p := lit "a" in
  let '(c1, o1) := write_prepare a_lower [] p fresh in
  let '(c2, o2) := write_prepare a_lower [] p o1 in
  match c1, c2 with
  | Ok c1, Ok c2 =>
      let o3 := (write_copy [] p c1 o2).2 in
      let '(r1, o4) := write_apply 4096 [] p (bytes "H") 0 o3 in
      let o5 := (write_copy [] p c2 o4).2 in
      let '(r2, o6) := write_apply 4096 [] p (bytes "!") 5 o5 in
      r1 = Ok tt /\ r2 = Ok tt /\ ov_read "a" o6 = Ok (bytes "hello!world")
  | _, _ => False
  end.
Proof. vm_compute. split_and!; reflexivity. Qed.

(** The overlay's own list can be written through the overlay. *)
Theorem list_can_be_overwritten :
  let o := ov_write ".overlay-deleted.json" "a" 0 (ov_delete "n" fresh) in
  match restarted o with Some o' => ov_read "a" o' = Err (NotFound (lit "a")) | None => False end.
Proof. vm_compute. reflexivity. Qed.
