(* ===== verification/RemoteFs.v ===== *)
(** * Remote file access

    [runesh-remote/src/fs/security.rs], [explorer.rs] and [archive.rs]: the sandbox that a
    remote client's paths are resolved in, the operations on files behind it, and zip
    archives of them.  The file system has symbolic links, which the calls of the system
    follow; [walk] is the resolution of a path, at most 40 links deep.  The theorems
    state what [resolve_path] guarantees of the path it returns, that reads stay inside the
    sandbox, and three ways out of it.  Listing, searching and moving are in [Explorer]. *)
From S2P Require Import Prelude Str Path.

#[local] Open Scope Z_scope.

(** ** A file system with links *)

Inductive lnode : Type := LFile (content : list byte) | LDir | LLink (target : path).
Abbreviation ltree := (gmap (list str) lnode) (only parsing).

Definition drop_last (cur : list str) : list str := take (length cur - 1) cur.

(** Resolving a path: [cur] is the directory reached.  [missing_ok] lets the last name be
    absent, as when a file is to be created. *)
Fixpoint walk_from (missing_ok : bool) (links : nat) (fs : ltree) : list str -> path -> option (list str) :=
  fix go (cur : list str) (todo : path) : option (list str) :=
    match todo with
    | [] => Some cur
    | RootDir :: r => go [] r
    | CurDir :: r => go cur r
    | ParentDir :: r => go (drop_last cur) r
    | Normal n :: r =>
        match fs !! (cur ++ [n]) with
        | None => if missing_ok && bool_decide (r = []) then Some (cur ++ [n]) else None
        | Some LDir => go (cur ++ [n]) r
        | Some (LFile _) => if bool_decide (r = []) then Some (cur ++ [n]) else None
        | Some (LLink target) =>
            match links with
            | O => None
            | S l => walk_from missing_ok l fs cur (target ++ r)
            end
        end
    end.

Definition MAX_LINKS : nat := 40.

Definition lnode_at (fs : ltree) (p : list str) : option lnode := match p with [] => Some LDir | _ => fs !! p end.

(** [fs::canonicalize]; [Path::exists], [is_file] and [is_dir] follow links. *)
Definition canonicalize (fs : ltree) (p : path) : option (list str) := walk_from false MAX_LINKS fs [] p.
Definition exists_path (fs : ltree) (p : path) : bool := bool_decide (is_Some (canonicalize fs p)).
Definition follow (fs : ltree) (p : path) : option lnode := q ← canonicalize fs p; lnode_at fs q.
Definition is_dir (fs : ltree) (p : path) : bool := match follow fs p with Some LDir => true | _ => false end.
Definition is_file (fs : ltree) (p : path) : bool := match follow fs p with Some (LFile _) => true | _ => false end.

(** [fs::read], [fs::write]: opening a file follows links, also one whose target does not exist yet. *)
Definition os_read (fs : ltree) (p : path) : option (list byte) :=
  match follow fs p with Some (LFile b) => Some b | _ => None end.
Definition os_write (fs : ltree) (p : path) (f : list byte -> list byte) : option ltree :=
  q ← walk_from true MAX_LINKS fs [] p;
  match lnode_at fs q with
  | Some (LFile b) => Some (<[q := LFile (f b)]> fs)
  | None => Some (<[q := LFile (f [])]> fs)
  | _ => None
  end.

(** The names in a directory. *)
Definition names_in (fs : ltree) (q : list str) : list str :=
  filter_map (fun kv => match unsnoc kv.1 with
                        | Some (dir, n) => if bool_decide (dir = q) then Some n else None
                        | None => None
                        end) (map_to_list fs).

(** [create_dir_all]: every directory on the way. *)
Fixpoint make_dirs (pre rest : list str) (fs : ltree) : option ltree :=
  match rest with
  | [] => Some fs
  | n :: r =>
      match fs !! (pre ++ [n]) with
      | None => make_dirs (pre ++ [n]) r (<[pre ++ [n] := LDir]> fs)
      | Some LDir => make_dirs (pre ++ [n]) r fs
      | Some _ => None
      end
  end.

(** ** The policy *)

Inductive PtyStage : Type :=
  | NoUserSession | EnumerateSessions | QueryUserToken | LogonUser | CreatePipe | CreatePseudoConsole
  | InitializeProcThreadAttributeList | UpdateProcThreadAttribute | CreateEnvironmentBlock | CreateProcessAsUser
  | ReadFile | WriteFile | ResizePseudoConsole.

(** The errors of the operating system are not told apart. *)
Inductive RemoteError : Type :=
  | NotFound (s : str)
  | AccessDenied (s : str)
  | PathTraversal (s : str)
  | NotAllowed (s : str)
  | Io
  | SessionNotFound (s : str)
  | MaxSessions
  | SessionTimeout
  | BadRequest (s : str)
  | Serialization (s : str)
  | Internal (s : str)
  | Pty (stage : PtyStage).

Record FsPolicy := {
  root : path;
  allow_write : bool;
  allow_delete : bool;
  allow_execute : bool;
  max_upload_size : Z;
  max_read_bytes : Z;
  max_depth : Z;
  blocked_extensions : list str;
  blocked_patterns : list str
}.

(** [Default]: the root is the current directory, or the temporary one. *)
Definition default_policy (root : path) : FsPolicy :=
  {| root := root; allow_write := true; allow_delete := true; allow_execute := false;
     max_upload_size := 104857600; max_read_bytes := 104857600; max_depth := 50;
     blocked_extensions := []; blocked_patterns := [lit ".git"; lit ".env"] |}.

Definition read_only (root : path) : FsPolicy :=
  {| root := root; allow_write := false; allow_delete := false; allow_execute := false;
     max_upload_size := 104857600; max_read_bytes := 104857600; max_depth := 50;
     blocked_extensions := []; blocked_patterns := [lit ".git"; lit ".env"] |}.

Definition check_write (policy : FsPolicy) : result RemoteError unit :=
  if negb policy.(allow_write) then Err (NotAllowed (lit "Write operations are disabled")) else Ok tt.
Definition check_delete (policy : FsPolicy) : result RemoteError unit :=
  if negb policy.(allow_delete) then Err (NotAllowed (lit "Delete operations are disabled")) else Ok tt.

(** The message of an I/O error is not modelled. *)
Definition canon_root (fs : ltree) (policy : FsPolicy) : result RemoteError (list str) :=
  ok_or (Internal (lit "Failed to canonicalize root: ")) (canonicalize fs policy.(root)).

(** The checks on the text of the path. *)
Definition check_text (requested : str) : result RemoteError path :=
  if contains_char 0 requested then Err (PathTraversal (lit "Path must not contain null bytes"))
  else if starts_with [c_backslash; c_backslash] requested || starts_with [c_slash; c_slash] requested
          || starts_with [c_backslash; 63; c_backslash] requested || starts_with [c_backslash; c_dot; c_backslash] requested
  then Err (PathTraversal (lit "UNC, device, and NT namespace paths are not allowed"))
  else
    let as_path := components requested in
    if is_absolute as_path then Err (PathTraversal (lit "Absolute paths are not allowed"))
    else try_for (fun comp (_ : path) =>
           match comp with
           | RootDir => Err (PathTraversal (lit "Absolute or drive-qualified paths are not allowed"))
           | ParentDir => Err (PathTraversal (lit "Path must not contain '..'"))
           | _ => Ok as_path
           end) as_path as_path.

(** The path, or for a file that is still to be made its name below the path of its directory. *)
Definition locate (fs : ltree) (full_path : path) : result RemoteError (list str) :=
  if exists_path fs full_path then
    ok_or (Internal (lit "Failed to canonicalize path: ")) (canonicalize fs full_path)
  else
    parent ← ok_or (BadRequest (lit "Invalid path: no parent directory")) (parent full_path);
    file_name ← ok_or (BadRequest (lit "Invalid path: no file name")) (file_name full_path);
    canonical_parent ← ok_or (NotFound (lit "Parent directory not found: ")) (canonicalize fs parent);
    Ok (canonical_parent ++ [file_name]).

(** The checks on the path itself: inside the root, no blocked pattern, no blocked extension. *)
Definition check_canonical (policy : FsPolicy) (canonical_root canonical : list str) : result RemoteError (list str) :=
  if negb (bool_decide (canonical_root `prefix_of` canonical)) then Err (PathTraversal (lit "Path escapes sandbox root"))
  else match head (filter (fun pattern => contains_str pattern (display_absolute canonical) = true) policy.(blocked_patterns)) with
       | Some pattern => Err (NotAllowed (lit "Access to '" ++ pattern ++ lit "' paths is blocked"))
       | None =>
           match last canonical ≫= extension_of with
           | None => Ok canonical
           | Some ext =>
               let ext_str := c_dot :: ext in
               if existsb (fun blocked => eq_ignore_ascii_case ext_str blocked) policy.(blocked_extensions)
               then Err (NotAllowed (lit "File extension '" ++ ext_str ++ lit "' is blocked"))
               else Ok canonical
           end
       end.

Definition resolve_path (fs : ltree) (policy : FsPolicy) (requested : str) : result RemoteError (list str) :=
  if bool_decide (requested = []) then canon_root fs policy
  else
    as_path ← check_text requested;
    canonical_root ← canon_root fs policy;
    canonical ← locate fs (join_path (absolute canonical_root) as_path);
    check_canonical policy canonical_root canonical.

(** ** Files *)

Definition bslice (b : list byte) (offset want : Z) : option (list byte) :=
  let r := take (Z.to_nat want) (drop (Z.to_nat offset) b) in
  if Z.of_nat (length r) =? want then Some r else None.

Section Explorer.
Context (sha256_hex : list byte -> str).

Definition read_file (fs : ltree) (policy : FsPolicy) (p : str) (offset length : Z) : result RemoteError (list byte * Z * str) :=
  resolved ← resolve_path fs policy p;
  if negb (is_file fs (absolute resolved)) then Err (BadRequest (lit "Not a file: " ++ p))
  else
    content ← ok_or Io (os_read fs (absolute resolved));
    let total_size := Z.of_nat (List.length content) in
    let requested := if length =? 0 then sat_sub total_size offset else length in
    if requested >? policy.(max_read_bytes) then
      Err (NotAllowed (lit "read size " ++ show_uint requested ++ lit " exceeds max_read_bytes " ++ show_uint policy.(max_read_bytes) ++ lit "; use chunked download"))
    else
      buffer ← (if (offset =? 0) && ((length =? 0) || (length >=? total_size)) then ok_or Io (os_read fs (absolute resolved))
                else ok_or Io (bslice content offset requested));
      Ok (buffer, total_size, sha256_hex buffer).

Definition write_file (fs : ltree) (policy : FsPolicy) (p : str) (data : list byte) (append : bool) : result RemoteError Z * ltree :=
  match (_ ← check_write policy; resolve_path fs policy p) with
  | Err e => (Err e, fs)
  | Ok resolved =>
      match os_write fs (absolute resolved) (fun old => if append then old ++ data else data) with
      | None => (Err Io, fs)
      | Some fs' => (Ok (Z.of_nat (length data)), fs')
      end
  end.

(** [delete]: a directory with everything below it when [recursive], an empty one otherwise; a link
    is removed itself. *)
Definition below_or_at (q k : list str) : bool := bool_decide (q `prefix_of` k).
Definition delete_entry (fs : ltree) (policy : FsPolicy) (p : str) (recursive : bool) : result RemoteError unit * ltree :=
  match (_ ← check_delete policy; resolve_path fs policy p) with
  | Err e => (Err e, fs)
  | Ok resolved =>
      if is_dir fs (absolute resolved) then
        if recursive then (Ok tt, filter (fun kv => below_or_at resolved kv.1 = false) fs)
        else if bool_decide (names_in fs resolved = []) then (Ok tt, delete resolved fs) else (Err Io, fs)
      else match lnode_at fs resolved with
           | Some _ => (Ok tt, delete resolved fs)
           | None => (Err Io, fs)
           end
  end.

(** [copy_dir_recursive].  [depth] is how deep the system lets directories be nested: the copy of a
    directory into itself fails only there.  What was copied before an error stays. *)
Fixpoint copy_dir_recursive (depth : nat) (fs : ltree) (src dst : list str) : result RemoteError unit * ltree :=
  match depth with
  | O => (Err Io, fs)
  | S n =>
      match make_dirs [] dst fs with
      | None => (Err Io, fs)
      | Some fs0 =>
          (fix entries (names : list str) (fs : ltree) : result RemoteError unit * ltree :=
             match names with
             | [] => (Ok tt, fs)
             | name :: rest =>
                 let s := src ++ [name] in
                 let d := dst ++ [name] in
                 if is_dir fs (absolute s) then
                   match copy_dir_recursive n fs s d with
                   | (Ok _, fs') => entries rest fs'
                   | failed => failed
                   end
                 else match os_read fs (absolute s) with
                      | None => (Err Io, fs)
                      | Some b => match os_write fs (absolute d) (fun _ => b) with
                                  | None => (Err Io, fs)
                                  | Some fs' => entries rest fs'
                                  end
                      end
             end) (names_in fs0 src) fs0
      end
  end.

Definition copy (depth : nat) (fs : ltree) (policy : FsPolicy) (src dst : str) : result RemoteError unit * ltree :=
  match (_ ← check_write policy; s ← resolve_path fs policy src; d ← resolve_path fs policy dst; Ok (s, d)) with
  | Err e => (Err e, fs)
  | Ok (src_path, dst_path) =>
      if is_dir fs (absolute src_path) then copy_dir_recursive depth fs src_path dst_path
      else match (b ← os_read fs (absolute src_path); os_write fs (absolute dst_path) (fun _ => b)) with
           | None => (Err Io, fs)
           | Some fs' => (Ok tt, fs')
           end
  end.

End Explorer.

(** ** Archives *)

(** The entries of an archive: a directory, or a file with its content. *)
Definition zip : Type := list (str * option (list byte)).

Definition relative (root p : list str) : str := join c_slash (drop (length root) p).

(** [WalkDir] does not follow links; [path.is_file] does. *)
Definition add_dir_to_zip (fs : ltree) (root dir : list str) (z : zip) : zip :=
  foldl (fun z p =>
    let rel := relative root p in
    match os_read fs (absolute p) with
    | Some b => z ++ [(rel, Some b)]
    | None => if is_dir fs (absolute p) && negb (bool_decide (rel = [])) then z ++ [(rel ++ [c_slash], None)] else z
    end) z (filter (fun p => below_or_at dir p = true) (map fst (map_to_list fs))).

Definition create_zip_archive (fs : ltree) (policy : FsPolicy) (paths : list str) : result RemoteError zip :=
  resolved_paths ← try_for (fun p acc => r ← resolve_path fs policy p; Ok (acc ++ [r])) paths [];
  root ← canon_root fs policy;
  Ok (foldl (fun z p =>
        match os_read fs (absolute p) with
        | Some b => z ++ [(relative root p, Some b)]
        | None => if is_dir fs (absolute p) then add_dir_to_zip fs root p z else z
        end) [] resolved_paths).

(** ** Paths without links *)

(** Every name of [p] is a directory, and the last one may be a file. *)
Definition dirs (fs : ltree) (p : list str) : Prop := forall k, (k < length p)%nat -> fs !! take (S k) p = Some LDir.
Definition clean (fs : ltree) (p : list str) : Prop :=
  dirs fs p \/ exists q n b, p = q ++ [n] /\ dirs fs q /\ fs !! p = Some (LFile b).

Lemma dirs_nil fs : dirs fs [].
Proof. intros k Hk. cbn in Hk. lia. Qed.

Lemma dirs_snoc fs p n : dirs fs p -> fs !! (p ++ [n]) = Some LDir -> dirs fs (p ++ [n]).
Proof.
  intros Hp Hn k Hk. rewrite length_app in Hk. cbn in Hk. destruct (decide (k = length p)) as [->|Hne].
  - rewrite take_ge; [done|]. rewrite length_app. cbn. lia.
  - rewrite take_app_le by lia. apply Hp. lia.
Qed.

Lemma dirs_take fs p n : dirs fs p -> dirs fs (take n p).
Proof. intros Hp k Hk. rewrite length_take in Hk. rewrite take_take, Nat.min_l by lia. apply Hp. lia. Qed.

Lemma dirs_drop_last fs p : dirs fs p -> dirs fs (drop_last p).
Proof. apply dirs_take. Qed.

(** A resolved path has no links left. *)
Lemma walk_clean links fs : forall todo cur p, walk_from false links fs cur todo = Some p -> dirs fs cur -> clean fs p.
Proof.
  induction links as [|l IHl]; induction todo as [|[| | |n] todo IH]; intros cur p H Hc; cbn [walk_from] in H;
    try (injection H as <-; by left); try (eapply IH; [exact H|]; auto using dirs_nil, dirs_drop_last);
    destruct (fs !! (cur ++ [n])) as [[b| |t]|] eqn:En; try done.
  1, 3: destruct (bool_decide _); [|done]; injection H as <-; right; by exists cur, n, b.
  - eapply IH; [exact H|]. by apply dirs_snoc.
  - eapply IH; [exact H|]. by apply dirs_snoc.
  - eapply IHl; [exact H|done].
Qed.

(** A path without links is where it says, whatever the number of links allowed. *)
Lemma walk_dirs m links fs rest : forall cur, dirs fs (cur ++ rest) -> walk_from m links fs cur (map Normal rest) = Some (cur ++ rest).
Proof.
  induction rest as [|n rest IH]; intros cur Hd.
  - rewrite app_nil_r. by destruct links.
  - assert (Hn : fs !! (cur ++ [n]) = Some LDir).
    { specialize (Hd (length cur)). rewrite length_app in Hd. cbn [length] in Hd.
      replace (take (S (length cur)) (cur ++ n :: rest)) with (cur ++ [n]) in Hd; [apply Hd; lia|].
      change (n :: rest) with ([n] ++ rest). rewrite app_assoc, take_app_le by (rewrite length_app; cbn; lia).
      rewrite take_ge; [done|]. rewrite length_app. cbn. lia. }
    assert (Hs : walk_from m links fs cur (map Normal (n :: rest)) = walk_from m links fs (cur ++ [n]) (map Normal rest)).
    { destruct links; cbn [walk_from map]; by rewrite Hn. }
    rewrite Hs, IH; rewrite <- app_assoc; done.
Qed.

Lemma walk_app m links fs : forall a b cur q, dirs fs q -> walk_from m links fs cur (map Normal a) = Some q ->
  dirs fs (cur ++ a) -> walk_from m links fs cur (map Normal a ++ b) = walk_from m links fs q b.
Proof.
  induction a as [|n a IH]; intros b cur q Hq H Hd.
  - cbn in *. destruct links; by injection H as ->.
  - assert (Hn : fs !! (cur ++ [n]) = Some LDir).
    { specialize (Hd (length cur)). rewrite length_app in Hd. cbn [length] in Hd.
      replace (take (S (length cur)) (cur ++ n :: a)) with (cur ++ [n]) in Hd; [apply Hd; lia|].
      change (n :: a) with ([n] ++ a). rewrite app_assoc, take_app_le by (rewrite length_app; cbn; lia).
      rewrite take_ge; [done|]. rewrite length_app. cbn. lia. }
    assert (Hs : forall x, walk_from m links fs cur (Normal n :: x) = walk_from m links fs (cur ++ [n]) x).
    { intros x. destruct links; cbn [walk_from]; by rewrite Hn. }
    cbn [map app] in *. rewrite Hs in *. apply IH; [done|done|]. by rewrite <- app_assoc.
Qed.

Lemma clean_canonical fs p : clean fs p -> canonicalize fs (absolute p) = Some p.
Proof.
  intros [Hd|(q & n & b & -> & Hd & Hb)].
  - unfold canonicalize, absolute, MAX_LINKS. cbn [walk_from]. apply (walk_dirs false 40 fs p []). done.
  - unfold canonicalize, absolute, MAX_LINKS. cbn [walk_from]. rewrite map_app.
    change (walk_from false 40 fs [] (map Normal q ++ [Normal n]) = Some (q ++ [n])).
    rewrite (walk_app false 40 fs q [Normal n] [] q Hd); [|by apply (walk_dirs false 40 fs q [])|done].
    cbn [walk_from]. by rewrite Hb.
Qed.

Lemma canonicalize_clean fs p q : canonicalize fs p = Some q -> clean fs q.
Proof. intros H. eapply walk_clean; [exact H|]. apply dirs_nil. Qed.

(** Resolving one more name in a directory. *)
Lemma walk_snoc links fs n v : forall todo cur q, walk_from false links fs cur todo = Some q -> dirs fs cur -> dirs fs q ->
  fs !! (q ++ [n]) = Some v -> (forall t, v <> LLink t) ->
  walk_from false links fs cur (todo ++ [Normal n]) = Some (q ++ [n]).
Proof.
  assert (Hlast : forall links cur q, walk_from false links fs cur [] = Some q -> fs !! (q ++ [n]) = Some v -> (forall t, v <> LLink t) ->
    walk_from false links fs cur [Normal n] = Some (q ++ [n])).
  { intros l cur q H Hv Hl. destruct l; cbn in H; injection H as ->; cbn [walk_from]; rewrite Hv;
      (destruct v as [b| |t]; [by rewrite bool_decide_true|done|by destruct (Hl t)]). }
  induction links as [|l IHl]; induction todo as [|[| | |x] todo IH]; intros cur q H Hc Hq Hv Hl;
    try (by eapply Hlast); cbn [app]; cbn [walk_from] in H |- *;
    try (eapply IH; eauto using dirs_nil, dirs_drop_last; fail).
  - destruct (fs !! (cur ++ [x])) as [[b| |t]|] eqn:Ex; try done.
    + destruct (bool_decide_reflect (todo = [])); [|done]. injection H as <-.
      exfalso. specialize (Hq (length cur)). rewrite length_app in Hq. cbn in Hq.
      rewrite take_ge in Hq by (rewrite length_app; cbn; lia). rewrite Ex in Hq. specialize (Hq ltac:(lia)). done.
    + eapply IH; eauto using dirs_snoc.
  - destruct (fs !! (cur ++ [x])) as [[b| |t]|] eqn:Ex; try done.
    + destruct (bool_decide_reflect (todo = [])); [|done]. injection H as <-.
      exfalso. specialize (Hq (length cur)). rewrite length_app in Hq. cbn in Hq.
      rewrite take_ge in Hq by (rewrite length_app; cbn; lia). rewrite Ex in Hq. specialize (Hq ltac:(lia)). done.
    + eapply IH; eauto using dirs_snoc.
    + rewrite app_assoc. eapply IHl; eauto.
Qed.

(** ** What [resolve_path] guarantees *)

Lemma check_text_ok s as_path : check_text s = Ok as_path ->
  as_path = components s /\ is_absolute as_path = false /\ (RootDir ∉ as_path) /\ (ParentDir ∉ as_path).
Proof.
  unfold check_text. destruct (contains_char 0 s); [done|]. destruct (_ || _); [done|]. destruct (is_absolute (components s)) eqn:Ea; [done|].
  set (c := components s) in *. intros H.
  assert (Hl : forall l a, try_for (fun comp (_ : path) => match comp with
      | RootDir => Err (PathTraversal (lit "Absolute or drive-qualified paths are not allowed"))
      | ParentDir => Err (PathTraversal (lit "Path must not contain '..'")) | _ => Ok c end) l c = Ok a -> a = c /\ (RootDir ∉ l) /\ (ParentDir ∉ l)).
  { induction l as [|x l IH]; intros a Hx; cbn [try_for] in Hx.
    - injection Hx as <-. split_and!; try done; apply not_elem_of_nil.
    - destruct x; try done; destruct (IH _ Hx) as (? & ? & ?); split_and!; try done; rewrite elem_of_cons; naive_solver. }
  destruct (Hl _ _ H) as (-> & ? & ?). done.
Qed.

Lemma join_absolute r as_path : is_absolute as_path = false ->
  exists rest, join_path (absolute r) as_path = absolute r ++ rest /\ forall c, c ∈ rest -> c ∈ as_path.
Proof.
  intros Ha. unfold join_path. rewrite Ha. unfold absolute. destruct as_path as [|[| | |n] rest]; try done.
  - exists []. by rewrite app_nil_r.
  - exists rest. split; [done|]. intros c Hc. apply elem_of_cons. by right.
  - by exists (ParentDir :: rest).
  - by exists (Normal n :: rest).
Qed.

(** Where a path is found. *)
Lemma locate_ok fs full p : locate fs full = Ok p ->
  (canonicalize fs full = Some p)
  \/ (canonicalize fs full = None /\ exists par n q, full = par ++ [Normal n] /\ canonicalize fs par = Some q /\ p = q ++ [n]).
Proof.
  unfold locate, exists_path. destruct (canonicalize fs full) as [x|] eqn:E; cbn.
  - intros [= ->]. by left.
  - intros H. right. split; [done|]. unfold parent, file_name in H. destruct (unsnoc full) as [[par [| | |n]]|] eqn:Eu; try done.
    apply unsnoc_some in Eu as ->. cbn [ok_or mbind result_bind] in H. apply bind_ok_inv in H as (q & Ep & H). apply ok_or_ok in Ep. injection H as <-. by exists par, n, q.
Qed.

Lemma check_canonical_ok policy r c p : check_canonical policy r c = Ok p ->
  p = c /\ r `prefix_of` p
  /\ (forall pattern, pattern ∈ policy.(blocked_patterns) -> contains_str pattern (display_absolute p) = false)
  /\ (forall ext, last p ≫= extension_of = Some ext -> forall b, b ∈ policy.(blocked_extensions) -> eq_ignore_ascii_case (c_dot :: ext) b = false).
Proof.
  unfold check_canonical. destruct (bool_decide_reflect (r `prefix_of` c)) as [Hp|]; cbn; [|done].
  destruct (filter _ (blocked_patterns policy)) as [|x l] eqn:Ef; [|done]. cbn. intros H.
  assert (Hpat : forall pattern, pattern ∈ blocked_patterns policy -> contains_str pattern (display_absolute c) = false).
  { intros pat Hin. rewrite filter_nil_iff in Ef. specialize (Ef pat Hin). by destruct (contains_str pat _). }
  destruct (last c ≫= extension_of) as [ext|] eqn:Ex.
  - destruct (existsb _ _) eqn:Eb; [done|]. injection H as <-. rewrite existsb_elem_false in Eb.
    split_and!; try done. intros e He b Hb. rewrite Ex in He. injection He as <-. by apply Eb.
  - injection H as <-. split_and!; try done. intros e He. congruence.
Qed.

(** Where the path is that [resolve_path] returns. *)
Lemma resolve_inside fs policy s p :
  resolve_path fs policy s = Ok p ->
  exists r, canonicalize fs policy.(root) = Some r /\ r `prefix_of` p
    /\ (canonicalize fs (absolute p) = Some p
        \/ exists q n, p = q ++ [n] /\ canonicalize fs (absolute q) = Some q
             /\ (dirs fs q -> fs !! p = None \/ exists t, fs !! p = Some (LLink t)))
    /\ (s <> [] -> forall pattern, pattern ∈ policy.(blocked_patterns) -> contains_str pattern (display_absolute p) = false)
    /\ (s <> [] -> forall ext, last p ≫= extension_of = Some ext ->
         forall b, b ∈ policy.(blocked_extensions) -> eq_ignore_ascii_case (c_dot :: ext) b = false).
Proof.
  unfold resolve_path, canon_root. destruct (bool_decide_reflect (s = [])) as [->|Hs].
  { intros H. apply ok_or_ok in H. exists p. split_and!; try done. left. apply clean_canonical. by eapply canonicalize_clean. }
  intros H. apply bind_ok_inv in H as (as_path & Ht & H). apply bind_ok_inv in H as (r & Hr & H). apply ok_or_ok in Hr.
  apply bind_ok_inv in H as (c & Hc & H). apply check_canonical_ok in H as (-> & Hpre & Hpat & Hext).
  exists r. split_and!; try done. apply locate_ok in Hc as [Hc|(Hnone & par & n & q & Hfull & Hq & ->)].
  { left. apply clean_canonical. by eapply canonicalize_clean. }
  right. exists q, n. split_and!; [done|by eapply clean_canonical, canonicalize_clean|]. intros Hd.
  destruct (fs !! (q ++ [n])) as [v|] eqn:Ev; [|by left]. right. destruct v as [b| |t]; [| |by exists t]; exfalso;
    rewrite Hfull in Hnone; unfold canonicalize in *;
    erewrite (walk_snoc MAX_LINKS fs n _ par [] q Hq (dirs_nil fs) Hd Ev) in Hnone; done.
Qed.

(** C5: the path that [resolve_path] returns is inside the canonical root, whatever links there
    are, and no directory on the way to it is a link: it is itself a file or a directory,
    reached by no link, or the name of something that is not there, or of a link, in such a
    directory.  For the empty path it is the root itself, which is not checked further; for
    every other path it contains no blocked pattern and has no blocked extension. *)
Theorem resolve_confined fs policy s p :
  resolve_path fs policy s = Ok p ->
  exists r, canonicalize fs policy.(root) = Some r /\ r `prefix_of` p
    /\ (canonicalize fs (absolute p) = Some p
        \/ exists q n, p = q ++ [n] /\ canonicalize fs (absolute q) = Some q
             /\ (dirs fs q -> fs !! p = None \/ exists t, fs !! p = Some (LLink t)))
    /\ (s = [] /\ p = r
        \/ s <> [] /\ (forall pattern, pattern ∈ policy.(blocked_patterns) -> contains_str pattern (display_absolute p) = false)
           /\ forall ext, last p ≫= extension_of = Some ext ->
                forall b, b ∈ policy.(blocked_extensions) -> eq_ignore_ascii_case (c_dot :: ext) b = false).
Proof.
  intros H. destruct (resolve_inside _ _ _ _ H) as (r & Hr & Hpre & Hw & Hpat & Hext). exists r. split_and!; [done..|].
  destruct (decide (s = [])) as [->|Hs]; [left|right; auto]. split; [done|].
  cbn in H. unfold canon_root in H. apply ok_or_ok in H. congruence.
Qed.

(** what [read_file] returns is, when the resolved path is not a link, bytes of a file inside the
    root, at most [max_read_bytes] of them. *)
Theorem read_confined fs policy sha s offset length b total sum p :
  read_file sha fs policy s offset length = Ok (b, total, sum) ->
  resolve_path fs policy s = Ok p -> (forall t, fs !! p <> Some (LLink t)) -> 0 <= offset -> 0 <= length ->
  exists r content, canonicalize fs policy.(root) = Some r /\ r `prefix_of` p /\ lnode_at fs p = Some (LFile content)
    /\ total = Z.of_nat (List.length content)
    /\ b = take (Z.to_nat (if length =? 0 then total else length)) (drop (Z.to_nat offset) content)
    /\ Z.of_nat (List.length b) <= policy.(max_read_bytes).
Proof.
  intros H Hres Hlink Hoff Hlen. unfold read_file in H. rewrite Hres in H. cbn in H.
  destruct (resolve_inside _ _ _ _ Hres) as (r & Hr & Hpre & Hwhere & _).
  destruct (is_file fs (absolute p)) eqn:Ef; [|done]. cbn in H.
  apply bind_ok_inv in H as (content & Hc & H). apply ok_or_ok in Hc.
  assert (Hn : lnode_at fs p = Some (LFile content)).
  { unfold os_read, follow in Hc. destruct Hwhere as [Hcan|(q & n & -> & Hq & Hd)].
    - rewrite Hcan in Hc. cbn in Hc. destruct (lnode_at fs p) as [[]|]; try done. by injection Hc as ->.
    - destruct (canonicalize fs (absolute (q ++ [n]))) as [x|] eqn:Ex; [|done]. cbn in Hc. exfalso.
      apply canonicalize_clean in Hq as [Hq|(q0 & n0 & b0 & -> & Hq0 & Hb0)].
      + destruct (Hd Hq) as [Hnone|[t Ht]]; [|by apply (Hlink t)].
        unfold canonicalize, absolute, MAX_LINKS in Ex. cbn [walk_from] in Ex. rewrite map_app in Ex.
        change (walk_from false 40 fs [] (map Normal q ++ [Normal n]) = Some x) in Ex.
        rewrite (walk_app false 40 fs q [Normal n] [] q Hq) in Ex; [|by apply (walk_dirs false 40 fs q [])|done].
        cbn [walk_from] in Ex. by rewrite Hnone in Ex.
      + unfold canonicalize, absolute, MAX_LINKS in Ex. cbn [walk_from] in Ex. rewrite <- app_assoc, map_app in Ex.
        change (walk_from false 40 fs [] (map Normal q0 ++ [Normal n0; Normal n]) = Some x) in Ex.
        rewrite (walk_app false 40 fs q0 _ [] q0 Hq0) in Ex; [|by apply (walk_dirs false 40 fs q0 [])|done].
        cbn [walk_from] in Ex. by rewrite Hb0 in Ex. }
  set (want := if length =? 0 then sat_sub (Z.of_nat (List.length content)) offset else length) in *.
  destruct (want >? max_read_bytes policy) eqn:Em; [done|].
  apply bind_ok_inv in H as (buf & Hbuf & H). injection H as <- <- _.
  assert (Hb : buf = take (Z.to_nat (if length =? 0 then Z.of_nat (List.length content) else length)) (drop (Z.to_nat offset) content)
     /\ Z.of_nat (List.length buf) <= want).
  { unfold want in *. destruct ((offset =? 0) && _) eqn:Ec.
    - apply ok_or_ok in Hbuf. rewrite Hc in Hbuf. injection Hbuf as <-. apply andb_true_iff in Ec as [Eo El]. apply Z.eqb_eq in Eo as ->.
      rewrite drop_0. destruct (Z.eqb_spec length 0) as [->|Hz].
      + rewrite take_ge by lia. split; [done|]. unfold sat_sub. lia.
      + cbn in El. rewrite take_ge by lia. split; [done|]. lia.
    - apply ok_or_ok in Hbuf. unfold bslice in Hbuf. destruct (_ =? _) eqn:El in Hbuf; [|done]. injection Hbuf as <-.
      apply Z.eqb_eq in El. split; [|lia]. destruct (Z.eqb_spec length 0) as [->|Hz]; [|done].
      rewrite !take_ge; [done| |]; rewrite length_drop; unfold sat_sub; lia. }
  destruct Hb as [-> Hle]. exists r, content. split_and!; try done. lia.
Qed.

(** Writing through a path that is not a link changes that file only. *)
Theorem write_confined fs policy s data append p n fs' :
  write_file fs policy s data append = (Ok n, fs') -> resolve_path fs policy s = Ok p ->
  (forall t, fs !! p <> Some (LLink t)) ->
  exists r b, canonicalize fs policy.(root) = Some r /\ r `prefix_of` p /\ policy.(allow_write) = true /\ fs' = <[p := LFile b]> fs.
Proof.
  intros H Hres Hlink. unfold write_file in H. unfold check_write in H. destruct (allow_write policy); [|done].
  cbn [negb mbind result_bind] in H. rewrite Hres in H. destruct (os_write fs (absolute p) _) as [fs0|] eqn:Ew; [|done]. injection H as _ <-.
  destruct (resolve_inside _ _ _ _ Hres) as (r & Hr & Hpre & Hwhere & _). exists r. unfold os_write in Ew.
  assert (Hwalk : walk_from true MAX_LINKS fs [] (absolute p) = Some p \/ walk_from true MAX_LINKS fs [] (absolute p) = None).
  { unfold absolute, MAX_LINKS. cbn [walk_from].
    assert (Hg : forall q m, dirs fs q -> (forall t, fs !! (q ++ [m]) <> Some (LLink t)) ->
      walk_from true 40 fs [] (map Normal (q ++ [m])) = Some (q ++ [m])).
    { intros q m Hq Hl. rewrite map_app. rewrite (walk_app true 40 fs q _ [] q Hq); [|by apply (walk_dirs true 40 fs q [])|done].
      cbn [walk_from map]. destruct (fs !! (q ++ [m])) as [[]|] eqn:E; try done. by destruct (Hl target). }
    destruct Hwhere as [Hcan|(q & m & -> & Hq & _)].
    - apply canonicalize_clean in Hcan as [Hd|(q & m & b & -> & Hd & _)].
      + left. apply (walk_dirs true 40 fs p [] Hd).
      + left. by apply Hg.
    - apply canonicalize_clean in Hq as [Hd|(q0 & n0 & b0 & -> & Hq0 & Hb0)].
      + left. by apply Hg.
      + right. rewrite <- app_assoc, map_app. rewrite (walk_app true 40 fs q0 _ [] q0 Hq0); [|by apply (walk_dirs true 40 fs q0 [])|done].
        cbn [walk_from map app]. by rewrite Hb0. }
  destruct Hwalk as [Hw|Hw]; rewrite Hw in Ew; [|done]. cbn in Ew.
  destruct (lnode_at fs p) as [[b| |t]|]; try done; injection Ew as <-; eexists; split_and!; done.
Qed.

(** ** Ways out *)

Definition bytes (s : string) : list byte := map z2b (lit s).
Definition at_root (l : list string) : list str := map lit l.

(** A sandbox, a secret outside of it, and in the sandbox a link to a file that is not there, a link to
    the secret, a link to the sandbox itself and a blocked file. *)
Definition box : ltree :=
  <[at_root ["etc"]%string := LDir]> (<[at_root ["etc"; "secret"]%string := LFile (bytes "root")]>
  (<[at_root ["box"]%string := LDir]> (<[at_root ["box"; "new"]%string := LLink (absolute (at_root ["etc"; "evil"]%string))]>
  (<[at_root ["box"; "d"]%string := LDir]> (<[at_root ["box"; "d"; "peek"]%string := LLink (absolute (at_root ["etc"; "secret"]%string))]>
  (<[at_root ["box"; "l"]%string := LLink [CurDir]]> (<[at_root ["box"; "d"; ".env"]%string := LFile (bytes "KEY=1")]>
  (<[at_root ["box"; "f"]%string := LFile (bytes "hi there")]> ∅)))))))).
Definition policy : FsPolicy := default_policy (absolute (at_root ["box"]%string)).

Lemma resolve_confined_witness :
  resolve_path box policy (lit "d") = Ok (at_root ["box"; "d"]%string)
  /\ (exists r, canonicalize box policy.(root) = Some r /\ r `prefix_of` at_root ["box"; "d"]%string)
  /\ contains_str (lit ".env") (display_absolute (at_root ["box"; "d"]%string)) = false.
Proof.
  assert (H : resolve_path box policy (lit "d") = Ok (at_root ["box"; "d"]%string)) by (vm_compute; reflexivity).
  split; [exact H|]. destruct (resolve_confined box policy (lit "d") (at_root ["box"; "d"]%string) H) as (r & H1 & H2 & _ & [[E _]|(_ & H3 & _)]); [discriminate E|].
  split; [exists r; split; [exact H1|exact H2]|]. apply H3. right. left.
Defined.

Lemma read_confined_witness :
  exists r content, canonicalize box policy.(root) = Some r /\ r `prefix_of` at_root ["box"; "f"]%string
    /\ lnode_at box (at_root ["box"; "f"]%string) = Some (LFile content)
    /\ 8 = Z.of_nat (List.length content)
    /\ bytes "there" = take (Z.to_nat (if 5 =? 0 then 8 else 5)) (drop (Z.to_nat 3) content)
    /\ Z.of_nat (List.length (bytes "there")) <= policy.(max_read_bytes).
Proof.
  apply (read_confined box policy (fun _ => []) (lit "f") 3 5 (bytes "there") 8 [] (at_root ["box"; "f"]%string)).
  - vm_compute. reflexivity.
  - vm_compute. reflexivity.
  - intros t. vm_compute. discriminate.
  - lia.
  - lia.
Defined.

(** The link to a file that does not exist yet: the path is refused neither as a link nor as one that leads
    outside, and writing to it makes the file outside the sandbox. *)
Theorem dangling_link_escapes :
  let '(r, fs') := write_file box policy (lit "new") (bytes "owned") false in
  r = Ok 5 /\ fs' !! at_root ["etc"; "evil"]%string = Some (LFile (bytes "owned"))
  /\ ~ at_root ["box"]%string `prefix_of` at_root ["etc"; "evil"]%string.
Proof.
  vm_compute. split_and!; [reflexivity..|]. intros [k Hk]. discriminate Hk.
Qed.

(** A link to the secret is refused when it is read by its name, *)
Theorem link_refused : resolve_path box policy (lit "d/peek") = Err (PathTraversal (lit "Path escapes sandbox root")).
Proof. vm_compute. reflexivity. Qed.

(** but not after forty other links: the system then says that the path does not exist, and the name in its
    directory is taken for that of a new file. *)
Theorem link_budget_escapes :
  let s := concat (repeat (lit "l/") 40) ++ lit "d/peek" in
  read_file (fun _ => []) box policy s 0 0 = Ok (bytes "root", 4, []).
Proof. vm_compute. reflexivity. Qed.

(** An archive of the directory holds the secret, and the blocked file; *)
Theorem archive_leaks :
  exists z, create_zip_archive box policy [lit "d"] = Ok z
    /\ (lit "d/peek", Some (bytes "root")) ∈ z /\ (lit "d/.env", Some (bytes "KEY=1")) ∈ z
    /\ resolve_path box policy (lit "d/.env") = Err (NotAllowed (lit "Access to '.env' paths is blocked")).
Proof.
  eexists. split; [vm_compute; reflexivity|].
  split_and!; [apply list_elem_of_In; vm_compute; tauto..|vm_compute; reflexivity].
Qed.

(** and a copy of the directory is a copy of them that can be read. *)
Theorem copy_leaks :
  match copy 5 box policy (lit "d") (lit "e") with
  | (Ok _, fs') => read_file (fun _ => []) fs' policy (lit "e/peek") 0 0 = Ok (bytes "root", 4, [])
  | _ => False
  end.
Proof. vm_compute. reflexivity. Qed.
