(* ===== verification/Transfer.v ===== *)
(** * Chunked transfers

    [runesh-remote/src/fs/transfer.rs]: [UploadManager], which stores the chunks of an upload
    in a directory of its own and puts the file together when the last one has come, and the
    iterator over the chunks of a download.  The destination is resolved by the policy of
    [RemoteFs].  The theorems state that an upload's chunks, sent in any order, make the
    file they were cut from, which requests are refused, and what a failed write costs. *)
From S2P Require Import Prelude Str Path Fs F64 RemoteFs.
From Stdlib Require Import Floats.SpecFloat.

#[local] Open Scope Z_scope.

Definition MAX_UPLOAD_CHUNKS : Z := 10000.
Definition MAX_UPLOAD_BYTES : Z := 5368709120.
Definition UPLOAD_IDLE_TIMEOUT_SECS : Z := 1800.

Record UploadState := {
  path : list str;
  total_chunks : Z;
  total_size_bytes : Z;
  received_bytes : Z;
  received_chunks : list bool;
  temp_dir : list str;
  created_at : Z
}.

Record UploadManager := { uploads : gmap str UploadState; disk : Disk }.

(** The tree without links, as the policy sees it. *)
Definition embed (m : gmap (list str) node) : gmap (list str) lnode :=
  (fun n => match n with File b => LFile b | Dir => LDir end) <$> m.

(** [f32]. *)
Definition f32_of (n : Z) : spec_float := binary_normalize 24 128 n 0 false.
Definition percent_of (received total : Z) : spec_float :=
  SFmul 24 128 (SFdiv 24 128 (f32_of received) (f32_of total)) (f32_of 100).

(** [format!("chunk_{i:06}")]. *)
Definition digit (n k : Z) : char := 48 + (n / k) mod 10.
Definition chunk_name (i : Z) : str :=
  lit "chunk_" ++ (if i <? 1000000 then [digit i 100000; digit i 10000; digit i 1000; digit i 100; digit i 10; digit i 1] else show_uint i).

Definition on_disk {A} (m : act Disk IoErrorKind A) : act UploadManager RemoteError A := fun u =>
  match m u.(disk) with
  | (Ok a, d) => (Ok a, {| uploads := u.(uploads); disk := d |})
  | (Err _, d) => (Err Io, {| uploads := u.(uploads); disk := d |})
  end.

Section Manager.
Context (policy : FsPolicy).
(** [std::env::temp_dir()]. *)
Context (tmp : list str).

Definition resolve (u : UploadManager) (p : str) : result RemoteError (list str) :=
  resolve_path (embed u.(disk).(nodes)) policy p.

(** [new_v4] and the time of the call are arguments. *)
Definition begin (upload_id : str) (now : Z) (p : str) (chunks size : Z) : act UploadManager RemoteError str := fun u =>
  match (_ ← check_write policy; resolve u p) with
  | Err e => (Err e, u)
  | Ok resolved =>
      if (chunks =? 0) || (chunks >? MAX_UPLOAD_CHUNKS) then
        (Err (BadRequest (lit "total_chunks must be in 1..=" ++ show_uint MAX_UPLOAD_CHUNKS)), u)
      else if size >? MAX_UPLOAD_BYTES then (Err (BadRequest (lit "total_size_bytes exceeds " ++ show_uint MAX_UPLOAD_BYTES)), u)
      else if size >? policy.(max_upload_size) then
        (Err (NotAllowed (lit "total_size_bytes exceeds policy max_upload_size (" ++ show_uint policy.(max_upload_size) ++ lit ")")), u)
      else
        let dir := tmp ++ [lit "runesh-uploads"; upload_id] in
        match on_disk (create_dir_all dir) u with
        | (Err e, u) => (Err e, u)
        | (Ok _, u) =>
            (Ok upload_id,
             {| uploads := <[upload_id := {| path := resolved; total_chunks := chunks; total_size_bytes := size; received_bytes := 0;
                                              received_chunks := repeat false (Z.to_nat chunks); temp_dir := dir; created_at := now |}]> u.(uploads);
                disk := u.(disk) |})
        end
  end.

Definition with_bytes (n : Z) (s : UploadState) : UploadState :=
  {| path := s.(path); total_chunks := s.(total_chunks); total_size_bytes := s.(total_size_bytes); received_bytes := n;
     received_chunks := s.(received_chunks); temp_dir := s.(temp_dir); created_at := s.(created_at) |}.
Definition mark (i : nat) (s : UploadState) : UploadState :=
  {| path := s.(path); total_chunks := s.(total_chunks); total_size_bytes := s.(total_size_bytes); received_bytes := s.(received_bytes);
     received_chunks := <[i := true]> s.(received_chunks); temp_dir := s.(temp_dir); created_at := s.(created_at) |}.
Definition set_upload (id : str) (s : UploadState) (u : UploadManager) : UploadManager :=
  {| uploads := <[id := s]> u.(uploads); disk := u.(disk) |}.

Definition count_received (s : UploadState) : Z := Z.of_nat (length (filter (fun r => r = true) s.(received_chunks))).

(** The chunk is stored under the write lock; an index past the vector would panic, and is refused before. *)
Definition store_chunk (id : str) (chunk_index : Z) (data : list byte) : act UploadManager RemoteError (bool * spec_float) := fun u =>
  match u.(uploads) !! id with
  | None => (Err (BadRequest (lit "unknown upload id: " ++ id)), u)
  | Some state =>
      if chunk_index >=? state.(total_chunks) then
        (Err (BadRequest (lit "Chunk index " ++ show_uint chunk_index ++ lit " exceeds total chunks " ++ show_uint state.(total_chunks))), u)
      else if default false (state.(received_chunks) !! Z.to_nat chunk_index) then
        (Err (BadRequest (lit "Chunk " ++ show_uint chunk_index ++ lit " already received")), u)
      else
        let new_total := state.(received_bytes) + Z.of_nat (length data) in
        if new_total >=? 2 ^ 64 then (Err (BadRequest (lit "received_bytes overflow")), u)
        else if new_total >? state.(total_size_bytes) then (Err (BadRequest (lit "chunk exceeds declared total_size_bytes")), u)
        else
          let state := with_bytes new_total state in
          match on_disk (write (state.(temp_dir) ++ [chunk_name chunk_index]) data) (set_upload id state u) with
          | (Err e, u) => (Err e, u)
          | (Ok _, u) =>
              let state := mark (Z.to_nat chunk_index) state in
              let received := count_received state in
              (Ok (received =? state.(total_chunks), percent_of received state.(total_chunks)), set_upload id state u)
          end
  end.

Fixpoint copy_chunks (dir dest : list str) (indices : list Z) : act UploadManager RemoteError unit :=
  match indices with
  | [] => mret tt
  | i :: rest =>
      chunk_data ← on_disk (read (dir ++ [chunk_name i]));
      _ ← on_disk (append dest chunk_data);
      copy_chunks dir dest rest
  end.

Definition forget (id : str) (dir : list str) : act UploadManager RemoteError unit := fun u =>
  (Ok tt, {| uploads := delete id u.(uploads); disk := quietly (remove_dir_all dir) u.(disk) |}).

Definition assemble_file (id : str) : act UploadManager RemoteError unit := fun u =>
  match u.(uploads) !! id with
  | None => (Err (Internal (lit "upload state not found for id " ++ id)), u)
  | Some state =>
      (_ ← (match unsnoc state.(path) with
            | Some (parent, _) => on_disk (create_dir_all parent)
            | None => mret tt
            end);
       _ ← on_disk (create state.(path));
       _ ← copy_chunks state.(temp_dir) state.(path) (seqZ 0 state.(total_chunks));
       _ ← on_disk (fs_call (fun m => (Ok tt, m)) no_tear);
       forget id state.(temp_dir)) u
  end.

Definition handle_chunk_by_id (id : str) (chunk_index : Z) (data : list byte) : act UploadManager RemoteError (bool * spec_float) :=
  _ ← from_result (check_write policy);
  r ← store_chunk id chunk_index data;
  _ ← (if r.1 : bool then assemble_file id else mret tt);
  mret r.

(** [it] is the order in which the map of uploads is iterated. *)
Definition handle_chunk (it : gmap str UploadState -> list (str * UploadState)) (new_id : str) (now : Z) (p : str)
    (chunk_index chunks : Z) (data : list byte) : act UploadManager RemoteError (bool * spec_float) := fun u =>
  match check_write policy with
  | Err e => (Err e, u)
  | Ok _ =>
      if (chunks =? 0) || (chunks >? MAX_UPLOAD_CHUNKS) then
        (Err (BadRequest (lit "total_chunks must be in 1..=" ++ show_uint MAX_UPLOAD_CHUNKS)), u)
      else match resolve u p with
           | Err e => (Err e, u)
           | Ok resolved =>
               match head (filter (fun kv => kv.2.(path) = resolved) (it u.(uploads))) with
               | Some (id, _) => handle_chunk_by_id id chunk_index data u
               | None => (id ← begin new_id now p chunks policy.(max_upload_size); handle_chunk_by_id id chunk_index data) u
               end
           end
  end.

(** [elapsed() > timeout]; [keys] is the order in which the stale ones are removed. *)
Definition stale (now timeout : Z) (s : UploadState) : bool := now - s.(created_at) >? timeout.
Definition cleanup_stale (it : gmap str UploadState -> list (str * UploadState)) (now timeout : Z) (u : UploadManager) : UploadManager :=
  foldl (fun u '(id, s) => {| uploads := delete id u.(uploads); disk := quietly (remove_dir_all s.(temp_dir)) u.(disk) |})
    u (filter (fun kv => stale now timeout kv.2 = true) (it u.(uploads))).

(** ** Downloads *)

Record DownloadIterator := {
  dl_path : list str;
  total_size : Z;
  dl_total_chunks : Z;
  chunk_size : Z;
  current_chunk : Z
}.

Definition chunks_for (size chunk : Z) : Z := ceil_u32 (fdiv (of_int size) (of_int chunk)).

Definition download_chunks (u : UploadManager) (p : str) (chunk : Z) : result RemoteError DownloadIterator :=
  resolved ← resolve u p;
  match file_at u.(disk).(nodes) resolved with
  | None => Err (RemoteFs.NotFound (lit "Not a file: " ++ p))
  | Some content =>
      let size := Z.of_nat (length content) in
      Ok {| dl_path := resolved; total_size := size; dl_total_chunks := chunks_for size chunk; chunk_size := chunk; current_chunk := 0 |}
  end.

Definition advance (it : DownloadIterator) : DownloadIterator :=
  {| dl_path := it.(dl_path); total_size := it.(total_size); dl_total_chunks := it.(dl_total_chunks);
     chunk_size := it.(chunk_size); current_chunk := it.(current_chunk) + 1 |}.

(** [m] is the tree at the time of the call; an offset past [total_size] makes the subtraction wrap. *)
Definition next_chunk (m : gmap (list str) node) (it : DownloadIterator) : result RemoteError (option (Z * list byte)) * DownloadIterator :=
  if it.(current_chunk) >=? it.(dl_total_chunks) then (Ok None, it)
  else match file_at m it.(dl_path) with
       | None => (Err Io, it)
       | Some content =>
           let offset := wrap 64 (it.(current_chunk) * it.(chunk_size)) in
           let remaining := wrap 64 (it.(total_size) - offset) in
           let read_size := Z.min remaining it.(chunk_size) in
           match bslice content offset read_size with
           | None => (Err Io, it)
           | Some buffer => (Ok (Some (it.(current_chunk), buffer)), advance it)
           end
       end.

End Manager.

(** Sending the chunks [D i] for the [i] of [order]. *)
Fixpoint send_all (policy : FsPolicy) (id : str) (D : Z -> list byte) (order : list Z) : act UploadManager RemoteError (list (bool * spec_float)) :=
  match order with
  | [] => mret []
  | i :: rest =>
      r ← handle_chunk_by_id policy id i (D i);
      rs ← send_all policy id D rest;
      mret (r :: rs)
  end.

(** ** Names and directories *)

Lemma digits_inj n m : 0 <= n < 1000000 -> 0 <= m < 1000000 ->
  [digit n 100000; digit n 10000; digit n 1000; digit n 100; digit n 10; digit n 1]
  = [digit m 100000; digit m 10000; digit m 1000; digit m 100; digit m 10; digit m 1] -> n = m.
Proof. unfold digit. intros Hn Hm [= H1 H2 H3 H4 H5 H6]. rewrite !Z.div_1_r in H6. Z.to_euclidean_division_equations. lia. Qed.

Lemma chunk_name_inj n m : 0 <= n <= MAX_UPLOAD_CHUNKS -> 0 <= m <= MAX_UPLOAD_CHUNKS -> chunk_name n = chunk_name m -> n = m.
Proof.
  unfold chunk_name, MAX_UPLOAD_CHUNKS. intros Hn Hm. destruct (Z.ltb_spec n 1000000) as [_|]; [|lia]. destruct (Z.ltb_spec m 1000000) as [_|]; [|lia].
  intros H. apply app_inv_head in H. apply digits_inj; [lia|lia|done].
Qed.

Lemma child_inj {A} (p : list A) a b : p ++ [a] = p ++ [b] -> a = b.
Proof. intros H. apply app_inj_tail in H as [_ H]. exact H. Qed.

Lemma repeat_const {A B} (b : B) (l : list A) : repeat b (length l) = (fun _ => b) <$> l.
Proof. induction l as [|x l IH]; cbn; [done|]. by f_equal. Qed.

(** Every directory on the way to [p], and [p], are there. *)
Definition dirs_in (m : gmap (list str) node) (p : list str) : Prop := forall k, (0 < k <= length p)%nat -> m !! take k p = Some Dir.

Lemma mkdirs_there rest : forall pre m, (forall k, (0 < k <= length rest)%nat -> m !! (pre ++ take k rest) = Some Dir) ->
  mkdirs pre rest m = (Ok tt, m).
Proof.
  induction rest as [|n rest IH]; intros pre m H; cbn [mkdirs]; [done|].
  assert (Hn : m !! (pre ++ [n]) = Some Dir) by (apply (H 1%nat); cbn; lia). rewrite Hn, insert_id by done.
  apply IH. intros k Hk. rewrite <- app_assoc. apply (H (S k)). cbn. lia.
Qed.

Lemma embed_dirs m p : dirs (embed m) p -> dirs_in m p.
Proof.
  intros H [|k] Hk; [lia|]. specialize (H k ltac:(lia)). unfold embed in H. rewrite lookup_fmap in H.
  destruct (m !! take (S k) p) as [[]|]; by inversion H.
Qed.

Lemma dirs_in_node m p : dirs_in m p -> node_at m p = Some Dir.
Proof. intros H. destruct p as [|x p]; [done|]. specialize (H (length (x :: p))). rewrite firstn_all in H. apply H. cbn. lia. Qed.

Lemma clean_dir m q : clean (embed m) q -> node_at m q = Some Dir -> dirs_in m q.
Proof.
  intros [Hd|(q0 & n & b & -> & _ & Hb)] Hn; [by apply embed_dirs|]. exfalso. unfold embed in Hb. rewrite lookup_fmap in Hb.
  destruct (q0 ++ [n]) eqn:E; [by destruct q0|]. cbn [node_at] in Hn. by rewrite Hn in Hb.
Qed.

(** A resolved path that can be created is in a directory all of whose ancestors are directories. *)
Lemma resolve_parent policy u p dest : resolve policy u p = Ok dest -> in_dir u.(disk).(nodes) dest = Ok tt ->
  u.(disk).(nodes) !! dest <> Some Dir ->
  exists par nm, dest = par ++ [nm] /\ dirs_in u.(disk).(nodes) par.
Proof.
  intros H Hin Hnd. set (m := nodes (disk u)) in *. destruct (resolve_inside _ _ _ _ H) as (r & _ & _ & Hw & _).
  destruct (unsnoc dest) as [[par nm]|] eqn:Eu; [|unfold in_dir in Hin; by rewrite Eu in Hin].
  unfold in_dir in Hin. rewrite Eu in Hin. apply unsnoc_some in Eu as ->. exists par, nm. split; [done|].
  assert (Hp : node_at m par = Some Dir) by (by destruct (node_at m par) as [[]|]).
  destruct Hw as [Hc|(q & n & Heq & Hc & _)].
  - apply canonicalize_clean in Hc as [Hd|(q0 & n & b & Heq & Hd & _)].
    + exfalso. apply Hnd. apply embed_dirs in Hd. specialize (Hd (length (par ++ [nm]))). rewrite firstn_all in Hd.
      apply Hd. rewrite length_app. cbn. lia.
    + apply app_inj_tail in Heq as [-> ->]. by apply embed_dirs.
  - apply app_inj_tail in Heq as [-> ->]. apply clean_dir; [by eapply canonicalize_clean|done].
Qed.

(** A call on a healthy disk. *)
Lemma on_disk_healthy {A} (works : gmap (list str) node -> result IoErrorKind A * gmap (list str) node) torn u a m :
  healthy u.(disk) -> works u.(disk).(nodes) = (Ok a, m) ->
  exists u', on_disk (fs_call works torn) u = (Ok a, u') /\ u'.(uploads) = u.(uploads) /\ u'.(disk).(nodes) = m /\ healthy u'.(disk).
Proof.
  intros Hh Hw. destruct (call_healthy works torn u.(disk) _ _ Hh Hw) as (d' & Hc & Hn & Hh').
  exists {| uploads := u.(uploads); disk := d' |}. unfold on_disk. by rewrite Hc.
Qed.

Lemma on_disk_ok {A} (m : act Disk IoErrorKind A) u a u' : on_disk m u = (Ok a, u') ->
  m u.(disk) = (Ok a, u'.(disk)) /\ u'.(uploads) = u.(uploads).
Proof. unfold on_disk. destruct (m (disk u)) as [[]]; naive_solver. Qed.

Lemma act_bind_run {T E A B} (m : act T E A) (f : A -> act T E B) t a t' : m t = (Ok a, t') -> mbind f m t = f a t'.
Proof. intros H. unfold mbind, act_bind. by rewrite H. Qed.

(** ** One upload *)

Section Upload.
Context (policy : FsPolicy) (id : str) (D : Z -> list byte) (m0 : gmap (list str) node).
Context (dest dir : list str) (n size now : Z).

Definition bytes_of (S : list Z) : Z := Z.of_nat (length (concat (D <$> S))).
(** The upload, and the tree, when the chunks [S] have come. *)
Definition state_of (S : list Z) : UploadState :=
  {| path := dest; total_chunks := n; total_size_bytes := size; received_bytes := bytes_of S;
     received_chunks := (fun i => bool_decide (i ∈ S)) <$> seqZ 0 n; temp_dir := dir; created_at := now |}.
Definition stored (S : list Z) : gmap (list str) node :=
  foldr (fun i m => <[dir ++ [chunk_name i] := File (D i)]> m) m0 S.
Definition holds (S : list Z) (u : UploadManager) : Prop :=
  u.(uploads) !! id = Some (state_of S) /\ healthy u.(disk) /\ u.(disk).(nodes) = stored S.

Lemma count_state S : NoDup S -> (forall i, i ∈ S -> 0 <= i < n) -> count_received (state_of S) = Z.of_nat (length S).
Proof.
  intros Hnd Hr. unfold count_received, state_of. cbn [received_chunks]. f_equal.
  assert (H : forall l, length (filter (fun r => r = true) ((fun i => bool_decide (i ∈ S)) <$> l)) = length (filter (fun i => i ∈ S) l)).
  { induction l as [|x l IH]; [done|]. rewrite fmap_cons, !filter_cons.
    destruct (bool_decide_reflect (x ∈ S)); [rewrite !decide_True by done|rewrite !decide_False by done]; cbn; lia. }
  rewrite H. apply Permutation_length, NoDup_Permutation; [apply NoDup_filter, NoDup_seqZ|done|].
  intros i. rewrite list_elem_of_filter, elem_of_seqZ. naive_solver lia.
Qed.

Lemma stored_other S q : (forall i, i ∈ S -> q <> dir ++ [chunk_name i]) -> stored S !! q = m0 !! q.
Proof.
  induction S as [|x S IH]; intros H; cbn; [done|]. rewrite lookup_insert_ne.
  - apply IH. intros i Hi. apply H. by apply elem_of_cons; right.
  - intros Hq. apply (H x); [by apply elem_of_cons; left|done].
Qed.

Lemma stored_outside S q : after dir q = None -> stored S !! q = m0 !! q.
Proof. intros H. apply stored_other. intros i _ ->. by rewrite after_app in H. Qed.

Lemma stored_in S i : (forall j, j ∈ S -> 0 <= j <= MAX_UPLOAD_CHUNKS) -> i ∈ S -> stored S !! (dir ++ [chunk_name i]) = Some (File (D i)).
Proof.
  induction S as [|x S IH]; intros Hr Hi; [by apply elem_of_nil in Hi|]. cbn.
  destruct (decide (x = i)) as [->|Hne]; [apply lookup_insert_eq|]. apply elem_of_cons in Hi as [->|Hi]; [done|].
  rewrite lookup_insert_ne.
  - apply IH; [|done]. intros j Hj. apply Hr. by apply elem_of_cons; right.
  - intros H. apply child_inj in H. apply Hne, chunk_name_inj; [| |done]; apply Hr, elem_of_cons; naive_solver.
Qed.

(** What is asked of the destination and of the directory for the chunks. *)
Definition placed : Prop :=
  node_at m0 dir = Some Dir /\ (forall c, m0 !! (dir ++ [c]) = None) /\ after dir dest = None /\ m0 !! dest <> Some Dir
  /\ exists par nm, dest = par ++ [nm] /\ dirs_in m0 par.

Hypothesis (Hwrite : policy.(allow_write) = true).
Hypothesis (Hn : 1 <= n <= MAX_UPLOAD_CHUNKS) (Hsize : size <= MAX_UPLOAD_BYTES).
Hypothesis (Hplaced : placed).

Lemma bytes_of_cons i S : bytes_of (i :: S) = bytes_of S + Z.of_nat (length (D i)).
Proof. unfold bytes_of. rewrite fmap_cons. cbn [concat]. rewrite length_app. lia. Qed.

Lemma mark_state i S : 0 <= i < n -> mark (Z.to_nat i) (with_bytes (bytes_of (i :: S)) (state_of S)) = state_of (i :: S).
Proof.
  intros Hi. unfold mark, with_bytes, state_of. cbn. f_equal. apply list_eq. intros k.
  destruct (decide (k = Z.to_nat i)) as [->|Hne].
  - rewrite list_lookup_insert_eq by (rewrite length_fmap, length_seqZ; lia). rewrite list_lookup_fmap, lookup_seqZ_lt by lia.
    cbn. rewrite bool_decide_true; [done|]. apply elem_of_cons. left. lia.
  - rewrite list_lookup_insert_ne by done. rewrite !list_lookup_fmap. destruct (seqZ 0 n !! k) as [j|] eqn:E; [|done]. cbn. f_equal.
    apply lookup_seqZ in E as [-> Hk]. apply bool_decide_ext. rewrite elem_of_cons. assert (0 + Z.of_nat k <> i) by lia. naive_solver.
Qed.

Lemma store_next i S u : holds S u -> NoDup (i :: S) -> (forall j, j ∈ i :: S -> 0 <= j < n) -> bytes_of (i :: S) <= size ->
  let k := Z.of_nat (length (i :: S)) in
  exists u', store_chunk id i (D i) u = (Ok (k =? n, percent_of k n), u') /\ holds (i :: S) u'.
Proof.
  intros (Hu & Hh & Hm) Hnd Hr Hb k. assert (Hi : 0 <= i < n) by (apply Hr, elem_of_cons; by left).
  unfold store_chunk. rewrite Hu. cbn [total_chunks received_chunks state_of received_bytes total_size_bytes].
  destruct (Z.geb_spec i n) as [?|_]; [lia|].
  rewrite list_lookup_fmap, lookup_seqZ_lt by lia. cbn [fmap option_fmap option_map default].
  apply NoDup_cons in Hnd as Hnd'. destruct Hnd' as [Hni HS].
  rewrite bool_decide_false by (rewrite Z.add_0_l, Z2Nat.id by lia; done).
  rewrite <- bytes_of_cons. unfold MAX_UPLOAD_BYTES in Hsize.
  destruct (Z.geb_spec (bytes_of (i :: S)) (2 ^ 64)) as [?|_]; [lia|]. rewrite Z.gtb_ltb. destruct (Z.ltb_spec size (bytes_of (i :: S))) as [?|_]; [lia|].
  destruct Hplaced as (Hdir & Hfree & Hout & Hnd0 & _).
  assert (Hput : put_file (dir ++ [chunk_name i]) (D i) (stored S) = (Ok tt, stored (i :: S))).
  { unfold put_file. rewrite in_dir_ok.
    - assert (Hf : stored S !! (dir ++ [chunk_name i]) = None).
      { rewrite stored_other; [apply Hfree|]. intros j Hj Heq. apply child_inj in Heq.
        assert (0 <= j < n) by (apply Hr, elem_of_cons; by right). apply chunk_name_inj in Heq; [by subst|lia|lia]. }
      by rewrite Hf.
    - rewrite <- Hdir. unfold node_at. destruct dir as [|x dir'] eqn:Ed; [done|]. rewrite <- Ed.
      apply stored_other. intros j _ Heq. apply (f_equal length) in Heq. rewrite length_app in Heq. cbn in Heq. lia. }
  destruct (on_disk_healthy (put_file (dir ++ [chunk_name i]) (D i)) (fun k m => snd (put_file (dir ++ [chunk_name i]) (take k (D i)) m))
    (set_upload id (with_bytes (bytes_of (i :: S)) (state_of S)) u) tt (stored (i :: S))) as (u1 & Hw & Hu1 & Hm1 & Hh1);
    [done|cbn; by rewrite Hm|].
  unfold write in *. cbn [temp_dir with_bytes state_of]. cbn [with_bytes state_of] in Hw. rewrite Hw. clear Hw.
  destruct u1 as [ups d1]. cbn [uploads disk] in *. exists {| uploads := <[id := state_of (i :: S)]> ups; disk := d1 |}.
  change {| path := dest; total_chunks := n; total_size_bytes := size; received_bytes := bytes_of (i :: S);
    received_chunks := (fun i0 => bool_decide (i0 ∈ S)) <$> seqZ 0 n; temp_dir := dir; created_at := now |}
    with (with_bytes (bytes_of (i :: S)) (state_of S)).
  rewrite mark_state by done. rewrite count_state by done. split; [done|].
  split_and!; [apply lookup_insert_eq|done|done].
Qed.

Lemma copy_all l : forall u acc, healthy u.(disk) -> dest <> [] -> u.(disk).(nodes) !! dest = Some (File acc) ->
  (forall i, i ∈ l -> dest <> dir ++ [chunk_name i] /\ u.(disk).(nodes) !! (dir ++ [chunk_name i]) = Some (File (D i))) ->
  exists u', copy_chunks dir dest l u = (Ok tt, u') /\ u'.(uploads) = u.(uploads) /\ healthy u'.(disk)
    /\ u'.(disk).(nodes) = <[dest := File (acc ++ concat (D <$> l))]> u.(disk).(nodes).
Proof.
  clear Hwrite Hn Hsize Hplaced.
  induction l as [|i l IH]; intros u acc Hh Hd Ha Hl; cbn [copy_chunks].
  { exists u. split_and!; try done. by rewrite app_nil_r, insert_id. }
  destruct (Hl i) as [Hne Hi]; [by apply elem_of_cons; left|].
  destruct (on_disk_healthy (fun m => (get_file (dir ++ [chunk_name i]) m, m)) no_tear u (D i) u.(disk).(nodes)) as (u1 & H1 & Hu1 & Hm1 & Hh1); [done| |].
  { f_equal. apply get_file_ok, file_at_lookup. split; [by destruct dir|done]. }
  unfold read. rewrite (act_bind_run _ _ _ _ _ H1).
  destruct (on_disk_healthy (change_file dest (fun b => b ++ D i)) (fun k m => snd (change_file dest (fun b => b ++ take k (D i)) m)) u1 tt
    (<[dest := File (acc ++ D i)]> u.(disk).(nodes))) as (u2 & H2 & Hu2 & Hm2 & Hh2); [done| |].
  { unfold change_file. rewrite Hm1. assert (Hg : get_file dest (nodes (disk u)) = Ok acc) by (by apply get_file_ok, file_at_lookup). by rewrite Hg. }
  unfold append. rewrite (act_bind_run _ _ _ _ _ H2).
  destruct (IH u2 (acc ++ D i)) as (u' & Hr & Hu' & Hh' & Hm'); [done|done|rewrite Hm2; apply lookup_insert_eq| |].
  { intros j Hj. destruct (Hl j) as [Hne' Hj']; [by apply elem_of_cons; right|]. split; [done|]. rewrite Hm2, lookup_insert_ne; done. }
  exists u'. split_and!; [done|congruence|done|]. rewrite Hm', Hm2, insert_insert_eq, fmap_cons. cbn [concat]. by rewrite app_assoc.
Qed.

(** The end of an upload: the file is there, the directory for the chunks is gone, and nothing else has changed. *)
Definition finished (u : UploadManager) : Prop :=
  u.(uploads) !! id = None /\ healthy u.(disk)
  /\ file_at u.(disk).(nodes) dest = Some (concat (D <$> seqZ 0 n))
  /\ forall q, q <> dest -> u.(disk).(nodes) !! q = if bool_decide (after dir q = None) then m0 !! q else None.

Lemma assemble_all S u : holds S u -> S ≡ₚ seqZ 0 n -> exists u', assemble_file id u = (Ok tt, u') /\ finished u'.
Proof.
  intros (Hu & Hh & Hm) HS. unfold assemble_file. rewrite Hu. cbn [path state_of temp_dir total_chunks].
  destruct Hplaced as (Hdir & Hfree & Hout & Hnd & par & nm & Hdest & Hpar).
  assert (Hr : forall j, j ∈ S -> 0 <= j <= MAX_UPLOAD_CHUNKS) by (intros j; rewrite HS, elem_of_seqZ; lia).
  assert (Hne : forall i, dest <> dir ++ [chunk_name i]) by (intros i Heq; rewrite Heq, after_app in Hout; done).
  assert (Hpar' : dirs_in (stored S) par).
  { intros k Hk. rewrite stored_other; [by apply Hpar|]. intros i _ Heq. specialize (Hpar k Hk). rewrite Heq, Hfree in Hpar. done. }
  destruct (on_disk_healthy (mkdirs [] par) no_tear u tt (stored S)) as (u1 & H1 & Hu1 & Hm1 & Hh1); [done|rewrite Hm; by apply mkdirs_there|].
  assert (Hun : unsnoc dest = Some (par, nm)) by (rewrite Hdest; apply unsnoc_snoc). rewrite Hun. unfold create_dir_all. rewrite (act_bind_run _ _ _ _ _ H1).
  destruct (on_disk_healthy (put_file dest []) no_tear u1 tt (<[dest := File []]> (stored S))) as (u2 & H2 & Hu2 & Hm2 & Hh2); [done| |].
  { rewrite Hm1. unfold put_file. assert (Hin : in_dir (stored S) dest = Ok tt) by (rewrite Hdest; by apply in_dir_ok, dirs_in_node). rewrite Hin.
    rewrite (stored_outside S dest Hout). by destruct (m0 !! dest) as [[]|]. }
  unfold create. rewrite (act_bind_run _ _ _ _ _ H2).
  destruct (copy_all (seqZ 0 n) u2 []) as (u3 & H3 & Hu3 & Hh3 & Hm3);
    [done|rewrite Hdest; by destruct par|rewrite Hm2; apply lookup_insert_eq| |].
  { intros i Hi. split; [done|]. rewrite Hm2, lookup_insert_ne by done. apply stored_in; [done|]. by rewrite HS. }
  rewrite (act_bind_run _ _ _ _ _ H3).
  destruct (on_disk_healthy (fun m => (Ok tt, m)) no_tear u3 tt u3.(disk).(nodes)) as (u4 & H4 & Hu4 & Hm4 & Hh4); [done|done|].
  rewrite (act_bind_run _ _ _ _ _ H4). unfold forget, quietly, remove_dir_all.
  rewrite Hm3, Hm2, insert_insert_eq, app_nil_l in Hm4.
  eexists. split; [done|]. cbn [uploads disk].
  match goal with |- context [fs_call ?w ?t (disk u4)] =>
    destruct (call_healthy w t (disk u4) (Ok tt) (filter (fun kv => after dir kv.1 = None) u4.(disk).(nodes)) Hh4) as (d5 & Hc & Hm5 & Hh5) end.
  { assert (Hd4 : node_at (nodes (disk u4)) dir = Some Dir).
    { rewrite Hm4. rewrite <- Hdir. unfold node_at. destruct dir as [|x dir'] eqn:Ed; [done|]. rewrite <- Ed in *.
      rewrite lookup_insert_ne by (intros Heq; rewrite Heq, after_self in Hout; done).
      apply stored_other. intros j _ Heq. apply (f_equal length) in Heq. rewrite length_app in Heq. cbn in Heq. lia. }
    by rewrite Hd4. }
  unfold remove_dir_all in Hc. split_and!.
  - apply lookup_delete_eq.
  - by rewrite Hc.
  - rewrite Hc. cbn [snd disk]. rewrite Hm5. apply file_at_lookup. split; [rewrite Hdest; by destruct par|].
    apply map_lookup_filter_Some. split; [rewrite Hm4; apply lookup_insert_eq|done].
  - intros q Hq. rewrite Hc. cbn [snd disk]. rewrite Hm5. rewrite map_lookup_filter, Hm4, lookup_insert_ne by done.
    destruct (bool_decide_reflect (after dir q = None)) as [Ha|Ha].
    + rewrite stored_outside by done. destruct (m0 !! q); [|done]. cbn. by rewrite option_guard_True.
    + destruct (stored S !! q); [|done]. cbn. by rewrite option_guard_False.
Qed.

Lemma handle_chunk_run i u r u1 u2 : store_chunk id i (D i) u = (Ok r, u1) ->
  (if r.1 : bool then assemble_file id else mret tt) u1 = (Ok tt, u2) -> handle_chunk_by_id policy id i (D i) u = (Ok r, u2).
Proof.
  intros H1 H2. unfold handle_chunk_by_id, check_write. rewrite Hwrite. cbn [negb].
  rewrite (act_bind_run _ _ u tt u) by done. rewrite (act_bind_run _ _ _ _ _ H1). by rewrite (act_bind_run _ _ _ _ _ H2).
Qed.

Lemma send_rest order : forall S u, order <> [] -> holds S u -> order ++ S ≡ₚ seqZ 0 n -> bytes_of (seqZ 0 n) <= size ->
  exists u', send_all policy id D order u
      = (Ok ((fun k => (k =? n, percent_of k n)) <$> seqZ (Z.of_nat (length S) + 1) (Z.of_nat (length order))), u') /\ finished u'.
Proof.
  induction order as [|i order IH]; intros S u Hne Hu Hp Hb; [done|]. clear Hne.
  assert (Hnd : NoDup (i :: order ++ S)) by (rewrite Hp; apply NoDup_seqZ).
  assert (Hr : forall j, j ∈ i :: order ++ S -> 0 <= j < n) by (intros j; rewrite Hp, elem_of_seqZ; lia).
  assert (Hp' : order ++ i :: S ≡ₚ seqZ 0 n) by (rewrite <- Hp; cbn; by rewrite <- Permutation_middle).
  assert (Hlen : Z.of_nat (length order) + Z.of_nat (length (i :: S)) = n).
  { apply Permutation_length in Hp'. rewrite length_app, length_seqZ in Hp'. lia. }
  destruct (store_next i S u Hu) as (u1 & H1 & Hu1).
  { apply NoDup_cons in Hnd as [Hi Hos]. apply NoDup_app in Hos as (_ & _ & HS). apply NoDup_cons. split; [|done]. set_solver. }
  { intros j Hj. apply Hr. set_solver. }
  { transitivity (bytes_of (seqZ 0 n)); [|done]. unfold bytes_of. rewrite <- Hp, fmap_app, !fmap_cons. cbn [concat].
    rewrite concat_app. cbn [concat]. rewrite !length_app. lia. }
  change (Z.of_nat (length (i :: order))) with (Z.of_nat (Datatypes.S (length order))). rewrite Nat2Z.inj_succ.
  rewrite seqZ_cons, fmap_cons, Z.pred_succ by lia.
  replace (Z.of_nat (length S) + 1) with (Z.of_nat (length (i :: S))) by (cbn; lia).
  cbn [send_all]. destruct order as [|j order].
  - destruct (assemble_all (i :: S) u1 Hu1) as (u2 & H2 & Hf); [done|]. exists u2. split; [|done].
    rewrite (proj2 (Z.eqb_eq _ _)) in H1 |- * by (cbn [length] in *; lia).
    by rewrite (act_bind_run _ _ _ _ _ (handle_chunk_run i u _ u1 u2 H1 H2)).
  - destruct (IH (i :: S) u1) as (u2 & H2 & Hf); [done|done|done|done|]. exists u2. split; [|done].
    rewrite (proj2 (Z.eqb_neq _ _)) in H1 |- * by (cbn [length] in *; lia).
    rewrite (act_bind_run _ _ _ _ _ (handle_chunk_run i u _ u1 u1 H1 eq_refl)), (act_bind_run _ _ _ _ _ H2).
    by replace (Z.succ (Z.of_nat (length (i :: S)))) with (Z.of_nat (length (i :: S)) + 1) by lia.
Qed.

End Upload.

(** ** The theorems *)

(** C12: Where no call to the file system fails, an upload whose chunks come in any order ends with
    the file: the answers count the chunks, the last one reports completion, the destination
    holds the chunks in the order of their indices, and the directory they were kept in is gone
    with all that was in it.  The directories above that one are there, and no other file or
    directory has changed. *)
Theorem upload_any_order policy tmp id now p n size D order dest u u1 :
  let dir := tmp ++ [lit "runesh-uploads"; id] in
  healthy u.(disk) -> begin policy tmp id now p n size u = (Ok id, u1) -> resolve policy u p = Ok dest ->
  in_dir u.(disk).(nodes) dest = Ok tt -> u.(disk).(nodes) !! dest <> Some Dir ->
  ~ dest `prefix_of` dir -> ~ dir `prefix_of` dest -> (forall q, u.(disk).(nodes) !! (dir ++ q) = None) ->
  0 <= n -> order ≡ₚ seqZ 0 n -> Z.of_nat (length (concat (D <$> seqZ 0 n))) <= size ->
  exists u', send_all policy id D order u1 = (Ok ((fun k => (k =? n, percent_of k n)) <$> seqZ 1 n), u')
    /\ u'.(uploads) !! id = None
    /\ file_at u'.(disk).(nodes) dest = Some (concat (D <$> seqZ 0 n))
    /\ (forall r, u'.(disk).(nodes) !! (dir ++ r) = None)
    /\ (forall q, q <> [] -> q `prefix_of` tmp ++ [lit "runesh-uploads"] -> u'.(disk).(nodes) !! q = Some Dir)
    /\ forall q, q <> dest -> ~ q `prefix_of` tmp ++ [lit "runesh-uploads"] -> u'.(disk).(nodes) !! q = u.(disk).(nodes) !! q.
Proof.
  intros dir Hh Hb Hres Hin Hnd Hpre Hout Hfresh Hn Hord Hsize. unfold begin, check_write in Hb. destruct (allow_write policy) eqn:Hw; [|done].
  cbn [negb mbind result_bind] in Hb. rewrite Hres in Hb. destruct (_ || _) eqn:Ec; [done|]. destruct (size >? MAX_UPLOAD_BYTES) eqn:Es; [done|].
  destruct (size >? max_upload_size policy); [done|].
  destruct (on_disk (create_dir_all _) u) as [[[]|] u0] eqn:Ed; [|done]. injection Hb as <-.
  apply orb_false_iff in Ec as [Ec1 Ec2]. apply Z.eqb_neq in Ec1. rewrite Z.gtb_ltb in Ec2, Es. apply Z.ltb_ge in Ec2, Es.
  apply on_disk_ok in Ed as [Ed Hups]. destruct (fs_call_healthy (mkdirs [] dir) no_tear u.(disk) Hh) as (_ & _ & Hh0).
  fold dir in Ed |- *. unfold create_dir_all in Ed. rewrite Ed in Hh0. cbn [snd] in Hh0. apply fs_call_ok in Ed.
  set (m1 := nodes (disk u0)) in *. destruct (mkdirs_dirs _ _ _ _ Ed) as [Hk Hkeep]. pose proof (mkdirs_other _ _ _ _ _ Ed) as Hother. cbn in Hother.
  assert (Hnp : forall c, ~ (dir ++ [c]) `prefix_of` dir).
  { intros c [l Hl]. apply (f_equal length) in Hl. rewrite !length_app in Hl. cbn in Hl. lia. }
  assert (Hafter : after dir dest = None).
  { destruct (after dir dest) as [r|] eqn:E; [|done]. destruct Hout. exists r. by apply after_some. }
  assert (Hplaced : placed m1 dest dir).
  { unfold placed. split_and!; [|intros c; rewrite Hother by done; apply Hfresh|done|by rewrite Hother|].
    - apply dirs_in_node. intros k Hk'. by apply Hk.
    - destruct (resolve_parent policy u p dest Hres Hin Hnd) as (par & nm & Hd & Hpar). exists par, nm. split; [done|].
      intros k Hk'. apply Hkeep. by apply Hpar. }
  destruct (send_rest policy id D m1 dest dir n size now Hw ltac:(unfold MAX_UPLOAD_CHUNKS in *; lia) Es Hplaced order []
    (set_upload id (state_of D dest dir n size now []) u0)) as (u' & Hs & Hid & Hh' & Hf & Hq).
  - intros ->. apply Permutation_length in Hord. rewrite length_seqZ in Hord. cbn in Hord. lia.
  - split_and!; [apply lookup_insert_eq|done|done].
  - by rewrite app_nil_r.
  - done.
  - assert (Habove : forall q, q `prefix_of` dir -> q = dir \/ q `prefix_of` tmp ++ [lit "runesh-uploads"]).
    { intros q [l Hl]. unfold dir in Hl. change (tmp ++ [lit "runesh-uploads"; id]) with (tmp ++ [lit "runesh-uploads"] ++ [id]) in Hl. rewrite app_assoc in Hl.
      destruct l as [|x l' _] using rev_ind; [left; rewrite app_nil_r in Hl; rewrite <- Hl; unfold dir; by rewrite <- app_assoc|right]. rewrite app_assoc in Hl.
      apply app_inj_tail in Hl as [Hl _]. by exists l'. }
    assert (Hbelow : forall r, after dir (dir ++ r) = Some r) by (intros r; apply after_app).
    assert (Hlen : Z.of_nat (length order) = n) by (apply Permutation_length in Hord; rewrite length_seqZ in Hord; lia).
    rewrite Hlen in Hs. cbn [length Z.of_nat] in Hs. rewrite Z.add_0_l in Hs. exists u'. split_and!; [|done|done| | |].
    + rewrite <- Hs. f_equal. unfold set_upload. f_equal. f_equal. unfold state_of. f_equal.
      rewrite <- (length_seqZ 0 n). apply repeat_const.
    + intros r. rewrite Hq by (intros <-; by rewrite Hbelow in Hafter). by rewrite Hbelow.
    + intros q Hq0 Hqp. assert (Hqd : q `prefix_of` dir) by (destruct Hqp as [l Hl]; exists (l ++ [id]); unfold dir; by rewrite app_assoc, <- Hl, <- app_assoc).
      rewrite Hq by (by intros ->). rewrite bool_decide_true.
      * destruct Hqd as [l Hl]. specialize (Hk (length q)). cbn [app] in Hk. rewrite Hl, take_app_length in Hk. apply Hk. rewrite length_app. destruct q; [done|cbn; lia].
      * destruct (after dir q) as [r|] eqn:E; [|done]. exfalso. apply after_some in E. destruct Hqp as [l Hl]. rewrite E in Hl. unfold dir in Hl.
        apply (f_equal length) in Hl. rewrite !length_app in Hl. cbn in Hl. lia.
    + intros q Hqd Hqp. rewrite Hq by done. destruct (bool_decide_reflect (after dir q = None)) as [Ha|Ha].
      { apply Hother. intros Hqp'. destruct (Habove q Hqp') as [->|?]; [|done]. by rewrite after_self in Ha. }
      destruct (after dir q) as [r|] eqn:E; [|done]. apply after_some in E as ->. by rewrite Hfresh.
Qed.

(** ** Downloads *)

(** The chunks up to the last; [None] when the calls allowed do not reach it. *)
Fixpoint drain (calls : nat) (m : gmap (list str) node) (it : DownloadIterator) : option (result RemoteError (list (Z * list byte))) :=
  match calls with
  | O => None
  | S calls =>
      match next_chunk m it with
      | (Err e, _) => Some (Err e)
      | (Ok None, _) => Some (Ok [])
      | (Ok (Some c), it) =>
          match drain calls m it with
          | Some (Ok rest) => Some (Ok (c :: rest))
          | other => other
          end
      end
  end.

Section Download.
Context (m : gmap (list str) node) (p : list str) (content : list byte) (k c : Z).
Let size := Z.of_nat (length content).
Hypothesis (Hfile : file_at m p = Some content).
Hypothesis (Hc : 0 < c) (Hk : (k - 1) * c < size <= k * c) (Hsize : size < 2 ^ 53).

Definition at_chunk (i : Z) : DownloadIterator :=
  {| dl_path := p; total_size := size; dl_total_chunks := k; chunk_size := c; current_chunk := i |}.

Lemma next_chunk_some i : 0 <= i < k ->
  next_chunk m (at_chunk i) = (Ok (Some (i, take (Z.to_nat c) (drop (Z.to_nat (i * c)) content))), at_chunk (i + 1)).
Proof.
  intros Hi. unfold next_chunk. cbn [current_chunk dl_total_chunks dl_path total_size chunk_size at_chunk].
  destruct (Z.geb_spec i k) as [?|_]; [lia|]. rewrite Hfile.
  assert (Ho : 0 <= i * c < size) by nia. rewrite (wrap_small 64 (i * c)) by (unfold is_u; lia).
  rewrite (wrap_small 64) by (unfold is_u; lia). unfold bslice.
  assert (Hlen : Z.of_nat (length (take (Z.to_nat (Z.min (size - i * c) c)) (drop (Z.to_nat (i * c)) content))) = Z.min (size - i * c) c).
  { rewrite length_take, length_drop. unfold size in *. lia. }
  rewrite Hlen, Z.eqb_refl. unfold advance. cbn. f_equal. f_equal. f_equal. f_equal.
  destruct (Z.le_gt_cases c (size - i * c)) as [Hle|Hgt]; [by rewrite Z.min_r by lia|].
  rewrite !take_ge; [done|..]; rewrite length_drop; unfold size in *; lia.
Qed.

Lemma drain_from calls : forall i, 0 <= i <= k -> (Z.to_nat (k - i) < calls)%nat ->
  exists l, drain calls m (at_chunk i) = Some (Ok l) /\ concat (snd <$> l) = drop (Z.to_nat (i * c)) content
    /\ fst <$> l = seqZ i (k - i) /\ Forall (fun x => Z.of_nat (length x.2) <= c) l.
Proof.
  induction calls as [|calls IH]; intros i Hi Hl; [lia|]. cbn [drain].
  destruct (decide (i = k)) as [->|Hne].
  - exists []. unfold next_chunk. cbn [current_chunk dl_total_chunks at_chunk]. destruct (Z.geb_spec k k) as [_|]; [|lia].
    split_and!; [done| |by rewrite Z.sub_diag|done]. rewrite drop_ge; [done|]. unfold size in *. lia.
  - rewrite next_chunk_some by lia. destruct (IH (i + 1)) as (l & -> & Hcat & Hfst & Hall); [lia|lia|].
    eexists. split; [done|]. rewrite !fmap_cons. cbn [fst snd concat]. split_and!.
    + rewrite Hcat. replace (Z.to_nat ((i + 1) * c)) with (Z.to_nat (i * c) + Z.to_nat c)%nat by nia.
      rewrite <- drop_drop. apply take_drop.
    + rewrite (seqZ_cons i (k - i)) by lia. rewrite Hfst. f_equal. f_equal; lia.
    + constructor; [|done]. cbn [snd]. rewrite length_take. lia.
Qed.
End Download.

(** C36: For a chunk size [c] above 0 and below 2^53, and a file shorter than 2^53 bytes that
    2^32 - 1 chunks suffice for and that does not change meanwhile, a download delivers the file:
    the number of chunks, which the code computes in floating point, is the exact one, and the
    chunks it yields, in order and none of them longer than asked for, make up the content. *)
Theorem download_whole policy u p dest content c :
  resolve policy u p = Ok dest -> file_at u.(disk).(nodes) dest = Some content ->
  let size := Z.of_nat (length content) in
  size < 2 ^ 53 -> 0 < c < 2 ^ 53 -> size <= (2 ^ 32 - 1) * c ->
  exists it l, download_chunks policy u p c = Ok it
    /\ it.(dl_total_chunks) = (size + c - 1) / c
    /\ drain (S (Z.to_nat it.(dl_total_chunks))) u.(disk).(nodes) it = Some (Ok l)
    /\ concat (snd <$> l) = content /\ fst <$> l = seqZ 0 it.(dl_total_chunks)
    /\ Forall (fun x => Z.of_nat (length x.2) <= c) l.
Proof.
  intros Hres Hfile size Hsize Hc Hmax. unfold download_chunks. rewrite Hres. cbn [mbind result_bind]. rewrite Hfile. fold size.
  assert (Hk : chunks_for size c = (size + c - 1) / c).
  { unfold chunks_for. rewrite ceil_div by lia. apply Z.min_l. apply Z.lt_succ_r, Z.div_lt_upper_bound; lia. }
  set (k := (size + c - 1) / c) in *.
  pose proof (Z.div_mod (size + c - 1) c ltac:(lia)) as Hdm. pose proof (Z.mod_pos_bound (size + c - 1) c ltac:(lia)) as Hmod. fold k in Hdm.
  assert (Hpos : 0 <= k) by (apply Z.div_pos; lia).
  destruct (drain_from u.(disk).(nodes) dest content k c Hfile ltac:(lia) ltac:(lia) Hsize (S (Z.to_nat k)) 0) as (l & Hd & Hcat & Hfst & Hall);
    [lia|lia|].
  exists (at_chunk dest content k c 0), l. rewrite Hk. rewrite Z.sub_0_r in Hfst. cbn [at_chunk dl_total_chunks] in *. split_and!; done.
Qed.

(** ** What is kept of an upload *)

Inductive upload_op : Type :=
  | Begin (new_id : str) (now : Z) (p : str) (chunks size : Z)
  | ChunkById (id : str) (chunk_index : Z) (data : list byte)
  | ChunkByPath (it : gmap str UploadState -> list (str * UploadState)) (new_id : str) (now : Z) (p : str) (chunk_index chunks : Z) (data : list byte)
  | Cleanup (it : gmap str UploadState -> list (str * UploadState)) (now timeout : Z).

Definition run_op (policy : FsPolicy) (tmp : list str) (u : UploadManager) (op : upload_op) : UploadManager :=
  match op with
  | Begin new_id now p chunks size => (begin policy tmp new_id now p chunks size u).2
  | ChunkById id chunk_index data => (handle_chunk_by_id policy id chunk_index data u).2
  | ChunkByPath it new_id now p chunk_index chunks data => (handle_chunk policy tmp it new_id now p chunk_index chunks data u).2
  | Cleanup it now timeout => cleanup_stale it now timeout u
  end.

(** The caps of [begin]; the arguments are unsigned. *)
Definition sound_op (op : upload_op) : Prop :=
  match op with
  | Begin _ _ _ chunks _ | ChunkByPath _ _ _ _ _ chunks _ => 0 <= chunks
  | _ => True
  end.

Definition bounded (policy : FsPolicy) (tmp : list str) (id : str) (s : UploadState) : Prop :=
  1 <= s.(total_chunks) <= MAX_UPLOAD_CHUNKS
  /\ Z.of_nat (length s.(received_chunks)) = s.(total_chunks)
  /\ (s.(received_bytes) = 0 \/ s.(received_bytes) <= s.(total_size_bytes))
  /\ s.(total_size_bytes) <= MAX_UPLOAD_BYTES /\ s.(total_size_bytes) <= policy.(max_upload_size)
  /\ s.(temp_dir) = tmp ++ [lit "runesh-uploads"; id].

Section Bounds.
Context (policy : FsPolicy) (tmp : list str).

Definition all_bounded (u : UploadManager) : Prop := map_Forall (bounded policy tmp) u.(uploads).
(** Steps that at most remove uploads. *)
Definition shrinks {A} (m : act UploadManager RemoteError A) : Prop := forall u, (m u).2.(uploads) ⊆ u.(uploads).

Lemma shrinks_ret {A} (a : A) : shrinks (mret a).
Proof. intros u. done. Qed.

Lemma shrinks_on_disk {A} (m : act Disk IoErrorKind A) : shrinks (on_disk m).
Proof. intros u. unfold on_disk. by destruct (m (disk u)) as [[]]. Qed.

Lemma shrinks_bind {A B} (m : act UploadManager RemoteError A) (f : A -> act UploadManager RemoteError B) :
  shrinks m -> (forall a, shrinks (f a)) -> shrinks (mbind f m).
Proof.
  intros Hm Hf u. unfold mbind, act_bind. specialize (Hm u). destruct (m u) as [[a|e] u1]; [|done]. cbn in Hm.
  transitivity (uploads u1); [apply Hf|done].
Qed.

Lemma shrinks_copy dir dest l : shrinks (copy_chunks dir dest l).
Proof.
  induction l; cbn [copy_chunks]; [apply shrinks_ret|]. apply shrinks_bind; [apply shrinks_on_disk|intros b].
  by apply shrinks_bind; [apply shrinks_on_disk|intros _].
Qed.

Lemma shrinks_assemble id : shrinks (assemble_file id).
Proof.
  intros u. unfold assemble_file. destruct (uploads u !! id) as [s|]; [|done]. revert u.
  apply shrinks_bind; [destruct (unsnoc (path s)) as [[]|]; [apply shrinks_on_disk|apply shrinks_ret]|intros _].
  apply shrinks_bind; [apply shrinks_on_disk|intros _]. apply shrinks_bind; [apply shrinks_copy|intros _].
  apply shrinks_bind; [apply shrinks_on_disk|intros _]. intros u. apply delete_subseteq.
Qed.

Lemma shrinks_bounded u u' : u'.(uploads) ⊆ u.(uploads) -> all_bounded u -> all_bounded u'.
Proof. intros Hs Hu id s Hid. apply Hu. by apply (lookup_weaken _ _ _ _ Hid). Qed.

Lemma begin_bounded id now p chunks size u : 0 <= chunks -> all_bounded u -> all_bounded (begin policy tmp id now p chunks size u).2.
Proof.
  intros Hc Hu. unfold begin. destruct (_ ← check_write policy; _) as [resolved|]; [|done].
  destruct (_ || _) eqn:E1; [done|]. destruct (size >? MAX_UPLOAD_BYTES) eqn:E2; [done|]. destruct (size >? max_upload_size policy) eqn:E3; [done|].
  destruct (on_disk _ u) as [[[]|] u1] eqn:E4.
  - apply on_disk_ok in E4 as [_ E4]. intros i s. cbn [snd uploads]. rewrite lookup_insert_Some, E4. intros [[<- <-]|[_ H]]; [|by apply Hu].
    apply orb_false_iff in E1 as [E0 E1]. rewrite Z.gtb_ltb in *. apply Z.eqb_neq in E0. apply Z.ltb_ge in E1, E2, E3.
    unfold bounded. cbn. rewrite repeat_length. unfold MAX_UPLOAD_CHUNKS, MAX_UPLOAD_BYTES in *. split_and!; try lia; done.
  - apply (shrinks_bounded u); [|done]. pose proof (shrinks_on_disk (create_dir_all (tmp ++ [lit "runesh-uploads"; id])) u) as H. by rewrite E4 in H.
Qed.

Lemma store_bounded id i data u : all_bounded u -> all_bounded (store_chunk id i data u).2.
Proof.
  intros Hu. unfold store_chunk. destruct (uploads u !! id) as [s|] eqn:Es; [|done]. specialize (Hu id s Es) as Hs.
  destruct (_ >=? _); [done|]. destruct (default _ _); [done|]. destruct (_ >=? _); [done|]. destruct (_ >? _) eqn:E; [done|].
  rewrite Z.gtb_ltb in E. apply Z.ltb_ge in E.
  set (s1 := with_bytes (received_bytes s + Z.of_nat (length data)) s).
  assert (Hset : forall u' s', uploads u' = <[id := s1]> (uploads u) \/ uploads u' = uploads u -> bounded policy tmp id s' -> all_bounded (set_upload id s' u')).
  { intros u' s' Hup Hs' i' x. cbn [set_upload uploads]. rewrite lookup_insert_Some. intros [[<- <-]|[Hne Hx]]; [done|].
    destruct Hup as [-> | ->] in Hx; [rewrite lookup_insert_ne in Hx by done|]; by apply Hu. }
  assert (Hs1 : bounded policy tmp id s1) by (unfold bounded, s1 in *; cbn; naive_solver).
  destruct (on_disk _ _) as [[[]|] u1] eqn:Ed.
  - apply on_disk_ok in Ed as [_ Ed]. cbn [snd]. apply Hset; [left; exact Ed|]. unfold bounded, mark in *. cbn [total_chunks received_chunks received_bytes total_size_bytes temp_dir]. rewrite length_insert. exact Hs1.
  - apply (shrinks_bounded (set_upload id s1 u)).
    + pose proof (shrinks_on_disk (write (temp_dir s1 ++ [chunk_name i]) data) (set_upload id s1 u)) as H. by rewrite Ed in H.
    + apply Hset; [by right|done].
Qed.

Lemma by_id_bounded id i data u : all_bounded u -> all_bounded (handle_chunk_by_id policy id i data u).2.
Proof.
  intros Hu. unfold handle_chunk_by_id, mbind, act_bind, from_result. destruct (check_write policy); [|done].
  pose proof (store_bounded id i data u Hu) as Hs. destruct (store_chunk id i data u) as [[[[] pct]|] u1]; try done. cbn [fst].
  pose proof (shrinks_assemble id u1) as Ha. apply (shrinks_bounded u1); [|done]. by destruct (assemble_file id u1) as [[]].
Qed.

Lemma op_bounded u op : sound_op op -> all_bounded u -> all_bounded (run_op policy tmp u op).
Proof.
  intros Hop Hu. destruct op; cbn [run_op]; [by apply begin_bounded|by apply by_id_bounded| |].
  - unfold handle_chunk. destruct (check_write policy); [|done]. destruct (_ || _); [done|]. destruct (resolve policy u p); [|done].
    destruct (head _) as [[id s]|]; [by apply by_id_bounded|]. unfold mbind, act_bind.
    pose proof (begin_bounded new_id now p chunks (max_upload_size policy) u Hop Hu) as Hb. destruct (begin _ _ _ _ _ _ _ u) as [[id|] u1]; [|done].
    by apply by_id_bounded.
  - unfold cleanup_stale. generalize (filter (fun kv => stale now timeout kv.2 = true) (it (uploads u))) as l. intros l. revert u Hu. induction l as [|[id s] l IH]; intros u Hu; [done|].
    cbn [foldl]. apply IH. intros i x Hx. cbn in Hx. apply lookup_delete_Some in Hx as [_ Hx]. by apply Hu.
Qed.
End Bounds.

(** whatever is asked of the manager and whatever fails, every upload it keeps is within the caps:
    at most [MAX_UPLOAD_CHUNKS] chunks, one flag for each of them (so that no index is out
    of range), no more bytes than declared, no more declared than both limits allow, and
    its chunks in a directory named by its own id. *)
Theorem uploads_bounded policy tmp d ops :
  Forall sound_op ops ->
  map_Forall (bounded policy tmp) (uploads (foldl (run_op policy tmp) {| uploads := ∅; disk := d |} ops)).
Proof.
  intros Hops. change (all_bounded policy tmp (foldl (run_op policy tmp) {| uploads := ∅; disk := d |} ops)).
  assert (Hu : all_bounded policy tmp {| uploads := ∅; disk := d |}) by apply map_Forall_empty. revert Hu.
  generalize {| uploads := ∅; disk := d |} as u. induction Hops as [|op ops Hop _ IH]; intros u Hu; [done|]. cbn. apply IH. by apply op_bounded.
Qed.

(** A chunk that is out of range, or has come, or does not fit, is refused and changes nothing. *)
Theorem chunk_refused policy id i data u s :
  u.(uploads) !! id = Some s -> 0 <= i ->
  s.(total_chunks) <= i \/ s.(received_chunks) !! Z.to_nat i = Some true \/ s.(total_size_bytes) < s.(received_bytes) + Z.of_nat (length data) ->
  exists e, handle_chunk_by_id policy id i data u = (Err e, u).
Proof.
  intros Hs Hi H. unfold handle_chunk_by_id, mbind, act_bind, from_result. destruct (check_write policy) as [|e]; [|by exists e].
  unfold store_chunk. rewrite Hs. destruct (Z.geb_spec i (total_chunks s)) as [|Hlt]; [by eexists|].
  destruct H as [H|[H|H]]; [lia| |].
  - rewrite H. by eexists.
  - destruct (default false _); [by eexists|]. destruct (_ >=? _); [by eexists|]. rewrite Z.gtb_ltb, (proj2 (Z.ltb_lt _ _)) by done. by eexists.
Qed.

(** The uploads that [cleanup_stale] leaves are those that were begun within [timeout]. *)
Theorem cleanup_stale_spec now timeout u id :
  (cleanup_stale map_to_list now timeout u).(uploads) !! id
  = match u.(uploads) !! id with
    | Some s => if now - s.(created_at) >? timeout then None else Some s
    | None => None
    end.
Proof.
  unfold cleanup_stale.
  assert (H : forall (l : list (str * UploadState)) v, (foldl (fun u '(id, s) => {| uploads := delete id u.(uploads); disk := quietly (remove_dir_all s.(temp_dir)) u.(disk) |}) v l).(uploads) !! id
    = if bool_decide (id ∈ l.*1) then None else v.(uploads) !! id).
  { induction l as [|[i s] l IH]; intros v; [done|]. cbn [foldl]. rewrite IH. cbn [uploads]. rewrite fmap_cons. cbn [fst].
    destruct (decide (i = id)) as [->|Hne].
    - rewrite lookup_delete_eq, (bool_decide_true (id ∈ id :: _)) by (by left). by destruct (bool_decide _).
    - rewrite lookup_delete_ne by done. rewrite (bool_decide_ext (id ∈ i :: l.*1) (id ∈ l.*1)); [done|]. rewrite elem_of_cons. naive_solver. }
  rewrite H. destruct (uploads u !! id) as [s|] eqn:Es.
  - change (now - created_at s >? timeout) with (stale now timeout s). destruct (stale now timeout s) eqn:Est.
    + rewrite bool_decide_true; [done|]. apply list_elem_of_fmap. exists (id, s). split; [done|]. apply list_elem_of_filter. split; [done|]. by apply elem_of_map_to_list.
    + rewrite bool_decide_false; [done|]. intros Hin. apply list_elem_of_fmap in Hin as ([i x] & -> & Hin). apply list_elem_of_filter in Hin as [Hx Hin].
      apply elem_of_map_to_list in Hin. cbn in *. congruence.
  - by destruct (bool_decide _).
Qed.

(** ** Examples *)

Definition names (l : list string) : list str := map lit l.
Definition home : FsPolicy := default_policy (absolute (names ["home"]%string)).
Definition temp : list str := names ["tmp"]%string.
Definition start (f : list fate) : UploadManager :=
  {| uploads := ∅; disk := {| nodes := <[names ["home"]%string := Dir]> (<[names ["tmp"]%string := Dir]> ∅); fates := f |} |}.
Definition chunk_at (i : Z) : list byte := to_be 2 (i * 256 + 7).
Definition two : UploadManager := (begin home temp (lit "u") 0 (lit "f") 3 6 (start [])).2.

Lemma upload_any_order_witness :
  exists u', send_all home (lit "u") chunk_at [2; 0; 1] two = (Ok ((fun k => (k =? 3, percent_of k 3)) <$> seqZ 1 3), u')
    /\ u'.(uploads) !! lit "u" = None
    /\ file_at u'.(disk).(nodes) (names ["home"; "f"]%string) = Some (concat (chunk_at <$> seqZ 0 3))
    /\ (forall r, u'.(disk).(nodes) !! ((temp ++ [lit "runesh-uploads"; lit "u"]) ++ r) = None)
    /\ (forall q, q <> [] -> q `prefix_of` temp ++ [lit "runesh-uploads"] -> u'.(disk).(nodes) !! q = Some Dir)
    /\ forall q, q <> names ["home"; "f"]%string -> ~ q `prefix_of` temp ++ [lit "runesh-uploads"] ->
         u'.(disk).(nodes) !! q = (start []).(disk).(nodes) !! q.
Proof.
  apply (upload_any_order home temp (lit "u") 0 (lit "f") 3 6 chunk_at [2; 0; 1] (names ["home"; "f"]%string) (start []) two).
  - by constructor.
  - vm_compute. reflexivity.
  - vm_compute. reflexivity.
  - vm_compute. reflexivity.
  - vm_compute. discriminate.
  - intros [k Hk]. discriminate Hk.
  - intros [k Hk]. discriminate Hk.
  - intros q. unfold start, disk, nodes. rewrite !lookup_insert_ne; [apply lookup_empty|discriminate..].
  - lia.
  - change (seqZ 0 3) with [0; 1; 2]. apply (Permutation_cons_append [0; 1] 2).
  - vm_compute. discriminate.
Defined.

Definition five : list byte := to_be 5 0x0102030405.
Definition stocked : UploadManager :=
  {| uploads := ∅; disk := {| nodes := <[names ["home"; "f"]%string := File five]> (start []).(disk).(nodes); fates := [] |} |}.

Lemma download_whole_witness :
  exists it l, download_chunks home stocked (lit "f") 2 = Ok it
    /\ it.(dl_total_chunks) = (Z.of_nat (length five) + 2 - 1) / 2
    /\ drain (S (Z.to_nat it.(dl_total_chunks))) stocked.(disk).(nodes) it = Some (Ok l)
    /\ concat (snd <$> l) = five /\ fst <$> l = seqZ 0 it.(dl_total_chunks)
    /\ Forall (fun x => Z.of_nat (length x.2) <= 2) l.
Proof.
  apply (download_whole home stocked (lit "f") (names ["home"; "f"]%string) five 2).
  - vm_compute. reflexivity.
  - vm_compute. reflexivity.
  - vm_compute. reflexivity.
  - lia.
  - vm_compute. discriminate.
Defined.

Lemma uploads_bounded_witness :
  map_Forall (bounded home temp) (uploads (foldl (run_op home temp) (start [])
    [Begin (lit "u") 0 (lit "f") 3 6; ChunkById (lit "u") 1 (chunk_at 1); ChunkById (lit "u") 1 (chunk_at 1)])).
Proof.
  apply (uploads_bounded home temp (start []).(disk)
    [Begin (lit "u") 0 (lit "f") 3 6; ChunkById (lit "u") 1 (chunk_at 1); ChunkById (lit "u") 1 (chunk_at 1)]).
  repeat constructor; cbn; lia.
Defined.

(** ** Failures *)

Definition sent (f : list fate) (l : list (Z * list byte)) : list (result RemoteError (bool * spec_float)) * UploadManager :=
  foldl (fun '(rs, u) '(i, data) => let '(r, u) := handle_chunk_by_id home (lit "u") i data u in (rs ++ [r], u))
    ([], (begin home temp (lit "u") 0 (lit "f") 1 2 (start f)).2) l.

(** The bytes of a chunk are counted before it is written: when the write fails, the same chunk sent again no
    longer fits, and the upload cannot be finished. *)
Theorem failed_write_eats_budget :
  (sent [Works; Refused] [(0, chunk_at 0); (0, chunk_at 0)]).1
  = [Err Io; Err (BadRequest (lit "chunk exceeds declared total_size_bytes"))].
Proof. vm_compute. reflexivity. Qed.

(** When putting the file together fails, the upload stays, with every chunk marked as received: it can neither be
    finished nor, as the path stands for it, be begun again by path. *)
Theorem failed_assembly_strands :
  let '(rs, u) := sent [Works; Works; Refused] [(0, chunk_at 0); (0, chunk_at 0)] in
  rs = [Err Io; Err (BadRequest (lit "Chunk 0 already received"))]
  /\ (handle_chunk home temp map_to_list (lit "v") 1 (lit "f") 0 1 (chunk_at 0) u).1 = Err (BadRequest (lit "Chunk 0 already received"))
  /\ file_at u.(disk).(nodes) (names ["home"; "f"]%string) = None.
Proof. vm_compute. split_and!; reflexivity. Qed.

(** The age of an upload is counted from its first request and not from its last: one that is still being sent is
    removed, and its next chunk refused. *)
Theorem active_upload_collected :
  let u := (handle_chunk_by_id home (lit "u") 0 (chunk_at 0) two).2 in
  let u := cleanup_stale map_to_list (UPLOAD_IDLE_TIMEOUT_SECS + 1) UPLOAD_IDLE_TIMEOUT_SECS u in
  (handle_chunk_by_id home (lit "u") 1 (chunk_at 1) u).1 = Err (BadRequest (lit "unknown upload id: u")).
Proof. vm_compute. reflexivity. Qed.

(** The number of chunks is 32 bits wide: of a longer download the rest is never delivered; and chunks of no size
    are four billion empty ones. *)
Theorem chunk_count_saturates :
  chunks_for (2 ^ 32 + 5) 1 = 2 ^ 32 - 1 /\ chunks_for 10 0 = 2 ^ 32 - 1
  /\ forall m p size, file_at m p = Some (to_be 3 size) ->
       (next_chunk m {| dl_path := p; total_size := 3; dl_total_chunks := 2 ^ 32 - 1; chunk_size := 0; current_chunk := 7 |}).1 = Ok (Some (7, [])).
Proof.
  split_and!; [vm_compute; reflexivity..|]. intros m p size H. unfold next_chunk. cbn [current_chunk dl_total_chunks dl_path total_size chunk_size].
  rewrite H. reflexivity.
Qed.
