(* ===== verification/Dns.v ===== *)
(** * MagicDNS and split DNS

    [runesh-dns/src/lib.rs]: the names of the mesh, which hosts register for themselves, and the
    choice of the servers for a domain.  The theorems state which names are valid, that a
    registered host is found by its name and by its qualified name unless another host has
    taken that, and that queries are routed by the longest matching suffix. *)
From S2P Require Import Prelude Str Net Path.

#[local] Open Scope Z_scope.

Inductive RecordType : Type := A | AAAA | CNAME | MX | TXT | SRV | PTR | NS.
Record DnsRecord := { name : str; record_type : RecordType; value : str; ttl : Z }.

Inductive DnsError : Type :=
  | ZoneNotFound (s : str)
  | RecordNotFound (s : str)
  | DuplicateRecord (s : str)
  | InvalidHostname (s : str).

Section Hostname.
(** [Debug] of a character. *)
Context (debug_char : char -> str).

Definition is_ldh (ch : char) : bool := is_ascii_alphanumeric ch || (ch =? c_minus) || (ch =? c_dot).

Definition check_char (ch : char) (_ : unit) : result DnsError unit :=
  if ch =? 0 then Err (InvalidHostname (lit "contains null byte"))
  else if is_control ch then Err (InvalidHostname (lit "contains control character"))
  else if negb (is_ldh ch) then Err (InvalidHostname (lit "contains disallowed character: " ++ debug_char ch))
  else Ok tt.

Definition check_label (label : str) (_ : unit) : result DnsError unit :=
  if bool_decide (label = []) then Err (InvalidHostname (lit "empty label"))
  else if byte_len label >? 63 then Err (InvalidHostname (lit "label exceeds 63 chars"))
  else if starts_with [c_minus] label || ends_with [c_minus] label then Err (InvalidHostname (lit "label starts or ends with hyphen"))
  else Ok tt.

Definition validate_hostname (hostname : str) : result DnsError unit :=
  if bool_decide (hostname = []) then Err (InvalidHostname (lit "empty"))
  else if byte_len hostname >? 253 then Err (InvalidHostname (show_uint (byte_len hostname) ++ lit " chars exceeds max 253"))
  else if starts_with [c_dot] hostname || ends_with [c_dot] hostname then Err (InvalidHostname (lit "leading or trailing dot"))
  else
    _ ← try_for check_char hostname tt;
    try_for check_label (split c_dot hostname) tt.

(** ** MagicDNS *)

Record MagicDns := { domain : str; entries : gmap str Z }.

Definition new_dns (d : str) : MagicDns := {| domain := d; entries := ∅ |}.
Definition fqdn (d hostname : str) : str := hostname ++ c_dot :: d.

Definition register (hostname : str) (ip : Z) (m : MagicDns) : result DnsError str * MagicDns :=
  match validate_hostname hostname with
  | Err e => (Err e, m)
  | Ok _ => (Ok (fqdn m.(domain) hostname), {| domain := m.(domain); entries := <[hostname := ip]> m.(entries) |})
  end.

Definition unregister (hostname : str) (m : MagicDns) : MagicDns :=
  {| domain := m.(domain); entries := delete hostname m.(entries) |}.

Definition resolve (m : MagicDns) (query : str) : option Z :=
  match m.(entries) !! query with
  | Some ip => Some ip
  | None =>
      match strip_suffix (c_dot :: m.(domain)) query with
      | Some short => m.(entries) !! short
      | None => None
      end
  end.

(** [it] is the order in which the table is iterated. *)
Definition to_records (it : gmap str Z -> list (str * Z)) (m : MagicDns) : list DnsRecord :=
  map (fun '(n, ip) => {| name := fqdn m.(domain) n; record_type := A; value := show_ipv4 ip; ttl := 60 |}) (it m.(entries)).

End Hostname.

(** ** Split DNS *)

Record SplitDnsConfig := { default_servers : list str; routes : gmap str (list str) }.

(** The loop, with fuel for the labels left. *)
Fixpoint servers_loop (fuel : nat) (c : SplitDnsConfig) (candidate : str) : option (list str) :=
  match fuel with
  | O => None
  | S n =>
      match c.(routes) !! candidate with
      | Some servers => Some servers
      | None =>
          match split_once c_dot candidate with
          | Some (_, rest) => servers_loop n c rest
          | None => Some c.(default_servers)
          end
      end
  end.
Definition servers_for (c : SplitDnsConfig) (d : str) : option (list str) := servers_loop (S (length d)) c d.

(** ** Valid names *)

(** What a valid name is made of. *)
Definition ldh_label (label : str) : Prop :=
  label <> [] /\ byte_len label <= 63 /\ Forall (fun c => is_ascii_alphanumeric c = true \/ c = c_minus) label
  /\ head label <> Some c_minus /\ last label <> Some c_minus.

Lemma starts_with_char c s : starts_with [c] s = true <-> head s = Some c.
Proof.
  rewrite starts_with_spec. split; [by intros [r ->]|]. destruct s as [|x s]; [done|]. cbn. intros [= ->]. by exists s.
Qed.

Lemma ends_with_char c s : ends_with [c] s = true <-> last s = Some c.
Proof.
  unfold ends_with. rewrite bool_decide_eq_true. split.
  - intros [r Hr]. apply strip_suffix_spec in Hr as ->. apply last_snoc.
  - intros Hl. apply last_Some in Hl as [r ->]. exists r. by apply strip_suffix_spec.
Qed.

Lemma try_for_all {E X} (f : X -> unit -> result E unit) l : try_for f l tt = Ok tt <-> Forall (fun x => f x tt = Ok tt) l.
Proof. rewrite Forall_forall. apply try_for_unit. Qed.

Lemma split_members (P : char -> Prop) c s : Forall (fun x => P x \/ x = c) s <-> Forall (Forall (fun x => P x \/ x = c)) (split c s).
Proof.
  induction s as [|x s IH]; cbn [split]; [by repeat constructor|].
  destruct (Z.eqb_spec x c) as [->|Hne].
  - rewrite !Forall_cons, IH. naive_solver.
  - destruct (split c s) as [|p ps] eqn:E; [by destruct (split_nonempty c s)|]. rewrite !Forall_cons in *. naive_solver.
Qed.

Lemma check_char_ok d ch : check_char d ch tt = Ok tt <-> is_ldh ch = true.
Proof.
  unfold check_char, is_ldh. destruct (Z.eqb_spec ch 0) as [->|]; [done|].
  destruct (is_control ch) eqn:Ec.
  - split; [done|]. unfold is_control in Ec. unfold is_ascii_alphanumeric, is_ascii_digit, is_ascii_upper, is_ascii_lower, c_minus, c_dot. lia.
  - destruct (_ || _ || _); naive_solver.
Qed.

Lemma check_label_ok label : check_label label tt = Ok tt
  <-> label <> [] /\ byte_len label <= 63 /\ head label <> Some c_minus /\ last label <> Some c_minus.
Proof.
  unfold check_label. rewrite <- (starts_with_char c_minus label), <- (ends_with_char c_minus label).
  destruct (bool_decide_reflect (label = [])); [naive_solver|]. rewrite Z.gtb_ltb. destruct (Z.ltb_spec 63 (byte_len label)); [split; [done|lia]|].
  destruct (starts_with _ _), (ends_with _ _); cbn; split; try done; naive_solver.
Qed.

Lemma is_ldh_spec c : is_ldh c = true <-> (is_ascii_alphanumeric c = true \/ c = c_minus) \/ c = c_dot.
Proof. unfold is_ldh. rewrite !orb_true_iff, !Z.eqb_eq. done. Qed.

Lemma split_head_dot c s : head s = Some c -> [] ∈ split c s.
Proof. destruct s as [|x s]; [done|]. cbn. intros [= ->]. rewrite Z.eqb_refl. by left. Qed.

Lemma split_tail c a b : exists p l, split c (a ++ c :: b) = p :: l ++ split c b.
Proof.
  induction a as [|x a (p & l & IH)]; cbn [app split]; [rewrite Z.eqb_refl; by exists [], []|]. rewrite IH.
  destruct (x =? c); [by exists [], (p :: l)|by exists (x :: p), l].
Qed.

Lemma split_last_dot c s : last s = Some c -> [] ∈ split c s.
Proof.
  intros Hl. apply last_Some in Hl as [r ->]. destruct (split_tail c r []) as (p & l & ->). apply elem_of_cons. right.
  apply elem_of_app. right. by left.
Qed.

(** the names that may be registered are those of 1 to 253 bytes whose labels, between dots, are
    of 1 to 63 bytes, made of ASCII letters, digits and hyphens, and neither begin nor end
    with a hyphen. *)
Theorem validate_hostname_spec debug hostname :
  validate_hostname debug hostname = Ok tt <-> 0 < byte_len hostname <= 253 /\ Forall ldh_label (split c_dot hostname).
Proof.
  assert (Hpos : forall s, 0 <= byte_len s) by (induction s as [|x s IH]; cbn [byte_len]; [lia|]; unfold len_utf8; repeat destruct (_ <? _); lia).
  assert (Hnil : forall s, s <> [] -> 0 < byte_len s).
  { intros [|x s] Hs; [done|]. cbn [byte_len]. specialize (Hpos s). unfold len_utf8. repeat destruct (_ <? _); lia. }
  unfold validate_hostname. destruct (bool_decide_reflect (hostname = [])) as [->|Hne].
  { split; [done|]. intros [H _]. cbn in H. lia. }
  rewrite Z.gtb_ltb. destruct (Z.ltb_spec 253 (byte_len hostname)); [split; [done|lia]|].
  specialize (Hnil _ Hne).
  assert (Hlab : Forall ldh_label (split c_dot hostname)
    <-> Forall (fun c => is_ldh c = true) hostname /\ Forall (fun l => check_label l tt = Ok tt) (split c_dot hostname)).
  { set (P := fun c => is_ascii_alphanumeric c = true \/ c = c_minus).
    assert (H1 : Forall (fun c => is_ldh c = true) hostname <-> Forall (fun c => P c \/ c = c_dot) hostname) by (apply Forall_iff, is_ldh_spec).
    rewrite H1, (split_members P c_dot), <- Forall_and, !Forall_forall.
    assert (H2 : forall l, l ∈ split c_dot hostname -> Forall P l <-> Forall (fun c => P c \/ c = c_dot) l).
    { intros l Hl. apply split_no_char in Hl. unfold contains_char in Hl. rewrite existsb_elem_false in Hl. rewrite !Forall_forall.
      split; intros Hf x Hx; specialize (Hf x Hx); [by left|]. destruct Hf as [Hf| ->]; [done|]. specialize (Hl _ Hx). by rewrite Z.eqb_refl in Hl. }
    split; intros Hall l Hl; specialize (Hall l Hl); specialize (H2 l Hl); rewrite check_label_ok in *; unfold ldh_label in *; fold P in Hall |- *; naive_solver. }
  destruct (starts_with [c_dot] hostname || ends_with [c_dot] hostname) eqn:Ed.
  - split; [done|]. intros [_ Hl]. exfalso. rewrite Forall_forall in Hl. apply (proj1 (Hl [] ltac:(apply orb_true_iff in Ed as [Ed|Ed];
      [apply split_head_dot; by apply starts_with_char|apply split_last_dot; by apply ends_with_char]))). done.
  - rewrite Hlab, <- try_for_all. rewrite <- (Forall_iff _ _ _ (check_char_ok debug)), <- try_for_all.
    destruct (try_for (check_char debug) hostname tt) as [[]|]; cbn; naive_solver lia.
Qed.

(** ** Names of the mesh *)

(** a host that has registered is found by its name, and by the qualified name it was told unless that is
    itself a registered name; other names are found as before. *)
Theorem register_resolves debug hostname ip m full m' :
  register debug hostname ip m = (Ok full, m') ->
  full = fqdn m.(domain) hostname /\ resolve m' hostname = Some ip
  /\ (m.(entries) !! full = None -> resolve m' full = Some ip)
  /\ forall q, q <> hostname -> q <> full -> resolve m' q = resolve m q.
Proof.
  unfold register. destruct (validate_hostname debug hostname); [|done]. intros [= <- <-]. unfold resolve. cbn [entries domain].
  assert (Hs : forall q short, strip_suffix (c_dot :: domain m) q = Some short <-> q = fqdn (domain m) short) by (intros; apply strip_suffix_spec).
  split_and!; [done|by rewrite lookup_insert_eq| |].
  - intros Hnone. assert (Hne : hostname <> fqdn (domain m) hostname).
    { intros H. apply (f_equal length) in H. unfold fqdn in H. rewrite length_app in H. cbn in H. lia. }
    rewrite lookup_insert_ne, Hnone by done. rewrite (proj2 (Hs _ hostname) eq_refl). by rewrite lookup_insert_eq.
  - intros q Hq Hf. rewrite lookup_insert_ne by done. destruct (entries m !! q); [done|].
    destruct (strip_suffix _ q) as [short|] eqn:E; [|done]. apply Hs in E. rewrite lookup_insert_ne; [done|]. by intros ->.
Qed.

(** A host that has left is not found by its name any more, nor by the qualified one. *)
Theorem unregister_forgets hostname m :
  (m.(entries) !! fqdn m.(domain) hostname = None -> resolve (unregister hostname m) (fqdn m.(domain) hostname) = None)
  /\ (unregister hostname m).(entries) !! hostname = None.
Proof.
  split; [|apply lookup_delete_eq]. intros Hn. unfold resolve, unregister. cbn [entries domain].
  assert (Hd : delete hostname (entries m) !! fqdn (domain m) hostname = None) by (rewrite lookup_delete_None; by right). rewrite Hd.
  rewrite (proj2 (strip_suffix_spec (c_dot :: domain m) (fqdn (domain m) hostname) hostname) eq_refl). apply lookup_delete_eq.
Qed.

(** ** Routes *)

(** [s] is the domain, or what follows one of its dots. *)
Definition label_suffix (s d : str) : Prop := s = d \/ exists pre, d = pre ++ c_dot :: s.

Lemma label_suffix_once d a b s : split_once c_dot d = Some (a, b) -> label_suffix s d -> s = d \/ label_suffix s b.
Proof.
  intros H [->|[pre ->]]; [by left|right]. apply split_once_spec in H as [Heq Ha].
  revert a Heq Ha. induction pre as [|x pre IH]; intros a Heq Ha.
  - destruct a as [|y a]; [injection Heq as ->; by left|]. cbn in Heq. injection Heq as <- _. done.
  - destruct a as [|y a].
    + injection Heq as -> <-. right. by exists pre.
    + cbn in Heq. injection Heq as <- Heq. apply (IH a Heq). change (contains_char c_dot (x :: a)) with ((x =? c_dot) || contains_char c_dot a) in Ha. by apply orb_false_iff in Ha as [_ Ha].
Qed.

Lemma label_suffix_length s d : label_suffix s d -> (length s <= length d)%nat.
Proof. intros [->|[pre ->]]; [lia|]. rewrite length_app. cbn. lia. Qed.

Lemma servers_loop_spec c : forall fuel d, (length d < fuel)%nat ->
  (exists s servers, servers_loop fuel c d = Some servers /\ c.(routes) !! s = Some servers /\ label_suffix s d
     /\ forall s', label_suffix s' d -> is_Some (c.(routes) !! s') -> (length s' <= length s)%nat)
  \/ (servers_loop fuel c d = Some c.(default_servers) /\ forall s, label_suffix s d -> c.(routes) !! s = None).
Proof.
  induction fuel as [|fuel IH]; intros d Hl; [lia|]. cbn [servers_loop]. destruct (routes c !! d) as [servers|] eqn:Ed.
  - left. exists d, servers. split_and!; [done|done|by left|]. intros s' Hs' _. by apply label_suffix_length.
  - destruct (split_once c_dot d) as [[a b]|] eqn:Es.
    + apply split_once_spec in Es as Hd. destruct Hd as [Hd _].
      destruct (IH b) as [(s & servers & H1 & H2 & H3 & H4)|[H1 H2]]; [rewrite Hd, length_app in Hl; cbn in Hl; lia| |].
      * left. exists s, servers. split_and!; [done|done| |].
        -- destruct H3 as [->|[pre ->]]; right; [by exists a|]. exists (a ++ c_dot :: pre). by rewrite <- app_assoc.
        -- intros s' Hs' Hr. destruct (label_suffix_once _ _ _ _ Es Hs') as [->|Hb]; [rewrite Ed in Hr; by destruct Hr|by apply H4].
      * right. split; [done|]. intros s Hs. destruct (label_suffix_once _ _ _ _ Es Hs) as [->|Hb]; [done|by apply H2].
    + right. split; [done|]. intros s [->|[pre ->]]; [done|]. exfalso. apply split_once_none in Es.
      unfold contains_char in Es. rewrite existsb_elem_false in Es. specialize (Es c_dot). rewrite Z.eqb_refl in Es.
      assert (c_dot ∈ pre ++ c_dot :: s) by (apply elem_of_app; right; by left). by discriminate Es.
Qed.

(** a query goes to the servers of the longest route that is the domain or ends it at a dot, and to
    the default ones when there is none; the search always ends. *)
Theorem servers_for_longest c d :
  (exists s servers, servers_for c d = Some servers /\ c.(routes) !! s = Some servers /\ label_suffix s d
     /\ forall s', label_suffix s' d -> is_Some (c.(routes) !! s') -> (length s' <= length s)%nat)
  \/ (servers_for c d = Some c.(default_servers) /\ forall s, label_suffix s d -> c.(routes) !! s = None).
Proof. apply servers_loop_spec. lia. Qed.

(** ** Examples *)

Definition mesh : MagicDns := new_dns (lit "mesh.local").
Definition quoted (c : char) : str := [c].

Lemma register_resolves_witness :
  let m' := (register quoted (lit "db") 1 mesh).2 in
  resolve m' (lit "db") = Some 1 /\ resolve m' (lit "db.mesh.local") = Some 1.
Proof.
  destruct (register_resolves quoted (lit "db") 1 mesh (lit "db.mesh.local") (register quoted (lit "db") 1 mesh).2) as (_ & H1 & H2 & _).
  - vm_compute. reflexivity.
  - split; [exact H1|]. apply H2. vm_compute. reflexivity.
Defined.

(** A name may have dots, and so be the qualified name of another host: queries for that one are then answered with
    the address of the one that took its name, though the records still have both. *)
Theorem fqdn_hijacked :
  let m := (register quoted (lit "db.mesh.local") 2 (register quoted (lit "db") 1 mesh).2).2 in
  resolve m (lit "db.mesh.local") = Some 2
  /\ {| name := lit "db.mesh.local"; record_type := A; value := lit "0.0.0.1"; ttl := 60 |} ∈ to_records map_to_list m.
Proof.
  split; [vm_compute; reflexivity|]. apply list_elem_of_In. vm_compute. tauto.
Qed.
