(* ===== verification/Notify.v ===== *)
(** * Notifications

    [runesh-notify/src/lib.rs] and [webhook.rs]: the policy on the addresses a webhook may have, the
    requests and their retries, and the dispatcher.  The [url], [serde_json], [hmac] and
    [reqwest] crates and the system's resolver are parameters; the server may answer in
    any way, also by the requests it has had.  The theorems state which addresses are
    blocked, what an accepted URL is, what the retries are, and that nothing is sent to a
    URL that is refused. *)
From S2P Require Import Prelude Str Net.

#[local] Open Scope Z_scope.

Inductive NotifySeverity : Type := Info | Warning | Critical | Resolved.

Record Notification := {
  severity : NotifySeverity;
  title : str;
  body : str;
  source : option str;
  url : option str;
  fields : gmap str str
}.

Record SendResult := { success : bool; channel : str; error : option str }.

(** ** Addresses *)

Definition octet (k a : Z) : Z := a / 2 ^ (8 * (3 - k)) mod 256.

Definition is_blocked_v4 (v4 : Z) : bool :=
  (octet 0 v4 =? 127)
  || ((octet 0 v4 =? 10) || ((octet 0 v4 =? 172) && ((16 <=? octet 1 v4) && (octet 1 v4 <=? 31))) || ((octet 0 v4 =? 192) && (octet 1 v4 =? 168)))
  || ((octet 0 v4 =? 169) && (octet 1 v4 =? 254))
  || ((224 <=? octet 0 v4) && (octet 0 v4 <=? 239))
  || (v4 =? 2 ^ 32 - 1)
  || (v4 =? 0)
  || ((octet 0 v4 =? 169) && (octet 1 v4 =? 254) && (octet 2 v4 =? 169) && (octet 3 v4 =? 254))
  || ((octet 0 v4 =? 100) && (Z.land (octet 1 v4) 192 =? 64))
  || (octet 0 v4 =? 0).

(** [segments()[0]]. *)
Definition segment0 (v6 : Z) : Z := v6 / 2 ^ 112.
Definition to_ipv4_mapped (v6 : Z) : option Z := if v6 / 2 ^ 32 =? 65535 then Some (v6 mod 2 ^ 32) else None.

Definition is_blocked_ip (ip : IpAddr) : bool :=
  match ip with
  | V4 v4 => is_blocked_v4 v4
  | V6 v6 =>
      (v6 =? 1) || (Z.land (segment0 v6) 65280 =? 65280) || (v6 =? 0)
      || (Z.land (segment0 v6) 65024 =? 64512)
      || (Z.land (segment0 v6) 65472 =? 65152)
      || default false (is_blocked_v4 <$> to_ipv4_mapped v6)
  end.

(** ** Policies *)

Inductive EgressMode : Type := Allowlist | AllowAnyPublic.
Record WebhookUrlPolicy := { mode : EgressMode; allowlist : list str; block_private_ips : bool }.

Definition default_policy : WebhookUrlPolicy := {| mode := Allowlist; allowlist := []; block_private_ips := true |}.
Definition allowlist_policy (hosts : list str) : WebhookUrlPolicy := {| mode := Allowlist; allowlist := hosts; block_private_ips := true |}.
Definition allow_any_public : WebhookUrlPolicy := {| mode := AllowAnyPublic; allowlist := []; block_private_ips := true |}.

(** Durations are in nanoseconds. *)
Record RetryPolicy := { retry_count : Z; base_delay : Z; max_delay : Z }.
Definition default_retry : RetryPolicy := {| retry_count := 3; base_delay := 500000000; max_delay := 30000000000 |}.

(** What the [url] crate says of a URL. *)
Record Url := { scheme : str; host_str : option str; port_or_known_default : option Z }.

Inductive WebhookFormat : Type := Raw | Slack | Discord | Ntfy.

Record WebhookChannel := {
  name : str;
  target_url : str;
  auth_header : option str;
  format : WebhookFormat;
  url_policy : WebhookUrlPolicy;
  retry : RetryPolicy;
  shared_secret : option str
}.

Record Request := { req_url : str; req_body : str; req_headers : list (str * str) }.
Inductive Outcome : Type := Response (status : Z) (retry_after : option str) | Failed (e : str).

(** What has happened so far. *)
Record World := { sent : list Request; slept : list Z }.

Section Webhook.
Context (parse_url : str -> result str Url).
Context (to_socket_addrs : str -> Z -> result str (list IpAddr)).
Context (show_ip : IpAddr -> str) (show_status : Z -> str).
Context (json_of : Notification -> result str str) (json_object : str -> str -> result str str).
Context (hmac_hex : str -> str -> str).
(** The server's answer to a request, after the requests it has had. *)
Context (server : list Request -> Request -> Outcome).
(** [gen_range(0..=max)] at an attempt. *)
Context (gen_range : Z -> Z -> Z).

Definition host_allowed (policy : WebhookUrlPolicy) (host : str) : result str unit :=
  match policy.(mode) with
  | Allowlist =>
      if bool_decide (policy.(allowlist) = []) then
        Err (lit "url policy rejects all hosts: allowlist is empty and mode is Allowlist. Configure WebhookUrlPolicy::allowlist([...]) or WebhookUrlPolicy::allow_any_public().")
      else
        let lowered := to_ascii_lowercase host in
        if existsb (fun suffix => bool_decide (lowered = to_ascii_lowercase suffix) || ends_with (c_dot :: to_ascii_lowercase suffix) lowered) policy.(allowlist)
        then Ok tt else Err (lit "host " ++ host ++ lit " not in allowlist")
  | AllowAnyPublic => Ok tt
  end.

Definition check_addr (ip : IpAddr) (_ : unit) : result str unit :=
  if is_blocked_ip ip then Err (lit "address " ++ show_ip ip ++ lit " is private/loopback/IMDS") else Ok tt.

Definition validate_url (u : str) (policy : WebhookUrlPolicy) : result str unit :=
  match parse_url u with
  | Err e => Err (lit "parse: " ++ e)
  | Ok parsed =>
      if negb (bool_decide (parsed.(scheme) = lit "http") || bool_decide (parsed.(scheme) = lit "https")) then
        Err (lit "unsupported scheme " ++ parsed.(scheme))
      else
        host ← ok_or (lit "missing host") parsed.(host_str);
        _ ← host_allowed policy host;
        if policy.(block_private_ips) then
          match to_socket_addrs host (default 80 parsed.(port_or_known_default)) with
          | Err e => Err (lit "dns: " ++ e)
          | Ok addrs => try_for check_addr addrs tt
          end
        else Ok tt
  end.

Definition severity_label (s : NotifySeverity) : str :=
  match s with
  | Info => lit "INFO"
  | Warning => lit "WARN"
  | Critical => lit "CRIT"
  | Resolved => lit "OK"
  end.

Definition json_header : list (str * str) := [(lit "Content-Type", lit "application/json")].

Definition build_body (c : WebhookChannel) (n : Notification) : result str (str * list (str * str)) :=
  let text (stars : str) := stars ++ lit "[" ++ severity_label n.(severity) ++ lit "]" ++ stars ++ lit " " ++ n.(title) ++ [c_nl] ++ n.(body) in
  match c.(format) with
  | Raw => match json_of n with Ok b => Ok (b, json_header) | Err e => Err (lit "serialize: " ++ e) end
  | Slack => match json_object (lit "text") (text (lit "*")) with Ok b => Ok (b, json_header) | Err e => Err (lit "serialize: " ++ e) end
  | Discord => match json_object (lit "content") (text (lit "**")) with Ok b => Ok (b, json_header) | Err e => Err (lit "serialize: " ++ e) end
  | Ntfy =>
      let priority := match n.(severity) with Critical => lit "5" | Warning => lit "3" | _ => lit "2" end in
      Ok (n.(body), [(lit "Title", n.(title)); (lit "Priority", priority); (lit "Content-Type", lit "text/plain")])
  end.

(** [Duration::MAX], and [saturating_mul] by a [u32]. *)
Definition DURATION_MAX : Z := (2 ^ 64 - 1) * 1000000000 + 999999999.
Definition duration_mul (d k : Z) : Z := Z.min (d * k) DURATION_MAX.

(** The largest delay before an attempt is repeated. *)
Definition max_nanos (attempt : Z) (policy : RetryPolicy) : Z :=
  let exp := Z.min (2 ^ sat_sub attempt 1) (2 ^ 64 - 1) in
  wrap 64 (Z.min (duration_mul policy.(base_delay) (wrap 32 exp)) policy.(max_delay)).
Definition backoff_delay (attempt : Z) (policy : RetryPolicy) : Z :=
  let m := max_nanos attempt policy in
  if m =? 0 then 0 else gen_range attempt m.

Definition sleep (d : Z) (w : World) : World := {| sent := w.(sent); slept := w.(slept) ++ [d] |}.
Definition post (r : Request) (w : World) : Outcome * World :=
  (server w.(sent) r, {| sent := w.(sent) ++ [r]; slept := w.(slept) |}).

Definition is_success (status : Z) : bool := (200 <=? status) && (status <? 300).
Definition is_server_error (status : Z) : bool := (500 <=? status) && (status <? 600).

(** [Retry-After], in seconds. *)
Definition retry_after_of (status : Z) (header : option str) : option Z :=
  if (status =? 429) || (status =? 503) then h ← header; s ← parse_uint 64 (trim h); Some (s * 1000000000) else None.

(** The loop, with fuel for the attempts; [attempt] is that of the iteration before. *)
Fixpoint retry_loop (fuel : nat) (r : Request) (policy : RetryPolicy) (attempt : Z) (w : World) : option (result str unit * World) :=
  match fuel with
  | O => None
  | S fuel =>
      let attempt := wrap 32 (attempt + 1) in
      let '(outcome, w) := post r w in
      match outcome with
      | Response status header =>
          if is_success status then Some (Ok tt, w)
          else
            let last_err := lit "HTTP " ++ show_status status in
            if attempt >? policy.(retry_count) then Some (Err last_err, w)
            else if negb (is_server_error status || (status =? 429)) then Some (Err last_err, w)
            else
              let delay := match retry_after_of status header with
                           | Some d => Z.min d policy.(max_delay)
                           | None => backoff_delay attempt policy
                           end in
              retry_loop fuel r policy attempt (sleep delay w)
      | Failed e =>
          if attempt >? policy.(retry_count) then Some (Err e, w)
          else retry_loop fuel r policy attempt (sleep (backoff_delay attempt policy) w)
      end
  end.

Definition request_of (u b : str) (extra_headers : list (str * str)) (auth secret : option str) : Request :=
  {| req_url := u; req_body := b;
     req_headers := extra_headers
       ++ match auth with Some a => [(lit "Authorization", a)] | None => [] end
       ++ match secret with Some s => [(lit "X-Runesh-Signature", hmac_hex s b)] | None => [] end |}.

Definition send_with_retry (u b : str) (extra_headers : list (str * str)) (auth secret : option str) (policy : RetryPolicy) (w : World)
  : option (result str unit * World) :=
  retry_loop (S (Z.to_nat policy.(retry_count))) (request_of u b extra_headers auth secret) policy 0 w.

(** [WebhookChannel::send]. *)
Definition webhook_send (c : WebhookChannel) (n : Notification) (w : World) : option (SendResult * World) :=
  let failed e w := Some ({| success := false; channel := c.(name); error := Some e |}, w) in
  match validate_url c.(target_url) c.(url_policy) with
  | Err e => failed (lit "url rejected: " ++ e) w
  | Ok _ =>
      match build_body c n with
      | Err e => failed e w
      | Ok (b, headers) =>
          match send_with_retry c.(target_url) b headers c.(auth_header) c.(shared_secret) c.(retry) w with
          | None => None
          | Some (Ok _, w) => Some ({| success := true; channel := c.(name); error := None |}, w)
          | Some (Err e, w) => failed e w
          end
      end
  end.

End Webhook.

(** ** The dispatcher *)

Section Dispatch.
Context {W : Type}.

(** A channel, whatever it is made of. *)
Record NotificationChannel := { channel_name : str; channel_send : Notification -> W -> SendResult * W }.
Definition Dispatcher : Type := list NotificationChannel.

Definition add_channel (d : Dispatcher) (c : NotificationChannel) : Dispatcher := d ++ [c].

Definition dispatch (d : Dispatcher) (n : Notification) (w : W) : list SendResult * W :=
  foldl (fun '(results, w) c => let '(r, w) := c.(channel_send) n w in (results ++ [r], w)) ([], w) d.

Definition dominated (s min_severity : NotifySeverity) : bool :=
  match s, min_severity with
  | Info, Warning | Info, Critical | Warning, Critical => true
  | _, _ => false
  end.

Definition send_filtered (d : Dispatcher) (n : Notification) (min_severity : NotifySeverity) (w : W) : list SendResult * W :=
  if dominated n.(severity) min_severity then ([], w) else dispatch d n w.
End Dispatch.

(** ** The blocked addresses *)

(** The address lies in the network of the prefix, for addresses of a width. *)
Definition within (w a : Z) (net : Z * Z) : bool := a / 2 ^ (w - net.2) =? net.1 / 2 ^ (w - net.2).

Definition blocked_v4 : list (Z * Z) :=
  [(ipv4 0 0 0 0, 8); (ipv4 10 0 0 0, 8); (ipv4 100 64 0 0, 10); (ipv4 127 0 0 0, 8); (ipv4 169 254 0 0, 16);
   (ipv4 172 16 0 0, 12); (ipv4 192 168 0 0, 16); (ipv4 224 0 0 0, 4); (ipv4 255 255 255 255, 32)].
Definition blocked_v6 : list (Z * Z) :=
  [(0, 128); (1, 128); (0xff * 2 ^ 120, 8); (0xfc * 2 ^ 120, 7); (0xfe8 * 2 ^ 116, 10)].

(** A test of every number from [z] up. *)
Fixpoint all_from (P : Z -> bool) (n : nat) (z : Z) : bool :=
  match n with
  | O => true
  | S n => P z && all_from P n (z + 1)
  end.

Lemma all_from_spec (P : Z -> bool) n : forall z, all_from P n z = true -> forall x, z <= x < z + Z.of_nat n -> P x = true.
Proof.
  induction n as [|n IH]; intros z H x Hx; [lia|]. cbn in H. apply andb_true_iff in H as [Hz H].
  destruct (decide (x = z)) as [->|]; [done|]. apply (IH _ H). lia.
Qed.

Lemma forall_below (P : Z -> bool) n : all_from P (Z.to_nat n) 0 = true -> forall x, 0 <= x < n -> P x = true.
Proof. intros H x Hx. apply (all_from_spec P _ _ H). lia. Qed.

Lemma land_192 o : 0 <= o < 256 -> (Z.land o 192 =? 64) = (o / 64 =? 1).
Proof. intros Ho. apply eqb_prop. revert o Ho. apply forall_below. vm_compute. reflexivity. Qed.

(** The clauses of the test as prefixes, for the first two octets. *)
Lemma prefix_clauses o0 o1 : 0 <= o1 < 256 ->
  let o := o0 * 256 + o1 in
  (o / 64 = 401 <-> o0 = 100 /\ o1 / 64 = 1) /\ (o = 43518 <-> o0 = 169 /\ o1 = 254)
  /\ (o / 16 = 2753 <-> o0 = 172 /\ 16 <= o1 <= 31) /\ (o = 49320 <-> o0 = 192 /\ o1 = 168) /\ (o0 / 16 = 14 <-> 224 <= o0 <= 239).
Proof. intros H1. cbn zeta. split_and!; split; intros; Z.to_euclidean_division_equations; lia. Qed.

Lemma is_blocked_v4_nets a : 0 <= a < 2 ^ 32 -> is_blocked_v4 a = existsb (within 32 a) blocked_v4.
Proof.
  intros Ha. unfold is_blocked_v4, octet. rewrite land_192 by (apply Z.mod_pos_bound; lia).
  change (8 * (3 - 0)) with 24. change (8 * (3 - 1)) with 16. change (8 * (3 - 2)) with 8. change (8 * (3 - 3)) with 0.
  assert (H0 : 0 <= a / 2 ^ 24 < 256) by (split; [apply Z.div_pos; lia|apply Z.div_lt_upper_bound; lia]).
  rewrite (Z.mod_small (a / 2 ^ 24) 256) by lia.
  assert (H16 : a / 2 ^ 16 = a / 2 ^ 24 * 256 + a / 2 ^ 16 mod 256).
  { rewrite (Z.div_mod (a / 2 ^ 16) 256) at 1 by lia. rewrite Z.div_div by lia. change (2 ^ 16 * 256) with (2 ^ 24). lia. }
  assert (H1 : 0 <= a / 2 ^ 16 mod 256 < 256) by (apply Z.mod_pos_bound; lia).
  assert (Hnets : existsb (within 32 a) blocked_v4 = (a / 2 ^ 24 =? 0) || ((a / 2 ^ 24 =? 10) || ((a / 2 ^ 16 / 64 =? 401) || ((a / 2 ^ 24 =? 127)
    || ((a / 2 ^ 16 =? 43518) || ((a / 2 ^ 16 / 16 =? 2753) || ((a / 2 ^ 16 =? 49320) || ((a / 2 ^ 24 / 16 =? 14) || ((a / 2 ^ 0 =? 4294967295) || false))))))))).
  { rewrite !Z.div_div by lia. reflexivity. }
  assert (Hz : a = 0 -> a / 2 ^ 24 = 0) by (by intros ->).
  rewrite Hnets, Z.pow_0_r, Z.div_1_r. clear Hnets. change (2 ^ 32 - 1) with 4294967295.
  destruct (prefix_clauses (a / 2 ^ 24) (a / 2 ^ 16 mod 256) H1) as (E1 & E2 & E3 & E4 & E5). rewrite <- H16 in *.
  rewrite orb_false_r. apply Bool.eq_iff_eq_true. rewrite !orb_true_iff, !andb_true_iff, !Z.eqb_eq, !Z.leb_le. rewrite E1, E2, E3, E4, E5. clear - Hz. tauto.
Qed.

Lemma segment_clauses s : 0 <= s < 65536 ->
  (Z.land s 65280 =? 65280) = (s / 256 =? 255) /\ (Z.land s 65024 =? 64512) = (s / 512 =? 126) /\ (Z.land s 65472 =? 65152) = (s / 64 =? 1018).
Proof.
  intros Hs.
  assert (H : eqb (Z.land s 65280 =? 65280) (s / 256 =? 255) && eqb (Z.land s 65024 =? 64512) (s / 512 =? 126)
    && eqb (Z.land s 65472 =? 65152) (s / 64 =? 1018) = true).
  { apply (forall_below (fun s => eqb (Z.land s 65280 =? 65280) (s / 256 =? 255) && eqb (Z.land s 65024 =? 64512) (s / 512 =? 126)
      && eqb (Z.land s 65472 =? 65152) (s / 64 =? 1018)) 65536); [|exact Hs]. vm_compute. reflexivity. }
  apply andb_true_iff in H as [H H3]. apply andb_true_iff in H as [H1 H2]. split_and!; by apply eqb_prop.
Qed.

Definition valid_ip (ip : IpAddr) : Prop := match ip with V4 a => 0 <= a < 2 ^ 32 | V6 a => 0 <= a < 2 ^ 128 end.

(** the addresses that are refused are those of the networks listed: this host, private, shared,
    loopback, link-local (with the metadata service), multicast and broadcast; for IPv6
    the unspecified, loopback, multicast, unique local and link-local ones, and those
    that stand for a refused IPv4 address. *)
Theorem is_blocked_ip_spec ip : valid_ip ip ->
  is_blocked_ip ip = match ip with
                     | V4 a => existsb (within 32 a) blocked_v4
                     | V6 a => existsb (within 128 a) blocked_v6
                               || ((a / 2 ^ 32 =? 65535) && existsb (within 32 (a mod 2 ^ 32)) blocked_v4)
                     end.
Proof.
  intros Hv. destruct ip as [a|a]; cbn [is_blocked_ip valid_ip] in *; [by apply is_blocked_v4_nets|].
  assert (Hs : 0 <= segment0 a < 65536) by (unfold segment0; split; [apply Z.div_pos; lia|apply Z.div_lt_upper_bound; lia]).
  destruct (segment_clauses _ Hs) as (-> & -> & ->). unfold segment0. rewrite !Z.div_div by lia.
  assert (Hnets : existsb (within 128 a) blocked_v6 = (a / 2 ^ 0 =? 0) || ((a / 2 ^ 0 =? 1) || ((a / (2 ^ 112 * 256) =? 255)
    || ((a / (2 ^ 112 * 512) =? 126) || ((a / (2 ^ 112 * 64) =? 1018) || false))))) by reflexivity.
  rewrite Hnets, Z.pow_0_r, Z.div_1_r. clear Hnets.
  assert (Hm : default false (is_blocked_v4 <$> to_ipv4_mapped a) = (a / 2 ^ 32 =? 65535) && existsb (within 32 (a mod 2 ^ 32)) blocked_v4).
  { unfold to_ipv4_mapped. destruct (a / 2 ^ 32 =? 65535); [|done]. cbn. apply is_blocked_v4_nets. apply Z.mod_pos_bound. lia. }
  rewrite Hm. repeat match goal with |- context [?x =? ?y] => generalize (x =? y); intro end.
  generalize (existsb (within 32 (a mod 2 ^ 32)) blocked_v4) as x. intros x. clear.
  repeat match goal with b : bool |- _ => destruct b end; reflexivity.
Qed.

(** ** Accepted URLs *)

(** [host] is one of the list or a subdomain of one, letters of either case being the same. *)
Definition listed (hosts : list str) (host : str) : Prop :=
  exists suffix, suffix ∈ hosts
    /\ (to_ascii_lowercase host = to_ascii_lowercase suffix
        \/ exists sub, to_ascii_lowercase host = sub ++ c_dot :: to_ascii_lowercase suffix).

Lemma host_allowed_ok policy host : host_allowed policy host = Ok tt <-> (policy.(mode) = Allowlist -> listed policy.(allowlist) host).
Proof.
  unfold host_allowed, listed. destruct (mode policy); [|naive_solver].
  destruct (bool_decide_reflect (allowlist policy = [])) as [->|Hne].
  { split; [done|]. intros H. destruct (H eq_refl) as (s & Hs & _). by apply elem_of_nil in Hs. }
  destruct (existsb _ _) eqn:E.
  - split; [|done]. intros _ _. apply existsb_elem in E as (s & Hs & E). exists s. split; [done|].
    apply orb_true_iff in E as [E|E]; [left; by apply bool_decide_eq_true in E|right].
    unfold ends_with in E. apply bool_decide_eq_true in E as [r Hr]. apply strip_suffix_spec in Hr. by exists r.
  - split; [done|]. intros H. exfalso. destruct (H eq_refl) as (s & Hs & Hc). rewrite existsb_elem_false in E. specialize (E s Hs).
    apply orb_false_iff in E as [E1 E2]. apply bool_decide_eq_false in E1. destruct Hc as [|[sub Hsub]]; [done|].
    unfold ends_with in E2. apply bool_decide_eq_false in E2. apply E2. exists sub. by apply strip_suffix_spec.
Qed.

(** a URL is accepted exactly if it is one of the web, its host is listed where the policy is a
    list (so an empty list accepts nothing), and, where private addresses are blocked,
    its host resolves and none of the addresses it resolves to is blocked. *)
Theorem validate_url_spec parse_url to_socket_addrs show_ip u policy :
  validate_url parse_url to_socket_addrs show_ip u policy = Ok tt
  <-> exists parsed host, parse_url u = Ok parsed /\ parsed.(host_str) = Some host
      /\ (parsed.(scheme) = lit "http" \/ parsed.(scheme) = lit "https")
      /\ (policy.(mode) = Allowlist -> listed policy.(allowlist) host)
      /\ (policy.(block_private_ips) = true ->
          exists addrs, to_socket_addrs host (default 80 parsed.(port_or_known_default)) = Ok addrs
            /\ forall ip, ip ∈ addrs -> is_blocked_ip ip = false).
Proof.
  unfold validate_url. destruct (parse_url u) as [parsed|e]; [|naive_solver].
  assert (Hs : bool_decide (scheme parsed = lit "http") || bool_decide (scheme parsed = lit "https") = true
    <-> scheme parsed = lit "http" \/ scheme parsed = lit "https") by (by rewrite orb_true_iff, !bool_decide_eq_true).
  destruct (_ || _); cbn [negb]; [|split; [done|]; intros (p & h & [= <-] & _ & Hp & _); by apply Hs in Hp].
  destruct Hs as [Hs _]. specialize (Hs eq_refl).
  destruct (host_str parsed) as [host|] eqn:Eh; cbn [ok_or mbind result_bind]; [|split; [done|]; intros (p & h & [= <-] & Hp & _); congruence].
  pose proof (host_allowed_ok policy host) as Ha.
  destruct (host_allowed policy host) as [[]|e]; cbn [mbind result_bind];
    [|split; [done|]; intros (p & h & [= <-] & Hp & _ & Hl & _); rewrite Eh in Hp; injection Hp as <-; by apply Ha in Hl].
  destruct Ha as [Ha _]. specialize (Ha eq_refl).
  destruct (block_private_ips policy); [|split; [intros _; by exists parsed, host|done]].
  assert (Hc : forall ip, check_addr show_ip ip tt = Ok tt <-> is_blocked_ip ip = false) by (intros ip; unfold check_addr; by destruct (is_blocked_ip ip)).
  destruct (to_socket_addrs host (default 80 (port_or_known_default parsed))) as [addrs|e] eqn:Er.
  - rewrite try_for_unit. split.
    + intros Hall. exists parsed, host. split_and!; try done. intros _. exists addrs. split; [done|]. intros ip Hip. by apply Hc, Hall.
    + intros (p & h & [= <-] & Hp & _ & _ & Hb). rewrite Eh in Hp. injection Hp as <-. destruct (Hb eq_refl) as (l & Hr & Hall).
      rewrite Er in Hr. injection Hr as <-. intros ip Hip. by apply Hc, Hall.
  - split; [done|]. intros (p & h & [= <-] & Hp & _ & _ & Hb). rewrite Eh in Hp. injection Hp as <-. destruct (Hb eq_refl) as (l & Hr & _). congruence.
Qed.

(** ** Retries *)

Section Retries.
Context (show_status : Z -> str).
Context (server : list Request -> Request -> Outcome) (gen_range : Z -> Z -> Z).
(** [rand] gives a number of the range. *)
Context (gen_range_in : forall attempt m, 0 < m -> 0 <= gen_range attempt m <= m).

Definition succeeds (o : Outcome) : bool := match o with Response status _ => is_success status | Failed _ => false end.
Definition retryable (o : Outcome) : bool :=
  match o with
  | Response status _ => negb (is_success status) && (is_server_error status || (status =? 429))
  | Failed _ => true
  end.
Definition error_text (o : Outcome) : str :=
  match o with Response status _ => lit "HTTP " ++ show_status status | Failed e => e end.

(** The answer to the request when it has been sent [k] times before. *)
Definition answer (w : World) (r : Request) (k : nat) : Outcome := server (w.(sent) ++ repeat r k) r.

(** [n] requests were made from [w], with waits between them, and the last one decided. *)
Definition ended (r : Request) (policy : RetryPolicy) (w : World) (most n : nat) (res : result str unit) (w' : World) : Prop :=
  w'.(sent) = w.(sent) ++ repeat r n /\ (1 <= n <= most)%nat
  /\ (exists delays, w'.(slept) = w.(slept) ++ delays /\ length delays = (n - 1)%nat /\ Forall (fun d => 0 <= d <= policy.(max_delay)) delays)
  /\ (forall k, (k < n - 1)%nat -> retryable (answer w r k) = true)
  /\ match res with
     | Ok _ => succeeds (answer w r (n - 1)) = true
     | Err e => succeeds (answer w r (n - 1)) = false /\ e = error_text (answer w r (n - 1))
                /\ (n = most \/ retryable (answer w r (n - 1)) = false)
     end.

Lemma backoff_le attempt policy : 0 <= policy.(base_delay) -> 0 <= policy.(max_delay) -> 0 <= backoff_delay gen_range attempt policy <= policy.(max_delay).
Proof.
  intros Hb Hm. unfold backoff_delay. set (m := max_nanos attempt policy).
  assert (Hr : 0 <= m <= max_delay policy).
  { unfold m, max_nanos. set (x := duration_mul _ _). assert (0 <= x).
    { unfold x, duration_mul, DURATION_MAX. pose proof (wrap_range 32 (Z.min (2 ^ sat_sub attempt 1) (2 ^ 64 - 1)) ltac:(lia)) as Hw. unfold is_u in Hw. lia. }
    unfold wrap. split; [apply Z.mod_pos_bound; lia|]. transitivity (Z.min x (max_delay policy)); [apply Z.mod_le; lia|lia]. }
  destruct (Z.eqb_spec m 0); [lia|]. specialize (gen_range_in attempt m ltac:(lia)). lia.
Qed.

Lemma retry_after_nonneg status header d : retry_after_of status header = Some d -> 0 <= d.
Proof.
  unfold retry_after_of. destruct (_ || _); [|done]. destruct header as [h|]; [|done]. cbn. destruct (parse_uint 64 (trim h)) as [s|] eqn:E; [|done].
  intros [= <-]. apply parse_uint_range in E. unfold is_u in E. lia.
Qed.

(** One more request before the rest. *)
Lemma ended_step r policy w d most n res w' :
  retryable (answer w r 0) = true -> 0 <= d <= policy.(max_delay) ->
  ended r policy {| sent := w.(sent) ++ [r]; slept := w.(slept) ++ [d] |} most n res w' -> ended r policy w (S most) (S n) res w'.
Proof.
  intros H0 Hd (Hs & Hn & (delays & Hdl & Hlen & Hall) & Hk & Hres).
  assert (Ha : forall k, answer {| sent := w.(sent) ++ [r]; slept := w.(slept) ++ [d] |} r k = answer w r (S k)) by (intros k; unfold answer; cbn; by rewrite <- app_assoc).
  cbn [sent slept] in *. unfold ended. split_and!; [by rewrite Hs, <- app_assoc|lia..| | |].
  - exists (d :: delays). split_and!; [by rewrite Hdl, <- app_assoc|cbn; lia|by constructor].
  - intros [|k] Hlt; [done|]. rewrite <- Ha. apply Hk. lia.
  - replace (S n - 1)%nat with (S (n - 1)) by lia. rewrite <- !Ha. destruct res; [done|]. naive_solver lia.
Qed.

Lemma retry_loop_ended r policy : 0 <= policy.(base_delay) -> 0 <= policy.(max_delay) -> 0 <= policy.(retry_count) < 2 ^ 32 - 1 ->
  forall fuel attempt w, (0 < fuel)%nat -> 0 <= attempt -> attempt + Z.of_nat fuel = policy.(retry_count) + 1 ->
  exists n res w', retry_loop show_status server gen_range fuel r policy attempt w = Some (res, w') /\ ended r policy w fuel n res w'.
Proof.
  intros Hb Hm Hc. induction fuel as [|fuel IH]; intros attempt w Hf Ha Hsum; [lia|]. cbn [retry_loop post].
  rewrite (wrap_small 32) by (unfold is_u; lia). rewrite Z.gtb_ltb.
  assert (Hw : answer w r 0 = server (sent w) r) by (unfold answer; cbn; by rewrite app_nil_r).
  assert (Hlast : forall res, match res with Ok _ => succeeds (answer w r 0) = true
      | Err e => succeeds (answer w r 0) = false /\ e = error_text (answer w r 0) /\ (1%nat = S fuel \/ retryable (answer w r 0) = false) end ->
    ended r policy w (S fuel) 1 res {| sent := w.(sent) ++ [r]; slept := w.(slept) |}).
  { intros res Hres. split_and!; [done|lia..| |lia|done]. exists []. by rewrite app_nil_r. }
  assert (Hstep : forall d, policy.(retry_count) < attempt + 1 \/ 0 <= d <= policy.(max_delay) -> retryable (answer w r 0) = true -> attempt + 1 <= policy.(retry_count) ->
    exists n res w', retry_loop show_status server gen_range fuel r policy (attempt + 1) {| sent := w.(sent) ++ [r]; slept := w.(slept) ++ [d] |} = Some (res, w')
      /\ ended r policy w (S fuel) n res w').
  { intros d Hd Hr Hle. destruct (IH (attempt + 1) {| sent := w.(sent) ++ [r]; slept := w.(slept) ++ [d] |}) as (n & res & w' & H1 & H2); [lia..|].
    exists (S n), res, w'. split; [done|]. apply (ended_step r policy w d); [done|lia|done]. }
  destruct (server (sent w) r) as [status header|e] eqn:Es.
  - destruct (is_success status) eqn:Eok.
    { eexists 1%nat, (Ok tt), _. split; [done|]. apply Hlast. by rewrite Hw. }
    destruct (Z.ltb_spec (retry_count policy) (attempt + 1)).
    { eexists 1%nat, (Err _), _. split; [done|]. apply Hlast. rewrite Hw. split_and!; [done|done|left; lia]. }
    destruct (is_server_error status || (status =? 429)) eqn:Er; cbn [negb].
    2: { eexists 1%nat, (Err _), _. split; [done|]. apply Hlast. rewrite Hw. split_and!; [done|done|right]. cbn. by rewrite Eok, Er. }
    apply Hstep; [right|rewrite Hw; cbn; by rewrite Eok, Er|done].
    destruct (retry_after_of status header) as [d|] eqn:Ed; [apply retry_after_nonneg in Ed; lia|by apply backoff_le].
  - destruct (Z.ltb_spec (retry_count policy) (attempt + 1)).
    { eexists 1%nat, (Err _), _. split; [done|]. apply Hlast. rewrite Hw. split_and!; [done|done|left; lia]. }
    apply Hstep; [right; by apply backoff_le|by rewrite Hw|done].
Qed.

Context (hmac_hex : str -> str -> str).

(** C37: however the server answers, sending ends: the same request, signed once, is made at most
    [retry_count + 1] times, again only after a server error, a 429 or a failed
    connection, with waits of at most [max_delay] between; it succeeds when the last answer is
    a success, and otherwise the error is that of the last answer. *)
Theorem send_with_retry_spec u b extra_headers auth secret policy w :
  0 <= policy.(base_delay) -> 0 <= policy.(max_delay) -> 0 <= policy.(retry_count) < 2 ^ 32 - 1 ->
  exists n res w', send_with_retry show_status hmac_hex server gen_range u b extra_headers auth secret policy w = Some (res, w')
    /\ ended (request_of hmac_hex u b extra_headers auth secret) policy w (S (Z.to_nat policy.(retry_count))) n res w'.
Proof. intros Hb Hm Hc. apply retry_loop_ended; [done|done|done|lia|lia|lia]. Qed.

End Retries.

(** The ceiling of the delays doubles with every attempt, up to [max_delay]; *)
Theorem backoff_doubles attempt policy :
  1 <= attempt <= 32 -> 0 <= policy.(base_delay) -> 0 <= policy.(max_delay) < 2 ^ 64 ->
  max_nanos attempt policy = Z.min (policy.(base_delay) * 2 ^ (attempt - 1)) policy.(max_delay).
Proof.
  intros Ha Hb Hm. unfold max_nanos. replace (sat_sub attempt 1) with (attempt - 1) by (unfold sat_sub; lia).
  assert (Hp : 1 <= 2 ^ (attempt - 1) <= 2 ^ 31).
  { split; [change 1 with (2 ^ 0) at 1|]; apply Z.pow_le_mono_r; lia. }
  rewrite (Z.min_l (2 ^ (attempt - 1))) by lia. rewrite (wrap_small 32) by (unfold is_u; lia).
  unfold duration_mul. assert (Hd : max_delay policy <= DURATION_MAX) by (unfold DURATION_MAX; lia).
  rewrite wrap_small; [lia|]. unfold is_u. nia.
Qed.

(** but from the thirty-third attempt to the sixty-fourth it is nothing, as the factor is cut to 32 bits. *)
Theorem backoff_collapses attempt policy : 33 <= attempt <= 64 -> 0 <= policy.(max_delay) -> max_nanos attempt policy = 0.
Proof.
  intros Ha Hm. unfold max_nanos. replace (sat_sub attempt 1) with (attempt - 1) by (unfold sat_sub; lia).
  assert (Hp : 2 ^ (attempt - 1) <= 2 ^ 63) by (apply Z.pow_le_mono_r; lia). rewrite (Z.min_l (2 ^ (attempt - 1))) by lia.
  replace (attempt - 1) with (32 + (attempt - 33)) by lia. rewrite Z.pow_add_r by lia. unfold wrap at 2.
  rewrite Z.mul_comm, Z.mod_mul by lia. unfold duration_mul, DURATION_MAX. rewrite Z.mul_0_r. rewrite !Z.min_l by lia. done.
Qed.

(** ** Channels *)

(** a webhook whose URL is refused, or whose message cannot be made, makes no request; otherwise every
    request it makes goes to that URL, with the message and, where there is a secret, its
    signature; and success is reported exactly when the last of them succeeded. *)
Theorem webhook_send_spec parse_url to_socket_addrs show_ip show_status json_of json_object hmac_hex server gen_range c n w :
  (forall attempt m, 0 < m -> 0 <= gen_range attempt m <= m) ->
  0 <= c.(retry).(base_delay) -> 0 <= c.(retry).(max_delay) -> 0 <= c.(retry).(retry_count) < 2 ^ 32 - 1 ->
  exists res w', webhook_send parse_url to_socket_addrs show_ip show_status json_of json_object hmac_hex server gen_range c n w = Some (res, w')
    /\ res.(channel) = c.(name)
    /\ match validate_url parse_url to_socket_addrs show_ip c.(target_url) c.(url_policy), build_body json_of json_object c n with
       | Ok _, Ok (b, headers) =>
           exists k, ended show_status server (request_of hmac_hex c.(target_url) b headers c.(auth_header) c.(shared_secret)) c.(retry) w
             (S (Z.to_nat c.(retry).(retry_count))) k (if res.(success) then Ok tt else Err (default [] res.(error))) w'
       | _, _ => w' = w /\ res.(success) = false
       end.
Proof.
  intros Hg Hb Hm Hc. unfold webhook_send. destruct (validate_url _ _ _ _ _) as [[]|e]; [|by do 2 eexists].
  destruct (build_body _ _ c n) as [[b headers]|e]; [|by do 2 eexists].
  unfold send_with_retry.
  destruct (retry_loop_ended show_status server gen_range Hg (request_of hmac_hex c.(target_url) b headers c.(auth_header) c.(shared_secret)) c.(retry) Hb Hm Hc
    (S (Z.to_nat c.(retry).(retry_count))) 0 w) as (k & res & w' & -> & Hend); [lia|lia|lia|].
  destruct res as [[]|e]; do 2 eexists; (split; [done|]); (split; [done|]); exists k; exact Hend.
Qed.

Lemma dispatch_snoc {W} (d : list (@NotificationChannel W)) c n w :
  dispatch (d ++ [c]) n w = ((dispatch d n w).1 ++ [(c.(channel_send) n (dispatch d n w).2).1], (c.(channel_send) n (dispatch d n w).2).2).
Proof. unfold dispatch. rewrite foldl_app. cbn. destruct (foldl _ _ d) as [rs w']. cbn. by destruct (channel_send c n w'). Qed.

(** Every channel is sent the notification, in order and whatever became of the ones before. *)
Theorem dispatch_all {W} (d1 d2 : list (@NotificationChannel W)) c n w :
  length (dispatch (d1 ++ c :: d2) n w).1 = length (d1 ++ c :: d2)
  /\ (dispatch (d1 ++ c :: d2) n w).1 !! length d1 = Some (c.(channel_send) n (dispatch d1 n w).2).1.
Proof.
  assert (Hlen : forall d, length (dispatch d n w).1 = length d).
  { induction d as [|x d IH] using rev_ind; [done|]. rewrite dispatch_snoc. cbn. rewrite !length_app, IH. done. }
  split; [apply Hlen|]. induction d2 as [|x d2 IH] using rev_ind.
  - rewrite dispatch_snoc. cbn [fst]. rewrite <- (Hlen d1). by apply list_lookup_middle.
  - rewrite app_comm_cons, app_assoc, dispatch_snoc. cbn [fst]. by apply lookup_app_l_Some.
Qed.

(** A notification is held back exactly when it is of a lower severity than asked for; news of a recovery never is. *)
Theorem dominated_spec s min_severity :
  let rank x := match x with Info => 0 | Warning => 1 | Critical => 2 | Resolved => 3 end in
  dominated s min_severity = true <-> min_severity <> Resolved /\ rank s < rank min_severity.
Proof. destruct s, min_severity; cbn; split; try done; intros [? ?]; done || lia. Qed.

(** ** Examples *)

Definition no_url (s : str) : result str Url := Ok {| scheme := lit "https"; host_str := Some (lit "hooks.example.org"); port_or_known_default := Some 443 |}.
Definition resolver (_ : str) (_ : Z) : result str (list IpAddr) := Ok [V4 (ipv4 93 184 216 34)].
Definition busy_twice (history : list Request) (_ : Request) : Outcome :=
  if (length history <? 2)%nat then Response 503 (Some (lit "1")) else Response 200 None.
Definition hook : WebhookChannel :=
  {| name := lit "hook"; target_url := lit "https://hooks.example.org/x"; auth_header := None; format := Ntfy;
     url_policy := allowlist_policy [lit "example.org"]; retry := default_retry; shared_secret := Some (lit "s") |}.
Definition news : Notification := {| severity := Critical; title := lit "t"; body := lit "b"; source := None; url := None; fields := ∅ |}.
Definition quiet : World := {| sent := []; slept := [] |}.
Definition half (_ m : Z) : Z := m / 2.
Definition text_of (ip : IpAddr) : str := lit "ip".
Definition json1 (_ : Notification) : result str str := Ok (lit "{}").
Definition json2 (_ v : str) : result str str := Ok v.

Lemma half_in : forall attempt m, 0 < m -> 0 <= half attempt m <= m.
Proof. intros attempt m Hm. unfold half. split; [apply Z.div_pos; lia|apply Z.div_le_upper_bound; lia]. Qed.

Lemma is_blocked_ip_spec_witness :
  is_blocked_ip (V4 (ipv4 172 31 9 9)) = existsb (within 32 (ipv4 172 31 9 9)) blocked_v4 /\ is_blocked_ip (V4 (ipv4 172 31 9 9)) = true.
Proof.
  split; [|vm_compute; reflexivity]. apply (is_blocked_ip_spec (V4 (ipv4 172 31 9 9))). cbn. unfold ipv4. lia.
Defined.

Lemma send_with_retry_spec_witness :
  exists n res w', send_with_retry show_uint (fun s b => s ++ b) busy_twice half (lit "u") (lit "b") [] None None default_retry quiet = Some (res, w')
    /\ ended show_uint busy_twice (request_of (fun s b => s ++ b) (lit "u") (lit "b") [] None None) default_retry quiet 4 n res w'.
Proof. apply (send_with_retry_spec show_uint busy_twice half half_in (fun s b => s ++ b)); cbn; lia. Defined.

Lemma webhook_send_spec_witness :
  exists res w', webhook_send no_url resolver text_of show_uint json1 json2 (fun s b => s ++ b) busy_twice half hook news quiet = Some (res, w')
    /\ res.(channel) = lit "hook"
    /\ match validate_url no_url resolver text_of hook.(target_url) hook.(url_policy), build_body json1 json2 hook news with
       | Ok _, Ok (b, headers) =>
           exists k, ended show_uint busy_twice (request_of (fun s b => s ++ b) hook.(target_url) b headers None (Some (lit "s"))) default_retry quiet
             4 k (if res.(success) then Ok tt else Err (default [] res.(error))) w'
       | _, _ => w' = quiet /\ res.(success) = false
       end.
Proof.
  apply (webhook_send_spec no_url resolver text_of show_uint json1 json2 (fun s b => s ++ b) busy_twice half hook news quiet); [apply half_in|cbn; lia..].
Defined.

(** The third request is the one that succeeds, after two waits of the second the server asked for. *)
Example webhook_run :
  match webhook_send no_url resolver text_of show_uint json1 json2 (fun s b => s ++ b) busy_twice half hook news quiet with
  | Some (res, w) => res.(success) = true /\ length w.(sent) = 3%nat /\ w.(slept) = [1000000000; 1000000000]
  | None => False
  end.
Proof. vm_compute. split_and!; reflexivity. Qed.

(** The comment at the last clause speaks of the documentation and benchmarking networks; they are not refused. *)
Theorem test_nets_pass :
  is_blocked_ip (V4 (ipv4 192 0 2 1)) = false /\ is_blocked_ip (V4 (ipv4 198 18 0 1)) = false /\ is_blocked_ip (V4 (ipv4 240 0 0 1)) = false.
Proof. vm_compute. split_and!; reflexivity. Qed.

(** An address of this host in the IPv4-compatible or the NAT64 form is not refused. *)
Theorem embedded_loopback_passes :
  is_blocked_ip (V6 (ipv4 127 0 0 1)) = false /\ is_blocked_ip (V6 (0x64ff9b * 2 ^ 96 + ipv4 127 0 0 1)) = false.
Proof. vm_compute. split; reflexivity. Qed.
