(* ===== verification/Terminal.v ===== *)
(** * Terminal sessions

    [runesh-remote/src/cli/session.rs] and [PtyHandle::spawn] of [pty.rs]: the sessions of a
    remote terminal, opened by requests that run side by side.  [open] counts the sessions
    under the lock, gives the lock back while the shell is started, and takes it again to
    insert the session; [step] is the interleaving of these parts.  What the terminal and the
    file system answer is an argument of each call.  The command of a shell starts from the
    environment of the server, a parameter.  The theorems state what a started shell has been
    checked for, and how many sessions there can be. *)
From S2P Require Import Prelude Str Path RemoteFs.

#[local] Open Scope Z_scope.

Definition DENYLIST_ENV_KEYS : list str :=
  map lit ["LD_PRELOAD"; "LD_LIBRARY_PATH"; "LD_AUDIT"; "DYLD_INSERT_LIBRARIES"; "DYLD_LIBRARY_PATH"; "DYLD_FORCE_FLAT_NAMESPACE";
           "DYLD_IMAGE_SUFFIX"; "PYTHONPATH"; "PERL5LIB"; "RUBYLIB"; "NODE_OPTIONS"; "PATH"]%string.

(** Names are compared as on Unix. *)
Definition filter_env (input : gmap str str) : gmap str str :=
  filter (fun kv => existsb (fun denied => bool_decide (denied = kv.1)) DENYLIST_ENV_KEYS = false) input.

Definition check_cwd (fs : gmap (list str) lnode) (cwd : str) (sandbox_root : path) : result RemoteError (list str) :=
  if contains_char 0 cwd then Err (BadRequest (lit "cwd must not contain null bytes"))
  else
    let requested := components cwd in
    let full := if is_absolute requested then requested else join_path sandbox_root requested in
    canon ← ok_or (BadRequest (lit "cwd does not exist or is invalid: ")) (canonicalize fs full);
    canon_root ← ok_or (Internal (lit "Failed to canonicalize sandbox root: ")) (canonicalize fs sandbox_root);
    if negb (bool_decide (canon_root `prefix_of` canon)) then Err (NotAllowed (lit "cwd must be inside the sandbox root"))
    else Ok canon.

Record SessionConfig := {
  max_sessions : Z;
  idle_timeout_secs : Z;
  allowed_shells : list str;
  sandbox_root : option path
}.
Definition default_config : SessionConfig :=
  {| max_sessions := 10; idle_timeout_secs := 1800; allowed_shells := []; sandbox_root := None |}.

(** A shell that was started: what [CommandBuilder] was given. *)
Record PtyHandle := { shell : str; pty_cwd : option (list str); pty_env : gmap str str }.
Record SessionState := { pty : PtyHandle; created_at : Z; last_activity : Z; cols : Z; rows : Z }.

Record OpenRequest := {
  req_shell : option str;
  req_cols : Z;
  req_rows : Z;
  req_cwd : option str;
  req_env : gmap str str
}.

Definition shell_char (c : char) : bool :=
  is_ascii_alphanumeric c || (c =? c_slash) || (c =? c_backslash) || (c =? c_dot) || (c =? c_colon) || (c =? 95) || (c =? c_minus).

(** What the system says to opening a terminal, starting the shell on it, and taking its two
    streams: errors, if any. *)
Record Tty := { openpty : option str; starts : PtyHandle -> option str; streams : option str }.

Section Sessions.
Context (config : SessionConfig).
(** The default shell of the system, and the environment that a [CommandBuilder] starts with,
    that of the server. *)
Context (default_shell : str) (base_env : gmap str str).

Definition spawn (tty : Tty) (req : option str) (cwd : option (list str)) (env : gmap str str) : result RemoteError PtyHandle :=
  match tty.(openpty) with
  | Some e => Err (Internal (lit "Failed to open PTY: " ++ e))
  | None =>
      let shell_path := default default_shell req in
      if negb (forallb shell_char shell_path) then Err (NotAllowed (lit "Shell path contains invalid characters"))
      else
        let cmd := {| shell := shell_path; pty_cwd := cwd; pty_env := <[lit "TERM" := lit "xterm-256color"]> (env ∪ base_env) |} in
        match tty.(starts) cmd with
        | Some e => Err (Internal (lit "Failed to spawn shell: " ++ e))
        | None => match tty.(streams) with Some e => Err (Internal e) | None => Ok cmd end
        end
  end.

(** The part of [open] between the two locks. *)
Definition open_unlocked (fs : gmap (list str) lnode) (tty : Tty) (r : OpenRequest) : result RemoteError PtyHandle :=
  _ ← (match r.(req_shell) with
       | Some shell =>
           if negb (bool_decide (config.(allowed_shells) = [])) && negb (existsb (fun s => bool_decide (s = shell)) config.(allowed_shells))
           then Err (NotAllowed (lit "Shell '" ++ shell ++ lit "' is not in the allowed list"))
           else Ok tt
       | None => Ok tt
       end);
  let safe_env := filter_env r.(req_env) in
  safe_cwd ← (match r.(req_cwd) with
              | Some c =>
                  root ← ok_or (NotAllowed (lit "cwd is not allowed: no sandbox root configured")) config.(sandbox_root);
                  canon ← check_cwd fs c root;
                  Ok (Some canon)
              | None => Ok None
              end);
  spawn tty r.(req_shell) safe_cwd safe_env.

(** ** The manager *)

(** The sessions, and the requests between the two locks of [open]. *)
Record Manager := { sessions : gmap str SessionState; opening : gmap Z OpenRequest }.

Definition no_sessions : Manager := {| sessions := ∅; opening := ∅ |}.

(** [open], up to where the lock is given back; [t] is the task. *)
Definition open_check (t : Z) (r : OpenRequest) (m : Manager) : result RemoteError Manager :=
  if Z.of_nat (size m.(sessions)) >=? config.(max_sessions) then Err MaxSessions
  else Ok {| sessions := m.(sessions); opening := <[t := r]> m.(opening) |}.

(** The rest of it; the id is one that [new_v4] gave. *)
Definition open_insert (fs : gmap (list str) lnode) (tty : Tty) (t : Z) (session_id : str) (now : Z) (m : Manager) : result RemoteError (str * str) * Manager :=
  match m.(opening) !! t with
  | None => (Err (Internal []), m)
  | Some r =>
      let rest := delete t m.(opening) in
      match open_unlocked fs tty r with
      | Err e => (Err e, {| sessions := m.(sessions); opening := rest |})
      | Ok p =>
          let s := {| pty := p; created_at := now; last_activity := now; cols := r.(req_cols); rows := r.(req_rows) |} in
          (Ok (session_id, p.(shell)), {| sessions := <[session_id := s]> m.(sessions); opening := rest |})
      end
  end.

Definition touch (now : Z) (s : SessionState) : SessionState :=
  {| pty := s.(pty); created_at := s.(created_at); last_activity := now; cols := s.(cols); rows := s.(rows) |}.
Definition set_session (id : str) (s : SessionState) (m : Manager) : Manager :=
  {| sessions := <[id := s]> m.(sessions); opening := m.(opening) |}.

(** [wrote] is what the terminal says of the bytes. *)
Definition input (session_id : str) (now : Z) (wrote : result RemoteError unit) (m : Manager) : result RemoteError unit * Manager :=
  match m.(sessions) !! session_id with
  | None => (Err (SessionNotFound session_id), m)
  | Some s => (wrote, set_session session_id (touch now s) m)
  end.

Definition resize (session_id : str) (c r : Z) (resized : result RemoteError unit) (m : Manager) : result RemoteError unit * Manager :=
  match m.(sessions) !! session_id with
  | None => (Err (SessionNotFound session_id), m)
  | Some s => (resized, set_session session_id {| pty := s.(pty); created_at := s.(created_at); last_activity := s.(last_activity); cols := c; rows := r |} m)
  end.

Definition close (session_id : str) (exit_code : option Z) (m : Manager) : result RemoteError (option Z) * Manager :=
  match m.(sessions) !! session_id with
  | None => (Err (SessionNotFound session_id), m)
  | Some _ => (Ok exit_code, {| sessions := delete session_id m.(sessions); opening := m.(opening) |})
  end.

Definition cleanup_idle (now : Z) (m : Manager) : Manager :=
  {| sessions := filter (fun kv => (now - kv.2.(last_activity) >? config.(idle_timeout_secs)) = false) m.(sessions);
     opening := m.(opening) |}.

(** The requests that were made for the sessions, and the file system they found. *)
Abbreviation openings := (gmap str (OpenRequest * gmap (list str) lnode)) (only parsing).

(** The parts of requests, in any order; a new session has a new id, a new task a new number. *)
Inductive step : Manager * openings -> Manager * openings -> Prop :=
  | step_check t r m m' os : m.(opening) !! t = None -> open_check t r m = Ok m' -> step (m, os) (m', os)
  | step_insert fs tty t id now r m os :
      m.(opening) !! t = Some r -> m.(sessions) !! id = None -> step (m, os) ((open_insert fs tty t id now m).2, <[id := (r, fs)]> os)
  | step_input id now wrote m os : step (m, os) ((input id now wrote m).2, os)
  | step_resize id c r resized m os : step (m, os) ((resize id c r resized m).2, os)
  | step_close id code m os : step (m, os) ((close id code m).2, os)
  | step_cleanup now m os : step (m, os) (cleanup_idle now m, os).

(** Runs in which at most [n] requests to open are under way at a time. *)
Inductive run (n : Z) : Manager * openings -> Prop :=
  | run_start : run n (no_sessions, ∅)
  | run_step m m' : run n m -> step m m' -> Z.of_nat (size m'.1.(opening)) <= n -> run n m'.

(** ** What is checked of a shell *)

(** Loader hijacks, module paths, and the ways to run a command through [NODE_OPTIONS] and
    [PATH]. *)
Definition hijacks : list str :=
  map lit ["LD_PRELOAD"; "LD_LIBRARY_PATH"; "LD_AUDIT"; "DYLD_INSERT_LIBRARIES"; "DYLD_LIBRARY_PATH"; "DYLD_FORCE_FLAT_NAMESPACE";
           "DYLD_IMAGE_SUFFIX"; "PYTHONPATH"; "PERL5LIB"; "RUBYLIB"; "NODE_OPTIONS"; "PATH"]%string.

Definition of_a_path (c : char) : Prop := 65 <= c <= 90 \/ 97 <= c <= 122 \/ 48 <= c <= 57 \/ c ∈ [47; 92; 46; 58; 95; 45].

(** A variable as the shell finds it: what the request says of it, unless it is one of
    [hijacks], or what the server has. *)
Definition variable (r : OpenRequest) (k : str) : option str :=
  if decide (k = lit "TERM") then Some (lit "xterm-256color")
  else if decide (k ∈ hijacks) then base_env !! k
  else match r.(req_env) !! k with Some v => Some v | None => base_env !! k end.

(** What [open] promises of a shell it starts for a request. *)
Definition checked (r : OpenRequest) (fs : gmap (list str) lnode) (p : PtyHandle) : Prop :=
  (forall k, p.(pty_env) !! k = variable r k)
  /\ Forall of_a_path p.(shell)
  /\ (forall s, r.(req_shell) = Some s -> p.(shell) = s /\ (config.(allowed_shells) = [] \/ s ∈ config.(allowed_shells)))
  /\ (forall c, r.(req_cwd) = Some c -> exists root inside cwd, config.(sandbox_root) = Some root /\ canonicalize fs root = Some inside
        /\ canonicalize fs (if is_absolute (components c) then components c else join_path root (components c)) = Some cwd
        /\ p.(pty_cwd) = Some cwd /\ inside `prefix_of` cwd).

Lemma shell_char_spec c : shell_char c = true -> of_a_path c.
Proof using Type.
  unfold shell_char, of_a_path, is_ascii_alphanumeric, is_ascii_lower, is_ascii_upper, is_ascii_digit. rewrite !orb_true_iff, !Z.eqb_eq, !elem_of_cons.
  unfold c_slash, c_backslash, c_dot, c_colon, c_minus. lia.
Qed.

Lemma filter_env_denied env k : k ∈ DENYLIST_ENV_KEYS -> filter_env env !! k = None.
Proof.
  intros Hk. unfold filter_env. rewrite map_lookup_filter. destruct (env !! k); [|done]. cbn [mbind option_bind fst]. rewrite option_guard_False; [done|].
  intros H. rewrite existsb_elem_false in H. specialize (H k Hk). by rewrite bool_decide_true in H.
Qed.

(** Names that are not on the list are passed on. *)
Lemma filter_env_kept env k : k ∉ DENYLIST_ENV_KEYS -> filter_env env !! k = env !! k.
Proof.
  intros Hk. unfold filter_env. rewrite map_lookup_filter. destruct (env !! k); [|done]. cbn [mbind option_bind fst]. rewrite option_guard_True; [done|].
  apply existsb_elem_false. intros d Hd. rewrite bool_decide_false; [done|]. by intros ->.
Qed.

Lemma check_cwd_ok fs c root canon : check_cwd fs c root = Ok canon -> exists r, canonicalize fs root = Some r
  /\ canonicalize fs (if is_absolute (components c) then components c else join_path root (components c)) = Some canon /\ r `prefix_of` canon.
Proof using Type.
  unfold check_cwd. destruct (contains_char 0 c); [done|]. intros H. apply bind_ok_inv in H as (x & Hx & H). apply bind_ok_inv in H as (r & Hr & H).
  apply ok_or_ok in Hx, Hr. destruct (bool_decide_reflect (r `prefix_of` x)); [|done]. injection H as <-. by exists r.
Qed.

Lemma spawned_env r k : (<[lit "TERM" := lit "xterm-256color"]> (filter_env r.(req_env) ∪ base_env) : gmap str str) !! k = variable r k.
Proof using Type.
  unfold variable. destruct (decide (k = lit "TERM")) as [->|Hk]; [apply lookup_insert_eq|]. rewrite lookup_insert_ne by done. rewrite lookup_union.
  case_decide as Hh; [rewrite filter_env_denied by exact Hh; by destruct (base_env !! k)|]. rewrite filter_env_kept by exact Hh.
  by destruct (req_env r !! k), (base_env !! k).
Qed.

Lemma open_unlocked_checked fs tty r p : open_unlocked fs tty r = Ok p -> checked r fs p.
Proof using Type.
  unfold open_unlocked. intros H. apply bind_ok_inv in H as ([] & Hs & H). apply bind_ok_inv in H as (cwd & Hc & H).
  unfold spawn in H. destruct (openpty tty); [done|]. destruct (forallb shell_char _) eqn:Ech; [|done]. cbn [negb] in H. destruct (starts _ _); [done|].
  destruct (streams tty); [done|]. injection H as <-. unfold checked. cbn [pty_env shell pty_cwd]. split_and!.
  - intros k. apply spawned_env.
  - apply Forall_forall. intros c Hin. rewrite forallb_forall in Ech. apply shell_char_spec, Ech. by apply list_elem_of_In.
  - intros s Er. rewrite Er in *. split; [done|]. destruct (bool_decide_reflect (allowed_shells config = [])); [by left|].
    cbn [negb andb] in Hs. destruct (existsb _ _) eqn:Ee; [|done]. right. apply existsb_elem in Ee as (x & Hx & Ex). apply bool_decide_eq_true in Ex as ->. done.
  - intros c Er. rewrite Er in Hc. apply bind_ok_inv in Hc as (root & Hr & Hc). apply ok_or_ok in Hr.
    apply bind_ok_inv in Hc as (canon & Hcw & Hc). injection Hc as <-. apply check_cwd_ok in Hcw as (x & ? & ? & ?). by exists root, x, canon.
Qed.

Lemma run_checked n mo : run n mo ->
  forall id s, mo.1.(sessions) !! id = Some s -> exists r fs, mo.2 !! id = Some (r, fs) /\ checked r fs s.(pty).
Proof using Type.
  intros Hr. induction Hr as [|m0 m' Hr IH Hs Hn]; [by intros id s H; cbn in H; rewrite lookup_empty in H|].
  assert (Hset : forall id s x m (os : openings), (forall id s, sessions m !! id = Some s -> exists r fs, os !! id = Some (r, fs) /\ checked r fs (pty s)) -> sessions m !! id = Some s -> pty x = pty s ->
    forall i y, sessions (set_session id x m) !! i = Some y -> exists r fs, os !! i = Some (r, fs) /\ checked r fs (pty y)).
  { intros id s x m1 os Hall Hid Hx i y. cbn. rewrite lookup_insert_Some. intros [[<- <-]|[_ Hy]]; [rewrite Hx|]; by eapply Hall. }
  destruct Hs as [t r m m' os Ht Hc|fs tty t id now r m os Ht Hid|id now wrote m os|id c r resized m os|id code m os|now m os]; cbn [fst snd] in *; intros i s Hi.
  - unfold open_check in Hc. destruct (_ >=? _); [done|]. injection Hc as <-. by apply (IH i).
  - assert (Hold : sessions m !! i = Some s -> exists r0 fs0, <[id := (r, fs)]> os !! i = Some (r0, fs0) /\ checked r0 fs0 (pty s)).
    { intros Hs. rewrite lookup_insert_ne by congruence. by apply (IH i). }
    unfold open_insert in Hi. rewrite Ht in Hi. destruct (open_unlocked fs tty r) as [p|] eqn:Ep; cbn [snd sessions] in Hi; [|by apply Hold].
    apply lookup_insert_Some in Hi as [[<- <-]|[_ Hi]]; [|by apply Hold]. exists r, fs. rewrite lookup_insert_eq. split; [done|]. by eapply open_unlocked_checked.
  - unfold input in Hi. destruct (sessions m !! id) as [x|] eqn:Ex; [|by apply (IH i)]. by eapply Hset in Hi.
  - unfold resize in Hi. destruct (sessions m !! id) as [x|] eqn:Ex; [|by apply (IH i)]. by eapply Hset in Hi.
  - unfold close in Hi. destruct (sessions m !! id) as [x|] eqn:Ex; [|by apply (IH i)]. cbn [snd sessions] in Hi. apply lookup_delete_Some in Hi as [_ Hi]. by apply (IH i).
  - cbn in Hi. apply map_lookup_filter_Some in Hi as [Hi _]. by apply (IH i).
Qed.

(** C38: On Unix, whatever the order in which requests run, the shell of every session was
    started for a request as follows.  Of the environment of the request it gets everything but
    the variables that load code or change the search path, [LD_PRELOAD] to [PATH], and [TERM];
    the rest is as the server has it.  Its path is of ASCII letters, digits and "/\.:_-".  If the
    request names a shell, it is this one, and the list of allowed shells is empty or has it.
    If the request names a directory, it is started there, and the directory is inside the
    sandbox, all links resolved.  (Nothing is said of the default shell and the default
    directory.) *)
Theorem sessions_checked n m os : run n (m, os) ->
  forall id s, m.(sessions) !! id = Some s -> exists r fs, os !! id = Some (r, fs) /\ checked r fs s.(pty).
Proof using Type. apply (run_checked n (m, os)). Qed.

(** ** How many sessions there are *)

Lemma size_set id s x m : sessions m !! id = Some s -> size (sessions (set_session id x m)) = size (sessions m).
Proof. intros H. cbn. rewrite map_size_insert, H. done. Qed.

Lemma size_filter (P : str * SessionState -> Prop) `{forall x, Decision (P x)} (g : gmap str SessionState) : (size (filter P g) <= size g)%nat.
Proof. apply map_subseteq_size, map_filter_subseteq. Qed.

Lemma run_bounded n mo : 1 <= n -> 0 <= config.(max_sessions) -> run n mo ->
  Z.of_nat (size mo.1.(sessions)) + Z.of_nat (size mo.1.(opening)) <= config.(max_sessions) + n - 1.
Proof.
  intros Hn Hmax Hr.  induction Hr as [|m0 m' Hr IH Hs Hle]; [cbn; rewrite !map_size_empty; lia|].
  destruct Hs as [t r m m' os Ht Hc|fs tty t id now r m os Ht Hid|id now wrote m os|id c r resized m os|id code m os|now m os]; cbn [fst] in *.
  - unfold open_check in Hc. destruct (Z.geb_spec (Z.of_nat (size (sessions m))) (max_sessions config)); [done|]. injection Hc as <-. cbn in *. lia.
  - unfold open_insert in *. rewrite Ht in *.
    assert (Hd : size (opening m) = S (size (delete t (opening m)))) by (rewrite map_size_delete_Some by done; pose proof (map_size_ne_0_lookup_2 (opening m) t ltac:(eauto)); lia).
    destruct (open_unlocked fs tty r); cbn [snd sessions opening] in *; [rewrite (map_size_insert_None _ _ _ Hid)|]; lia.
  - unfold input in *. destruct (sessions m !! id) as [x|] eqn:Ex; [|done]. cbn [snd] in *. rewrite (size_set _ x) by done. done.
  - unfold resize in *. destruct (sessions m !! id) as [x|] eqn:Ex; [|done]. cbn [snd] in *. rewrite (size_set _ x) by done. done.
  - unfold close in *. destruct (sessions m !! id) as [x|] eqn:Ex; [|done]. cbn [snd sessions opening] in *.
    rewrite map_size_delete_Some by done. lia.
  - cbn [cleanup_idle sessions opening] in *.
    pose proof (size_filter (fun kv => (now - kv.2.(last_activity) >? config.(idle_timeout_secs)) = false) (sessions m)). lia.
Qed.

(** with at most [n] requests to open under way at any time, the sessions and these requests together are
    never more than [max_sessions + n - 1]: no more sessions than configured when requests
    come one at a time, and up to [n - 1] more when they come together. *)
Theorem sessions_bounded n m os : 1 <= n -> 0 <= config.(max_sessions) -> run n (m, os) ->
  Z.of_nat (size m.(sessions)) + Z.of_nat (size m.(opening)) <= config.(max_sessions) + n - 1.
Proof. apply (run_bounded n (m, os)). Qed.

End Sessions.

(** ** Examples *)

Definition only_rbash : SessionConfig :=
  {| max_sessions := 1; idle_timeout_secs := 1800; allowed_shells := [lit "/usr/bin/rbash"]; sandbox_root := None |}.
Definition ask : OpenRequest :=
  {| req_shell := None; req_cols := 80; req_rows := 24; req_cwd := None; req_env := <[lit "PATH" := lit "/evil"]> (<[lit "LANG" := lit "C"]> ∅) |}.
Definition bash : str := lit "/bin/bash".
Definition can_start : Tty := {| openpty := None; starts := fun _ => None; streams := None |}.
(** The environment of the server. *)
Definition server_env : gmap str str := <[lit "PATH" := lit "/usr/bin"]> ∅.

Definition waiting (ts : list Z) : Manager := {| sessions := ∅; opening := list_to_map (map (fun t => (t, ask)) ts) |}.
Definition opened (t : Z) (id : str) (m : Manager) : Manager := (open_insert only_rbash bash server_env ∅ can_start t id 0 m).2.
Definition one_open : Manager := opened 1 (lit "a") (waiting [1]).

Lemma run_one : run only_rbash bash server_env 1 (one_open, <[lit "a" := (ask, ∅)]> ∅).
Proof.
  eapply run_step; [eapply run_step; [apply run_start|by apply (step_check _ _ _ 1 ask no_sessions (waiting [1]))|]|apply step_insert|]; try reflexivity; vm_compute; congruence.
Qed.

Lemma run_two : run only_rbash bash server_env 2 (opened 2 (lit "b") (opened 1 (lit "a") (waiting [2; 1])), <[lit "b" := (ask, ∅)]> (<[lit "a" := (ask, ∅)]> ∅)).
Proof.
  eapply run_step; [eapply run_step; [eapply run_step; [eapply run_step; [apply run_start|by apply (step_check _ _ _ 1 ask no_sessions (waiting [1]))|]
    |by apply (step_check _ _ _ 2 ask (waiting [1]) (waiting [2; 1]))|]|apply step_insert|]|apply step_insert|]; try reflexivity; vm_compute; congruence.
Qed.

Definition started : PtyHandle :=
  {| shell := bash; pty_cwd := None; pty_env := <[lit "TERM" := lit "xterm-256color"]> (<[lit "LANG" := lit "C"]> server_env) |}.

Lemma sessions_checked_witness :
  sessions one_open !! lit "a" = Some {| pty := started; created_at := 0; last_activity := 0; cols := 80; rows := 24 |}
  /\ exists r fs, (<[lit "a" := (ask, ∅)]> ∅ : gmap str (OpenRequest * gmap (list str) lnode)) !! lit "a" = Some (r, fs) /\ checked only_rbash server_env r fs started.
Proof.
  assert (H : sessions one_open !! lit "a" = Some {| pty := started; created_at := 0; last_activity := 0; cols := 80; rows := 24 |})
    by (vm_compute; reflexivity).
  split; [exact H|]. exact (sessions_checked only_rbash bash server_env 1 _ _ run_one _ _ H).
Defined.

Lemma sessions_bounded_witness :
  Z.of_nat (size (sessions one_open)) + Z.of_nat (size (opening one_open)) <= only_rbash.(max_sessions) + 1 - 1.
Proof. apply (sessions_bounded only_rbash bash server_env 1 one_open (<[lit "a" := (ask, ∅)]> ∅)); [lia|cbn; lia|exact run_one]. Defined.

(** Two requests that are counted before either has inserted its session exceed the limit of one. *)
Theorem limit_exceeded : exists m os, run only_rbash bash server_env 2 (m, os) /\ Z.of_nat (size m.(sessions)) = only_rbash.(max_sessions) + 1.
Proof. eexists _, _. split; [exact run_two|]. vm_compute. reflexivity. Qed.

(** A request that names no shell gets the default one, also where the list of allowed shells does not have it. *)
Theorem default_shell_not_checked :
  open_unlocked only_rbash bash server_env ∅ can_start ask
  = Ok started
  /\ bash ∉ only_rbash.(allowed_shells).
Proof.
  split; [vm_compute; reflexivity|]. intros H. apply list_elem_of_In in H. vm_compute in H. intuition discriminate.
Qed.
