(* ===== verification/Patch.v ===== *)
(** * Patch rollouts

    [runesh-patch/src/lib.rs]: the rings a patch is rolled out by, the windows it may be installed
    in, and the identifiers of vulnerabilities.  The time zones of [chrono-tz] and the
    decimal digits of Unicode, which [\d] of the [regex] crate stands for, are parameters.
    The theorems state when a rollout moves on, that it goes through the rings in order,
    and which instants a window holds. *)
From S2P Require Import Prelude Str F64.
From Stdlib Require Import Floats.SpecFloat.

#[local] Open Scope Z_scope.

Inductive PatchSeverity : Type := Critical | High | Medium | Low | NoSeverity.
Inductive PatchStatus : Type := Available | Approved | Scheduled | Installing | Installed | Failed | Skipped.

Record Patch := {
  id : str;
  patch_name : str;
  version : str;
  severity : PatchSeverity;
  cve_ids : list str;
  affected_packages : list str;
  release_date : Z;
  status : PatchStatus
}.

Inductive PatchError : Type :=
  | NotFound (s : str)
  | Aborted (s : str)
  | NotInWindow
  | InvalidCveId (s : str)
  | InvalidTimezone (s : str).

(** Durations are in nanoseconds, percentages floats. *)
Inductive RolloutError : Type :=
  | SoakNotElapsed (required elapsed : Z)
  | ThresholdExceeded (threshold observed : spec_float).

Record RolloutRing := { ring_name : str; order : Z; soak_hours : Z; target : str; abort_threshold_percent : spec_float }.
Record RolloutMetrics := { failure_rate_percent : spec_float; elapsed_since_start : Z }.

Inductive Weekday : Type := Mon | Tue | Wed | Thu | Fri | Sat | Sun.
#[global] Instance Weekday_eq_dec : EqDecision Weekday.
Proof. solve_decision. Defined.

Record MaintenanceWindow := { window_name : str; days : list Weekday; start_time : Z; end_time : Z; timezone : str }.
Record RolloutPlan := { patches : list Patch; rings : list RolloutRing; window : MaintenanceWindow; current_ring : nat }.

(** ** Identifiers *)

Section Cve.
(** The decimal digits of Unicode. *)
Context (decimal_digit : char -> bool).

(** [^CVE-\d{4}-\d{4,7}$]. *)
Definition is_cve (cve : str) : bool :=
  match strip_prefix (lit "CVE-") cve with
  | None => false
  | Some r =>
      forallb decimal_digit (take 4 r) && (length (take 4 r) =? 4)%nat
      && match strip_prefix (lit "-") (drop 4 r) with
         | None => false
         | Some n => forallb decimal_digit n && ((4 <=? length n)%nat && (length n <=? 7)%nat)
         end
  end.

Definition validate_cve_id (cve : str) : result PatchError unit := if is_cve cve then Ok tt else Err (InvalidCveId cve).

Definition new_patch (id name version : str) (severity : PatchSeverity) (cve_ids affected_packages : list str) (release_date : Z)
    (status : PatchStatus) : result PatchError Patch :=
  _ ← try_for (fun cve _ => validate_cve_id cve) cve_ids tt;
  Ok {| id := id; patch_name := name; version := version; severity := severity; cve_ids := cve_ids;
        affected_packages := affected_packages; release_date := release_date; status := status |}.
End Cve.

(** ** Windows *)

Section Window.
(** [Tz::from_str], and the day of the week and the time of day of an instant in a zone. *)
Context {Tz : Type} (from_str : str -> option Tz) (local : Tz -> Z -> Weekday * Z).

Definition new_window (name : str) (days : list Weekday) (start_time end_time : Z) (tz : str) : result PatchError MaintenanceWindow :=
  _ ← ok_or (InvalidTimezone tz) (from_str tz);
  Ok {| window_name := name; days := days; start_time := start_time; end_time := end_time; timezone := tz |}.

Definition is_active_at (w : MaintenanceWindow) (instant : Z) : bool :=
  match from_str w.(timezone) with
  | None => false
  | Some tz =>
      let '(weekday, time) := local tz instant in
      bool_decide (weekday ∈ w.(days)) && (w.(start_time) <=? time) && (time <? w.(end_time))
  end.
End Window.

(** ** Rings *)

(** [f32 as f64]. *)
Definition f32_as_f64 (a : spec_float) : spec_float :=
  match a with
  | S754_finite s m e => binary_normalize prec emax (if s then Zneg m else Zpos m) e s
  | _ => a
  end.

Definition soak (r : RolloutRing) : Z := r.(soak_hours) * 3600 * 1000000000.

Definition at_ring (k : nat) (p : RolloutPlan) : RolloutPlan :=
  {| patches := p.(patches); rings := p.(rings); window := p.(window); current_ring := k |}.

Definition advance_ring (metrics : RolloutMetrics) (p : RolloutPlan) : result RolloutError bool * RolloutPlan :=
  match p.(rings) !! p.(current_ring) with
  | None => (Ok false, p)
  | Some current =>
      if metrics.(elapsed_since_start) <? soak current then (Err (SoakNotElapsed (soak current) metrics.(elapsed_since_start)), p)
      else if SFltb current.(abort_threshold_percent) (f32_as_f64 metrics.(failure_rate_percent)) then
        (Err (ThresholdExceeded current.(abort_threshold_percent) metrics.(failure_rate_percent)), p)
      else if (S p.(current_ring) <? length p.(rings))%nat then (Ok true, at_ring (S p.(current_ring)) p)
      else (Ok false, p)
  end.

Definition current_ring_name (p : RolloutPlan) : str :=
  match p.(rings) !! p.(current_ring) with
  | Some r => r.(ring_name)
  | None => lit "unknown"
  end.

(** Counts are sums of [usize], which wraps. *)
Definition affected_device_count (count_in_target : str -> Z) (p : RolloutPlan) : Z :=
  foldl (fun acc r => wrap 64 (acc + count_in_target r.(target))) 0 p.(rings).
Definition affected_device_count_from_counts (per_ring : list Z) (p : RolloutPlan) : Z :=
  foldl (fun acc i => wrap 64 (acc + default 0 (per_ring !! i))) 0 (seq 0 (length p.(rings))).

(** ** When a rollout moves on *)

(** The gate of a ring. *)
Definition passes (metrics : RolloutMetrics) (ring : RolloutRing) : Prop :=
  soak ring <= metrics.(elapsed_since_start)
  /\ SFltb ring.(abort_threshold_percent) (f32_as_f64 metrics.(failure_rate_percent)) = false.

(** [advance_ring] moves to the next ring exactly when the current one has soaked, its failures
    are not above the threshold, and there is a next one; nothing but the position changes. *)
Lemma advance_ring_cases metrics p :
  ((advance_ring metrics p).1 = Ok true /\ (advance_ring metrics p).2 = at_ring (S p.(current_ring)) p
   /\ (exists ring, p.(rings) !! p.(current_ring) = Some ring /\ passes metrics ring) /\ (S p.(current_ring) < length p.(rings))%nat)
  \/ ((advance_ring metrics p).1 <> Ok true /\ (advance_ring metrics p).2 = p
      /\ ~ ((exists ring, p.(rings) !! p.(current_ring) = Some ring /\ passes metrics ring) /\ (S p.(current_ring) < length p.(rings))%nat)).
Proof.
  unfold advance_ring, passes. destruct (rings p !! current_ring p) as [ring|] eqn:Er; [|right; naive_solver].
  destruct (Z.ltb_spec (elapsed_since_start metrics) (soak ring)); [right; split_and!; [done|done|]; intros [(x & [= <-] & ? & _) _]; lia|].
  destruct (SFltb _ _) eqn:Es; [right; split_and!; [done|done|]; intros [(x & [= <-] & _ & ?) _]; congruence|].
  destruct (Nat.ltb_spec (S (current_ring p)) (length (rings p))); [left; split_and!; try done; by exists ring|].
  right. split_and!; [done|done|]. intros [_ ?]. lia.
Qed.

Definition rollout (ms : list RolloutMetrics) (p : RolloutPlan) : RolloutPlan := foldl (fun p m => (advance_ring m p).2) p ms.

(** a rollout goes through the rings in order and never back: whatever is reported, of every ring that it has
    left, some report said that the ring had soaked for its time and that its failures were
    not above its threshold; and it stays at the last ring. *)
Theorem rollout_gated ms p :
  let p' := rollout ms p in
  (p.(current_ring) <= p'.(current_ring))%nat
  /\ p'.(rings) = p.(rings) /\ p'.(patches) = p.(patches)
  /\ ((p.(current_ring) < length p.(rings))%nat -> (p'.(current_ring) < length p.(rings))%nat)
  /\ forall k, (p.(current_ring) <= k < p'.(current_ring))%nat -> exists m ring, m ∈ ms /\ p.(rings) !! k = Some ring /\ passes m ring.
Proof.
  cbn zeta. revert p. induction ms as [|m ms IH]; intros p; cbn [rollout foldl]; [split_and!; try done; intros; lia|].
  specialize (IH (advance_ring m p).2) as (H1 & H2 & H3 & H4 & H5). fold (rollout ms (advance_ring m p).2) in *.
  destruct (advance_ring_cases m p) as [(_ & Hp & (ring & Hr & Hpass) & Hl)|(_ & Hp & _)]; rewrite Hp in *; cbn [at_ring current_ring rings patches] in *.
  - split_and!; [lia|done|done|by intros _; apply H4|]. intros k Hk. destruct (decide (k = current_ring p)) as [->|].
    + exists m, ring. split_and!; [by left|done|done].
    + destruct (H5 k) as (m' & r' & ? & ? & ?); [lia|]. exists m', r'. split_and!; [by right|done|done].
  - split_and!; try done. intros k Hk. destruct (H5 k Hk) as (m' & r' & ? & ? & ?). exists m', r'. split_and!; [by right|done|done].
Qed.

(** ** Windows and identifiers *)

(** The times of a window are those from its start up to its end, on its days, in its zone. *)
Theorem is_active_at_spec {Tz} (from_str : str -> option Tz) local w instant :
  is_active_at from_str local w instant = true
  <-> exists tz, from_str w.(timezone) = Some tz /\ (local tz instant).1 ∈ w.(days) /\ w.(start_time) <= (local tz instant).2 < w.(end_time).
Proof.
  unfold is_active_at. destruct (from_str (timezone w)) as [tz|]; [|naive_solver]. destruct (local tz instant) as [d t] eqn:E.
  rewrite !andb_true_iff, bool_decide_eq_true, Z.leb_le, Z.ltb_lt. split.
  - intros [[Hd Hs] He]. exists tz. rewrite E. done.
  - intros (tz' & [= <-] & H). rewrite E in H. cbn in H. lia || naive_solver.
Qed.

(** A window that spans midnight is accepted, and never active. *)
Theorem overnight_never_active {Tz} (from_str : str -> option Tz) local name days from to tz instant :
  is_Some (from_str tz) -> to <= from ->
  exists w, new_window from_str name days from to tz = Ok w /\ is_active_at from_str local w instant = false.
Proof.
  intros [z Hz] Hle. unfold new_window. rewrite Hz. eexists. split; [done|]. unfold is_active_at. cbn [timezone start_time end_time Patch.days]. rewrite Hz.
  destruct (local z instant) as [d t]. lia.
Qed.

(** What an accepted identifier is. *)
Theorem validate_cve_id_spec decimal_digit cve :
  validate_cve_id decimal_digit cve = Ok tt
  <-> exists year n, cve = lit "CVE-" ++ year ++ lit "-" ++ n /\ length year = 4%nat /\ (4 <= length n <= 7)%nat
      /\ Forall (fun c => decimal_digit c = true) year /\ Forall (fun c => decimal_digit c = true) n.
Proof.
  unfold validate_cve_id. assert (Hiff : is_cve decimal_digit cve = true <-> exists year n, cve = lit "CVE-" ++ year ++ lit "-" ++ n
    /\ length year = 4%nat /\ (4 <= length n <= 7)%nat /\ Forall (fun c => decimal_digit c = true) year /\ Forall (fun c => decimal_digit c = true) n).
  2: { destruct (is_cve decimal_digit cve); naive_solver. }
  assert (Hall : forall l, forallb decimal_digit l = true <-> Forall (fun c => decimal_digit c = true) l).
  { intros l. rewrite forallb_forall, Forall_forall. by setoid_rewrite list_elem_of_In. }
  unfold is_cve. split.
  - destruct (strip_prefix (lit "CVE-") cve) as [r|] eqn:Er; [|done]. apply strip_prefix_spec in Er as ->. rewrite !andb_true_iff. intros [[Hy Hl] Hn].
    destruct (strip_prefix (lit "-") (drop 4 r)) as [n|] eqn:En; [|done]. apply strip_prefix_spec in En.
    rewrite !andb_true_iff, !Nat.leb_le in Hn. destruct Hn as [Hd Hn]. apply Nat.eqb_eq in Hl.
    exists (take 4 r), n. split_and!; [|done|lia|lia|by apply Hall|by apply Hall]. by rewrite <- En, take_drop.
  - intros (year & n & -> & Hy & Hn & H1 & H2). rewrite strip_prefix_app, take_app_length', drop_app_length' by done.
    rewrite strip_prefix_app, Hy, !andb_true_iff, !Hall, !Nat.leb_le. split_and!; try done; lia.
Qed.

(** ** Examples *)

Definition nan : spec_float := S754_nan.
Definition ring (hours : Z) : RolloutRing :=
  {| ring_name := lit "test"; order := 0; soak_hours := hours; target := lit "t"; abort_threshold_percent := of_int 5 |}.
Definition always : MaintenanceWindow := {| window_name := lit "w"; days := []; start_time := 0; end_time := 0; timezone := lit "UTC" |}.
Definition plan : RolloutPlan := {| patches := []; rings := [ring 24; ring 48]; window := always; current_ring := 0 |}.
Definition report (rate : spec_float) (hours : Z) : RolloutMetrics := {| failure_rate_percent := rate; elapsed_since_start := hours * 3600 * 1000000000 |}.

(** A ring moves on after its time, not before, and not with more failures than allowed. *)
Example advance_example :
  (advance_ring (report (of_int 5) 24) plan).1 = Ok true
  /\ (advance_ring (report (of_int 5) 23) plan).1 = Err (SoakNotElapsed (24 * 3600000000000) (23 * 3600000000000))
  /\ (advance_ring (report (of_int 6) 24) plan).1 = Err (ThresholdExceeded (of_int 5) (of_int 6)).
Proof. vm_compute. split_and!; reflexivity. Qed.

(** A failure rate that is not a number, as of no devices out of none, is above no threshold. *)
Theorem nan_rate_advances : (advance_ring (report nan 24) plan).1 = Ok true.
Proof. vm_compute. reflexivity. Qed.

(** With the digits of Unicode an identifier may have others than those of ASCII. *)
Definition arabic_too (c : char) : bool := is_ascii_digit c || ((0x660 <=? c) && (c <=? 0x669)).
Theorem foreign_digits_accepted : validate_cve_id arabic_too (lit "CVE-" ++ [0x662; 0x660; 0x662; 0x664] ++ lit "-0001") = Ok tt.
Proof. vm_compute. reflexivity. Qed.
