(* ===== verification/Auth.v ===== *)
(** * Authentication

    [runesh-auth]: access and refresh tokens ([token.rs]), session cookies and the token
    against cross-site requests ([session.rs]), and the middleware that every request goes through
    ([axum_middleware.rs]).  Tokens are made and read by the [jsonwebtoken] crate, which
    [Jwt] stands for, with what is relied on of it in [JwtLaws]; hashes are parameters.
    The theorems state that a token that was issued is accepted, that no request reaches a
    route of the API without one, and that what a login sets as cookies opens it. *)
From S2P Require Import Prelude Str Path Utf8.

#[local] Open Scope Z_scope.

Inductive AuthError : Type :=
  | Unauthorized
  | Forbidden (s : str)
  | BadRequest (s : str)
  | OidcNotConfigured
  | Discovery (s : str)
  | TokenExchange (s : str)
  | Internal (s : str)
  | Http (s : str)
  | JwtError (s : str)
  | TokenInvalid (s : str).

(** ** Tokens *)

Record TokenConfig := {
  secret : str;
  access_token_ttl : Z;
  refresh_token_ttl : Z;
  required_iss : option str;
  required_aud : list str
}.

Definition new_token_config (s : str) : result AuthError TokenConfig :=
  if byte_len s <? 32 then Err (BadRequest (lit "JWT secret too short (expected >= 32 bytes for HMAC-SHA256)"))
  else Ok {| secret := s; access_token_ttl := 900; refresh_token_ttl := 2592000; required_iss := None; required_aud := [] |}.
Definition with_issuer (iss : str) (c : TokenConfig) : TokenConfig :=
  {| secret := c.(secret); access_token_ttl := c.(access_token_ttl); refresh_token_ttl := c.(refresh_token_ttl);
     required_iss := Some iss; required_aud := c.(required_aud) |}.
Definition with_audience (aud : list str) (c : TokenConfig) : TokenConfig :=
  {| secret := c.(secret); access_token_ttl := c.(access_token_ttl); refresh_token_ttl := c.(refresh_token_ttl);
     required_iss := c.(required_iss); required_aud := aud |}.

Record Claims := {
  sub : str;
  email : str;
  name : str;
  role : str;
  permissions : list str;
  exp : Z;
  iat : Z;
  iss : option str;
  aud : option (list str)
}.

(** What [jsonwebtoken] is told to check. *)
Record Validation := {
  valid_iss : option (list str);
  valid_aud : option (list str);
  validate_aud : bool;
  required_spec_claims : list str
}.

Inductive Algorithm : Type := HS256 | HS384 | HS512 | RS256 | RS384 | RS512 | ES256 | ES384 | PS256 | PS384 | PS512 | EdDSA.

Class Jwt := {
  jwt_encode : Claims -> str -> result str str;
  jwt_decode : Z -> str -> str -> Validation -> result str Claims;
  decode_header : str -> option Algorithm
}.

(** The characters of a token: base64 for URLs, and dots. *)
Definition token_char (c : char) : bool := is_ascii_alphanumeric c || (c =? c_minus) || (c =? 95) || (c =? c_dot).

(** What the crate accepts, at a time: the expiry with a minute's leeway, an issuer and an audience among those
    given; a claim that is missing only where it is not required. *)
Definition accepts (v : Validation) (now : Z) (c : Claims) : Prop :=
  now - 60 <= c.(exp)
  /\ match v.(valid_iss) with
     | Some l => match c.(iss) with Some i => i ∈ l | None => lit "iss" ∉ v.(required_spec_claims) end
     | None => True
     end
  /\ (v.(validate_aud) = true ->
      match c.(aud), v.(valid_aud) with
      | Some a, Some l => exists x, x ∈ a /\ x ∈ l
      | Some _, None => False
      | None, _ => lit "aud" ∉ v.(required_spec_claims)
      end).

Class JwtLaws `{Jwt} : Prop := {
  decode_accepts now t s v c : jwt_decode now t s v = Ok c -> accepts v now c;
  decode_issued now t s v c : jwt_encode c s = Ok t -> accepts v now c -> jwt_decode now t s v = Ok c;
  encode_hs256 t s c : jwt_encode c s = Ok t -> decode_header t = Some HS256;
  encode_chars t s c : jwt_encode c s = Ok t -> t <> [] /\ Forall (fun x => token_char x = true) t
}.

(** [i64] addition. *)
Definition add_i64 (a b : Z) : Z := wrap 64 (a + b + 2 ^ 63) - 2 ^ 63.

Section Tokens.
Context `{Jwt}.

Definition issue_access_token (config : TokenConfig) (now : Z) (user_id email name role : str) (permissions : list str)
  : result AuthError (str * Z) :=
  if bool_decide (config.(required_iss) = Some []) then Err (Internal (lit "TokenConfig.required_iss set but empty"))
  else if existsb (fun a => bool_decide (a = [])) config.(required_aud) then Err (Internal (lit "TokenConfig.required_aud contains empty string"))
  else
    let claims := {| sub := user_id; email := email; name := name; role := role; permissions := permissions;
                     exp := add_i64 now config.(access_token_ttl); iat := now; iss := config.(required_iss);
                     aud := if bool_decide (config.(required_aud) = []) then None else Some config.(required_aud) |} in
    match jwt_encode claims config.(secret) with
    | Err e => Err (JwtError e)
    | Ok token => Ok (token, config.(access_token_ttl))
    end.

Definition validation_of (config : option TokenConfig) : Validation :=
  match config with
  | Some cfg =>
      let with_iss := match cfg.(required_iss) with Some _ => [lit "iss"] | None => [] end in
      if bool_decide (cfg.(required_aud) = []) then
        {| valid_iss := (fun i => [i]) <$> cfg.(required_iss); valid_aud := None; validate_aud := false;
           required_spec_claims := [lit "sub"; lit "exp"] ++ with_iss |}
      else
        {| valid_iss := (fun i => [i]) <$> cfg.(required_iss); valid_aud := Some cfg.(required_aud); validate_aud := true;
           required_spec_claims := [lit "sub"; lit "exp"] ++ with_iss ++ [lit "aud"] |}
  | None => {| valid_iss := None; valid_aud := None; validate_aud := false; required_spec_claims := [lit "sub"; lit "exp"] |}
  end.

Definition validate_access_token_with (now : Z) (token secret : str) (config : option TokenConfig) : result AuthError Claims :=
  match jwt_decode now token secret (validation_of config) with
  | Ok c => Ok c
  | Err e => Err (JwtError e)
  end.
Definition validate_access_token (now : Z) (token secret : str) : result AuthError Claims := validate_access_token_with now token secret None.

End Tokens.

Definition has_permission (claims : Claims) (permission : str) : bool :=
  bool_decide (claims.(role) = lit "admin") || bool_decide (permission ∈ claims.(permissions)).

(** ** Sessions *)

Record SessionConfig := { secure : bool; cookie_path : str; use_host_prefix : bool }.
Definition production : SessionConfig := {| secure := true; cookie_path := lit "/"; use_host_prefix := true |}.
Definition dev : SessionConfig := {| secure := false; cookie_path := lit "/"; use_host_prefix := false |}.

Definition prefixed (c : SessionConfig) (n : str) : str := if c.(use_host_prefix) then lit "__Host-" ++ n else n.
Definition access_cookie_name (c : SessionConfig) : str := prefixed c (lit "access").
Definition refresh_cookie_name (c : SessionConfig) : str := prefixed c (lit "refresh").
Definition csrf_cookie_name (c : SessionConfig) : str := prefixed c (lit "csrf").

(** [parts.join("; ")]. *)
Fixpoint join_parts (ps : list str) : str :=
  match ps with
  | [] => []
  | [p] => p
  | p :: ps' => p ++ lit "; " ++ join_parts ps'
  end.

Definition build_cookie (c : SessionConfig) (n value : str) (max_age : Z) (http_only : bool) (same_site : str) : str :=
  join_parts ([n ++ lit "=" ++ value; lit "Path=" ++ c.(cookie_path); lit "Max-Age=" ++ show_int max_age; lit "SameSite=" ++ same_site]
              ++ (if http_only then [lit "HttpOnly"] else []) ++ (if c.(secure) then [lit "Secure"] else [])).

Definition access_cookie (c : SessionConfig) (token : str) (max_age : Z) : str := build_cookie c (access_cookie_name c) token max_age true (lit "Lax").
Definition refresh_cookie (c : SessionConfig) (token : str) (max_age : Z) : str := build_cookie c (refresh_cookie_name c) token max_age true (lit "Strict").
Definition csrf_cookie (c : SessionConfig) (token : str) : str := build_cookie c (csrf_cookie_name c) token (86400 * 365) false (lit "Lax").
Definition clear_cookie (c : SessionConfig) (n : str) : str := build_cookie c n [] 0 true (lit "Lax").

Section Csrf.
(** [hex(sha256(x))], and [hex(hmac_sha256(key, message))]. *)
Context (sha256_hex : str -> str) (hmac_hex : str -> str -> str).

Definition hash_refresh_token (token : str) : str := sha256_hex token.
Definition verify_refresh_token (token stored_hash : str) : bool := ct_eq (hash_refresh_token token) stored_hash.

(** [random] is sixteen random bytes in hexadecimal. *)
Definition generate_csrf_token (random s access_token : str) : str :=
  random ++ lit "." ++ hmac_hex s (random ++ sha256_hex access_token).

Definition verify_csrf_token (csrf_token s access_token : str) : bool :=
  match split_once c_dot csrf_token with
  | None => false
  | Some (random, provided_hmac) => ct_eq (hmac_hex s (random ++ sha256_hex access_token)) provided_hmac
  end.

Definition set_session_cookies (random : str) (session_config : SessionConfig) (token_config : TokenConfig) (access_token refresh_token : str)
  : str * list str :=
  let csrf := generate_csrf_token random token_config.(secret) access_token in
  (csrf, [access_cookie session_config access_token token_config.(access_token_ttl);
          refresh_cookie session_config refresh_token token_config.(refresh_token_ttl);
          csrf_cookie session_config csrf]).

Definition clear_session_cookies (c : SessionConfig) : list str :=
  map (clear_cookie c) [access_cookie_name c; refresh_cookie_name c; csrf_cookie_name c].

(** The cookies of a request, as [axum_extra] has read them. *)
Abbreviation CookieJar := (gmap str str) (only parsing).
Definition extract_access_token (cookies : CookieJar) (c : SessionConfig) : option str := cookies !! access_cookie_name c.
Definition extract_refresh_token (cookies : CookieJar) (c : SessionConfig) : option str := cookies !! refresh_cookie_name c.

Definition csrf_match (cookie_csrf header_csrf : option str) : bool :=
  match cookie_csrf, header_csrf with
  | Some c, Some h => negb (bool_decide (c = [])) && ct_eq c h
  | _, _ => false
  end.
Definition validate_csrf (cookies : CookieJar) (header : option str) (c : SessionConfig) : bool :=
  csrf_match (cookies !! csrf_cookie_name c) header.
End Csrf.

(** ** The middleware *)

Inductive Method : Type := GET | HEAD | POST | PUT | PATCH | DELETE | OPTIONS | OtherMethod.
#[global] Instance Method_eq_dec : EqDecision Method.
Proof. solve_decision. Defined.

(** A request: headers are those whose value is text. *)
Record Req := {
  method : Method;
  uri_path : str;
  x_api_key : option str;
  cookie : option str;
  authorization : option str;
  x_csrf_token : option str
}.

(** What is installed beside the middleware. *)
Record Extensions := {
  exempt_paths : option (list str);
  api_key_verifier : option (str -> option Claims);
  jwt_secret : option str;
  oidc_verifier : option (str -> result AuthError Claims)
}.

(** The request goes on, with or without claims, or is answered. *)
Inductive Outcome : Type := Next (claims : option Claims) | Reply (status : Z) (error : str).

Definition default_exempt : list str := [lit "/auth/"; lit "/health"].

Definition is_static_asset (p : str) : bool :=
  negb (starts_with (lit "/api/") p)
  && (starts_with (lit "/_next/") p || starts_with (lit "/static/") p || starts_with (lit "/assets/") p
      || bool_decide (p = lit "/favicon.ico") || bool_decide (p = lit "/robots.txt") || bool_decide (p = lit "/sitemap.xml")
      || bool_decide (p = lit "/manifest.webmanifest")).

Definition is_exempt (exempt : list str) (p : str) : bool :=
  bool_decide (p = lit "/")
  || existsb (fun e => if ends_with [c_slash] e then starts_with e p else bool_decide (p = e) || starts_with (e ++ [c_slash]) p) exempt.

Definition bearer (r : Req) : option str := h ← r.(authorization); strip_prefix (lit "Bearer ") h.

Fixpoint find_map {A B} (f : A -> option B) (l : list A) : option B :=
  match l with
  | [] => None
  | x :: l => match f x with Some b => Some b | None => find_map f l end
  end.

(** A cookie by its name, with the prefix or without. *)
Definition cookie_value (n : str) (cookie_str : str) : option str :=
  find_map (fun c =>
    let c := trim c in
    match strip_prefix (lit "__Host-" ++ n ++ lit "=") c with
    | Some v => Some v
    | None => strip_prefix (n ++ lit "=") c
    end) (split 59 cookie_str).

Definition state_changing (m : Method) : bool := match m with POST | PUT | PATCH | DELETE => true | _ => false end.
Definition is_asymmetric (a : Algorithm) : bool := match a with HS256 | HS384 | HS512 => false | _ => true end.

Section Middleware.
Context `{Jwt}.

Definition soft_auth (now : Z) (ext : Extensions) (r : Req) : Outcome :=
  match ext.(jwt_secret), bearer r with
  | Some s, Some t => match validate_access_token now t s with Ok c => Next (Some c) | Err _ => Next None end
  | _, _ => Next None
  end.

(** The key of a request, when there is a verifier for it. *)
Definition api_key (r : Req) : option str :=
  k ← trim <$> r.(x_api_key); if bool_decide (k = []) then None else Some k.

Definition validate_token (now : Z) (ext : Extensions) (s token : str) : Outcome :=
  if default false (is_asymmetric <$> decode_header token) then
    match ext.(oidc_verifier) with
    | None => Reply 401 (lit "OIDC bearer not accepted (no verifier configured)")
    | Some verifier =>
        match verifier token with
        | Ok claims => Next (Some claims)
        | Err _ => Reply 401 (lit "invalid or expired OIDC token")
        end
    end
  else match validate_access_token now token s with
       | Ok claims => Next (Some claims)
       | Err _ => Reply 401 (lit "invalid or expired token")
       end.

Definition token_auth (now : Z) (ext : Extensions) (r : Req) : Outcome :=
  match ext.(jwt_secret) with
  | None => Reply 500 (lit "auth not configured")
  | Some s =>
      let cookie_str := default [] r.(cookie) in
      let cookie_token := cookie_value (lit "access") cookie_str in
      let is_cookie_auth := match bearer r, cookie_token with None, Some _ => true | _, _ => false end in
      match (match bearer r with Some t => Some t | None => cookie_token end) with
      | None => Reply 401 (lit "not authenticated")
      | Some token =>
          if is_cookie_auth && state_changing r.(method) && negb (csrf_match (cookie_value (lit "csrf") cookie_str) r.(x_csrf_token)) then
            Reply 403 (lit "invalid CSRF token")
          else validate_token now ext s token
      end
  end.

Definition auth_middleware (now : Z) (ext : Extensions) (r : Req) : Outcome :=
  if is_static_asset r.(uri_path) || bool_decide (r.(method) = OPTIONS) then Next None
  else if is_exempt (default default_exempt ext.(exempt_paths)) r.(uri_path) then soft_auth now ext r
  else if negb (starts_with (lit "/api/") r.(uri_path)) then soft_auth now ext r
  else match api_key r, ext.(api_key_verifier) with
       | Some k, Some verify =>
           match verify k with
           | Some claims => Next (Some claims)
           | None => Reply 401 (lit "invalid API key")
           end
       | _, _ => token_auth now ext r
       end.
End Middleware.

Definition require_permission (claims : Claims) (permission : str) : result (Z * str) unit :=
  if has_permission claims permission then Ok tt else Err (403, lit "insufficient permissions").

(** ** Tokens *)

Lemma add_i64_small a b : - 2 ^ 63 <= a + b < 2 ^ 63 -> add_i64 a b = a + b.
Proof. intros Hb. unfold add_i64. rewrite wrap_small by (unfold is_u; lia). lia. Qed.

Section TokenTheorems.
Context `{JwtLaws}.

(** The claims of an issued token. *)
Lemma issue_ok config now user_id mail display rl perms token ttl :
  issue_access_token config now user_id mail display rl perms = Ok (token, ttl) -> - 2 ^ 63 <= now + config.(access_token_ttl) < 2 ^ 63 ->
  exists c, jwt_encode c config.(secret) = Ok token /\ c.(sub) = user_id /\ c.(role) = rl /\ c.(permissions) = perms
    /\ c.(exp) = now + config.(access_token_ttl) /\ c.(iss) = config.(required_iss)
    /\ c.(aud) = (if bool_decide (config.(required_aud) = []) then None else Some config.(required_aud)) /\ ttl = config.(access_token_ttl).
Proof.
  unfold issue_access_token. destruct (bool_decide (required_iss config = Some [])); [done|]. destruct (existsb _ _); [done|].
  match goal with |- context [jwt_encode ?x _] => set (c := x) end. destruct (jwt_encode c (secret config)) as [t|] eqn:Et; [|done].
  intros [= <- <-] Hr. exists c. split_and!; try done. by apply add_i64_small.
Qed.

Lemma issued_accepted config now later c : c.(exp) = now + config.(access_token_ttl) -> later <= now + config.(access_token_ttl) + 60 ->
  c.(iss) = config.(required_iss) -> c.(aud) = (if bool_decide (config.(required_aud) = []) then None else Some config.(required_aud)) ->
  accepts (validation_of (Some config)) later c /\ accepts (validation_of None) later c.
Proof.
  intros Hexp Hl Hiss Haud. split; [|split_and!; [lia|done|done]]. unfold accepts, validation_of. rewrite Hexp, Hiss, Haud.
  assert (Hi : match (fun i => [i]) <$> required_iss config with Some l => match required_iss config with Some i => i ∈ l | None => False end | None => True end)
    by (destruct (required_iss config); cbn; [by left|done]).
  destruct (bool_decide_reflect (required_aud config = [])) as [Ea|Na]; cbn [valid_iss valid_aud validate_aud required_spec_claims].
  - split_and!; [lia| |done]. by destruct (required_iss config).
  - split_and!; [lia|by destruct (required_iss config)|]. intros _. destruct (required_aud config) as [|x l]; [done|]. exists x. split; by left.
Qed.

(** a token that is issued is accepted under the same configuration, and by a validator that asks for no issuer or
    audience, until a minute past its expiry, and carries the user it was issued to. *)
Theorem issued_token_valid config now user_id mail display rl perms token ttl later :
  issue_access_token config now user_id mail display rl perms = Ok (token, ttl) ->
  - 2 ^ 63 <= now + config.(access_token_ttl) < 2 ^ 63 -> later <= now + config.(access_token_ttl) + 60 ->
  exists c, validate_access_token_with later token config.(secret) (Some config) = Ok c
    /\ validate_access_token later token config.(secret) = Ok c
    /\ c.(sub) = user_id /\ c.(role) = rl /\ c.(permissions) = perms /\ c.(exp) = now + config.(access_token_ttl)
    /\ c.(iss) = config.(required_iss) /\ ttl = config.(access_token_ttl).
Proof.
  intros Hi Hr Hl. destruct (issue_ok _ _ _ _ _ _ _ _ _ Hi Hr) as (c & He & ? & ? & ? & Hexp & Hiss & Haud & ->).
  destruct (issued_accepted config now later c) as [Ha1 Ha2]; try done.
  exists c. unfold validate_access_token, validate_access_token_with. rewrite (decode_issued later token _ _ c He Ha1), (decode_issued later token _ _ c He Ha2).
  split_and!; done.
Qed.

(** Of every token that is accepted the claims are unexpired, to a minute, and of the issuer and one of the audiences asked for. *)
Theorem accepted_claims config now token c :
  validate_access_token_with now token config.(secret) (Some config) = Ok c ->
  now - 60 <= c.(exp)
  /\ (forall i, config.(required_iss) = Some i -> c.(iss) = Some i)
  /\ (config.(required_aud) <> [] -> exists a x, c.(aud) = Some a /\ x ∈ a /\ x ∈ config.(required_aud)).
Proof.
  unfold validate_access_token_with. destruct (jwt_decode _ _ _ _) as [c'|] eqn:E; [|done]. intros [= ->]. apply decode_accepts in E as (H1 & H2 & H3).
  split; [done|]. unfold validation_of in *. destruct (bool_decide_reflect (required_aud config = [])) as [Ea|Na]; cbn in *.
  - split; [|done]. intros i Hi. rewrite Hi in H2. cbn in H2. destruct (iss c) as [j|]; [apply list_elem_of_singleton in H2 as ->; done|].
    exfalso. apply H2. right. right. by left.
  - split.
    + intros i Hi. rewrite Hi in H2. cbn in H2. destruct (iss c) as [j|]; [apply list_elem_of_singleton in H2 as ->; done|].
      exfalso. apply H2. right. right. by left.
    + intros _. specialize (H3 eq_refl). destruct (aud c) as [a|]; [destruct H3 as (x & ? & ?); by exists a, x|].
      exfalso. apply H3. right. right. apply elem_of_app. right. by left.
Qed.
End TokenTheorems.

(** ** The gate *)

(** The paths that are exempt: the root, and those the application names, with everything below them. *)
Definition exempted (exempt : list str) (p : str) : Prop :=
  p = lit "/" \/ exists e, e ∈ exempt /\ (p = e \/ (if ends_with [c_slash] e then e else e ++ [c_slash]) `prefix_of` p).

Lemma is_exempt_spec exempt p : is_exempt exempt p = true <-> exempted exempt p.
Proof.
  unfold is_exempt, exempted. rewrite orb_true_iff, bool_decide_eq_true, existsb_exists. setoid_rewrite <- list_elem_of_In.
  assert (Hb : forall e, (if ends_with [c_slash] e then starts_with e p else bool_decide (p = e) || starts_with (e ++ [c_slash]) p) = true
    <-> p = e \/ (if ends_with [c_slash] e then e else e ++ [c_slash]) `prefix_of` p).
  { intros e. destruct (ends_with _ e); [|by rewrite orb_true_iff, bool_decide_eq_true, starts_with_spec].
    rewrite starts_with_spec. split; [by right|]. intros [->|Hp]; [|done]. exists []. by rewrite app_nil_r. }
  setoid_rewrite Hb. done.
Qed.

Section Gate.
Context `{JwtLaws}.

(** Where the claims of a token come from: the verifier of the provider when the token names an
    asymmetric algorithm, and otherwise the token itself, whose signature is right for the secret and which
    expired at most a minute ago. *)
Definition vouched (now : Z) (ext : Extensions) (token s : str) (c : Claims) : Prop :=
  (exists alg verifier, decode_header token = Some alg /\ (alg ∉ [HS256; HS384; HS512]) /\ ext.(oidc_verifier) = Some verifier /\ verifier token = Ok c)
  \/ ((forall alg, decode_header token = Some alg -> alg ∈ [HS256; HS384; HS512]) /\ (exists v, jwt_decode now token s v = Ok c) /\ now - 60 <= c.(exp)).

Lemma is_asymmetric_spec alg : is_asymmetric alg = true <-> alg ∉ [HS256; HS384; HS512].
Proof. destruct alg; cbn; split; try done; try (intros Hn; exfalso; apply Hn; set_solver); intros _; set_solver. Qed.

Lemma validate_access_token_ok now token s c : validate_access_token now token s = Ok c -> (exists v, jwt_decode now token s v = Ok c) /\ now - 60 <= c.(exp).
Proof.
  unfold validate_access_token, validate_access_token_with. destruct (jwt_decode _ _ _ _) as [c'|] eqn:E; [|done]. intros [= ->].
  split; [by eexists|]. by apply decode_accepts in E as [? _].
Qed.

Definition same_csrf (r : Req) : Prop :=
  exists x h, cookie_value (lit "csrf") (default [] r.(cookie)) = Some x /\ x <> [] /\ r.(x_csrf_token) = Some h /\ as_bytes x = as_bytes h.

Lemma csrf_match_true a b : csrf_match a b = true <-> exists x h, a = Some x /\ x <> [] /\ b = Some h /\ as_bytes x = as_bytes h.
Proof.
  unfold csrf_match. destruct a as [x|], b as [h|]; try (split; [done|naive_solver]).
  rewrite andb_true_iff, negb_true_iff, bool_decide_eq_false, ct_eq_bytes. naive_solver.
Qed.

Lemma validate_token_next now ext s token o : validate_token now ext s token = Next o -> exists c, o = Some c /\ vouched now ext token s c.
Proof.
  unfold validate_token, vouched. destruct (default false (is_asymmetric <$> decode_header token)) eqn:Ea.
  - destruct (decode_header token) as [alg|]; [|done]. apply is_asymmetric_spec in Ea.
    destruct (oidc_verifier ext) as [v|] eqn:Ev; [|done]. destruct (v token) as [c|] eqn:Ec; [|done]. intros [= <-]. exists c. split; [done|]. left. by exists alg, v.
  - destruct (validate_access_token now token s) as [c|] eqn:Ec; [|done]. intros [= <-]. exists c. split; [done|]. right.
    split; [|by apply validate_access_token_ok]. intros alg Hd. rewrite Hd in Ea. cbn in Ea. destruct alg; set_solver.
Qed.

Lemma token_auth_next now ext r o : token_auth now ext r = Next o ->
  exists c s token, o = Some c /\ ext.(jwt_secret) = Some s /\ vouched now ext token s c
    /\ (bearer r = Some token
        \/ bearer r = None /\ cookie_value (lit "access") (default [] r.(cookie)) = Some token
           /\ (r.(method) ∈ [POST; PUT; PATCH; DELETE] -> same_csrf r)).
Proof.
  unfold token_auth. destruct (jwt_secret ext) as [s|]; [|done]. destruct (bearer r) as [t|].
  - cbn [andb]. intros Hv. apply validate_token_next in Hv as (c & -> & Hv). exists c, s, t. split_and!; try done. by left.
  - destruct (cookie_value (lit "access") _) as [t|]; [|done]. cbn [andb].
    destruct (state_changing (method r) && negb _) eqn:Ec; [done|]. intros Hv. apply validate_token_next in Hv as (c & -> & Hv).
    exists c, s, t. split_and!; try done. right. split_and!; try done. intros Hs.
    assert (state_changing (method r) = true) as Hs' by (destruct (method r); set_solver). rewrite Hs' in Ec. apply negb_false_iff in Ec. by apply csrf_match_true in Ec.
Qed.

(** C6: a request for a path below [/api/] that the application does not exempt reaches its route only
    with claims, unless its method is OPTIONS: then it goes on without being looked at, and without claims.  The claims were
    given by the verifier of keys for the key it sent, or are those of the token it sent: validated by
    the verifier of the provider when it names an asymmetric algorithm, and otherwise signed with the secret and
    expired at most a minute ago.  And when the token came in a cookie and the method is POST, PUT,
    PATCH or DELETE, the request repeated the cookie against cross-site requests in its header. *)
Theorem api_needs_claims now ext r o :
  auth_middleware now ext r = Next o ->
  lit "/api/" `prefix_of` r.(uri_path) ->
  ~ exempted (default default_exempt ext.(exempt_paths)) r.(uri_path) ->
  (r.(method) = OPTIONS /\ o = None)
  \/ exists c, o = Some c
    /\ ((exists h k verify, r.(x_api_key) = Some h /\ k = trim h /\ k <> [] /\ ext.(api_key_verifier) = Some verify /\ verify k = Some c)
        \/ exists s token, ext.(jwt_secret) = Some s /\ vouched now ext token s c
             /\ (r.(authorization) = Some (lit "Bearer " ++ token)
                 \/ bearer r = None /\ cookie_value (lit "access") (default [] r.(cookie)) = Some token
                    /\ (r.(method) ∈ [POST; PUT; PATCH; DELETE] -> same_csrf r))).
Proof.
  unfold auth_middleware, is_static_asset. intros Hm Hapi Hex. apply starts_with_spec in Hapi. rewrite <- is_exempt_spec in Hex. apply not_true_is_false in Hex.
  rewrite Hapi, Hex in Hm. cbn [negb andb orb] in Hm. case_bool_decide as Hopt; [injection Hm as <-; by left|]. right.
  assert (Ht : token_auth now ext r = Next o -> exists c, o = Some c /\ exists s token, ext.(jwt_secret) = Some s /\ vouched now ext token s c
             /\ (r.(authorization) = Some (lit "Bearer " ++ token)
                 \/ bearer r = None /\ cookie_value (lit "access") (default [] r.(cookie)) = Some token
                    /\ (r.(method) ∈ [POST; PUT; PATCH; DELETE] -> same_csrf r))).
  { intros (c & s & token & -> & ? & ? & Hb)%token_auth_next. exists c. split; [done|]. exists s, token. split_and!; try done.
    destruct Hb as [Hb|Hb]; [left|by right]. unfold bearer in Hb. destruct (authorization r) as [h|]; [|done]. cbn [mbind option_bind] in Hb. by apply strip_prefix_spec in Hb as ->. }
  destruct (api_key r) as [k|] eqn:Ek; [destruct (api_key_verifier ext) as [verify|] eqn:Ev|]; [|naive_solver..].
  destruct (verify k) as [c|] eqn:Ec; [|done]. injection Hm as <-. exists c. split; [done|]. left.
  unfold api_key in Ek. destruct (x_api_key r) as [h|]; [|done]. cbn in Ek. case_bool_decide; [done|]. injection Ek as <-. by exists h, (trim h), verify.
Qed.
End Gate.

(** ** Cookies *)

(** Text of a cookie's name and value: no semicolon and no white space. *)
Definition plain (s : str) : Prop := Forall (fun c => is_whitespace c = false /\ c <> 59) s.

Lemma plain_app a b : plain a -> plain b -> plain (a ++ b).
Proof. intros. by apply Forall_app. Qed.

Lemma token_char_plain s : Forall (fun x => token_char x = true) s -> plain s.
Proof.
  intros Hs. eapply Forall_impl; [exact Hs|]. intros c Hc. unfold token_char, is_ascii_alphanumeric, is_ascii_digit, is_ascii_upper, is_ascii_lower, c_minus, c_dot in Hc.
  assert (45 <= c <= 46 \/ 48 <= c <= 57 \/ 65 <= c <= 122) as Hr by lia. unfold is_whitespace. lia.
Qed.

Lemma plain_no_semicolon s : plain s -> contains_char 59 s = false.
Proof.
  intros Hs. unfold contains_char. apply existsb_elem_false. intros x Hx. unfold plain in Hs. rewrite Forall_forall in Hs.
  destruct (Hs x Hx) as [_ Hne]. by apply Z.eqb_neq.
Qed.

Lemma trim_plain p s : forallb is_whitespace p = true -> plain s -> s <> [] -> trim (p ++ s) = s.
Proof.
  intros Hp Hs Hne. rewrite <- (app_nil_r s) at 1. apply trim_around; try done.
  - intros c Hc. unfold plain in Hs. rewrite Forall_forall in Hs. apply Hs. destruct s; [done|]. injection Hc as ->. by left.
  - intros c Hc. unfold plain in Hs. rewrite Forall_forall in Hs. apply Hs. apply last_Some in Hc as [l ->]. apply elem_of_app. right. by left.
Qed.

(** What a browser sends back: the name and the value of every cookie it was given. *)
Definition cookie_header (set_cookies : list str) : str :=
  join_parts (map (fun s => match split_once 59 s with Some (kv, _) => kv | None => s end) set_cookies).

Lemma join_parts_cons p q ps : join_parts (p :: q :: ps) = p ++ 59 :: 32 :: join_parts (q :: ps).
Proof. done. Qed.

Lemma cookie_header_built c l :
  Forall (fun x => plain (x.1.1.1.1 ++ lit "=" ++ x.1.1.1.2)) l ->
  cookie_header (map (fun x => build_cookie c x.1.1.1.1 x.1.1.1.2 x.1.1.2 x.1.2 x.2) l) = join_parts (map (fun x => x.1.1.1.1 ++ lit "=" ++ x.1.1.1.2) l).
Proof.
  intros Hl. unfold cookie_header. f_equal. rewrite map_map. apply map_ext_in. intros x Hx. rewrite Forall_forall in Hl.
  specialize (Hl x). rewrite list_elem_of_In in Hl. specialize (Hl Hx). unfold build_cookie.
  set (kv := x.1.1.1.1 ++ lit "=" ++ x.1.1.1.2) in *. cbn [app]. rewrite join_parts_cons.
  by rewrite split_once_app by (by apply plain_no_semicolon).
Qed.

(** The pieces of a header, after the first with a space in front. *)
Lemma split_parts p ps : Forall (fun p => plain p /\ p <> []) (p :: ps) ->
  map trim (split 59 (join_parts (p :: ps))) = p :: ps.
Proof.
  intros Hp. assert (Hgen : forall ws, forallb is_whitespace ws = true -> contains_char 59 ws = false ->
    map trim (split 59 (ws ++ join_parts (p :: ps))) = p :: ps); [|by apply (Hgen [])].
  revert p Hp. induction ps as [|q ps IH]; intros p Hp ws Hws Hc; apply Forall_cons in Hp as [[Hp Hne] Hps].
  - cbn [join_parts]. change (ws ++ p) with (join 59 [ws ++ p]). rewrite split_join; [cbn; by rewrite trim_plain|done|constructor; [|done]]. by rewrite contains_char_app, Hc, plain_no_semicolon.
  - rewrite join_parts_cons, app_assoc, split_app by (by rewrite contains_char_app, Hc, plain_no_semicolon).
    cbn [map]. rewrite trim_plain by done. f_equal. by apply (IH q Hps [32]).
Qed.

Lemma find_map_trim {B} (g : str -> option B) l : find_map (fun c => g (trim c)) l = find_map g (map trim l).
Proof. induction l as [|x l IH]; [done|]. cbn. by rewrite IH. Qed.

(** The cookies of a session are found again in the header. *)
Lemma session_cookies_found sc token refresh csrf :
  plain token -> plain refresh -> plain csrf ->
  let h := join_parts [access_cookie_name sc ++ lit "=" ++ token; refresh_cookie_name sc ++ lit "=" ++ refresh; csrf_cookie_name sc ++ lit "=" ++ csrf] in
  cookie_value (lit "access") h = Some token /\ cookie_value (lit "csrf") h = Some csrf.
Proof.
  intros Ht Hr Hc h.
  assert (Hn : forall n v, plain v -> plain n -> plain (n ++ lit "=" ++ v) /\ n ++ lit "=" ++ v <> []).
  { intros n v Hv Hp. split; [|by destruct n]. apply plain_app; [done|]. apply plain_app; [|done]. by repeat constructor. }
  assert (Hpieces : map trim (split 59 h) = [access_cookie_name sc ++ lit "=" ++ token; refresh_cookie_name sc ++ lit "=" ++ refresh; csrf_cookie_name sc ++ lit "=" ++ csrf]).
  { apply split_parts. unfold access_cookie_name, refresh_cookie_name, csrf_cookie_name, prefixed. destruct (use_host_prefix sc);
      (repeat (constructor; [apply Hn; [done|by repeat constructor]|])); done. }
  unfold cookie_value.
  rewrite (find_map_trim (fun c => match strip_prefix (lit "__Host-" ++ lit "access" ++ lit "=") c with Some v => Some v | None => strip_prefix (lit "access" ++ lit "=") c end)).
  rewrite (find_map_trim (fun c => match strip_prefix (lit "__Host-" ++ lit "csrf" ++ lit "=") c with Some v => Some v | None => strip_prefix (lit "csrf" ++ lit "=") c end)).
  rewrite Hpieces. unfold access_cookie_name, refresh_cookie_name, csrf_cookie_name, prefixed. destruct (use_host_prefix sc); split; reflexivity.
Qed.

Section Sessions.
Context `{JwtLaws} (sha256_hex : str -> str) (hmac_hex : str -> str -> str).
(** Hashes and random numbers are written in hexadecimal. *)
Context (hmac_chars : forall k m, Forall (fun c => token_char c = true) (hmac_hex k m)).

(** A token against cross-site requests verifies for the session it was made for, and for a session and a text for which the code
    that follows the first dot is the right one. *)
Theorem csrf_roundtrip random s access_token : contains_char c_dot random = false ->
  verify_csrf_token sha256_hex hmac_hex (generate_csrf_token sha256_hex hmac_hex random s access_token) s access_token = true.
Proof.
  clear hmac_chars. intros Hr. unfold verify_csrf_token, generate_csrf_token. change (lit "." ++ ?x) with (c_dot :: x). rewrite split_once_app by done. apply ct_eq_refl.
Qed.

(** C34: the cookies that a login sets open the API: a request that sends them back, with the token against
    cross-site requests in its header and with no other credential, reaches a path below [/api/] that is
    not exempt by any method but OPTIONS (which is let through without claims), with the claims of
    the user who logged in, until a minute past the expiry of the access token. *)
Theorem session_opens_api config sc ext now later user_id mail display rl perms token ttl random refresh csrf cookies r :
  issue_access_token config now user_id mail display rl perms = Ok (token, ttl) ->
  set_session_cookies sha256_hex hmac_hex random sc config token refresh = (csrf, cookies) ->
  Forall (fun c => token_char c = true) random -> Forall (fun c => token_char c = true) refresh ->
  - 2 ^ 63 <= now + config.(access_token_ttl) < 2 ^ 63 -> later <= now + config.(access_token_ttl) + 60 ->
  ext.(jwt_secret) = Some config.(secret) ->
  is_exempt (default default_exempt ext.(exempt_paths)) r.(uri_path) = false -> starts_with (lit "/api/") r.(uri_path) = true ->
  r.(method) <> OPTIONS -> r.(authorization) = None -> r.(x_api_key) = None ->
  r.(cookie) = Some (cookie_header cookies) -> r.(x_csrf_token) = Some csrf ->
  exists c, auth_middleware later ext r = Next (Some c) /\ c.(sub) = user_id /\ c.(role) = rl /\ c.(permissions) = perms.
Proof.
  intros Hi Hset Hrandom Hrefresh Hb Hl Hs Hex Hapi Hopt Hauth Hkey Hcookie Hcsrf.
  destruct (issue_ok _ _ _ _ _ _ _ _ _ Hi Hb) as (c & He & Hsub & Hrole & Hperms & Hexp & Hiss & Haud & _).
  destruct (issued_accepted config now later c) as [_ Ha]; try done.
  destruct (encode_chars _ _ _ He) as [Hne Htc]. pose proof (encode_hs256 _ _ _ He) as Hhs.
  assert (Hv : validate_access_token later token config.(secret) = Ok c)
    by (unfold validate_access_token, validate_access_token_with; by rewrite (decode_issued later token _ _ c He Ha)).
  injection Hset as Hcsrf' Hcookies.
  assert (Hpc : plain csrf).
  { rewrite <- Hcsrf'. apply plain_app; [by apply token_char_plain|]. apply plain_app; [by repeat constructor|apply token_char_plain, hmac_chars]. }
  assert (Hnames : forall n, plain n -> plain (prefixed sc n)) by (intros n Hpn; unfold prefixed; destruct (use_host_prefix sc); [apply plain_app; [by repeat constructor|done]|done]).
  assert (Hh : cookie_header cookies = join_parts [access_cookie_name sc ++ lit "=" ++ token; refresh_cookie_name sc ++ lit "=" ++ refresh; csrf_cookie_name sc ++ lit "=" ++ csrf]).
  { rewrite <- Hcookies, <- Hcsrf' in *.
    apply (cookie_header_built sc [(access_cookie_name sc, token, config.(access_token_ttl), true, lit "Lax");
      (refresh_cookie_name sc, refresh, config.(refresh_token_ttl), true, lit "Strict");
      (csrf_cookie_name sc, generate_csrf_token sha256_hex hmac_hex random (secret config) token, 86400 * 365, false, lit "Lax")]).
    repeat (constructor; [apply plain_app; [apply Hnames; by repeat constructor|apply plain_app; [by repeat constructor|first [done|by apply token_char_plain]]]|]). done. }
  destruct (session_cookies_found sc token refresh csrf) as [Hat Hac]; [by apply token_char_plain|by apply token_char_plain|done|].
  exists c. split_and!; try done. unfold auth_middleware, is_static_asset, api_key, token_auth, bearer.
  rewrite Hapi, Hex, Hauth, Hkey, Hcookie, Hcsrf, Hs, Hh. rewrite (bool_decide_false (method r = OPTIONS)) by done.
  cbn [negb andb orb mbind option_bind fmap option_fmap option_map default]. unfold id. rewrite Hat, Hac.
  assert (Hm : csrf_match (Some csrf) (Some csrf) = true).
  { apply csrf_match_true. exists csrf, csrf. split_and!; try done. rewrite <- Hcsrf'. unfold generate_csrf_token. by destruct random. }
  rewrite Hm, andb_false_r. unfold validate_token. rewrite Hhs. cbn [fmap option_fmap option_map default is_asymmetric]. by rewrite Hv.
Qed.
End Sessions.

(** ** Examples

    A stand-in for [jsonwebtoken]: the token is the secret and the claims, written in two letters. *)

Fixpoint bits (p : positive) : str :=
  match p with
  | xI p => 49 :: bits p
  | xO p => 48 :: bits p
  | xH => [50]
  end.
Fixpoint unbits (s : str) : option positive :=
  match s with
  | [50] => Some xH
  | 49 :: s => xI <$> unbits s
  | 48 :: s => xO <$> unbits s
  | _ => None
  end.

Lemma unbits_bits p : unbits (bits p) = Some p.
Proof. induction p as [p IH|p IH|]; cbn; [| |done]; rewrite IH; done. Qed.

Lemma bits_chars p : bits p <> [] /\ Forall (fun x => token_char x = true) (bits p).
Proof. induction p as [p [_ IH]|p [_ IH]|]; cbn; (split; [done|]); by repeat constructor. Qed.

#[global] Instance Claims_eq_dec : EqDecision Claims.
Proof. solve_decision. Defined.
#[global] Program Instance Claims_countable : Countable Claims :=
  inj_countable' (fun c => (c.(sub), c.(email), c.(name), c.(role), c.(permissions), c.(exp), c.(iat), c.(iss), c.(aud)))
    (fun '(a, b, c, d, e, f, g, h, i) => {| sub := a; email := b; name := c; role := d; permissions := e; exp := f; iat := g; iss := h; aud := i |}) _.
Next Obligation. by intros []. Qed.

Definition accepted (v : Validation) (now : Z) (c : Claims) : bool :=
  (now - 60 <=? c.(exp))
  && match v.(valid_iss) with
     | Some l => match c.(iss) with Some i => bool_decide (i ∈ l) | None => negb (bool_decide (lit "iss" ∈ v.(required_spec_claims))) end
     | None => true
     end
  && (negb v.(validate_aud)
      || match c.(aud), v.(valid_aud) with
         | Some a, Some l => existsb (fun x => bool_decide (x ∈ l)) a
         | Some _, None => false
         | None, _ => negb (bool_decide (lit "aud" ∈ v.(required_spec_claims)))
         end).

Lemma accepted_spec v now c : accepted v now c = true <-> accepts v now c.
Proof.
  unfold accepted, accepts. rewrite !andb_true_iff, orb_true_iff, negb_true_iff, Z.leb_le.
  assert (H1 : match valid_iss v with Some l => match iss c with Some i => bool_decide (i ∈ l) | None => negb (bool_decide (lit "iss" ∈ required_spec_claims v)) end | None => true end = true
    <-> match valid_iss v with Some l => match iss c with Some i => i ∈ l | None => lit "iss" ∉ required_spec_claims v end | None => True end).
  { destruct (valid_iss v); [|done]. destruct (iss c); [apply bool_decide_eq_true|]. by rewrite negb_true_iff, bool_decide_eq_false. }
  assert (H2 : match aud c, valid_aud v with Some a, Some l => existsb (fun x => bool_decide (x ∈ l)) a | Some _, None => false | None, _ => negb (bool_decide (lit "aud" ∈ required_spec_claims v)) end = true
    <-> match aud c, valid_aud v with Some a, Some l => exists x, x ∈ a /\ x ∈ l | Some _, None => False | None, _ => lit "aud" ∉ required_spec_claims v end).
  { destruct (aud c) as [a|]; [|by rewrite negb_true_iff, bool_decide_eq_false]. destruct (valid_aud v) as [l|]; [|done].
    rewrite existsb_elem. by setoid_rewrite bool_decide_eq_true. }
  rewrite H1, H2. destruct (validate_aud v); intuition done.
Qed.

Module Toy.
#[global] Instance api : Jwt := {|
  jwt_encode c s := Ok (bits (encode (s, c)));
  jwt_decode now t s v :=
    match unbits t ≫= decode (A := str * Claims) with
    | Some (s', c) => if bool_decide (s' = s) && accepted v now c then Ok c else Err (lit "invalid token")
    | None => Err (lit "invalid token")
    end;
  decode_header t := match unbits t with Some _ => Some HS256 | None => None end
|}.

#[global] Instance laws : JwtLaws.
Proof.
  constructor.
  - intros now t s v c. cbn [jwt_decode api]. destruct (unbits t ≫= decode) as [[s' c']|]; [|done].
    destruct (bool_decide (s' = s)); [|done]. destruct (accepted v now c') eqn:Ea; [|done]. intros [= <-]. by apply accepted_spec.
  - intros now t s v c. cbn [jwt_decode jwt_encode api]. intros [= <-] Ha. rewrite unbits_bits. cbn [mbind option_bind]. rewrite decode_encode.
    rewrite bool_decide_true by done. apply accepted_spec in Ha. by rewrite Ha.
  - intros t s c. cbn [decode_header jwt_encode api]. intros [= <-]. by rewrite unbits_bits.
  - intros t s c. cbn [jwt_encode api]. intros [= <-]. apply bits_chars.
Qed.
End Toy.

Definition hex_toy (s : str) : str := lit "00".
Definition hmac_toy (k m : str) : str := lit "ff".
Lemma hmac_toy_chars k m : Forall (fun c => token_char c = true) (hmac_toy k m).
Proof. by repeat constructor. Qed.

Definition config : TokenConfig :=
  {| secret := lit "0123456789abcdef0123456789abcdef"; access_token_ttl := 900; refresh_token_ttl := 2592000; required_iss := Some (lit "runesh"); required_aud := [lit "web"] |}.
Definition alice : Claims :=
  {| sub := lit "u1"; email := []; name := []; role := lit "user"; permissions := []; exp := 1900; iat := 1000; iss := Some (lit "runesh"); aud := Some [lit "web"] |}.
Definition alice_token : str := bits (encode (config.(secret), alice)).
Definition installed (exempt : option (list str)) : Extensions :=
  {| exempt_paths := exempt; api_key_verifier := None; jwt_secret := Some config.(secret); oidc_verifier := None |}.
Definition logged_in : str * list str := set_session_cookies hex_toy hmac_toy (lit "ab") production config alice_token (lit "77").
Definition post_things : Req :=
  {| method := POST; uri_path := lit "/api/things"; x_api_key := None; cookie := Some (cookie_header logged_in.2); authorization := None;
     x_csrf_token := Some logged_in.1 |}.

Lemma issued_to_alice : issue_access_token config 1000 (lit "u1") [] [] (lit "user") [] = Ok (alice_token, 900).
Proof. unfold issue_access_token. cbn [required_iss config required_aud existsb]. rewrite !bool_decide_false by done. done. Qed.

Lemma issued_token_valid_witness :
  exists c, validate_access_token_with 1960 alice_token config.(secret) (Some config) = Ok c
    /\ validate_access_token 1960 alice_token config.(secret) = Ok c
    /\ c.(sub) = lit "u1" /\ c.(role) = lit "user" /\ c.(permissions) = [] /\ c.(exp) = 1000 + 900
    /\ c.(iss) = config.(required_iss) /\ 900 = config.(access_token_ttl).
Proof.
  apply (issued_token_valid config 1000 (lit "u1") [] [] (lit "user") [] alice_token 900 1960 issued_to_alice); cbn [access_token_ttl config]; lia.
Defined.

Lemma session_opens_api_witness :
  exists c, auth_middleware 1960 (installed None) post_things = Next (Some c) /\ c.(sub) = lit "u1" /\ c.(role) = lit "user" /\ c.(permissions) = [].
Proof.
  apply (session_opens_api hex_toy hmac_toy hmac_toy_chars config production (installed None) 1000 1960 (lit "u1") [] [] (lit "user") [] alice_token 900 (lit "ab") (lit "77")
    logged_in.1 logged_in.2 post_things issued_to_alice); try done; cbn [access_token_ttl config]; try lia; by repeat constructor.
Defined.

Definition with_key (k : str) : Extensions :=
  {| exempt_paths := None; api_key_verifier := Some (fun x => if bool_decide (x = k) then Some alice else None); jwt_secret := None; oidc_verifier := None |}.
Definition by_key : Req :=
  {| method := GET; uri_path := lit "/api/things"; x_api_key := Some (lit " k1 "); cookie := None; authorization := None; x_csrf_token := None |}.

Lemma api_needs_claims_witness :
  auth_middleware 0 (with_key (lit "k1")) by_key = Next (Some alice)
  /\ exists h k verify, by_key.(x_api_key) = Some h /\ k = trim h /\ (with_key (lit "k1")).(api_key_verifier) = Some verify /\ verify k = Some alice.
Proof.
  assert (Hm : auth_middleware 0 (with_key (lit "k1")) by_key = Next (Some alice)) by reflexivity.
  split; [exact Hm|].
  destruct (api_needs_claims 0 (with_key (lit "k1")) by_key (Some alice) Hm) as [[E _]|(c & E & [(h & k & verify & H1 & H2 & _ & H4 & H5)|(s & _ & Hs & _)])].
  - by exists (lit "things").
  - rewrite <- is_exempt_spec. discriminate.
  - discriminate E.
  - injection E as <-. exists h, k, verify. split; [exact H1|]. split; [exact H2|]. split; [exact H4|exact H5].
  - discriminate Hs.
Defined.

(** ** Divergences *)

(** Any path below [/api/] is to go through full authentication, but a request with the method OPTIONS goes through none. *)
Theorem options_unauthenticated `{Jwt} now ext r : r.(method) = OPTIONS -> auth_middleware now ext r = Next None.
Proof. intros E. unfold auth_middleware. by rewrite E, bool_decide_true, orb_true_r. Qed.


(** The middleware compares the cookie with the header and no more: a cookie that anyone has set, with the same text in the
    header, passes, though the code of the server in it is wrong. *)
Theorem forged_csrf_passes `{Jwt} now ext s token c x r :
  ext.(jwt_secret) = Some s -> decode_header token = Some HS256 -> validate_access_token now token s = Ok c ->
  plain token -> plain x -> x <> [] ->
  r.(authorization) = None -> r.(cookie) = Some (lit "__Host-access=" ++ token ++ lit "; csrf=" ++ x) -> r.(x_csrf_token) = Some x ->
  token_auth now ext r = Next (Some c).
Proof.
  intros Hs Hh Hv Hp Hx Hne Ha Hc Hr.
  assert (Hpieces : map trim (split 59 (lit "__Host-access=" ++ token ++ lit "; csrf=" ++ x)) = [lit "__Host-access=" ++ token; lit "csrf=" ++ x]).
  { change (lit "; csrf=" ++ x) with (lit "; " ++ lit "csrf=" ++ x). rewrite app_assoc.
    apply (split_parts (lit "__Host-access=" ++ token) [lit "csrf=" ++ x]).
    repeat (constructor; [split; [apply plain_app; [by repeat constructor|done]|done]|]). done. }
  unfold token_auth, bearer. rewrite Hs, Ha, Hc, Hr. cbn [mbind option_bind default]. unfold id, cookie_value.
  rewrite (find_map_trim (fun c => match strip_prefix (lit "__Host-" ++ lit "access" ++ lit "=") c with Some v => Some v | None => strip_prefix (lit "access" ++ lit "=") c end)).
  rewrite (find_map_trim (fun c => match strip_prefix (lit "__Host-" ++ lit "csrf" ++ lit "=") c with Some v => Some v | None => strip_prefix (lit "csrf" ++ lit "=") c end)).
  rewrite Hpieces. change (lit "__Host-" ++ lit "access" ++ lit "=") with (lit "__Host-access="). cbn [find_map]. rewrite strip_prefix_app.
  assert (Hm : csrf_match (Some x) (Some x) = true) by (apply csrf_match_true; by exists x, x).
  change (strip_prefix (lit "__Host-" ++ lit "csrf" ++ lit "=") (lit "__Host-access=" ++ token)) with (@None str).
  change (strip_prefix (lit "csrf" ++ lit "=") (lit "__Host-access=" ++ token)) with (@None str).
  change (strip_prefix (lit "__Host-" ++ lit "csrf" ++ lit "=") (lit "csrf=" ++ x)) with (@None str).
  change (strip_prefix (lit "csrf" ++ lit "=") (lit "csrf=" ++ x)) with (Some x).
  cbv beta iota. rewrite Hm, andb_false_r. unfold validate_token. rewrite Hh. cbn [fmap option_fmap option_map default is_asymmetric]. by rewrite Hv.
Qed.

(** With the paths that are exempt by default, the router that is to be mounted at [/api/auth] cannot be reached to log in. *)
Definition log_in : Req :=
  {| method := POST; uri_path := lit "/api/auth/login"; x_api_key := None; cookie := None; authorization := None; x_csrf_token := None |}.
Theorem login_locked_out now : auth_middleware now (installed None) log_in = Reply 401 (lit "not authenticated").
Proof. reflexivity. Qed.
