(* ===== verification/AuthFlow.v ===== *)
(** * Logging in, refreshing and logging out

    [runesh-auth]: the sessions of the OIDC flow ([oidc.rs], [OidcSessionStore]) and the handlers
    of the authentication routes ([handlers.rs]), over the store of users and refresh
    tokens that a project provides ([store.rs]).  [AuthStore] is that trait, and
    [AuthStoreLaws] what its documentation asks of an implementation; the theorems are
    proved against it.  They state that a refresh token is good for one use, that the one
    which replaces it works, and that the index of OIDC states is exact. *)
From S2P Require Import Prelude Str Auth.

#[local] Open Scope Z_scope.

(** ** Sessions of the OIDC flow *)

Record OidcProvider := {
  client_id : str;
  redirect_uri : str;
  scopes : str;
  authorization_endpoint : str
}.

Record OidcSession := { sid : str; sstate : str; code_verifier : str; created_at : Z }.

Record OidcSessionStore := { sessions : gmap str OidcSession; state_index : gmap str str; max_sessions : Z }.

Definition new_sessions : OidcSessionStore := {| sessions := ∅; state_index := ∅; max_sessions := 10000 |}.

(** Times are in seconds; [it] is the order in which the table is iterated. *)
Definition expired (now : Z) (s : OidcSession) : bool := s.(created_at) <=? now - 600.
Definition cleanup (it : gmap str OidcSession -> list (str * OidcSession)) (now : Z) (st : OidcSessionStore) : OidcSessionStore :=
  let expired_states := map (fun kv => kv.2.(sstate)) (filter (fun kv => expired now kv.2 = true) (it st.(sessions))) in
  {| sessions := filter (fun kv => expired now kv.2 = false) st.(sessions);
     state_index := foldl (fun m s => delete s m) st.(state_index) expired_states;
     max_sessions := st.(max_sessions) |}.

Section Start.
Context (urlencode : str -> str) (challenge : str -> str).

Definition auth_url (provider : OidcProvider) (extra_scopes : option str) (state verifier : str) : str :=
  let s := match extra_scopes with Some extra => provider.(scopes) ++ lit " " ++ extra | None => provider.(scopes) end in
  provider.(authorization_endpoint) ++ lit "?response_type=code&client_id=" ++ urlencode provider.(client_id)
  ++ lit "&redirect_uri=" ++ urlencode provider.(redirect_uri) ++ lit "&scope=" ++ urlencode s ++ lit "&state=" ++ urlencode state
  ++ lit "&code_challenge=" ++ urlencode (challenge verifier) ++ lit "&code_challenge_method=S256".

(** The ids and the verifier are random. *)
Definition start (it : gmap str OidcSession -> list (str * OidcSession)) (now : Z) (session_id state verifier : str) (provider : OidcProvider)
    (extra_scopes : option str) (st : OidcSessionStore) : result AuthError (str * str) * OidcSessionStore :=
  let st := if Z.of_nat (size st.(sessions)) >=? st.(max_sessions) / 2 then cleanup it now st else st in
  if Z.of_nat (size st.(sessions)) >=? st.(max_sessions) then (Err (Internal (lit "OIDC session store at capacity")), st)
  else
    let s := {| sid := session_id; sstate := state; code_verifier := verifier; created_at := now |} in
    (Ok (session_id, auth_url provider extra_scopes state verifier),
     {| sessions := <[session_id := s]> st.(sessions); state_index := <[state := session_id]> st.(state_index); max_sessions := st.(max_sessions) |}).
End Start.

Definition get_by_state (state : str) (st : OidcSessionStore) : option OidcSession :=
  session_id ← st.(state_index) !! state; st.(sessions) !! session_id.

Definition remove (session_id : str) (st : OidcSessionStore) : OidcSessionStore :=
  match st.(sessions) !! session_id with
  | None => st
  | Some s => {| sessions := delete session_id st.(sessions); state_index := delete s.(sstate) st.(state_index); max_sessions := st.(max_sessions) |}
  end.

(** ** The store of a project *)

Record AuthUser := { user_id : str; user_email : str; user_name : str; user_role : str; avatar_url : option str; user_permissions : list str }.

Class AuthStore (Info S : Type) := {
  upsert_user : Info -> S -> result AuthError AuthUser * S;
  get_user_by_id : str -> S -> result AuthError AuthUser;
  store_refresh_token : str -> str -> Z -> S -> result AuthError unit * S;
  consume_refresh_token : Z -> str -> S -> result AuthError str * S;
  revoke_all_refresh_tokens : str -> S -> result AuthError unit * S;
  verify_password : str -> str -> S -> result AuthError (option AuthUser) * S;
  on_login : str -> S -> result AuthError unit * S
}.

(** What the trait's documentation says of refresh tokens: a table of the hashes, with user and expiry; a hash is
    consumed by finding it unexpired and deleting it. *)
Class AuthStoreLaws {Info S} `{AuthStore Info S} := {
  tokens : S -> gmap str (str * Z);
  upsert_tokens info s : tokens (upsert_user info s).2 = tokens s;
  password_tokens e p s : tokens (verify_password e p s).2 = tokens s;
  login_tokens u s : tokens (on_login u s).2 = tokens s;
  store_tokens u h expires s :
    match (store_refresh_token u h expires s).1 with
    | Ok _ => tokens (store_refresh_token u h expires s).2 = <[h := (u, expires)]> (tokens s)
    | Err _ => tokens (store_refresh_token u h expires s).2 = tokens s
    end;
  consume_tokens now h s :
    match (consume_refresh_token now h s).1 with
    | Ok u => (exists expires, tokens s !! h = Some (u, expires) /\ now < expires) /\ tokens (consume_refresh_token now h s).2 = delete h (tokens s)
    | Err _ => tokens (consume_refresh_token now h s).2 ⊆ tokens s
    end;
  revoke_tokens u s :
    match (revoke_all_refresh_tokens u s).1 with
    | Ok _ => tokens (revoke_all_refresh_tokens u s).2 = filter (fun kv => kv.2.1 <> u) (tokens s)
    | Err _ => tokens (revoke_all_refresh_tokens u s).2 ⊆ tokens s
    end
}.

(** ** The handlers *)

Inductive Body : Type :=
  | EmptyBody
  | Text (s : str)
  | ErrorJson (error : str)
  | StartJson (session_id url : str)
  | SessionJson (user : AuthUser) (csrf_token : str)
  | UserJson (user : AuthUser).

Record Response := { status : Z; body : Body; set_cookies : list str; location : option str }.

Definition plain_reply (st : Z) (b : Body) : Response := {| status := st; body := b; set_cookies := []; location := None |}.

Record AuthState (S : Type) := {
  provider : option OidcProvider;
  oidc_sessions : OidcSessionStore;
  token_config : TokenConfig;
  session_config : SessionConfig;
  store : S
}.
Arguments provider {S} _.
Arguments oidc_sessions {S} _.
Arguments token_config {S} _.
Arguments session_config {S} _.
Arguments store {S} _.

(** What a request takes from the clock and the random numbers. *)
Record Fresh := { now : Z; new_refresh : str; csrf_random : str }.

Section Handlers.
Context {Info S : Type} `{AuthStore Info S} `{Jwt}.
Context (sha256_hex : str -> str) (hmac_hex : str -> str -> str) (urlencode challenge : str -> str).
(** The exchange of a code with the provider. *)
Context (exchange_code : str -> str -> result AuthError Info).
Context (it : gmap str OidcSession -> list (str * OidcSession)).

Definition with_store (s : S) (a : AuthState S) : AuthState S :=
  {| provider := a.(provider); oidc_sessions := a.(oidc_sessions); token_config := a.(token_config); session_config := a.(session_config); store := s |}.
Definition with_sessions (o : OidcSessionStore) (a : AuthState S) : AuthState S :=
  {| provider := a.(provider); oidc_sessions := o; token_config := a.(token_config); session_config := a.(session_config); store := a.(store) |}.

Definition login_start (session_id state verifier : str) (n : Z) (a : AuthState S) : Response * AuthState S :=
  match a.(provider) with
  | None => (plain_reply 503 (ErrorJson (lit "OIDC not configured")), a)
  | Some p =>
      match start urlencode challenge it n session_id state verifier p None a.(oidc_sessions) with
      | (Err _, o) => (plain_reply 503 (ErrorJson (lit "Too many pending login sessions, try again later")), with_sessions o a)
      | (Ok (id, url), o) => (plain_reply 200 (StartJson id url), with_sessions o a)
      end
  end.

Definition refresh_token_expiry (config : TokenConfig) (n : Z) : Z := n + config.(refresh_token_ttl).

(** Tokens for a user: issued, stored, and set as cookies; [reply] makes the answer of the token
    against cross-site requests and the cookies. *)
Definition open_session (f : Fresh) (failed_token failed_store : Response) (reply : str -> list str -> Response) (user : AuthUser) (a : AuthState S)
  : Response * AuthState S :=
  match issue_access_token a.(token_config) f.(now) user.(user_id) user.(user_email) user.(user_name) user.(user_role) user.(user_permissions) with
  | Err _ => (failed_token, a)
  | Ok (access_token, _) =>
      match store_refresh_token user.(user_id) (hash_refresh_token sha256_hex f.(new_refresh)) (refresh_token_expiry a.(token_config) f.(now)) a.(store) with
      | (Err _, s) => (failed_store, with_store s a)
      | (Ok _, s) =>
          let '(_, s) := on_login user.(user_id) s in
          let '(csrf, cookies) := set_session_cookies sha256_hex hmac_hex f.(csrf_random) a.(session_config) a.(token_config) access_token f.(new_refresh) in
          (reply csrf cookies, with_store s a)
      end
  end.

Definition issue_session_response (f : Fresh) (user : AuthUser) (a : AuthState S) : Response * AuthState S :=
  open_session f (plain_reply 500 (ErrorJson (lit "Token generation failed"))) (plain_reply 500 (ErrorJson (lit "Session creation failed")))
    (fun csrf cookies => {| status := 200; body := SessionJson user csrf; set_cookies := cookies; location := None |}) user a.

Definition callback (f : Fresh) (code state : str) (a : AuthState S) : Response * AuthState S :=
  match a.(provider) with
  | None => (plain_reply 400 (Text (lit "OIDC not configured")), a)
  | Some _ =>
      match get_by_state state a.(oidc_sessions) with
      | None => (plain_reply 400 (Text (lit "Invalid or expired OIDC state")), a)
      | Some session =>
          match exchange_code code session.(code_verifier) with
          | Err _ => (plain_reply 400 (Text (lit "Authentication failed")), a)
          | Ok user_info =>
              let a := with_sessions (remove session.(sid) a.(oidc_sessions)) a in
              match upsert_user user_info a.(store) with
              | (Err _, s) => (plain_reply 500 (Text (lit "User provisioning failed")), with_store s a)
              | (Ok user, s) =>
                  open_session f (plain_reply 500 (Text (lit "Token generation failed"))) (plain_reply 500 (Text (lit "Session creation failed")))
                    (fun _ cookies => {| status := 302; body := EmptyBody; set_cookies := cookies; location := Some (lit "/") |}) user (with_store s a)
              end
          end
      end
  end.

Definition password_login (f : Fresh) (email password : str) (a : AuthState S) : Response * AuthState S :=
  match verify_password email password a.(store) with
  | (Ok (Some user), s) => issue_session_response f user (with_store s a)
  | (_, s) => (plain_reply 401 (ErrorJson (lit "Invalid email or password")), with_store s a)
  end.

Definition refresh (f : Fresh) (jar : gmap str str) (a : AuthState S) : Response * AuthState S :=
  match extract_refresh_token jar a.(session_config) with
  | None => (plain_reply 401 (ErrorJson (lit "No refresh token")), a)
  | Some refresh_token =>
      match consume_refresh_token f.(now) (hash_refresh_token sha256_hex refresh_token) a.(store) with
      | (Err _, s) => (plain_reply 401 (ErrorJson (lit "Invalid or expired refresh token")), with_store s a)
      | (Ok uid, s) =>
          match get_user_by_id uid s with
          | Err _ => (plain_reply 401 (ErrorJson (lit "User not found")), with_store s a)
          | Ok user => issue_session_response f user (with_store s a)
          end
      end
  end.

Definition logout (n : Z) (jar : gmap str str) (a : AuthState S) : Response * AuthState S :=
  let a := match extract_access_token jar a.(session_config) with
           | None => a
           | Some access =>
               match validate_access_token n access a.(token_config).(secret) with
               | Err _ => a
               | Ok claims => with_store (revoke_all_refresh_tokens claims.(sub) a.(store)).2 a
               end
           end in
  ({| status := 204; body := EmptyBody; set_cookies := clear_session_cookies a.(session_config); location := None |}, a).

Definition me (n : Z) (jar : gmap str str) (a : AuthState S) : Response :=
  match extract_access_token jar a.(session_config) with
  | None => plain_reply 401 (ErrorJson (lit "Not authenticated"))
  | Some access_token =>
      match validate_access_token n access_token a.(token_config).(secret) with
      | Err _ => plain_reply 401 (ErrorJson (lit "Invalid or expired session"))
      | Ok claims =>
          match get_user_by_id claims.(sub) a.(store) with
          | Err _ => plain_reply 401 (ErrorJson (lit "User not found"))
          | Ok user => plain_reply 200 (UserJson user)
          end
      end
  end.

(** The requests that change state, one after the other. *)
Inductive request : Type :=
  | Start (session_id state verifier : str) (n : Z)
  | Callback (f : Fresh) (code state : str)
  | Login (f : Fresh) (email password : str)
  | Refresh (f : Fresh) (jar : gmap str str)
  | Logout (n : Z) (jar : gmap str str).

Definition handle (r : request) (a : AuthState S) : Response * AuthState S :=
  match r with
  | Start session_id state verifier n => login_start session_id state verifier n a
  | Callback f code state => callback f code state a
  | Login f email password => password_login f email password a
  | Refresh f jar => refresh f jar a
  | Logout n jar => logout n jar a
  end.

Definition fresh_of (r : request) : option Fresh :=
  match r with Callback f _ _ | Login f _ _ | Refresh f _ => Some f | _ => None end.
Definition serve (rs : list request) (a : AuthState S) : AuthState S := foldl (fun a r => (handle r a).2) a rs.

End Handlers.

(** ** Refresh tokens *)

Section Theorems.
Context {Info S : Type} `{AuthStoreLaws Info S} `{Jwt}.
Context (sha256_hex : str -> str) (hmac_hex : str -> str -> str) (urlencode challenge : str -> str).
Context (exchange_code : str -> str -> result AuthError Info) (it : gmap str OidcSession -> list (str * OidcSession)).

Abbreviation hash := (hash_refresh_token sha256_hex) (only parsing).
Abbreviation do := (handle sha256_hex hmac_hex urlencode challenge exchange_code it) (only parsing).

(** What a session that is opened does to the table. *)
Lemma open_session_tokens f e1 e2 reply user a :
  let '(r, a') := open_session sha256_hex hmac_hex f e1 e2 reply user a in
  a'.(session_config) = a.(session_config) /\ a'.(token_config) = a.(token_config)
  /\ ((r = e1 \/ r = e2) /\ tokens a'.(store) = tokens a.(store)
      \/ (exists csrf cookies, r = reply csrf cookies /\ refresh_cookie a.(session_config) f.(new_refresh) a.(token_config).(refresh_token_ttl) ∈ cookies)
         /\ tokens a'.(store) = <[hash f.(new_refresh) := (user.(user_id), f.(now) + a.(token_config).(refresh_token_ttl))]> (tokens a.(store))).
Proof.
  unfold open_session. destruct (issue_access_token _ _ _ _ _ _ _) as [[token ttl]|]; [|split_and!; try done; left; auto].
  match goal with |- context [store_refresh_token ?u ?h ?e ?s] => pose proof (store_tokens u h e s) as Hs; destruct (store_refresh_token u h e s) as [[[]|] s1] end;
    cbn [fst snd] in Hs; [|split_and!; try done; left; auto].
  pose proof (login_tokens user.(user_id) s1) as Hl. destruct (on_login (user_id user) s1) as [x s2]. cbn [snd] in Hl. cbn.
  split_and!; try done. right. split; [|by rewrite Hl, Hs]. do 2 eexists. split; [done|]. right. by left.
Qed.

Lemma open_session_absent f e1 e2 reply user a h : hash f.(new_refresh) <> h -> tokens a.(store) !! h = None ->
  let a' := (open_session sha256_hex hmac_hex f e1 e2 reply user a).2 in
  tokens a'.(store) !! h = None /\ a'.(session_config) = a.(session_config).
Proof.
  intros Hne Hh. pose proof (open_session_tokens f e1 e2 reply user a) as Ho. destruct (open_session _ _ f e1 e2 reply user a) as [r a']. cbn.
  destruct Ho as (Hc & _ & [[_ ->]|[_ ->]]); [done|]. by rewrite lookup_insert_ne.
Qed.

(** A hash that is not in the table does not come back, but for a new token with the same hash. *)
Lemma handle_absent r a h : (forall g, fresh_of r = Some g -> hash g.(new_refresh) <> h) -> tokens a.(store) !! h = None ->
  tokens (do r a).2.(store) !! h = None /\ (do r a).2.(session_config) = a.(session_config).
Proof.
  intros Hf Hh. assert (Hsub : forall m, m ⊆ tokens a.(store) -> m !! h = None) by (intros m Hm; by eapply lookup_weaken_None).
  destruct r as [session_id state verifier n|f code state|f email password|f jar|n jar]; cbn [handle].
  - unfold login_start. destruct (provider a) as [p|]; [|done]. by destruct (start _ _ _ _ _ _ _ _ _ _) as [[[]|] o].
  - unfold callback. destruct (provider a) as [p|]; [|done]. destruct (get_by_state state _) as [s|]; [|done]. destruct (exchange_code _ _) as [info|]; [|done].
    cbn [store with_sessions]. pose proof (upsert_tokens info a.(store)) as Hu. destruct (upsert_user info (store a)) as [[user|] s1]; cbn in Hu |- *; [|by rewrite Hu].
    refine (open_session_absent f _ _ _ user (with_store s1 (with_sessions _ a)) h _ _); [by apply Hf|]. cbn. by rewrite Hu.
  - unfold password_login. pose proof (password_tokens email password a.(store)) as Hu.
    destruct (verify_password email password (store a)) as [[[user|]|] s1]; cbn in Hu |- *; try (by rewrite Hu).
    refine (open_session_absent f _ _ _ user (with_store s1 a) h _ _); [by apply Hf|]. cbn. by rewrite Hu.
  - unfold refresh. destruct (extract_refresh_token jar _) as [t|]; [|done].
    pose proof (consume_tokens f.(now) (hash t) a.(store)) as Hc. destruct (consume_refresh_token (now f) (hash t) (store a)) as [[uid|] s1]; cbn in Hc |- *; [|by split; [apply Hsub|]].
    destruct Hc as [_ Hc]. assert (Hd : tokens s1 !! h = None) by (rewrite Hc; apply Hsub, delete_subseteq).
    destruct (get_user_by_id uid s1) as [user|]; [|done]. refine (open_session_absent f _ _ _ user (with_store s1 a) h _ _); [by apply Hf|done].
  - unfold logout. destruct (extract_access_token jar _) as [acc|]; [|done]. destruct (validate_access_token n acc _) as [c|]; [|done]. cbn.
    pose proof (revoke_tokens c.(sub) a.(store)) as Hr. destruct (revoke_all_refresh_tokens (sub c) (store a)) as [[[]|] s1]; cbn in Hr |- *; (split; [|done]); apply Hsub; [|done].
    rewrite Hr. apply map_filter_subseteq.
Qed.

Lemma serve_absent rs : forall a h, (forall r g, r ∈ rs -> fresh_of r = Some g -> hash g.(new_refresh) <> h) -> tokens a.(store) !! h = None ->
  let a' := serve sha256_hex hmac_hex urlencode challenge exchange_code it rs a in
  tokens a'.(store) !! h = None /\ a'.(session_config) = a.(session_config).
Proof.
  induction rs as [|r rs IH]; intros a h Hf Hh; [done|]. cbn [serve foldl].
  destruct (handle_absent r a h) as [Ha Hb]; [intros g; apply Hf; by left|done|]. rewrite <- Hb. apply IH; [|done]. intros r' g Hr. apply Hf. by right.
Qed.

(** What a refresh did when it was answered with 200. *)
Lemma refresh_ok f jar a : (refresh sha256_hex hmac_hex f jar a).1.(status) = 200 ->
  exists t uid expires user csrf cookies,
    extract_refresh_token jar a.(session_config) = Some t
    /\ tokens a.(store) !! hash t = Some (uid, expires) /\ f.(now) < expires
    /\ refresh sha256_hex hmac_hex f jar a = ({| status := 200; body := SessionJson user csrf; set_cookies := cookies; location := None |}, (refresh sha256_hex hmac_hex f jar a).2)
    /\ refresh_cookie a.(session_config) f.(new_refresh) a.(token_config).(refresh_token_ttl) ∈ cookies
    /\ tokens (refresh sha256_hex hmac_hex f jar a).2.(store)
       = <[hash f.(new_refresh) := (user.(user_id), f.(now) + a.(token_config).(refresh_token_ttl))]> (delete (hash t) (tokens a.(store)))
    /\ (refresh sha256_hex hmac_hex f jar a).2.(session_config) = a.(session_config).
Proof.
  unfold refresh. destruct (extract_refresh_token jar _) as [t|]; [|done].
  pose proof (consume_tokens f.(now) (hash t) a.(store)) as Hc. destruct (consume_refresh_token (now f) (hash t) (store a)) as [[uid|] s1]; [|done]. cbn in Hc.
  destruct (get_user_by_id uid s1) as [user|]; [|done]. destruct Hc as [(expires & Ht & Hn) Hc].
  unfold issue_session_response. pose proof (open_session_tokens f (plain_reply 500 (ErrorJson (lit "Token generation failed")))
    (plain_reply 500 (ErrorJson (lit "Session creation failed")))
    (fun csrf cookies => {| status := 200; body := SessionJson user csrf; set_cookies := cookies; location := None |}) user (with_store s1 a)) as Ho.
  destruct (open_session _ _ f _ _ _ user (with_store s1 a)) as [r a']. cbn in Ho |- *. intros Hs.
  destruct Ho as (Hsc & _ & [[[-> | ->] _]|[(csrf & cookies & -> & Hck) Htok]]); [done|done|].
  exists t, uid, expires, user, csrf, cookies. rewrite Htok, Hc. done.
Qed.

(** C13: a refresh that succeeds was made with an unexpired token of the table, puts a new one in its place, of which the
    answer sets the cookie; and, whatever requests follow, the token it was made with is refused from then on, as
    long as no new token has the same hash. *)
Theorem refresh_single_use f jar a rs f' jar' :
  let '(r, a') := refresh sha256_hex hmac_hex f jar a in
  r.(status) = 200 ->
  exists t uid expires user,
    extract_refresh_token jar a.(session_config) = Some t /\ tokens a.(store) !! hash t = Some (uid, expires) /\ f.(now) < expires
    /\ tokens a'.(store) !! hash f.(new_refresh) = Some (user, f.(now) + a.(token_config).(refresh_token_ttl))
    /\ refresh_cookie a.(session_config) f.(new_refresh) a.(token_config).(refresh_token_ttl) ∈ r.(set_cookies)
    /\ (hash f.(new_refresh) <> hash t -> (forall r g, r ∈ rs -> fresh_of r = Some g -> hash g.(new_refresh) <> hash t) ->
        extract_refresh_token jar' a.(session_config) = Some t ->
        (refresh sha256_hex hmac_hex f' jar' (serve sha256_hex hmac_hex urlencode challenge exchange_code it rs a')).1
        = plain_reply 401 (ErrorJson (lit "Invalid or expired refresh token"))).
Proof.
  destruct (refresh sha256_hex hmac_hex f jar a) as [r a'] eqn:Er. intros Hs.
  pose proof (refresh_ok f jar a) as Hok. rewrite Er in Hok. destruct (Hok Hs) as (t & uid & expires & user & csrf & cookies & Ht & Htok & Hn & Heq & Hck & Htok' & Hsc).
  injection Heq as ->. cbn in Htok', Hsc |- *. exists t, uid, expires, user.(user_id). split_and!; try done; [rewrite Htok'; apply lookup_insert_eq|].
  intros Hne Hrs Hjar. destruct (serve_absent rs a' (hash t) Hrs) as [Hab Hcfg]; [rewrite Htok', lookup_insert_ne by done; apply lookup_delete_eq|].
  unfold refresh. rewrite Hcfg, Hsc, Hjar. set (a2 := serve _ _ _ _ _ _ rs a') in *.
  pose proof (consume_tokens f'.(now) (hash t) a2.(store)) as Hc. destruct (consume_refresh_token (now f') (hash t) (store a2)) as [[x|] s1]; [|done].
  cbn in Hc. destruct Hc as [(e & He & _) _]. rewrite Hab in He. done.
Qed.

(** Logging out with a valid access token leaves no refresh token of the user, if the store does what it is asked. *)
Theorem logout_revokes n jar a access c :
  extract_access_token jar a.(session_config) = Some access -> validate_access_token n access a.(token_config).(secret) = Ok c ->
  is_ok (revoke_all_refresh_tokens c.(sub) a.(store)).1 = true ->
  forall h u e, tokens (logout n jar a).2.(store) !! h = Some (u, e) -> u <> c.(sub).
Proof.
  intros Ha Hv Hr h u e. unfold logout. rewrite Ha, Hv. cbn. pose proof (revoke_tokens c.(sub) a.(store)) as Ht.
  destruct (revoke_all_refresh_tokens (sub c) (store a)) as [[[]|] s1]; [|done]. cbn in Ht |- *. rewrite Ht. intros Hx. by apply map_lookup_filter_Some in Hx as [_ Hx].
Qed.
End Theorems.

(** ** The index of states *)

(** The index has the state of every session, and nothing else; the table is not above its limit. *)
Record indexed (st : OidcSessionStore) : Prop := {
  index_exact state id : st.(state_index) !! state = Some id <-> exists s, st.(sessions) !! id = Some s /\ s.(sstate) = state;
  ids_own id s : st.(sessions) !! id = Some s -> s.(sid) = id;
  within_limit : Z.of_nat (size st.(sessions)) <= st.(max_sessions)
}.

Lemma indexed_new : indexed new_sessions.
Proof. constructor; cbn; [|done|rewrite map_size_empty; lia]. intros state id. rewrite lookup_empty. split; [done|]. intros (s & Hs & _). by rewrite lookup_empty in Hs. Qed.

Lemma delete_all_lookup (l : list str) : forall (m : gmap str str) k, foldl (fun m s => delete s m) m l !! k = if bool_decide (k ∈ l) then None else m !! k.
Proof.
  induction l as [|x l IH]; intros m k; [done|]. cbn [foldl]. rewrite IH. destruct (decide (x = k)) as [->|Hne].
  - rewrite (bool_decide_true (k ∈ k :: l)) by (by left). rewrite lookup_delete_eq. by destruct (bool_decide _).
  - rewrite lookup_delete_ne by done. rewrite (bool_decide_ext (k ∈ x :: l) (k ∈ l)); [done|]. rewrite elem_of_cons. naive_solver.
Qed.

Section Index.
Context (it : gmap str OidcSession -> list (str * OidcSession)) (it_all : forall m, it m ≡ₚ map_to_list m).
Context (urlencode challenge : str -> str).

(** Two sessions never have the same state. *)
Lemma state_inj st i j a b : indexed st -> st.(sessions) !! i = Some a -> st.(sessions) !! j = Some b -> a.(sstate) = b.(sstate) -> i = j.
Proof.
  intros [Hi _ _] Ha Hb He. assert (H1 : st.(state_index) !! a.(sstate) = Some i) by (apply Hi; eauto).
  assert (H2 : st.(state_index) !! a.(sstate) = Some j) by (apply Hi; exists b; auto). congruence.
Qed.

Lemma cleanup_indexed now st : indexed st -> indexed (cleanup it now st).
Proof.
  intros Hi. pose proof Hi as [Hx Ho Hw]. constructor; cbn [cleanup sessions state_index max_sessions].
  - intros state id. rewrite delete_all_lookup.
    assert (Hin : state ∈ map (fun kv => sstate kv.2) (filter (fun kv => expired now kv.2 = true) (it (sessions st)))
      <-> exists i s, sessions st !! i = Some s /\ sstate s = state /\ expired now s = true).
    { rewrite list_elem_of_fmap. setoid_rewrite list_elem_of_filter. setoid_rewrite it_all. split.
      - intros ([i s] & -> & He & Hm%elem_of_map_to_list). by exists i, s.
      - intros (i & s & Hs & <- & He). exists (i, s). split_and!; try done. by apply elem_of_map_to_list. }
    destruct (bool_decide_reflect (state ∈ map (fun kv => sstate kv.2) (filter (fun kv => expired now kv.2 = true) (it (sessions st))))) as [Hd|Hd].
    + apply Hin in Hd as (i & s & Hs & He & Hexp). split; [done|]. intros (s' & Hs'%map_lookup_filter_Some & He'). destruct Hs' as [Hs' Hnexp]. cbn in Hnexp.
      assert (i = id) as -> by (eapply state_inj; eauto; congruence). congruence.
    + rewrite Hx. split; intros (s & Hs & He).
      * exists s. split; [|done]. apply map_lookup_filter_Some. split; [done|]. cbn. destruct (expired now s) eqn:E; [|done]. exfalso. apply Hd, Hin. eauto 6.
      * apply map_lookup_filter_Some in Hs as [Hs _]. eauto.
  - intros id s [Hs _]%map_lookup_filter_Some. by apply Ho.
  - assert (size (filter (fun kv => expired now kv.2 = false) (sessions st)) <= size (sessions st))%nat by apply map_subseteq_size, map_filter_subseteq. lia.
Qed.

Lemma cleanup_keeps now st : max_sessions (cleanup it now st) = max_sessions st
  /\ sessions (cleanup it now st) ⊆ sessions st /\ (forall s, st.(state_index) !! s = None -> (cleanup it now st).(state_index) !! s = None).
Proof.
  split_and!; [done|apply map_filter_subseteq|]. intros s Hs. cbn. rewrite delete_all_lookup. by destruct (bool_decide _).
Qed.

Lemma start_indexed now id state verifier p extra st :
  indexed st -> st.(sessions) !! id = None -> st.(state_index) !! state = None ->
  indexed (start urlencode challenge it now id state verifier p extra st).2.
Proof.
  intros Hi Hid Hst. unfold start.
  set (st1 := if Z.of_nat (size (sessions st)) >=? max_sessions st / 2 then cleanup it now st else st).
  assert (H1 : indexed st1 /\ st1.(sessions) !! id = None /\ st1.(state_index) !! state = None).
  { unfold st1. destruct (_ >=? _); [|done]. destruct (cleanup_keeps now st) as (_ & Hs & Hx). split_and!; [by apply cleanup_indexed| |by apply Hx].
    by eapply lookup_weaken_None. }
  clearbody st1. clear st Hi Hid Hst. destruct H1 as (Hi & Hid & Hst). destruct (Z.geb_spec (Z.of_nat (size (sessions st1))) (max_sessions st1)) as [|Hlt]; [done|].
  pose proof Hi as [Hx Ho Hw]. constructor; cbn [snd sessions state_index max_sessions].
  - intros s i. rewrite lookup_insert_Some, Hx. split.
    + intros [[<- <-]|[Hne (x & Hs & He)]]; [eexists; rewrite lookup_insert_eq; done|]. exists x. split; [|done]. rewrite lookup_insert_ne; [done|]. intros <-. congruence.
    + intros (x & Hs & He). apply lookup_insert_Some in Hs as [[<- <-]|[Hne Hs]]; [by left|]. right. split; [|eauto]. cbn in He. intros <-.
      assert (st1.(state_index) !! state = Some i) by (apply Hx; eauto). congruence.
  - intros i x. rewrite lookup_insert_Some. intros [[<- <-]|[_ Hs]]; [done|by apply Ho].
  - rewrite map_size_insert_None by done. lia.
Qed.

Lemma remove_indexed id st : indexed st -> indexed (remove id st).
Proof.
  intros Hi. unfold remove. destruct (sessions st !! id) as [x|] eqn:Ex; [|done]. pose proof Hi as [Hx Ho Hw]. constructor; cbn [sessions state_index max_sessions].
  - intros s i. rewrite lookup_delete_Some, Hx. split.
    + intros [Hne (y & Hy & He)]. exists y. split; [|done]. rewrite lookup_delete_ne; [done|]. intros <-. congruence.
    + intros (y & Hy & He). apply lookup_delete_Some in Hy as [Hne Hy]. split; [|eauto]. intros Hs. apply Hne. eapply state_inj; eauto. congruence.
  - intros i y Hy. apply lookup_delete_Some in Hy as [_ Hy]. by apply Ho.
  - rewrite map_size_delete_Some by done. lia.
Qed.

Inductive oidc_op : Type :=
  | OpStart (now : Z) (id state verifier : str) (p : OidcProvider) (extra : option str)
  | OpRemove (id : str)
  | OpCleanup (now : Z).
Definition oidc_run (st : OidcSessionStore) (op : oidc_op) : OidcSessionStore :=
  match op with
  | OpStart now id state verifier p extra => (start urlencode challenge it now id state verifier p extra st).2
  | OpRemove id => remove id st
  | OpCleanup now => cleanup it now st
  end.

(** Runs in which ids and states, which are random, are new. *)
Inductive oidc_reach : OidcSessionStore -> Prop :=
  | reach_new : oidc_reach new_sessions
  | reach_op st op : oidc_reach st ->
      match op with OpStart _ id state _ _ _ => st.(sessions) !! id = None /\ st.(state_index) !! state = None | _ => True end ->
      oidc_reach (oidc_run st op).

Lemma oidc_reach_indexed st : oidc_reach st -> indexed st.
Proof.
  induction 1 as [|st op Hr IH Hop]; [apply indexed_new|]. destruct op; cbn [oidc_run]; [destruct Hop; by apply start_indexed|by apply remove_indexed|by apply cleanup_indexed].
Qed.

(** the index of states is exact whatever happens to the sessions: a callback finds a session exactly if there is one of
    that state, and it is that one; and there are never more than [max_sessions]. *)
Theorem oidc_index_exact st state s : oidc_reach st ->
  (get_by_state state st = Some s <-> exists id, st.(sessions) !! id = Some s /\ s.(sstate) = state)
  /\ Z.of_nat (size st.(sessions)) <= st.(max_sessions).
Proof.
  intros Hr. apply oidc_reach_indexed in Hr as Hi. pose proof Hi as [Hx Ho Hw]. split; [|done]. unfold get_by_state. split.
  - intros Hg. destruct (state_index st !! state) as [id|] eqn:E; [|done]. cbn in Hg. exists id. split; [done|]. apply Hx in E as (x & Hs & He). congruence.
  - intros (id & Hs & He). assert (E : st.(state_index) !! state = Some id) by (apply Hx; eauto). by rewrite E.
Qed.
End Index.

(** ** Examples *)

Module ToyStore.
(** Users by id and refresh tokens by hash. *)
Record Db := { users : gmap str AuthUser; refresh_tokens : gmap str (str * Z) }.
Definition with_tokens (t : gmap str (str * Z)) (d : Db) : Db := {| users := d.(users); refresh_tokens := t |}.

#[global] Instance api : AuthStore AuthUser Db := {|
  upsert_user u d := (Ok u, {| users := <[u.(user_id) := u]> d.(users); refresh_tokens := d.(refresh_tokens) |});
  get_user_by_id u d := ok_or Unauthorized (d.(users) !! u);
  store_refresh_token u h e d := (Ok tt, with_tokens (<[h := (u, e)]> d.(refresh_tokens)) d);
  consume_refresh_token n h d :=
    match d.(refresh_tokens) !! h with
    | Some (u, e) => if n <? e then (Ok u, with_tokens (delete h d.(refresh_tokens)) d) else (Err Unauthorized, d)
    | None => (Err Unauthorized, d)
    end;
  revoke_all_refresh_tokens u d := (Ok tt, with_tokens (filter (fun kv => kv.2.1 <> u) d.(refresh_tokens)) d);
  verify_password _ _ d := (Ok None, d);
  on_login _ d := (Ok tt, d)
|}.

Lemma consume_law n h d :
  match (consume_refresh_token n h d).1 with
  | Ok u => (exists e, d.(refresh_tokens) !! h = Some (u, e) /\ n < e) /\ (consume_refresh_token n h d).2.(refresh_tokens) = delete h d.(refresh_tokens)
  | Err _ => (consume_refresh_token n h d).2.(refresh_tokens) ⊆ d.(refresh_tokens)
  end.
Proof.
  cbn. destruct (refresh_tokens d !! h) as [[u e]|]; cbn; [|done]. destruct (Z.ltb_spec n e); cbn; [|done]. split; [by exists e|done].
Qed.

#[global] Instance laws : AuthStoreLaws.
Proof. refine {| tokens := refresh_tokens; consume_tokens := consume_law |}; done. Defined.
End ToyStore.

#[local] Instance fixed_jwt : Jwt := {|
  jwt_encode _ _ := Ok (lit "t");
  jwt_decode _ _ _ _ := Err (lit "invalid token");
  decode_header _ := Some HS256
|}.

Definition bob : AuthUser := {| user_id := lit "bob"; user_email := []; user_name := []; user_role := lit "user"; avatar_url := None; user_permissions := [] |}.
Definition jar_of (t : str) : gmap str str := <[lit "__Host-refresh" := t]> ∅.
Definition own (s : str) : str := s.
Definition mac (k m : str) : str := lit "ff".
Definition state0 : AuthState ToyStore.Db :=
  {| provider := None; oidc_sessions := new_sessions; token_config := config; session_config := production;
     store := {| ToyStore.users := <[lit "bob" := bob]> ∅; ToyStore.refresh_tokens := <[lit "r1" := (lit "bob", 5000)]> ∅ |} |}.
Definition at_time (n : Z) (t : str) : Fresh := {| now := n; new_refresh := t; csrf_random := lit "ab" |}.
Definition no_exchange (_ _ : str) : result AuthError AuthUser := Err Unauthorized.

Definition refreshed : Response * AuthState ToyStore.Db := refresh own mac (at_time 1000 (lit "r2")) (jar_of (lit "r1")) state0.

Lemma refresh_single_use_witness :
  refreshed.1.(status) = 200
  /\ (refresh own mac (at_time 1100 (lit "r4")) (jar_of (lit "r1"))
       (serve own mac own own no_exchange map_to_list [Refresh (at_time 1050 (lit "r3")) (jar_of (lit "r2"))] refreshed.2)).1
     = plain_reply 401 (ErrorJson (lit "Invalid or expired refresh token")).
Proof.
  assert (Hs : refreshed.1.(status) = 200) by (vm_compute; reflexivity). split; [exact Hs|].
  pose proof (refresh_single_use own mac own own no_exchange map_to_list (at_time 1000 (lit "r2")) (jar_of (lit "r1")) state0
    [Refresh (at_time 1050 (lit "r3")) (jar_of (lit "r2"))] (at_time 1100 (lit "r4")) (jar_of (lit "r1"))) as H.
  change (refresh own mac (at_time 1000 (lit "r2")) (jar_of (lit "r1")) state0) with refreshed in H.
  rewrite (surjective_pairing refreshed) in H. destruct (H Hs) as (t & uid & e & u & Ht & _ & _ & _ & _ & Hnext).
  assert (Ht' : t = lit "r1") by (vm_compute in Ht; injection Ht as <-; reflexivity). subst t.
  apply Hnext; [discriminate| |reflexivity]. intros r g Hr Hg. apply list_elem_of_singleton in Hr. subst r. injection Hg as <-. discriminate.
Defined.

Definition idp : OidcProvider := {| client_id := lit "c"; redirect_uri := lit "r"; scopes := lit "openid"; authorization_endpoint := lit "https://idp/a" |}.
Definition one_pending : OidcSessionStore := oidc_run map_to_list own own new_sessions (OpStart 0 (lit "i") (lit "s") (lit "v") idp None).

Lemma one_pending_reach : oidc_reach map_to_list own own one_pending.
Proof. apply reach_op; [apply reach_new|]. split; reflexivity. Qed.

Lemma oidc_index_exact_witness :
  exists s, get_by_state (lit "s") one_pending = Some s /\ (exists id, one_pending.(sessions) !! id = Some s /\ s.(sstate) = lit "s")
    /\ Z.of_nat (size one_pending.(sessions)) <= one_pending.(max_sessions).
Proof.
  assert (Hp : forall m : gmap str OidcSession, map_to_list m ≡ₚ map_to_list m) by (intros m; reflexivity).
  set (s := {| sid := lit "i"; sstate := lit "s"; code_verifier := lit "v"; created_at := 0 |}).
  assert (Hg : get_by_state (lit "s") one_pending = Some s) by (vm_compute; reflexivity). exists s.
  destruct (oidc_index_exact map_to_list Hp own own one_pending (lit "s") s one_pending_reach) as [H1 H2].
  split; [exact Hg|]. split; [apply H1; exact Hg|exact H2].
Defined.

(** A session that is older than ten minutes is found like any other, as long as nothing has cleaned up, which only happens when the
    table is half full. *)
Theorem expired_state_accepted :
  expired 1000000 {| sid := lit "i"; sstate := lit "s"; code_verifier := lit "v"; created_at := 0 |} = true
  /\ (callback own mac (fun _ _ => Ok bob) (at_time 1000000 (lit "r2")) (lit "code") (lit "s")
       {| provider := Some idp; oidc_sessions := one_pending; token_config := config; session_config := production; store := state0.(store) |}).1.(status) = 302.
Proof. vm_compute. split; reflexivity. Qed.
