(* ===== verification/Broadcast.v ===== *)
(** * Broadcast rooms

    [runesh-core/src/ws_broadcast.rs]: the registry of broadcast channels by room, the one that
    relays through Redis, and the loop of a WebSocket client.  A channel of [tokio] is the
    messages sent to it so far, of which a receiver has read up to some point and can read
    the last [capacity], the size of the channel: what the registry asks for or more, as [tokio]
    rounds it up.  (It panics if none is asked for.)  [subscribe] is two steps, [broadcast]
    through Redis too, and a relay has a step for each check, message and error; other calls
    come between them.  Only these processes publish on the channels of the rooms.  The theorems
    state what a message sent to a room reaches, and the rate at which messages of a client are
    let through. *)
From S2P Require Import Prelude Str.

#[local] Open Scope Z_scope.

(** ** Channels *)

(** A receiver: the room it was asked for, its channel, and how much it has read. *)
Record Receiver := { rx_room : str; rx_chan : Z; rx_pos : nat }.

(** [held]: the senders that a call of [subscribe] has got and not yet subscribed to. *)
Record BroadcastRegistry := {
  channels : gmap str Z;
  logs : gmap Z (list str);
  next_chan : Z;
  rxs : gmap Z Receiver;
  held : gmap Z (str * Z)
}.

Definition new_registry : BroadcastRegistry := {| channels := ∅; logs := ∅; next_chan := 0; rxs := ∅; held := ∅ |}.

Definition receiver_count (c : Z) (r : BroadcastRegistry) : Z := Z.of_nat (size (filter (fun kv => kv.2.(rx_chan) = c) r.(rxs))).
Definition log_of (c : Z) (r : BroadcastRegistry) : list str := default [] (r.(logs) !! c).

(** [Sender::send]: an error, here 0, without receivers. *)
Definition tx_send (c : Z) (message : str) (r : BroadcastRegistry) : Z * BroadcastRegistry :=
  let n := receiver_count c r in
  if n =? 0 then (0, r)
  else (n, {| channels := r.(channels); logs := <[c := log_of c r ++ [message]]> r.(logs); next_chan := r.(next_chan); rxs := r.(rxs); held := r.(held) |}).

(** [Receiver::recv]. *)
Inductive Recv : Type := Message (m : str) | Lagged (n : Z) | Waits.
Definition recv (capacity : nat) (rid : Z) (r : BroadcastRegistry) : Recv * BroadcastRegistry :=
  match r.(rxs) !! rid with
  | None => (Waits, r)
  | Some rx =>
      let log := log_of rx.(rx_chan) r in
      let at_pos p := {| channels := r.(channels); logs := r.(logs); next_chan := r.(next_chan); held := r.(held);
                         rxs := <[rid := {| rx_room := rx.(rx_room); rx_chan := rx.(rx_chan); rx_pos := p |}]> r.(rxs) |} in
      if (rx.(rx_pos) + capacity <? length log)%nat then
        (Lagged (Z.of_nat (length log - capacity - rx.(rx_pos))), at_pos (length log - capacity)%nat)
      else match log !! rx.(rx_pos) with
           | Some m => (Message m, at_pos (S rx.(rx_pos)))
           | None => (Waits, r)
           end
  end.

(** ** The registry *)

Definition get_or_create (room : str) (r : BroadcastRegistry) : Z * BroadcastRegistry :=
  match r.(channels) !! room with
  | Some c => (c, r)
  | None =>
      let c := r.(next_chan) in
      (c, {| channels := <[room := c]> r.(channels); logs := <[c := []]> r.(logs); next_chan := c + 1; rxs := r.(rxs); held := r.(held) |})
  end.

(** [subscribe], up to the end of the lock, by the task [t]; and the rest of it. *)
Definition subscribe_get (t : Z) (room : str) (r : BroadcastRegistry) : BroadcastRegistry :=
  let '(c, r) := get_or_create room r in
  {| channels := r.(channels); logs := r.(logs); next_chan := r.(next_chan); rxs := r.(rxs); held := <[t := (room, c)]> r.(held) |}.
Definition subscribe_take (t rid : Z) (r : BroadcastRegistry) : BroadcastRegistry :=
  match r.(held) !! t with
  | None => r
  | Some (room, c) =>
      {| channels := r.(channels); logs := r.(logs); next_chan := r.(next_chan); held := delete t r.(held);
         rxs := <[rid := {| rx_room := room; rx_chan := c; rx_pos := length (log_of c r) |}]> r.(rxs) |}
  end.

Definition send (room message : str) (r : BroadcastRegistry) : Z * BroadcastRegistry :=
  match r.(channels) !! room with
  | Some c => tx_send c message r
  | None => (0, r)
  end.

Definition cleanup (r : BroadcastRegistry) : BroadcastRegistry :=
  {| channels := filter (fun kv => 0 < receiver_count kv.2 r) r.(channels); logs := r.(logs); next_chan := r.(next_chan); rxs := r.(rxs); held := r.(held) |}.

(** A receiver that is dropped. *)
Definition drop_rx (rid : Z) (r : BroadcastRegistry) : BroadcastRegistry :=
  {| channels := r.(channels); logs := r.(logs); next_chan := r.(next_chan); rxs := delete rid r.(rxs); held := r.(held) |}.

(** The calls, in any order; tasks and receivers have numbers of their own. *)
Inductive step (capacity : nat) (calm : BroadcastRegistry -> Prop) : BroadcastRegistry -> BroadcastRegistry -> Prop :=
  | step_get t room r : r.(held) !! t = None -> step capacity calm r (subscribe_get t room r)
  | step_take t rid r : r.(rxs) !! rid = None -> step capacity calm r (subscribe_take t rid r)
  | step_send room m r : step capacity calm r (send room m r).2
  | step_recv rid r : step capacity calm r (recv capacity rid r).2
  | step_drop rid r : step capacity calm r (drop_rx rid r)
  | step_cleanup r : calm r -> step capacity calm r (cleanup r).

Definition reachable (capacity : nat) (calm : BroadcastRegistry -> Prop) : BroadcastRegistry -> Prop := star (step capacity calm) new_registry.

(** No call of [subscribe] is half way. *)
Definition settled (r : BroadcastRegistry) : Prop := r.(held) = ∅.
Definition anytime (r : BroadcastRegistry) : Prop := True.

(** ** What a message reaches *)

(** What a receiver has still to read. *)
Definition pending (rid : Z) (r : BroadcastRegistry) : option (list str) :=
  rx ← r.(rxs) !! rid; Some (drop rx.(rx_pos) (log_of rx.(rx_chan) r)).

Record attached (r : BroadcastRegistry) : Prop := {
  rx_attached rid rx : r.(rxs) !! rid = Some rx -> r.(channels) !! rx.(rx_room) = Some rx.(rx_chan);
  rx_read rid rx : r.(rxs) !! rid = Some rx -> (rx.(rx_pos) <= length (log_of rx.(rx_chan) r))%nat;
  held_attached t room c : r.(held) !! t = Some (room, c) -> r.(channels) !! room = Some c;
  rooms_apart room room' c : r.(channels) !! room = Some c -> r.(channels) !! room' = Some c -> room = room';
  ids_used room c : r.(channels) !! room = Some c -> c < r.(next_chan)
}.

Lemma attached_new : attached new_registry.
Proof. by constructor. Qed.

Lemma count_pos rid rx r : r.(rxs) !! rid = Some rx -> 0 < receiver_count rx.(rx_chan) r.
Proof.
  intros H. unfold receiver_count.
  assert (size (filter (fun kv : Z * Receiver => kv.2.(rx_chan) = rx.(rx_chan)) r.(rxs)) <> 0%nat); [|lia].
  apply map_size_non_empty_iff. intros He.
  assert (Hf : filter (fun kv : Z * Receiver => kv.2.(rx_chan) = rx.(rx_chan)) r.(rxs) !! rid = Some rx) by (by apply map_lookup_filter_Some).
  by rewrite He in Hf.
Qed.

(** Receivers of a room, and those of its channel. *)
Definition room_count (room : str) (r : BroadcastRegistry) : Z := Z.of_nat (size (filter (fun kv => kv.2.(rx_room) = room) r.(rxs))).

Lemma attached_chan r rid rx room c :
  attached r -> r.(channels) !! room = Some c -> r.(rxs) !! rid = Some rx -> rx.(rx_chan) = c <-> rx.(rx_room) = room.
Proof.
  intros A Hc Hrx. pose proof (rx_attached r A rid rx Hrx) as Ha. split; intros <-.
  - exact (rooms_apart r A _ _ _ Ha Hc).
  - congruence.
Qed.

Lemma counts_agree r room c : attached r -> r.(channels) !! room = Some c -> receiver_count c r = room_count room r.
Proof.
  intros A Hc. unfold receiver_count, room_count. do 2 f_equal. apply map_filter_ext.
  intros rid rx Hrx. cbn. by apply (attached_chan r rid).
Qed.

Lemma send_log room m r : attached r ->
  (send room m r).1 = room_count room r /\ (send room m r).2.(rxs) = r.(rxs) /\
  (forall rid rx, r.(rxs) !! rid = Some rx ->
    log_of rx.(rx_chan) (send room m r).2 = log_of rx.(rx_chan) r ++ (if decide (rx.(rx_room) = room) then [m] else [])).
Proof.
  intros A. unfold send. destruct (channels r !! room) as [c|] eqn:Hc.
  - rewrite <- (counts_agree r room c A Hc). unfold tx_send. destruct (receiver_count c r =? 0) eqn:H0.
    + apply Z.eqb_eq in H0. cbn. split_and!; [done..|]. intros rid rx Hrx.
      rewrite decide_False; [by rewrite app_nil_r|]. intros Hr.
      apply (attached_chan r rid rx room c A Hc Hrx) in Hr as <-. pose proof (count_pos rid rx r Hrx). lia.
    + cbn. split_and!; [done..|]. intros rid rx Hrx. unfold log_of at 1. cbn. case_decide as Hr.
      * apply (attached_chan r rid rx room c A Hc Hrx) in Hr as ->. by rewrite lookup_insert_eq.
      * rewrite lookup_insert_ne; [by rewrite app_nil_r|]. intros ->. apply Hr. by apply (attached_chan r rid rx room _ A Hc Hrx).
  - assert (Hno : forall rid rx, r.(rxs) !! rid = Some rx -> rx.(rx_room) <> room)
      by (intros rid rx Hrx <-; pose proof (rx_attached r A rid rx Hrx); congruence).
    cbn. split_and!; [|done|].
    + unfold room_count. rewrite (map_empty_filter_2 (fun kv : Z * Receiver => kv.2.(rx_room) = room) r.(rxs)); [done|].
      intros rid rx Hrx. by apply (Hno rid).
    + intros rid rx Hrx. rewrite decide_False; [by rewrite app_nil_r | by apply (Hno rid)].
Qed.

Lemma attached_send room m r : attached r -> attached (send room m r).2.
Proof.
  intros A. destruct (send_log room m r A) as (_ & Hrx & Hlog).
  assert (Hsame : channels (send room m r).2 = channels r /\ held (send room m r).2 = held r /\ next_chan (send room m r).2 = next_chan r)
    by (unfold send, tx_send; repeat case_match; done).
  destruct Hsame as (Hch & Hh & Hn). destruct A. constructor; rewrite ?Hrx, ?Hch, ?Hh, ?Hn; eauto.
  intros rid rx H. rewrite (Hlog rid rx H), length_app. pose proof (rx_read0 rid rx H). lia.
Qed.

Lemma attached_recv cap rid r : attached r -> attached (recv cap rid r).2.
Proof.
  intros A. unfold recv. destruct (rxs r !! rid) as [rx|] eqn:Hrx; [|done].
  assert (Hat : forall p, (p <= length (log_of rx.(rx_chan) r))%nat ->
    attached {| channels := r.(channels); logs := r.(logs); next_chan := r.(next_chan); held := r.(held);
                rxs := <[rid := {| rx_room := rx.(rx_room); rx_chan := rx.(rx_chan); rx_pos := p |}]> r.(rxs) |}).
  { intros p Hp. pose proof A as []. constructor; cbn; try done.
    - intros rid' rx' [[<- <-]|[_ H]]%lookup_insert_Some; [exact (rx_attached0 rid rx Hrx) | by apply (rx_attached0 rid')].
    - intros rid' rx' [[<- <-]|[_ H]]%lookup_insert_Some; [exact Hp | by apply (rx_read0 rid')]. }
  case_match; [apply Hat; lia|]. destruct (log_of _ r !! _) eqn:Hl; [|done].
  apply Hat. apply lookup_lt_Some in Hl. lia.
Qed.

Lemma attached_create room r : attached r ->
  attached (get_or_create room r).2 /\ channels (get_or_create room r).2 !! room = Some (get_or_create room r).1.
Proof.
  intros A. unfold get_or_create. destruct (channels r !! room) as [c|] eqn:Hc; [done|]. cbn.
  split; [|by rewrite lookup_insert_eq]. pose proof A as [].
  assert (Hkeep : forall room' c, channels r !! room' = Some c -> <[room := next_chan r]> (channels r) !! room' = Some c)
    by (intros; rewrite lookup_insert_ne; congruence).
  constructor; cbn; eauto.
  - intros rid rx Hrx. unfold log_of. cbn. rewrite lookup_insert_ne; [by apply (rx_read0 rid)|].
    pose proof (ids_used0 _ _ (rx_attached0 rid rx Hrx)). lia.
  - intros r1 r2 c [[<- <-]|[? Ha]]%lookup_insert_Some [[<- ?]|[? Hb]]%lookup_insert_Some; eauto;
      [pose proof (ids_used0 _ _ Hb) | pose proof (ids_used0 _ _ Ha)]; lia.
  - intros r1 c [[<- <-]|[? Ha]]%lookup_insert_Some; [lia | pose proof (ids_used0 _ _ Ha); lia].
Qed.

Lemma attached_step cap r r' : attached r -> step cap settled r r' -> attached r'.
Proof.
  intros A H. revert A. destruct H as [t room s _|t rid s _|room m s|rid s|rid s|s Hset]; intros A.
  - unfold subscribe_get. destruct (attached_create room s A) as [B Hc]. destruct (get_or_create room s) as [c s'].
    cbn in *. destruct B. constructor; cbn; eauto. intros t' room' c' [[<- [= <- <-]]|[_ H]]%lookup_insert_Some; eauto.
  - unfold subscribe_take. destruct (held s !! t) as [[room c]|] eqn:Hh; [|done]. pose proof A as []. constructor; cbn; eauto.
    + intros rid' rx' [[<- <-]|[_ H]]%lookup_insert_Some; [exact (held_attached0 t room c Hh) | by apply (rx_attached0 rid')].
    + intros rid' rx' [[<- <-]|[_ H]]%lookup_insert_Some; [done | by apply (rx_read0 rid')].
    + intros t' room' c' [_ H]%lookup_delete_Some. eauto.
  - by apply attached_send.
  - by apply attached_recv.
  - destruct A. constructor; cbn; eauto; intros rid' rx [_ H]%lookup_delete_Some; eauto.
  - pose proof A as []. constructor; cbn; eauto.
    + intros rid rx H. apply map_lookup_filter_Some. split; [by apply (rx_attached0 rid) | by apply (count_pos rid)].
    + intros t room c H. by rewrite Hset in H.
    + intros r1 r2 c [Ha _]%map_lookup_filter_Some [Hb _]%map_lookup_filter_Some. eauto.
    + intros r1 c [Ha _]%map_lookup_filter_Some. eauto.
Qed.

(** C31: As long as [cleanup] runs only between calls of [subscribe], a message sent to a room
    reaches every receiver of the room, after what the receiver has still to read, and no
    receiver of another room; [send] returns how many these are. *)
Theorem send_reaches cap r room m :
  reachable cap settled r ->
  (send room m r).1 = room_count room r /\
  (forall rid rx, r.(rxs) !! rid = Some rx -> exists before,
     pending rid r = Some before /\
     pending rid (send room m r).2 = Some (before ++ if decide (rx.(rx_room) = room) then [m] else [])).
Proof.
  intros H. assert (A : attached r) by (apply (star_invariant _ attached _ _ (attached_step cap) H), attached_new).
  destruct (send_log room m r A) as (Hn & Hrx & Hlog). split; [exact Hn|]. intros rid rx Hr.
  unfold pending. rewrite Hrx, Hr. cbn. eexists. split; [done|]. rewrite (Hlog rid rx Hr).
  by rewrite drop_app_le by exact (rx_read r A rid rx Hr).
Qed.

(** A receiver that is at most [capacity] behind reads what is pending in order; one that is
    further behind is told how much it lost, and keeps the last [capacity]. *)
Theorem recv_spec cap rid r rx before :
  r.(rxs) !! rid = Some rx -> pending rid r = Some before ->
  let '(res, r') := recv cap rid r in
  match res with
  | Message m => exists rest, before = m :: rest /\ (length before <= cap)%nat /\ pending rid r' = Some rest
  | Lagged n => (cap < length before)%nat /\ n = Z.of_nat (length before - cap) /\ pending rid r' = Some (drop (length before - cap) before)
  | Waits => before = [] /\ r' = r
  end.
Proof.
  intros Hrx Hp. assert (before = drop (rx_pos rx) (log_of (rx_chan rx) r)) as ->
    by (unfold pending in Hp; rewrite Hrx in Hp; by injection Hp).
  unfold pending, recv. rewrite Hrx. cbv zeta.
  destruct (Nat.ltb_spec (rx_pos rx + cap) (length (log_of (rx_chan rx) r))).
  - cbn. rewrite lookup_insert_eq, length_drop. cbn. split_and!; [lia | f_equal; lia |].
    rewrite drop_drop. unfold log_of at 1. cbn. fold (log_of (rx_chan rx) r). do 2 f_equal. lia.
  - destruct (log_of (rx_chan rx) r !! rx_pos rx) as [m|] eqn:Hl.
    + cbn. rewrite lookup_insert_eq. cbn. rewrite (drop_S _ _ _ Hl). eexists. split_and!; [done| |done].
      cbn. rewrite length_drop. apply lookup_lt_Some in Hl. lia.
    + split; [|done]. apply drop_ge. by apply lookup_ge_None.
Qed.

(** ** A subscriber on an abandoned channel *)

Definition lobby : str := lit "lobby".
Definition hello : str := lit "hello".

Definition reached_run : BroadcastRegistry := (send lobby hello (subscribe_take 1 7 (subscribe_get 1 lobby new_registry))).2.

Lemma reached_run_reachable : reachable 2 settled reached_run.
Proof.
  eapply star_step; [by apply (step_get _ _ 1 lobby)|]. eapply star_step; [by apply (step_take _ _ 1 7)|].
  eapply star_step; [apply (step_send _ _ lobby hello)|]. constructor.
Qed.

Lemma send_reaches_witness :
  reachable 2 settled reached_run /\ (send lobby hello reached_run).1 = 1 /\ pending 7 (send lobby hello reached_run).2 = Some [hello; hello].
Proof.
  split; [exact reached_run_reachable|]. destruct (send_reaches 2 reached_run lobby hello reached_run_reachable) as [Hn Hp]. split.
  - rewrite Hn. by vm_compute.
  - destruct (Hp 7 {| rx_room := lobby; rx_chan := 0; rx_pos := 0 |} eq_refl) as (before & Hb & ->).
    rewrite decide_True by done. vm_compute in Hb. by injection Hb as <-.
Defined.

(** [subscribe] lets go of the lock before it subscribes; a [cleanup] that comes between takes
    the channel for one without receivers, and what is then sent to the room is lost on the
    subscriber. *)
Theorem cleanup_loses_subscriber :
  exists r rx, reachable 2 anytime r /\ r.(rxs) !! 7 = Some rx /\ rx.(rx_room) = lobby /\ r.(held) = ∅ /\
    (send lobby hello r).1 = 0 /\ pending 7 (send lobby hello r).2 = Some [].
Proof.
  exists (subscribe_take 1 7 (cleanup (subscribe_get 1 lobby new_registry))), {| rx_room := lobby; rx_chan := 0; rx_pos := 0 |}.
  split; [|by vm_compute].
  eapply star_step; [by apply (step_get _ _ 1 lobby)|]. eapply star_step; [by apply (step_cleanup _ _)|].
  eapply star_step; [by apply (step_take _ _ 1 7)|]. constructor.
Qed.

(** ** Through Redis *)

(** The task that relays a Redis channel into a local one: at the head of its loop, waiting for
    a subscription, waiting for messages with those that have come and are not handled, with one
    just sent on, after an error, and at its end. *)
Inductive Stage : Type :=
  | Starting
  | Connecting
  | Listening (queue : list str)
  | Relayed (queue : list str)
  | Broken
  | Leaving.
Record Relay := { rl_room : str; rl_stage : Stage }.
Record RedisBroadcastRegistry := { local : BroadcastRegistry; relays : gmap Z Relay }.

Definition redis_channel (room : str) : str := lit "ws:room:" ++ room.

(** A channel that is new has a relay of its own, under the number of the channel. *)
Definition ensure_channel (t : Z) (room : str) (p : RedisBroadcastRegistry) : RedisBroadcastRegistry :=
  {| local := subscribe_get t room p.(local);
     relays := match p.(local).(channels) !! room with
               | Some _ => p.(relays)
               | None => <[p.(local).(next_chan) := {| rl_room := room; rl_stage := Starting |}]> p.(relays)
               end |}.
Definition redis_subscribe (t rid : Z) (p : RedisBroadcastRegistry) : RedisBroadcastRegistry :=
  {| local := subscribe_take t rid p.(local); relays := p.(relays) |}.

(** The end of the relay of the channel [c]. *)
Definition relay_exit (c : Z) (room : str) (p : RedisBroadcastRegistry) : RedisBroadcastRegistry :=
  let r := p.(local) in
  {| local := match r.(channels) !! room with
              | Some tx => if receiver_count tx r =? 0
                           then {| channels := delete room r.(channels); logs := r.(logs); next_chan := r.(next_chan); rxs := r.(rxs); held := r.(held) |}
                           else r
              | None => r
              end;
     relays := delete c p.(relays) |}.

(** [subscribe_inner]: the subscription; a message, which is sent on; and the check after it.
    [fails]: the server refuses, or the stream ends. *)
Definition subscribe_inner (fails : bool) (c : Z) (s : Stage) (r : BroadcastRegistry) : Stage * BroadcastRegistry :=
  match s with
  | Connecting => (if fails then Broken else Listening [], r)
  | Listening queue =>
      if fails then (Broken, r)
      else match queue with
           | [] => (Listening [], r)
           | payload :: queue => (Relayed queue, (tx_send c payload r).2)
           end
  | Relayed queue => (if receiver_count c r =? 0 then Leaving else Listening queue, r)
  | _ => (s, r)
  end.

(** [subscribe_loop]: the check at the head of the loop, and the one after an error, before the
    pause. *)
Definition subscribe_loop (fails : bool) (c : Z) (s : Stage) (r : BroadcastRegistry) : Stage * BroadcastRegistry :=
  match s with
  | Starting => (if receiver_count c r =? 0 then Leaving else Connecting, r)
  | Broken => (if receiver_count c r =? 0 then Leaving else Starting, r)
  | _ => subscribe_inner fails c s r
  end.

(** What the task of the channel [c] does next. *)
Definition relay_turn (fails : bool) (c : Z) (p : RedisBroadcastRegistry) : RedisBroadcastRegistry :=
  match p.(relays) !! c with
  | None => p
  | Some rl =>
      match rl.(rl_stage) with
      | Leaving => relay_exit c rl.(rl_room) p
      | s => let '(s, r) := subscribe_loop fails c s p.(local) in
             {| local := r; relays := <[c := {| rl_room := rl.(rl_room); rl_stage := s |}]> p.(relays) |}
      end
  end.

(** A message of the server on a channel comes to the relays that have subscribed to it. *)
Definition hear (channel message : str) (rl : Relay) : Relay :=
  if bool_decide (redis_channel rl.(rl_room) = channel) then
    {| rl_room := rl.(rl_room);
       rl_stage := match rl.(rl_stage) with
                   | Listening queue => Listening (queue ++ [message])
                   | Relayed queue => Relayed (queue ++ [message])
                   | s => s
                   end |}
  else rl.
Definition deliver (channel message : str) (p : RedisBroadcastRegistry) : RedisBroadcastRegistry :=
  {| local := p.(local); relays := hear channel message <$> p.(relays) |}.

Definition redis_cleanup (p : RedisBroadcastRegistry) : RedisBroadcastRegistry := {| local := cleanup p.(local); relays := p.(relays) |}.

(** The processes at one server, and the calls of [broadcast] that have yet to publish: their
    process, room and message. *)
Record Cluster := { pods : list RedisBroadcastRegistry; publishing : gmap Z (nat * str * str) }.

Definition on_pod (i : nat) (f : RedisBroadcastRegistry -> RedisBroadcastRegistry) (w : Cluster) : Cluster :=
  {| pods := alter f i w.(pods); publishing := w.(publishing) |}.

(** [broadcast] by the task [t] of the process [i]: to the local subscribers; and the rest of
    it, [up] if the server takes the message. *)
Definition broadcast_local (i : nat) (t : Z) (room message : str) (w : Cluster) : Z * Cluster :=
  match w.(pods) !! i with
  | None => (0, w)
  | Some p =>
      let '(n, r) := send room message p.(local) in
      (n, {| pods := <[i := {| local := r; relays := p.(relays) |}]> w.(pods); publishing := <[t := (i, room, message)]> w.(publishing) |})
  end.
Definition broadcast_publish (t : Z) (up : bool) (w : Cluster) : Cluster :=
  match w.(publishing) !! t with
  | None => w
  | Some (_, room, message) =>
      {| pods := if up then deliver (redis_channel room) message <$> w.(pods) else w.(pods); publishing := delete t w.(publishing) |}
  end.

(** What can happen next, in the process [i] and at the server; tasks and receivers have
    numbers of their own. *)
Inductive happening : Type :=
  | Gets (i : nat) (t : Z) (room : str)
  | Takes (i : nat) (t rid : Z)
  | Receives (i : nat) (rid : Z)
  | Leaves (i : nat) (rid : Z)
  | Cleans (i : nat)
  | Turns (i : nat) (c : Z) (fails : bool)
  | Tells (i : nat) (t : Z) (room message : str)
  | Publishes (t : Z) (up : bool).

Definition with_local (f : BroadcastRegistry -> BroadcastRegistry) (p : RedisBroadcastRegistry) : RedisBroadcastRegistry :=
  {| local := f p.(local); relays := p.(relays) |}.

Definition happen (size : nat) (e : happening) (w : Cluster) : Cluster :=
  match e with
  | Gets i t room => on_pod i (fun p => if decide (p.(local).(held) !! t = None) then ensure_channel t room p else p) w
  | Takes i t rid => on_pod i (fun p => if decide (p.(local).(rxs) !! rid = None) then redis_subscribe t rid p else p) w
  | Receives i rid => on_pod i (with_local (fun r => (recv size rid r).2)) w
  | Leaves i rid => on_pod i (with_local (drop_rx rid)) w
  | Cleans i => on_pod i redis_cleanup w
  | Turns i c fails => on_pod i (relay_turn fails c) w
  | Tells i t room message => if decide (w.(publishing) !! t = None) then (broadcast_local i t room message w).2 else w
  | Publishes t up => broadcast_publish t up w
  end.
Fixpoint after (size : nat) (es : list happening) (w : Cluster) : Cluster :=
  match es with
  | [] => w
  | e :: es => after size es (happen size e w)
  end.

Definition empty_pod : RedisBroadcastRegistry := {| local := new_registry; relays := ∅ |}.
Definition cluster (n : nat) : Cluster := {| pods := replicate n empty_pod; publishing := ∅ |}.



(** *** The channel of a room *)


























(** *** Delivery *)



























(** Two processes; a receiver of the second subscribes and its relay comes up, and the first
    broadcasts. *)
Definition joined (q : nat) : list happening := [Gets q 1 lobby; Takes q 1 7; Turns q 0 false; Turns q 0 false].
Definition told (i : nat) : list happening := [Tells i 2 lobby hello; Publishes 2 true].
Definition reader : Receiver := {| rx_room := lobby; rx_chan := 0; rx_pos := 0 |}.



(** The subscribers of the process that broadcasts get each message twice: what it publishes
    for the others comes back to its own relay. *)
Theorem own_message_echoed :
  (fun p => pending 7 p.(local)) <$> (after 2 (joined 0 ++ told 0 ++ [Turns 0 0 false]) (cluster 1)).(pods) !! 0%nat = Some (Some [hello; hello]).
Proof. by vm_compute. Qed.

(** The relay is spawned before the caller subscribes; if it runs first, it finds no receivers
    and takes the room from the registry, and the subscriber gets nothing any more. *)
Definition late : Cluster := after 2 [Gets 0 1 lobby; Turns 0 0 false; Turns 0 0 false; Takes 0 1 7] (cluster 1).
Theorem relay_exits_early : exists p rx, late.(pods) !! 0%nat = Some p /\ p.(local).(rxs) !! 7 = Some rx /\ rx.(rx_room) = lobby
  /\ p.(local).(channels) !! lobby = None /\ p.(relays) = ∅
  /\ (broadcast_local 0 2 lobby hello late).1 = 0 /\ ((fun p => pending 7 p.(local)) <$> (after 2 (told 0) late).(pods) !! 0%nat) = Some (Some []).
Proof. eexists _, reader. by vm_compute. Qed.

(** ** The loop of a client *)

(** Times in nanoseconds. *)
Record WsLimits := { max_message_size : Z; max_messages_per_sec : Z; idle_timeout_secs : Z }.
Definition default_limits : WsLimits := {| max_message_size := 65536; max_messages_per_sec := 10; idle_timeout_secs := 300 |}.

Record WsState := { msg_count : Z; rate_window_start : Z; idle_deadline : Z }.

Definition second : Z := 1000000000.
Definition ws_open (limits : WsLimits) (now : Z) : WsState :=
  {| msg_count := 0; rate_window_start := now; idle_deadline := now + limits.(idle_timeout_secs) * second |}.

(** What [select!] can pick: a broadcast (whether the client took it), a receiver that lagged
    or is closed, a text, the end of the client's stream, another frame, and the deadline. *)
Inductive WsEvent : Type := Broadcast (text : str) (sent : bool) | RecvLagged | RecvClosed | ClientText (now : Z) (text : str) | ClientClose | ClientOther | IdleTimeout.
(** What the loop does: a text for the client, or a call of [on_client_message]. *)
Inductive WsAction : Type := ToClient (text : str) | OnClientMessage (text : str).

(** The branch of a text, from the size limit on; [None]: dropped. *)
Definition on_text (limits : WsLimits) (now : Z) (text : str) (s : WsState) : option WsAction * WsState :=
  let s := {| msg_count := s.(msg_count); rate_window_start := s.(rate_window_start); idle_deadline := now + limits.(idle_timeout_secs) * second |} in
  if limits.(max_message_size) <? byte_len text then (None, s)
  else
    let '(count, start) := if 1 <=? Z.max 0 (now - s.(rate_window_start)) / second then (0, now) else (s.(msg_count), s.(rate_window_start)) in
    let count := wrap 32 (count + 1) in
    let s := {| msg_count := count; rate_window_start := start; idle_deadline := s.(idle_deadline) |} in
    if limits.(max_messages_per_sec) <? count then (None, s) else (Some (OnClientMessage text), s).

(** One turn of the loop; no state: it ends. *)
Definition ws_turn (limits : WsLimits) (e : WsEvent) (s : WsState) : list WsAction * option WsState :=
  match e with
  | Broadcast text sent => if sent then ([ToClient text], Some s) else ([], None)
  | RecvLagged => ([], Some s)
  | RecvClosed => ([], None)
  | ClientText now text => let '(a, s) := on_text limits now text s in (option_list a, Some s)
  | ClientClose => ([], None)
  | ClientOther => ([], Some s)
  | IdleTimeout => ([], None)
  end.

Fixpoint ws_broadcast_loop_with_limits (limits : WsLimits) (es : list WsEvent) (s : WsState) : list WsAction * option WsState :=
  match es with
  | [] => ([], Some s)
  | e :: es =>
      let '(acts, s) := ws_turn limits e s in
      match s with
      | None => (acts, None)
      | Some s => let '(acts', s) := ws_broadcast_loop_with_limits limits es s in (acts ++ acts', s)
      end
  end.

Definition is_call (a : WsAction) : bool := match a with OnClientMessage _ => true | ToClient _ => false end.
Definition calls (acts : list WsAction) : Z := Z.of_nat (length (List.filter is_call acts)).
(** The texts of the client come at times in a second that starts at [a]. *)
Definition within (a : Z) (e : WsEvent) : Prop := match e with ClientText now _ => a <= now < a + second | _ => True end.

Lemma calls_app l l' : calls (l ++ l') = calls l + calls l'.
Proof. unfold calls. rewrite List.filter_app, length_app. lia. Qed.

(** What is left of the window [s] is in, at most. *)
Definition budget (limits : WsLimits) (s : WsState) : Z := Z.max 0 (limits.(max_messages_per_sec) - s.(msg_count)).

Lemma on_text_rate limits now text s : 0 <= s.(msg_count) < 2 ^ 32 - 1 -> 0 <= limits.(max_messages_per_sec) ->
  let '(a, s') := on_text limits now text s in
  0 <= s'.(msg_count) <= s.(msg_count) + 1 /\
  ((s'.(rate_window_start) = s.(rate_window_start) /\ calls (option_list a) + budget limits s' <= budget limits s) \/
   (second <= now - s.(rate_window_start) /\ s'.(rate_window_start) = now /\ calls (option_list a) + budget limits s' <= limits.(max_messages_per_sec))).
Proof.
  intros Hc Hm. unfold on_text, budget. cbn [msg_count rate_window_start idle_deadline].
  destruct (max_message_size limits <? _); [cbn; split; [lia|left; split; [done|unfold calls; cbn; lia]]|].
  destruct (Z.leb_spec 1 (Z.max 0 (now - rate_window_start s) / second)) as [Hr|Hr].
  - assert (second <= now - rate_window_start s).
    { unfold second in *. pose proof (Z.mul_div_le (Z.max 0 (now - rate_window_start s)) 1000000000 ltac:(lia)). lia. }
    replace (wrap 32 (0 + 1)) with 1 by done.
    destruct (Z.ltb_spec (max_messages_per_sec limits) 1); cbn; (split; [lia|right; split_and!; [done|done|unfold calls; cbn; lia]]).
  - rewrite wrap_small by (unfold is_u; lia).
    destruct (Z.ltb_spec (max_messages_per_sec limits) (msg_count s + 1)); cbn; (split; [lia|left; split; [done|unfold calls; cbn; lia]]).
Qed.

Lemma turn_rate limits e s : 0 <= s.(msg_count) < 2 ^ 32 - 1 -> 0 <= limits.(max_messages_per_sec) ->
  let '(acts, s') := ws_turn limits e s in
  match s' with
  | None => calls acts = 0
  | Some s' =>
      0 <= s'.(msg_count) <= s.(msg_count) + 1 /\
      ((s'.(rate_window_start) = s.(rate_window_start) /\ calls acts + budget limits s' <= budget limits s) \/
       (exists now text, e = ClientText now text /\ second <= now - s.(rate_window_start) /\ s'.(rate_window_start) = now /\
          calls acts + budget limits s' <= limits.(max_messages_per_sec)))
  end.
Proof.
  intros Hc Hm. destruct e as [text [] | | |now text| | |]; cbn; try done; try (split; [lia|left; split; [done|unfold calls; cbn; lia]]).
  pose proof (on_text_rate limits now text s Hc Hm) as H. destruct (on_text limits now text s) as [a s'].
  destruct H as [H1 [H|(H & H')]]; split; [done|by left|done|right]. eauto.
Qed.

(** No call beyond the budget as long as the window stays; two windows' worth in a second. *)
Lemma loop_rate limits es s a : 0 <= s.(msg_count) -> s.(msg_count) + Z.of_nat (length es) < 2 ^ 32 - 1 -> 0 <= limits.(max_messages_per_sec) ->
  Forall (within a) es ->
  let acts := (ws_broadcast_loop_with_limits limits es s).1 in
  (a <= s.(rate_window_start) -> calls acts <= budget limits s) /\ calls acts <= budget limits s + limits.(max_messages_per_sec).
Proof.
  revert s. induction es as [|e es IH]; intros s H0 Hn Hm Hw; cbn.
  - unfold calls, budget. cbn. lia.
  - apply Forall_cons in Hw as [He Hw]. cbn [length] in Hn.
    pose proof (turn_rate limits e s ltac:(lia) Hm) as Ht. destruct (ws_turn limits e s) as [acts [s'|]].
    + destruct Ht as [Hc Ht]. specialize (IH s' ltac:(lia) ltac:(lia) Hm Hw).
      destruct (ws_broadcast_loop_with_limits limits es s') as [acts' s'']. cbn in *. rewrite calls_app. destruct IH as [IH1 IH2].
      assert (0 <= budget limits s) by (unfold budget; lia).
      destruct Ht as [[Hs Hb]|(now & text & -> & Hlate & Hs & Hb)]; cbn in *; [rewrite Hs in *; split; [intros Ha; specialize (IH1 Ha)|]; lia|].
      specialize (IH1 ltac:(lia)). split; lia.
    + cbn. assert (0 <= budget limits s) by (unfold budget; lia). lia.
Qed.

Lemma loop_count limits es s s' : 0 <= s.(msg_count) -> s.(msg_count) + Z.of_nat (length es) < 2 ^ 32 - 1 -> 0 <= limits.(max_messages_per_sec) ->
  (ws_broadcast_loop_with_limits limits es s).2 = Some s' -> 0 <= s'.(msg_count) <= s.(msg_count) + Z.of_nat (length es).
Proof.
  revert s. induction es as [|e es IH]; intros s H0 Hn Hm; cbn.
  - intros [= ->]. lia.
  - cbn [length] in Hn. pose proof (turn_rate limits e s ltac:(lia) Hm) as Ht. destruct (ws_turn limits e s) as [acts [s1|]]; [|done].
    destruct Ht as [Hc _]. specialize (IH s1 ltac:(lia) ltac:(lia) Hm).
    destruct (ws_broadcast_loop_with_limits limits es s1) as [acts' s'']. cbn in *. intros Hs. specialize (IH Hs). lia.
Qed.

(** Whatever a client has sent before, of the texts it sends in any second at most twice
    [max_messages_per_sec] come to [on_client_message]. *)
Theorem client_rate limits now before during s a :
  0 <= limits.(max_messages_per_sec) -> Z.of_nat (length (before ++ during)) < 2 ^ 32 - 1 ->
  (ws_broadcast_loop_with_limits limits before (ws_open limits now)).2 = Some s -> Forall (within a) during ->
  calls (ws_broadcast_loop_with_limits limits during s).1 <= 2 * limits.(max_messages_per_sec).
Proof.
  rewrite length_app. intros Hm Hn Hs Hw.
  pose proof (loop_count limits before (ws_open limits now) s ltac:(cbn; lia) ltac:(cbn; lia) Hm Hs) as Hc. cbn in Hc.
  destruct (loop_rate limits during s a ltac:(lia) ltac:(lia) Hm Hw) as [_ H]. unfold budget in H. lia.
Qed.

(** Ten texts at the end of a window and ten at the start of the next. *)
Definition burst (now : Z) : list WsEvent := replicate 10 (ClientText now hello).

Lemma client_rate_witness :
  Forall (within (second - 1)) (burst (second - 1) ++ burst second) /\
  calls (ws_broadcast_loop_with_limits default_limits (burst (second - 1) ++ burst second) (ws_open default_limits 0)).1 <= 20.
Proof.
  assert (Hw : Forall (within (second - 1)) (burst (second - 1) ++ burst second)).
  { apply Forall_app. split; apply Forall_replicate; unfold within, second; lia. }
  split; [exact Hw|].
  apply (client_rate default_limits 0 [] (burst (second - 1) ++ burst second) (ws_open default_limits 0) (second - 1)); [done | done | done | exact Hw].
Defined.

(** The comment calls the limit a sliding window of a second; twenty texts pass within a
    nanosecond where ten are allowed. *)
Theorem window_does_not_slide :
  default_limits.(max_messages_per_sec) = 10 /\
  calls (ws_broadcast_loop_with_limits default_limits (burst (second - 1) ++ burst second) (ws_open default_limits 0)).1 = 20.
Proof. by vm_compute. Qed.
