(* ===== verification/Pkg.v ===== *)
(** * Package managers

    The crate [runesh-pkg]: the eight package managers behind one interface, the runner of
    their commands and the parsers of what these print.  What a command answers is a
    parameter, a function of the commands run before; the state is the list of commands
    run.  The theorems state which commands a name can reach, and that the parsers read back
    what the managers print. *)
From S2P Require Import Prelude Str Path Text Fs.

#[local] Open Scope Z_scope.

(** ** The interface *)

Record PackageInfo := {
  name : str;
  version : str;
  description : option str;
  installed : bool;
  update_available : option str
}.

Record PackageResult := { success : bool; package : str; action : str; output : str; exit_code : Z }.

Inductive PkgError : Type := NotFound (s : str) | CommandFailed (s : str) | ParseError (s : str) | Io (e : IoErrorKind).

Record Command := { program : str; args : list str; envs : list (str * str) }.
(** What the system says of a command that ran; the texts are decoded. *)
Record Output := { code : option Z; stdout : str; stderr : str }.

Abbreviation cmds A := (act (list Command) PkgError A) (only parsing).

Record PackageManager := {
  manager_name : str;
  list_installed : cmds (list PackageInfo);
  search : str -> cmds (list PackageInfo);
  install : str -> cmds PackageResult;
  remove : str -> cmds PackageResult;
  upgrade : str -> cmds PackageResult;
  upgrade_all : cmds PackageResult;
  available_updates : cmds (list PackageInfo)
}.

(** ** The runner *)

Definition name_char (c : char) : bool := is_ascii_alphanumeric c || existsb (Z.eqb c) (lit "-_./@+:").

Definition validate_package_name (n : str) : result PkgError unit :=
  if bool_decide (n = []) then Ok tt
  else if 256 <? byte_len n then Err (CommandFailed (lit "package name too long"))
  else try_for (fun c _ => if negb (name_char c)
                           then Err (CommandFailed (lit "invalid character '" ++ [c] ++ lit "' in package name '" ++ n ++ lit "'"))
                           else Ok tt) n tt.

Definition require_package_name (n : str) : result PkgError unit :=
  if bool_decide (n = []) then Err (CommandFailed (lit "package name must not be empty")) else validate_package_name n.

Section Managers.
Context (os : list Command -> Command -> result str Output).

(** The call of the program. *)
Definition exec (c : str) (a : list str) (act_name pkg : str) (env : list (str * str)) : cmds PackageResult := fun h =>
  let cmd := {| program := c; args := a; envs := env |} in
  (match os h cmd with
   | Err e => Err (CommandFailed (c ++ lit ": " ++ e))
   | Ok o =>
       let combined := if bool_decide (o.(stderr) = []) then o.(stdout) else o.(stdout) ++ [c_nl] ++ o.(stderr) in
       Ok {| success := bool_decide (o.(code) = Some 0); package := pkg; action := act_name; output := combined; exit_code := default (-1) o.(code) |}
   end, h ++ [cmd]).

Definition run_pkg_command_env (c : str) (a : list str) (act_name pkg : str) (env : list (str * str)) : cmds PackageResult :=
  _ ← from_result (validate_package_name pkg);
  exec c a act_name pkg env.

Definition run_pkg_command (c : string) (a : list str) (act_name : string) (pkg : str) : cmds PackageResult :=
  run_pkg_command_env (lit c) a (lit act_name) pkg [].

(** [install], [remove] and [upgrade] of every manager. *)
Definition named (c : string) (before : list string) (act_name : string) (pkg : str) : cmds PackageResult :=
  _ ← from_result (require_package_name pkg);
  run_pkg_command c (map lit before ++ [pkg]) act_name pkg.

(** [list_installed] of most: the lines of the output, if the command succeeded. *)
Definition listing (c : string) (a : list str) (read : str -> option PackageInfo) : cmds (list PackageInfo) :=
  r ← run_pkg_command c a "list" [];
  if negb r.(success) then from_result (Err (CommandFailed r.(output)))
  else mret (omap read (lines r.(output))).

Definition installed_pkg (n v : str) : PackageInfo :=
  {| name := n; version := v; description := None; installed := true; update_available := None |}.
Definition found_pkg (n v : str) (d : option str) : PackageInfo :=
  {| name := n; version := v; description := d; installed := false; update_available := None |}.
Definition update_pkg (n v : str) (u : option str) : PackageInfo :=
  {| name := n; version := v; description := None; installed := true; update_available := u |}.

(** *** apt *)

Definition apt_installed (line : str) : option PackageInfo :=
  match split c_tab line with
  | n :: v :: status :: _ => if contains_str (lit "installed") status then Some (installed_pkg n v) else None
  | _ => None
  end.
Definition apt_found (line : str) : option PackageInfo :=
  '(n, desc) ← split_once_str (lit " - ") line; Some (found_pkg (trim n) [] (Some (trim desc))).
Definition is_bracket (c : char) : bool := (c =? c_lbracket) || (c =? c_rbracket).
Definition apt_update (line : str) : option PackageInfo :=
  if starts_with (lit "Inst ") line then
    match splitn 4 c_space line with
    | _ :: n :: v :: _ => Some (update_pkg n [] (Some (trim_matches is_bracket v)))
    | _ => None
    end
  else None.

Definition AptManager : PackageManager := {|
  manager_name := lit "apt";
  list_installed := listing "dpkg-query" [lit "-W"; lit "-f=${Package}" ++ [c_tab] ++ lit "${Version}" ++ [c_tab] ++ lit "${Status}" ++ [c_nl]] apt_installed;
  search := fun query =>
    r ← run_pkg_command "apt-cache" [lit "search"; lit "--names-only"; query] "search" query;
    mret (omap apt_found (lines r.(output)));
  install := named "apt-get" ["install"; "-y"]%string "install";
  remove := named "apt-get" ["remove"; "-y"]%string "remove";
  upgrade := named "apt-get" ["install"; "-y"; "--only-upgrade"]%string "upgrade";
  upgrade_all := run_pkg_command "apt-get" (map lit ["upgrade"; "-y"]%string) "upgrade" (lit "all");
  available_updates :=
    r ← run_pkg_command "apt-get" (map lit ["-s"; "upgrade"]%string) "check-updates" [];
    mret (omap apt_update (lines r.(output)))
|}.

(** *** dnf *)

Definition rpm_installed (line : str) : option PackageInfo := '(n, v) ← split_once c_tab line; Some (installed_pkg n v).
Definition rpm_query : list str := [lit "-qa"; lit "--queryformat"; lit "%{NAME}" ++ [c_tab] ++ lit "%{VERSION}-%{RELEASE}" ++ [c_nl]].
Definition before_dot (n : str) : str := default n (head (split c_dot n)).
Definition dnf_found (line : str) : option PackageInfo :=
  '(n, desc) ← split_once_str (lit " : ") line; Some (found_pkg (before_dot n) [] (Some (trim desc))).
Definition dnf_update (line : str) : option PackageInfo :=
  match split_whitespace line with
  | n :: v :: _ => if negb (bool_decide (line = [])) && negb (starts_with (lit "Last metadata") line)
                   then Some (update_pkg (before_dot n) [] (Some v)) else None
  | _ => None
  end.

Definition DnfManager : PackageManager := {|
  manager_name := lit "dnf";
  list_installed := listing "rpm" rpm_query rpm_installed;
  search := fun query =>
    r ← run_pkg_command "dnf" [lit "search"; lit "--quiet"; query] "search" query;
    mret (omap dnf_found (lines r.(output)));
  install := named "dnf" ["install"; "-y"]%string "install";
  remove := named "dnf" ["remove"; "-y"]%string "remove";
  upgrade := named "dnf" ["upgrade"; "-y"]%string "upgrade";
  upgrade_all := run_pkg_command "dnf" (map lit ["upgrade"; "-y"]%string) "upgrade" (lit "all");
  available_updates :=
    r ← run_pkg_command "dnf" (map lit ["check-update"; "--quiet"]%string) "check-updates" [];
    mret (omap dnf_update (lines r.(output)))
|}.

(** *** pacman *)

Definition two_words (line : str) : option PackageInfo :=
  match split_whitespace line with
  | [] => None
  | n :: rest => Some (installed_pkg n (default [] (head rest)))
  end.


(** *** apk *)

(** The last hyphen before a digit. *)
Fixpoint split_version (s : str) : option (str * str) :=
  match s with
  | [] => None
  | c :: r =>
      match split_version r with
      | Some (a, b) => Some (c :: a, b)
      | None => if (c =? c_minus) && match r with d :: _ => is_ascii_digit d | [] => false end then Some ([], r) else None
      end
  end.
Definition name_version (s : str) : str * str := default (s, []) (split_version s).
Definition apk_installed (line : str) : option PackageInfo :=
  '(name_ver, _) ← split_once_str (lit " {") line;
  let '(n, v) := name_version name_ver in Some (installed_pkg n v).


(** *** zypper *)



(** *** brew *)

Definition brew_update (line : str) : option PackageInfo :=
  n ← head (split_whitespace line);
  Some (update_pkg n [] (trim <$> split_second (lit "< ") line)).

Definition BrewManager : PackageManager := {|
  manager_name := lit "brew";
  list_installed := listing "brew" (map lit ["list"; "--versions"]%string) two_words;
  search := fun query =>
    r ← run_pkg_command "brew" [lit "search"; query] "search" query;
    mret (map (fun l => found_pkg (trim l) [] None) (filter (fun l => l <> [] /\ starts_with (lit "==>") l = false) (lines r.(output))));
  install := named "brew" ["install"]%string "install";
  remove := named "brew" ["uninstall"]%string "remove";
  upgrade := named "brew" ["upgrade"]%string "upgrade";
  upgrade_all := run_pkg_command "brew" [lit "upgrade"] "upgrade" (lit "all");
  available_updates :=
    r ← run_pkg_command "brew" (map lit ["outdated"; "--verbose"]%string) "check-updates" [];
    mret (omap brew_update (lines r.(output)))
|}.

(** *** FreeBSD pkg *)



(** *** winget *)


Definition strip_bom (s : str) : str := default s (strip_prefix [0xFEFF] s).

Definition is_separator (l : str) : bool := forallb (fun c => (c =? c_minus) || (c =? c_space)) l && contains_str (lit "---") l.

(** The header and the rows: what is before the first separator and after it. *)
Fixpoint table_of (before : option str) (ls : list str) : option (str * list str) :=
  match ls with
  | [] => None
  | l :: rest => if is_separator l then header ← before; Some (strip_bom header, rest) else table_of (Some l) rest
  end.

Definition column (h what msg : str) : result PkgError Z := ok_or (ParseError msg) (find_str what h).

Definition winget_row (is_installed : bool) (id_start version_start : Z) (line : str) : option PackageInfo :=
  if (version_start <? byte_len line) && negb (bool_decide (trim line = [])) then
    n ← trim <$> get_range 0 id_start line;
    id ← trim <$> get_range id_start version_start line;
    rest ← trim <$> get_from version_start line;
    let v := default [] (head (split_whitespace rest)) in
    if bool_decide (id = []) then None
    else Some {| name := if bool_decide (n = []) then id else n; version := v; description := None;
                 installed := is_installed; update_available := None |}
  else None.

Definition parse_winget_table (out : str) (is_installed : bool) : result PkgError (list PackageInfo) :=
  match table_of None (lines (strip_bom out)) with
  | None => Ok []
  | Some (header, rows) =>
      id_start ← column header (lit "Id") (lit "winget header missing 'Id' column");
      version_start ← column header (lit "Version") (lit "winget header missing 'Version' column");
      if negb (contains_str (lit "Name") header) then Err (ParseError (lit "winget header missing 'Name' column"))
      else Ok (omap (winget_row is_installed id_start version_start) rows)
  end.



(** An entry of the registry: what its values are, where they can be read. *)
Record RegEntry := { DisplayName : option str; SystemComponent : option Z; DisplayVersion : option str; Publisher : option str }.
Definition enumerate (entries : list (option RegEntry)) : list PackageInfo :=
  omap (fun entry =>
    e ← entry;
    let n := default [] e.(DisplayName) in
    if bool_decide (n = []) then None
    else if default 0 e.(SystemComponent) =? 1 then None
    else
      let p := default [] e.(Publisher) in
      Some {| name := n; version := default [] e.(DisplayVersion); description := if bool_decide (p = []) then None else Some p;
              installed := true; update_available := None |}) entries.
(** The three keys; a key that cannot be opened has no entries. *)
Definition registry_list (local_machine wow current_user : list (option RegEntry)) : list PackageInfo :=
  enumerate local_machine ++ enumerate wow ++ enumerate current_user.



(** ** Which manager *)

Inductive PkgManagerType : Type := Apt | Dnf | Yum | Pacman | Apk | Zypper | Emerge | Brew | Winget | Pkg.
Inductive Os : Type := Windows | MacOs | FreeBsd | Linux.

(** [which]: [PATH], if it is set, and the files that exist. *)
Definition which (system : Os) (search_path : option str) (exists_file : path -> bool) (n : string) : bool :=
  match search_path with
  | None => false
  | Some p =>
      let sep := match system with Windows => 59 | _ => c_colon end in
      existsb (fun dir => exists_file (join_path (components dir) (components (lit n)))
                          || match system with Windows => exists_file (join_path (components dir) (components (lit n ++ lit ".exe"))) | _ => false end)
        (split sep p)
  end.

Definition linux_checks : list (PkgManagerType * string) :=
  [(Apt, "apt-get"); (Dnf, "dnf"); (Yum, "yum"); (Pacman, "pacman"); (Apk, "apk"); (Zypper, "zypper"); (Emerge, "emerge")]%string.

Definition detect (system : Os) (search_path : option str) (exists_file : path -> bool) : option PkgManagerType :=
  let which := which system search_path exists_file in
  match system with
  | Windows => Some Winget
  | MacOs => if which "brew"%string then Some Brew else None
  | FreeBsd => if which "pkg"%string then Some Pkg else None
  | Linux => fst <$> head (filter (fun tb => which tb.2 = true) linux_checks)
  end.


End Managers.

(** ** The commands a name reaches *)






Section Theorems.
Context (os : list Command -> Command -> result str Output).










(** The manager is that of the first of the known programs that is found. *)
Theorem detect_first search_path exists_file t :
  detect Linux search_path exists_file = Some t <->
  exists before b after, linux_checks = before ++ (t, b) :: after /\ which Linux search_path exists_file b = true /\
    Forall (fun tb => which Linux search_path exists_file tb.2 = false) before.
Proof.
  unfold detect. generalize linux_checks as l. set (w := which Linux search_path exists_file). intros l. split.
  - induction l as [|[t' b] l IH]; [done|]. destruct (w b) eqn:Hb.
    + rewrite filter_cons_True by done. intros [= <-]. by exists [], b, l.
    + rewrite filter_cons_False by (cbn; congruence). intros H. destruct (IH H) as (bf & b' & af & -> & Hw & Hf).
      exists ((t', b) :: bf), b', af. split_and!; [done|done|]. by constructor.
  - intros (bf & b & af & -> & Hw & Hf). induction Hf as [|[t' b'] bf Hb _ IH].
    + by rewrite app_nil_l, filter_cons_True.
    + cbn [app]. by rewrite filter_cons_False by (cbn in *; congruence).
Qed.

(** ** Listings *)

Definition printed (ls : list str) : result str Output := Ok {| code := Some 0; stdout := unlines ls; stderr := [] |}.

Lemma listing_reads c a read ls h :
  os h {| program := lit c; args := a; envs := [] |} = printed ls -> Forall one_line ls ->
  (listing os c a read h).1 = Ok (omap read ls).
Proof.
  intros Ho Hl. unfold listing, run_pkg_command, run_pkg_command_env, exec, mbind, act_bind, from_result.
  change (validate_package_name []) with (@Ok PkgError unit tt). cbv beta iota zeta. rewrite Ho. unfold printed. cbn [code stdout stderr success output].
  rewrite !bool_decide_eq_true_2 by done. cbn [negb success output fst]. unfold mret, act_ret. cbn [fst]. by rewrite lines_unlines.
Qed.

(** A field of a line of [dpkg-query] or [rpm]. *)
Definition field (s : str) : Prop := contains_char c_tab s = false /\ contains_char c_nl s = false.

Lemma omap_map_some {A B C} (f : A -> B) (g : B -> option C) (k : A -> C) l :
  (forall x, x ∈ l -> g (f x) = Some (k x)) -> omap g (map f l) = map k l.
Proof.
  induction l as [|x l IH]; intros H; [done|]. cbn. rewrite (H x) by left. by rewrite IH by (intros y Hy; apply H; by right).
Qed.

(** What [dpkg-query] and [rpm] print of the installed packages is read back: the names and
    versions, in order. *)
Theorem listing_roundtrip pkgs h :
  Forall (fun nv => field nv.1 /\ field nv.2) pkgs ->
  (let line nv := nv.1 ++ [c_tab] ++ nv.2 ++ [c_tab] ++ lit "install ok installed" in
   os h {| program := lit "dpkg-query"; args := [lit "-W"; lit "-f=${Package}" ++ [c_tab] ++ lit "${Version}" ++ [c_tab] ++ lit "${Status}" ++ [c_nl]]; envs := [] |}
     = printed (map line pkgs) ->
   ((AptManager os).(list_installed) h).1 = Ok (map (fun nv => installed_pkg nv.1 nv.2) pkgs)) /\
  (let line nv := nv.1 ++ [c_tab] ++ nv.2 in
   Forall (fun nv => last nv.2 <> Some c_cr /\ nv.2 <> []) pkgs ->
   os h {| program := lit "rpm"; args := rpm_query; envs := [] |} = printed (map line pkgs) ->
   ((DnfManager os).(list_installed) h).1 = Ok (map (fun nv => installed_pkg nv.1 nv.2) pkgs)).
Proof.
  intros Hf. rewrite Forall_forall in Hf. split.
  - intros line Ho. cbn [AptManager list_installed]. rewrite (listing_reads _ _ _ _ _ Ho).
    + f_equal. apply omap_map_some. intros [n v] [[Hn _] [Hv _]]%Hf. cbn in *. unfold apt_installed, line. cbn.
      by rewrite !split_app.
    + apply Forall_forall. intros l (nv & -> & Hin)%list_elem_of_fmap. destruct (Hf nv Hin) as [[_ Hn] [_ Hv]]. split.
      * unfold line. rewrite !contains_char_app, Hn, Hv. done.
      * unfold line. by rewrite !last_app.
  - intros line Hcr Ho. rewrite Forall_forall in Hcr. cbn [DnfManager list_installed]. rewrite (listing_reads _ _ _ _ _ Ho).
    + f_equal. apply omap_map_some. intros [n v] [[Hn _] _]%Hf. unfold rpm_installed, line. cbn in *. by rewrite split_once_app.
    + apply Forall_forall. intros l (nv & -> & Hin)%list_elem_of_fmap. destruct (Hf nv Hin) as [[_ Hn] [_ Hv]].
      destruct (Hcr nv Hin) as [Hl Hne]. split.
      * unfold line. by rewrite !contains_char_app, Hn, Hv.
      * unfold line. rewrite app_assoc, last_app. destruct (last nv.2) eqn:E; [congruence|]. by apply last_None in E.
Qed.

End Theorems.

(** ** The table of winget *)

Lemma trim_start_elem c s : c ∈ s -> is_whitespace c = false -> c ∈ trim_start s.
Proof.
  intros Hc Hw. induction s as [|d s IH]; [done|]. cbn [trim_start]. destruct (is_whitespace d) eqn:Hd; [|done].
  apply elem_of_cons in Hc as [->|Hc]; [congruence|auto].
Qed.

Lemma trim_nonempty c s : c ∈ s -> is_whitespace c = false -> trim s <> [].
Proof.
  intros Hc Hw H. assert (Ht : c ∈ trim s); [|by rewrite H in Ht; apply not_elem_of_nil in Ht].
  unfold trim, trim_end. apply list_elem_of_In, in_rev. rewrite rev_involutive. apply list_elem_of_In, trim_start_elem; [|done].
  apply list_elem_of_In. rewrite <- in_rev. by apply list_elem_of_In, trim_start_elem.
Qed.

(** A row that fits columns of [wn] and [wi]. *)
Definition row_ok (wn wi : nat) (row : str * str * str) : Prop :=
  let '(n, id, v) := row in
  (ascii n /\ trimmed n /\ contains_char c_nl n = false /\ (length n <= wn)%nat) /\
  (ascii id /\ trimmed id /\ contains_char c_nl id = false /\ (length id <= wi)%nat) /\ word v.
Definition print_row (wn wi : nat) (row : str * str * str) : str := let '(n, id, v) := row in pad wn n ++ pad wi id ++ v.
Definition header (wn wi : nat) : str := pad wn (lit "Name") ++ pad wi (lit "Id") ++ lit "Version".

Lemma contains_repeat c d k : c <> d -> contains_char c (repeat d k) = false.
Proof.
  intros Hc. apply not_true_iff_false. unfold contains_char. rewrite existsb_exists. intros (x & Hx & Heq%Z.eqb_eq).
  apply repeat_spec in Hx. congruence.
Qed.

Lemma contains_pad c w s : c <> c_space -> contains_char c s = false -> contains_char c (pad w s) = false.
Proof.
  intros Hc Hs. unfold pad. rewrite contains_char_app, Hs. by apply contains_repeat.
Qed.

Lemma word_line v : word v -> contains_char c_nl v = false /\ last v <> Some c_cr.
Proof.
  intros Hw. pose proof (word_trimmed v Hw) as (_ & _ & Hl). destruct Hw as [Hne Hw]. split.
  - unfold contains_char. apply not_true_iff_false. rewrite existsb_exists. intros (c & Hc & Heq%Z.eqb_eq). subst c.
    rewrite forallb_forall in Hw. by specialize (Hw c_nl Hc).
  - intros E. by specialize (Hl _ E).
Qed.

Lemma last_app_ne {A} (a b : list A) : b <> [] -> last (a ++ b) = last b.
Proof. intros Hb. rewrite last_app. destruct (last b) eqn:E; [done|]. by apply last_None in E. Qed.

Lemma print_row_line wn wi row : row_ok wn wi row -> one_line (print_row wn wi row).
Proof.
  destruct row as [[n id] v]. intros ((_ & _ & Hn & _) & (_ & _ & Hi & _) & Hv). destruct (word_line v Hv) as [Hvn Hvl].
  destruct Hv as [Hne _]. unfold print_row. split.
  - by rewrite !contains_char_app, !contains_pad, Hvn.
  - rewrite !last_app_ne; [done|done|]. by destruct v, (pad wi id).
Qed.

Lemma header_line wn wi : one_line (header wn wi).
Proof.
  unfold header. split.
  - by rewrite !contains_char_app, !contains_pad.
  - rewrite !last_app_ne; [done|done|]. by destruct (pad wi (lit "Id")).
Qed.

Lemma header_columns wn wi : (4 <= wn)%nat -> (2 <= wi)%nat ->
  find_str (lit "Id") (header wn wi) = Some (Z.of_nat wn) /\
  find_str (lit "Version") (header wn wi) = Some (Z.of_nat wn + Z.of_nat wi) /\
  contains_str (lit "Name") (header wn wi) = true.
Proof.
  intros Hwn Hwi. assert (Hb : byte_len (pad wn (lit "Name")) = Z.of_nat wn) by (apply byte_len_pad; [by repeat constructor | done]).
  assert (Hb2 : byte_len (pad wi (lit "Id")) = Z.of_nat wi) by (apply byte_len_pad; [by repeat constructor | done]).
  unfold header, find_str, contains_str. split_and!.
  - unfold pad at 2. rewrite <- (app_assoc (lit "Id")). rewrite (split_once_str_skip 73 (lit "d")) by (by apply contains_pad). cbn [mbind option_bind]. by rewrite Hb.
  - rewrite app_assoc. rewrite <- (app_nil_r (lit "Version")).
    rewrite (split_once_str_skip 86 (lit "ersion")) by (by rewrite contains_char_app, !contains_pad). cbn [mbind option_bind]. by rewrite byte_len_app, Hb, Hb2.
  - apply bool_decide_eq_true_2. unfold pad at 1. rewrite <- (app_assoc (lit "Name") (repeat c_space (wn - length (lit "Name"))) (pad wi (lit "Id") ++ lit "Version")).
    by rewrite split_once_str_here.
Qed.

Lemma winget_row_reads is_installed wn wi n id v : row_ok wn wi (n, id, v) ->
  winget_row is_installed (Z.of_nat wn) (Z.of_nat wn + Z.of_nat wi) (print_row wn wi (n, id, v)) =
  Some {| name := n; version := v; description := None; installed := is_installed; update_available := None |}.
Proof.
  intros ((Han & Htn & _ & Hln) & (Hai & Hti & _ & Hli) & Hv). pose proof Hv as [Hvne _].
  assert (Hbn : byte_len (pad wn n) = Z.of_nat wn) by (by apply byte_len_pad).
  assert (Hbi : byte_len (pad wi id) = Z.of_nat wi) by (by apply byte_len_pad).
  unfold winget_row, print_row.
  assert (Hlong : Z.of_nat wn + Z.of_nat wi < byte_len (pad wn n ++ pad wi id ++ v)).
  { rewrite !byte_len_app, Hbn, Hbi. destruct v as [|c v]; [done|]. cbn. pose proof (len_utf8_pos c). pose proof (byte_len_nonneg v). lia. }
  rewrite (proj2 (Z.ltb_lt _ _) Hlong). rewrite bool_decide_eq_false_2.
  2: { pose proof Htn as (Hne & Hh & _). destruct n as [|c n]; [done|]. apply (trim_nonempty c); [by left | by apply Hh]. }
  cbn [andb negb]. pose proof (get_range_app [] (pad wn n) (pad wi id ++ v)) as H1. cbn [byte_len app] in H1. rewrite Z.add_0_l, Hbn in H1.
  pose proof (get_range_app (pad wn n) (pad wi id) v) as H2. rewrite Hbn, Hbi in H2.
  pose proof (get_from_app (pad wn n ++ pad wi id) v) as H3. rewrite byte_len_app, Hbn, Hbi, <- app_assoc in H3.
  rewrite H1, H2, H3. cbn [mbind option_bind fmap option_fmap option_map]. rewrite (trim_pad wn n), (trim_pad wi id), (trim_trimmed v), words_one by auto using word_trimmed. cbn [head default from_option].
  destruct Hti as [Hine _], Htn as [Hnne _]. by rewrite !bool_decide_eq_false_2.
Qed.

Lemma header_not_separator wn wi : is_separator (header wn wi) = false.
Proof. done. Qed.

(** A table of winget, in columns as wide as its names and identifiers, is read back row by
    row, when its texts are ASCII. *)
Theorem winget_table_roundtrip is_installed wn wi dashes rows :
  (4 <= wn)%nat -> (2 <= wi)%nat -> (3 <= dashes)%nat -> Forall (row_ok wn wi) rows ->
  parse_winget_table (unlines (header wn wi :: repeat c_minus dashes :: map (print_row wn wi) rows)) is_installed =
  Ok (map (fun '(n, id, v) => {| name := n; version := v; description := None; installed := is_installed; update_available := None |}) rows).
Proof.
  intros Hwn Hwi Hd Hrows. unfold parse_winget_table.
  replace (strip_bom _) with (unlines (header wn wi :: repeat c_minus dashes :: map (print_row wn wi) rows)) by done.
  rewrite lines_unlines.
  2: { constructor; [apply header_line|]. constructor.
       - split; [by apply contains_repeat|].
         intros H. apply last_Some in H as [l Hl]. assert (Hin : In c_cr (repeat c_minus dashes)) by (rewrite Hl; apply in_or_app; right; by left).
         by apply repeat_spec in Hin.
       - apply Forall_fmap. eapply Forall_impl; [exact Hrows|]. intros row Hr. by apply print_row_line. }
  assert (Hsep : is_separator (repeat c_minus dashes) = true).
  { unfold is_separator. apply andb_true_iff. split; [clear; by induction dashes|].
    destruct dashes as [|[|[|k]]]; [lia..|]. unfold contains_str. by change (repeat c_minus (S (S (S k)))) with (lit "---" ++ repeat c_minus k). }
  cbn [table_of]. rewrite header_not_separator, Hsep. cbn [mbind option_bind].
  replace (strip_bom (header wn wi)) with (header wn wi) by done. unfold column.
  destruct (header_columns wn wi Hwn Hwi) as (H1 & H2 & H3). rewrite H1, H2, H3. cbn [ok_or mbind result_bind negb]. f_equal.
  apply omap_map_some. intros [[n id] v] Hin. rewrite Forall_forall in Hrows. apply winget_row_reads. by apply Hrows.
Qed.

(** ** Concrete runs *)

Definition silent (h : list Command) (c : Command) : result str Output := printed [].
Definition prints (ls : list str) (h : list Command) (c : Command) : result str Output := printed ls.


Definition two_pkgs : list (str * str) := [(lit "bash", lit "5.2-1"); (lit "zlib", lit "1.3")].

Lemma listing_roundtrip_witness :
  Forall (fun nv => field nv.1 /\ field nv.2) two_pkgs /\
  ((AptManager (prints (map (fun nv => nv.1 ++ [c_tab] ++ nv.2 ++ [c_tab] ++ lit "install ok installed") two_pkgs))).(list_installed) []).1
    = Ok [installed_pkg (lit "bash") (lit "5.2-1"); installed_pkg (lit "zlib") (lit "1.3")].
Proof.
  assert (Hf : Forall (fun nv => field nv.1 /\ field nv.2) two_pkgs) by (repeat constructor). split; [exact Hf|].
  destruct (listing_roundtrip (prints (map (fun nv => nv.1 ++ [c_tab] ++ nv.2 ++ [c_tab] ++ lit "install ok installed") two_pkgs)) two_pkgs [] Hf) as [H _].
  apply H. reflexivity.
Defined.

Definition a_row : str * str * str := (lit "Visual Studio", lit "Microsoft.VisualStudio", lit "17.9.6").

Lemma winget_table_roundtrip_witness :
  row_ok 17 24 a_row /\
  parse_winget_table (unlines (header 17 24 :: repeat c_minus 59 :: map (print_row 17 24) [a_row])) true =
  Ok [installed_pkg (lit "Visual Studio") (lit "17.9.6")].
Proof.
  assert (Hr : row_ok 17 24 a_row).
  { repeat split; try (apply (bool_decide_unpack _); by vm_compute); try done; by intros c [= <-]. }
  split; [exact Hr|]. refine (winget_table_roundtrip true 17 24 59 [a_row] _ _ _ _); [lia|lia|lia|by constructor].
Defined.

(** A name may begin with a hyphen: the package manager takes it for an option. *)
Theorem option_as_name :
  ((AptManager silent).(remove) (lit "--purge") []).2 = [{| program := lit "apt-get"; args := map lit ["remove"; "-y"; "--purge"]%string; envs := [] |}].
Proof. reflexivity. Qed.

(** The text of a search is checked as a package name: one with a space is refused. *)
Theorem search_needs_name os query h : contains_char c_space query = true -> byte_len query <= 256 ->
  exists e, (AptManager os).(search) query h = (Err e, h) /\ (BrewManager os).(search) query h = (Err e, h).
Proof.
  intros Hc Hl. assert (Hv : exists e, validate_package_name query = Err e).
  { destruct (validate_package_name query) as [[]|e] eqn:E; [|by eauto]. unfold validate_package_name in E.
    case_bool_decide as Hn; [by subst|]. rewrite (proj2 (Z.ltb_ge _ _) Hl) in E. rewrite try_for_unit in E.
    unfold contains_char in Hc. apply existsb_exists in Hc as (c & Hin & ->%Z.eqb_eq). specialize (E c_space ltac:(by apply list_elem_of_In)). done. }
  destruct Hv as [e He]. exists e. unfold AptManager, BrewManager, search, run_pkg_command, run_pkg_command_env, mbind, act_bind, from_result. by rewrite He.
Qed.

(** Of an update that [apt-get -s upgrade] announces, the version reported is the one that is
    installed. *)
Theorem apt_reports_old_version :
  apt_update (lit "Inst libc6 [2.31-0ubuntu9] (2.31-0ubuntu9.2 Ubuntu:20.04/focal-updates [amd64])")
  = Some (update_pkg (lit "libc6") [] (Some (lit "2.31-0ubuntu9"))).
Proof. reflexivity. Qed.

(** A package that was removed, or never finished installing, counts as installed. *)
Theorem apt_lists_removed :
  is_Some (apt_installed (lit "vim" ++ [c_tab; c_tab] ++ lit "unknown ok not-installed")) /\
  is_Some (apt_installed (lit "vim" ++ [c_tab] ++ lit "2:8" ++ [c_tab] ++ lit "install reinstreq half-installed")).
Proof. split; vm_compute; eauto. Qed.

(** The line of [apk list] has the architecture after the version, and the version read has it
    too. *)
Theorem apk_version_has_arch :
  apk_installed (lit "musl-1.2.4-r2 x86_64 {musl} (MIT) [installed]") = Some (installed_pkg (lit "musl") (lit "1.2.4-r2 x86_64")).
Proof. reflexivity. Qed.

(** What a command prints on its error stream is read with the rest: a warning becomes a
    package. *)
Definition warns (h : list Command) (c : Command) : result str Output :=
  Ok {| code := Some 0; stdout := unlines [lit "git 2.44.0"]; stderr := unlines [lit "Warning: outdated"] |}.
Theorem warning_as_package :
  ((BrewManager warns).(list_installed) []).1 = Ok [installed_pkg (lit "git") (lit "2.44.0"); installed_pkg (lit "Warning:") (lit "outdated")].
Proof. reflexivity. Qed.

(** The columns of winget are positions on the screen, those of the parser are bytes: a row with
    letters outside ASCII is read with a wrong name and version. *)
Theorem winget_wide_letters :
  parse_winget_table (unlines [header 5 6; lit "--------------------"; pad 5 (lit "Caf" ++ [233; 233]) ++ pad 6 (lit "a.Caf") ++ lit "1.0"]) true
  = Ok [installed_pkg (lit "Caf" ++ [233]) (lit "f")].
Proof. vm_compute. reflexivity. Qed.
