(* ===== verification/Winget.v ===== *)
(** * The WinGet source

    The crate [runesh-winget]: the package repository and its search, the checks of manifests
    and the handlers of the REST source with their token.  The URL parser, serde and
    [str::to_lowercase] are parameters.  The theorems state what a search returns, that only
    holders of the token change the repository, and that it holds only valid manifests. *)
From S2P Require Import Prelude Str Utf8 Text.

#[local] Open Scope Z_scope.

(** ** Manifests *)

Inductive ManifestError : Type := InvalidHash | InvalidUrl (s : str) | HttpNotAllowed.
Record ManifestPolicy := { allow_http : bool }.

Inductive Architecture : Type := X86 | X64 | Arm64 | Neutral.
Inductive InstallerType : Type := Exe | Msi | Msix | Inno | Nullsoft | Wix | Burn | Zip | Portable.
Inductive Scope : Type := User | Machine.
Record InstallerSwitches := { silent : option str; silent_with_progress : option str }.

Record DefaultLocale := {
  package_locale : str;
  publisher : str;
  package_name : str;
  short_description : str;
  publisher_url : option str;
  package_url : option str;
  license : option str;
  moniker : option str;
  tags : list str
}.

Record Installer := {
  architecture : Architecture;
  installer_type : InstallerType;
  installer_url : str;
  installer_sha256 : str;
  scope : option Scope;
  installer_switches : option InstallerSwitches;
  product_code : option str
}.

(** A locale of [locales] is the text of its JSON. *)
Record PackageVersion := { package_version : str; default_locale : DefaultLocale; installers : list Installer; locales : list str }.
Record Package := { package_identifier : str; versions : list PackageVersion }.

Inductive MatchType : Type := Exact | Partial | Substring | CaseInsensitive.
Record SearchQuery := { key_word : str; match_type : MatchType }.
Record SearchFilter := { package_match_field : str; request_match : SearchQuery }.
Record SearchRequest := {
  maximum_results : option Z;
  fetch_all_manifests : option bool;
  query : option SearchQuery;
  filters : list SearchFilter;
  inclusions : list SearchFilter
}.
Record SearchResultVersion := { result_version : str; package_family_names : list str; product_codes : list str }.
Record SearchResultEntry := { entry_identifier : str; entry_name : str; entry_publisher : str; entry_versions : list SearchResultVersion }.

Definition is_ascii_hexdigit (c : char) : bool := is_ascii_digit c || ((65 <=? c) && (c <=? 70)) || ((97 <=? c) && (c <=? 102)).

Definition validate_sha256 (hash : str) : result ManifestError unit :=
  if negb (byte_len hash =? 64) then Err InvalidHash
  else if negb (forallb is_ascii_hexdigit hash) then Err InvalidHash
  else Ok tt.

Section Source.
(** The scheme of a URL that parses, or the error; and [str::to_lowercase]. *)
Context (url_scheme : str -> result str str) (to_lowercase : str -> str).

Definition validate_installer_url (url : str) (policy : ManifestPolicy) : result ManifestError unit :=
  match url_scheme url with
  | Err e => Err (InvalidUrl e)
  | Ok scheme =>
      if bool_decide (scheme = lit "https") then Ok tt
      else if bool_decide (scheme = lit "http") then if policy.(allow_http) then Ok tt else Err HttpNotAllowed
      else Err (InvalidUrl (lit "scheme " ++ scheme ++ lit " not allowed"))
  end.

Definition validate_installer (policy : ManifestPolicy) (i : Installer) : result ManifestError unit :=
  _ ← validate_sha256 i.(installer_sha256);
  _ ← validate_installer_url i.(installer_url) policy;
  Ok tt.
Definition validate_package (policy : ManifestPolicy) (p : Package) : result ManifestError unit :=
  try_for (fun v _ => try_for (fun i _ => validate_installer policy i) v.(installers) tt) p.(versions) tt.

(** ** The repository *)

Record WingetRepo := { packages : gmap str Package; source_identifier : str }.

Definition new_repo (source : str) : WingetRepo := {| packages := ∅; source_identifier := source |}.
Definition with_packages (m : gmap str Package) (r : WingetRepo) : WingetRepo := {| packages := m; source_identifier := r.(source_identifier) |}.

Definition upsert_package (p : Package) (r : WingetRepo) : WingetRepo := with_packages (<[p.(package_identifier) := p]> r.(packages)) r.

Fixpoint put_version (v : PackageVersion) (vs : list PackageVersion) : list PackageVersion :=
  match vs with
  | [] => [v]
  | x :: vs => if bool_decide (x.(package_version) = v.(package_version)) then v :: vs else x :: put_version v vs
  end.
Definition add_version (package_id : str) (v : PackageVersion) (r : WingetRepo) : WingetRepo :=
  let pkg := default {| package_identifier := package_id; versions := [] |} (r.(packages) !! package_id) in
  with_packages (<[package_id := {| package_identifier := pkg.(package_identifier); versions := put_version v pkg.(versions) |}]> r.(packages)) r.

Definition remove_package (package_id : str) (r : WingetRepo) : option Package * WingetRepo :=
  (r.(packages) !! package_id, with_packages (delete package_id r.(packages)) r).

Definition remove_version (package_id version : str) (r : WingetRepo) : bool * WingetRepo :=
  match r.(packages) !! package_id with
  | None => (false, r)
  | Some pkg =>
      let vs := filter (fun v => v.(package_version) <> version) pkg.(versions) in
      let removed := (length vs <? length pkg.(versions))%nat in
      let m := <[package_id := {| package_identifier := pkg.(package_identifier); versions := vs |}]> r.(packages) in
      (removed, with_packages (if bool_decide (length vs = 0%nat) then delete package_id m else m) r)
  end.

Definition get_package (package_id : str) (r : WingetRepo) : option Package := r.(packages) !! package_id.

Definition latest (p : Package) : option PackageVersion := last p.(versions).
Definition latest_name (p : Package) : str := default [] ((fun v => v.(default_locale).(package_name)) <$> latest p).
Definition latest_publisher (p : Package) : str := default [] ((fun v => v.(default_locale).(publisher)) <$> latest p).

(** A field against a key word. *)
Definition text_matches (t : MatchType) (field kw : str) : bool :=
  match t with
  | Exact => bool_decide (field = kw)
  | CaseInsensitive => bool_decide (to_lowercase field = to_lowercase kw)
  | Substring | Partial => contains_str (to_lowercase kw) (to_lowercase field)
  end.

Definition matches_keyword (p : Package) (keyword : str) (t : MatchType) : bool :=
  existsb (fun f => text_matches t f keyword) [p.(package_identifier); latest_name p; latest_publisher p].

Definition matches_filter (p : Package) (f : SearchFilter) : bool :=
  let kw := f.(request_match).(key_word) in
  let against (value : str) := text_matches f.(request_match).(match_type) value kw in
  let field := f.(package_match_field) in
  if bool_decide (field = lit "PackageIdentifier") then against p.(package_identifier)
  else if bool_decide (field = lit "PackageName") then against (latest_name p)
  else if bool_decide (field = lit "Publisher") then against (latest_publisher p)
  else if bool_decide (field = lit "Moniker") then against (default [] (v ← latest p; v.(default_locale).(moniker)))
  else if bool_decide (field = lit "Tag") then
    match latest p with
    | Some v => existsb (fun t => bool_decide (t = kw)) v.(default_locale).(tags)
    | None => false
    end
  else true.

Definition matches (request : SearchRequest) (p : Package) : bool :=
  match request.(query) with Some q => matches_keyword p q.(key_word) q.(match_type) | None => true end
  && forallb (matches_filter p) request.(filters).

Definition search_entry (p : Package) : SearchResultEntry :=
  {| entry_identifier := p.(package_identifier); entry_name := latest_name p; entry_publisher := latest_publisher p;
     entry_versions := map (fun v => {| result_version := v.(package_version); package_family_names := [];
                                         product_codes := omap (fun i => i.(product_code)) v.(installers) |}) p.(versions) |}.

(** [it] is the order of the table. *)
Definition search (it : gmap str Package -> list (str * Package)) (request : SearchRequest) (r : WingetRepo) : list SearchResultEntry :=
  let max := Z.to_nat (default 50 request.(maximum_results)) in
  take max (map search_entry (filter (fun p => matches request p = true) (map snd (it r.(packages))))).

Definition package_count (r : WingetRepo) : Z := Z.of_nat (size r.(packages)).
Definition version_count (it : gmap str Package -> list (str * Package)) (r : WingetRepo) : Z :=
  foldr Z.add 0 (map (fun p => Z.of_nat (length p.2.(versions))) (it r.(packages))).

(** serde's encoding of a list of packages. *)
Context (to_string : list Package -> result str str) (from_str : str -> result str (list Package)).
Definition export (it : gmap str Package -> list (str * Package)) (r : WingetRepo) : result str str := to_string (map snd (it r.(packages))).
Definition import (json : str) (r : WingetRepo) : result str Z * WingetRepo :=
  match from_str json with
  | Err e => (Err e, r)
  | Ok pkgs => (Ok (Z.of_nat (length pkgs)), foldl (fun r p => upsert_package p r) r pkgs)
  end.

(** ** The handlers *)

Inductive AuthError : Type := MissingToken | InvalidToken | Backend (s : str).

Definition StaticTokenAuth (expected token : str) : result AuthError unit := if ct_eq token expected then Ok tt else Err InvalidToken.
Definition admin_token_from_env (var : option str) : option str := match var with Some s => if bool_decide (s = []) then None else Some s | None => None end.

(** The trait [AdminAuth]. *)
Context (authenticate : str -> result AuthError unit) (policy : ManifestPolicy).

Inductive Body : Type := Null | Information (source : str) (versions : list str) | Results (l : list SearchResultEntry) | Manifest (p : Package) | Imported (n : Z) | NoBody.
Record Response := { status : Z; body : Body }.

(** What an extractor of axum makes of its part of a request: a value, or the status of its
    rejection, with which the request is answered before the handler runs. *)
Definition extracted (A : Type) : Type := result Z A.

(** A request for a route; of the headers, the text of [Authorization]. *)
Inductive request : Type :=
  | GetInformation
  | ManifestSearch (r : extracted SearchRequest)
  | GetManifest (id : extracted str)
  | UpsertPackage (authorization : option str) (p : extracted Package)
  | ImportPackages (authorization : option str) (json : extracted str)
  | DeletePackage (authorization : option str) (id : extracted str).

Definition bearer_from (authorization : option str) : result AuthError str :=
  auth ← ok_or MissingToken authorization;
  ok_or MissingToken (strip_prefix (lit "Bearer ") auth).

Definition require_admin (authorization : option str) : result Z unit :=
  match (t ← bearer_from authorization; authenticate t) with
  | Ok _ => Ok tt
  | Err _ => Err 401
  end.

Definition get_information (r : WingetRepo) : Response := {| status := 200; body := Information r.(source_identifier) [lit "1.4.0"; lit "1.5.0"] |}.
Definition manifest_search (it : gmap str Package -> list (str * Package)) (q : SearchRequest) (r : WingetRepo) : Response :=
  let results := search it q r in
  if bool_decide (length results = 0%nat) then {| status := 204; body := Null |} else {| status := 200; body := Results results |}.
Definition get_package_manifest (id : str) (r : WingetRepo) : Response :=
  match get_package id r with
  | Some p => {| status := 200; body := Manifest p |}
  | None => {| status := 204; body := Null |}
  end.

Definition handle_upsert (authorization : option str) (p : Package) (r : WingetRepo) : Response * WingetRepo :=
  match require_admin authorization with
  | Err st => ({| status := st; body := NoBody |}, r)
  | Ok _ =>
      match validate_package policy p with
      | Err _ => ({| status := 400; body := NoBody |}, r)
      | Ok _ => ({| status := 201; body := NoBody |}, upsert_package p r)
      end
  end.

Definition import_packages (authorization : option str) (json : str) (r : WingetRepo) : Response * WingetRepo :=
  match require_admin authorization with
  | Err st => ({| status := st; body := NoBody |}, r)
  | Ok _ =>
      match from_str json with
      | Err _ => ({| status := 400; body := NoBody |}, r)
      | Ok pkgs =>
          match try_for (fun p _ => validate_package policy p) pkgs tt with
          | Err _ => ({| status := 400; body := NoBody |}, r)
          | Ok _ => ({| status := 200; body := Imported (Z.of_nat (length pkgs)) |}, foldl (fun r p => upsert_package p r) r pkgs)
          end
      end
  end.

Definition delete_package (authorization : option str) (id : str) (r : WingetRepo) : Response * WingetRepo :=
  match require_admin authorization with
  | Err st => ({| status := st; body := NoBody |}, r)
  | Ok _ => let '(old, r) := remove_package id r in
            ({| status := match old with Some _ => 204 | None => 404 end; body := NoBody |}, r)
  end.

Definition with_extracted {A} (x : extracted A) (handler : A -> WingetRepo -> Response * WingetRepo) (r : WingetRepo) : Response * WingetRepo :=
  match x with
  | Ok a => handler a r
  | Err st => ({| status := st; body := NoBody |}, r)
  end.

(** The router. *)
Definition serve (it : gmap str Package -> list (str * Package)) (q : request) (r : WingetRepo) : Response * WingetRepo :=
  match q with
  | GetInformation => (get_information r, r)
  | ManifestSearch s => with_extracted s (fun s r => (manifest_search it s r, r)) r
  | GetManifest id => with_extracted id (fun id r => (get_package_manifest id r, r)) r
  | UpsertPackage a p => with_extracted p (handle_upsert a) r
  | ImportPackages a json => with_extracted json (import_packages a) r
  | DeletePackage a id => with_extracted id (delete_package a) r
  end.
Definition serve_all (it : gmap str Package -> list (str * Package)) (qs : list request) (r : WingetRepo) : WingetRepo :=
  foldl (fun r q => (serve it q r).2) r qs.

(** ** What a search returns *)

(** A search returns entries of the packages that match the key word and all filters, each
    package once, in some order, cut at the number asked for or 50: all of them when they are
    not more than that. *)
Theorem search_spec it q r : iter_of r.(packages) (it r.(packages)) ->
  let matching := filter (fun kv => matches q kv.2 = true) r.(packages) in
  let max := Z.to_nat (default 50 q.(maximum_results)) in
  exists l, l ≡ₚ map (fun kv => search_entry kv.2) (map_to_list matching) /\ search it q r = take max l /\
    ((size matching <= max)%nat -> search it q r = l).
Proof.
  intros Hit matching max.
  set (l := map search_entry (filter (fun p => matches q p = true) (map snd (it r.(packages))))).
  assert (Hl : l ≡ₚ map (fun kv => search_entry kv.2) (map_to_list matching)).
  { unfold l, matching. rewrite list_filter_map, List.map_map. apply Permutation_map.
    by apply iter_of_filter. }
  exists l. split_and!; [done|done|]. intros Hle. apply take_ge.
  rewrite (Permutation_length Hl), length_map, length_map_to_list. exact Hle.
Qed.

(** ** Who changes the repository *)

(** An installer whose hash is 64 hexadecimal digits and whose URL is one of https, or of http
    where the policy allows that. *)
Definition hex_digit (c : char) : Prop := 48 <= c <= 57 \/ 65 <= c <= 70 \/ 97 <= c <= 102.
Definition sound_installer (i : Installer) : Prop :=
  (length i.(installer_sha256) = 64%nat /\ Forall hex_digit i.(installer_sha256)) /\
  exists scheme, url_scheme i.(installer_url) = Ok scheme /\ (scheme = lit "https" \/ scheme = lit "http" /\ policy.(allow_http) = true).
Definition sound_package (p : Package) : Prop := forall v i, v ∈ p.(versions) -> i ∈ v.(installers) -> sound_installer i.

(** Every package is stored under its identifier and is sound. *)
Definition repo_ok (r : WingetRepo) : Prop := map_Forall (fun id p => p.(package_identifier) = id /\ sound_package p) r.(packages).

Lemma validate_sha256_spec h : validate_sha256 h = Ok tt <-> length h = 64%nat /\ Forall hex_digit h.
Proof using Type.
  assert (Hd : forallb is_ascii_hexdigit h = true <-> Forall hex_digit h).
  { rewrite forallb_forall, Forall_forall. setoid_rewrite list_elem_of_In. unfold is_ascii_hexdigit, is_ascii_digit, hex_digit. split; intros Hall c Hc; specialize (Hall c Hc); lia. }
  assert (Hl : Forall hex_digit h -> byte_len h = Z.of_nat (length h)).
  { intros Hh. apply byte_len_ascii. apply Forall_forall. intros c Hc. rewrite Forall_forall in Hh. specialize (Hh c Hc). unfold hex_digit in Hh. lia. }
  unfold validate_sha256. destruct (Z.eqb_spec (byte_len h) 64) as [E|E]; cbn [negb].
  - destruct (forallb is_ascii_hexdigit h) eqn:Eh; cbn [negb].
    + split; [|done]. intros _. pose proof (proj1 Hd eq_refl) as Hh. split; [|done]. rewrite Hl in E by done. lia.
    + split; [done|]. intros [_ Hh]. apply Hd in Hh. done.
  - split; [done|]. intros [El Hh]. rewrite Hl in E by done. lia.
Qed.

Lemma validate_installer_spec i : validate_installer policy i = Ok tt <-> sound_installer i.
Proof using Type.
  unfold validate_installer, sound_installer. rewrite <- validate_sha256_spec. destruct (validate_sha256 _) as [[]|]; cbn [mbind result_bind]; [|split; [done|by intros [? _]]].
  unfold validate_installer_url. destruct (url_scheme (installer_url i)) as [scheme|e]; cbn [mbind result_bind]; [|split; [done|by intros (_ & s & E & _)]].
  case_bool_decide as E1; [split; [|done]; intros _; split; [done|]; exists scheme; by split; [|left]|].
  case_bool_decide as E2; [destruct (allow_http policy) eqn:Eh|]; cbn [mbind result_bind].
  - split; [|done]. intros _. split; [done|]. exists scheme. split; [done|by right].
  - split; [done|]. intros (_ & s & [= <-] & [?|[_ ?]]); done.
  - split; [done|]. intros (_ & s & [= <-] & [?|[? _]]); done.
Qed.

Lemma validate_package_spec p : validate_package policy p = Ok tt <-> sound_package p.
Proof using Type.
  unfold validate_package, sound_package. rewrite try_for_unit. setoid_rewrite try_for_unit. setoid_rewrite validate_installer_spec.
  split; [intros Hall v i Hv Hi; exact (Hall v Hv i Hi)|intros Hall v Hv i Hi; exact (Hall v i Hv Hi)].
Qed.

Definition header_of (q : request) : option str :=
  match q with UpsertPackage a _ | ImportPackages a _ | DeletePackage a _ => a | _ => None end.
Definition admin (q : request) : Prop := exists t, header_of q = Some (lit "Bearer " ++ t) /\ authenticate t = Ok tt.

Lemma require_admin_ok a : require_admin a = Ok tt <-> exists t, a = Some (lit "Bearer " ++ t) /\ authenticate t = Ok tt.
Proof.
  unfold require_admin, bearer_from. split.
  - destruct a as [a|]; [|done]. cbn [ok_or mbind result_bind].
    destruct (strip_prefix (lit "Bearer ") a) as [t|] eqn:E; [|done]. cbn [ok_or mbind result_bind].
    destruct (authenticate t) as [[]|] eqn:Ea; [|done]. intros _. exists t. split; [|done]. f_equal. by apply strip_prefix_spec.
  - intros (t & -> & Ht). cbn [ok_or mbind result_bind]. rewrite strip_prefix_app. cbn [ok_or mbind result_bind]. by rewrite Ht.
Qed.

Lemma require_admin_err a st : require_admin a = Err st -> st = 401.
Proof. unfold require_admin. by destruct (_ ≫= _); intros [= <-]. Qed.

Lemma upsert_ok p r : repo_ok r -> validate_package policy p = Ok tt -> repo_ok (upsert_package p r).
Proof using Type. intros Hr Hp%validate_package_spec. apply map_Forall_insert_2; [done|exact Hr]. Qed.

Lemma upserts_ok ps r : repo_ok r -> (forall p, p ∈ ps -> validate_package policy p = Ok tt) -> repo_ok (foldl (fun r p => upsert_package p r) r ps).
Proof.
  revert r. induction ps as [|p ps IH]; intros r Hr Hps; [done|]. cbn [foldl].
  apply IH; [apply upsert_ok; [done|apply Hps; left]|intros p' Hp'; apply Hps; by right].
Qed.

(** A request that an extractor refuses. *)
Definition rejection (q : request) : option Z :=
  match q with
  | UpsertPackage _ (Err st) | ImportPackages _ (Err st) | DeletePackage _ (Err st) | ManifestSearch (Err st) | GetManifest (Err st) => Some st
  | _ => None
  end.

(** One request: the repository stays valid, and it only changes for an administrator. *)
Lemma serve_step it q r : repo_ok r -> repo_ok (serve it q r).2 /\ ((serve it q r).2 = r \/ admin q).
Proof.
  intros Hr. unfold admin. destruct q as [|[s|]|[s|]|a [p|]|a [j|]|a [id|]]; cbn [serve with_extracted header_of snd]; try by split; [|left].
  - unfold handle_upsert. destruct (require_admin a) as [[]|] eqn:Ea; [|by split; [|left]].
    apply require_admin_ok in Ea. split; [|by right]. destruct (validate_package policy p) as [[]|] eqn:Ep; [by apply upsert_ok|done].
  - unfold import_packages. destruct (require_admin a) as [[]|] eqn:Ea; [|by split; [|left]].
    apply require_admin_ok in Ea. split; [|by right]. destruct (from_str j) as [ps|]; [|done].
    destruct (try_for _ ps tt) as [[]|] eqn:Ep; [|done]. rewrite try_for_unit in Ep. by apply upserts_ok.
  - unfold delete_package. destruct (require_admin a) as [[]|] eqn:Ea; [|by split; [|left]].
    apply require_admin_ok in Ea. split; [|by right]. by apply map_Forall_delete.
Qed.

(** C18: Over any sequence of requests, a repository that holds each package under its identifier,
    and whose installers all have a hash of 64 hexadecimal digits and a URL of https (or of http,
    where the policy allows it), keeps doing so; a sequence in which no request carries a bearer
    token the authenticator accepts leaves it as it was; and a request for an administrator's
    route without such a token is answered with 401, or, where its body or path cannot be read,
    with the status of that error. *)
Theorem admin_only it qs r : repo_ok r ->
  repo_ok (serve_all it qs r) /\
  ((forall q, q ∈ qs -> ~ admin q) -> serve_all it qs r = r) /\
  (forall q r', (exists a p, q = UpsertPackage a p) \/ (exists a j, q = ImportPackages a j) \/ (exists a id, q = DeletePackage a id) ->
     ~ admin q -> (serve it q r').1.(status) = default 401 (rejection q)).
Proof.
  intros Hr. split_and!.
  - unfold serve_all. revert r Hr. induction qs as [|q qs IH]; intros r Hr; [done|]. cbn [foldl]. apply IH. by apply serve_step.
  - unfold serve_all. revert r Hr. induction qs as [|q qs IH]; intros r Hr Hno; [done|]. cbn [foldl].
    destruct (serve_step it q r Hr) as [_ [E|Ha]]; [|by destruct (Hno q); [left|]]. rewrite E. apply IH; [done|]. intros x Hx. apply Hno. by right.
  - assert (Hdeny : forall a, ~ (exists t, a = Some (lit "Bearer " ++ t) /\ authenticate t = Ok tt) -> require_admin a = Err 401).
    { intros a Hno. destruct (require_admin a) as [[]|st] eqn:Ea; [by apply require_admin_ok in Ea|]. f_equal. by eapply require_admin_err. }
    intros q r' [(a & x & ->)|[(a & x & ->)|(a & x & ->)]] Hno; apply Hdeny in Hno; (destruct x as [x|st]; [|done]); cbn [header_of serve with_extracted rejection default from_option] in Hno |- *.
    + unfold handle_upsert. by rewrite Hno.
    + unfold import_packages. by rewrite Hno.
    + unfold delete_package. by rewrite Hno.
Qed.

(** An import takes all its packages, the last of two with one identifier, or none. *)
Theorem import_all_or_nothing a json r : let '(resp, r') := import_packages a json r in
  (r' = r /\ (resp.(status) = 400 \/ resp.(status) = 401)) \/
  (exists ps, from_str json = Ok ps /\ resp.(status) = 200 /\ forall id, r'.(packages) !! id =
     from_option Some (r.(packages) !! id) (last (filter (fun p => p.(package_identifier) = id) ps))).
Proof.
  unfold import_packages. destruct (require_admin a) as [[]|st] eqn:Ea.
  2: { left. split; [done|]. right. by eapply require_admin_err. }
  destruct (from_str json) as [ps|]; [|by left; split; [|left]].
  destruct (try_for _ ps tt); [|by left; split; [|left]].
  right. exists ps. split_and!; [done|done|]. intros id.
  induction ps as [|p ps IH] using rev_ind; [done|]. rewrite foldl_snoc, filter_app. cbn [upsert_package with_packages packages].
  rewrite filter_cons, filter_nil. case_decide as Hp.
  - by rewrite last_snoc, Hp, lookup_insert_eq.
  - by rewrite app_nil_r, lookup_insert_ne.
Qed.

(** A package that was accepted is served until it is replaced or deleted. *)
Theorem upsert_served a p r : admin (UpsertPackage a (Ok p)) -> validate_package policy p = Ok tt ->
  let '(resp, r') := handle_upsert a p r in
  resp.(status) = 201 /\ get_package_manifest p.(package_identifier) r' = {| status := 200; body := Manifest p |} /\
  forall id, id <> p.(package_identifier) -> get_package_manifest id r' = get_package_manifest id r.
Proof.
  intros Ha Hp. apply require_admin_ok in Ha. cbn [header_of] in Ha. unfold handle_upsert. rewrite Ha, Hp. split_and!; [done| |].
  - unfold get_package_manifest, get_package. cbn [upsert_package with_packages packages]. by rewrite lookup_insert_eq.
  - intros id Hid. unfold get_package_manifest, get_package. cbn [upsert_package with_packages packages]. by rewrite lookup_insert_ne.
Qed.

(** ** Versions *)

Definition version_names (r : WingetRepo) (id : str) : list str := map package_version (from_option versions [] (r.(packages) !! id)).

Lemma put_version_names v vs :
  map package_version (put_version v vs) = if bool_decide (v.(package_version) ∈ map package_version vs) then map package_version vs else map package_version vs ++ [v.(package_version)].
Proof.
  induction vs as [|x vs IH]; [done|]. cbn [put_version]. destruct (decide (x.(package_version) = v.(package_version))) as [E|E].
  - rewrite !bool_decide_eq_true_2; [by cbn [map]; rewrite E|cbn [map]; rewrite E; left|done].
  - rewrite (bool_decide_eq_false_2 _ E). cbn [map]. rewrite IH. destruct (decide (v.(package_version) ∈ map package_version vs)).
    + rewrite !bool_decide_eq_true_2; [done|by right|done].
    + rewrite !bool_decide_eq_false_2; [done| |done]. rewrite elem_of_cons. naive_solver.
Qed.

(** Adding versions one at a time never gives a package two of one name, and keeps their order. *)
Theorem add_version_distinct id v r : NoDup (version_names r id) ->
  NoDup (version_names (add_version id v r) id) /\ version_names r id `prefix_of` version_names (add_version id v r) id /\
  v.(package_version) ∈ version_names (add_version id v r) id.
Proof.
  unfold version_names, add_version. cbn [with_packages packages]. rewrite lookup_insert_eq. cbn [from_option versions].
  set (vs := from_option versions [] (r.(packages) !! id)).
  assert (E : versions (default {| package_identifier := id; versions := [] |} (r.(packages) !! id)) = vs) by (by unfold vs; destruct (r.(packages) !! id)).
  rewrite E, put_version_names. intros Hd. case_bool_decide as Hv; [done|].
  split_and!; [|by eexists|set_solver]. apply NoDup_app. split_and!; [done| |apply NoDup_singleton].
  intros x Hx ->%list_elem_of_singleton. done.
Qed.

Lemma filter_keeps {A} (P : A -> Prop) `{!forall x, Decision (P x)} (l : list A) : (forall x, x ∈ l -> P x) -> filter P l = l.
Proof.
  induction l as [|x l IH]; intros Hl; [done|]. rewrite filter_cons_True by (apply Hl; left). f_equal. apply IH. intros y Hy. apply Hl. by right.
Qed.

(** Removing a version removes every version of that name, and the package with its last one. *)
Theorem remove_version_spec id version r : let '(removed, r') := remove_version id version r in
  version_names r' id = filter (fun n => n <> version) (version_names r id) /\
  (removed = true <-> version ∈ version_names r id) /\
  (r.(packages) !! id <> None -> version_names r' id = [] -> r'.(packages) !! id = None).
Proof.
  unfold remove_version, version_names. destruct (r.(packages) !! id) as [p|] eqn:E; cbn [from_option].
  2: { rewrite E. split_and!; [done|set_solver|done]. }
  set (vs := filter (fun v => v.(package_version) <> version) p.(versions)).
  assert (Hvs : map package_version vs = filter (fun n => n <> version) (map package_version p.(versions))) by (by rewrite list_filter_map).
  assert (Hr : (length vs <? length p.(versions))%nat = true <-> version ∈ map package_version p.(versions)).
  { rewrite Nat.ltb_lt. split.
    - intros Hlt. destruct (decide (version ∈ map package_version p.(versions))) as [|Hn]; [done|]. exfalso.
      unfold vs in Hlt. rewrite filter_keeps in Hlt; [lia|]. intros v Hv Ev. apply Hn. rewrite <-Ev. by apply list_elem_of_fmap_2.
    - intros (v & -> & Hv)%list_elem_of_fmap. apply (length_filter_lt _ _ v Hv). intros Hne. by apply Hne. }
  case_bool_decide as He; cbn [with_packages packages].
  - apply nil_length_inv in He. rewrite lookup_delete_eq. cbn [from_option]. rewrite <-Hvs. split_and!; [by rewrite He|exact Hr|done].
  - rewrite lookup_insert_eq. cbn [from_option versions]. split_and!; [done|done|]. intros _ E0. apply List.map_eq_nil in E0. by rewrite E0 in He.
Qed.

(** ** Export and import *)

Lemma foldl_inserts (l : list (str * Package)) : NoDup l.*1 -> foldl (fun (m : gmap str Package) kv => <[kv.1 := kv.2]> m) ∅ l = list_to_map l.
Proof.
  induction l as [|[k p] l IH] using rev_ind; [done|]. rewrite fmap_app, foldl_snoc. cbn [fst snd fmap list_fmap].
  intros (Hl & Hk & _)%NoDup_app. rewrite (IH Hl), list_to_map_snoc; [done|]. intros Hin. by apply (Hk k); [|left].
Qed.

(** What one repository exports another imports: the same packages. *)
Theorem export_import it r s json : (forall l j, to_string l = Ok j -> from_str j = Ok l) ->
  iter_of r.(packages) (it r.(packages)) -> map_Forall (fun id p => p.(package_identifier) = id) r.(packages) -> export it r = Ok json ->
  import json (new_repo s) = (Ok (package_count r), {| packages := r.(packages); source_identifier := s |}).
Proof.
  intros Hserde Hit Hkey Hex. apply Hserde in Hex. unfold import. rewrite Hex, length_map. f_equal.
  { unfold package_count. by rewrite (Permutation_length Hit), length_map_to_list. }
  assert (Hfold : forall l (m : gmap str Package), Forall (fun kv => kv.2.(package_identifier) = kv.1) l ->
    foldl (fun r p => upsert_package p r) {| packages := m; source_identifier := s |} (map snd l) =
    {| packages := foldl (fun m kv => <[kv.1 := kv.2]> m) m l; source_identifier := s |}).
  { induction l as [|[k p] l IH]; intros m Hl; [done|]. apply Forall_cons in Hl as [Hk Hl]. cbn [map snd fst foldl] in Hk |- *.
    unfold upsert_package at 2, with_packages. cbn [packages source_identifier]. rewrite Hk. by apply IH. }
  unfold new_repo. rewrite Hfold.
  2: { apply Forall_forall. intros [k p] Hkp. apply (iter_of_elem _ _ _ _ Hit) in Hkp. by apply Hkey in Hkp. }
  f_equal. rewrite foldl_inserts; [|by rewrite Hit; apply NoDup_fst_map_to_list]. apply map_eq. intros k. apply option_eq. intros p.
  rewrite <-elem_of_list_to_map by (by rewrite Hit; apply NoDup_fst_map_to_list). by apply iter_of_elem.
Qed.

(** The fields [Inclusions] and [FetchAllManifests] of a search are read and not used. *)
Theorem inclusions_ignored it q r incl all :
  search it {| maximum_results := q.(maximum_results); fetch_all_manifests := all; query := q.(query); filters := q.(filters); inclusions := incl |} r = search it q r.
Proof. done. Qed.

End Source.

(** The static token is the whole token. *)
Theorem static_token expected t : Forall is_scalar t -> Forall is_scalar expected -> StaticTokenAuth expected t = Ok tt <-> t = expected.
Proof. intros Ht He. unfold StaticTokenAuth. rewrite <-(ct_eq_spec t expected Ht He). by destruct (ct_eq t expected). Qed.

(** ** Witnesses *)

Definition sample_version (n : string) (name : string) : PackageVersion :=
  {| package_version := lit n;
     default_locale := {| package_locale := lit "en-US"; publisher := lit "TestOrg"; package_name := lit name; short_description := lit "app";
                          publisher_url := None; package_url := None; license := None; moniker := None; tags := [lit "test"] |};
     installers := [{| architecture := X64; installer_type := Msi; installer_url := lit "https://example.com/a.msi"; installer_sha256 := repeat 97 64;
                       scope := Some Machine; installer_switches := None; product_code := Some (lit "{1}") |}];
     locales := [] |}.
Definition sample_package (id name : string) : Package := {| package_identifier := lit id; versions := [sample_version "1.0" name] |}.
Definition sample_repo : WingetRepo :=
  upsert_package (sample_package "Google.Chrome" "Chrome") (upsert_package (sample_package "Mozilla.Firefox" "Firefox") (new_repo (lit "TestRepo"))).
Definition firefox_search : SearchRequest :=
  {| maximum_results := None; fetch_all_manifests := None; query := Some {| key_word := lit "firefox"; match_type := Substring |}; filters := []; inclusions := [] |}.
Definition https_only (u : str) : result str str := if bool_decide (is_Some (strip_prefix (lit "https:") u)) then Ok (lit "https") else Err (lit "relative URL without a base").

Lemma search_spec_witness : map entry_identifier (search to_ascii_lowercase map_to_list firefox_search sample_repo) = [lit "Mozilla.Firefox"] /\
  exists l, search to_ascii_lowercase map_to_list firefox_search sample_repo = take 50 l /\ search to_ascii_lowercase map_to_list firefox_search sample_repo = l.
Proof.
  split; [by vm_compute|].
  destruct (search_spec to_ascii_lowercase map_to_list firefox_search sample_repo (iter_of_self _)) as (l & _ & E & Hall).
  exists l. split; [exact E|]. apply Hall. apply (bool_decide_unpack _). by vm_compute.
Defined.

Lemma admin_only_witness : repo_ok https_only {| allow_http := false |} sample_repo /\
  serve_all https_only to_ascii_lowercase (fun _ => Err []) (StaticTokenAuth (lit "s3cret")) {| allow_http := false |} map_to_list
    [UpsertPackage (Some (lit "Bearer nope")) (Ok (sample_package "Evil.App" "App")); UpsertPackage None (Err 422); DeletePackage None (Ok (lit "Mozilla.Firefox"))] sample_repo = sample_repo.
Proof.
  assert (Hok : repo_ok https_only {| allow_http := false |} sample_repo).
  { apply upsert_ok; [apply upsert_ok; [apply map_Forall_empty|]|]; by vm_compute. }
  split; [exact Hok|].
  apply (admin_only https_only to_ascii_lowercase (fun _ => Err []) (StaticTokenAuth (lit "s3cret")) {| allow_http := false |} map_to_list _ _ Hok).
  intros q Hq (t & Ht & Ha). rewrite !elem_of_cons, elem_of_nil in Hq. destruct Hq as [->|[->|[->|[]]]]; [|done..].
  cbn [header_of] in Ht. injection Ht as <-. by vm_compute in Ha.
Defined.
