(* ===== verification/Monitor.v ===== *)
(** * Health checks and their scheduler ([runesh-monitor/src/check.rs], [scheduler.rs])

    The six kinds of check and the scheduler that feeds their results to the alerts of
    [Alert].  What the network and the operating system (a Unix) answer to one check is a
    [World]; a process is the sequence of what it writes.  An effect is a program that is
    started or a process group that is killed.  The theorems state which programs a check can
    start, what an HTTP check reads, and what one run of the scheduler does to the alerts. *)
From S2P Require Import Prelude Str Utf8 F64 Alert Path Text.
From Stdlib Require Import Floats.SpecFloat.

#[local] Open Scope Z_scope.

(** ** Data *)

Inductive CheckType : Type :=
  | Http (url : str) (expected_status : Z) (expected_body : option str)
  | Tcp (host : str) (port : Z)
  | Ping (host : str)
  | Disk (path : str) (min_free_percent : f64)
  | Process (name : str)
  | Command (command : str) (args : list str).

Record Check := {
  id : str;
  name : str;
  check_type : CheckType;
  interval_secs : Z;
  timeout_secs : Z;
  c_failure_threshold : Z;
  c_recovery_threshold : Z
}.

Record CommandCheckPolicy := {
  allowed_binaries : gset str;
  max_output_bytes : Z;
  inherit_env : bool;
  allowed_env_keys : gset str
}.
Definition strict : CommandCheckPolicy :=
  {| allowed_binaries := ∅; max_output_bytes := 1024 * 1024; inherit_env := false; allowed_env_keys := ∅ |}.

Record HttpCheckPolicy := { response_size_cap_bytes : Z }.
Definition default_http_policy : HttpCheckPolicy := {| response_size_cap_bytes := 10 * 1024 * 1024 |}.

Record CheckRuntime := { http_policy : HttpCheckPolicy; command_policy : CommandCheckPolicy }.
Definition with_policy (p : CommandCheckPolicy) : CheckRuntime := {| http_policy := default_http_policy; command_policy := p |}.
Definition new_runtime : CheckRuntime := with_policy strict.

(** ** What the world answers *)

(** [reqwest]: a response, with the chunks of its body, or an error. *)
Inductive HttpAnswer : Type :=
  | Response (status : Z) (chunks : list (result str (list byte)))
  | SendTimeout
  | SendConnect (e : str)
  | SendOther (e : str).

(** A process: its number, what it writes to its two pipes, in order, its exit code, and the
    error that waiting for it meets, if any.  A process that takes longer than the check may has
    [in_time = false]. *)
Inductive write : Type := ToOut (b : list byte) | ToErr (b : list byte).
Record Child := { pid : Z; writes : list write; exit_code : option Z; wait_error : option str; in_time : bool }.

Record DiskInfo := { mount_point : path; total_space : Z; available_space : Z }.

Record World := {
  http_get : str -> option HttpAnswer;
  tcp_connect : str -> option (result str unit);
  spawn : str -> list str -> result str Child;
  pipe_capacity : Z;
  exists_path : str -> bool;
  disks : list DiskInfo;
  processes : list (Z * str);
  canonicalize : str -> option str;
  is_file : str -> bool;
  environment : gmap str str
}.

(** A program is started as process [pid]; the process [pid] is killed, which is what dropping a
    child that has not been waited for does ([kill_on_drop]); or the process group [pid] is. *)
Inductive Effect : Type :=
  | Started (program : str) (args : list str) (env : gmap str str) (pid : Z)
  | Killed (pid : Z)
  | KilledGroup (pid : Z).

(** A check answers, or its task panics. *)
Inductive run : Type := Answer (st : CheckStatus) (msg : str) | Panicked.

(** [Duration::from_secs(t)] plus one second: the addition panics past [u64]. *)
Definition one_more (t : Z) (r : run) : run := if t + 1 <? 2 ^ 64 then r else Panicked.

(** ** HTTP *)

(** The loop over the chunks, with the cap on what is kept.  Two lengths of slices do not
    add up to [usize::MAX], so the saturation of the sum is not reached. *)
Fixpoint read_body (cap : Z) (buf : list byte) (chunks : list (result str (list byte))) : result str (list byte) :=
  match chunks with
  | [] => Ok buf
  | Err e :: _ => Err e
  | Ok c :: chunks => if cap <? Z.of_nat (length buf) + Z.of_nat (length c) then Ok (buf ++ take (Z.to_nat (cap - Z.of_nat (length buf))) c) else read_body cap (buf ++ c) chunks
  end.

Definition http_ok (status_code : Z) : run := Answer S_Ok (lit "HTTP " ++ show_uint status_code ++ lit " OK").

Definition run_http_check (w : World) (policy : HttpCheckPolicy) (url : str) (expected_status : Z) (expected_body : option str) (timeout : Z) : run :=
  one_more timeout match w.(http_get) url with
  | None => Answer S_Critical (lit "timeout")
  | Some SendTimeout => Answer S_Critical (lit "timeout")
  | Some (SendConnect e) => Answer S_Critical (lit "connection refused: " ++ e)
  | Some (SendOther e) => Answer S_Critical (lit "request failed: " ++ e)
  | Some (Response status_code chunks) =>
      if negb (status_code =? expected_status) then Answer S_Critical (lit "expected status " ++ show_uint expected_status ++ lit ", got " ++ show_uint status_code)
      else match read_body policy.(response_size_cap_bytes) [] chunks with
           | Err e => Answer S_Critical (lit "body read error: " ++ e)
           | Ok buf =>
               match expected_body with
               | None => http_ok status_code
               | Some expected =>
                   let body := from_utf8_lossy buf in
                   if contains_str expected body then http_ok status_code
                   else match split_at (Z.min (byte_len body) 100) body with
                        | Some (sample, _) => Answer S_Critical (lit "body missing expected string '" ++ expected ++ lit "', got " ++ sample)
                        | None => Panicked
                        end
               end
           end
  end.

(** ** TCP and ping *)

Definition run_tcp_check (w : World) (host : str) (port : Z) : run :=
  let addr := host ++ lit ":" ++ show_uint port in
  match w.(tcp_connect) addr with
  | Some (Ok _) => Answer S_Ok (lit "TCP " ++ addr ++ lit " open")
  | Some (Err e) => Answer S_Critical (lit "TCP " ++ addr ++ lit " failed: " ++ e)
  | None => Answer S_Critical (lit "TCP " ++ addr ++ lit " timeout")
  end.

Definition host_char (c : char) : bool := is_ascii_alphanumeric c || existsb (Z.eqb c) (lit ".:_-").

(** Everything a process writes; [output] reads both pipes at once. *)
Definition out_of (c : Child) : list byte := concat (map (fun x => match x with ToOut b => b | ToErr _ => [] end) c.(writes)).
Definition err_of (c : Child) : list byte := concat (map (fun x => match x with ToErr b => b | ToOut _ => [] end) c.(writes)).

Fixpoint find_map {A B} (f : A -> option B) (l : list A) : option B :=
  match l with
  | [] => None
  | x :: l => match f x with Some y => Some y | None => find_map f l end
  end.

Definition ping_args (host : str) : list str := [lit "-c"; lit "1"; lit "-n"; host].

Definition ping_unix (w : World) (host : str) (timeout : Z) : list Effect * run :=
  if negb (forallb host_char host) then ([], Answer S_Critical (lit "ping host '" ++ host ++ lit "' contains disallowed characters"))
  else if negb (Z.max timeout 1 + 1 <? 2 ^ 64) then ([], Panicked)
  else match w.(spawn) (lit "ping") (ping_args host) with
       | Err e => ([], Answer S_Unknown (lit "ping subprocess error: " ++ e))
       | Ok child =>
           let start := Started (lit "ping") (ping_args host) w.(environment) child.(pid) in
           if negb child.(in_time) then ([start; Killed child.(pid)], Answer S_Critical (lit "ping " ++ host ++ lit " timeout"))
           else match child.(wait_error) with
           | Some e => ([start; Killed child.(pid)], Answer S_Unknown (lit "ping subprocess error: " ++ e))
           | None =>
               ([start],
                if bool_decide (child.(exit_code) = Some 0) then
                  let rtt := default (lit "?ms") (find_map (strip_prefix (lit "time=")) (split_whitespace (from_utf8_lossy (out_of child)))) in
                  Answer S_Ok (lit "ping " ++ host ++ lit " " ++ rtt)
                else
                  let msg := trim (default (lit "no reply") (head (lines (from_utf8_lossy (err_of child))))) in
                  Answer S_Critical (lit "ping " ++ host ++ lit " failed: " ++ msg))
           end
       end.

(** ** Disks and processes *)

Definition better (target : path) (best : option (DiskInfo * nat)) (d : DiskInfo) : option (DiskInfo * nat) :=
  if bool_decide (d.(mount_point) `prefix_of` target) then
    let depth := length d.(mount_point) in
    match best with
    | None => Some (d, depth)
    | Some (_, n) => if (n <? depth)%nat then Some (d, depth) else best
    end
  else best.
Definition best_match (target : path) (ds : list DiskInfo) : option (DiskInfo * nat) := foldl (better target) None ds.

Definition free_percent (d : DiskInfo) : f64 := fmul (fdiv (of_int d.(available_space)) (of_int d.(total_space))) (of_int 100).
Definition gigabytes (n : Z) : f64 := fdiv (of_int n) (of_int 1073741824).

Section Checks.
(** [{:.1}] and [{}] of a float, and [str::to_lowercase]. *)
Context (fmt1 display : f64 -> str) (to_lowercase : str -> str).

Definition run_disk_check (w : World) (path : str) (min_free_percent : f64) : run :=
  if negb (w.(exists_path) path) then Answer S_Critical (lit "path " ++ path ++ lit " not found")
  else match best_match (components path) w.(disks) with
       | None => Answer S_Unknown (lit "no disk found for path " ++ path)
       | Some (disk, _) =>
           if disk.(total_space) =? 0 then Answer S_Unknown (lit "disk at " ++ path ++ lit ": 0 total bytes")
           else
             let said := path ++ lit ": " ++ fmt1 (free_percent disk) ++ lit "% free (" ++ fmt1 (gigabytes disk.(available_space)) ++ lit "/" ++
                         fmt1 (gigabytes disk.(total_space)) ++ lit " GB)" in
             if SFltb (free_percent disk) min_free_percent then Answer S_Critical (said ++ lit ", threshold " ++ display min_free_percent ++ lit "%")
             else Answer S_Ok said
       end.

Definition run_process_check (w : World) (name : str) : run :=
  let matching := filter (fun p => eq_ignore_ascii_case p.2 name || contains_str (to_lowercase name) (to_lowercase p.2) = true) w.(processes) in
  match matching with
  | [] => Answer S_Critical (lit "process '" ++ name ++ lit "' not found")
  | _ => Answer S_Ok (lit "process '" ++ name ++ lit "' running (" ++ show_uint (Z.of_nat (length matching)) ++ lit " instance(s), PIDs: " ++
                      join_str (lit ", ") (map (fun p => show_uint p.1) (take 5 matching)) ++ lit ")")
  end.

(** ** Commands *)

Definition resolve_binary (w : World) (command : str) : option str :=
  if negb (is_absolute (components command)) then None else w.(canonicalize) command.

(** The environment of the child. *)
Definition child_env (w : World) (policy : CommandCheckPolicy) : gmap str str :=
  foldl (fun env key => match w.(environment) !! key with Some v => <[key := v]> env | None => env end)
        (if policy.(inherit_env) then w.(environment) else ∅) (elements policy.(allowed_env_keys)).

Definition truncate_bytes (b : list byte) (cap : Z) : list byte := if Z.of_nat (length b) <=? cap then b else take (Z.to_nat cap) b.

(** [wait_fut]: standard output to its end, then standard error.  The process keeps its
    standard output open until it exits, and blocks when what it wrote to standard error and
    nobody has read exceeds the pipe. *)
Fixpoint drain (pipe : Z) (ws : list write) (out err : list byte) : option (list byte * list byte) :=
  match ws with
  | [] => Some (out, err)
  | ToOut b :: ws => drain pipe ws (out ++ b) err
  | ToErr b :: ws => if pipe <? Z.of_nat (length (err ++ b)) then None else drain pipe ws out (err ++ b)
  end.

Definition wait_fut (w : World) (c : Child) : option (result str (option Z * list byte * list byte)) :=
  if negb c.(in_time) then None
  else '(out, err) ← drain w.(pipe_capacity) c.(writes) [] [];
       Some (match c.(wait_error) with Some e => Err e | None => Ok (c.(exit_code), out, err) end).

Definition run_command_check (w : World) (command : str) (args : list str) (policy : CommandCheckPolicy) : list Effect * run :=
  if bool_decide (policy.(allowed_binaries) = ∅) then ([], Answer S_Critical (lit "command checks disabled: empty binary allowlist"))
  else match resolve_binary w command with
  | None => ([], Answer S_Critical (lit "command '" ++ command ++ lit "' must be an absolute path"))
  | Some resolved =>
      if negb (w.(is_file) resolved) then ([], Answer S_Critical (lit "command '" ++ resolved ++ lit "' is not a regular file"))
      else if negb (existsb (fun p => bool_decide (w.(canonicalize) p = Some resolved)) (elements policy.(allowed_binaries)))
      then ([], Answer S_Critical (lit "binary '" ++ resolved ++ lit "' not in allowlist"))
      else
        match w.(spawn) resolved args with
        | Err e => ([], Answer S_Critical (lit "spawn error: " ++ e))
        | Ok child =>
            let start := Started resolved args (child_env w policy) child.(pid) in
            match wait_fut w child with
            | Some (Ok (code, out, err)) =>
                ([start],
                 if bool_decide (code = Some 0) then Answer S_Ok (trim (from_utf8_lossy (truncate_bytes out policy.(max_output_bytes))))
                 else Answer S_Critical (lit "exit " ++ show_int (default (-1) code) ++ lit ": " ++
                                         trim (from_utf8_lossy (truncate_bytes err policy.(max_output_bytes)))))
            | Some (Err e) => ([start; Killed child.(pid)], Answer S_Critical (lit "io error: " ++ e))
            | None => ([start; Killed child.(pid); KilledGroup child.(pid)], Answer S_Critical (lit "timeout"))
            end
        end
  end.

(** ** One check *)

Definition execute (w : World) (check : Check) (runtime : CheckRuntime) : list Effect * run :=
  let timeout := check.(timeout_secs) in
  match check.(check_type) with
  | Http url expected_status expected_body => ([], run_http_check w runtime.(http_policy) url expected_status expected_body timeout)
  | Tcp host port => ([], run_tcp_check w host port)
  | Ping host => ping_unix w host timeout
  | Disk path min_free_percent => ([], run_disk_check w path min_free_percent)
  | Process name => ([], run_process_check w name)
  | Command command args => run_command_check w command args runtime.(command_policy)
  end.

(** What the clock says of one check: how long it took, when it ended, and the time the alert
    manager reads when it takes the result. *)
Record Clock := { took_ms : Z; ended : Z; noted : Z }.

Definition run_check_with (w : World) (t : Clock) (check : Check) (runtime : CheckRuntime) : list Effect * option CheckResult :=
  let '(effects, r) := execute w check runtime in
  (effects, match r with
            | Answer st msg => Some {| r_check_id := check.(id); r_status := st; r_message := msg; r_duration_ms := t.(took_ms); r_timestamp := t.(ended) |}
            | Panicked => None
            end).

(** ** The scheduler *)

Record CheckScheduler := {
  checks : list Check;
  alert_manager : AlertManager;
  last_results : gmap str CheckResult;
  runtime : CheckRuntime;
  has_store : bool
}.

Definition with_runtime (rt : CheckRuntime) : CheckScheduler :=
  {| checks := []; alert_manager := new_manager; last_results := ∅; runtime := rt; has_store := false |}.

Definition with_alerts (m : AlertManager) (s : CheckScheduler) : CheckScheduler :=
  {| checks := s.(checks); alert_manager := m; last_results := s.(last_results); runtime := s.(runtime); has_store := s.(has_store) |}.

(** [loaded] is what [AlertStore::load] answers. *)
Definition with_store (loaded : result str (gmap str Alert)) (s : CheckScheduler) : CheckScheduler :=
  let m := match loaded with Ok snap => restore_from snap s.(alert_manager) | Err _ => s.(alert_manager) end in
  {| checks := s.(checks); alert_manager := m; last_results := s.(last_results); runtime := s.(runtime); has_store := true |}.

Definition add_check (c : Check) (s : CheckScheduler) : CheckScheduler :=
  let m := register c.(id) c.(name) c.(c_failure_threshold) c.(c_recovery_threshold) s.(alert_manager) in
  {| checks := s.(checks) ++ [c]; alert_manager := m; last_results := s.(last_results); runtime := s.(runtime); has_store := s.(has_store) |}.

Definition remove_check (i : str) (s : CheckScheduler) : CheckScheduler :=
  {| checks := filter (fun c => c.(id) <> i) s.(checks); alert_manager := s.(alert_manager);
     last_results := s.(last_results); runtime := s.(runtime); has_store := s.(has_store) |}.

(** A result as it comes in. *)
Definition take_result (noted : Z) (r : CheckResult) (s : CheckScheduler) : option AlertEvent * CheckScheduler :=
  let '(ev, m) := manager_process noted r s.(alert_manager) in
  (ev, {| checks := s.(checks); alert_manager := m; last_results := <[r.(r_check_id) := r]> s.(last_results);
          runtime := s.(runtime); has_store := s.(has_store) |}).

(** The checks of a run in the order they finish, each with the world it meets. *)
Record Completion := { c_check : Check; c_world : World; c_clock : Clock }.

Fixpoint take_all (rt : CheckRuntime) (l : list Completion) (s : CheckScheduler) : option (list AlertEvent * CheckScheduler) :=
  match l with
  | [] => Some ([], s)
  | c :: l =>
      match (run_check_with c.(c_world) c.(c_clock) c.(c_check) rt).2 with
      | None => None
      | Some r => let '(ev, s) := take_result c.(c_clock).(noted) r s in
                  '(evs, s) ← take_all rt l s;
                  Some (option_list ev ++ evs, s)
      end
  end.

(** [run_all]: the events, what is saved in the store, and the scheduler; nothing when the
    panic of a check ends the run. *)
Definition run_all (l : list Completion) (s : CheckScheduler) : option (list AlertEvent * option (gmap str Alert) * CheckScheduler) :=
  '(evs, s) ← take_all s.(runtime) l s;
  Some (evs, if s.(has_store) then Some (snapshot s.(alert_manager)) else None, s).

Definition last_result (i : str) (s : CheckScheduler) : option CheckResult := s.(last_results) !! i.
Definition firing_alerts (it : gmap str Alert -> list (str * Alert)) (s : CheckScheduler) : list Alert := firing (it s.(alert_manager).(alerts)).
Definition check_count (s : CheckScheduler) : Z := Z.of_nat (length s.(checks)).

(** ** What a check can start *)

Lemma passed_lookup (env0 env : gmap str str) keys k :
  foldl (fun env key => match env0 !! key with Some v => <[key := v]> env | None => env end) env keys !! k =
  if bool_decide (k ∈ keys) then from_option Some (env !! k) (env0 !! k) else env !! k.
Proof.
  induction keys as [|x keys IH] using rev_ind; [done|]. rewrite foldl_snoc.
  destruct (decide (k = x)) as [->|Hne].
  - rewrite bool_decide_eq_true_2 by set_solver. destruct (env0 !! x) eqn:E; [by rewrite lookup_insert_eq|].
    rewrite IH. case_bool_decide; by rewrite ?E.
  - rewrite (bool_decide_ext (k ∈ keys ++ [x]) (k ∈ keys)) by set_solver. rewrite <-IH.
    destruct (env0 !! x); [by rewrite lookup_insert_ne|done].
Qed.

Lemma child_env_lookup w policy k :
  child_env w policy !! k = if policy.(inherit_env) || bool_decide (k ∈ policy.(allowed_env_keys)) then w.(environment) !! k else None.
Proof.
  unfold child_env. rewrite passed_lookup, (bool_decide_ext (k ∈ elements _) (k ∈ policy.(allowed_env_keys))) by apply elem_of_elements.
  destruct policy.(inherit_env); case_bool_decide; cbn [orb]; rewrite ?lookup_empty; by destruct (w.(environment) !! k).
Qed.

(** The characters of the comment on [ping_unix]: [A-Za-z0-9.:_-]. *)
Definition of_a_host (c : char) : Prop := 65 <= c <= 90 \/ 97 <= c <= 122 \/ 48 <= c <= 57 \/ c ∈ lit ".:_-".

Lemma host_char_spec c : host_char c = true <-> of_a_host c.
Proof.
  unfold host_char, of_a_host, is_ascii_alphanumeric, is_ascii_lower, is_ascii_upper, is_ascii_digit.
  rewrite orb_true_iff, existsb_exists. setoid_rewrite <- list_elem_of_In. split.
  - intros [H|(x & Hx & ->%Z.eqb_eq)]; [|by right; right; right]. lia.
  - intros [H|[H|[H|H]]]; [left; lia..|]. right. exists c. split; [done|]. by apply Z.eqb_eq.
Qed.

(** The effects after a program is started: it is permitted, and what is killed is it. *)
Ltac started He Hs :=
  rewrite ?elem_of_cons, ?elem_of_nil in He; repeat (destruct He as [->|He]; [first [apply Hs|do 3 eexists; left]|]); by destruct He.

(** What a check may do to the machine. *)
Definition permitted (w : World) (check : Check) (rt : CheckRuntime) (effects : list Effect) (e : Effect) : Prop :=
  match e with
  | Started p args env _ =>
      (exists h, check.(check_type) = Ping h /\ p = lit "ping" /\ args = [lit "-c"; lit "1"; lit "-n"; h] /\ Forall of_a_host h /\ head h <> Some 45)
      \/ (exists command, check.(check_type) = Command command args
          /\ is_absolute (components command) = true /\ w.(canonicalize) command = Some p /\ w.(is_file) p = true
          /\ (exists b, b ∈ rt.(command_policy).(allowed_binaries) /\ w.(canonicalize) b = Some p)
          /\ (rt.(command_policy).(inherit_env) = true -> env = w.(environment))
          /\ (rt.(command_policy).(inherit_env) = false ->
              forall k, env !! k = if bool_decide (k ∈ rt.(command_policy).(allowed_env_keys)) then w.(environment) !! k else None))
  | Killed n | KilledGroup n => exists p args env, Started p args env n ∈ effects
  end.

(** C14: For any check but a ping of a host that begins with a dash: it starts nothing but the
    program [ping] with the arguments for one probe of a host of letters, digits and [.:_-], or
    a regular file that the absolute path of the command resolves to and that a path of the
    allowlist resolves to as well.  A command gets the environment of the server where the
    policy says to inherit it, and otherwise exactly those variables of it that the policy names.
    The only process killed is the one the check started, and the only process group the one
    that has its number.  Under the default policy a command check starts nothing. *)
Theorem programs_confined w check rt : (forall h, check.(check_type) = Ping h -> head h <> Some 45) ->
  (forall e, e ∈ (execute w check rt).1 -> permitted w check rt (execute w check rt).1 e) /\
  (rt = new_runtime -> (forall h, check.(check_type) <> Ping h) -> (execute w check rt).1 = []).
Proof.
  intros Hdash. split.
  - unfold execute. destruct check.(check_type) as [| |h| | |command args] eqn:Ec; intros e He; try by apply not_elem_of_nil in He.
    + unfold ping_unix in He |- *. destruct (forallb host_char h) eqn:Eh; cbn [negb] in He |- *; [|by apply not_elem_of_nil in He].
      destruct (_ <? _); cbn [negb] in He |- *; [|by apply not_elem_of_nil in He].
      destruct (w.(spawn) _ _) as [child|]; [|by apply not_elem_of_nil in He].
      assert (Hs : forall effects, permitted w check rt effects (Started (lit "ping") (ping_args h) w.(environment) child.(pid))).
      { intros effects. left. exists h. split_and!; [done..| |by apply Hdash]. rewrite forallb_forall in Eh. apply Forall_forall. intros c Hc. by apply host_char_spec, Eh, list_elem_of_In. }
      destruct child.(in_time); cbn [negb fst] in He |- *; [destruct child.(wait_error); cbn [fst] in He |- *|]; started He Hs.
    + unfold run_command_check in He |- *. case_bool_decide; [by apply not_elem_of_nil in He|].
      destruct (resolve_binary w command) as [p|] eqn:Er; [|by apply not_elem_of_nil in He].
      destruct (w.(is_file) p) eqn:Ef; cbn [negb] in He |- *; [|by apply not_elem_of_nil in He].
      destruct (existsb _ _) eqn:Ea; cbn [negb] in He |- *; [|by apply not_elem_of_nil in He].
      destruct (w.(spawn) p args) as [child|]; [|by apply not_elem_of_nil in He].
      assert (Hs : forall effects, permitted w check rt effects (Started p args (child_env w rt.(command_policy)) child.(pid))).
      { intros effects. right. exists command. unfold resolve_binary in Er.
        destruct (is_absolute (components command)) eqn:Eb; cbn [negb] in Er; [|done]. split_and!; [done..| | |].
        - apply existsb_exists in Ea as (b & Hb & E). apply bool_decide_eq_true in E. exists b. split; [|done]. by apply list_elem_of_In, elem_of_elements in Hb.
        - intros Hi. apply map_eq. intros k. by rewrite child_env_lookup, Hi.
        - intros Hi k. by rewrite child_env_lookup, Hi. }
      destruct (wait_fut w child) as [[[[code out] err]|]|]; cbn [fst] in He |- *; started He Hs.
  - intros -> Hp. unfold execute. destruct check.(check_type) as [| |h| | |]; try done. by destruct (Hp h).
Qed.

(** ** What an HTTP check reads *)

Lemma read_body_spec cap buf chunks : Z.of_nat (length buf) <= cap -> read_body cap buf (map Ok chunks) = Ok (take (Z.to_nat cap) (buf ++ concat chunks)).
Proof.
  revert buf. induction chunks as [|c chunks IH]; intros buf Hb; cbn [map read_body concat].
  - by rewrite app_nil_r, take_ge by lia.
  - destruct (Z.ltb_spec cap (Z.of_nat (length buf) + Z.of_nat (length c))) as [Hlt|Hge].
    + f_equal. rewrite take_app_ge by lia. f_equal. rewrite take_app_le by lia. f_equal. lia.
    + rewrite IH by (rewrite length_app; lia). by rewrite <-app_assoc.
Qed.

(** The check succeeds exactly when the status is the expected one and the expected text is in
    the body up to the cap; no more than the cap is kept. *)
Theorem http_check_spec w policy url expected expected_body timeout st chunks : timeout + 1 < 2 ^ 64 -> 0 <= policy.(response_size_cap_bytes) ->
  w.(http_get) url = Some (Response st (map Ok chunks)) ->
  let buf := take (Z.to_nat policy.(response_size_cap_bytes)) (concat chunks) in
  run_http_check w policy url expected expected_body timeout = http_ok st <->
  st = expected /\ match expected_body with None => True | Some e => contains_str e (from_utf8_lossy buf) = true end.
Proof.
  intros Ht Hcap Hw buf. unfold run_http_check, one_more. rewrite (proj2 (Z.ltb_lt _ _) Ht), Hw.
  destruct (Z.eqb_spec st expected) as [->|Hne]; cbn [negb].
  - rewrite read_body_spec by (cbn; lia). fold buf. cbn [app]. destruct expected_body as [e|]; [|done]. cbv zeta. fold buf.
    destruct (contains_str e (from_utf8_lossy buf)) eqn:E; [done|]. split; [|by intros []].
    by destruct (split_at _ _) as [[sample ?]|]; intros.
  - split; [done|by intros []].
Qed.

(** ** Which disk is measured *)

(** The disk found is mounted above the path, and nothing mounted above it is mounted deeper. *)
Lemma best_match_spec target ds :
  match best_match target ds with
  | None => forall d, d ∈ ds -> ~ d.(mount_point) `prefix_of` target
  | Some (d, n) => d ∈ ds /\ d.(mount_point) `prefix_of` target /\ n = length d.(mount_point) /\
                   forall d', d' ∈ ds -> d'.(mount_point) `prefix_of` target -> (length d'.(mount_point) <= n)%nat
  end.
Proof.
  unfold best_match. induction ds as [|x ds IH] using rev_ind; [intros d Hd; by apply not_elem_of_nil in Hd|].
  rewrite foldl_snoc. unfold better at 1. destruct (foldl (better target) None ds) as [[d n]|].
  - destruct IH as (Hd & Hp & Hn & Hmax). case_bool_decide as Hx.
    + destruct (Nat.ltb_spec n (length x.(mount_point))) as [Hlt|Hge].
      * split_and!; [set_solver|done|done|]. intros d' [Hd'| ->%list_elem_of_singleton]%elem_of_app Hp'; [|done]. specialize (Hmax d' Hd' Hp'). lia.
      * split_and!; [set_solver|done|done|]. intros d' [Hd'| ->%list_elem_of_singleton]%elem_of_app Hp'; [by apply Hmax|done].
    + split_and!; [set_solver|done|done|]. intros d' [Hd'| ->%list_elem_of_singleton]%elem_of_app Hp'; [by apply Hmax|done].
  - case_bool_decide as Hx.
    + split_and!; [set_solver|done|done|]. intros d' [Hd'| ->%list_elem_of_singleton]%elem_of_app Hp'; [by destruct (IH d' Hd')|done].
    + intros d [Hd| ->%list_elem_of_singleton]%elem_of_app; [by apply IH|done].
Qed.

(** ** One run of the scheduler *)

Definition result_of (rt : CheckRuntime) (c : Completion) : option CheckResult := (run_check_with c.(c_world) c.(c_clock) c.(c_check) rt).2.
Definition key (c : Completion) : str := c.(c_check).(id).

(** The transition of one alert, seen from the state before the run. *)
Definition transition (rt : CheckRuntime) (before : gmap str Alert) (c : Completion) : option (option AlertEvent * Alert) :=
  r ← result_of rt c; a ← before !! key c; Some (process c.(c_clock).(noted) r a).
Definition event_of (rt : CheckRuntime) (before : gmap str Alert) (c : Completion) : option AlertEvent := transition rt before c ≫= fst.

Lemma result_of_id rt c r : result_of rt c = Some r -> r.(r_check_id) = key c.
Proof. unfold result_of, run_check_with. destruct (execute _ _ _) as [? []]; by intros [= <-]. Qed.

Lemma transition_ext rt m m' c : m !! key c = m' !! key c -> transition rt m c = transition rt m' c.
Proof. unfold transition. by intros ->. Qed.

Lemma take_all_spec rt l : forall s, NoDup (map key l) -> (forall c, c ∈ l -> is_Some (result_of rt c)) ->
  exists s', take_all rt l s = Some (omap (event_of rt s.(alert_manager).(alerts)) l, s') /\
    s'.(checks) = s.(checks) /\ s'.(runtime) = s.(runtime) /\ s'.(has_store) = s.(has_store) /\
    (forall c, c ∈ l -> s'.(last_results) !! key c = result_of rt c /\
       s'.(alert_manager).(alerts) !! key c = snd <$> transition rt s.(alert_manager).(alerts) c) /\
    (forall i, i ∉ map key l -> s'.(last_results) !! i = s.(last_results) !! i /\ s'.(alert_manager).(alerts) !! i = s.(alert_manager).(alerts) !! i).
Proof.
  induction l as [|c l IH]; intros s Hd Hr.
  { exists s. split_and!; try done. intros c Hc. by apply not_elem_of_nil in Hc. }
  cbn [map] in Hd. apply NoDup_cons in Hd as [Hc Hd].
  destruct (Hr c ltac:(left)) as [r Er]. pose proof (result_of_id _ _ _ Er) as Hid.
  set (s1 := (take_result c.(c_clock).(noted) r s).2).
  assert (H1 : (forall i, i <> key c -> s1.(last_results) !! i = s.(last_results) !! i /\ s1.(alert_manager).(alerts) !! i = s.(alert_manager).(alerts) !! i) /\
    s1.(last_results) !! key c = Some r /\ s1.(alert_manager).(alerts) !! key c = snd <$> transition rt s.(alert_manager).(alerts) c /\
    (take_result c.(c_clock).(noted) r s).1 = event_of rt s.(alert_manager).(alerts) c /\
    s1.(checks) = s.(checks) /\ s1.(runtime) = s.(runtime) /\ s1.(has_store) = s.(has_store)).
  { unfold s1, event_of, transition, take_result, manager_process. rewrite Er, Hid. cbn [mbind option_bind].
    destruct (s.(alert_manager).(alerts) !! key c) as [a|] eqn:Ea; cbn [mbind option_bind].
    - destruct (process c.(c_clock).(noted) r a) as [ev a'] eqn:Ep. cbn [fst snd last_results alert_manager alerts checks runtime has_store fmap option_fmap option_map].
      rewrite !lookup_insert_eq. split_and!; try done. intros i Hi. by rewrite !lookup_insert_ne.
    - cbn [fst snd last_results alert_manager alerts checks runtime has_store fmap option_fmap option_map].
      rewrite lookup_insert_eq. split_and!; try done. intros i Hi. by rewrite lookup_insert_ne. }
  destruct H1 as (Hothers & Hl1 & Ha1 & Hev & Hch & Hrt & Hst).
  destruct (IH s1 Hd) as (s' & E & Hch' & Hrt' & Hst' & Hin & Hout); [intros c' Hc'; apply Hr; by right|].
  assert (Hne : forall c', c' ∈ l -> key c' <> key c).
  { intros c' Hc' Hk. apply Hc. rewrite <-Hk. by apply list_elem_of_fmap_2. }
  assert (Hsame : forall c', c' ∈ l -> transition rt s1.(alert_manager).(alerts) c' = transition rt s.(alert_manager).(alerts) c').
  { intros c' Hc'. apply transition_ext. by apply Hothers, Hne. }
  exists s'. split_and!; [|by rewrite Hch'|by rewrite Hrt'|by rewrite Hst'| |].
  - cbn [take_all]. unfold result_of in Er. rewrite Er. rewrite (surjective_pairing (take_result _ r s)), Hev. fold s1. rewrite E. cbn [mbind option_bind].
    f_equal. f_equal. cbn [omap list_omap].
    assert (Eo : omap (event_of rt s1.(alert_manager).(alerts)) l = omap (event_of rt s.(alert_manager).(alerts)) l).
    { apply list_omap_ext, Forall_Forall2_diag, Forall_forall. intros c' Hc'. unfold event_of. by rewrite Hsame. }
    rewrite Eo. by destruct (event_of rt _ c).
  - intros c' [->|Hc']%elem_of_cons.
    + destruct (Hout (key c) Hc) as [-> ->]. by rewrite Hl1, Er.
    + rewrite <-(Hsame c' Hc'). by apply Hin.
  - cbn [map]. intros i [Hi Hil]%not_elem_of_cons. destruct (Hout i Hil) as [-> ->]. by apply Hothers.
Qed.

(** A run in which every check answers, whatever the order in which they do, steps the
    alert of each check once, with the result of that check, and no other alert; records the
    result; emits exactly the events of these steps; and saves the alerts as they then are. *)
Theorem run_all_spec l s : map c_check l ≡ₚ s.(checks) -> NoDup (map id s.(checks)) -> (forall c, c ∈ l -> is_Some (result_of s.(runtime) c)) ->
  let before := s.(alert_manager).(alerts) in
  exists s', run_all l s = Some (omap (event_of s.(runtime) before) l, if s.(has_store) then Some s'.(alert_manager).(alerts) else None, s') /\
    s'.(checks) = s.(checks) /\
    (forall c, c ∈ l -> last_result c.(c_check).(id) s' = result_of s.(runtime) c /\
       s'.(alert_manager).(alerts) !! c.(c_check).(id) = snd <$> transition s.(runtime) before c) /\
    (forall i, i ∉ map id s.(checks) -> last_result i s' = last_result i s /\ s'.(alert_manager).(alerts) !! i = before !! i).
Proof.
  intros Hl Hd Hr before.
  assert (Hk : map key l ≡ₚ map id s.(checks)) by (rewrite <-Hl, List.map_map; reflexivity).
  destruct (take_all_spec s.(runtime) l s) as (s' & E & Hch & Hrt & Hst & Hin & Hout); [by rewrite Hk|done|].
  exists s'. split_and!; [unfold run_all; rewrite E; cbn [mbind option_bind]; by rewrite Hst|done|done|].
  intros i Hi. apply Hout. by rewrite Hk.
Qed.

(** The order in which checks finish changes nothing but the order of the events. *)
Theorem run_order l l' s : map c_check l ≡ₚ s.(checks) -> NoDup (map id s.(checks)) -> (forall c, c ∈ l -> is_Some (result_of s.(runtime) c)) -> l ≡ₚ l' ->
  exists evs evs' saved s1, run_all l s = Some (evs, saved, s1) /\ run_all l' s = Some (evs', saved, s1) /\ evs ≡ₚ evs'.
Proof.
  intros Hl Hd Hr Hp.
  assert (Hk : map key l ≡ₚ map id s.(checks)) by (rewrite <-Hl, List.map_map; reflexivity).
  destruct (take_all_spec s.(runtime) l s) as (s1 & E & Hch & Hrt & Hst & Hin & Hout); [by rewrite Hk|done|].
  destruct (take_all_spec s.(runtime) l' s) as (s2 & E2 & Hch2 & Hrt2 & Hst2 & Hin2 & Hout2); [by rewrite <-Hp, Hk|by intros c; rewrite <-Hp; apply Hr|].
  assert (Hs : s1 = s2).
  { destruct s1 as [c1 [a1] l1 r1 h1], s2 as [c2 [a2] l2 r2 h2]. cbn [checks runtime has_store alert_manager alerts last_results] in *. subst.
    assert (Hi : forall i, l1 !! i = l2 !! i /\ a1 !! i = a2 !! i).
    { intros i. destruct (decide (i ∈ map key l)) as [Hi|Hi].
      - apply list_elem_of_fmap in Hi as (c & -> & Hc). destruct (Hin c Hc) as [-> ->]. rewrite Hp in Hc. by destruct (Hin2 c Hc) as [-> ->].
      - destruct (Hout i Hi) as [-> ->]. rewrite Hp in Hi. by destruct (Hout2 i Hi) as [-> ->]. }
    f_equal; [f_equal|]; apply map_eq; apply Hi. }
  subst s2. do 4 eexists. split_and!; [unfold run_all; rewrite E; cbn [mbind option_bind]; done|unfold run_all; rewrite E2; cbn [mbind option_bind]; done|].
  by rewrite Hp.
Qed.

(** ** Runs of the scheduler *)

Fixpoint run_many (ls : list (list Completion)) (s : CheckScheduler) : option CheckScheduler :=
  match ls with
  | [] => Some s
  | l :: ls => '(_, _, s) ← run_all l s; run_many ls s
  end.

(** A run of all the checks of [chs] in which every check answers. *)
Definition full_run (rt : CheckRuntime) (chs : list Check) (l : list Completion) : Prop :=
  map c_check l ≡ₚ chs /\ forall c, c ∈ l -> is_Some (result_of rt c).

(** In the run [l], the check [c] fails. *)
Definition fails_in (rt : CheckRuntime) (c : Check) (l : list Completion) : Prop :=
  forall x r, x ∈ l -> c_check x = c -> result_of rt x = Some r -> failing r.(r_status) = true.

(** An alert that is not resolved, after [n] failures in a row since it was added. *)
Definition failed (f : Z) (n : nat) (a : Alert) : Prop :=
  a.(failure_threshold) = f /\ Z.of_nat n <= a.(consecutive_failures) /\ a.(state) <> Resolved /\ ((1 <= n)%nat -> a.(state) <> A_Ok) /\
  ((2 <= n)%nat -> f <= Z.of_nat n -> a.(state) = Firing).

Lemma failed_again f n a now res : failed f n a -> a.(consecutive_failures) + 1 < 2 ^ 32 -> failing res.(r_status) = true ->
  failed f (S n) (process now res a).2 /\ (process now res a).2.(consecutive_failures) = a.(consecutive_failures) + 1.
Proof.
  intros (Hf & Hn & Hr & H1 & H2) Hw Hst.
  assert (Ep : (process now res a).2 = on_failure now res.(r_message) (seen res.(r_timestamp) a)) by (unfold process; by destruct (r_status res)).
  rewrite Ep. unfold failed, on_failure, seen. cbn [state failure_threshold consecutive_failures]. rewrite wadd_small by lia. subst f.
  split; [|done]. split_and!; [done|lia|by destruct (failure_threshold a <=? _), (state a)|intros _; by destruct (failure_threshold a <=? _), (state a)|].
  intros Hs Hle. destruct (state a) eqn:E; [|by rewrite (proj2 (Z.leb_le _ _)) by lia|done..]. by destruct H1; [lia|].
Qed.

Lemma run_many_fails c ls : forall s n a, NoDup (map id s.(checks)) -> c ∈ s.(checks) ->
  s.(alert_manager).(alerts) !! c.(id) = Some a -> failed c.(c_failure_threshold) n a -> a.(consecutive_failures) + Z.of_nat (length ls) < 2 ^ 32 ->
  Forall (fun l => full_run s.(runtime) s.(checks) l /\ fails_in s.(runtime) c l) ls ->
  exists s' a', run_many ls s = Some s' /\ s'.(alert_manager).(alerts) !! c.(id) = Some a' /\ failed c.(c_failure_threshold) (n + length ls) a'.
Proof.
  induction ls as [|l ls IH]; intros s n a Hd Hc Ha Haf Hw Hls.
  { exists s, a. split_and!; [done..|]. by rewrite Nat.add_0_r. }
  apply Forall_cons in Hls as [[[Hl Hr] Hfail] Hls]. cbn [length] in Hw.
  assert (Hk : map key l ≡ₚ map id s.(checks)) by (rewrite <-Hl, List.map_map; reflexivity).
  destruct (take_all_spec s.(runtime) l s) as (s1 & E & Hch & Hrt & Hst & Hin & _); [by rewrite Hk|done|].
  assert (Hx : c ∈ map c_check l) by (by rewrite Hl). apply list_elem_of_fmap in Hx as (x & Ex & Hx).
  destruct (Hr x Hx) as [r Er]. destruct (Hin x Hx) as [_ Ha1]. unfold transition, key in Ha1. rewrite Er, <-Ex in Ha1. cbn [mbind option_bind] in Ha1.
  rewrite Ha in Ha1. cbn [mbind option_bind fmap option_fmap option_map] in Ha1.
  destruct (failed_again _ _ _ x.(c_clock).(noted) r Haf) as [Haf' Hcf]; [lia|by eapply Hfail|].
  destruct (IH s1 (S n) (process x.(c_clock).(noted) r a).2) as (s' & a' & E' & Ha' & Hf'); [by rewrite Hch|by rewrite Hch|done|done|rewrite Hcf; lia|by rewrite Hch, Hrt|].
  exists s', a'. split_and!; [|done|cbn [length]; by rewrite Nat.add_succ_r]. cbn [run_many]. unfold run_all. rewrite E. exact E'.
Qed.

(** C27: A check is added, for which there is no alert yet or one (kept from before, or restored)
    in any state but resolved, and with it the checks have different identifiers.  If every
    check answers in a number of runs that is at least two and at least the threshold of this
    one, and this one fails in all of them, it ends up among the firing alerts, in whatever
    order the checks finish and whatever the others answer, unless the count of failures
    overflows. *)
Theorem failing_check_fires c s ls it :
  (forall a, s.(alert_manager).(alerts) !! c.(id) = Some a ->
     a.(state) <> Resolved /\ 0 <= a.(consecutive_failures) /\ a.(consecutive_failures) + Z.of_nat (length ls) < 2 ^ 32) ->
  NoDup (map id (s.(checks) ++ [c])) ->
  Forall (fun l => full_run s.(runtime) (s.(checks) ++ [c]) l /\ fails_in s.(runtime) c l) ls ->
  2 <= Z.of_nat (length ls) < 2 ^ 32 -> c.(c_failure_threshold) <= Z.of_nat (length ls) ->
  (forall m, iter_of m (it m)) ->
  exists s' a, run_many ls (add_check c s) = Some s' /\ s'.(alert_manager).(alerts) !! c.(id) = Some a /\ a ∈ firing_alerts it s'.
Proof.
  intros Hold Hd Hls Hn Ht Hit. set (s0 := add_check c s).
  assert (Ha : exists a, s0.(alert_manager).(alerts) !! c.(id) = Some a /\ failed c.(c_failure_threshold) 0 a /\ a.(consecutive_failures) + Z.of_nat (length ls) < 2 ^ 32).
  { unfold s0, add_check, register. cbn [alert_manager]. destruct (alerts (alert_manager s) !! c.(id)) as [a|] eqn:E; cbn [alerts]; rewrite lookup_insert_eq; (eexists; split; [done|]).
    - destruct (Hold a eq_refl) as (H1 & H2 & H3). split; [|done]. split_and!; [done..|lia|lia].
    - split; [|cbn; lia]. split_and!; [done..|lia|lia]. }
  destruct Ha as (a0 & Ha & Hf & Hw).
  destruct (run_many_fails c ls s0 0 a0 Hd ltac:(set_solver) Ha Hf Hw Hls) as (s' & a & E & Ha' & _ & _ & _ & _ & Hfire).
  exists s', a. split_and!; [done|done|]. apply list_elem_of_filter.
  split; [|by apply list_elem_of_fmap; exists (c.(id), a); split; [|apply (iter_of_elem _ _ _ _ (Hit _))]]. apply Hfire; cbn [Nat.add]; lia.
Qed.

(** What is saved brings the alerts back: a new scheduler that loads it and is given the same
    checks again is firing for what was firing. *)
Theorem store_brings_back rt cs snap c a : snap !! c.(id) = Some a -> c ∈ cs -> NoDup (map id cs) ->
  exists a', (foldl (fun s c => add_check c s) (with_store (Ok snap) (with_runtime rt)) cs).(alert_manager).(alerts) !! c.(id) = Some a' /\
    a'.(state) = a.(state) /\ a'.(consecutive_failures) = a.(consecutive_failures) /\ a'.(fired_at) = a.(fired_at).
Proof.
  intros Ha Hc Hd.
  assert (Hgen : forall l s x, s.(alert_manager).(alerts) !! c.(id) = Some x ->
    exists a', (foldl (fun s c => add_check c s) s l).(alert_manager).(alerts) !! c.(id) = Some a' /\
      a'.(state) = x.(state) /\ a'.(consecutive_failures) = x.(consecutive_failures) /\ a'.(fired_at) = x.(fired_at)).
  { induction l as [|y l IH]; intros s x Hx; [by exists x|]. cbn [foldl].
    destruct (decide (y.(id) = c.(id))) as [E|E].
    - destruct (IH (add_check y s) (set_thresholds y.(name) y.(c_failure_threshold) y.(c_recovery_threshold) x)) as (a' & Ha' & H); [|by exists a'].
      unfold add_check, register. rewrite E, Hx. cbn [alert_manager alerts]. by rewrite lookup_insert_eq.
    - apply IH. unfold add_check, register. cbn [alert_manager]. destruct (s.(alert_manager).(alerts) !! y.(id)); cbn [alerts]; by rewrite lookup_insert_ne. }
  by apply Hgen.
Qed.

(** ** Where the code departs from what it says *)

(** A removed check is no longer run, and its alert stays as it was, firing or not. *)
Theorem removed_still_firing it i s : firing_alerts it (remove_check i s) = firing_alerts it s /\
  forall l, full_run s.(runtime) (remove_check i s).(checks) l -> NoDup (map id s.(checks)) ->
    exists evs saved s', run_all l (remove_check i s) = Some (evs, saved, s') /\ s'.(alert_manager).(alerts) !! i = s.(alert_manager).(alerts) !! i.
Proof.
  split; [done|]. intros l [Hl Hr] Hd.
  assert (Hk : map key l ≡ₚ map id (remove_check i s).(checks)) by (rewrite <-Hl, List.map_map; reflexivity).
  destruct (take_all_spec s.(runtime) l (remove_check i s)) as (s' & E & _ & _ & _ & _ & Hout); [|done|].
  - rewrite Hk. assert (Ef : map id (remove_check i s).(checks) = filter (fun n => n <> i) (map id s.(checks))) by (by rewrite list_filter_map).
    rewrite Ef. by apply NoDup_filter.
  - do 3 eexists. split; [unfold run_all; cbn [remove_check runtime] in E |- *; rewrite E; reflexivity|]. apply Hout. rewrite Hk.
    intros (c & -> & Hc)%list_elem_of_fmap. cbn [remove_check checks] in Hc. by apply list_elem_of_filter in Hc as [[] _].
Qed.

(** The interval of a check is not looked at: every run executes every check. *)
Theorem interval_unused w t c rt n :
  run_check_with w t {| id := c.(id); name := c.(name); check_type := c.(check_type); interval_secs := n; timeout_secs := c.(timeout_secs);
                        c_failure_threshold := c.(c_failure_threshold); c_recovery_threshold := c.(c_recovery_threshold) |} rt = run_check_with w t c rt.
Proof. done. Qed.

Lemma drain_blocks pipe ws out err : pipe < Z.of_nat (length (err ++ concat (map (fun x => match x with ToErr b => b | ToOut _ => [] end) ws))) ->
  Z.of_nat (length err) <= pipe -> drain pipe ws out err = None.
Proof.
  revert out err. induction ws as [|[b|b] ws IH]; intros out err Hlt Hle; cbn [map concat drain] in *.
  - rewrite app_nil_r in Hlt. lia.
  - by apply IH.
  - destruct (Z.ltb_spec pipe (Z.of_nat (length (err ++ b)))); [done|]. apply IH; [by rewrite <-app_assoc|done].
Qed.

(** A command that writes more to its standard error than a pipe holds is never waited for: it
    exits with success, and the check reports a timeout. *)
Theorem noisy_command_times_out w command args policy resolved child :
  resolve_binary w command = Some resolved -> w.(is_file) resolved = true -> resolved ∈ policy.(allowed_binaries) -> w.(canonicalize) resolved = Some resolved ->
  w.(spawn) resolved args = Ok child -> child.(exit_code) = Some 0 -> 0 <= w.(pipe_capacity) < Z.of_nat (length (err_of child)) ->
  (run_command_check w command args policy).2 = Answer S_Critical (lit "timeout").
Proof.
  intros Hr Hf Hin Hcan Hs Hcode Hlen. unfold run_command_check. rewrite bool_decide_eq_false_2 by set_solver. rewrite Hr, Hf. cbn [negb].
  rewrite (proj2 (existsb_exists _ _)); [cbn [negb]|].
  2: { exists resolved. split; [by apply list_elem_of_In, elem_of_elements|by apply bool_decide_eq_true_2]. }
  rewrite Hs. unfold wait_fut. rewrite drain_blocks by (cbn [app length]; unfold err_of in Hlen; lia). by destruct child.(in_time).
Qed.

End Checks.

(** The check that a host cannot inject arguments lets a host through that is an option. *)
Theorem host_is_option w : (ping_unix w (lit "-f") 5).1 <> [] -> forallb host_char (lit "-f") = true /\
  exists env n, Started (lit "ping") [lit "-c"; lit "1"; lit "-n"; lit "-f"] env n ∈ (ping_unix w (lit "-f") 5).1.
Proof.
  intros H. split; [done|]. unfold ping_unix in H |- *. change (forallb host_char (lit "-f")) with true in H |- *. cbn [negb] in H |- *.
  change (Z.max 5 1 + 1 <? 2 ^ 64) with true in H |- *. cbn [negb] in H |- *. destruct (w.(spawn) _ _) as [child|]; [|done].
  exists w.(environment), child.(pid). destruct (in_time child); [destruct (wait_error child)|]; left.
Qed.

(** A body without the expected text whose hundredth byte is inside a character makes the
    check panic, and with it the whole run. *)
Theorem sample_inside_character w rest : let body := repeat 97 99 ++ [233] ++ rest in
  Forall is_scalar rest -> byte_len body <= 10 * 1024 * 1024 -> contains_str (lit "ready") body = false ->
  w.(http_get) (lit "http://h/") = Some (Response 200 [Ok (as_bytes body)]) ->
  run_http_check w default_http_policy (lit "http://h/") 200 (Some (lit "ready")) 5 = Panicked.
Proof.
  intros body Hs Hlen Hno Hw. unfold run_http_check, one_more. rewrite Hw. change (5 + 1 <? 2 ^ 64) with true. change (200 =? 200) with true. cbn [negb].
  assert (Hb : Forall is_scalar body).
  { unfold body. apply Forall_app. split; [|apply Forall_app; split; [|done]].
    - apply Forall_forall. intros c Hc. apply list_elem_of_In, repeat_spec in Hc as ->. left. lia.
    - constructor; [left; lia|constructor]. }
  change [Ok (as_bytes body)] with (map (@Ok str (list byte)) [as_bytes body]). rewrite read_body_spec by (cbn; lia).
  cbn [app concat]. rewrite app_nil_r, take_ge by (rewrite byte_len_as_bytes in Hlen; cbn [default_http_policy response_size_cap_bytes]; lia).
  cbv zeta. rewrite from_utf8_lossy_as_bytes, Hno by done.
  rewrite Z.min_r.
  - unfold body. by vm_compute.
  - unfold body. rewrite byte_len_app, byte_len_app. pose proof (byte_len_nonneg rest).
    change (byte_len (repeat 97 99)) with 99. change (byte_len [233]) with 2. lia.
Qed.

(** ** Witnesses *)

Module MonitorExamples.

Definition closed_world : World :=
  {| http_get _ := None; tcp_connect _ := Some (Err (lit "connection refused")); spawn _ _ := Ok {| pid := 7; writes := [ToOut [z2b 111]]; exit_code := Some 0; wait_error := None; in_time := true |};
     pipe_capacity := 65536; exists_path _ := true; disks := []; processes := [(1, lit "init")];
     canonicalize p := Some p; is_file _ := true; environment := {[ lit "PATH" := lit "/bin"; lit "SECRET" := lit "x" ]} |}.
Definition sample_check (i : string) (t : CheckType) : Check :=
  {| id := lit i; name := lit i; check_type := t; interval_secs := 60; timeout_secs := 5; c_failure_threshold := 2; c_recovery_threshold := 1 |}.
Definition tcp_check : Check := sample_check "tcp" (Tcp (lit "127.0.0.1") 19999).
Definition process_check : Check := sample_check "init" (Process (lit "init")).
Definition true_check : Check := sample_check "true" (Command (lit "/bin/true") [lit "-v"]).
Definition true_policy : CommandCheckPolicy :=
  {| allowed_binaries := {[ lit "/bin/true" ]}; max_output_bytes := 100; inherit_env := false; allowed_env_keys := {[ lit "PATH" ]} |}.
Definition at_time (n : Z) (c : Check) : Completion := {| c_check := c; c_world := closed_world; c_clock := {| took_ms := 3; ended := n; noted := n |} |}.
Definition no_fmt (x : f64) : str := [].
Definition sched : CheckScheduler := add_check process_check (with_runtime new_runtime).
Definition sched2 : CheckScheduler := add_check tcp_check sched.
Definition one_run (n : Z) : list Completion := [at_time n tcp_check; at_time (n + 1) process_check].

Abbreviation all_answer := (run_all no_fmt no_fmt to_ascii_lowercase).

Lemma one_run_answers n c : c ∈ one_run n -> is_Some (result_of no_fmt no_fmt to_ascii_lowercase new_runtime c).
Proof. unfold one_run. rewrite !elem_of_cons, elem_of_nil. intros [->|[->|[]]]; by eexists. Defined.

Lemma programs_confined_witness :
  (execute no_fmt no_fmt to_ascii_lowercase closed_world true_check (with_policy true_policy)).1 =
    [Started (lit "/bin/true") [lit "-v"] {[ lit "PATH" := lit "/bin" ]} 7] /\
  permitted closed_world true_check (with_policy true_policy)
    (execute no_fmt no_fmt to_ascii_lowercase closed_world true_check (with_policy true_policy)).1
    (Started (lit "/bin/true") [lit "-v"] {[ lit "PATH" := lit "/bin" ]} 7) /\
  (execute no_fmt no_fmt to_ascii_lowercase closed_world true_check new_runtime).1 = [].
Proof.
  assert (E : (execute no_fmt no_fmt to_ascii_lowercase closed_world true_check (with_policy true_policy)).1 =
    [Started (lit "/bin/true") [lit "-v"] {[ lit "PATH" := lit "/bin" ]} 7]) by (by vm_compute).
  split_and!; [exact E| |].
  - apply (programs_confined no_fmt no_fmt to_ascii_lowercase closed_world true_check (with_policy true_policy)); [done|]. rewrite E. left.
  - by apply (programs_confined no_fmt no_fmt to_ascii_lowercase closed_world true_check new_runtime).
Defined.

Lemma run_all_spec_witness : map c_check (one_run 7) ≡ₚ sched2.(checks) /\
  exists s', all_answer (one_run 7) sched2 = Some (omap (event_of no_fmt no_fmt to_ascii_lowercase new_runtime sched2.(alert_manager).(alerts)) (one_run 7), None, s') /\
    s'.(checks) = sched2.(checks).
Proof.
  assert (Hp : map c_check (one_run 7) ≡ₚ sched2.(checks)) by apply Permutation_swap.
  split; [exact Hp|].
  destruct (run_all_spec no_fmt no_fmt to_ascii_lowercase (one_run 7) sched2 Hp) as (s' & E & Hch & _).
  - apply (bool_decide_unpack _). by vm_compute.
  - apply (one_run_answers 7).
  - exists s'. split; [exact E|exact Hch].
Defined.

Lemma failing_check_fires_witness : exists s' a, run_many no_fmt no_fmt to_ascii_lowercase [one_run 1; one_run 5] sched2 = Some s' /\
  s'.(alert_manager).(alerts) !! lit "tcp" = Some a /\ a ∈ firing_alerts map_to_list s'.
Proof.
  assert (Hrun : forall n, full_run no_fmt no_fmt to_ascii_lowercase new_runtime [process_check; tcp_check] (one_run n) /\
                           fails_in no_fmt no_fmt to_ascii_lowercase new_runtime tcp_check (one_run n)).
  { intros n. split; [split; [apply Permutation_swap|apply one_run_answers]|].
    intros x r Hx Ex Er. unfold one_run in Hx. rewrite !elem_of_cons, elem_of_nil in Hx. destruct Hx as [->|[->|[]]]; [|done].
    vm_compute in Er. by injection Er as <-. }
  apply (failing_check_fires no_fmt no_fmt to_ascii_lowercase tcp_check sched [one_run 1; one_run 5] map_to_list).
  - intros a Ha. assert (E : sched.(alert_manager).(alerts) !! tcp_check.(id) = None) by (vm_compute; reflexivity). rewrite E in Ha. discriminate Ha.
  - apply (bool_decide_unpack _). by vm_compute.
  - repeat constructor; apply Hrun.
  - by split.
  - by vm_compute.
  - intros m. apply iter_of_self.
Defined.

End MonitorExamples.
