(* ===== verification/Oidc.v ===== *)
(** * Tokens of an identity provider

    [runesh-auth]: the verifier of tokens that an identity provider signs ([jwks.rs],
    [OidcVerifier]) with its cache of the provider's keys, the exchange of a code for the
    identity of a user ([oidc.rs], [OidcProvider]) and the sessions of the flow in Redis
    ([RedisOidcSessionStore]).  [OidcJwt] stands for the [jsonwebtoken] crate, with what its
    documentation says in [OidcJwtLaws]; the provider is what its endpoints answer at a time.
    Validations run concurrently over one cache: [vstep] interleaves their steps. *)
From S2P Require Import Prelude Str Auth AuthFlow.

#[local] Open Scope Z_scope.

(** ** Keys *)

Record Jwk := { kid : str; kty : str; jwk_alg : option str; jwk_n : option str; jwk_e : option str; jwk_x : option str; jwk_y : option str }.

(** The claims of a token of the provider, as the two decoders read them. *)
Record OidcClaims := {
  o_sub : str; o_email : option str; o_name : option str; preferred_username : option str;
  o_exp : Z; o_iat : option Z; realm_roles : option (list str)
}.
Record IdTokenClaims := {
  i_sub : str; i_email : option str; i_preferred_username : option str; i_name : option str;
  oid : option str; picture : option str; groups : option (list str)
}.

Class OidcJwt := {
  Key : Type;
  from_rsa_components : str -> str -> result str Key;
  from_ec_components : str -> str -> result str Key;
  from_ed_components : str -> result str Key;
  token_header : str -> result str (Algorithm * option str);
  decode_oidc : Z -> str -> Key -> Algorithm -> Validation -> result str OidcClaims;
  decode_id : Z -> str -> Key -> Algorithm -> Validation -> result str IdTokenClaims;
  decode_unsigned : Z -> str -> Validation -> result str IdTokenClaims
}.

(** The registered claims of a token, and what the crate accepts of them: as [Auth.accepts]. *)
Record Registered := { reg_exp : option Z; reg_iss : option str; reg_aud : option (list str) }.
Definition registered_ok (v : Validation) (now : Z) (r : Registered) : Prop :=
  match r.(reg_exp) with Some e => now - 60 <= e | None => lit "exp" ∉ v.(required_spec_claims) end
  /\ match v.(valid_iss) with
     | Some l => match r.(reg_iss) with Some i => i ∈ l | None => lit "iss" ∉ v.(required_spec_claims) end
     | None => True
     end
  /\ (v.(validate_aud) = true ->
      match r.(reg_aud), v.(valid_aud) with
      | Some a, Some l => Exists (fun x => x ∈ l) a
      | Some _, None => False
      | None, _ => lit "aud" ∉ v.(required_spec_claims)
      end).

#[global] Instance registered_ok_dec v now r : Decision (registered_ok v now r).
Proof. unfold registered_ok. repeat case_match; apply _. Defined.

Class OidcJwtLaws `{OidcJwt} := {
  signed : Key -> Algorithm -> str -> Prop;
  registered : str -> Registered;
  oidc_payload : str -> option OidcClaims;
  id_payload : str -> option IdTokenClaims;
  decode_oidc_spec now t k a v c :
    decode_oidc now t k a v = Ok c <-> signed k a t /\ registered_ok v now (registered t) /\ oidc_payload t = Some c;
  decode_id_spec now t k a v c :
    decode_id now t k a v = Ok c <-> signed k a t /\ registered_ok v now (registered t) /\ id_payload t = Some c;
  decode_unsigned_spec now t v c :
    decode_unsigned now t v = Ok c <-> registered_ok v now (registered t) /\ id_payload t = Some c
}.

Definition is_asymmetric (a : Algorithm) : bool := match a with HS256 | HS384 | HS512 => false | _ => true end.

Definition alg_name (a : Algorithm) : str :=
  lit match a with
      | HS256 => "HS256" | HS384 => "HS384" | HS512 => "HS512" | RS256 => "RS256" | RS384 => "RS384" | RS512 => "RS512"
      | ES256 => "ES256" | ES384 => "ES384" | PS256 => "PS256" | PS384 => "PS384" | PS512 => "PS512" | EdDSA => "EdDSA"
      end.

Section Oidc.
Context `{OidcJwt}.

Definition jwt_err {A} (r : result str A) : result AuthError A := match r with Ok x => Ok x | Err e => Err (JwtError e) end.
Definition missing {A} (what : string) (o : option A) : result AuthError A := ok_or (TokenInvalid (lit what)) o.

Definition decoding_key_from_jwk (jwk : Jwk) : result AuthError Key :=
  if bool_decide (jwk.(kty) = lit "RSA") then
    n ← missing "RSA jwk missing n" jwk.(jwk_n);
    e ← missing "RSA jwk missing e" jwk.(jwk_e);
    jwt_err (from_rsa_components n e)
  else if bool_decide (jwk.(kty) = lit "EC") then
    x ← missing "EC jwk missing x" jwk.(jwk_x);
    y ← missing "EC jwk missing y" jwk.(jwk_y);
    jwt_err (from_ec_components x y)
  else if bool_decide (jwk.(kty) = lit "OKP") then
    x ← missing "OKP jwk missing x" jwk.(jwk_x);
    jwt_err (from_ed_components x)
  else Err (TokenInvalid (lit "unsupported JWK kty: " ++ jwk.(kty))).

(** ** The verifier *)

Record CachedKeys := { keys : gmap str Key; fetched_at : Z }.

(** What does not change after [discover]; times are in seconds. *)
Record Verifier := { v_issuer : str; v_audience : option str; cache_ttl : Z }.

Definition discovered (issuer : str) (audience : option str) : Verifier := {| v_issuer := issuer; v_audience := audience; cache_ttl := 3600 |}.

(** What the JWKS endpoint answers at a time: the keys, or why they could not be had. *)
Context (jwks_at : Z -> result str (list Jwk)).

Definition add_key (m : gmap str Key) (jwk : Jwk) : gmap str Key :=
  match decoding_key_from_jwk jwk with Ok key => <[jwk.(kid) := key]> m | Err _ => m end.

(** [refresh_keys] up to the write lock, when the endpoint answers; and under the lock, some time
    later: the keys are stamped with the time they are stored at. *)
Definition fetch_keys (now : Z) : result AuthError (gmap str Key) :=
  match jwks_at now with
  | Err e => Err (Discovery e)
  | Ok jwks => Ok (foldl add_key ∅ jwks)
  end.
Definition store_keys (now : Z) (ks : gmap str Key) : option CachedKeys := Some {| keys := ks; fetched_at := now |}.

Definition refresh_keys (now later : Z) (cache : option CachedKeys) : result AuthError unit * option CachedKeys :=
  match fetch_keys now with
  | Err e => (Err e, cache)
  | Ok ks => (Ok tt, store_keys later ks)
  end.

(** [lookup_key]: the fast path, and the read after the refresh. *)
Definition cached_key (v : Verifier) (now : Z) (k : str) (cache : option CachedKeys) : option Key :=
  cached ← cache;
  if now - cached.(fetched_at) <? v.(cache_ttl) then cached.(keys) !! k else None.
Definition key_after_refresh (k : str) (cache : option CachedKeys) : result AuthError Key :=
  ok_or (TokenInvalid (lit "kid " ++ k ++ lit " not found in JWKS")) (cached ← cache; cached.(keys) !! k).

Definition lookup_key (v : Verifier) (now later : Z) (k : str) (cache : option CachedKeys) : result AuthError Key * option CachedKeys :=
  match cached_key v now k cache with
  | Some key => (Ok key, cache)
  | None => match refresh_keys now later cache with
            | (Err e, cache) => (Err e, cache)
            | (Ok _, cache) => (key_after_refresh k cache, cache)
            end
  end.

Definition default_role (r : str) : bool := starts_with (lit "default-roles-") r || starts_with (lit "offline_") r || starts_with (lit "uma_") r.

Definition into_runesh_claims (c : OidcClaims) (iss : option str) (aud : option (list str)) : Claims :=
  {| sub := c.(o_sub); email := default [] c.(o_email);
     name := match c.(o_name) with Some n => n | None => default (lit "user") c.(preferred_username) end;
     role := default (lit "user") (roles ← c.(realm_roles); head (filter (fun r => default_role r = false) roles));
     permissions := default [] c.(realm_roles);
     exp := c.(o_exp); iat := default 0 c.(o_iat); iss := iss; aud := aud |}.

(** [validate], before and after the key is there. *)
Definition read_header (token : str) : result AuthError (Algorithm * str) :=
  '(alg, k) ← jwt_err (token_header token);
  if negb (is_asymmetric alg) then Err (TokenInvalid (lit "OIDC verifier rejected algorithm " ++ alg_name alg ++ lit " (expected RS*/ES*/PS*)"))
  else k ← missing "missing kid in JWT header" k; Ok (alg, k).

Definition oidc_validation (v : Verifier) : Validation :=
  {| valid_iss := Some [v.(v_issuer)];
     valid_aud := (fun a => [a]) <$> v.(v_audience);
     validate_aud := match v.(v_audience) with Some _ => true | None => false end;
     required_spec_claims := [lit "exp"; lit "iss"] |}.

Definition check_token (v : Verifier) (now : Z) (token : str) (alg : Algorithm) (key : Key) : result AuthError Claims :=
  c ← jwt_err (decode_oidc now token key alg (oidc_validation v));
  Ok (into_runesh_claims c (Some v.(v_issuer)) ((fun a => [a]) <$> v.(v_audience))).

Definition validate (v : Verifier) (now later : Z) (token : str) (cache : option CachedKeys) : result AuthError Claims * option CachedKeys :=
  match read_header token with
  | Err e => (Err e, cache)
  | Ok (alg, k) =>
      match lookup_key v now later k cache with
      | (Err e, cache) => (Err e, cache)
      | (Ok key, cache) => (check_token v later token alg key, cache)
      end
  end.

(** ** Validations side by side *)

Inductive phase : Type := Looking | Refreshing | Storing (answered : Z) (ks : gmap str Key) | Reading.
Record Call := { c_token : str; c_alg : Algorithm; c_kid : str; c_started : Z; c_phase : phase }.
Record VState := { cache : option CachedKeys; calls : gmap nat Call }.

Definition in_phase (p : phase) (c : Call) : Call :=
  {| c_token := c.(c_token); c_alg := c.(c_alg); c_kid := c.(c_kid); c_started := c.(c_started); c_phase := p |}.

(** One step of one call, at a time: up to the next lock it takes, or the next answer it waits
    for.  A step that ends a call has its answer. [delay] bounds the time between the
    answer of the endpoint and the store of its keys. *)
Context (delay : Z).
Inductive vstep (v : Verifier) (now : Z) : VState -> option (Call * result AuthError Claims) -> VState -> Prop :=
  | V_start s i token alg k : s.(calls) !! i = None -> read_header token = Ok (alg, k) ->
      vstep v now s None {| cache := s.(cache); calls := <[i := {| c_token := token; c_alg := alg; c_kid := k; c_started := now; c_phase := Looking |}]> s.(calls) |}
  | V_hit s i c key : s.(calls) !! i = Some c -> c.(c_phase) = Looking -> cached_key v now c.(c_kid) s.(cache) = Some key ->
      vstep v now s (Some (c, check_token v now c.(c_token) c.(c_alg) key)) {| cache := s.(cache); calls := delete i s.(calls) |}
  | V_miss s i c : s.(calls) !! i = Some c -> c.(c_phase) = Looking -> cached_key v now c.(c_kid) s.(cache) = None ->
      vstep v now s None {| cache := s.(cache); calls := <[i := in_phase Refreshing c]> s.(calls) |}
  | V_fetch s i c ks : s.(calls) !! i = Some c -> c.(c_phase) = Refreshing -> fetch_keys now = Ok ks ->
      vstep v now s None {| cache := s.(cache); calls := <[i := in_phase (Storing now ks) c]> s.(calls) |}
  | V_fetch_failed s i c e : s.(calls) !! i = Some c -> c.(c_phase) = Refreshing -> fetch_keys now = Err e ->
      vstep v now s (Some (c, Err e)) {| cache := s.(cache); calls := delete i s.(calls) |}
  | V_store s i c answered ks : s.(calls) !! i = Some c -> c.(c_phase) = Storing answered ks -> now <= answered + delay ->
      vstep v now s None {| cache := store_keys now ks; calls := <[i := in_phase Reading c]> s.(calls) |}
  | V_read s i c : s.(calls) !! i = Some c -> c.(c_phase) = Reading ->
      vstep v now s (Some (c, key ← key_after_refresh c.(c_kid) s.(cache); check_token v now c.(c_token) c.(c_alg) key))
        {| cache := s.(cache); calls := delete i s.(calls) |}.

(** What the steps lead to while the clock goes on. *)
Inductive reach (v : Verifier) : Z -> VState -> Prop :=
  | reach_start t : reach v t {| cache := None; calls := ∅ |}
  | reach_step t now s l s' : reach v t s -> t <= now -> vstep v now s l s' -> reach v now s'.

(** A key that the provider published under an identifier at a time. *)
Definition published (t : Z) (k : str) (key : Key) : Prop :=
  exists jwks jwk, jwks_at t = Ok jwks /\ jwk ∈ jwks /\ jwk.(kid) = k /\ decoding_key_from_jwk jwk = Ok key.

Lemma add_keys_published jwks k key : foldl add_key ∅ jwks !! k = Some key -> exists jwk, jwk ∈ jwks /\ jwk.(kid) = k /\ decoding_key_from_jwk jwk = Ok key.
Proof.
  induction jwks as [|x jwks IH] using rev_ind; [done|]. rewrite foldl_snoc. unfold add_key at 1.
  assert (Hrec : foldl add_key ∅ jwks !! k = Some key -> exists jwk, jwk ∈ jwks ++ [x] /\ jwk.(kid) = k /\ decoding_key_from_jwk jwk = Ok key).
  { intros (jwk & Hj & ?)%IH. exists jwk. split; [set_solver|done]. }
  destruct (decoding_key_from_jwk x) as [kx|] eqn:Ex; [|done].
  destruct (decide (x.(kid) = k)) as [E|E]; [|by rewrite lookup_insert_ne].
  rewrite E, lookup_insert_eq. intros [= ->]. exists x. split; [set_solver|done].
Qed.

Lemma fetch_keys_published now ks k key : fetch_keys now = Ok ks -> ks !! k = Some key -> published now k key.
Proof.
  unfold fetch_keys. destruct (jwks_at now) as [jwks|] eqn:Ej; [|done]. intros [= <-] (jwk & Hj & ? & ?)%add_keys_published. by exists jwks, jwk.
Qed.

(** Keys that the provider answered with at one time and that were stored at another. *)
Definition answered_in (tf ts : Z) (ks : gmap str Key) : Prop := tf <= ts /\ forall k key, ks !! k = Some key -> published tf k key.

(** The cache is what the provider answered a while before the time it is stamped with, and a
    call that has refreshed it finds one that was stored since its own start. *)
Record vinv (t : Z) (s : VState) : Prop := {
  vinv_cache : forall c, s.(cache) = Some c -> c.(fetched_at) <= t /\ exists tf, c.(fetched_at) <= tf + delay /\ answered_in tf c.(fetched_at) c.(keys);
  vinv_calls : forall i c, s.(calls) !! i = Some c -> c.(c_started) <= t /\ read_header c.(c_token) = Ok (c.(c_alg), c.(c_kid)) /\
    match c.(c_phase) with
    | Storing tf ks => c.(c_started) <= tf /\ answered_in tf t ks
    | Reading => exists x, s.(cache) = Some x /\ c.(c_started) <= x.(fetched_at)
    | _ => True
    end
}.

Lemma vinv_later t t' s : vinv t s -> t <= t' -> vinv t' s.
Proof.
  intros [Hc Hl] Hle. split.
  - intros c Ec. destruct (Hc c Ec). split; [lia|done].
  - intros i c Ei. destruct (Hl i c Ei) as (? & ? & Hp). split_and!; [lia|done|]. destruct (c_phase c); try done. destruct Hp as (? & ? & ?). split; [done|]. split; [lia|done].
Qed.

Lemma vinv_calls_insert t s i c : vinv t s -> c.(c_started) <= t -> read_header c.(c_token) = Ok (c.(c_alg), c.(c_kid)) ->
  match c.(c_phase) with Storing tf ks => c.(c_started) <= tf /\ answered_in tf t ks | Reading => False | _ => True end ->
  vinv t {| cache := s.(cache); calls := <[i := c]> s.(calls) |}.
Proof.
  intros [Hc Hl] Hs Hh Hp. split; [done|]. cbn [calls cache]. intros j d. destruct (decide (i = j)) as [->|Hne].
  - rewrite lookup_insert_eq. intros [= <-]. split_and!; try done. by destruct (c_phase c).
  - rewrite lookup_insert_ne by done. apply Hl.
Qed.

Lemma vinv_calls_delete t s i : vinv t s -> vinv t {| cache := s.(cache); calls := delete i s.(calls) |}.
Proof. intros [Hc Hl]. split; [done|]. cbn [calls cache]. intros j d [_ Hj]%lookup_delete_Some. by apply (Hl j). Qed.

Lemma vinv_store t s i c tf ks : vinv t s -> s.(calls) !! i = Some c -> c.(c_phase) = Storing tf ks -> t <= tf + delay ->
  vinv t {| cache := store_keys t ks; calls := <[i := in_phase Reading c]> s.(calls) |}.
Proof.
  intros [Hc Hl] Hi Hp Hd. split; cbn [cache calls].
  - intros x [= <-]. cbn [fetched_at keys]. split; [lia|]. exists tf. destruct (Hl i c Hi) as (_ & _ & Ha). rewrite Hp in Ha. by destruct Ha.
  - assert (Hr : forall d, c_started d <= t -> exists x, store_keys t ks = Some x /\ c_started d <= fetched_at x) by (intros d Hs; by eexists).
    intros j d. destruct (decide (i = j)) as [->|Hne].
    + rewrite lookup_insert_eq. intros [= <-]. destruct (Hl j c Hi) as (? & ? & _). split_and!; [done|done|]. by apply (Hr c).
    + rewrite lookup_insert_ne by done. intros Hd'. destruct (Hl j d Hd') as (? & ? & Hph). split_and!; [done|done|]. destruct (c_phase d); try done. by apply Hr.
Qed.

Lemma vstep_inv v now s l s' : vinv now s -> vstep v now s l s' -> vinv now s'.
Proof.
  intros Hinv Hs. destruct Hs as [s i token alg k Hi Hh|s i c key Hi Hp Hk|s i c Hi Hp Hk|s i c ks Hi Hp Hf|s i c e Hi Hp Hf|s i c tf ks Hi Hp Hd|s i c Hi Hp];
    try (by apply vinv_calls_delete).
  - apply vinv_calls_insert; [done|cbn; lia|done|done].
  - destruct (vinv_calls _ _ Hinv i c Hi) as (? & ? & _). by apply vinv_calls_insert.
  - destruct (vinv_calls _ _ Hinv i c Hi) as (? & ? & _). apply vinv_calls_insert; [done..|]. cbn. split; [done|]. split; [lia|]. intros k key. by apply fetch_keys_published.
  - by eapply vinv_store.
Qed.

Lemma reach_inv v t s : reach v t s -> vinv t s.
Proof.
  induction 1 as [t|t now s l s' _ IH Hle Hs]; [by split|]. eapply vstep_inv; [|exact Hs]. by eapply vinv_later.
Qed.

Lemma asymmetric_spec a : is_asymmetric a = true <-> a ∉ [HS256; HS384; HS512].
Proof. rewrite !not_elem_of_cons. split; [|intros (H1 & H2 & H3 & _); by destruct a]. intros Ha. split_and!; [by destruct a..|apply not_elem_of_nil]. Qed.

Lemma read_header_inv token alg k : read_header token = Ok (alg, k) -> token_header token = Ok (alg, Some k) /\ alg ∉ [HS256; HS384; HS512].
Proof.
  unfold read_header. destruct (token_header token) as [[a o]|]; [|done]. cbn [jwt_err mbind result_bind].
  destruct (is_asymmetric a) eqn:Ea; [|done]. cbn [negb]. apply asymmetric_spec in Ea. destruct o as [k0|]; [|done]. by intros [= -> ->].
Qed.

(** The step that accepts a token has its key from the cache. *)
Lemma vstep_accepts v t now s c claims s' : vinv t s -> t <= now -> vstep v now s (Some (c, Ok claims)) s' ->
  exists key x, s.(cache) = Some x /\ x.(keys) !! c.(c_kid) = Some key /\ check_token v now c.(c_token) c.(c_alg) key = Ok claims /\
    read_header c.(c_token) = Ok (c.(c_alg), c.(c_kid)) /\ c.(c_started) <= t /\
    (now - x.(fetched_at) < v.(cache_ttl) \/ c.(c_started) <= x.(fetched_at)).
Proof.
  intros [Hc Hl] Hle Hs. remember (Some (c, Ok claims)) as l eqn:El.
  destruct Hs as [| s i c' key Hi Hp Hk| | |s i c' e Hi Hp Hr| |s i c' Hi Hp]; try done; injection El as <- El'.
  - unfold cached_key in Hk. destruct (s.(cache)) as [x|]; [|done]. cbn [mbind option_bind] in Hk.
    destruct (Z.ltb_spec (now - x.(fetched_at)) v.(cache_ttl)); [|done]. destruct (Hl i c' Hi) as (? & ? & _).
    exists key, x. split_and!; try done. by left.
  - apply bind_ok_inv in El' as (key & Hk & Hct). unfold key_after_refresh in Hk. destruct (Hl i c' Hi) as (? & ? & Hx).
    rewrite Hp in Hx. destruct Hx as (x & Ex & Hst). rewrite Ex in Hk. cbn [mbind option_bind] in Hk.
    destruct (x.(keys) !! c'.(c_kid)) as [key'|] eqn:Ek; [|done]. injection Hk as <-. exists key', x. split_and!; try done. by right.
Qed.

Context `{!OidcJwtLaws}.

(** What of a token's body becomes which claim. *)
Definition claims_of_body (body : OidcClaims) (v : Verifier) (claims : Claims) : Prop :=
  claims.(sub) = body.(o_sub) /\ claims.(email) = default [] body.(o_email) /\
  Some claims.(name) = match body.(o_name), body.(preferred_username) with Some n, _ => Some n | None, Some n => Some n | None, None => Some (lit "user") end /\
  (claims.(role) = lit "user" \/ exists roles, body.(realm_roles) = Some roles /\ claims.(role) ∈ roles) /\
  claims.(permissions) = default [] body.(realm_roles) /\
  claims.(exp) = body.(o_exp) /\ claims.(iat) = default 0 body.(o_iat) /\
  claims.(iss) = Some v.(v_issuer) /\ claims.(aud) = match v.(v_audience) with Some a => Some [a] | None => None end.

Lemma into_runesh_claims_spec body v : claims_of_body body v (into_runesh_claims body (Some v.(v_issuer)) ((fun a => [a]) <$> v.(v_audience))).
Proof.
  unfold claims_of_body, into_runesh_claims. cbn. split_and!; try done.
  - destruct (o_name body); [done|]. by destruct (preferred_username body).
  - destruct (realm_roles body) as [roles|]; cbn [mbind option_bind]; [|by left].
    destruct (head (filter _ roles)) as [r|] eqn:Eh; cbn; [right|by left]. exists roles. split; [done|].
    apply head_Some_elem_of, list_elem_of_filter in Eh as [_ ?]. done.
Qed.

(** C7: However validations interleave, and however long each waits for the provider's answer
    and for the lock, a token is accepted only if its algorithm is asymmetric; its signature verifies
    under a key that the provider published under the token's key identifier, in an
    answer whose keys were stored at most [delay] later, which was less than the time to live ago or since the
    start of this very validation; it comes from the issuer, has not expired (to a minute), and
    names the audience if it names one and one is configured.  Each of the claims is that of the
    token: the role is one of the realm's roles or [user], the issuer and the audience are the
    configured ones. *)
Theorem accepted_tokens_verified v t now s c claims s' : reach v t s -> t <= now -> vstep v now s (Some (c, Ok claims)) s' ->
  exists key tf ts body, token_header c.(c_token) = Ok (c.(c_alg), Some c.(c_kid)) /\ (c.(c_alg) ∉ [HS256; HS384; HS512]) /\
    published tf c.(c_kid) key /\ signed key c.(c_alg) c.(c_token) /\ tf <= ts <= tf + delay /\ ts <= now /\
    (now - ts < v.(cache_ttl) \/ c.(c_started) <= ts) /\
    (registered c.(c_token)).(reg_iss) = Some v.(v_issuer) /\
    (exists e, (registered c.(c_token)).(reg_exp) = Some e /\ now - 60 <= e) /\
    (forall a l, v.(v_audience) = Some a -> (registered c.(c_token)).(reg_aud) = Some l -> a ∈ l) /\
    oidc_payload c.(c_token) = Some body /\ claims_of_body body v claims.
Proof.
  intros Hr%reach_inv Hle Hs. destruct (vstep_accepts _ _ _ _ _ _ _ Hr Hle Hs) as (key & x & Ex & Hk & Hct & Hh & _ & Ht).
  apply read_header_inv in Hh as [Hh Ha]. destruct (vinv_cache _ _ Hr x Ex) as (Hx & tf & Hd & Htf & Hpub).
  unfold check_token in Hct. apply bind_ok_inv in Hct as (body & Hde & Hcl). injection Hcl as <-.
  destruct (decode_oidc now c.(c_token) key c.(c_alg) (oidc_validation v)) as [b|] eqn:Ed; [|done]. injection Hde as ->.
  apply decode_oidc_spec in Ed as (Hsig & (Hexp & Hiss & Haud) & Hpay).
  exists key, tf, x.(fetched_at), body. split_and!; try done; [by apply Hpub|lia| | | |apply into_runesh_claims_spec].
  - cbn [oidc_validation valid_iss required_spec_claims] in Hiss. destruct (reg_iss _) as [i|]; [|by destruct Hiss; apply (bool_decide_unpack _)]. by apply list_elem_of_singleton in Hiss as ->.
  - cbn [oidc_validation required_spec_claims] in Hexp. destruct (reg_exp _) as [e|]; [by exists e|by destruct Hexp; apply (bool_decide_unpack _)].
  - intros a l Hva Hal. cbn [oidc_validation valid_aud validate_aud] in Haud. rewrite Hva, Hal in Haud. cbn [fmap option_fmap option_map] in Haud.
    apply Exists_exists in Haud as (y & Hy & ->%list_elem_of_singleton); done.
Qed.

(** A key that the provider stops publishing is dead one time to live later, and the delay of a
    store: a validation that starts then accepts no token with its identifier. *)
Theorem rotated_key_dies v t now s c claims s' t0 : reach v t s -> t <= now -> 0 <= v.(cache_ttl) ->
  (forall t' key, t0 <= t' -> ~ published t' c.(c_kid) key) -> t0 + delay + v.(cache_ttl) <= c.(c_started) ->
  ~ vstep v now s (Some (c, Ok claims)) s'.
Proof.
  intros Hr%reach_inv Hle Httl Hgone Hst Hs.
  destruct (vstep_accepts _ _ _ _ _ _ _ Hr Hle Hs) as (key & x & Ex & Hk & _ & _ & Hc & Ht).
  destruct (vinv_cache _ _ Hr x Ex) as (_ & tf & Hd & Htf & Hpub). apply (Hgone tf key); [|by apply Hpub]. lia.
Qed.

(** [validate] on its own is one way of taking the steps: with a fresh key in the cache it does
    not ask the provider, and otherwise its answer is that of the keys as they are now. *)
Theorem validate_steps v now later token cache :
  match read_header token with
  | Err e => validate v now later token cache = (Err e, cache)
  | Ok (alg, k) =>
      match cached_key v now k cache, jwks_at now with
      | Some key, _ => validate v now later token cache = (check_token v later token alg key, cache)
      | None, Err e => validate v now later token cache = (Err (Discovery e), cache)
      | None, Ok jwks => exists c, validate v now later token cache = (key ← key_after_refresh k (Some c); check_token v later token alg key, Some c) /\
                                   c = {| keys := foldl add_key ∅ jwks; fetched_at := later |}
      end
  end.
Proof.
  unfold validate. destruct (read_header token) as [[alg k]|]; [|done]. unfold lookup_key.
  destruct (cached_key v now k cache) as [key|]; [done|]. unfold refresh_keys, fetch_keys. destruct (jwks_at now) as [jwks|]; [|done].
  eexists. split; [|done]. cbn [store_keys]. by destruct (key_after_refresh k _).
Qed.

(** ** Where the verifier departs from what it says *)

(** With an audience configured, a token that names none is accepted. *)
Theorem no_audience_accepted v now token alg key a body : v.(v_audience) = Some a -> signed key alg token ->
  (registered token).(reg_aud) = None -> (registered token).(reg_iss) = Some v.(v_issuer) -> (registered token).(reg_exp) = Some now ->
  oidc_payload token = Some body -> check_token v now token alg key = Ok (into_runesh_claims body (Some v.(v_issuer)) (Some [a])).
Proof.
  intros Ha Hs Haud Hiss Hexp Hp. unfold check_token. rewrite Ha.
  assert (Hd : decode_oidc now token key alg (oidc_validation v) = Ok body).
  { apply decode_oidc_spec. split_and!; [done| |done]. unfold registered_ok. rewrite Haud, Hiss, Hexp. unfold oidc_validation. cbn [required_spec_claims valid_iss validate_aud valid_aud].
    split_and!; [lia|by apply list_elem_of_singleton|]. rewrite Ha. intros _. cbn [fmap option_fmap option_map].
    rewrite !elem_of_cons, elem_of_nil. by intros [?|[?|[]]]. }
  by rewrite Hd.
Qed.

(** A role of the provider's realm becomes the role here: its [admin] holds every permission. *)
Theorem realm_role_is_role c iss aud roles p : c.(realm_roles) = Some roles -> head (filter (fun r => default_role r = false) roles) = Some (lit "admin") ->
  (into_runesh_claims c iss aud).(role) = lit "admin" /\ has_permission (into_runesh_claims c iss aud) p = true.
Proof.
  intros Hr Hh. assert (E : (into_runesh_claims c iss aud).(role) = lit "admin").
  { unfold into_runesh_claims. cbn [role]. rewrite Hr. cbn [mbind option_bind]. by rewrite Hh. }
  split; [done|]. unfold has_permission. by rewrite bool_decide_eq_true_2.
Qed.

End Oidc.

(** ** The exchange of a code *)

Record Provider := {
  p_issuer : str; p_client_id : str; p_client_secret : option str; p_redirect_uri : str; p_scopes : str;
  p_authorization_endpoint : str; p_token_endpoint : str; p_userinfo_endpoint : str; p_jwks_uri : option str
}.
(** What [AuthFlow.start] uses of it. *)
Definition flow_provider (p : Provider) : OidcProvider :=
  {| client_id := p.(p_client_id); redirect_uri := p.(p_redirect_uri); scopes := p.(p_scopes); authorization_endpoint := p.(p_authorization_endpoint) |}.

Record OpenIdConfiguration := { doc_authorization : str; doc_token : str; doc_userinfo : str; doc_jwks_uri : str }.
Record OidcParams := { q_issuer : str; q_client_id : str; q_client_secret : option str; q_redirect_uri : str; q_scopes : option str }.
Record TokenResponse := { access_token : str; id_token : option str; refresh_token : option str; expires_in : option Z; token_type : str }.
Record UserinfoResponse := { u_sub : str; u_email : str; u_name : str }.
Record OidcUserInfo := {
  info_sub : str; info_email : str; info_name : str; info_picture : option str; info_groups : option (list str);
  idp_access_token : option str; idp_refresh_token : option str; idp_token_expires_in : option Z
}.

(** What the token endpoint answers. *)
Inductive TokenAnswer : Type :=
  | Unreachable (e : str)
  | Refused (body : str)
  | Garbled (e : str)
  | Tokens (t : TokenResponse).

Section Exchange.
Context `{OidcJwt}.
(** The provider: its discovery document, its endpoints and its keys at a time. *)
Context (document : str -> result str OpenIdConfiguration)
        (post_form : str -> list (str * str) -> TokenAnswer)
        (userinfo_of : str -> str -> option UserinfoResponse)
        (jwks_of : str -> Z -> result str (list Jwk)).

Definition discover (params : OidcParams) : result AuthError Provider :=
  match document (params.(q_issuer) ++ lit "/.well-known/openid-configuration") with
  | Err e => Err (Discovery e)
  | Ok config =>
      Ok {| p_issuer := params.(q_issuer); p_client_id := params.(q_client_id); p_client_secret := params.(q_client_secret);
            p_redirect_uri := params.(q_redirect_uri); p_scopes := default (lit "openid profile email") params.(q_scopes);
            p_authorization_endpoint := config.(doc_authorization); p_token_endpoint := config.(doc_token); p_userinfo_endpoint := config.(doc_userinfo);
            p_jwks_uri := if bool_decide (config.(doc_jwks_uri) = []) then None else Some config.(doc_jwks_uri) |}
  end.

Definition provider_from_env (env : gmap str str) : result AuthError (option Provider) :=
  match env !! lit "OIDC_ISSUER" with
  | None => Ok None
  | Some issuer =>
      if bool_decide (issuer = []) then Ok None
      else
        cid ← ok_or (BadRequest (lit "OIDC_CLIENT_ID not set")) (env !! lit "OIDC_CLIENT_ID");
        p ← discover {| q_issuer := issuer; q_client_id := cid; q_client_secret := env !! lit "OIDC_CLIENT_SECRET";
                        q_redirect_uri := default (lit "http://localhost:8080/auth/callback") (env !! lit "OIDC_REDIRECT_URI");
                        q_scopes := env !! lit "OIDC_SCOPE" |};
        Ok (Some p)
  end.

Definition decode_id_token_unverified_display_only (now : Z) (token audience : str) : result AuthError IdTokenClaims :=
  jwt_err (decode_unsigned now token
    {| valid_iss := None; valid_aud := Some [audience]; validate_aud := true; required_spec_claims := [lit "sub"; lit "exp"] |}).

Definition decode_id_token_via_jwks (now : Z) (token audience issuer jwks_uri : str) : result AuthError IdTokenClaims :=
  '(alg, k) ← jwt_err (token_header token);
  if negb (is_asymmetric alg) then
    Err (TokenInvalid (lit "id_token rejected: algorithm " ++ alg_name alg ++ lit " is not allowed for JWKS validation (expected RS*/ES*/PS*/EdDSA)"))
  else
    k ← missing "id_token header missing kid" k;
    match jwks_of jwks_uri now with
    | Err e => Err (Discovery e)
    | Ok jwks =>
        jwk ← ok_or (TokenInvalid (lit "kid " ++ k ++ lit " not found in JWKS")) (head (filter (fun j => j.(kid) = k) jwks));
        key ← decoding_key_from_jwk jwk;
        jwt_err (decode_id now token key alg
          {| valid_iss := Some [issuer]; valid_aud := Some [audience]; validate_aud := true;
             required_spec_claims := [lit "sub"; lit "exp"; lit "iss"] |})
    end.

Definition token_params (p : Provider) (code verifier : str) : list (str * str) :=
  [(lit "grant_type", lit "authorization_code"); (lit "code", code); (lit "redirect_uri", p.(p_redirect_uri));
   (lit "client_id", p.(p_client_id)); (lit "code_verifier", verifier)]
  ++ match p.(p_client_secret) with Some s => [(lit "client_secret", s)] | None => [] end.

(** The claims of the identity token that are kept. *)
Definition id_claims_of (p : Provider) (now : Z) (t : TokenResponse) : option IdTokenClaims :=
  token ← t.(id_token);
  match p.(p_jwks_uri) with
  | Some uri => match decode_id_token_via_jwks now token p.(p_client_id) p.(p_issuer) uri with Ok c => Some c | Err _ => None end
  | None => match decode_id_token_unverified_display_only now token p.(p_client_id) with Ok c => Some c | Err _ => None end
  end.

Definition merge (id : option IdTokenClaims) (u : option UserinfoResponse) (t : TokenResponse) : OidcUserInfo :=
  {| info_sub := match id with
                 | Some c => default c.(i_sub) c.(oid)
                 | None => default [] (u_sub <$> u)
                 end;
     info_email := match (c ← id; match c.(i_email) with Some e => Some e | None => c.(i_preferred_username) end) with
                   | Some e => e
                   | None => default [] (u_email <$> u)
                   end;
     info_name := match (c ← id; c.(i_name)) with Some n => n | None => default [] (u_name <$> u) end;
     info_picture := c ← id; c.(picture);
     info_groups := c ← id; c.(groups);
     idp_access_token := Some t.(access_token);
     idp_refresh_token := t.(refresh_token);
     idp_token_expires_in := t.(expires_in) |}.

Definition exchange_code (p : Provider) (now : Z) (code verifier : str) : result AuthError (TokenResponse * OidcUserInfo) :=
  match post_form p.(p_token_endpoint) (token_params p code verifier) with
  | Unreachable e => Err (Auth.Http e)
  | Refused body => Err (TokenExchange body)
  | Garbled e => Err (Auth.Http e)
  | Tokens t =>
      let u := if bool_decide (p.(p_userinfo_endpoint) = []) then None else userinfo_of p.(p_userinfo_endpoint) t.(access_token) in
      Ok (t, merge (id_claims_of p now t) u t)
  end.

Context `{!OidcJwtLaws}.

Lemma via_jwks_inv now token audience issuer uri c : decode_id_token_via_jwks now token audience issuer uri = Ok c ->
  exists alg k key, token_header token = Ok (alg, Some k) /\ (alg ∉ [HS256; HS384; HS512]) /\ published (jwks_of uri) now k key /\ signed key alg token /\
    (registered token).(reg_iss) = Some issuer /\ (forall l, (registered token).(reg_aud) = Some l -> audience ∈ l) /\
    (exists e, (registered token).(reg_exp) = Some e /\ now - 60 <= e) /\ id_payload token = Some c.
Proof.
  unfold decode_id_token_via_jwks. destruct (token_header token) as [[alg [k|]]|]; [| |done]; cbn [jwt_err mbind result_bind];
    (destruct (is_asymmetric alg) eqn:Ea; cbn [negb]; [apply asymmetric_spec in Ea|done]); cbn [missing ok_or mbind result_bind]; [|done].
  destruct (jwks_of uri now) as [jwks|] eqn:Ej; [|done].
  destruct (head (filter _ jwks)) as [jwk|] eqn:Eh; [|done]. cbn [ok_or mbind result_bind].
  intros (key & Hkey & Hd)%bind_ok_inv.
  assert (Hin : jwk ∈ filter (fun j => j.(kid) = k) jwks) by (by apply head_Some_elem_of).
  apply list_elem_of_filter in Hin as [Hk Hin].
  destruct (decode_id _ _ _ _ _) as [c'|] eqn:Ed; [|done]. injection Hd as ->. apply decode_id_spec in Ed as (Hs & (Hexp & Hiss & Haud) & Hp).
  exists alg, k, key. split_and!; try done; [by exists jwks, jwk| | |].
  - cbn [valid_iss required_spec_claims] in Hiss. destruct (reg_iss _) as [i|]; [|by destruct Hiss; apply (bool_decide_unpack _)]. by apply list_elem_of_singleton in Hiss as ->.
  - intros l Hl. cbn [validate_aud valid_aud] in Haud. rewrite Hl in Haud. apply Exists_exists in Haud as (y & Hy & ->%list_elem_of_singleton); done.
  - cbn [required_spec_claims] in Hexp. destruct (reg_exp _) as [e|]; [by exists e|by destruct Hexp; apply (bool_decide_unpack _)].
Qed.

(** C22: With a provider that publishes its keys, the subject a login is made for, if it is not
    empty, is that of an identity token whose algorithm is asymmetric, whose signature verifies under a key the
    provider publishes under the token's key identifier, which the provider issued, to this
    client if it names an audience, and which has not expired (to a minute); or, when the
    answer has no identity token that verifies, what the user information endpoint says. *)
Theorem exchange_subject p now code verifier t info uri : p.(p_jwks_uri) = Some uri ->
  exchange_code p now code verifier = Ok (t, info) -> info.(info_sub) <> [] ->
  (exists token c alg k key, t.(id_token) = Some token /\ id_payload token = Some c /\ info.(info_sub) = match c.(oid) with Some o => o | None => c.(i_sub) end /\
     token_header token = Ok (alg, Some k) /\ (alg ∉ [HS256; HS384; HS512]) /\ published (jwks_of uri) now k key /\ signed key alg token /\
     (registered token).(reg_iss) = Some p.(p_issuer) /\ (forall l, (registered token).(reg_aud) = Some l -> p.(p_client_id) ∈ l) /\
     exists e, (registered token).(reg_exp) = Some e /\ now - 60 <= e)
  \/ (exists u, userinfo_of p.(p_userinfo_endpoint) t.(access_token) = Some u /\ info.(info_sub) = u.(u_sub) /\
      forall token c, t.(id_token) = Some token -> decode_id_token_via_jwks now token p.(p_client_id) p.(p_issuer) uri <> Ok c).
Proof.
  unfold exchange_code. intros Eu. destruct (post_form _ _) as [| | |t0]; try done. intros [= -> <-]. cbv zeta. cbn [merge info_sub].
  destruct (id_claims_of p now t) as [c|] eqn:Ec; unfold id_claims_of in Ec.
  - destruct (t.(id_token)) as [token|] eqn:Et; [|done]. cbn [mbind option_bind] in Ec. intros _. left.
    rewrite Eu in Ec. destruct (decode_id_token_via_jwks _ _ _ _ _) as [c'|] eqn:Ed; [|done]. injection Ec as ->.
    apply via_jwks_inv in Ed as (alg & k & key & ? & ? & ? & ? & ? & ? & ? & ?). exists token, c, alg, k, key. by split_and!.
  - intros Hne. right. case_bool_decide; [done|]. destruct (userinfo_of _ _) as [u|]; [|done]. exists u. split_and!; [done..|].
    intros token c Et Ed. rewrite Et in Ec. cbn [mbind option_bind] in Ec. by rewrite Eu, Ed in Ec.
Qed.

(** The redirect of the exchange is the configured one. *)
Theorem exchange_redirect p code verifier : filter (fun kv => kv.1 = lit "redirect_uri") (token_params p code verifier) = [(lit "redirect_uri", p.(p_redirect_uri))].
Proof. unfold token_params. by destruct (p.(p_client_secret)). Qed.

(** Without published keys, the subject of an unverified token is the identity, whatever the
    user information endpoint says. *)
Theorem unverified_subject_wins p now code verifier t token c : p.(p_jwks_uri) = None ->
  post_form p.(p_token_endpoint) (token_params p code verifier) = Tokens t -> t.(id_token) = Some token ->
  decode_id_token_unverified_display_only now token p.(p_client_id) = Ok c ->
  exists info, exchange_code p now code verifier = Ok (t, info) /\ info.(info_sub) = default c.(i_sub) c.(oid).
Proof.
  intros Hu Hf Ht Hd. unfold exchange_code. rewrite Hf. eexists. split; [done|]. cbn [merge info_sub]. unfold id_claims_of. rewrite Ht. cbn [mbind option_bind].
  by rewrite Hu, Hd.
Qed.

(** An identity token that does not verify does not end the login: without an answer of the user
    information endpoint it goes on with the empty subject. *)
Theorem refused_token_logs_in p now code verifier t token uri e : p.(p_jwks_uri) = Some uri -> p.(p_userinfo_endpoint) = [] ->
  post_form p.(p_token_endpoint) (token_params p code verifier) = Tokens t -> t.(id_token) = Some token ->
  decode_id_token_via_jwks now token p.(p_client_id) p.(p_issuer) uri = Err e ->
  exists info, exchange_code p now code verifier = Ok (t, info) /\ info.(info_sub) = [] /\ info.(info_email) = [].
Proof.
  intros Hu Hi Hf Ht Hd. unfold exchange_code. rewrite Hf, (bool_decide_eq_true_2 _ Hi).
  assert (Hn : id_claims_of p now t = None) by (unfold id_claims_of; rewrite Ht; cbn [mbind option_bind]; by rewrite Hu, Hd).
  rewrite Hn. by eexists.
Qed.

End Exchange.

(** ** Sessions of the flow in Redis *)

(** A value with the time it expires at. *)
Abbreviation redis := (gmap str (str * Z)) (only parsing).

Section RedisSessions.
(** serde, of [StoredSession]; and what [AuthFlow.start] takes. *)
Context (encode : OidcSession -> str) (decode : str -> option OidcSession) (urlencode challenge : str -> str) (ttl_secs : Z).

Definition session_key (i : str) : str := lit "oidc:session:" ++ i.
Definition state_key (state : str) : str := lit "oidc:state:" ++ state.

Definition redis_get (now : Z) (k : str) (r : redis) : option str := '(v, e) ← r !! k; if now <? e then Some v else None.
Definition redis_set (now : Z) (k v : str) (r : redis) : redis := <[k := (v, now + ttl_secs)]> r.

(** Whether each command of an operation succeeds. *)
Record Conn := { pool : bool; first : bool; second : bool; third : bool }.
Definition connected : Conn := {| pool := true; first := true; second := true; third := true |}.

Definition redis_start (c : Conn) (now : Z) (session_id state verifier : str) (provider : OidcProvider) (extra_scopes : option str) (r : redis)
  : result AuthError (str * str) * redis :=
  let session := {| sid := session_id; sstate := state; code_verifier := verifier; created_at := now |} in
  if negb c.(pool) then (Err (Internal (lit "Failed to get Redis connection")), r)
  else if negb c.(first) then (Err (Internal (lit "Redis SET failed")), r)
  else
    let r := redis_set now (session_key session_id) (encode session) r in
    if negb c.(second) then (Err (Internal (lit "Redis SET (state index) failed")), r)
    else (Ok (session_id, auth_url urlencode challenge provider extra_scopes state verifier), redis_set now (state_key state) session_id r).

Definition redis_get_by_state (c : Conn) (now : Z) (state : str) (r : redis) : option OidcSession :=
  if negb c.(pool) || negb c.(first) then None
  else
    session_id ← redis_get now (state_key state) r;
    if negb c.(second) then None else json ← redis_get now (session_key session_id) r; decode json.

Definition redis_remove (c : Conn) (now : Z) (session_id : str) (r : redis) : redis :=
  if negb c.(pool) then r
  else
    let json := if c.(first) then redis_get now (session_key session_id) r else None in
    let r := match (j ← json; decode j) with
             | Some stored => if c.(second) then delete (state_key stored.(sstate)) r else r
             | None => r
             end in
    if c.(third) then delete (session_key session_id) r else r.

Lemma keys_apart i state : session_key i <> state_key state.
Proof. by vm_compute. Qed.
Lemma session_key_inj i j : session_key i = session_key j -> i = j.
Proof. apply app_inv_head. Qed.
Lemma state_key_inj i j : state_key i = state_key j -> i = j.
Proof. apply app_inv_head. Qed.

Context (Hserde : forall s, decode (encode s) = Some s).

(** A login that was started is found by its state until its time to live is over, others
    started meanwhile do not disturb it, and once it is removed it is not found again. *)
Theorem redis_session_once now i state verifier provider extra r : let '(_, r1) := redis_start connected now i state verifier provider extra r in
  (forall t, redis_get_by_state connected t state r1 =
     if t <? now + ttl_secs then Some {| sid := i; sstate := state; code_verifier := verifier; created_at := now |} else None) /\
  (forall t i2 state2 verifier2 provider2 extra2 c2, i2 <> i -> state2 <> state ->
     forall t', redis_get_by_state connected t' state (redis_start c2 t i2 state2 verifier2 provider2 extra2 r1).2 = redis_get_by_state connected t' state r1) /\
  (forall t t', t < now + ttl_secs -> redis_get_by_state connected t' state (redis_remove connected t i r1) = None).
Proof.
  unfold redis_start. cbn [connected pool first second negb]. unfold redis_set.
  set (s := {| sid := i; sstate := state; code_verifier := verifier; created_at := now |}).
  set (r1 := <[state_key state := (i, now + ttl_secs)]> (<[session_key i := (encode s, now + ttl_secs)]> r)).
  assert (Hst : r1 !! state_key state = Some (i, now + ttl_secs)) by apply lookup_insert_eq.
  assert (Hse : r1 !! session_key i = Some (encode s, now + ttl_secs)).
  { unfold r1. rewrite lookup_insert_ne by (intros E; by apply (keys_apart i state)). apply lookup_insert_eq. }
  split_and!.
  - intros t. unfold redis_get_by_state, redis_get. cbn [connected pool first second negb orb]. rewrite Hst. cbn [mbind option_bind].
    destruct (t <? now + ttl_secs) eqn:E; [|done]. cbn [mbind option_bind]. rewrite Hse. cbn [mbind option_bind]. rewrite E. apply Hserde.
  - intros t i2 state2 verifier2 provider2 extra2 c2 Hi Hs t'.
    assert (Hsame : forall k v, k = state_key state \/ (exists j, k = session_key j /\ j <> i2) ->
      (<[session_key i2 := v]> r1) !! k = r1 !! k /\ forall w, (<[state_key state2 := w]> (<[session_key i2 := v]> r1)) !! k = r1 !! k).
    { intros k v [->|(j & -> & Hj)].
      - assert (session_key i2 <> state_key state) by apply keys_apart. assert (state_key state2 <> state_key state) by (intros ?%state_key_inj; done).
        split; [by rewrite lookup_insert_ne|intros w; by rewrite !lookup_insert_ne].
      - assert (session_key i2 <> session_key j) by (intros ?%session_key_inj; congruence).
        assert (state_key state2 <> session_key j) by (intros E; by apply (keys_apart j state2)).
        split; [by rewrite lookup_insert_ne|intros w; by rewrite !lookup_insert_ne]. }
    assert (Hget : forall r2, r2 !! state_key state = r1 !! state_key state -> r2 !! session_key i = r1 !! session_key i ->
      redis_get_by_state connected t' state r2 = redis_get_by_state connected t' state r1).
    { intros r2 E1 E2. unfold redis_get_by_state, redis_get. cbn [connected pool first second negb orb]. rewrite E1, Hst. cbn [mbind option_bind].
      destruct (t' <? now + ttl_secs); [|done]. cbn [mbind option_bind]. by rewrite E2. }
    destruct (c2.(pool)); cbn [negb snd]; [|done]. destruct (c2.(first)); cbn [negb snd]; [|done]. cbv zeta.
    destruct (c2.(second)); cbn [negb snd]; apply Hget; apply Hsame; [by left|right; by exists i|by left|right; by exists i].
  - intros t t' Ht. unfold redis_remove. cbn [connected pool first second third negb]. unfold redis_get at 1. rewrite Hse. cbn [mbind option_bind].
    rewrite (proj2 (Z.ltb_lt _ _) Ht). cbn [mbind option_bind]. rewrite Hserde. cbn [sstate s].
    unfold redis_get_by_state, redis_get. cbn [connected pool first second negb orb].
    rewrite lookup_delete_ne, lookup_delete_eq by apply keys_apart. done.
Qed.

End RedisSessions.

(** ** Witnesses *)

Module OidcExamples.

(** A provider of one token and one key. *)
Definition the_token : str := lit "h.p.s".
Definition the_key : str := lit "n1e1".
Definition the_registered : Registered := {| reg_exp := Some 5000; reg_iss := Some (lit "https://idp"); reg_aud := None |}.
Definition the_claims : OidcClaims :=
  {| o_sub := lit "u1"; o_email := None; o_name := None; preferred_username := Some (lit "ann"); o_exp := 5000; o_iat := None; realm_roles := None |}.
Definition the_id : IdTokenClaims :=
  {| i_sub := lit "u1"; i_email := None; i_preferred_username := None; i_name := None; oid := None; picture := None; groups := None |}.
Definition is_signed (k : str) (a : Algorithm) (t : str) : Prop := k = the_key /\ t = the_token.

#[local] Instance toy_jwt : OidcJwt := {
  Key := str;
  from_rsa_components n e := Ok (n ++ e);
  from_ec_components x y := Ok (x ++ y);
  from_ed_components x := Ok x;
  token_header t := Ok (RS256, Some (lit "k1"));
  decode_oidc now t k a v := if decide (is_signed k a t /\ registered_ok v now the_registered) then Ok the_claims else Err [];
  decode_id now t k a v := if decide (is_signed k a t /\ registered_ok v now the_registered) then Ok the_id else Err [];
  decode_unsigned now t v := if decide (registered_ok v now the_registered) then Ok the_id else Err []
}.

#[local] Instance toy_laws : OidcJwtLaws.
Proof.
  refine {| signed := is_signed; registered _ := the_registered; oidc_payload _ := Some the_claims; id_payload _ := Some the_id |}.
  - intros now t k a v c. cbn. destruct (decide _) as [[]|Hn]; [|naive_solver]. split; [by intros [= <-]|by intros (_ & _ & [= <-])].
  - intros now t k a v c. cbn. destruct (decide _) as [[]|Hn]; [|naive_solver]. split; [by intros [= <-]|by intros (_ & _ & [= <-])].
  - intros now t v c. cbn. destruct (decide _); [|naive_solver]. split; [by intros [= <-]|by intros (_ & [= <-])].
Defined.

Definition the_jwk : Jwk := {| kid := lit "k1"; kty := lit "RSA"; jwk_alg := None; jwk_n := Some (lit "n1"); jwk_e := Some (lit "e1"); jwk_x := None; jwk_y := None |}.
(** The key is published up to the time 100. *)
Definition jwks (t : Z) : result str (list Jwk) := if t <=? 100 then Ok [the_jwk] else Ok [].
Definition verifier : Verifier := discovered (lit "https://idp") None.
Definition call (p : phase) : Call := {| c_token := the_token; c_alg := RS256; c_kid := lit "k1"; c_started := 50; c_phase := p |}.
Definition reading : VState := {| cache := Some {| keys := {[ lit "k1" := the_key ]}; fetched_at := 52 |}; calls := {[ 0%nat := call Reading ]} |}.

(** The endpoint answers at 51, and the answer is stored at 52. *)
Lemma reach_reading : reach jwks 5 verifier 52 reading.
Proof.
  set (ks := ({[ lit "k1" := the_key ]} : gmap str Key)).
  assert (H1 : reach jwks 5 verifier 50 {| cache := None; calls := <[0%nat := call Looking]> ∅ |}).
  { eapply reach_step; [apply (reach_start _ _ _ 50)|reflexivity|]. by eapply (V_start _ _ _ _ {| cache := None; calls := ∅ |} 0 the_token RS256 (lit "k1")). }
  assert (H2 : reach jwks 5 verifier 50 {| cache := None; calls := <[0%nat := call Refreshing]> (<[0%nat := call Looking]> ∅) |}).
  { eapply reach_step; [exact H1|reflexivity|]. exact (V_miss jwks 5 verifier 50 {| cache := None; calls := <[0%nat := call Looking]> ∅ |} 0 (call Looking) eq_refl eq_refl eq_refl). }
  rewrite insert_insert_eq in H2.
  assert (H3 : reach jwks 5 verifier 51 {| cache := None; calls := <[0%nat := call (Storing 51 ks)]> (<[0%nat := call Refreshing]> ∅) |}).
  { eapply reach_step; [exact H2|done|].
    exact (V_fetch jwks 5 verifier 51 {| cache := None; calls := <[0%nat := call Refreshing]> ∅ |} 0 (call Refreshing) ks eq_refl eq_refl eq_refl). }
  rewrite insert_insert_eq in H3.
  assert (H4 : reach jwks 5 verifier 52 {| cache := reading.(cache); calls := <[0%nat := call Reading]> (<[0%nat := call (Storing 51 ks)]> ∅) |}).
  { eapply reach_step; [exact H3|done|].
    exact (V_store jwks 5 verifier 52 {| cache := None; calls := <[0%nat := call (Storing 51 ks)]> ∅ |} 0 (call (Storing 51 ks)) 51 ks eq_refl eq_refl ltac:(lia)). }
  rewrite insert_insert_eq in H4. exact H4.
Defined.

Definition accepted : Claims := into_runesh_claims the_claims (Some (lit "https://idp")) None.

Lemma reading_accepts : vstep jwks 5 verifier 52 reading (Some (call Reading, Ok accepted)) {| cache := reading.(cache); calls := delete 0%nat reading.(calls) |}.
Proof.
  assert (E : Ok accepted = (key ← key_after_refresh (call Reading).(c_kid) reading.(cache); check_token verifier 52 (call Reading).(c_token) (call Reading).(c_alg) key))
    by (by vm_compute).
  rewrite E. by apply (V_read jwks 5 verifier 52 reading 0 (call Reading)).
Defined.

Lemma accepted_tokens_verified_witness : exists key tf ts, published jwks tf (lit "k1") key /\ signed key RS256 the_token /\ tf <= ts <= tf + 5 /\ ts <= 52.
Proof.
  destruct (accepted_tokens_verified jwks 5 verifier 52 52 reading (call Reading) accepted _ reach_reading ltac:(lia) reading_accepts)
    as (key & tf & ts & body & _ & _ & Hp & Hs & Ht & Hn & _).
  exists key, tf, ts. split_and!; [exact Hp|exact Hs|apply Ht|apply Ht|exact Hn].
Defined.

Definition late_call : Call := {| c_token := the_token; c_alg := RS256; c_kid := lit "k1"; c_started := 4000; c_phase := Looking |}.

Lemma rotated_key_dies_witness : ~ vstep jwks 5 verifier 4000 reading (Some (late_call, Ok accepted)) reading.
Proof.
  apply (rotated_key_dies jwks 5 verifier 52 4000 reading late_call accepted reading 101 reach_reading); [lia|vm_compute; congruence| |vm_compute; congruence].
  intros t key Ht (ks & jwk & Ek & Hin & _). unfold jwks in Ek. rewrite (proj2 (Z.leb_gt t 100)) in Ek by lia. injection Ek as <-.
  by apply not_elem_of_nil in Hin.
Defined.

Definition provider : Provider :=
  {| p_issuer := lit "https://idp"; p_client_id := lit "app"; p_client_secret := None; p_redirect_uri := lit "https://app/cb"; p_scopes := lit "openid";
     p_authorization_endpoint := lit "a"; p_token_endpoint := lit "t"; p_userinfo_endpoint := []; p_jwks_uri := Some (lit "j") |}.
Definition tokens : TokenResponse := {| access_token := lit "at"; id_token := Some the_token; refresh_token := None; expires_in := None; token_type := lit "Bearer" |}.
Definition no_info (url token : str) : option UserinfoResponse := None.

Lemma exchange_subject_witness :
  let info := merge (Some the_id) None tokens in
  exchange_code (fun _ _ => Tokens tokens) no_info (fun _ => jwks) provider 60 (lit "code") (lit "v") = Ok (tokens, info) /\ info.(info_sub) = lit "u1" /\
  exists token key alg, tokens.(id_token) = Some token /\ signed key alg token.
Proof.
  intros info.
  assert (E : exchange_code (fun _ _ => Tokens tokens) no_info (fun _ => jwks) provider 60 (lit "code") (lit "v") = Ok (tokens, info)) by (by vm_compute).
  split_and!; [exact E|done|].
  destruct (exchange_subject (fun _ _ => Tokens tokens) no_info (fun _ => jwks) provider 60 (lit "code") (lit "v") tokens info (lit "j") eq_refl E)
    as [(token & c & alg & k & key & Ht & _ & _ & _ & _ & _ & Hs & _)|(u & Hu & _)].
  - done.
  - exists token, key, alg. split; [exact Ht|exact Hs].
  - discriminate Hu.
Defined.

End OidcExamples.
