(* ===== verification/Web.v ===== *)
(** * What every service of the suite shares

    [runesh-core]: the errors and their answers ([error.rs]), the middleware for request ids,
    CORS, security headers and health ([middleware.rs]), pages of results ([pagination.rs]), the
    documentation of the API ([openapi.rs]), the installation of a service ([service.rs], for
    Linux and macOS) and shutting down ([shutdown.rs]).  Headers are a map; a response is what
    the handler gave.  The theorems state how a browser reads the content security policy, what
    systemd reads in the unit file, and what can reach a query from the parameters of a page. *)
From S2P Require Import Prelude Str Path Text Upload.

#[local] Open Scope Z_scope.

(** ** Errors *)

Record ErrorBody := { error : str; code : str }.

Definition status_code (e : AppError) : Z :=
  match e with
  | NotFound _ => 404 | Unauthorized => 401 | Forbidden _ => 403 | BadRequest _ => 400
  | Conflict _ => 409 | RateLimited => 429 | Internal _ => 500
  end.
Definition error_code (e : AppError) : str :=
  lit match e with
      | NotFound _ => "not_found" | Unauthorized => "unauthorized" | Forbidden _ => "forbidden" | BadRequest _ => "bad_request"
      | Conflict _ => "conflict" | RateLimited => "rate_limited" | Internal _ => "internal"
      end.
Definition display_error (e : AppError) : str :=
  match e with
  | NotFound m => lit "Not found: " ++ m | Unauthorized => lit "Unauthorized" | Forbidden m => lit "Forbidden: " ++ m
  | BadRequest m => lit "Bad request: " ++ m | Conflict m => lit "Conflict: " ++ m | RateLimited => lit "Rate limited"
  | Internal m => lit "Internal error: " ++ m
  end.
Definition to_body (e : AppError) : ErrorBody :=
  {| error := match e with Internal _ => lit "Internal server error" | _ => display_error e end; code := error_code e |}.

(** [sqlx::Error], as far as it is looked at. *)
Inductive SqlxError : Type := RowNotFound | UniqueViolation (s : str) | OtherSqlx (s : str).
Definition from_sqlx (e : SqlxError) : AppError :=
  match e with
  | RowNotFound => NotFound (lit "Resource not found")
  | UniqueViolation _ => Conflict (lit "Resource already exists")
  | OtherSqlx s => Internal s
  end.

(** Two internal errors are told apart by nothing in the answer. *)
Theorem internal_hidden m m' : (status_code (Internal m), to_body (Internal m)) = (status_code (Internal m'), to_body (Internal m')).
Proof. done. Qed.

(** ** Middleware *)

Abbreviation headers := (gmap str str) (only parsing).
Record Response := { status : Z; response_headers : headers }.

Definition set_header (k v : str) (r : Response) : Response := {| status := r.(status); response_headers := <[k := v]> r.(response_headers) |}.

(** [HeaderValue::from_str]: visible ASCII, spaces and tabs. *)
Definition header_char (c : char) : bool := ((32 <=? c) && (c <? 127)) || (c =? c_tab).
Definition header_value (s : str) : option str := if forallb header_char s then Some s else None.

Definition id_char (c : char) : bool := is_ascii_alphanumeric c || (c =? c_minus) || (c =? 95).

(** [given] is the text of [X-Request-Id], [fresh] a new UUID; [next] is the rest of the service. *)
Definition request_id (given : option str) (fresh : str) : str :=
  match given with
  | Some s => if (byte_len s <=? 64) && forallb id_char s then s else fresh
  | None => fresh
  end.
Definition request_id_middleware (given : option str) (fresh : str) (next : Response) : Response :=
  match header_value (request_id given fresh) with
  | Some v => set_header (lit "x-request-id") v next
  | None => next
  end.

Inductive Level : Type := ErrorLevel | WarnLevel | InfoLevel.
Definition log_level (st : Z) : Level := if 500 <=? st then ErrorLevel else if 400 <=? st then WarnLevel else InfoLevel.

(** What [tower_http] is told. *)
Inductive AllowOrigin : Type := Any | List (l : list str).
Record CorsLayer := { allow_methods : list str; allow_headers : list str; max_age : Z; allow_origin : AllowOrigin; allow_credentials : bool }.
Definition cors_layer (origins : list str) : CorsLayer :=
  let layer o c := {| allow_methods := map lit ["GET"; "POST"; "PUT"; "PATCH"; "DELETE"; "OPTIONS"]%string;
                      allow_headers := map lit ["Content-Type"; "Authorization"; "X-CSRF-Token"; "X-Request-Id"]%string;
                      max_age := 3600; allow_origin := o; allow_credentials := c |} in
  if bool_decide (lit "*" ∈ origins) then layer Any false else layer (List (omap header_value origins)) true.

Record CspConfig := {
  allow_inline_styles : bool;
  allow_inline_scripts : bool;
  allow_eval : bool;
  style_src_hosts : list str;
  font_src_hosts : list str;
  img_src_hosts : list str;
  connect_src_hosts : list str;
  media_src_hosts : list str;
  frame_src_hosts : list str
}.

Definition csp_with (styles scripts eval : bool) : CspConfig :=
  {| allow_inline_styles := styles; allow_inline_scripts := scripts; allow_eval := eval;
     style_src_hosts := [lit "https://fonts.googleapis.com"]; font_src_hosts := [lit "https://fonts.gstatic.com"];
     img_src_hosts := [lit "data:"; lit "blob:"; lit "https:"]; connect_src_hosts := [lit "ws:"; lit "wss:"];
     media_src_hosts := [lit "blob:"]; frame_src_hosts := [] |}.
Definition strict : CspConfig := csp_with false false false.
Definition spa_styles : CspConfig := csp_with true false false.

Definition unsafe_inline (b : bool) : str := if b then lit " 'unsafe-inline'" else [].
Definition unsafe_eval (b : bool) : str := if b then lit " 'unsafe-eval'" else [].

(** One directive with what is joined to it. *)
Definition with_hosts (start : str) (hosts : list str) : str :=
  let extras := join_str (lit " ") hosts in
  if bool_decide (extras = []) then start else start ++ lit " " ++ extras.

Definition to_header_value (c : CspConfig) : str :=
  lit "default-src 'self'; "
  ++ lit "script-src 'self'" ++ unsafe_inline c.(allow_inline_scripts) ++ unsafe_eval c.(allow_eval) ++ lit "; "
  ++ with_hosts (lit "style-src 'self'" ++ unsafe_inline c.(allow_inline_styles)) c.(style_src_hosts) ++ lit "; "
  ++ with_hosts (lit "font-src 'self'") c.(font_src_hosts) ++ lit "; "
  ++ with_hosts (lit "img-src 'self'") c.(img_src_hosts) ++ lit "; "
  ++ with_hosts (lit "media-src 'self'") c.(media_src_hosts) ++ lit "; "
  ++ with_hosts (lit "connect-src 'self'") c.(connect_src_hosts) ++ lit "; "
  ++ with_hosts (lit "frame-src 'self'") c.(frame_src_hosts).

Definition fixed_headers : list (str * str) :=
  [ (lit "x-content-type-options", lit "nosniff");
    (lit "x-frame-options", lit "DENY");
    (lit "strict-transport-security", lit "max-age=31536000; includeSubDomains");
    (lit "referrer-policy", lit "strict-origin-when-cross-origin");
    (lit "permissions-policy", lit "camera=(), microphone=(), geolocation=()");
    (lit "x-xss-protection", lit "0") ].
Definition csp_header : str := lit "content-security-policy".

Definition apply_security_headers (csp : CspConfig) (next : Response) : Response :=
  let r := foldl (fun r kv => set_header kv.1 kv.2 r) next fixed_headers in
  match header_value (to_header_value csp) with
  | Some v => set_header csp_header v r
  | None => r
  end.

(** *** Health *)

(** The answer of a dependency: [ok], or the error. *)
Definition check_text (r : result str unit) : str := match r with Ok _ => lit "ok" | Err e => lit "error: " ++ e end.
Definition is_ok (r : result str unit) : bool := bool_decide (check_text r = lit "ok").
Record Health := { h_code : Z; h_status : str; h_checks : list (str * str) }.

Definition health_handler (db : result str unit) : Health :=
  {| h_code := if is_ok db then 200 else 503; h_status := if is_ok db then lit "ok" else lit "degraded";
     h_checks := [(lit "database", check_text db); (lit "redis", lit "not configured")] |}.
Definition health_handler_with_redis (db redis : result str unit) : Health :=
  let all_ok := is_ok db && is_ok redis in
  {| h_code := if all_ok then 200 else 503; h_status := if all_ok then lit "ok" else lit "degraded";
     h_checks := [(lit "database", check_text db); (lit "redis", check_text redis)] |}.
Definition readiness_handler (db : result str unit) : Health :=
  {| h_code := if is_ok db then 200 else 503; h_status := if is_ok db then lit "ready" else lit "not ready"; h_checks := [(lit "database", check_text db)] |}.
Definition startup_handler (flag : bool) : Health :=
  {| h_code := if flag then 200 else 503; h_status := if flag then lit "started" else lit "starting"; h_checks := [] |}.

(** ** Pages *)

Record Pagination := { page : Z; page_size : Z; sort_by : option str; sort_dir : option str; search : option str }.
Record PaginatedResponse (T : Type) := { items : list T; total : Z; resp_page : Z; resp_page_size : Z }.

(** Multiplication of [i64] in a release build. *)
Definition mul_i64 (a b : Z) : Z := wrap 64 (a * b + 2 ^ 63) - 2 ^ 63.

Definition limit (p : Pagination) : Z := Z.max 1 (Z.min 100 p.(page_size)).
Definition offset (p : Pagination) : Z := mul_i64 (Z.max p.(page) 0) (limit p).
Definition sort_direction (p : Pagination) : str :=
  match p.(sort_dir) with
  | Some d => if bool_decide (d = lit "desc") || bool_decide (d = lit "DESC") then lit "DESC" else lit "ASC"
  | None => lit "ASC"
  end.
Definition validated_sort_column (p : Pagination) (allowed : list str) : str :=
  match (s ← p.(sort_by); if bool_decide (s ∈ allowed) then Some s else None) with
  | Some s => s
  | None => default (lit "id") (head allowed)
  end.
Definition page_response {T} (p : Pagination) (items : list T) (total : Z) : PaginatedResponse T :=
  {| items := items; total := total; resp_page := p.(page); resp_page_size := limit p |}.

(** ** The documentation of the API *)

Record SwaggerConfig := { enabled : bool; ui_path : str; spec_path : str }.
Definition swagger_from_env (env : gmap str str) : SwaggerConfig :=
  {| enabled := match env !! lit "SWAGGER_ENABLED" with
                | Some v => bool_decide (v = lit "true") || bool_decide (v = lit "1")
                | None => true
                end;
     ui_path := default (lit "/swagger-ui") (env !! lit "SWAGGER_PATH"); spec_path := lit "/api/openapi.json" |}.

(** ** Installing a service *)

Definition service_char (c : char) : bool := is_ascii_alphanumeric c || (c =? c_minus) || (c =? 95) || (c =? c_dot).
Definition validate_name (name : str) : result AppError unit :=
  if bool_decide (name = []) || (64 <? byte_len name) then Err (BadRequest (lit "Service name must be 1-64 characters"))
  else if negb (forallb service_char name) then Err (BadRequest (lit "Service name must contain only alphanumeric, dash, underscore, or dot"))
  else Ok tt.
Definition validate_display_name (name : str) : result AppError unit :=
  if existsb is_control name then Err (BadRequest (lit "Display name must not contain control characters")) else Ok tt.
Definition validate_arg (arg : str) : result AppError unit :=
  if existsb is_control arg then Err (BadRequest (lit "Arguments must not contain control characters")) else Ok tt.

(** What an installation does to the machine. *)
Inductive Action : Type := WriteFile (path content : str) | Run (program : str) (args : list str) | RemoveFile (path : str).

Definition exec_start (binary : str) (args : list str) : str :=
  match args with [] => binary | _ => binary ++ lit " " ++ join_str (lit " ") args end.

Definition unit_file (display_name binary : str) (args : list str) : str :=
  unlines ([lit "[Unit]"; lit "Description=" ++ display_name; lit "After=network-online.target"; lit "Wants=network-online.target";
            lit "Before=display-manager.service"; []; lit "[Service]"; lit "Type=simple"; lit "ExecStart=" ++ exec_start binary args;
            lit "Restart=always"; lit "RestartSec=5"; []; lit "[Install]"; lit "WantedBy=multi-user.target"]).
Definition unit_path (name : str) : str := lit "/etc/systemd/system/" ++ name ++ lit ".service".
Definition systemctl (args : list string) (name : list str) : Action := Run (lit "systemctl") (map lit args ++ name).

(** [written] is whether the file can be written. *)
Definition install_linux (written : result str unit) (name display_name binary : str) (args : list str) : list Action * result AppError unit :=
  match written with
  | Err e => ([], Err (Internal (lit "Failed to write unit file: " ++ e)))
  | Ok _ => ([WriteFile (unit_path name) (unit_file display_name binary args);
              systemctl ["daemon-reload"] []; systemctl ["enable"] [name]; systemctl ["start"] [name]], Ok tt)
  end.

Definition xml_escape (s : str) : str :=
  replace [39] (lit "&apos;") (replace [34] (lit "&quot;") (replace [62] (lit "&gt;") (replace [60] (lit "&lt;") (replace [38] (lit "&amp;") s)))).

Definition plist_path (name : str) : str := lit "/Library/LaunchDaemons/" ++ name ++ lit ".plist".
Definition quote : str := [34].
Definition plist (name binary : str) (args : list str) : str :=
  join c_nl ([lit "<?xml version=" ++ quote ++ lit "1.0" ++ quote ++ lit " encoding=" ++ quote ++ lit "UTF-8" ++ quote ++ lit "?>";
              lit "<!DOCTYPE plist PUBLIC " ++ quote ++ lit "-//Apple//DTD PLIST 1.0//EN" ++ quote ++ lit " " ++ quote ++ lit "http://www.apple.com/DTDs/PropertyList-1.0.dtd" ++ quote ++ lit ">";
              lit "<plist version=" ++ quote ++ lit "1.0" ++ quote ++ lit ">";
              lit "<dict>"; lit "    <key>Label</key>"; lit "    <string>" ++ name ++ lit "</string>"; lit "    <key>ProgramArguments</key>"; lit "    <array>";
              lit "        <string>" ++ xml_escape binary ++ lit "</string>";
              join c_nl (map (fun a => lit "    <string>" ++ xml_escape a ++ lit "</string>") args);
              lit "    </array>"; lit "    <key>RunAtLoad</key>"; lit "    <true/>"; lit "    <key>KeepAlive</key>"; lit "    <true/>"; lit "</dict>"; lit "</plist>"]).
Definition install_macos (written : result str unit) (name binary : str) (args : list str) : list Action * result AppError unit :=
  match written with
  | Err e => ([], Err (Internal (lit "Failed to write plist: " ++ e)))
  | Ok _ => ([WriteFile (plist_path name) (plist name binary args); Run (lit "launchctl") [lit "load"; plist_path name]], Ok tt)
  end.

Inductive Target : Type := Linux | MacOs.
Definition install_service (os : Target) (written : result str unit) (name display_name binary : str) (args : list str) : list Action * result AppError unit :=
  match (_ ← validate_name name; _ ← validate_display_name display_name; try_for (fun a _ => validate_arg a) args tt) with
  | Err e => ([], Err e)
  | Ok _ => match os with
            | Linux => install_linux written name display_name binary args
            | MacOs => install_macos written name binary args
            end
  end.
Definition uninstall_service (os : Target) (name : str) : list Action * result AppError unit :=
  match validate_name name with
  | Err e => ([], Err e)
  | Ok _ => match os with
            | Linux => ([systemctl ["stop"] [name]; systemctl ["disable"] [name]; RemoveFile (unit_path name); systemctl ["daemon-reload"] []], Ok tt)
            | MacOs => ([Run (lit "launchctl") [lit "unload"; plist_path name]; RemoveFile (plist_path name)], Ok tt)
            end
  end.

(** ** Shutting down *)

(** A hook and how long it would take, in seconds; [None] never returns. *)
Record Hook := { hook_name : str; takes : option Z }.
Inductive Ended : Type := Completed | TimedOut.

Definition register (h : Hook) (hooks : list Hook) : list Hook := hooks ++ [h].
Definition run_hook (h : Hook) : Ended * Z :=
  match h.(takes) with Some d => if d <? 10 then (Completed, d) else (TimedOut, 10) | None => (TimedOut, 10) end.

(** What happens, in order, with the time it happens at. *)
Inductive Moment : Type := Signal | HookStarts (n : str) | HookEnds (n : str) (e : Ended) | DrainStarts | Stops.
Fixpoint run_hooks (t : Z) (hooks : list Hook) : list (Z * Moment) * Z :=
  match hooks with
  | [] => ([], t)
  | h :: hooks =>
      let '(e, d) := run_hook h in
      let '(ms, t') := run_hooks (t + d) hooks in
      ((t, HookStarts h.(hook_name)) :: (t + d, HookEnds h.(hook_name) e) :: ms, t')
  end.

(** The server goes on accepting connections until this future is done, at [Stops]. *)
Definition graceful_shutdown (t drain_period : Z) (hooks : list Hook) : list (Z * Moment) :=
  let '(ms, t') := run_hooks t hooks in
  (t, Signal) :: ms ++ [(t', DrainStarts); (t' + drain_period, Stops)].

(** ** How a browser reads the policy *)

Definition c_semi : char := 59.

(** The directives of a policy, and the sources of one: the first of its name counts. *)
Definition directive (token : str) : option (str * list str) :=
  match split_whitespace token with [] => None | n :: v => Some (n, v) end.
Definition directives (s : str) : list (str * list str) := omap directive (split c_semi s).
Definition sources (n s : str) : option (list str) := snd <$> head (filter (fun d => d.1 = n) (directives s)).

Definition script_sources (c : CspConfig) : list str :=
  [lit "'self'"] ++ (if c.(allow_inline_scripts) then [lit "'unsafe-inline'"] else []) ++ (if c.(allow_eval) then [lit "'unsafe-eval'"] else []).
Definition style_sources (c : CspConfig) : list str :=
  [lit "'self'"] ++ (if c.(allow_inline_styles) then [lit "'unsafe-inline'"] else []) ++ c.(style_src_hosts).
Definition policy (c : CspConfig) : list (str * list str) :=
  [ (lit "default-src", [lit "'self'"]); (lit "script-src", script_sources c); (lit "style-src", style_sources c);
    (lit "font-src", lit "'self'" :: c.(font_src_hosts)); (lit "img-src", lit "'self'" :: c.(img_src_hosts));
    (lit "media-src", lit "'self'" :: c.(media_src_hosts)); (lit "connect-src", lit "'self'" :: c.(connect_src_hosts));
    (lit "frame-src", lit "'self'" :: c.(frame_src_hosts)) ].

(** A host that is one source. *)
Definition host_source (h : str) : Prop := word h /\ contains_char c_semi h = false.

Lemma directives_cons a s : contains_char c_semi a = false -> directives (a ++ lit "; " ++ s) = option_list (directive a) ++ directives (c_space :: s).
Proof.
  intros Ha. unfold directives. change (lit "; " ++ s) with (c_semi :: c_space :: s). rewrite split_app by done. cbn [omap list_omap].
  by destruct (directive a).
Qed.

Lemma directive_space a : directive (c_space :: a) = directive a.
Proof. unfold directive. by rewrite words_space. Qed.

Lemma join_hosts_clean hosts : Forall host_source hosts -> contains_char c_semi (join_str (lit " ") hosts) = false.
Proof.
  induction 1 as [|h hosts [_ Hh] _ IH]; [done|]. cbn [join_str]. destruct hosts; [done|]. by rewrite !contains_char_app, Hh, IH.
Qed.

Lemma with_hosts_clean start hosts : contains_char c_semi start = false -> Forall host_source hosts -> contains_char c_semi (with_hosts start hosts) = false.
Proof. intros Hs Hh. unfold with_hosts. case_bool_decide; [done|]. by rewrite !contains_char_app, Hs, join_hosts_clean. Qed.

Lemma with_hosts_words start hosts : Forall host_source hosts -> split_whitespace (with_hosts start hosts) = split_whitespace start ++ hosts.
Proof.
  intros Hh. assert (Hw : Forall word hosts) by (eapply Forall_impl; [exact Hh|by intros ? []]). unfold with_hosts. case_bool_decide as E.
  - destruct hosts as [|h hosts]; [by rewrite app_nil_r|]. apply Forall_cons in Hw as [[Hne _] _]. by destruct h, hosts.
  - change (lit " " ++ join_str (lit " ") hosts) with (c_space :: join_str (lit " ") hosts). rewrite words_sep by done. by rewrite words_join.
Qed.

Lemma directives_hosts start n v hosts s : contains_char c_semi start = false -> Forall host_source hosts -> split_whitespace start = n :: v ->
  directives (c_space :: with_hosts start hosts ++ lit "; " ++ s) = (n, v ++ hosts) :: directives (c_space :: s).
Proof.
  intros Hs Hh Hw. change (c_space :: with_hosts start hosts ++ lit "; " ++ s) with ((c_space :: with_hosts start hosts) ++ lit "; " ++ s).
  rewrite directives_cons by (by cbn; apply with_hosts_clean). rewrite directive_space. unfold directive. by rewrite with_hosts_words, Hw.
Qed.

(** A browser reads the policy back as it was configured: the script sources are ['self']
    and what was explicitly allowed, whatever the other host lists contain; and when the hosts
    are single sources, the directives are those configured. *)
Theorem csp_read c :
  sources (lit "default-src") (to_header_value c) = Some [lit "'self'"] /\
  sources (lit "script-src") (to_header_value c) = Some (script_sources c) /\
  (Forall host_source (c.(style_src_hosts) ++ c.(font_src_hosts) ++ c.(img_src_hosts) ++ c.(media_src_hosts) ++ c.(connect_src_hosts) ++ c.(frame_src_hosts)) ->
   directives (to_header_value c) = policy c).
Proof.
  set (rest := with_hosts (lit "style-src 'self'" ++ unsafe_inline c.(allow_inline_styles)) c.(style_src_hosts) ++ lit "; "
    ++ with_hosts (lit "font-src 'self'") c.(font_src_hosts) ++ lit "; " ++ with_hosts (lit "img-src 'self'") c.(img_src_hosts) ++ lit "; "
    ++ with_hosts (lit "media-src 'self'") c.(media_src_hosts) ++ lit "; " ++ with_hosts (lit "connect-src 'self'") c.(connect_src_hosts) ++ lit "; "
    ++ with_hosts (lit "frame-src 'self'") c.(frame_src_hosts)).
  assert (E : directives (to_header_value c) = [(lit "default-src", [lit "'self'"]); (lit "script-src", script_sources c)] ++ directives (c_space :: rest)).
  { unfold to_header_value. fold rest. change (lit "default-src 'self'; ") with (lit "default-src 'self'" ++ lit "; "). rewrite <-app_assoc.
    rewrite directives_cons by done. change (option_list (directive (lit "default-src 'self'"))) with [(lit "default-src", [lit "'self'"])].
    cbn [app]. f_equal. unfold script_sources.
    set (a := c_space :: lit "script-src 'self'" ++ unsafe_inline c.(allow_inline_scripts) ++ unsafe_eval c.(allow_eval)).
    transitivity (directives (a ++ lit "; " ++ rest)); [unfold a; cbn [app]; by rewrite <-!app_assoc|].
    rewrite directives_cons by (unfold a; by destruct c.(allow_inline_scripts), c.(allow_eval)).
    unfold a. by destruct c.(allow_inline_scripts), c.(allow_eval). }
  split_and!; [unfold sources; by rewrite E|unfold sources; by rewrite E|].
  intros Hh. rewrite !Forall_app in Hh. destruct Hh as (H1 & H2 & H3 & H4 & H5 & H6). rewrite E. unfold rest.
  rewrite (directives_hosts _ (lit "style-src") ([lit "'self'"] ++ (if c.(allow_inline_styles) then [lit "'unsafe-inline'"] else [])))
    by (done || by destruct c.(allow_inline_styles)).
  rewrite (directives_hosts _ (lit "font-src") [lit "'self'"]) by done.
  rewrite (directives_hosts _ (lit "img-src") [lit "'self'"]) by done.
  rewrite (directives_hosts _ (lit "media-src") [lit "'self'"]) by done.
  rewrite (directives_hosts _ (lit "connect-src") [lit "'self'"]) by done.
  assert (El : directives (c_space :: with_hosts (lit "frame-src 'self'") c.(frame_src_hosts)) = [(lit "frame-src", lit "'self'" :: c.(frame_src_hosts))]).
  { unfold directives. rewrite split_one by (by cbn; apply with_hosts_clean). cbn [omap list_omap]. rewrite directive_space. unfold directive. by rewrite with_hosts_words. }
  rewrite El. unfold policy, style_sources. by rewrite <-!app_assoc.
Qed.

(** ** Security headers *)

Lemma fold_headers kvs r k : response_headers (foldl (fun r kv => set_header kv.1 kv.2 r) r kvs) !! k =
  match last (filter (fun kv => kv.1 = k) kvs) with Some kv => Some kv.2 | None => r.(response_headers) !! k end.
Proof.
  induction kvs as [|[k0 v0] kvs IH] using rev_ind; [done|]. rewrite foldl_snoc, filter_app, filter_cons, filter_nil. cbn [fst snd set_header response_headers].
  destruct (decide (k0 = k)) as [->|Hne]; [by rewrite lookup_insert_eq, last_snoc|]. by rewrite lookup_insert_ne, app_nil_r.
Qed.

(** Every response has the fixed headers and, if its text is a header value, the policy; the
    other headers are as the handler left them. *)
Theorem security_headers csp next :
  let r := apply_security_headers csp next in
  r.(status) = next.(status) /\
  (forall k v, (k, v) ∈ fixed_headers -> r.(response_headers) !! k = Some v) /\
  r.(response_headers) !! csp_header = (if forallb header_char (to_header_value csp) then Some (to_header_value csp) else next.(response_headers) !! csp_header) /\
  (forall k, k ∉ map fst fixed_headers -> k <> csp_header -> r.(response_headers) !! k = next.(response_headers) !! k).
Proof.
  set (r0 := foldl (fun r kv => set_header kv.1 kv.2 r) next fixed_headers).
  assert (Hst : r0.(status) = next.(status)) by done.
  assert (Hfix : forall k v, (k, v) ∈ fixed_headers -> r0.(response_headers) !! k = Some v /\ k <> csp_header).
  { intros k v Hk. unfold r0. rewrite fold_headers. unfold fixed_headers in Hk. rewrite !elem_of_cons, elem_of_nil in Hk.
    destruct Hk as [[= -> ->]|[[= -> ->]|[[= -> ->]|[[= -> ->]|[[= -> ->]|[[= -> ->]|[]]]]]]]; by split. }
  assert (Hcsp : r0.(response_headers) !! csp_header = next.(response_headers) !! csp_header) by (unfold r0; by rewrite fold_headers).
  assert (Hoth : forall k, k ∉ map fst fixed_headers -> r0.(response_headers) !! k = next.(response_headers) !! k).
  { intros k Hk. unfold r0. rewrite fold_headers. destruct (last _) as [kv|] eqn:E; [|done]. exfalso. apply last_Some_elem_of, list_elem_of_filter in E as [<- Hin].
    apply Hk. by apply list_elem_of_fmap_2. }
  unfold apply_security_headers. fold r0. unfold header_value. destruct (forallb header_char (to_header_value csp)); cbn [set_header status response_headers].
  - split_and!; [done| |by rewrite lookup_insert_eq|].
    + intros k v [Hk Hne]%Hfix. by rewrite lookup_insert_ne.
    + intros k Hk Hne. rewrite lookup_insert_ne by done. by apply Hoth.
  - split_and!; [done|by intros k v [Hk _]%Hfix|done|intros k Hk _; by apply Hoth].
Qed.

(** Credentials are only allowed for listed origins, none of which is the wildcard. *)
Theorem cors_credentials origins : (cors_layer origins).(allow_credentials) = true ->
  exists l, (cors_layer origins).(allow_origin) = List l /\ (forall o, o ∈ l -> o ∈ origins /\ o <> lit "*").
Proof.
  unfold cors_layer. case_bool_decide as Hs; [done|]. intros _. eexists. split; [done|]. intros o Ho.
  apply list_elem_of_omap in Ho as (x & Hx & E). unfold header_value in E. destruct (forallb header_char x); [|done]. injection E as ->.
  split; [done|]. intros ->. by apply Hs.
Qed.

(** A health answer is 200 exactly when every dependency answered. *)
Theorem health_spec db redis :
  ((health_handler db).(h_code) = 200 <-> db = Ok tt) /\ ((readiness_handler db).(h_code) = 200 <-> db = Ok tt) /\
  ((health_handler_with_redis db redis).(h_code) = 200 <-> db = Ok tt /\ redis = Ok tt).
Proof.
  assert (Hok : forall r, is_ok r = true <-> r = Ok tt).
  { intros [[]|e]; [done|]. unfold is_ok. rewrite bool_decide_eq_false_2; [done|]. cbn. by intros [=]. }
  unfold health_handler, readiness_handler, health_handler_with_redis. cbn [h_code]. rewrite <-!Hok.
  destruct (is_ok db), (is_ok redis); cbn; naive_solver.
Qed.

(** ** What reaches a query *)

(** The parameters of a page put nothing into a query but a column the caller allowed (or
    [id] when it allows none), a direction, and a limit between 1 and 100; up to the page whose
    offset an [i64] holds, the offset is the page times the limit. *)
Theorem page_bounds p allowed :
  (validated_sort_column p allowed ∈ allowed \/ (allowed = [] /\ validated_sort_column p allowed = lit "id")) /\
  sort_direction p ∈ [lit "ASC"; lit "DESC"] /\ 1 <= limit p <= 100 /\
  (p.(page) * limit p < 2 ^ 63 -> offset p = Z.max p.(page) 0 * limit p /\ 0 <= offset p).
Proof.
  assert (Hl : 1 <= limit p <= 100) by (unfold limit; lia). split_and!.
  - unfold validated_sort_column. destruct p.(sort_by) as [s|]; cbn [mbind option_bind].
    + case_bool_decide; [by left|]. destruct allowed; [by right|]. left. left.
    + destruct allowed; [by right|]. left. left.
  - unfold sort_direction. destruct p.(sort_dir); [|left]. destruct (_ || _); [right; left|left].
  - lia.
  - lia.
  - intros Hp. unfold offset, mul_i64. rewrite wrap_small by (unfold is_u; nia). nia.
Qed.

(** Past that page the offset wraps around, below zero. *)
Theorem offset_wraps : offset {| page := 2 ^ 62; page_size := 2; sort_by := None; sort_dir := None; search := None |} = - 2 ^ 63.
Proof. by vm_compute. Qed.

(** ** What systemd reads *)

Definition unit_lines (display_name binary : str) (args : list str) : list str :=
  [lit "[Unit]"; lit "Description=" ++ display_name; lit "After=network-online.target"; lit "Wants=network-online.target";
   lit "Before=display-manager.service"; []; lit "[Service]"; lit "Type=simple"; lit "ExecStart=" ++ exec_start binary args;
   lit "Restart=always"; lit "RestartSec=5"; []; lit "[Install]"; lit "WantedBy=multi-user.target"].

Lemma no_control_line s : existsb is_control s = false -> one_line s.
Proof.
  intros Hs. assert (Hall : forall c, c ∈ s -> is_control c = false).
  { intros c Hc. destruct (is_control c) eqn:E; [|done]. rewrite <-Hs. symmetry. apply existsb_exists. exists c. by rewrite <-list_elem_of_In. }
  split.
  - apply (contains_char_absent (fun c => negb (is_control c))); [|done]. intros c Hc. by rewrite Hall.
  - intros E. apply last_Some_elem_of, Hall in E. done.
Qed.

Lemma exec_start_control binary args : existsb is_control binary = false -> Forall (fun a => existsb is_control a = false) args ->
  existsb is_control (exec_start binary args) = false.
Proof.
  intros Hb Ha. unfold exec_start. destruct args as [|a args]; [done|]. rewrite existsb_app, existsb_app, Hb. cbn [orb].
  change (existsb is_control (lit " ")) with false. cbn [orb]. generalize dependent a. induction args as [|b args IH]; intros a Ha; cbn [join_str].
  - by apply Forall_cons in Ha as [].
  - apply Forall_cons in Ha as [Ha Hr]. rewrite existsb_app, existsb_app, Ha. cbn [orb]. by apply IH.
Qed.

(** What is installed for systemd is one unit file, under its directory by the name, whose
    lines are the ones meant: nothing in the display name or the arguments adds one; and the
    commands name only the service. *)
Theorem unit_file_read written name display_name binary args acts :
  install_service Linux written name display_name binary args = (acts, Ok tt) -> existsb is_control binary = false ->
  exists content, acts = [WriteFile (unit_path name) content; systemctl ["daemon-reload"] []; systemctl ["enable"] [name]; systemctl ["start"] [name]] /\
    lines content = unit_lines display_name binary args /\ contains_char c_slash name = false /\ name <> [].
Proof.
  unfold install_service. destruct (_ ≫= _) as [[]|] eqn:Ev; [|done]. unfold install_linux. destruct written; [|done]. intros E Hb. injection E as <-.
  apply bind_ok_inv in Ev as ([] & Hn & Ev). apply bind_ok_inv in Ev as ([] & Hd & Ha).
  unfold validate_name in Hn. destruct (bool_decide (name = [])) eqn:En; [done|]. destruct (64 <? byte_len name); [done|]. cbn [orb] in Hn.
  destruct (forallb service_char name) eqn:Ec; [|done]. apply bool_decide_eq_false in En.
  unfold validate_display_name in Hd. destruct (existsb is_control display_name) eqn:Ed; [done|].
  rewrite try_for_unit in Ha. assert (Hargs : Forall (fun a => existsb is_control a = false) args).
  { apply Forall_forall. intros x Hin. specialize (Ha x Hin). unfold validate_arg in Ha. by destruct (existsb is_control x). }
  exists (unit_file display_name binary args). split_and!; [done| | |done].
  - apply lines_unlines. apply (Forall_impl (fun l => existsb is_control l = false)); [|apply no_control_line].
    unfold unit_lines. rewrite !Forall_cons. split_and!; try done; rewrite existsb_app. by rewrite exec_start_control.
  - apply (contains_char_absent service_char); [|done]. intros c Hc. by apply (proj1 (forallb_forall _ _) Ec), list_elem_of_In.
Qed.

(** A binary whose path has a line feed, which nothing checks, adds a line. *)
Theorem binary_adds_line : exists content,
  (install_service Linux (Ok tt) (lit "svc") (lit "Service") (lit "/opt/x" ++ [c_nl] ++ lit "ExecStartPre=/opt/y") []).1 !! 0%nat = Some (WriteFile (lit "/etc/systemd/system/svc.service") content) /\
  lit "ExecStartPre=/opt/y" ∈ lines content.
Proof. eexists. split; [by vm_compute|]. apply (bool_decide_unpack _). by vm_compute. Qed.

(** An argument with a space reaches the program as two. *)
Theorem argument_torn binary a b : word binary -> word a -> word b ->
  split_whitespace (exec_start binary [a ++ [c_space] ++ b]) = [binary; a; b].
Proof.
  intros Hbin Ha Hb. unfold exec_start. cbn [join_str]. change (lit " ") with [c_space]. cbn [app].
  rewrite words_cons, words_cons, words_one by done. done.
Qed.

(** ** Escaping for XML *)

Definition escape_char (c : char) : str :=
  if c =? 38 then lit "&amp;" else if c =? 60 then lit "&lt;" else if c =? 62 then lit "&gt;" else if c =? 34 then lit "&quot;" else if c =? 39 then lit "&apos;" else [c].

Lemma split_once_str_char c s : split_once_str [c] s = split_once c s.
Proof.
  induction s as [|d s IH]; [done|]. cbn [split_once_str split_once strip_prefix]. rewrite IH, (Z.eqb_sym d c).
  destruct (c =? d); [done|]. by destruct (split_once c s) as [[]|].
Qed.

Lemma replace_one c r s : replace [c] r s = concat (map (fun d => if d =? c then r else [d]) s).
Proof.
  assert (Hkeep : forall a, contains_char c a = false -> concat (map (fun d => if d =? c then r else [d]) a) = a).
  { induction a as [|d a IH]; [done|]. cbn. intros [Hd Ha]%orb_false_iff. by rewrite Hd, IH. }
  assert (Hgen : forall n s, (length s < n)%nat -> replace_fuel n [c] r s = concat (map (fun d => if d =? c then r else [d]) s)).
  { induction n as [|n IH]; intros s' Hn; [lia|]. cbn [replace_fuel]. rewrite split_once_str_char.
    destruct (split_once c s') as [[a b]|] eqn:E.
    - apply split_once_spec in E as [-> Ha]. rewrite length_app in Hn. cbn [length] in Hn.
      rewrite map_app, concat_app. cbn [map concat]. rewrite Z.eqb_refl, Hkeep, IH by (done || lia). done.
    - apply split_once_none in E. by rewrite Hkeep. }
  apply Hgen. lia.
Qed.

Lemma concat_map_concat {A} (f g : A -> list A) s : concat (map g (concat (map f s))) = concat (map (fun x => concat (map g (f x))) s).
Proof. induction s as [|x s IH]; [done|]. cbn [map concat]. by rewrite map_app, concat_app, IH. Qed.

(** The five replacements in a row are one, character by character: what one inserts no later
    one replaces. *)
Theorem xml_escape_spec s : xml_escape s = concat (map escape_char s).
Proof.
  unfold xml_escape. rewrite !replace_one, !concat_map_concat. f_equal. apply map_ext. intros c. unfold escape_char.
  destruct (Z.eqb_spec c 38) as [->|H1]; [done|]. cbn [map concat app].
  destruct (Z.eqb_spec c 60) as [->|H2]; [done|]. cbn [map concat app].
  destruct (Z.eqb_spec c 62) as [->|H3]; [done|]. cbn [map concat app].
  destruct (Z.eqb_spec c 34) as [->|H4]; [done|]. cbn [map concat app].
  by destruct (Z.eqb_spec c 39).
Qed.

(** An escaped string opens and closes no element or attribute. *)
Theorem xml_escape_safe s c : c ∈ [60; 62; 34; 39] -> contains_char c (xml_escape s) = false.
Proof.
  intros Hc. rewrite xml_escape_spec. induction s as [|d s IH]; [done|]. cbn [map concat]. rewrite contains_char_app, IH, orb_false_r.
  rewrite !elem_of_cons, elem_of_nil in Hc. unfold escape_char.
  repeat case_match; destruct Hc as [->|[->|[->|[->|[]]]]]; try done; cbn; rewrite orb_false_r; by apply Z.eqb_neq; lia.
Qed.

(** ** Shutting down *)

Definition starts (ms : list (Z * Moment)) : list str := omap (fun m => match m.2 with HookStarts n => Some n | _ => None end) ms.

Lemma run_hooks_spec hooks t : Forall (fun h => forall d, h.(takes) = Some d -> 0 <= d) hooks ->
  let '(ms, t') := run_hooks t hooks in
  starts ms = map hook_name hooks /\ t <= t' <= t + 10 * Z.of_nat (length hooks) /\
  (forall h, h ∈ hooks -> exists u e, (u, HookEnds h.(hook_name) e) ∈ ms /\ u <= t').
Proof.
  revert t. induction hooks as [|h hooks IH]; intros t Hh; cbn [run_hooks].
  { split_and!; [done|lia|cbn; lia|]. intros h Hh'. by apply not_elem_of_nil in Hh'. }
  apply Forall_cons in Hh as [Hd Hh]. destruct (run_hook h) as [e d] eqn:Er.
  assert (Hdb : 0 <= d <= 10). { unfold run_hook in Er. destruct h.(takes) as [x|]; [|by injection Er as <- <-]. specialize (Hd x eq_refl).
    destruct (Z.ltb_spec x 10); injection Er as <- <-; lia. }
  specialize (IH (t + d) Hh). destruct (run_hooks (t + d) hooks) as [ms t']. destruct IH as (Hs & Ht & He). cbn [length map]. split_and!; [|lia|lia|].
  - unfold starts in *. cbn [omap list_omap snd]. by rewrite Hs.
  - intros x [->|Hx]%elem_of_cons.
    + exists (t + d), e. split; [right; left|lia].
    + destruct (He x Hx) as (u & e' & Hu & Hle). exists u, e'. split; [by do 2 right|done].
Qed.

(** Hooks run one after the other as registered, a hook that hangs costs ten seconds, and the
    server stops within ten seconds a hook and the drain period. *)
Theorem shutdown_ends t drain hooks : 0 <= drain -> Forall (fun h => forall d, h.(takes) = Some d -> 0 <= d) hooks ->
  starts (graceful_shutdown t drain hooks) = map hook_name hooks /\
  exists u, last (graceful_shutdown t drain hooks) = Some (u, Stops) /\ u <= t + 10 * Z.of_nat (length hooks) + drain.
Proof.
  intros Hd Hh. pose proof (run_hooks_spec hooks t Hh) as H. unfold graceful_shutdown. destruct (run_hooks t hooks) as [ms t']. destruct H as (Hs & Ht & _).
  split.
  - unfold starts in *. cbn [omap list_omap snd]. rewrite omap_app, Hs. cbn [omap list_omap snd]. by rewrite app_nil_r.
  - exists (t' + drain). split; [|lia]. change (?x :: ms ++ [?a; ?b]) with (x :: ms ++ ([a] ++ [b])). by rewrite app_assoc, app_comm_cons, last_snoc.
Qed.

(** The server accepts requests until the drain period is over, which is after every hook has
    run: a request can meet what a hook has closed. *)
Theorem serves_after_hooks t drain hooks h : 0 < drain -> Forall (fun h => forall d, h.(takes) = Some d -> 0 <= d) hooks -> h ∈ hooks ->
  exists u e v, (u, HookEnds h.(hook_name) e) ∈ graceful_shutdown t drain hooks /\ last (graceful_shutdown t drain hooks) = Some (v, Stops) /\ u + drain <= v.
Proof.
  intros Hd Hh Hin. pose proof (run_hooks_spec hooks t Hh) as H. unfold graceful_shutdown. destruct (run_hooks t hooks) as [ms t']. destruct H as (_ & _ & He).
  destruct (He h Hin) as (u & e & Hu & Hle). exists u, e, (t' + drain). split_and!; [set_solver| |lia].
  change (?x :: ms ++ [?a; ?b]) with (x :: ms ++ ([a] ++ [b])). by rewrite app_assoc, app_comm_cons, last_snoc.
Qed.

(** ** Where the code departs from what it says *)

(** An empty request id is taken as one. *)
Theorem empty_request_id fresh next : (request_id_middleware (Some []) fresh next).(response_headers) !! lit "x-request-id" = Some [].
Proof. apply lookup_insert_eq. Qed.

Lemma forallb_join f hosts : f c_space = true -> forallb f (join_str (lit " ") hosts) = forallb (forallb f) hosts.
Proof.
  intros Hf. induction hosts as [|h hosts IH]; [done|]. cbn [join_str forallb]. destruct hosts as [|h' hosts]; [cbn; by rewrite andb_true_r|].
  rewrite !forallb_app, IH. change (lit " ") with [c_space]. cbn [forallb]. by rewrite Hf.
Qed.

(** A host that is not visible ASCII leaves the response without a policy. *)
Theorem policy_dropped c next h : next.(response_headers) !! csp_header = None -> h ∈ c.(style_src_hosts) -> forallb header_char h = false ->
  (apply_security_headers c next).(response_headers) !! csp_header = None.
Proof.
  intros Hn Hin Hh. destruct (security_headers c next) as (_ & _ & E & _). rewrite E.
  assert (Hj : forallb header_char (join_str (lit " ") c.(style_src_hosts)) = false).
  { rewrite forallb_join by done. destruct (forallb (forallb header_char) _) eqn:Ef; [|done].
    apply list_elem_of_In, (proj1 (forallb_forall _ _) Ef) in Hin. congruence. }
  assert (Hs : forallb header_char (with_hosts (lit "style-src 'self'" ++ unsafe_inline c.(allow_inline_styles)) c.(style_src_hosts)) = false).
  { unfold with_hosts. case_bool_decide as Ej; [by rewrite Ej in Hj|]. by rewrite !forallb_app, Hj, !andb_false_r. }
  unfold to_header_value. rewrite !forallb_app, Hs. by rewrite !andb_false_l, !andb_false_r.
Qed.

(** Where nothing is set, the documentation is served, in production too. *)
Theorem swagger_on_by_default : (swagger_from_env ∅).(enabled) = true.
Proof. done. Qed.

(** ** Witnesses *)

Lemma unit_file_read_witness : exists content acts, install_service Linux (Ok tt) (lit "agent") (lit "The Agent") (lit "/opt/agent") [lit "--port"; lit "80"] = (acts, Ok tt) /\
  acts !! 0%nat = Some (WriteFile (lit "/etc/systemd/system/agent.service") content) /\
  lines content = unit_lines (lit "The Agent") (lit "/opt/agent") [lit "--port"; lit "80"].
Proof.
  destruct (unit_file_read (Ok tt) (lit "agent") (lit "The Agent") (lit "/opt/agent") [lit "--port"; lit "80"] _ eq_refl eq_refl) as (content & E & Hl & _).
  exists content. eexists. split_and!; [reflexivity| |exact Hl]. rewrite E. reflexivity.
Defined.
