(* ===== verification/RedisLimit.v ===== *)
(** * The rate limiter in Redis, and the middleware ([runesh-core/src/rate_limit.rs])

    The script that [RedisRateLimiter::check] has Redis run, over the values of Redis it uses:
    sorted sets and counters, each with the time it expires at.  A script is atomic; the clock
    of Redis is taken to be that of the caller, in milliseconds.  The theorems state that the
    limiter decides as the one in memory does, as long as no key is the name of another's
    counter, and what the middleware lets through. *)
From S2P Require Import Prelude Str RateLimit.

#[local] Open Scope Z_scope.

(** A member of the set of a key: the time, which is its score, and the number that follows
    it in the text of the member. *)
Abbreviation member := (Z * Z)%type (only parsing).

Inductive rvalue : Type := ZSet (l : list (Z * Z)) | Counter (n : Z).
Abbreviation rdb := (gmap str (rvalue * Z)) (only parsing).

Definition look (now : Z) (k : str) (db : rdb) : option (rvalue * Z) := '(v, e) ← db !! k; if now <? e then Some (v, e) else None.

Definition seq_key (key : str) : str := key ++ lit ":seq".
Definition wrong_type : str := lit "WRONGTYPE Operation against a key holding the wrong kind of value".

(** [math.ceil(window / 1000)] seconds, in milliseconds. *)
Definition expire_ms (window : Z) : Z := (window + 999) / 1000 * 1000.

(** [ZADD]: a member that is there gets its score again. *)
Definition zadd (m : Z * Z) (l : list (Z * Z)) : list (Z * Z) := if bool_decide (m ∈ l) then l else l ++ [m].

Definition script (now window limit : Z) (key : str) (db : rdb) : result str Z * rdb :=
  match look now key db with
  | Some (Counter _, _) => (Err wrong_type, db)
  | o =>
      let '(l, e) := match o with Some (ZSet l, e) => (filter (fun m => now - window < m.1) l, e) | _ => ([], 0) end in
      let db := if bool_decide (l = []) then delete key db else <[key := (ZSet l, e)]> db in
      if Z.of_nat (length l) <? limit then
        match look now (seq_key key) db with
        | Some (ZSet _, _) => (Err wrong_type, db)
        | c =>
            let seq := match c with Some (Counter n, _) => n | _ => 0 end + 1 in
            let e := now + expire_ms window in
            (Ok 1, <[seq_key key := (Counter seq, e)]> (<[key := (ZSet (zadd (now, seq) l), e)]> db))
        end
      else (Ok 0, db)
  end.

Record RedisRateLimiter := { r_max_requests : Z; window_ms : Z; key_prefix : str; fail_mode : FailMode }.
Definition with_fail_mode (max_requests window_secs : Z) (prefix : str) (mode : FailMode) : RedisRateLimiter :=
  {| r_max_requests := max_requests; window_ms := wrap 64 (window_secs * 1000); key_prefix := prefix; fail_mode := mode |}.

(** [reached] is whether the pool gives a connection and the command an answer. *)
Definition redis_check (r : RedisRateLimiter) (reached : bool) (now : Z) (key : str) (db : rdb) : bool * rdb :=
  if negb reached then (redis_answer r.(fail_mode) None, db)
  else match script now r.(window_ms) r.(r_max_requests) (r.(key_prefix) ++ key) db with
       | (Ok n, db) => (redis_answer r.(fail_mode) (Some n), db)
       | (Err _, db) => (redis_answer r.(fail_mode) None, db)
       end.

(** ** The middleware *)

(** What a request shows of its origin: the text of two headers, and the peer of its socket. *)
Record Origin := { x_forwarded_for : option str; x_real_ip : option str; peer : option str }.

Definition non_empty (s : str) : option str := if bool_decide (s = []) then None else Some s.

Definition extract_client_ip (o : Origin) (trust_proxy : bool) : str :=
  let forwarded := v ← o.(x_forwarded_for); ip ← head (split c_comma v); non_empty (trim ip) in
  let real := v ← o.(x_real_ip); non_empty (trim v) in
  let direct := default (lit "unknown") o.(peer) in
  if trust_proxy then match forwarded with Some ip => ip | None => default direct real end else direct.

(** [check] is the backend, and a request that is let through goes on to the next layer. *)
Definition rate_limit_layer {L} (check : str -> L -> bool * L) (trust_proxy : bool) (o : Origin) (l : L) : result Z unit * L :=
  match check (extract_client_ip o trust_proxy) l with
  | (true, l) => (Ok tt, l)
  | (false, l) => (Err 429, l)
  end.

(** ** The same window *)

(** A key that is not the counter of another. *)
Definition plain (key : str) : Prop := ends_with (lit ":seq") key = false.

Lemma seq_not_plain key : ~ plain (seq_key key).
Proof. unfold plain, seq_key, ends_with. rewrite bool_decide_eq_true_2; [done|]. exists key. by apply strip_suffix_spec. Qed.

(** Runs of the script on plain keys, with the requests let through, latest first. *)
Inductive redis_limited (max w : Z) : list (str * Z) -> Z -> gmap str (rvalue * Z) -> Prop :=
  | redis_new now : redis_limited max w [] now ∅
  | redis_step hist now db now' key n db' :
      redis_limited max w hist now db -> now <= now' -> plain key -> script now' w max key db = (Ok n, db') ->
      redis_limited max w (if n =? 1 then (key, now') :: hist else hist) now' db'.

(** What is kept for a key. *)
Record key_inv (w : Z) (hist : list (str * Z)) (now : Z) (db : gmap str (rvalue * Z)) (key : str) : Prop := {
  ki_type v e : db !! key = Some (v, e) -> exists l, v = ZSet l;
  ki_seq_type v e : db !! seq_key key = Some (v, e) -> exists n, v = Counter n;
  ki_members l e : db !! key = Some (ZSet l, e) ->
    (forall m, m ∈ l -> m.1 <= now /\ m.1 + w <= e) /\
    exists n, db !! seq_key key = Some (Counter n, e) /\ forall m, m ∈ l -> m.2 <= n;
  ki_recent now' : now <= now' ->
    filter (fun t => now' - t < w) (match db !! key with Some (ZSet l, _) => map fst l | _ => [] end) ≡ₚ recent hist key now' w
}.

Lemma look_some now k db v e : look now k db = Some (v, e) <-> db !! k = Some (v, e) /\ now < e.
Proof.
  unfold look. destruct (db !! k) as [[v0 e0]|]; cbn [mbind option_bind]; [|naive_solver].
  destruct (Z.ltb_spec now e0); naive_solver lia.
Qed.

(** The members that count at a time are those that are there and live. *)
Definition members (now w : Z) (key : str) (db : gmap str (rvalue * Z)) : list (Z * Z) :=
  match look now key db with Some (ZSet l, _) => filter (fun m => now - w < m.1) l | _ => [] end.

Lemma members_recent w hist now db key now' : key_inv w hist now db key -> now <= now' ->
  map fst (members now' w key db) ≡ₚ recent hist key now' w.
Proof.
  intros [Ht _ Hm Hr] Hle. rewrite <-(Hr now' Hle). unfold members.
  destruct (db !! key) as [[v e]|] eqn:E.
  - destruct (Ht v e eq_refl) as [l ->]. destruct (Hm l e eq_refl) as [Hml _].
    assert (Hf : filter (fun t => now' - t < w) (map fst l) = map fst (filter (fun m => now' - w < m.1) l)).
    { rewrite list_filter_map. f_equal. apply list_filter_iff. intros m. lia. }
    destruct (look now' key db) as [[v' e']|] eqn:El.
    + apply look_some in El as [El _]. rewrite E in El. injection El as <- <-. by rewrite Hf.
    + rewrite Hf. assert (Hn : filter (fun m : Z * Z => now' - w < m.1) l = []).
      { apply filter_nil_iff. intros m Hin Hlt. destruct (Hml m Hin) as [_ He].
        assert (look now' key db = Some (ZSet l, e)) by (apply look_some; split; [done|lia]). congruence. }
      by rewrite Hn.
  - unfold look. by rewrite E.
Qed.

Lemma seq_key_ne key : key <> seq_key key.
Proof. intros E. apply (f_equal length) in E. unfold seq_key in E. rewrite length_app in E. change (length (lit ":seq")) with 4%nat in E. lia. Qed.
Lemma seq_key_inj a b : seq_key a = seq_key b -> a = b.
Proof. apply app_inv_tail. Qed.

(** The number of the next member. *)
Definition next_seq (now : Z) (key : str) (db : gmap str (rvalue * Z)) : Z := match look now (seq_key key) db with Some (Counter n, _) => n | _ => 0 end + 1.

(** What the script does to a plain key. *)
Lemma script_plain w max hist now db key now' : key_inv w hist now db key -> now <= now' ->
  let l := members now' w key db in
  exists db1, (forall k, k <> key -> db1 !! k = db !! k) /\
    (db1 !! key = None /\ l = [] \/ exists e n, db1 !! key = Some (ZSet l, e) /\ l <> [] /\ now' < e /\ db !! seq_key key = Some (Counter n, e) /\
       forall m, m ∈ l -> m.1 <= now /\ m.1 + w <= e /\ m.2 <= n) /\
    script now' w max key db =
      if Z.of_nat (length l) <? max then
        (Ok 1, <[seq_key key := (Counter (next_seq now' key db), now' + expire_ms w)]> (<[key := (ZSet (l ++ [(now', next_seq now' key db)]), now' + expire_ms w)]> db1))
      else (Ok 0, db1).
Proof.
  intros [Ht Hst Hm Hr] Hle l.
  assert (Hl : exists e, match look now' key db with
      | Some (Counter _, _) => False
      | o => match o with Some (ZSet l0, e0) => (filter (fun m => now' - w < m.1) l0, e0) | _ => ([], 0) end = (l, e) /\
             (l <> [] -> exists l0 n, db !! key = Some (ZSet l0, e) /\ now' < e /\ db !! seq_key key = Some (Counter n, e) /\
                forall m, m ∈ l -> m.1 <= now /\ m.1 + w <= e /\ m.2 <= n)
      end).
  { unfold l, members. destruct (look now' key db) as [[v e]|] eqn:El; [|by exists 0].
    apply look_some in El as [El Hlt]. destruct (Ht v e El) as [l0 ->]. exists e. split; [done|]. intros _.
    destruct (Hm l0 e El) as [Hml (n & Hn & Hseq)]. exists l0, n. split_and!; [done..|]. intros m [_ Hin]%list_elem_of_filter.
    destruct (Hml m Hin). split_and!; [done|done|by apply Hseq]. }
  destruct Hl as [e Hl]. set (db1 := if bool_decide (l = []) then delete key db else <[key := (ZSet l, e)]> db).
  assert (H1 : forall k, k <> key -> db1 !! k = db !! k).
  { intros k Hk. unfold db1. case_bool_decide; [by rewrite lookup_delete_ne|by rewrite lookup_insert_ne]. }
  assert (Hs : script now' w max key db = if Z.of_nat (length l) <? max then
      match look now' (seq_key key) db1 with
      | Some (ZSet _, _) => (Err wrong_type, db1)
      | c => let seq := match c with Some (Counter n, _) => n | _ => 0 end + 1 in
             (Ok 1, <[seq_key key := (Counter seq, now' + expire_ms w)]> (<[key := (ZSet (zadd (now', seq) l), now' + expire_ms w)]> db1))
      end else (Ok 0, db1)).
  { unfold script. destruct (look now' key db) as [[[l0|c] e0]|]; [destruct Hl as [E _]|done|destruct Hl as [E _]]; injection E as <- <-; done. }
  assert (Hnon : l <> [] -> exists l0 n, db !! key = Some (ZSet l0, e) /\ now' < e /\ db !! seq_key key = Some (Counter n, e) /\
                forall m, m ∈ l -> m.1 <= now /\ m.1 + w <= e /\ m.2 <= n).
  { destruct (look now' key db) as [[[l0|c] e0]|]; [by destruct Hl|done|by destruct Hl]. }
  assert (Hlook : look now' (seq_key key) db1 = look now' (seq_key key) db).
  { unfold look. rewrite H1 by (intros E; by apply (seq_key_ne key)). done. }
  exists db1. split_and!; [done| |].
  - unfold db1. case_bool_decide as El; [left; by rewrite lookup_delete_eq|]. right. destruct (Hnon El) as (l0 & n & _ & Hlt & Hseq & Hml).
    exists e, n. by rewrite lookup_insert_eq.
  - rewrite Hs, Hlook. destruct (Z.of_nat (length l) <? max); [|done].
    assert (Hz : zadd (now', next_seq now' key db) l = l ++ [(now', next_seq now' key db)]).
    { unfold zadd. rewrite bool_decide_eq_false_2; [done|]. intros Hin. assert (El : l <> []) by (by intros ->; apply not_elem_of_nil in Hin).
      destruct (Hnon El) as (l0 & n & _ & Hlt & Hseq & Hml). destruct (Hml _ Hin) as (_ & _ & Hn). cbn [snd] in Hn.
      assert (El' : look now' (seq_key key) db = Some (Counter n, e)) by (by apply look_some). unfold next_seq in Hn. rewrite El' in Hn. lia. }
    rewrite <-Hz. unfold next_seq. destruct (look now' (seq_key key) db) as [[v e']|] eqn:El; [|done].
    apply look_some in El as [El _]. by destruct (Hst v e' El) as [n ->].
Qed.

Lemma key_inv_later w hist now now' db key : key_inv w hist now db key -> now <= now' -> key_inv w hist now' db key.
Proof.
  intros [Ht Hst Hm Hr] Hle. split; [done|done| |intros t Ht'; apply Hr; lia].
  intros l e E. destruct (Hm l e E) as [Hml Hn]. split; [|done]. intros m Hin. destruct (Hml m Hin). lia.
Qed.

Lemma expire_ms_le w : w <= expire_ms w.
Proof. unfold expire_ms. pose proof (Z.div_mod (w + 999) 1000). pose proof (Z.mod_pos_bound (w + 999) 1000). lia. Qed.

(** A step on one key keeps the invariant of every plain key. *)
Lemma step_inv max w hist now db now' key n db' k : (forall k, plain k -> key_inv w hist now db k) -> now <= now' -> plain key ->
  script now' w max key db = (Ok n, db') -> plain k -> key_inv w (if n =? 1 then (key, now') :: hist else hist) now' db' k.
Proof.
  intros Hall Hle Hp Hs Hk. pose proof (Hall key Hp) as Hkey. pose proof (key_inv_later _ _ _ _ _ _ (Hall k Hk) Hle) as Hold.
  destruct (script_plain w max hist now db key now' Hkey Hle) as (db1 & H1 & Hdb1 & E). set (l := members now' w key db) in *. rewrite Hs in E.
  assert (Hrec : forall t, now' <= t -> filter (fun x => t - x < w) (map fst l) ≡ₚ recent hist key t w).
  { intros t Ht. unfold l. rewrite (members_recent w hist now db key now' Hkey Hle). unfold recent. rewrite list_filter_filter_l; [done|]. intros; lia. }
  destruct (decide (k = key)) as [->|Hne].
  - destruct (Z.of_nat (length l) <? max); injection E as -> ->; cbn [Z.eqb Pos.eqb].
    + assert (Hsk : seq_key key <> key) by (intros E; by apply (seq_key_ne key)). split.
      * intros v e. rewrite lookup_insert_ne, lookup_insert_eq by done. intros [= <- <-]. by eexists.
      * intros v e. rewrite lookup_insert_eq. intros [= <- <-]. by eexists.
      * intros l' e. rewrite lookup_insert_ne, lookup_insert_eq by done. intros [= <- <-]. pose proof (expire_ms_le w) as Hx. split.
        -- intros m [Hin| ->%list_elem_of_singleton]%elem_of_app; [|cbn [fst]; lia].
           destruct Hdb1 as [[_ Hn]|(e & c & _ & _ & _ & _ & Hml)]; [by rewrite Hn in Hin; apply not_elem_of_nil in Hin|].
           destruct (Hml m Hin) as (? & _ & _). lia.
        -- eexists. split; [apply lookup_insert_eq|]. intros m [Hin| ->%list_elem_of_singleton]%elem_of_app; [|cbn [snd]; lia].
           destruct Hdb1 as [[_ Hn]|(e & c & _ & _ & Hlt & Hseq & Hml)]; [by rewrite Hn in Hin; apply not_elem_of_nil in Hin|].
           destruct (Hml m Hin) as (_ & _ & Hc). assert (Hlk : look now' (seq_key key) db = Some (Counter c, e)) by (by apply look_some).
           unfold next_seq. rewrite Hlk. lia.
      * intros t Ht. rewrite lookup_insert_ne, lookup_insert_eq by done. rewrite map_app, filter_app, recent_cons, decide_True by done.
        cbn [map fst]. rewrite filter_cons, filter_nil, (Hrec t Ht). rewrite Permutation_app_comm. by destruct (decide (t - now' < w)).
    + destruct Hold as [_ Hst _ _]. assert (Hsk : db1 !! seq_key key = db !! seq_key key) by (apply H1; intros E; by apply (seq_key_ne key)).
      destruct Hdb1 as [[Hn Hl]|(e & c & He & _ & Hlt & Hseq & Hml)].
      * split; [by rewrite Hn|by rewrite Hsk|by rewrite Hn|]. intros t Ht. rewrite Hn, <-(Hrec t Ht), Hl. done.
      * split; [rewrite He; intros v e' [= <- <-]; by eexists|by rewrite Hsk| |intros t Ht; by rewrite He, <-(Hrec t Ht)].
        intros l' e'. rewrite He. intros [= <- <-]. split; [intros m Hin; destruct (Hml m Hin) as (? & ? & _); lia|].
        exists c. rewrite Hsk. split; [done|]. intros m Hin. by destruct (Hml m Hin) as (_ & _ & ?).
  - assert (Hsk : seq_key key <> k) by (intros <-; by apply (seq_not_plain key)).
    assert (Hks : seq_key k <> key) by (intros <-; by apply (seq_not_plain k)).
    assert (Hkk : seq_key key <> seq_key k) by (intros ?%seq_key_inj; done).
    assert (Hdb : db' !! k = db !! k /\ db' !! seq_key k = db !! seq_key k).
    { destruct (_ <? _); injection E as _ ->; rewrite ?lookup_insert_ne by done; split; by apply H1. }
    destruct Hdb as [E1 E2]. destruct Hold as [Ht Hst Hm Hr]. split; rewrite ?E1, ?E2; try done.
    intros t Hlt. destruct (n =? 1); [|by apply Hr]. rewrite recent_cons, decide_False by done. by apply Hr.
Qed.

Lemma redis_inv max w hist now db : redis_limited max w hist now db -> forall k, plain k -> key_inv w hist now db k.
Proof.
  induction 1 as [now|hist now db now' key n db' _ IH Hle Hp Hs]; intros k Hk.
  - by split; intros *; rewrite lookup_empty.
  - by eapply step_inv.
Qed.

(** C33: Among keys that do not end in ":seq", in the history and of the next request, and with
    the same clock: after the same requests were let through, the script of the limiter in
    Redis succeeds, and lets the next request through exactly when the limiter in memory does.
    (A key that ends in ":seq" can make the script fail: [counter_poisoned].) *)
Theorem redis_as_in_memory max w hist now l db now' key :
  limited max w hist now l -> redis_limited max w hist now db -> now <= now' -> plain key ->
  exists n db', script now' w max key db = (Ok n, db') /\ (n =? 1) = (check now' key l).1.
Proof.
  intros Hl Hr Hle Hp. pose proof (redis_inv _ _ _ _ _ Hr key Hp) as Hi.
  destruct (script_plain w max hist now db key now' Hi Hle) as (db1 & _ & _ & E). rewrite E.
  pose proof (check_decision _ _ _ _ _ _ key Hl Hle) as Hd.
  assert (Hlen : length (members now' w key db) = length (recent hist key now' w)).
  { rewrite <-(members_recent w hist now db key now' Hi Hle). by rewrite length_map. }
  destruct (Z.ltb_spec (Z.of_nat (length (members now' w key db))) max) as [Hlt|Hge].
  - do 2 eexists. split; [done|]. symmetry. apply Hd. lia.
  - do 2 eexists. split; [done|]. destruct (check now' key l).1; [|done]. exfalso. assert (true = true) as Ht by done. apply Hd in Ht. lia.
Qed.

(** ** The middleware *)

(** Without a trusted proxy the key of a request is the peer of its socket, whatever it sends;
    and a request is refused exactly when the limiter refuses that key. *)
Theorem layer_spec {L} (c : str -> L -> bool * L) f r p l :
  extract_client_ip {| x_forwarded_for := f; x_real_ip := r; peer := Some p |} false = p /\
  (rate_limit_layer c false {| x_forwarded_for := f; x_real_ip := r; peer := Some p |} l).1 = (if (c p l).1 then Ok tt else Err 429).
Proof. split; [done|]. unfold rate_limit_layer. change (extract_client_ip _ false) with p. by destruct (c p l) as [[] ?]. Qed.

(** A key that ends in [:seq] is taken for a counter of another, which then fails: one request
    under the name of the counter, and a limiter that fails closed refuses the key itself. *)
Theorem counter_poisoned prefix key now max secs : 0 < max -> 0 < secs < 2 ^ 50 ->
  let r := with_fail_mode max secs prefix Closed in
  let '(_, db) := redis_check r true now (seq_key key) ∅ in
  (redis_check r true now key db).1 = false.
Proof.
  intros Hmax Hs r. assert (Hw : r.(window_ms) = secs * 1000) by (unfold r; cbn [with_fail_mode window_ms]; apply wrap_small; unfold is_u; lia).
  assert (Hx : expire_ms (secs * 1000) = secs * 1000).
  { unfold expire_ms. rewrite Z.add_comm, Z.div_add by lia. change (999 / 1000) with 0. lia. }
  assert (Hpre : prefix ++ seq_key key = seq_key (prefix ++ key)) by (unfold seq_key; by rewrite app_assoc).
  set (k := prefix ++ key) in *.
  unfold redis_check. cbn [negb]. rewrite Hw. change r.(r_max_requests) with max. change r.(key_prefix) with prefix. rewrite Hpre. fold k.
  assert (E1 : exists db, script now (secs * 1000) max (seq_key k) ∅ = (Ok 1, db) /\ db !! k = None /\ exists l, look now (seq_key k) db = Some (ZSet l, now + secs * 1000)).
  { unfold script. unfold look at 1. rewrite lookup_empty. cbn [mbind option_bind]. cbn [length]. rewrite (proj2 (Z.ltb_lt (Z.of_nat 0) max)) by lia.
    rewrite bool_decide_eq_true_2 by done. unfold look at 1. rewrite lookup_delete_ne, lookup_empty by apply seq_key_ne. cbn [mbind option_bind]. rewrite Hx.
    eexists. split; [done|]. split.
    - rewrite !lookup_insert_ne, lookup_delete_ne, lookup_empty; [done|intros E; by apply (seq_key_ne k)..|].
      intros E. apply (f_equal length) in E. unfold seq_key in E. rewrite !length_app in E. change (length (lit ":seq")) with 4%nat in E. lia.
    - eexists. apply look_some. rewrite lookup_insert_ne, lookup_insert_eq; [split; [done|lia]|]. intros E. by apply (seq_key_ne (seq_key k)). }
  destruct E1 as (db & -> & Hk & l & Hl).
  assert (E2 : script now (secs * 1000) max k db = (Err wrong_type, delete k db)).
  { unfold script. assert (Hn : look now k db = None) by (unfold look; by rewrite Hk). rewrite Hn. cbn [length]. rewrite bool_decide_eq_true_2 by done.
    rewrite (proj2 (Z.ltb_lt (Z.of_nat 0) max)) by lia.
    assert (Hl' : look now (seq_key k) (delete k db) = Some (ZSet l, now + secs * 1000)).
    { unfold look in Hl |- *. by rewrite lookup_delete_ne by apply seq_key_ne. }
    by rewrite Hl'. }
  by rewrite E2.
Qed.

(** ** Runs *)

Module RedisExamples.

Definition k : str := lit "10.0.0.1".
Definition db1 : gmap str (rvalue * Z) := (script 5 60 1 k ∅).2.

Lemma once_redis : redis_limited 1 60 [(k, 5)] 5 db1.
Proof.
  assert (E : script 5 60 1 k ∅ = (Ok 1, db1)) by (vm_compute; reflexivity).
  assert (Hp : plain k) by (vm_compute; reflexivity).
  exact (redis_step 1 60 [] 0 ∅ 5 k 1 db1 (redis_new 1 60 0) ltac:(lia) Hp E).
Qed.

Lemma redis_as_in_memory_witness : exists n db', script 30 60 1 k db1 = (Ok n, db') /\ (n =? 1) = (check 30 k RateExamples.once).1.
Proof. apply (redis_as_in_memory 1 60 [(k, 5)] 5 RateExamples.once db1 30 k RateExamples.once_limited once_redis); [lia|by vm_compute]. Defined.

End RedisExamples.
