(* ===== verification/Cursor.v ===== *)
(** * Cursors of a shared desktop ([runesh-desktop/src/cursor.rs])

    The cursors of the users of a session, which of them may inject input, and how they are
    drawn onto a captured frame.  Pixels are lists of bytes; an access by index that the source
    would panic on is [None].  The arithmetic of [i32] and [u32] wraps around, as in a release
    build.  The theorems state who holds control, and that drawing never leaves the frame. *)
From S2P Require Import Prelude Str.

#[local] Open Scope Z_scope.

(** ** The tracker *)

Inductive CursorShape : Type := Arrow | Hand | IBeam | Crosshair | ResizeNs | ResizeEw | ResizeNesw | ResizeNwse | Wait | NotAllowed.
Inductive MultiCursorMode : Type := Collaborative | TechControl | UserControl | RequestControl.

#[global] Instance MultiCursorMode_eq_dec : EqDecision MultiCursorMode.
Proof. solve_decision. Defined.

Record CursorState := {
  cursor_id : str;
  label : str;
  x : Z;
  y : Z;
  color : str;
  shape : CursorShape;
  visible : bool;
  is_local : bool;
  has_focus : bool
}.

Definition CURSOR_COLORS : list str := map lit ["#4A90D9"; "#E74C3C"; "#2ECC71"; "#F39C12"; "#9B59B6"; "#1ABC9C"]%string.

Record CursorTracker := {
  cursors : gmap str CursorState;
  active_cursor : option str;
  mode : MultiCursorMode;
  next_color_index : nat
}.

Definition new_tracker (m : MultiCursorMode) : CursorTracker := {| cursors := ∅; active_cursor := None; mode := m; next_color_index := 0 |}.

Definition with_cursors (m : gmap str CursorState) (t : CursorTracker) : CursorTracker :=
  {| cursors := m; active_cursor := t.(active_cursor); mode := t.(mode); next_color_index := t.(next_color_index) |}.
Definition with_mode (m : MultiCursorMode) (t : CursorTracker) : CursorTracker :=
  {| cursors := t.(cursors); active_cursor := t.(active_cursor); mode := m; next_color_index := t.(next_color_index) |}.
Definition with_active (a : option str) (t : CursorTracker) : CursorTracker :=
  {| cursors := t.(cursors); active_cursor := a; mode := t.(mode); next_color_index := t.(next_color_index) |}.

Definition at_position (x y : Z) (c : CursorState) : CursorState :=
  {| cursor_id := c.(cursor_id); label := c.(label); x := x; y := y; color := c.(color); shape := c.(shape);
     visible := c.(visible); is_local := c.(is_local); has_focus := c.(has_focus) |}.
Definition in_shape (s : CursorShape) (c : CursorState) : CursorState :=
  {| cursor_id := c.(cursor_id); label := c.(label); x := c.(x); y := c.(y); color := c.(color); shape := s;
     visible := c.(visible); is_local := c.(is_local); has_focus := c.(has_focus) |}.
Definition focused (b : bool) (c : CursorState) : CursorState :=
  {| cursor_id := c.(cursor_id); label := c.(label); x := c.(x); y := c.(y); color := c.(color); shape := c.(shape);
     visible := c.(visible); is_local := c.(is_local); has_focus := b |}.

Definition add_cursor (id name : str) (local : bool) (t : CursorTracker) : str * CursorTracker :=
  let col := default [] (CURSOR_COLORS !! (t.(next_color_index) mod length CURSOR_COLORS)%nat) in
  let c := {| cursor_id := id; label := name; x := 0; y := 0; color := col; shape := Arrow; visible := true; is_local := local; has_focus := local |} in
  let active := match t.(active_cursor) with None => if local then Some id else None | Some a => Some a end in
  (col, {| cursors := <[id := c]> t.(cursors); active_cursor := active; mode := t.(mode); next_color_index := S t.(next_color_index) |}).

(** [first] is the first key of the table in the order of its iteration. *)
Definition remove_cursor (first : gmap str CursorState -> option str) (id : str) (t : CursorTracker) : CursorTracker :=
  let m := delete id t.(cursors) in
  if bool_decide (t.(active_cursor) = Some id) then
    let active := first m in
    let m := match active with Some a => alter (focused true) a m | None => m end in
    with_active active (with_cursors m t)
  else with_cursors m t.

Definition update_position (id : str) (x y : Z) (t : CursorTracker) : CursorTracker := with_cursors (alter (at_position x y) id t.(cursors)) t.
Definition update_shape (id : str) (s : CursorShape) (t : CursorTracker) : CursorTracker := with_cursors (alter (in_shape s) id t.(cursors)) t.

Definition set_focus (id : str) (t : CursorTracker) : CursorTracker :=
  let m := focused false <$> t.(cursors) in
  match m !! id with
  | Some c => with_active (Some id) (with_cursors (<[id := focused true c]> m) t)
  | None => with_cursors m t
  end.

Definition should_inject_input (id : str) (t : CursorTracker) : bool :=
  match t.(mode) with
  | Collaborative | RequestControl => bool_decide (t.(active_cursor) = Some id)
  | TechControl => match t.(cursors) !! id with Some c => negb c.(is_local) | None => false end
  | UserControl => match t.(cursors) !! id with Some c => c.(is_local) | None => false end
  end.

(** [l] is the order of the table. *)
Definition remote_cursors (l : list (str * CursorState)) : list CursorState := filter (fun c => c.(is_local) = false) (map snd l).
Definition has_remote_cursors (l : list (str * CursorState)) : bool := existsb (fun c => negb c.(is_local) && c.(visible)) (map snd l).

(** ** Sprites *)

Record CursorSprite := { sprite_width : Z; sprite_height : Z; sprite_data : list Z }.
Record CapturedFrame := { frame_width : Z; frame_height : Z; frame_data : list Z }.

Definition to_i32 (z : Z) : Z := wrap 32 (z + 2 ^ 31) - 2 ^ 31.
Definition as_usize (z : Z) : Z := wrap 64 z.

(** [data[i] = v], in order; [None] where one is out of range. *)
Definition store (i v : Z) (data : list Z) : option (list Z) :=
  if i <? Z.of_nat (length data) then Some (<[Z.to_nat i := v]> data) else None.
Definition load (i : Z) (data : list Z) : option Z := data !! Z.to_nat i.
Definition store4 (i a b c d : Z) (data : list Z) : option (list Z) :=
  data ← store i a data; data ← store (i + 1) b data; data ← store (i + 2) c data; store (i + 3) d data.

Definition set_pixel (width x y r g b a : Z) (data : list Z) : option (list Z) :=
  let idx := wrap 32 ((y * width + x) * 4) in
  if idx + 3 <? Z.of_nat (length data) then store4 idx r g b a data else Some data.

(** A loop over a list of steps. *)
Fixpoint each {A} (f : A -> list Z -> option (list Z)) (l : list A) (data : list Z) : option (list Z) :=
  match l with
  | [] => Some data
  | i :: l => data ← f i data; each f l data
  end.
Definition range (a b : Z) : list Z := seqZ a (b - a).

(** [u8::from_str_radix(s, 16)] of two characters. *)
Definition hex_value (c : char) : option Z :=
  if is_ascii_digit c then Some (c - 48) else if (65 <=? c) && (c <=? 70) then Some (c - 55) else if (97 <=? c) && (c <=? 102) then Some (c - 87) else None.
Definition hex_pair (a b : char) : option Z :=
  if a =? 43 then hex_value b else hi ← hex_value a; lo ← hex_value b; Some (16 * hi + lo).

(** Of an ASCII string. *)
Definition parse_hex_color (hex : str) : Z * Z * Z :=
  match trim_start_matches 35 hex with
  | a :: b :: c :: d :: e :: f :: _ => (default 255 (hex_pair a b), default 255 (hex_pair c d), default 255 (hex_pair e f))
  | _ => (255, 255, 255)
  end.

Definition arrow_shape : list (Z * Z) :=
  [(0, 1); (0, 2); (0, 3); (0, 4); (0, 5); (0, 6); (0, 7); (0, 8); (0, 9); (0, 10); (0, 11); (0, 12); (0, 6); (0, 3); (5, 7); (0, 3); (6, 8); (0, 2); (7, 9); (0, 2); (8, 10); (0, 1); (9, 11); (0, 1); (10, 11)].

Definition arrow_width : Z := 24.
Definition arrow_height : Z := 24.

(** One row of the arrow. *)
Definition arrow_row (r g b : Z) (row_spans : Z * (Z * Z)) (data : list Z) : option (list Z) :=
  let '(y, (s0, s1)) := row_spans in
  if arrow_height <=? y then Some data
  else
    data ← (if s0 <? arrow_width then set_pixel arrow_width s0 y 0 0 0 255 data else Some data);
    data ← each (fun x => set_pixel arrow_width x y r g b 230) (range (s0 + 1) (Z.min s1 arrow_width)) data;
    if (0 <? s1) && (s1 <? arrow_width) then set_pixel arrow_width (s1 - 1) y 0 0 0 255 data else Some data.

Definition generate_arrow_sprite (hex_color : str) : option CursorSprite :=
  let '(r, g, b) := parse_hex_color hex_color in
  data ← each (arrow_row r g b) (zip (range 0 (Z.of_nat (length arrow_shape))) arrow_shape) (repeat 0 (Z.to_nat (arrow_width * arrow_height * 4)));
  data ← each (fun y => set_pixel arrow_width 0 y 0 0 0 255) (range 0 (Z.min 19 arrow_height)) data;
  Some {| sprite_width := arrow_width; sprite_height := arrow_height; sprite_data := data |}.

(** The bitmaps of the font, seven rows of five bits. *)
Definition glyphs : list (char * list Z) :=
  [ (65, [14; 17; 17; 31; 17; 17; 17]); (66, [30; 17; 30; 17; 17; 17; 30]); (67, [14; 17; 16; 16; 16; 17; 14]);
    (68, [30; 17; 17; 17; 17; 17; 30]); (69, [31; 16; 30; 16; 16; 16; 31]); (70, [31; 16; 30; 16; 16; 16; 16]);
    (71, [14; 17; 16; 23; 17; 17; 14]); (72, [17; 17; 31; 17; 17; 17; 17]); (73, [14; 4; 4; 4; 4; 4; 14]);
    (74, [7; 2; 2; 2; 2; 18; 12]); (75, [17; 18; 28; 18; 17; 17; 17]); (76, [16; 16; 16; 16; 16; 16; 31]);
    (77, [17; 27; 21; 17; 17; 17; 17]); (78, [17; 25; 21; 19; 17; 17; 17]); (79, [14; 17; 17; 17; 17; 17; 14]);
    (80, [30; 17; 17; 30; 16; 16; 16]); (81, [14; 17; 17; 17; 21; 14; 1]); (82, [30; 17; 17; 30; 18; 17; 17]);
    (83, [14; 17; 16; 14; 1; 17; 14]); (84, [31; 4; 4; 4; 4; 4; 4]); (85, [17; 17; 17; 17; 17; 17; 14]);
    (86, [17; 17; 17; 17; 17; 10; 4]); (87, [17; 17; 17; 21; 21; 27; 17]); (88, [17; 17; 10; 4; 10; 17; 17]);
    (89, [17; 17; 10; 4; 4; 4; 4]); (90, [31; 1; 2; 4; 8; 16; 31]); (48, [14; 17; 19; 21; 25; 17; 14]);
    (49, [4; 12; 4; 4; 4; 4; 14]); (50, [14; 17; 1; 6; 8; 16; 31]); (51, [14; 17; 1; 6; 1; 17; 14]);
    (52, [2; 6; 10; 18; 31; 2; 2]); (53, [31; 16; 30; 1; 1; 17; 14]); (54, [14; 16; 30; 17; 17; 17; 14]);
    (55, [31; 1; 2; 4; 8; 8; 8]); (56, [14; 17; 17; 14; 17; 17; 14]); (57, [14; 17; 17; 15; 1; 1; 14]);
    (32, [0; 0; 0; 0; 0; 0; 0]); (46, [0; 0; 0; 0; 0; 0; 4]); (45, [0; 0; 0; 31; 0; 0; 0]) ].
Definition box_glyph : list Z := [31; 17; 17; 17; 17; 17; 31].
Definition to_ascii_upper_char (c : char) : char := if is_ascii_lower c then c - 32 else c.
Definition get_glyph (c : char) : list Z :=
  match head (filter (fun g => g.1 = to_ascii_upper_char c) glyphs) with Some g => g.2 | None => box_glyph end.

Definition generate_label_sprite (text hex_color : str) : option CursorSprite :=
  let '(r, g, b) := parse_hex_color hex_color in
  let max_chars := Z.min (byte_len text) 16 in
  let width := max_chars * 6 + 4 in
  let height := 9 + 4 in
  let data := repeat 0 (Z.to_nat (width * height * 4)) in
  data ← each (fun y => each (fun x => set_pixel width x y 30 30 30 180) (range 0 width)) (range 0 height) data;
  data ← each (fun x data => data ← set_pixel width x 0 r g b 255 data; set_pixel width x (height - 1) r g b 255 data) (range 0 width) data;
  data ← each (fun y data => data ← set_pixel width 0 y r g b 255 data; set_pixel width (width - 1) y r g b 255 data) (range 0 height) data;
  let chars := take (Z.to_nat max_chars) text in
  data ← each (fun ic => each (fun row_bits => each (fun col data =>
            if negb (Z.testbit row_bits.2 (4 - col)) then Some data
            else
              let px := 2 + ic.1 * 6 + col in
              let py := 3 + row_bits.1 in
              if (px <? width) && (py <? height) then set_pixel width px py 255 255 255 255 data else Some data)
          (range 0 5)) (zip (range 0 7) (get_glyph ic.2)))
        (zip (range 0 (Z.of_nat (length chars))) chars) data;
  Some {| sprite_width := width; sprite_height := height; sprite_data := data |}.

(** ** Drawing *)

Definition blend (s sa d : Z) : Z := wrap 8 ((s * sa + d * (255 - sa)) / 255).

Definition blit_pixel (sprite : CursorSprite) (fw fh x y sy sx : Z) (data : list Z) : option (list Z) :=
  let sw := to_i32 sprite.(sprite_width) in
  let fx := to_i32 (x + sx) in
  if (fx <? 0) || (fw <=? fx) then Some data
  else
    let fy := to_i32 (y + sy) in
    let sprite_idx := as_usize (to_i32 ((sy * sw + sx) * 4)) in
    let frame_idx := as_usize (to_i32 ((fy * fw + fx) * 4)) in
    if (Z.of_nat (length sprite.(sprite_data)) <=? sprite_idx + 3) || (Z.of_nat (length data) <=? frame_idx + 3) then Some data
    else
      sr ← load sprite_idx sprite.(sprite_data);
      sg ← load (sprite_idx + 1) sprite.(sprite_data);
      sb ← load (sprite_idx + 2) sprite.(sprite_data);
      sa ← load (sprite_idx + 3) sprite.(sprite_data);
      if sa =? 0 then Some data
      else if sa =? 255 then store4 frame_idx sb sg sr 255 data
      else
        db ← load frame_idx data;
        dg ← load (frame_idx + 1) data;
        dr ← load (frame_idx + 2) data;
        store4 frame_idx (blend sb sa db) (blend sg sa dg) (blend sr sa dr) 255 data.

Definition blit_row (sprite : CursorSprite) (fw fh x y sy : Z) (data : list Z) : option (list Z) :=
  let fy := to_i32 (y + sy) in
  if (fy <? 0) || (fh <=? fy) then Some data
  else each (fun sx => blit_pixel sprite fw fh x y sy sx) (range 0 (to_i32 sprite.(sprite_width))) data.

Definition blit_sprite_bgra (frame : CapturedFrame) (x y : Z) (sprite : CursorSprite) : option CapturedFrame :=
  let fw := to_i32 frame.(frame_width) in
  let fh := to_i32 frame.(frame_height) in
  data ← each (fun sy => blit_row sprite fw fh x y sy) (range 0 (to_i32 sprite.(sprite_height))) frame.(frame_data);
  Some {| frame_width := frame.(frame_width); frame_height := frame.(frame_height); frame_data := data |}.

Definition draw_cursor (frame : CapturedFrame) (c : CursorState) : option CapturedFrame :=
  if negb c.(visible) then Some frame
  else
    arrow ← generate_arrow_sprite c.(color);
    frame ← blit_sprite_bgra frame c.(x) c.(y) arrow;
    if bool_decide (c.(label) = []) then Some frame
    else
      sprite ← generate_label_sprite c.(label) c.(color);
      blit_sprite_bgra frame (to_i32 (c.(x) + 4)) (to_i32 (to_i32 (c.(y) + to_i32 arrow.(sprite_height)) + 2)) sprite.

Fixpoint draw_all (cs : list CursorState) (frame : CapturedFrame) : option CapturedFrame :=
  match cs with
  | [] => Some frame
  | c :: cs => frame ← draw_cursor frame c; draw_all cs frame
  end.
Definition composite_cursors (l : list (str * CursorState)) (frame : CapturedFrame) : option CapturedFrame :=
  if negb (has_remote_cursors l) then Some frame else draw_all (remote_cursors l) frame.

(** ** Who holds control *)

Inductive cursor_op : Type :=
  | AddCursor (id name : str) (local : bool)
  | RemoveCursor (id : str)
  | MoveCursor (id : str) (x y : Z)
  | ShapeCursor (id : str) (s : CursorShape)
  | FocusCursor (id : str)
  | SetMode (m : MultiCursorMode).

Definition apply_op (first : gmap str CursorState -> option str) (o : cursor_op) (t : CursorTracker) : CursorTracker :=
  match o with
  | AddCursor id name local => (add_cursor id name local t).2
  | RemoveCursor id => remove_cursor first id t
  | MoveCursor id x y => update_position id x y t
  | ShapeCursor id s => update_shape id s t
  | FocusCursor id => set_focus id t
  | SetMode m => with_mode m t
  end.

Record tracker_inv (t : CursorTracker) : Prop := {
  ti_active a : t.(active_cursor) = Some a -> is_Some (t.(cursors) !! a);
  ti_ids id c : t.(cursors) !! id = Some c -> c.(cursor_id) = id
}.

Lemma tracker_inv_map (t : CursorTracker) m a : tracker_inv t ->
  (forall id c, m !! id = Some c -> c.(cursor_id) = id) -> (forall i, a = Some i -> is_Some (m !! i)) -> tracker_inv (with_active a (with_cursors m t)).
Proof. intros _ Hm Ha. by split. Qed.

Lemma alter_ids (f : CursorState -> CursorState) (id : str) (m : gmap str CursorState) : (forall c, (f c).(cursor_id) = c.(cursor_id)) ->
  (forall i c, m !! i = Some c -> c.(cursor_id) = i) -> forall i c, alter f id m !! i = Some c -> c.(cursor_id) = i.
Proof.
  intros Hf Hm i c. destruct (decide (id = i)) as [->|Hne].
  - rewrite lookup_alter_eq. destruct (m !! i) as [c0|] eqn:E; [|done]. intros [= <-]. rewrite Hf. by apply Hm.
  - rewrite lookup_alter_ne by done. apply Hm.
Qed.

Lemma alter_present (f : CursorState -> CursorState) (id : str) (m : gmap str CursorState) (a : str) : is_Some (m !! a) -> is_Some (alter f id m !! a).
Proof.
  intros [c Hc]. destruct (decide (id = a)) as [->|Hne]; [rewrite lookup_alter_eq, Hc|rewrite lookup_alter_ne by done]; [by eexists|by exists c].
Qed.

Lemma apply_op_inv first o t : (forall m k, first m = Some k -> is_Some (m !! k)) -> tracker_inv t -> tracker_inv (apply_op first o t).
Proof.
  intros Hfirst [Ha Hi]. destruct o as [id name local|id|id x y|id s|id|m]; cbn [apply_op].
  - split; unfold add_cursor; cbn [snd cursors active_cursor].
    + intros a E. destruct (decide (id = a)) as [->|Hne]; [rewrite lookup_insert_eq; by eexists|]. rewrite lookup_insert_ne by done.
      destruct t.(active_cursor) as [b|] eqn:Eb; [apply Ha; congruence|]. destruct local; [congruence|done].
    + intros i c. destruct (decide (id = i)) as [->|Hne]; [rewrite lookup_insert_eq; by intros [= <-]|]. rewrite lookup_insert_ne by done. apply Hi.
  - unfold remove_cursor. assert (Hd : forall i c, delete id t.(cursors) !! i = Some c -> c.(cursor_id) = i) by (intros i c [_ E]%lookup_delete_Some; by apply Hi).
    case_bool_decide as Ea.
    + apply tracker_inv_map; [by split| |].
      * destruct (first _) as [a|]; [|done]. apply alter_ids; [done|exact Hd].
      * intros i E. rewrite E. by apply alter_present, Hfirst.
    + split; cbn [with_cursors cursors active_cursor]; [|done]. intros a E. rewrite lookup_delete_ne by congruence. by apply Ha.
  - split; cbn [update_position with_cursors cursors active_cursor]; [intros a E; by apply alter_present, Ha|apply alter_ids; [done|exact Hi]].
  - split; cbn [update_shape with_cursors cursors active_cursor]; [intros a E; by apply alter_present, Ha|apply alter_ids; [done|exact Hi]].
  - assert (Hm : forall i c, (focused false <$> t.(cursors)) !! i = Some c -> c.(cursor_id) = i).
    { intros i c. rewrite lookup_fmap. destruct (t.(cursors) !! i) as [c0|] eqn:E; [|done]. intros [= <-]. exact (Hi i c0 E). }
    unfold set_focus. destruct ((focused false <$> t.(cursors)) !! id) as [c|] eqn:Ec.
    + split; cbn [with_active with_cursors cursors active_cursor].
      * intros a [= <-]. rewrite lookup_insert_eq. by eexists.
      * intros i c'. destruct (decide (id = i)) as [->|Hne]; [rewrite lookup_insert_eq; intros [= <-]; exact (Hm i c Ec)|rewrite lookup_insert_ne by done; apply Hm].
    + split; cbn [with_cursors cursors active_cursor]; [|done]. intros a E. rewrite lookup_fmap. destruct (Ha a E) as [c ->]. by eexists.
  - by split.
Qed.

(** Whatever cursors come, go, move, change shape or click and whatever the mode, control is
    held by a cursor that is there: one that may inject input is in the table; where the last
    click decides only one may; where the user has control, none of a remote one may. *)
Theorem control_held first ops m0 id : (forall m k, first m = Some k -> is_Some (m !! k)) ->
  let t := foldl (fun t o => apply_op first o t) (new_tracker m0) ops in
  should_inject_input id t = true ->
  exists c, t.(cursors) !! id = Some c /\ c.(cursor_id) = id /\
    match t.(mode) with
    | Collaborative | RequestControl => forall id', should_inject_input id' t = true -> id' = id
    | TechControl => c.(is_local) = false
    | UserControl => c.(is_local) = true
    end.
Proof.
  intros Hfirst t Hi. assert (Ht : tracker_inv t).
  { unfold t. assert (H0 : tracker_inv (new_tracker m0)) by (by split). clear t Hi. revert H0. generalize (new_tracker m0) as s.
    induction ops as [|o ops IH]; intros s Hs; [done|]. cbn [foldl]. by apply IH, apply_op_inv. }
  destruct Ht as [Ha Hids]. unfold should_inject_input in Hi |- *. destruct t.(mode).
  - apply bool_decide_eq_true in Hi. destruct (Ha id Hi) as [c Hc]. exists c. split_and!; [done|by apply Hids|].
    intros id' Hi'%bool_decide_eq_true. congruence.
  - destruct (t.(cursors) !! id) as [c|] eqn:Ec; [|done]. exists c. split_and!; [done|by apply Hids|]. by apply negb_true_iff.
  - destruct (t.(cursors) !! id) as [c|] eqn:Ec; [|done]. exists c. split_and!; [done|by apply Hids|done].
  - apply bool_decide_eq_true in Hi. destruct (Ha id Hi) as [c Hc]. exists c. split_and!; [done|by apply Hids|].
    intros id' Hi'%bool_decide_eq_true. congruence.
Qed.

(** Where control is to be asked for, it passes without asking: when the user's cursor goes, the
    first one left, a remote one, has it. *)
Theorem control_passes_unasked first t user tech c : t.(mode) = RequestControl -> t.(active_cursor) = Some user -> user <> tech ->
  t.(cursors) = {[ user := c; tech := at_position 0 0 c ]} -> first (delete user t.(cursors)) = Some tech ->
  should_inject_input tech t = false /\ should_inject_input tech (remove_cursor first user t) = true.
Proof.
  intros Hm Ha Hne Hc Hf. unfold should_inject_input, remove_cursor. rewrite Hm, Ha. split; [apply bool_decide_eq_false_2; congruence|].
  rewrite bool_decide_eq_true_2 by done. rewrite Hf. cbn [with_active with_cursors mode active_cursor]. rewrite Hm. by apply bool_decide_eq_true_2.
Qed.

(** Two local cursors both show as having the focus. *)
Theorem two_focused first m0 :
  let t := apply_op first (AddCursor (lit "b") (lit "B") true) (apply_op first (AddCursor (lit "a") (lit "A") true) (new_tracker m0)) in
  (has_focus <$> t.(cursors) !! lit "a") = Some true /\ (has_focus <$> t.(cursors) !! lit "b") = Some true.
Proof. by vm_compute. Qed.

(** ** Drawing stays in the frame *)

Definition is_pixels (n : nat) (data : list Z) : Prop := length data = n /\ Forall (fun b => 0 <= b < 256) data.

Lemma store_some i v data n : is_pixels n data -> 0 <= i < Z.of_nat n -> 0 <= v < 256 -> exists d, store i v data = Some d /\ is_pixels n d.
Proof.
  intros [Hl Hd] Hi Hv. unfold store. rewrite (proj2 (Z.ltb_lt i _)) by lia. eexists. split; [done|].
  split; [by rewrite length_insert|]. by apply Forall_insert.
Qed.

Lemma store4_some i a b c d data n : is_pixels n data -> 0 <= i -> i + 3 < Z.of_nat n -> 0 <= a < 256 -> 0 <= b < 256 -> 0 <= c < 256 -> 0 <= d < 256 ->
  exists e, store4 i a b c d data = Some e /\ is_pixels n e.
Proof.
  intros H0 Hi Hn Ha Hb Hc Hd. unfold store4.
  destruct (store_some i a data n H0) as (d1 & -> & H1); [lia|done|]. cbn [mbind option_bind].
  destruct (store_some (i + 1) b d1 n H1) as (d2 & -> & H2); [lia|done|]. cbn [mbind option_bind].
  destruct (store_some (i + 2) c d2 n H2) as (d3 & -> & H3); [lia|done|]. cbn [mbind option_bind].
  apply store_some; [done|lia|done].
Qed.

Lemma load_some i data n : is_pixels n data -> 0 <= i < Z.of_nat n -> exists v, load i data = Some v /\ 0 <= v < 256.
Proof.
  intros [Hl Hd] Hi. unfold load. destruct (lookup_lt_is_Some_2 data (Z.to_nat i)) as [v Hv]; [lia|]. exists v. split; [done|].
  by apply (proj1 (Forall_lookup _ _) Hd (Z.to_nat i)).
Qed.

(** A loop of steps that keep the size and succeed does. *)
Lemma each_some {A} (f : A -> list Z -> option (list Z)) l n data : (forall a d, a ∈ l -> is_pixels n d -> exists d', f a d = Some d' /\ is_pixels n d') ->
  is_pixels n data -> exists d', each f l data = Some d' /\ is_pixels n d'.
Proof.
  revert data. induction l as [|a l IH]; intros data Hf Hd; [by exists data|]. cbn [each].
  destruct (Hf a data ltac:(left) Hd) as (d & -> & Hd'). cbn [mbind option_bind]. apply IH; [|done]. intros a' d0 Ha'. apply Hf. by right.
Qed.

Lemma set_pixel_some width x y r g b a data n : is_pixels n data -> 0 <= r < 256 -> 0 <= g < 256 -> 0 <= b < 256 -> 0 <= a < 256 ->
  exists d, set_pixel width x y r g b a data = Some d /\ is_pixels n d.
Proof.
  intros Hd Hr Hg Hb Ha. unfold set_pixel. assert (Hw : 0 <= wrap 32 ((y * width + x) * 4)) by (unfold wrap; apply Z.mod_pos_bound; lia).
  destruct (Z.ltb_spec (wrap 32 ((y * width + x) * 4) + 3) (Z.of_nat (length data))) as [Hlt|]; [|by exists data].
  apply store4_some; try done. destruct Hd. lia.
Qed.

Lemma hex_value_range c v : hex_value c = Some v -> 0 <= v < 16.
Proof.
  unfold hex_value, is_ascii_digit. destruct ((48 <=? c) && (c <=? 57)) eqn:E1; [intros [= <-]; lia|].
  destruct ((65 <=? c) && (c <=? 70)) eqn:E2; [intros [= <-]; lia|]. destruct ((97 <=? c) && (c <=? 102)) eqn:E3; [intros [= <-]; lia|done].
Qed.

Lemma hex_pair_range a b : 0 <= default 255 (hex_pair a b) < 256.
Proof.
  unfold hex_pair. destruct (a =? 43).
  - destruct (hex_value b) as [v|] eqn:E; cbn [default from_option id]; [apply hex_value_range in E; lia|lia].
  - destruct (hex_value a) as [v|] eqn:E; cbn [mbind option_bind default from_option id]; [|lia]. apply hex_value_range in E.
    destruct (hex_value b) as [w|] eqn:F; cbn [mbind option_bind default from_option id]; [apply hex_value_range in F; lia|lia].
Qed.

Lemma parse_hex_color_range hex r g b : parse_hex_color hex = (r, g, b) -> 0 <= r < 256 /\ 0 <= g < 256 /\ 0 <= b < 256.
Proof.
  unfold parse_hex_color. repeat case_match; intros [= <- <- <-]; split_and!; try apply hex_pair_range; lia.
Qed.

Lemma zeros_pixels n : is_pixels n (repeat 0 n).
Proof. split; [apply repeat_length|]. apply Forall_forall. intros b Hb. apply list_elem_of_In, repeat_spec in Hb as ->. lia. Qed.

#[local] Ltac pixel := first [apply set_pixel_some; [done|lia..] | by eexists].

Lemma arrow_some hex : exists s, generate_arrow_sprite hex = Some s /\ exists n, is_pixels n s.(sprite_data).
Proof.
  unfold generate_arrow_sprite. destruct (parse_hex_color hex) as [[r g] b] eqn:E. apply parse_hex_color_range in E as (Hr & Hg & Hb). cbv zeta.
  set (n := Z.to_nat (arrow_width * arrow_height * 4)).
  destruct (each_some (arrow_row r g b) (zip (range 0 (Z.of_nat (length arrow_shape))) arrow_shape) n (repeat 0 n)) as (d1 & -> & H1); [|apply zeros_pixels|].
  { intros [y [s0 s1]] d _ Hd. unfold arrow_row. destruct (arrow_height <=? y); [by exists d|].
    assert (Ha : exists d', (if s0 <? arrow_width then set_pixel arrow_width s0 y 0 0 0 255 d else Some d) = Some d' /\ is_pixels n d') by (destruct (s0 <? arrow_width); pixel).
    destruct Ha as (da & -> & Hda). cbn [mbind option_bind].
    destruct (each_some (fun x => set_pixel arrow_width x y r g b 230) (range (s0 + 1) (Z.min s1 arrow_width)) n da) as (db & -> & Hdb); [intros x d' _ Hd'; pixel|done|].
    cbn [mbind option_bind]. destruct ((0 <? s1) && (s1 <? arrow_width)); pixel. }
  cbn [mbind option_bind].
  destruct (each_some (fun y => set_pixel arrow_width 0 y 0 0 0 255) (range 0 (Z.min 19 arrow_height)) n d1) as (d2 & -> & H2); [intros y d _ Hd; pixel|done|].
  cbn [mbind option_bind]. eexists. split; [done|]. by exists n.
Qed.

Lemma label_some text hex : exists s, generate_label_sprite text hex = Some s /\ exists n, is_pixels n s.(sprite_data).
Proof.
  unfold generate_label_sprite. destruct (parse_hex_color hex) as [[r g] b] eqn:E. apply parse_hex_color_range in E as (Hr & Hg & Hb). cbv zeta.
  set (w := Z.min (byte_len text) 16 * 6 + 4). set (n := Z.to_nat (w * (9 + 4) * 4)). pose proof (zeros_pixels n) as H0.
  edestruct (each_some (A := Z)) as (d1 & -> & H1); [|exact H0|].
  { intros y d _ Hd. apply each_some; [|done]. intros x d' _ Hd'. pixel. }
  cbn [mbind option_bind]. edestruct (each_some (A := Z)) as (d2 & -> & H2); [|exact H1|].
  { intros x d _ Hd. destruct (set_pixel_some w x 0 r g b 255 d n Hd) as (d' & -> & Hd'); [lia..|]. cbn [mbind option_bind]. pixel. }
  cbn [mbind option_bind]. edestruct (each_some (A := Z)) as (d3 & -> & H3); [|exact H2|].
  { intros y d _ Hd. destruct (set_pixel_some w 0 y r g b 255 d n Hd) as (d' & -> & Hd'); [lia..|]. cbn [mbind option_bind]. pixel. }
  cbn [mbind option_bind]. edestruct (each_some (A := Z * char)) as (d4 & -> & H4); [|exact H3|].
  { intros ic d _ Hd. apply each_some; [|done]. intros rb d' _ Hd'. apply each_some; [|done]. intros col d'' _ Hd''.
    destruct (negb _); [by exists d''|]. destruct (_ && _); pixel. }
  cbn [mbind option_bind]. eexists. split; [done|]. by exists n.
Qed.

Lemma blend_range s sa d : 0 <= blend s sa d < 256.
Proof. unfold blend, wrap. apply Z.mod_pos_bound. lia. Qed.

Lemma blit_some frame x y sprite n m : is_pixels n frame.(frame_data) -> is_pixels m sprite.(sprite_data) ->
  exists f, blit_sprite_bgra frame x y sprite = Some f /\ is_pixels n f.(frame_data) /\ f.(frame_width) = frame.(frame_width) /\ f.(frame_height) = frame.(frame_height).
Proof.
  intros Hf Hs. unfold blit_sprite_bgra. edestruct (each_some (A := Z)) as (d & -> & Hd); [|exact Hf|].
  { intros sy d _ Hd. unfold blit_row. destruct (_ || _); [by exists d|]. apply each_some; [|done]. clear d Hd. intros sx d _ Hd. unfold blit_pixel.
    destruct (_ || _); [by exists d|]. set (si := as_usize (to_i32 ((sy * _ + sx) * 4))). set (fi := as_usize (to_i32 ((_ * _ + _) * 4))).
    assert (Hsi : 0 <= si) by (unfold si, as_usize, wrap; apply Z.mod_pos_bound; lia). assert (Hfi : 0 <= fi) by (unfold fi, as_usize, wrap; apply Z.mod_pos_bound; lia).
    destruct (Z.leb_spec (Z.of_nat (length sprite.(sprite_data))) (si + 3)); cbn [orb]; [by exists d|].
    destruct (Z.leb_spec (Z.of_nat (length d)) (fi + 3)); [by exists d|]. destruct (Hs) as [Hls _]. destruct (Hd) as [Hld _].
    destruct (load_some si _ m Hs) as (sr & -> & Hsr); [lia|]. cbn [mbind option_bind]. destruct (load_some (si + 1) _ m Hs) as (sg & -> & Hsg); [lia|]. cbn [mbind option_bind].
    destruct (load_some (si + 2) _ m Hs) as (sb & -> & Hsb); [lia|]. cbn [mbind option_bind]. destruct (load_some (si + 3) _ m Hs) as (sa & -> & Hsa); [lia|]. cbn [mbind option_bind].
    destruct (sa =? 0); [by exists d|]. destruct (sa =? 255); [apply store4_some; (done || lia)|].
    destruct (load_some fi _ n Hd) as (db & -> & _); [lia|]. cbn [mbind option_bind]. destruct (load_some (fi + 1) _ n Hd) as (dg & -> & _); [lia|]. cbn [mbind option_bind].
    destruct (load_some (fi + 2) _ n Hd) as (dr & -> & _); [lia|]. cbn [mbind option_bind]. apply store4_some; try apply blend_range; (done || lia). }
  cbn [mbind option_bind]. by eexists.
Qed.

(** Whatever the positions, labels and colours of the cursors, and whatever the size the
    frame claims for its data, drawing them indexes nothing out of range and leaves a frame of
    the same size, of bytes. *)
Theorem composite_in_bounds l frame n : is_pixels n frame.(frame_data) ->
  exists f, composite_cursors l frame = Some f /\ is_pixels n f.(frame_data) /\ f.(frame_width) = frame.(frame_width) /\ f.(frame_height) = frame.(frame_height).
Proof.
  intros Hf. unfold composite_cursors. destruct (negb _); [by exists frame|]. revert frame Hf. induction (remote_cursors l) as [|c cs IH]; intros frame Hf; [by exists frame|].
  cbn [draw_all]. assert (Hc : exists f, draw_cursor frame c = Some f /\ is_pixels n f.(frame_data) /\ f.(frame_width) = frame.(frame_width) /\ f.(frame_height) = frame.(frame_height)).
  { unfold draw_cursor. destruct (negb c.(visible)); [by exists frame|]. destruct (arrow_some c.(color)) as (a & -> & k & Ha). cbn [mbind option_bind].
    destruct (blit_some frame c.(x) c.(y) a n k Hf Ha) as (f1 & -> & H1 & Hw & Hh). cbn [mbind option_bind]. case_bool_decide; [by exists f1|].
    destruct (label_some c.(label) c.(color)) as (s & -> & k' & Hs). cbn [mbind option_bind].
    destruct (blit_some f1 (to_i32 (c.(x) + 4)) (to_i32 (to_i32 (c.(y) + to_i32 a.(sprite_height)) + 2)) s n k' H1 Hs) as (f2 & -> & H2 & Hw2 & Hh2).
    exists f2. split_and!; [done|done|congruence|congruence]. }
  destruct Hc as (f & -> & H1 & Hw & Hh). cbn [mbind option_bind]. destruct (IH f H1) as (f' & -> & H2 & Hw2 & Hh2). exists f'. split_and!; [done|done|congruence|congruence].
Qed.

Module CursorExamples.
Definition first_key (m : gmap str CursorState) : option str := head (map fst (map_to_list m)).

Lemma first_key_in m k : first_key m = Some k -> is_Some (m !! k).
Proof.
  unfold first_key. destruct (map_to_list m) as [|[a c] l] eqn:E; [done|]. intros [= <-]. exists c. apply elem_of_map_to_list. rewrite E. apply list_elem_of_here.
Qed.

Definition joined : list cursor_op := [AddCursor (lit "u") (lit "User") true; AddCursor (lit "t") (lit "Tech") false; FocusCursor (lit "t")].

Lemma control_held_witness : exists c, (foldl (fun t o => apply_op first_key o t) (new_tracker Collaborative) joined).(cursors) !! lit "t" = Some c /\ c.(cursor_id) = lit "t".
Proof.
  destruct (control_held first_key joined Collaborative (lit "t") first_key_in) as (c & H1 & H2 & _); [by vm_compute|]. by exists c.
Defined.

Definition tech : CursorState :=
  {| cursor_id := lit "t"; label := lit "Tech"; x := 0; y := 0; color := lit "#E74C3C"; shape := Arrow; visible := true; is_local := false; has_focus := false |}.
Definition pixel : CapturedFrame := {| frame_width := 1; frame_height := 1; frame_data := [0; 0; 0; 0] |}.

Lemma pixel_ok : is_pixels 4 pixel.(frame_data).
Proof. split; [done|]. repeat constructor; lia. Qed.

Lemma composite_in_bounds_witness : exists f, composite_cursors [(lit "t", tech)] pixel = Some f /\ is_pixels 4 f.(frame_data) /\ f.(frame_width) = 1 /\ f.(frame_height) = 1.
Proof. exact (composite_in_bounds [(lit "t", tech)] pixel 4 pixel_ok). Defined.
End CursorExamples.
