(* ===== verification/Desktop.v ===== *)
(** * Sharing a desktop ([runesh-desktop/src/{session,handlers,protocol,auth,clipboard,error}.rs])

    A server of desktop sessions: the binary input frames, the sessions and the capture
    pipelines they share, and the connections, each of which authenticates, starts a session,
    asks for consent and then handles the messages of its peer until it ends.  [Phase] says at
    which await a connection is.  A step of [server_step] takes one connection from an await to
    the next, with one lock of the manager at most in between, and [run] is a sequence of
    steps of any connections.  The state of the cursors is that of [Cursor].

    What the operating system and other crates answer at a step (the displays, the spawning of
    a thread, the peer connection, the backend of authentication, the clock) is the record
    [World] of that step; what a client sends and what the user answers are events.  The readers of JSON are parameters.  Audio is
    left out, except for the flag that asks for it.  A float of a frame is its 32 bits. *)
From S2P Require Import Prelude Str Cursor.

#[local] Open Scope Z_scope.

(** ** Data *)

Inductive MouseButton : Type := ButtonLeft | ButtonRight | ButtonMiddle | ButtonBack | ButtonForward.

Inductive InputEvent : Type :=
| MouseMove (px py : Z)
| MouseButtonEvent (button : MouseButton) (pressed : bool) (px py : Z)
| KeyEvent (key_code : Z) (pressed : bool) (modifiers : Z)
| Scroll (px py delta_x delta_y : Z).

Inductive Quality : Type := Low | Medium | High | Lossless.

Record DisplayInfo := { d_id : Z; d_name : str; d_width : Z; d_height : Z; d_x : Z; d_y : Z; d_is_primary : bool; d_scale_factor : Z }.

Inductive SignalRequest : Type :=
| ReqAuth (token : str) (display_name : option str)
| ReqStart (display_id : option Z) (quality : Quality) (max_fps : Z) (audio : bool)
| ReqAnswer (sdp : str)
| ReqIceCandidate (candidate : str) (sdp_mid : option str) (sdp_mline_index : option Z)
| ReqListDisplays
| ReqHangup.

Inductive SignalResponse : Type :=
| AuthOk (cursor_id cursor_color : str)
| Offer (session_id sdp : str)
| RespIceCandidate (candidate : str) (sdp_mid : option str) (sdp_mline_index : option Z)
| PeerConnected (session_id : str)
| PeerClosed (reason : str)
| Displays (displays : list DisplayInfo)
| SignalError (code message : str).

Inductive ControlRequest : Type :=
| SetQuality (quality : Quality)
| SelectDisplay (display_id : Z)
| RequestKeyFrame
| SetCursorMode (mode : MultiCursorMode)
| SetClipboard (content : str)
| Ping (nonce : Z).

Inductive ControlResponse : Type :=
| ClipboardUpdate (content : str)
| Pong (nonce : Z)
| ControlError (code message : str).

Record Principal := { subject : str; p_display_name : option str; roles : list str }.

#[export] Instance principal_eq_dec : EqDecision Principal.
Proof. solve_decision. Defined.

Inductive Operation : Type := OpStartSession | OpStopSession | OpView | OpInjectInput | OpSetClipboard.

Inductive AuthError : Type := Unauthenticated (m : str) | Forbidden (m : str) | AuthInternal (m : str).

Definition display_auth_error (e : AuthError) : str :=
  match e with
  | Unauthenticated m => lit "authentication failed: " ++ m
  | Forbidden m => lit "authorization denied: " ++ m
  | AuthInternal m => lit "internal auth error: " ++ m
  end.

Inductive DesktopError : Type :=
| Capture (m : str)
| Encoding (m : str)
| Input (m : str)
| DisplayNotFound (n : Z)
| SessionNotFound (m : str)
| Unsupported (m : str)
| PermissionDenied (m : str)
| MaxSessions
| Internal (m : str)
| RequiresInteractiveSession.

Definition status_code (e : DesktopError) : Z :=
  match e with
  | Capture _ | Encoding _ | Input _ | Internal _ => 500
  | DisplayNotFound _ | SessionNotFound _ => 404
  | Unsupported _ => 501
  | PermissionDenied _ => 403
  | MaxSessions => 429
  | RequiresInteractiveSession => 409
  end.

Definition error_code (e : DesktopError) : str :=
  lit match e with
  | Capture _ => "capture_failed"
  | Encoding _ => "encoding_failed"
  | Input _ => "input_failed"
  | DisplayNotFound _ => "display_not_found"
  | SessionNotFound _ => "session_not_found"
  | Unsupported _ => "unsupported"
  | PermissionDenied _ => "permission_denied"
  | MaxSessions => "max_sessions"
  | Internal _ => "internal"
  | RequiresInteractiveSession => "requires_interactive_session"
  end.

Definition display_error (e : DesktopError) : str :=
  match e with
  | Capture m => lit "Screen capture failed: " ++ m
  | Encoding m => lit "Encoding failed: " ++ m
  | Input m => lit "Input injection failed: " ++ m
  | DisplayNotFound n => lit "Display not found: " ++ show_int n
  | SessionNotFound m => lit "Session not found: " ++ m
  | Unsupported m => lit "Platform not supported: " ++ m
  | PermissionDenied m => lit "Permission denied: " ++ m
  | MaxSessions => lit "Max sessions reached"
  | Internal m => lit "Internal error: " ++ m
  | RequiresInteractiveSession => lit "capture requires an interactive user session"
  end.

(** ** Bit rates *)

Definition target_kbps_for (q : Quality) (width height : Z) : Z :=
  let base := match q with Low => 1000 | Medium => 3500 | High => 8000 | Lossless => 20000 end in
  let pixels := wrap 64 (width * height) in
  let scaled := wrap 64 (base * pixels) / (1920 * 1080) in
  wrap 32 (Z.min (Z.max scaled 500) 60000).

(** ** Binary input frames *)

(** [bytes[a..b]], which panics out of range, and [bytes[i]]. *)
Definition slice (a b : nat) (bs : list byte) : option (list byte) := if (b <=? length bs)%nat then Some (firstn (b - a) (skipn a bs)) else None.

Definition i32_from_le (bs : list byte) : Z := to_i32 (from_be (rev bs)).
Definition u32_from_le (bs : list byte) : Z := from_be (rev bs).

Definition decode_button (code : byte) : result str MouseButton :=
  match b2z code with
  | 1 => Ok ButtonLeft
  | 2 => Ok ButtonRight
  | 3 => Ok ButtonMiddle
  | 4 => Ok ButtonBack
  | 5 => Ok ButtonForward
  | _ => Err (lit "unknown mouse button code")
  end.

(** [None] is a panic. *)
Definition decode (bs : list byte) : option (result str InputEvent) :=
  match bs with
  | [] => Some (Err (lit "empty input frame"))
  | op :: _ =>
    match b2z op with
    | 1 =>
      if (length bs <? 9)%nat then Some (Err (lit "mouse_move payload truncated"))
      else px ← slice 1 5 bs; py ← slice 5 9 bs; Some (Ok (MouseMove (i32_from_le px) (i32_from_le py)))
    | 2 =>
      if (length bs <? 11)%nat then Some (Err (lit "mouse_button payload truncated"))
      else
        b ← bs !! 1%nat;
        match decode_button b with
        | Err e => Some (Err e)
        | Ok button =>
          p ← bs !! 2%nat; px ← slice 3 7 bs; py ← slice 7 11 bs;
          Some (Ok (MouseButtonEvent button (negb (b2z p =? 0)) (i32_from_le px) (i32_from_le py)))
        end
    | 3 =>
      if (length bs <? 7)%nat then Some (Err (lit "key_event payload truncated"))
      else
        k ← slice 1 5 bs; p ← bs !! 5%nat; m ← bs !! 6%nat;
        Some (Ok (KeyEvent (u32_from_le k) (negb (b2z p =? 0)) (b2z m)))
    | 4 =>
      if (length bs <? 17)%nat then Some (Err (lit "scroll payload truncated"))
      else
        px ← slice 1 5 bs; py ← slice 5 9 bs; dx ← slice 9 13 bs; dy ← slice 13 17 bs;
        Some (Ok (Scroll (i32_from_le px) (i32_from_le py) (u32_from_le dx) (u32_from_le dy)))
    | _ => Some (Err (lit "unknown input opcode"))
    end
  end.

(** The layout of the table in the documentation of the frames. *)
Definition le4 (z : Z) : list byte := rev (to_be 4 (wrap 32 z)).
Definition button_code (b : MouseButton) : Z :=
  match b with ButtonLeft => 1 | ButtonRight => 2 | ButtonMiddle => 3 | ButtonBack => 4 | ButtonForward => 5 end.
Definition frame_of (e : InputEvent) : list byte :=
  match e with
  | MouseMove px py => z2b 1 :: le4 px ++ le4 py
  | MouseButtonEvent b p px py => z2b 2 :: z2b (button_code b) :: z2b (if p then 1 else 0) :: le4 px ++ le4 py
  | KeyEvent k p m => z2b 3 :: le4 k ++ [z2b (if p then 1 else 0); z2b m]
  | Scroll px py dx dy => z2b 4 :: le4 px ++ le4 py ++ le4 dx ++ le4 dy
  end.

Definition is_i32 (z : Z) : Prop := - 2 ^ 31 <= z < 2 ^ 31.
Definition event_ok (e : InputEvent) : Prop :=
  match e with
  | MouseMove px py | MouseButtonEvent _ _ px py => is_i32 px /\ is_i32 py
  | KeyEvent k _ m => is_u 32 k /\ is_u 8 m
  | Scroll px py dx dy => is_i32 px /\ is_i32 py /\ is_u 32 dx /\ is_u 32 dy
  end.

(** ** Sessions and pipelines *)

Inductive ClipboardDirection : Type := DirNone | HostToViewer | ViewerToHost | Bidirectional.
Definition allows_viewer_to_host (d : ClipboardDirection) : bool := match d with ViewerToHost | Bidirectional => true | _ => false end.
Record ClipboardSettings := { direction : ClipboardDirection; max_bytes : Z; poll_rate_ms : Z; write_rate_per_sec : Z }.
Definition default_clipboard : ClipboardSettings := {| direction := DirNone; max_bytes := 1024 * 1024; poll_rate_ms := 500; write_rate_per_sec := 10 |}.

Record DesktopConfig := {
  max_sessions : nat;
  default_quality : Quality;
  default_max_fps : Z;
  idle_timeout_secs : Z;
  allow_input : bool;
  allow_clipboard : bool;
  clipboard : ClipboardSettings;
  multi_cursor_mode : MultiCursorMode;
  enable_multi_cursor : bool;
  enable_audio : bool
}.

(** Built without the feature [audio]. *)
Definition default_config : DesktopConfig :=
  {| max_sessions := 5; default_quality := Medium; default_max_fps := 30; idle_timeout_secs := 3600; allow_input := true; allow_clipboard := true;
     clipboard := default_clipboard; multi_cursor_mode := Collaborative; enable_multi_cursor := true; enable_audio := false |}.

(** A pipeline; an [Arc] of one is its index among those that were spawned. *)
Record VideoPipeline := { p_display : DisplayInfo; p_quality : Quality; p_max_fps : Z; force_keyframe : bool }.

Record SessionState := { s_id : str; s_display_id : Z; s_quality : Quality; s_max_fps : Z }.

Record Manager := {
  config : DesktopConfig;
  sessions : gmap str SessionState;
  video_pipelines : gmap Z nat;
  spawned : list VideoPipeline;
  tracker : CursorTracker
}.

Definition new_manager (c : DesktopConfig) : Manager :=
  {| config := c; sessions := ∅; video_pipelines := ∅; spawned := []; tracker := new_tracker c.(multi_cursor_mode) |}.

Definition with_sessions (s : gmap str SessionState) (m : Manager) : Manager :=
  {| config := m.(config); sessions := s; video_pipelines := m.(video_pipelines); spawned := m.(spawned); tracker := m.(tracker) |}.
Definition with_pipelines (p : gmap Z nat) (m : Manager) : Manager :=
  {| config := m.(config); sessions := m.(sessions); video_pipelines := p; spawned := m.(spawned); tracker := m.(tracker) |}.
Definition with_spawned (l : list VideoPipeline) (m : Manager) : Manager :=
  {| config := m.(config); sessions := m.(sessions); video_pipelines := m.(video_pipelines); spawned := l; tracker := m.(tracker) |}.
Definition with_tracker (t : CursorTracker) (m : Manager) : Manager :=
  {| config := m.(config); sessions := m.(sessions); video_pipelines := m.(video_pipelines); spawned := m.(spawned); tracker := t |}.

(** What the code outside answers at a step. *)
Record World := {
  authenticate : str -> result AuthError Principal;
  authorize : Principal -> Operation -> result AuthError unit;
  first_key : gmap str CursorState -> option str;
  enumerate_displays : result DesktopError (list DisplayInfo);
  spawn_thread : result str unit;
  build_peer : result DesktopError unit;
  create_offer : result DesktopError str;
  set_remote_answer : str -> result DesktopError unit;
  ws_open : bool;
  create_injector : bool;
  now_ms : Z
}.

Definition spawn_video_pipeline (w : World) (display : DisplayInfo) (quality : Quality) (max_fps : Z) (m : Manager) : result DesktopError (nat * Manager) :=
  match w.(spawn_thread) with
  | Err e => Err (Internal (lit "spawn video thread: " ++ e))
  | Ok _ =>
    let p := {| p_display := display; p_quality := quality; p_max_fps := max_fps; force_keyframe := true |} in
    Ok (length m.(spawned), with_spawned (m.(spawned) ++ [p]) m)
  end.

Definition set_keyframe (p : VideoPipeline) : VideoPipeline :=
  {| p_display := p.(p_display); p_quality := p.(p_quality); p_max_fps := p.(p_max_fps); force_keyframe := true |}.
Definition request_keyframe (p : nat) (m : Manager) : Manager := with_spawned (alter set_keyframe p m.(spawned)) m.

Definition find_display (w : World) (id : Z) : result DesktopError DisplayInfo :=
  ds ← w.(enumerate_displays);
  ok_or (DisplayNotFound id) (head (filter (fun d => d.(d_id) = id) ds)).

(** The pipeline of a display, spawned when there is none. *)
Definition join_pipeline (w : World) (display : DisplayInfo) (display_id : Z) (quality : Quality) (max_fps : Z) (m : Manager) : result DesktopError (nat * Manager) :=
  match m.(video_pipelines) !! display_id with
  | Some p => Ok (p, m)
  | None => '(p, m) ← spawn_video_pipeline w display quality max_fps m; Ok (p, with_pipelines (<[display_id := p]> m.(video_pipelines)) m)
  end.

(** [start_session] takes three locks in turn: it reads the number of sessions, joins the
    pipeline and enters the session. *)
Definition check_capacity (m : Manager) : result DesktopError unit :=
  if (m.(config).(max_sessions) <=? size m.(sessions))%nat then Err MaxSessions else Ok tt.

Definition open_pipeline (w : World) (display_id : option Z) (quality : option Quality) (max_fps : option Z) (m : Manager) : result DesktopError (DisplayInfo * nat * Manager) :=
  let display_id := default 0 display_id in
  let quality := default m.(config).(default_quality) quality in
  let max_fps := default m.(config).(default_max_fps) max_fps in
  display ← find_display w display_id;
  '(p, m) ← join_pipeline w display display_id quality max_fps m;
  Ok (display, p, request_keyframe p m).

Definition enter_session (session_id : str) (display_id : option Z) (quality : option Quality) (max_fps : option Z) (m : Manager) : Manager :=
  with_sessions (<[session_id := {| s_id := session_id; s_display_id := default 0 display_id; s_quality := default m.(config).(default_quality) quality;
                                    s_max_fps := default m.(config).(default_max_fps) max_fps |}]> m.(sessions)) m.

(** [stop_session] also takes three: it removes the session, looks whether another session is on
    its display, and if not drops the pipeline of the display unless a viewer is subscribed. *)
Definition remove_session (session_id : str) (m : Manager) : result DesktopError (SessionState * Manager) :=
  match m.(sessions) !! session_id with
  | None => Err (SessionNotFound session_id)
  | Some removed => Ok (removed, with_sessions (delete session_id m.(sessions)) m)
  end.

Definition still_needed (display_id : Z) (m : Manager) : bool := existsb (fun kv => kv.2.(s_display_id) =? display_id) (map_to_list m.(sessions)).

Definition drop_pipeline (subscribers : nat -> nat) (display_id : Z) (m : Manager) : Manager :=
  match m.(video_pipelines) !! display_id with
  | Some p => if (subscribers p =? 0)%nat then with_pipelines (delete display_id m.(video_pipelines)) m else m
  | None => m
  end.

Definition rebuild_video_pipeline (w : World) (display_id : Z) (quality : Quality) (max_fps : option Z) (m : Manager) : result DesktopError (nat * Manager) :=
  display ← find_display w display_id;
  let max_fps := default m.(config).(default_max_fps) max_fps in
  '(p, m) ← spawn_video_pipeline w display quality max_fps m;
  Ok (p, with_pipelines (<[display_id := p]> m.(video_pipelines)) m).

Definition switch_display (w : World) (display_id : Z) (quality : option Quality) (max_fps : option Z) (m : Manager) : result DesktopError (nat * Manager) :=
  display ← find_display w display_id;
  join_pipeline w display display_id (default m.(config).(default_quality) quality) (default m.(config).(default_max_fps) max_fps) m.

(** ** The capture loop *)

(** What [try_recv] on the cancel channel meets: nothing yet, a message, or no sender any more. *)
Inductive cancel_state : Type := CancelEmpty | CancelSent | CancelClosed.
Definition try_recv_is_ok (c : cancel_state) : bool := match c with CancelSent => true | _ => false end.

Record VideoLoop := { next_deadline : Z; keyframe_flag : bool }.

(** One pass: what was captured and encoded ([None]: nothing, or an error), how many viewers
    there are, and the clock.  The result says whether the encoder was asked for a keyframe,
    the sample that was sent and how long the thread sleeps. *)
Record Pass := {
  cancel : cancel_state;
  receiver_count : nat;
  captured : option CapturedFrame;
  tracker_read : option (list (str * CursorState));
  encoder : CapturedFrame -> option (list byte);
  clock : Z
}.

Inductive pass_result : Type :=
| PassExit
| PassNext (forced : bool) (sent : option (list byte)) (sleep_ms : Z) (s : VideoLoop)
| PassPanic.

Definition frame_interval (max_fps : Z) : Z := 1000 / Z.max max_fps 1.

Definition video_pass (max_fps : Z) (p : Pass) (s : VideoLoop) : pass_result :=
  if try_recv_is_ok p.(cancel) then PassExit
  else if (p.(receiver_count) =? 0)%nat then PassNext false None 100 s
  else
    let forced := s.(keyframe_flag) in
    match p.(captured) with
    | None => PassNext forced None 10 {| next_deadline := s.(next_deadline); keyframe_flag := false |}
    | Some frame =>
      match (match p.(tracker_read) with Some l => composite_cursors l frame | None => Some frame end) with
      | None => PassPanic
      | Some frame =>
        let deadline := s.(next_deadline) + frame_interval max_fps in
        let late := deadline <=? p.(clock) in
        PassNext forced (p.(encoder) frame) (if late then 0 else deadline - p.(clock))
          {| next_deadline := if late then p.(clock) else deadline; keyframe_flag := false |}
      end
    end.

(** ** Connections *)

Record Conn := {
  principal : Principal;
  cursor : str;
  session : str;
  current_pipeline : nat;
  input_consent : bool;
  injector : bool;
  audio_on : bool;
  connected : bool;
  video_forwarder : option nat;
  clip_writes : list Z
}.

Definition with_connected (p : nat) (c : Conn) : Conn :=
  {| principal := c.(principal); cursor := c.(cursor); session := c.(session); current_pipeline := c.(current_pipeline); input_consent := c.(input_consent);
     injector := c.(injector); audio_on := c.(audio_on); connected := true; video_forwarder := Some p; clip_writes := c.(clip_writes) |}.
Definition with_pipeline (p : nat) (f : option nat) (c : Conn) : Conn :=
  {| principal := c.(principal); cursor := c.(cursor); session := c.(session); current_pipeline := p; input_consent := c.(input_consent);
     injector := c.(injector); audio_on := c.(audio_on); connected := c.(connected); video_forwarder := f; clip_writes := c.(clip_writes) |}.
Definition with_clip_writes (l : list Z) (c : Conn) : Conn :=
  {| principal := c.(principal); cursor := c.(cursor); session := c.(session); current_pipeline := c.(current_pipeline); input_consent := c.(input_consent);
     injector := c.(injector); audio_on := c.(audio_on); connected := c.(connected); video_forwarder := c.(video_forwarder); clip_writes := l |}.

(** What a step does outside the state of the server. *)
Inductive effect : Type :=
| SendSignal (r : SignalResponse)
| SendControl (r : ControlResponse)
| Inject (e : InputEvent)
| WriteClipboard (s : str)
| AddRemoteIce (candidate : str) (sdp_mid : option str) (sdp_mline_index : option Z)
| AskConsent (session_id : str) (p : Principal)
| ClosePeer.

Definition err_frame (code message : str) : effect := SendSignal (SignalError code message).
Definition error_frame (e : DesktopError) : effect := err_frame (error_code e) (display_error e).
Definition control_error (code message : str) : effect := SendControl (ControlError code message).

Inductive PeerEvent : Type :=
| EvIceCandidate (candidate : str) (sdp_mid : option str) (sdp_mline_index : option Z)
| EvConnected
| EvClosed (reason : str)
| EvControlJson (json : str)
| EvInputBinary (bytes : list byte).

(** What wakes the loop of a connection.  The two last ones are of its forwarder: a sample that
    could not be written, and samples it missed. *)
Inductive loop_event : Type :=
| ConnectDeadline
| WsText (text : str)
| WsClosed
| WsOther
| PeerEventsClosed
| FromPeer (ev : PeerEvent)
| ForwarderFailed
| ForwarderLagged.

Definition register_cursor (cursor_id : str) (p : Principal) (m : Manager) : str * Manager :=
  if m.(config).(enable_multi_cursor) then
    let '(color, t) := add_cursor cursor_id (default (lit "Remote") p.(p_display_name)) false m.(tracker) in (color, with_tracker t m)
  else (lit "#E74C3C", m).

Definition cleanup_cursor (w : World) (cursor_id : str) (m : Manager) : Manager :=
  if m.(config).(enable_multi_cursor) then with_tracker (remove_cursor w.(first_key) cursor_id m.(tracker)) m else m.

Section Connections.
Context (read_signal : str -> result str SignalRequest) (read_control : str -> result str ControlRequest).

(** [frame] is the text that came within the deadline. *)
Definition auth_step (w : World) (frame : option str) : list effect * option Principal :=
  match frame with
  | None => ([err_frame (lit "unauthenticated") (lit "auth frame required within 5s")], None)
  | Some text =>
    match read_signal text with
    | Err e => ([err_frame (lit "parse_error") e], None)
    | Ok (ReqAuth token display_name) =>
      match w.(authenticate) token with
      | Ok p => ([], Some (match p.(p_display_name) with
                           | None => {| subject := p.(subject); p_display_name := display_name; roles := p.(roles) |}
                           | Some _ => p
                           end))
      | Err e => ([err_frame (lit "unauthenticated") (display_auth_error e)], None)
      end
    | Ok _ => ([err_frame (lit "unauthenticated") (lit "first frame must be Auth")], None)
    end
  end.

(** Steps 1 and 2 of [handle_desktop_ws], up to the answer [AuthOk]. *)
Definition accept (w : World) (frame : option str) (cursor_id : str) (m : Manager) : list effect * option (Principal * str) * Manager :=
  let '(out, p) := auth_step w frame in
  match p with
  | None => (out, None, m)
  | Some p => let '(color, m) := register_cursor cursor_id p m in (out, Some (p, color), m)
  end.

(** [start_step] up to the look at the number of sessions. *)
Definition start_request (w : World) (p : Principal) (frame : option str) (m : Manager) : list effect * option (option Z * Quality * Z * bool) :=
  match frame with
  | None => ([err_frame (lit "protocol_error") (lit "expected Start within 30s")], None)
  | Some text =>
    match read_signal text with
    | Err e => ([err_frame (lit "parse_error") e], None)
    | Ok (ReqStart display_id quality max_fps audio) =>
      match w.(authorize) p OpStartSession with
      | Err e => ([err_frame (lit "forbidden") (display_auth_error e)], None)
      | Ok _ =>
        match check_capacity m with
        | Err e => ([error_frame e], None)
        | Ok _ => ([], Some (display_id, quality, max_fps, audio))
        end
      end
    | Ok _ => ([err_frame (lit "protocol_error") (lit "expected Start")], None)
    end
  end.

(** Steps 4 and 5: what the user answered, and the state of the loop. *)
Definition begin_loop (w : World) (p : Principal) (cursor_id session_id : str) (pipeline : nat) (audio consent : bool) (m : Manager) : Conn :=
  {| principal := p; cursor := cursor_id; session := session_id; current_pipeline := pipeline; input_consent := consent;
     injector := consent && m.(config).(allow_input) && w.(create_injector); audio_on := audio; connected := false; video_forwarder := None; clip_writes := [] |}.

Definition swap_pipeline (p : nat) (c : Conn) (m : Manager) : Conn * Manager := (with_pipeline p (Some p) c, request_keyframe p m).

Fixpoint pop_old (now window : Z) (l : list Z) : list Z :=
  match l with
  | t :: l' => if window <? now - t then pop_old now window l' else l
  | [] => []
  end.

Definition set_clipboard (w : World) (content : str) (c : Conn) (m : Manager) : list effect * Conn :=
  let clip := m.(config).(clipboard) in
  if negb m.(config).(allow_clipboard) || negb (allows_viewer_to_host clip.(direction)) then
    ([control_error (lit "clipboard_disabled") (lit "viewer-to-host clipboard not allowed")], c)
  else if clip.(max_bytes) <? byte_len content then
    ([control_error (lit "clipboard_too_large") (lit "exceeds " ++ show_int clip.(max_bytes) ++ lit " bytes")], c)
  else
    let l := pop_old w.(now_ms) 1000 c.(clip_writes) in
    if clip.(write_rate_per_sec) <=? wrap 32 (Z.of_nat (length l)) then
      ([control_error (lit "clipboard_rate_limited") (lit "too many writes")], with_clip_writes l c)
    else
      let c := with_clip_writes (l ++ [w.(now_ms)]) c in
      match w.(authorize) c.(principal) OpSetClipboard with
      | Err e => ([control_error (lit "forbidden") (display_auth_error e)], c)
      | Ok _ => ([WriteClipboard content; SendControl (ClipboardUpdate content)], c)
      end.

Definition display_of (p : nat) (m : Manager) : Z := match m.(spawned) !! p with Some v => v.(p_display).(d_id) | None => 0 end.

Definition handle_control_json (w : World) (json : str) (c : Conn) (m : Manager) : list effect * Conn * Manager :=
  match read_control json with
  | Err e => ([control_error (lit "parse_error") e], c, m)
  | Ok (Ping nonce) => ([SendControl (Pong nonce)], c, m)
  | Ok RequestKeyFrame => ([], c, request_keyframe c.(current_pipeline) m)
  | Ok (SetQuality quality) =>
    match rebuild_video_pipeline w (display_of c.(current_pipeline) m) quality None m with
    | Ok (p, m) => let '(c, m) := swap_pipeline p c m in ([], c, m)
    | Err _ => ([], c, m)
    end
  | Ok (SelectDisplay display_id) =>
    match switch_display w display_id None None m with
    | Ok (p, m) => let '(c, m) := swap_pipeline p c m in ([], c, m)
    | Err e => ([control_error (error_code e) (display_error e)], c, m)
    end
  | Ok (SetCursorMode md) => ([], c, if m.(config).(enable_multi_cursor) then with_tracker (with_mode md m.(tracker)) m else m)
  | Ok (SetClipboard content) => let '(out, c) := set_clipboard w content c m in (out, c, m)
  end.

(** The cursor follows the mouse, and a click takes the focus where the last one does. *)
Definition track (cursor_id : str) (e : InputEvent) (m : Manager) : Manager :=
  if m.(config).(enable_multi_cursor) then
    match e with
    | MouseMove px py => with_tracker (update_position cursor_id px py m.(tracker)) m
    | MouseButtonEvent _ true px py =>
      let t := update_position cursor_id px py m.(tracker) in
      with_tracker (if bool_decide (t.(mode) = Collaborative) then set_focus cursor_id t else t) m
    | _ => m
    end
  else m.

(** How a turn of the loop ends: the loop goes on, an input event is on its way to the injector,
    or the loop is left. *)
Inductive turn : Type :=
| Goes (c : Conn)
| Injects (c : Conn) (e : InputEvent)
| Breaks.

(** [handle_input_binary] up to the look at who holds control. *)
Definition handle_input_binary (w : World) (bs : list byte) (c : Conn) (m : Manager) : turn * Manager :=
  match decode bs with
  | Some (Ok e) =>
    let m := track c.(cursor) e m in
    if negb c.(input_consent) || negb m.(config).(allow_input) then (Goes c, m)
    else if negb (is_ok (w.(authorize) c.(principal) OpInjectInput)) then (Goes c, m)
    else (Injects c e, m)
  | _ => (Goes c, m)
  end.

(** The rest of it. *)
Definition inject (c : Conn) (e : InputEvent) (m : Manager) : list effect :=
  if m.(config).(enable_multi_cursor) && negb (should_inject_input c.(cursor) m.(tracker)) then []
  else if c.(injector) then [Inject e] else [].

(** One turn of the loop of step 6. *)
Definition handle_event (w : World) (ev : loop_event) (c : Conn) (m : Manager) : list effect * turn * Manager :=
  match ev with
  | ConnectDeadline => if c.(connected) then ([], Goes c, m) else ([SendSignal (PeerClosed (lit "connect_timeout"))], Breaks, m)
  | WsClosed | PeerEventsClosed => ([], Breaks, m)
  | WsOther => ([], Goes c, m)
  | WsText text =>
    match read_signal text with
    | Err e => ([err_frame (lit "parse_error") e], Goes c, m)
    | Ok (ReqAnswer sdp) => (match w.(set_remote_answer) sdp with Ok _ => [] | Err e => [error_frame e] end, Goes c, m)
    | Ok (ReqIceCandidate cand mid idx) => ([AddRemoteIce cand mid idx], Goes c, m)
    | Ok ReqListDisplays => (match w.(enumerate_displays) with Ok ds => [SendSignal (Displays ds)] | Err e => [error_frame e] end, Goes c, m)
    | Ok ReqHangup => ([ClosePeer], Breaks, m)
    | Ok (ReqAuth _ _) | Ok (ReqStart _ _ _ _) => ([err_frame (lit "protocol_error") (lit "already started")], Goes c, m)
    end
  | FromPeer (EvIceCandidate cand mid idx) => ([SendSignal (RespIceCandidate cand mid idx)], Goes c, m)
  | FromPeer EvConnected =>
    if c.(connected) then ([], Goes c, m)
    else ([SendSignal (PeerConnected c.(session))], Goes (with_connected c.(current_pipeline) c), request_keyframe c.(current_pipeline) m)
  | FromPeer (EvClosed reason) => ([SendSignal (PeerClosed reason)], Breaks, m)
  | FromPeer (EvControlJson json) => let '(out, c, m) := handle_control_json w json c m in (out, Goes c, m)
  | FromPeer (EvInputBinary bs) => let '(t, m) := handle_input_binary w bs c m in ([], t, m)
  | ForwarderFailed => ([], Goes (with_pipeline c.(current_pipeline) None c), m)
  | ForwarderLagged => ([], Goes c, match c.(video_forwarder) with Some _ => request_keyframe c.(current_pipeline) m | None => m end)
  end.

(** ** The server *)

(** Where a connection is: the cursor is entered and [AuthOk] is sent; the start message is
    awaited; the number of sessions was looked at; the pipeline is joined; the session is
    entered and the peer is built; its offer is made and sent; the user is asked; the loop; an
    input event before the look at who holds control; then, on every way out, the session is to
    be removed, the others on its display are to be looked at, its pipeline is to be dropped,
    and the cursor is to be removed. *)
Inductive Phase : Type :=
| Greeting (p : Principal) (cursor_id color : str)
| Waiting (p : Principal) (cursor_id : str)
| Opening (p : Principal) (cursor_id : str) (req : option Z * Quality * Z * bool)
| Entering (p : Principal) (cursor_id : str) (req : option Z * Quality * Z * bool) (pipeline : nat)
| Building (p : Principal) (cursor_id session_id : str) (pipeline : nat) (audio : bool)
| Offering (p : Principal) (cursor_id session_id : str) (pipeline : nat) (audio : bool)
| Asking (p : Principal) (cursor_id session_id : str) (pipeline : nat) (audio : bool)
| Running (c : Conn)
| Injecting (c : Conn) (e : InputEvent)
| Stopping (cursor_id session_id : str)
| Stopped (cursor_id : str) (display_id : Z)
| Dropping (cursor_id : str) (display_id : Z)
| Leaving (cursor_id : str).

(** Connections are numbered in the order they are made. *)
Record Server := { mgr : Manager; conns : gmap nat Phase; accepted : nat }.

(** A client connects and sends its first message, or sends its start message ([None]: neither
    came in time); a session gets its identifier; the user answers; something wakes the loop;
    or whatever else the connection waits for is there. *)
Inductive server_event : Type :=
| Connects (i : nat) (frame : option str) (cursor_id : str)
| Starts (i : nat) (frame : option str)
| Enters (i : nat) (session_id : str)
| Consents (i : nat) (session_id : str) (p : Principal) (answer : bool)
| Wakes (i : nat) (ev : loop_event)
| Proceeds (i : nat).

(** How many viewers a pipeline has. *)
Definition watches (p : nat) (ph : Phase) : bool :=
  match ph with Running c | Injecting c _ => bool_decide (c.(video_forwarder) = Some p) | _ => false end.
Definition viewers (cs : gmap nat Phase) (p : nat) : nat := length (filter (fun kv => watches p kv.2 = true) (map_to_list cs)).

Definition cursor_of (ph : Phase) : str :=
  match ph with
  | Greeting _ k _ | Waiting _ k | Opening _ k _ | Entering _ k _ _ | Building _ k _ _ _ | Offering _ k _ _ _ | Asking _ k _ _ _ => k
  | Running c | Injecting c _ => c.(cursor)
  | Stopping k _ | Stopped k _ | Dropping k _ | Leaving k => k
  end.

(** Identifiers are new when they are made. *)
Definition new_cursor (k : str) (s : Server) : bool :=
  bool_decide (s.(mgr).(tracker).(cursors) !! k = None) && forallb (fun kv => negb (bool_decide (cursor_of kv.2 = k))) (map_to_list s.(conns)).
Definition new_session (k : str) (s : Server) : bool := bool_decide (s.(mgr).(sessions) !! k = None).

Definition put (i : nat) (ph : option Phase) (cs : gmap nat Phase) : gmap nat Phase := match ph with Some ph => <[i := ph]> cs | None => delete i cs end.

(** The steps that wait for none of the events with a content of their own. *)
Definition proceed (w : World) (subscribers : nat -> nat) (ph : Phase) (m : Manager) : option (list effect * option Phase * Manager) :=
  match ph with
  | Greeting p k color => Some (if w.(ws_open) then ([SendSignal (AuthOk k color)], Some (Waiting p k), m) else ([], Some (Leaving k), m))
  | Opening p k req =>
    let '(display_id, quality, max_fps, _) := req in
    Some (match open_pipeline w display_id (Some quality) (Some max_fps) m with
          | Err e => ([error_frame e], Some (Leaving k), m)
          | Ok (_, pl, m) => ([], Some (Entering p k req pl), m)
          end)
  | Building p k sid pl audio =>
    Some (match w.(build_peer) with
          | Err e => ([error_frame e], Some (Stopping k sid), m)
          | Ok _ => ([], Some (Offering p k sid pl audio), m)
          end)
  | Offering p k sid pl audio =>
    Some (match w.(create_offer) with
          | Err e => ([error_frame e; ClosePeer], Some (Stopping k sid), m)
          | Ok sdp => if w.(ws_open) then ([SendSignal (Offer sid sdp); AskConsent sid p], Some (Asking p k sid pl audio), m)
                      else ([ClosePeer], Some (Stopping k sid), m)
          end)
  | Injecting c e => Some (inject c e m, Some (Running c), m)
  | Stopping k sid =>
    Some (match remove_session sid m with
          | Ok (removed, m) => ([], Some (Stopped k removed.(s_display_id)), m)
          | Err _ => ([], Some (Leaving k), m)
          end)
  | Stopped k d => Some ([], Some (if still_needed d m then Leaving k else Dropping k d), m)
  | Dropping k d => Some ([], Some (Leaving k), drop_pipeline subscribers d m)
  | Leaving k => Some ([], None, cleanup_cursor w k m)
  | Waiting _ _ | Entering _ _ _ _ | Asking _ _ _ _ _ | Running _ => None
  end.

(** One step of one connection; [None] where it cannot be taken. *)
Definition server_step (w : World) (e : server_event) (s : Server) : option (list effect * Server) :=
  let next i out ph m := Some (out, {| mgr := m; conns := put i ph s.(conns); accepted := s.(accepted) |}) in
  match e with
  | Connects i frame k =>
    if bool_decide (i = s.(accepted)) && new_cursor k s then
      let '(out, r, m) := accept w frame k s.(mgr) in
      Some (out, {| mgr := m; conns := put i ((fun pc => Greeting pc.1 k pc.2) <$> r) s.(conns); accepted := S s.(accepted) |})
    else None
  | Starts i frame =>
    match s.(conns) !! i with
    | Some (Waiting p k) =>
      let '(out, req) := start_request w p frame s.(mgr) in
      next i out (Some (match req with Some req => Opening p k req | None => Leaving k end)) s.(mgr)
    | _ => None
    end
  | Enters i sid =>
    match s.(conns) !! i with
    | Some (Entering p k (display_id, quality, max_fps, audio) pl) =>
      if new_session sid s then
        next i [] (Some (Building p k sid pl (audio && s.(mgr).(config).(enable_audio)))) (enter_session sid display_id (Some quality) (Some max_fps) s.(mgr))
      else None
    | _ => None
    end
  | Consents i sid p answer =>
    match s.(conns) !! i with
    | Some (Asking p' k sid' pl audio) =>
      if bool_decide (sid = sid' /\ p = p') then next i [] (Some (Running (begin_loop w p k sid pl audio answer s.(mgr)))) s.(mgr) else None
    | _ => None
    end
  | Wakes i ev =>
    match s.(conns) !! i with
    | Some (Running c) =>
      let '(out, t, m) := handle_event w ev c s.(mgr) in
      match t with
      | Goes c => next i out (Some (Running c)) m
      | Injects c e => next i out (Some (Injecting c e)) m
      | Breaks => next i (out ++ [ClosePeer]) (Some (Stopping c.(cursor) c.(session))) m
      end
    | _ => None
    end
  | Proceeds i =>
    match s.(conns) !! i with
    | Some ph => '(out, ph, m) ← proceed w (viewers s.(conns)) ph s.(mgr); next i out ph m
    | None => None
    end
  end.

Fixpoint run (trace : list (World * server_event)) (s : Server) : option (list effect * Server) :=
  match trace with
  | [] => Some ([], s)
  | (w, e) :: trace => '(out, s) ← server_step w e s; '(out', s) ← run trace s; Some (out ++ out', s)
  end.

Definition new_server (c : DesktopConfig) : Server := {| mgr := new_manager c; conns := ∅; accepted := 0 |}.
End Connections.

(** ** Input frames *)

Lemma length_le4 z : length (le4 z) = 4%nat.
Proof. unfold le4. by rewrite length_rev, length_to_be. Qed.

Lemma u32_from_le4 z : is_u 32 z -> u32_from_le (le4 z) = z.
Proof. intros H. unfold u32_from_le, le4. rewrite rev_involutive, wrap_small by done. apply from_be_to_be. unfold is_u in H. lia. Qed.

Lemma i32_from_le4 z : is_i32 z -> i32_from_le (le4 z) = z.
Proof.
  intros H. unfold is_i32 in H. unfold i32_from_le, le4. rewrite rev_involutive, from_be_to_be by (unfold wrap; pose proof (Z.mod_pos_bound z (2 ^ 32)); lia).
  unfold to_i32, wrap. rewrite Zplus_mod_idemp_l, Z.mod_small; lia.
Qed.

Lemma slice_in a b bs : (b <= length bs)%nat -> exists v, slice a b bs = Some v.
Proof. intros H. unfold slice. rewrite (proj2 (Nat.leb_le _ _) H). by eexists. Qed.

Lemma b2z_z2b_small z : 0 <= z < 256 -> b2z (z2b z) = z.
Proof. intros H. rewrite b2z_z2b. by apply Z.mod_small. Qed.

Lemma le4_shape z : exists a b c d, le4 z = [a; b; c; d].
Proof. pose proof (length_le4 z) as H. destruct (le4 z) as [|a [|b [|c [|d [|? ?]]]]]; try done. by eexists _, _, _, _. Qed.

(** A number of a frame as four bytes, and what reading them gives. *)
Ltac four z a b c d Hread :=
  let E := fresh "E" in
  destruct (le4_shape z) as (a & b & c & d & E); rewrite E;
  first [pose proof (i32_from_le4 z ltac:(assumption)) as Hread | pose proof (u32_from_le4 z ltac:(assumption)) as Hread];
  rewrite E in Hread; clear E.

Lemma input_frame_read e rest : event_ok e -> decode (frame_of e ++ rest) = Some (Ok e).
Proof.
  destruct e as [px py|b p px py|k p m|px py dx dy]; cbn [frame_of event_ok].
  - intros [Hx Hy]. four px a0 a1 a2 a3 Ex. four py b0 b1 b2 b3 Ey.
    cbn -[i32_from_le z2b b2z]. change (b2z (z2b 1)) with 1. cbn -[i32_from_le]. by rewrite ?take_0, Ex, Ey.
  - intros [Hx Hy]. four px a0 a1 a2 a3 Ex. four py b0 b1 b2 b3 Ey.
    cbn -[i32_from_le z2b b2z decode_button]. change (b2z (z2b 2)) with 2. cbn -[i32_from_le z2b b2z decode_button].
    replace (decode_button (z2b (button_code b))) with (@Ok str _ b) by (by destruct b). cbn -[i32_from_le z2b b2z]. rewrite ?take_0, Ex, Ey. by destruct p.
  - intros [Hk Hm]. four k a0 a1 a2 a3 Ek.
    cbn -[u32_from_le z2b b2z]. change (b2z (z2b 3)) with 3. cbn -[u32_from_le z2b b2z]. rewrite ?take_0, Ek, (b2z_z2b_small m) by (unfold is_u in Hm; lia). by destruct p.
  - intros (Hx & Hy & Hdx & Hdy). four px a0 a1 a2 a3 Ex. four py b0 b1 b2 b3 Ey.
    four dx c0 c1 c2 c3 Ec. four dy d0 d1 d2 d3 Ed.
    cbn -[i32_from_le u32_from_le z2b b2z]. change (b2z (z2b 4)) with 4. cbn -[i32_from_le u32_from_le]. by rewrite ?take_0, Ex, Ey, Ec, Ed.
Qed.

Lemma decode_answers bs : exists r, decode bs = Some r.
Proof.
  destruct bs as [|op l]; [by eexists|]. unfold decode. cbv beta iota. remember (op :: l) as bs eqn:E. clear E. repeat case_match; try (by eexists).
  all: repeat match goal with
    | H : (_ <? _)%nat = false |- _ => apply Nat.ltb_ge in H
    | |- context [slice ?a ?b ?x] => let v := fresh in destruct (slice_in a b x ltac:(lia)) as [v ->]; cbn [mbind option_bind]
    | |- context [?x !! ?i] => let v := fresh in destruct (lookup_lt_is_Some_2 x i ltac:(lia)) as [v ->]; cbn [mbind option_bind]
    | |- context [decode_button ?b] => destruct (decode_button b)
    end; by eexists.
Qed.

(** Reading an input frame never panics, whatever its bytes; a frame laid out as the protocol
    says, whatever follows it, is read as the event it stands for; and one that is cut short
    anywhere is refused. *)
Theorem input_frames_read e rest n : event_ok e -> (n < length (frame_of e))%nat ->
  (forall bs, exists r, decode bs = Some r) /\
  decode (frame_of e ++ rest) = Some (Ok e) /\
  exists why, decode (firstn n (frame_of e)) = Some (Err why).
Proof.
  intros He Hn. split_and!; [apply decode_answers|by apply input_frame_read|].
  destruct e as [px py|b p px py|k p m|px py dx dy]; cbn [frame_of] in Hn |- *; rewrite ?length_cons, ?length_app, ?length_le4 in Hn; cbn [length] in Hn.
  - destruct (le4_shape px) as (? & ? & ? & ? & ->), (le4_shape py) as (? & ? & ? & ? & ->). do 9 (destruct n as [|n]; [by eexists|]). lia.
  - destruct (le4_shape px) as (? & ? & ? & ? & ->), (le4_shape py) as (? & ? & ? & ? & ->). do 11 (destruct n as [|n]; [by eexists|]). lia.
  - destruct (le4_shape k) as (? & ? & ? & ? & ->). do 7 (destruct n as [|n]; [by eexists|]). lia.
  - destruct (le4_shape px) as (? & ? & ? & ? & ->), (le4_shape py) as (? & ? & ? & ? & ->), (le4_shape dx) as (? & ? & ? & ? & ->), (le4_shape dy) as (? & ? & ? & ? & ->).
    do 17 (destruct n as [|n]; [by eexists|]). lia.
Qed.

(** ** What the connections own *)

(** The keys of a table are those that [f] gives for the connections, one connection each. *)
Definition owned (f : Phase -> option str) (cs : gmap nat Phase) (D : gset str) : Prop :=
  (forall k, k ∈ D <-> exists i ph, cs !! i = Some ph /\ f ph = Some k) /\
  (forall i j a b k, cs !! i = Some a -> cs !! j = Some b -> f a = Some k -> f b = Some k -> i = j).

Lemma owned_add f cs D i ph k : owned f cs D -> f ph = Some k -> k ∉ D -> (forall old, cs !! i = Some old -> f old = None) ->
  owned f (<[i := ph]> cs) (D ∪ {[k]}).
Proof.
  intros [HD Hu] Hf Hk Hold. assert (Hno : forall j b, cs !! j = Some b -> f b = Some k -> False) by (intros j b E E'; apply Hk, HD; by exists j, b). split.
  - intros k'. rewrite elem_of_union, elem_of_singleton, HD. split.
    + intros [(j & b & E & E')| ->]; [|exists i, ph; by rewrite lookup_insert_eq]. exists j, b. rewrite lookup_insert_ne; [done|]. intros ->. by rewrite (Hold b E) in E'.
    + intros (j & b & E & E'). destruct (decide (i = j)) as [->|Hne]; [rewrite lookup_insert_eq in E; injection E as ->; right; congruence|].
      rewrite lookup_insert_ne in E by done. left. by exists j, b.
  - intros a b x y k' Ea Eb Fx Fy. destruct (decide (i = a)) as [<-|Ha], (decide (i = b)) as [<-|Hb]; [done| | |].
    + rewrite lookup_insert_eq in Ea. rewrite lookup_insert_ne in Eb by done. injection Ea as ->. assert (k' = k) as -> by congruence. by destruct (Hno b y).
    + rewrite lookup_insert_eq in Eb. rewrite lookup_insert_ne in Ea by done. injection Eb as ->. assert (k' = k) as -> by congruence. by destruct (Hno a x).
    + rewrite lookup_insert_ne in Ea, Eb by done. exact (Hu a b x y k' Ea Eb Fx Fy).
Qed.

Lemma owned_same f cs D i ph : owned f cs D -> f ph = (cs !! i ≫= f) -> owned f (<[i := ph]> cs) D.
Proof.
  intros [HD Hu] Hf. assert (Hl : forall j b k, <[i := ph]> cs !! j = Some b -> f b = Some k -> exists b', cs !! j = Some b' /\ f b' = Some k).
  { intros j b k E E'. destruct (decide (i = j)) as [<-|Hne]; [|rewrite lookup_insert_ne in E by done; by exists b].
    rewrite lookup_insert_eq in E. injection E as <-. rewrite Hf in E'. destruct (cs !! i) as [b'|]; [|done]. by exists b'. }
  split.
  - intros k. rewrite HD. split; intros (j & b & E & E').
    + destruct (decide (i = j)) as [<-|Hne]; [|exists j, b; by rewrite lookup_insert_ne]. exists i, ph. rewrite lookup_insert_eq, Hf, E. done.
    + exists j. by apply (Hl j b k).
  - intros a b x y k Ea Eb Fx Fy. destruct (Hl a x k Ea Fx) as (x' & Ex & Fx'), (Hl b y k Eb Fy) as (y' & Ey & Fy'). exact (Hu a b x' y' k Ex Ey Fx' Fy').
Qed.

Lemma owned_delete f cs D i ph k : owned f cs D -> cs !! i = Some ph -> f ph = Some k -> owned f (delete i cs) (D ∖ {[k]}).
Proof.
  intros [HD Hu] Ei Hf. split.
  - intros k'. rewrite elem_of_difference, elem_of_singleton, HD. split.
    + intros ((j & b & E & E') & Hne). exists j, b. rewrite lookup_delete_ne; [done|]. intros ->. congruence.
    + intros (j & b & [Hij E]%lookup_delete_Some & E'). split; [by exists j, b|]. intros ->. exact (Hij (Hu i j ph b k Ei E Hf E')).
  - intros a b x y k' [_ Ea]%lookup_delete_Some [_ Eb]%lookup_delete_Some. exact (Hu a b x y k' Ea Eb).
Qed.

Lemma owned_delete_none f cs D i ph : owned f cs D -> cs !! i = Some ph -> f ph = None -> owned f (delete i cs) D.
Proof.
  intros [HD Hu] Ei Hf. split.
  - intros k'. rewrite HD. split; intros (j & b & E & E').
    + exists j, b. rewrite lookup_delete_ne; [done|]. intros ->. congruence.
    + apply lookup_delete_Some in E as [_ E]. by exists j, b.
  - intros a b x y k' [_ Ea]%lookup_delete_Some [_ Eb]%lookup_delete_Some. exact (Hu a b x y k' Ea Eb).
Qed.

(** How the key of one connection changes with the keys of the table: it stays, is added to it,
    or is removed from it. *)
Definition changes (a b : option str) (D D' : gset str) : Prop :=
  (a = b /\ D' = D) \/ (exists k, a = None /\ b = Some k /\ (k ∉ D) /\ D' = D ∪ {[k]}) \/ (exists k, a = Some k /\ b = None /\ D' = D ∖ {[k]}).

Lemma owned_put f cs D D' i ph : owned f cs D -> changes (cs !! i ≫= f) (ph ≫= f) D D' -> owned f (put i ph cs) D'.
Proof.
  intros Ho [[E ->]|[(k & E1 & E2 & Hk & ->)|(k & E1 & E2 & ->)]].
  - destruct ph as [ph|]; cbn [put mbind option_bind] in *; [by apply owned_same|]. destruct (cs !! i) as [old|] eqn:Ei; [by apply (owned_delete_none _ _ _ _ old)|].
    by rewrite delete_id.
  - destruct ph as [ph|]; [|done]. cbn [put mbind option_bind] in *. apply owned_add; [done..|]. intros old Eo. by rewrite Eo in E1.
  - destruct (cs !! i) as [old|] eqn:Ei; [|done]. cbn [mbind option_bind] in E1. pose proof (owned_delete _ _ _ _ _ _ Ho Ei E1) as Hd.
    destruct ph as [ph|]; cbn [put mbind option_bind] in *; [|done]. rewrite <- insert_delete_eq. apply owned_same; [done|]. by rewrite lookup_delete_eq.
Qed.

Definition session_of (ph : Phase) : option str :=
  match ph with
  | Building _ _ sid _ _ | Offering _ _ sid _ _ | Asking _ _ sid _ _ | Stopping _ sid => Some sid
  | Running c | Injecting c _ => Some c.(session)
  | _ => None
  end.

(** The keys of the sessions and of the cursors of a manager. *)
Definition session_keys (m : Manager) : gset str := dom m.(sessions).
Definition cursor_keys (m : Manager) : gset str := dom m.(tracker).(cursors).

Definition owners (s : Server) : Prop :=
  owned session_of s.(conns) (session_keys s.(mgr)) /\
  (s.(mgr).(config).(enable_multi_cursor) = true -> owned (Some ∘ cursor_of) s.(conns) (cursor_keys s.(mgr))) /\
  (s.(mgr).(config).(enable_multi_cursor) = false -> cursor_keys s.(mgr) = ∅).

(** Cursors are those of viewers. *)
Definition remote_only (m : Manager) : Prop := map_Forall (fun _ c => c.(is_local) = false) m.(tracker).(cursors).

(** A step of one connection, from [ph] to [ph']. *)
Definition moves (ph ph' : option Phase) (m m' : Manager) : Prop :=
  m'.(config) = m.(config) /\ changes (ph ≫= session_of) (ph' ≫= session_of) (session_keys m) (session_keys m') /\
  (m.(config).(enable_multi_cursor) = true -> changes (ph ≫= Some ∘ cursor_of) (ph' ≫= Some ∘ cursor_of) (cursor_keys m) (cursor_keys m')) /\
  (m.(config).(enable_multi_cursor) = false -> cursor_keys m' = cursor_keys m) /\ (remote_only m -> remote_only m').

Lemma changes_same a b D D' : a = b -> D' = D -> changes a b D D'.
Proof. by left. Qed.

(** What an operation on the manager leaves alone. *)
Definition same_keys (m m' : Manager) : Prop := m'.(config) = m.(config) /\ session_keys m' = session_keys m /\ cursor_keys m' = cursor_keys m /\ (remote_only m -> remote_only m').

#[local] Instance same_keys_preorder : PreOrder same_keys.
Proof. split; [by intros m|]. intros a b c (E1 & E2 & E3 & E4) (F1 & F2 & F3 & F4). split_and!; [congruence..|auto]. Qed.

Lemma dom_set_focus k t : dom (set_focus k t).(cursors) = dom t.(cursors).
Proof.
  unfold set_focus. destruct ((focused false <$> cursors t) !! k) as [c|] eqn:E; cbn [with_active with_cursors cursors]; [|apply dom_fmap_L].
  rewrite dom_insert_L, dom_fmap_L. rewrite lookup_fmap in E. destruct (cursors t !! k) as [c'|] eqn:E'; [|done]. apply elem_of_dom_2 in E'. set_solver.
Qed.

Lemma dom_remove_cursor first k t : dom (remove_cursor first k t).(cursors) = dom t.(cursors) ∖ {[k]}.
Proof.
  unfold remove_cursor. case_bool_decide; cbn [with_active with_cursors cursors]; [|apply dom_delete_L].
  destruct (first _) as [a|]; [rewrite dom_alter_L|]; apply dom_delete_L.
Qed.

Lemma remote_position k px py t : map_Forall (fun _ c => c.(is_local) = false) t.(cursors) -> map_Forall (fun _ c => c.(is_local) = false) (update_position k px py t).(cursors).
Proof. unfold update_position. cbn [with_cursors cursors]. intros H j c [(_ & c' & E & ->)|[_ E]]%lookup_alter_Some; exact (H _ _ E). Qed.

Lemma remote_focus k t : map_Forall (fun _ c => c.(is_local) = false) t.(cursors) -> map_Forall (fun _ c => c.(is_local) = false) (set_focus k t).(cursors).
Proof.
  intros H. assert (Hf : map_Forall (fun _ c => c.(is_local) = false) (focused false <$> t.(cursors))) by (intros j c (c' & <- & E)%lookup_fmap_Some; exact (H _ _ E)).
  unfold set_focus. destruct ((focused false <$> cursors t) !! k) as [c|] eqn:E; cbn [with_active with_cursors cursors]; [|done].
  apply map_Forall_insert_2; [|done]. exact (Hf _ _ E).
Qed.

Lemma remote_remove first k t : map_Forall (fun _ c => c.(is_local) = false) t.(cursors) -> map_Forall (fun _ c => c.(is_local) = false) (remove_cursor first k t).(cursors).
Proof.
  intros H. assert (Hd : map_Forall (fun _ c => c.(is_local) = false) (delete k t.(cursors))) by (by apply map_Forall_delete).
  unfold remove_cursor. case_bool_decide; cbn [with_active with_cursors cursors]; [|done]. destruct (first _) as [a|]; [|done].
  intros j c [(_ & c' & E & ->)|[_ E]]%lookup_alter_Some; exact (Hd _ _ E).
Qed.

Lemma track_same k e m : same_keys m (track k e m).
Proof.
  unfold track. destruct (enable_multi_cursor (config m)); [|done]. destruct e as [px py|b [] px py| |]; try done.
  - split_and!; [done..|apply dom_alter_L|]. apply remote_position.
  - unfold same_keys, cursor_keys, remote_only. cbn [with_tracker tracker]. split_and!; [done..| |].
    + case_bool_decide; [rewrite dom_set_focus|]; apply dom_alter_L.
    + intros H. case_bool_decide; [apply remote_focus|]; by apply remote_position.
Qed.

Lemma keyframe_same p m : same_keys m (request_keyframe p m).
Proof. by split_and!. Qed.

Lemma join_same w d i q f m p m' : join_pipeline w d i q f m = Ok (p, m') -> same_keys m m'.
Proof.
  unfold join_pipeline, spawn_video_pipeline. destruct (video_pipelines m !! i); [by intros [= _ <-]|]. destruct (spawn_thread w); [|done]. by intros [= _ <-].
Qed.

Lemma switch_same w d q f m p m' : switch_display w d q f m = Ok (p, m') -> same_keys m m'.
Proof. unfold switch_display. intros (d' & _ & E)%bind_ok_inv. exact (join_same _ _ _ _ _ _ _ _ E). Qed.

Lemma rebuild_same w d q f m p m' : rebuild_video_pipeline w d q f m = Ok (p, m') -> same_keys m m'.
Proof.
  unfold rebuild_video_pipeline, spawn_video_pipeline. intros (d' & _ & E)%bind_ok_inv. destruct (spawn_thread w); [|done]. revert E. by intros [= _ <-].
Qed.

Lemma open_pipeline_same w d q f m disp p m' : open_pipeline w d q f m = Ok (disp, p, m') -> same_keys m m'.
Proof.
  unfold open_pipeline. intros (d' & _ & E)%bind_ok_inv. apply bind_ok_inv in E as ([p1 m1] & E1%join_same & [= _ <- <-]). etransitivity; [exact E1|]. by split_and!.
Qed.

Lemma drop_same subs d m : same_keys m (drop_pipeline subs d m).
Proof. unfold drop_pipeline. destruct (video_pipelines m !! d) as [p|]; [|done]. by destruct (_ =? _)%nat. Qed.

(** A step that keeps the keys and the identifiers of the connection. *)
Lemma moves_same a b m m' : same_keys m m' -> session_of a = session_of b -> cursor_of a = cursor_of b -> moves (Some a) (Some b) m m'.
Proof. intros (E1 & E2 & E3 & E4) Hs Hc. split_and!; [done|by apply changes_same|intros _; apply changes_same; [cbn; by f_equal|done]|done..]. Qed.

Lemma cleanup_keys w k m : (cleanup_cursor w k m).(config) = m.(config) /\ (cleanup_cursor w k m).(sessions) = m.(sessions) /\
  (m.(config).(enable_multi_cursor) = true -> cursor_keys (cleanup_cursor w k m) = cursor_keys m ∖ {[k]}) /\ (m.(config).(enable_multi_cursor) = false -> cleanup_cursor w k m = m) /\
  (remote_only m -> remote_only (cleanup_cursor w k m)).
Proof. unfold cleanup_cursor. destruct (enable_multi_cursor (config m)); split_and!; try done; [|apply remote_remove]. intros _. apply dom_remove_cursor. Qed.

Lemma register_keys k p m col m' : register_cursor k p m = (col, m') -> m'.(config) = m.(config) /\ m'.(sessions) = m.(sessions) /\
  (m.(config).(enable_multi_cursor) = true -> cursor_keys m' = cursor_keys m ∪ {[k]}) /\ (m.(config).(enable_multi_cursor) = false -> m' = m) /\ (remote_only m -> remote_only m').
Proof.
  unfold register_cursor. destruct (enable_multi_cursor (config m)); [|by intros [= _ <-]]. intros [= _ <-]. split_and!; [done..| |done|by apply map_Forall_insert_2]. intros _.
  unfold cursor_keys. cbn [with_tracker tracker cursors]. rewrite dom_insert_L. set_solver.
Qed.

(** What a turn of the loop keeps of its connection. *)
Definition stays (c c' : Conn) : Prop :=
  c'.(principal) = c.(principal) /\ c'.(cursor) = c.(cursor) /\ c'.(session) = c.(session) /\ c'.(input_consent) = c.(input_consent) /\ c'.(injector) = c.(injector).

Lemma set_clipboard_stays w s c m out c' : set_clipboard w s c m = (out, c') -> stays c c'.
Proof. unfold set_clipboard. intros H. repeat case_match; by injection H as <- <-. Qed.

Section Server.
Context (read_signal : str -> result str SignalRequest) (read_control : str -> result str ControlRequest).

Abbreviation server_step := (server_step read_signal read_control).
Abbreviation run := (run read_signal read_control).

Lemma control_keeps w json c m out c' m' : handle_control_json read_control w json c m = (out, c', m') -> stays c c' /\ same_keys m m'.
Proof.
  unfold handle_control_json. destruct (read_control json) as [[q|d| |md|s|n]|e].
  - destruct (rebuild_video_pipeline _ _ _ _ _) as [[p m1]|] eqn:E; [|by intros [= <- <- <-]]. apply rebuild_same in E. intros [= <- <- <-]. by split.
  - destruct (switch_display _ _ _ _ _) as [[p m1]|] eqn:E; [|by intros [= <- <- <-]]. apply switch_same in E. intros [= <- <- <-]. by split.
  - by intros [= <- <- <-].
  - intros [= <- <- <-]. split; [done|]. by destruct (enable_multi_cursor (config m)).
  - destruct (set_clipboard w s c m) as [o c1] eqn:E. intros [= <- <- <-]. split; [|done]. exact (set_clipboard_stays _ _ _ _ _ _ E).
  - by intros [= <- <- <-].
  - by intros [= <- <- <-].
Qed.

(** The connection that a turn of the loop goes on with. *)
Definition conn_of (t : turn) : option Conn := match t with Goes c | Injects c _ => Some c | Breaks => None end.

Lemma input_keeps w bs c m t m' : handle_input_binary w bs c m = (t, m') -> same_keys m m' /\ conn_of t = Some c.
Proof. unfold handle_input_binary. intros H. destruct (decode bs) as [[e|e]|]; [|by injection H as <- <-..]. repeat case_match; injection H as <- <-; split; try done; apply track_same. Qed.

Lemma event_keeps w ev c m out t m' : handle_event read_signal read_control w ev c m = (out, t, m') -> same_keys m m' /\ forall c', conn_of t = Some c' -> stays c c'.
Proof.
  assert (Hc : forall c', Some c = Some c' -> stays c c') by (by intros c' [= <-]).
  unfold handle_event. intros H. destruct ev as [|text| | | |[cand mid idx| |reason|json|bs]| |].
  - destruct (connected c); injection H as <- <- <-; by split.
  - repeat case_match; injection H as <- <- <-; by split.
  - injection H as <- <- <-; by split.
  - injection H as <- <- <-; by split.
  - injection H as <- <- <-; by split.
  - injection H as <- <- <-; by split.
  - destruct (connected c); injection H as <- <- <-; split; try done. by intros c' [= <-].
  - injection H as <- <- <-; by split.
  - destruct (handle_control_json _ _ _ _ _) as [[o c1] m1] eqn:E. apply control_keeps in E as [Hs Hk]. injection H as <- <- <-. split; [done|]. by intros c' [= <-].
  - destruct (handle_input_binary _ _ _ _) as [o m1] eqn:E. apply input_keeps in E as [Hk E]. injection H as <- <- <-. split; [done|]. intros c'. rewrite E. apply Hc.
  - injection H as <- <- <-; split; [done|]. by intros c' [= <-].
  - injection H as <- <- <-; split; [|done]. by destruct (video_forwarder c).
Qed.

Lemma remove_session_moves k sid m removed m' : remove_session sid m = Ok (removed, m') -> moves (Some (Stopping k sid)) (Some (Stopped k removed.(s_display_id))) m m'.
Proof.
  unfold remove_session. destruct (sessions m !! sid) as [r|] eqn:E; [|done]. intros [= -> <-]. split_and!; [done| |intros _; by apply changes_same|done..].
  right; right. exists sid. split_and!; [done..|]. apply dom_delete_L.
Qed.

Lemma enter_session_moves p k sid d q f a pl au m : sid ∉ session_keys m ->
  moves (Some (Entering p k (d, q, f, a) pl)) (Some (Building p k sid pl au)) m (enter_session sid d (Some q) (Some f) m).
Proof.
  intros Hn. split_and!; [done| |intros _; by apply changes_same|done..]. right; left. exists sid. split_and!; [done..|].
  unfold session_keys. cbn [enter_session with_sessions sessions]. rewrite dom_insert_L. set_solver.
Qed.

Lemma leaving_moves w k m : moves (Some (Leaving k)) None m (cleanup_cursor w k m).
Proof.
  destruct (cleanup_keys w k m) as (E1 & E2 & E3 & E4 & E5). split_and!; [done|apply changes_same; [done|]; unfold session_keys; by rewrite E2| |intros H; by rewrite E4|done].
  intros Hm. right; right. exists k. split_and!; [done..|auto].
Qed.

Lemma proceed_moves w subs ph m out ph' m' : proceed w subs ph m = Some (out, ph', m') -> (forall k sid, ph = Stopping k sid -> sid ∈ session_keys m) -> moves (Some ph) ph' m m'.
Proof.
  intros H Hin. destruct ph as [p k col|p k|p k [[[d q] f] a]|p k req pl|p k sid pl au|p k sid pl au|p k sid pl au|c|c e|k sid|k d|k d|k]; cbn [proceed] in H; try done.
  - destruct (ws_open w); injection H as <- <- <-; by apply moves_same.
  - destruct (open_pipeline _ _ _ _ _) as [[[disp pl] m1]|e] eqn:E; injection H as <- <- <-; [apply open_pipeline_same in E|]; by apply moves_same.
  - destruct (build_peer w); injection H as <- <- <-; by apply moves_same.
  - destruct (create_offer w); [destruct (ws_open w)|]; injection H as <- <- <-; by apply moves_same.
  - injection H as <- <- <-. by apply moves_same.
  - destruct (remove_session sid m) as [[removed m1]|e] eqn:E; injection H as <- <- <-; [by apply remove_session_moves|]. exfalso.
    specialize (Hin k sid eq_refl). unfold session_keys in Hin. apply elem_of_dom in Hin as [r Er]. unfold remove_session in E. by rewrite Er in E.
  - destruct (still_needed d m); injection H as <- <- <-; by apply moves_same.
  - injection H as <- <- <-. apply moves_same; [apply drop_same|done..].
  - injection H as <- <- <-. apply leaving_moves.
Qed.

Lemma accept_moves w frame k m out r m' : accept read_signal w frame k m = (out, r, m') -> k ∉ cursor_keys m -> moves None ((fun pc => Greeting pc.1 k pc.2) <$> r) m m'.
Proof.
  intros H Hk. unfold accept in H. destruct (auth_step _ _ _) as [o [p|]]; [|injection H as <- <- <-; split_and!; [done|by apply changes_same|intros _; by apply changes_same|done..]].
  destruct (register_cursor k p m) as [col m1] eqn:E. apply register_keys in E as (E1 & E2 & E3 & E4 & E5). injection H as <- <- <-.
  split_and!; [done|apply changes_same; [done|unfold session_keys; by rewrite E2]| |intros Hm; by rewrite E4|done]. intros Hm. right; left. exists k. split_and!; [done..|auto].
Qed.

(** The number of the connection that an event is about. *)
Definition about (e : server_event) : nat :=
  match e with Connects i _ _ | Starts i _ | Enters i _ | Consents i _ _ _ | Wakes i _ | Proceeds i => i end.

(** A step moves one connection. *)
Lemma step_moves w e s out s' : server_step w e s = Some (out, s') -> owners s -> (forall i ph, s.(conns) !! i = Some ph -> (i < s.(accepted))%nat) ->
  exists ph, s'.(conns) = put (about e) ph s.(conns) /\ moves (s.(conns) !! about e) ph s.(mgr) s'.(mgr).
Proof.
  intros H (Hs & _) Hlt. destruct e as [i frame k|i frame|i sid|i sid p b|i ev|i]; cbn [Desktop.server_step about] in H |- *.
  - case_bool_decide as Ei; [|done]. cbn [andb] in H. destruct (new_cursor k s) eqn:En; [|done]. apply andb_true_iff in En as [Ek%bool_decide_eq_true _]. apply not_elem_of_dom in Ek.
    destruct (accept _ _ _ _ _) as [[o r] m] eqn:E. injection H as <- <-. eexists. split; [done|]. destruct (conns s !! i) as [ph|] eqn:Eph; [apply Hlt in Eph; lia|].
    by eapply accept_moves.
  - destruct (conns s !! i) as [[]|] eqn:Ei; try done. destruct (start_request _ _ _ _ _) as [o r]. injection H as <- <-. eexists (Some _). split; [done|]. destruct r; by apply moves_same.
  - destruct (conns s !! i) as [[| | |p k [[[d q] f] a] pl| | | | | | | | | ]|] eqn:Ei; try done. destruct (new_session sid s) eqn:En; [|done]. injection H as <- <-. eexists (Some _). split; [done|].
    apply enter_session_moves. apply bool_decide_eq_true in En. by apply not_elem_of_dom.
  - destruct (conns s !! i) as [[| | | | | |p' k sid' pl au| | | | | | ]|] eqn:Ei; try done. case_bool_decide as E; [|done]. destruct E as [-> ->]. injection H as <- <-.
    eexists (Some _). split; [done|]. by apply moves_same.
  - destruct (conns s !! i) as [[| | | | | | |c| | | | | ]|] eqn:Ei; try done. destruct (handle_event _ _ _ _ _ _) as [[o t] m] eqn:E. apply event_keeps in E as [Hk Hst].
    destruct t as [c1|c1 e1|]; injection H as <- <-; eexists (Some _); (split; [done|]); apply moves_same; try done;
      destruct (Hst c1 eq_refl) as (_ & Ec & Es & _); cbn; by rewrite ?Es, ?Ec.
  - destruct (conns s !! i) as [ph|] eqn:Ei; [|done]. destruct (proceed _ _ _ _) as [[[o ph'] m]|] eqn:E; [|done]. injection H as <- <-. eexists. split; [done|].
    apply (proceed_moves _ _ _ _ _ _ _ E). intros k sid ->. apply (proj1 Hs). by exists i, (Stopping k sid).
Qed.

Lemma lookup_put i ph cs j x : put i ph cs !! j = Some x -> (i = j /\ ph = Some x) \/ (i <> j /\ cs !! j = Some x).
Proof.
  destruct ph as [ph|]; cbn [put]; [|intros [Hne E]%lookup_delete_Some; by right]. destruct (decide (i = j)) as [->|Hne]; [rewrite lookup_insert_eq; intros [= ->]; by left|].
  rewrite lookup_insert_ne by done. by right.
Qed.

Lemma step_accepted w e s out s' : server_step w e s = Some (out, s') ->
  s'.(accepted) = (match e with Connects _ _ _ => S s.(accepted) | _ => s.(accepted) end) /\ match e with Connects i _ _ => i = s.(accepted) | _ => is_Some (s.(conns) !! about e) end.
Proof.
  destruct e as [i frame k|i frame|i sid|i sid p b|i ev|i]; cbn [Desktop.server_step about]; intros H.
  - case_bool_decide as Ei; [|done]. cbn [andb] in H. destruct (new_cursor k s); [|done]. destruct (accept _ _ _ _ _) as [[o r] m]. by injection H as <- <-.
  - destruct (conns s !! i) as [[]|]; try done. destruct (start_request _ _ _ _ _) as [o r]. by injection H as <- <-.
  - destruct (conns s !! i) as [[| | |p k [[[d q] f] a] pl| | | | | | | | | ]|]; try done. destruct (new_session sid s); [|done]. by injection H as <- <-.
  - destruct (conns s !! i) as [[| | | | | |p' k sid' pl au| | | | | | ]|]; try done. case_bool_decide; [|done]. by injection H as <- <-.
  - destruct (conns s !! i) as [[| | | | | | |c| | | | | ]|]; try done. destruct (handle_event _ _ _ _ _ _) as [[o [| |]] m]; by injection H as <- <-.
  - destruct (conns s !! i) as [ph|]; [|done]. destruct (proceed _ _ _ _) as [[[o ph'] m]|]; [|done]. by injection H as <- <-.
Qed.

(** What holds of every state that is reached. *)
Definition orderly (c : DesktopConfig) (s : Server) : Prop :=
  s.(mgr).(config) = c /\ owners s /\ remote_only s.(mgr) /\ forall i ph, s.(conns) !! i = Some ph -> (i < s.(accepted))%nat.

Lemma step_orderly c w e s out s' : server_step w e s = Some (out, s') -> orderly c s -> orderly c s'.
Proof.
  intros H (Hcfg & Ho & Hr & Hlt). destruct (step_moves _ _ _ _ _ H Ho Hlt) as (ph & Ec & E1 & E2 & E3 & E4 & E5). destruct Ho as (Hs & Hc & Hn). destruct (step_accepted _ _ _ _ _ H) as [Ea Hi].
  split_and!; [congruence| |auto|].
  - unfold owners. rewrite Ec, E1. split_and!; [by eapply owned_put|intros Hm; eapply owned_put; by eauto|intros Hm; rewrite E4; auto].
  - intros j x Ej. rewrite Ec in Ej. rewrite Ea. assert (Hle : (s.(accepted) <= match e with Connects _ _ _ => S s.(accepted) | _ => s.(accepted) end)%nat) by (destruct e; lia).
    apply lookup_put in Ej as [[<- _]|[_ Ej]]; [|apply Hlt in Ej; lia].
    destruct e; cbn [about] in *; [lia|..]; destruct Hi as [y Hi]; apply Hlt in Hi; lia.
Qed.

Lemma run_app t1 t2 s out s' : run (t1 ++ t2) s = Some (out, s') <-> exists o1 s1 o2, run t1 s = Some (o1, s1) /\ run t2 s1 = Some (o2, s') /\ out = o1 ++ o2.
Proof.
  revert s out. induction t1 as [|[w e] t1 IH]; intros s out; cbn [app Desktop.run].
  - split; [intros H; by exists [], s, out|]. by intros (o1 & s1 & o2 & [= <- <-] & H & ->).
  - destruct (server_step w e s) as [[o sx]|]; cbn [mbind option_bind]; [|split; [done|by intros (? & ? & ? & ? & _)]]. split.
    + intros H. destruct (run (t1 ++ t2) sx) as [[oy sy]|] eqn:E; [|done]. cbn [mbind option_bind] in H. injection H as <- <-.
      apply IH in E as (o1 & s1 & o2 & E1 & E2 & ->). exists (o ++ o1), s1, o2. rewrite E1. cbn [mbind option_bind]. split_and!; [done..|]. apply app_assoc.
    + intros (o1 & s1 & o2 & H1 & H2 & ->). destruct (run t1 sx) as [[oy sy]|] eqn:E; [|done]. cbn [mbind option_bind] in H1. injection H1 as <- <-.
      assert (run (t1 ++ t2) sx = Some (oy ++ o2, s')) as -> by (apply IH; by exists oy, sy, o2). cbn [mbind option_bind]. by rewrite app_assoc.
Qed.

(** An invariant that may mention what happened before. *)
Lemma run_ind (P : list (World * server_event) -> Server -> Prop) c : P [] (new_server c) ->
  (forall t s w e out s', P t s -> server_step w e s = Some (out, s') -> P (t ++ [(w, e)]) s') ->
  forall t out s, run t (new_server c) = Some (out, s) -> P t s.
Proof.
  intros H0 Hstep t. induction t as [|[w e] t IH] using rev_ind; intros out s H; [by injection H as <- <-|].
  apply run_app in H as (o1 & s1 & o2 & H1 & H2 & ->). cbn [Desktop.run] in H2.
  destruct (server_step w e s1) as [[o s2]|] eqn:E; [|done]. injection H2 as <- <-. exact (Hstep t s1 w e o s2 (IH _ _ H1) E).
Qed.

Lemma new_orderly c : orderly c (new_server c).
Proof.
  assert (H : forall f, owned f ∅ ∅) by (intros f; split; [intros k; split; [set_solver|by intros (i & ph & E & _)]|by intros i j a b k E]).
  split_and!; [done| |by intros i ph|by intros i ph]. split_and!; [|intros _..]; unfold session_keys, cursor_keys; cbn [new_server mgr new_manager sessions tracker new_tracker cursors];
    rewrite dom_empty_L; [apply H..|done].
Qed.

Lemma run_orderly c t out s : run t (new_server c) = Some (out, s) -> orderly c s.
Proof. revert t out s. apply (run_ind (fun _ => orderly c)); [apply new_orderly|]. intros t s w e out s' Ho E. exact (step_orderly c w e s out s' E Ho). Qed.

(** C28: However connections come, start, switch displays, fail and end, in whatever order their
    steps interleave: a session is in the table exactly from the moment one connection entered
    it to the moment that connection removes it on its way out, and belongs to no other; with
    several cursors enabled there is one cursor for each connection, which goes last, and
    otherwise there is none; and once no connection is left the tables of sessions and of
    cursors are empty.  (The table of pipelines is not part of this.) *)
Theorem sessions_and_cursors_owned c trace out s : run trace (new_server c) = Some (out, s) ->
  (forall k, is_Some (s.(mgr).(sessions) !! k) <-> exists i ph, s.(conns) !! i = Some ph /\ session_of ph = Some k) /\
  (forall i j a b k, s.(conns) !! i = Some a -> s.(conns) !! j = Some b -> session_of a = Some k -> session_of b = Some k -> i = j) /\
  (forall k, c.(enable_multi_cursor) = true -> is_Some (s.(mgr).(tracker).(cursors) !! k) <-> exists i ph, s.(conns) !! i = Some ph /\ cursor_of ph = k) /\
  (c.(enable_multi_cursor) = true -> forall i j a b, s.(conns) !! i = Some a -> s.(conns) !! j = Some b -> cursor_of a = cursor_of b -> i = j) /\
  (c.(enable_multi_cursor) = false -> s.(mgr).(tracker).(cursors) = ∅) /\
  (s.(conns) = ∅ -> s.(mgr).(sessions) = ∅ /\ s.(mgr).(tracker).(cursors) = ∅).
Proof.
  intros H. apply run_orderly in H as (Hcfg & ([Hs Hu] & Hc & Hn) & _). rewrite Hcfg in Hc, Hn.
  assert (H1 : forall k, is_Some (s.(mgr).(sessions) !! k) <-> exists i ph, s.(conns) !! i = Some ph /\ session_of ph = Some k) by (intros k; rewrite <- elem_of_dom; apply Hs).
  assert (H2 : forall k, c.(enable_multi_cursor) = true -> is_Some (s.(mgr).(tracker).(cursors) !! k) <-> exists i ph, s.(conns) !! i = Some ph /\ cursor_of ph = k).
  { intros k Hm. rewrite <- elem_of_dom. rewrite (proj1 (Hc Hm) k). split; intros (i & ph & E & E'); exists i, ph; split; [done| |done|]; cbn in *; congruence. }
  assert (H3 : c.(enable_multi_cursor) = false -> s.(mgr).(tracker).(cursors) = ∅) by (intros Hm; apply dom_empty_inv_L; auto).
  split_and!; try done.
  - intros Hm i j a b Ea Eb E. apply (proj2 (Hc Hm) i j a b (cursor_of a) Ea Eb); cbn; congruence.
  - intros He. rewrite He in H1, H2. split.
    + apply map_empty. intros k. apply eq_None_not_Some. rewrite H1. by intros (i & conn & E & _).
    + destruct (enable_multi_cursor c) eqn:Em; [|auto]. apply map_empty. intros k. apply eq_None_not_Some. rewrite H2 by done. by intros (i & conn & E & _).
Qed.

(** ** Who injects input *)

(** A step of the past, with what came before it. *)
Definition happened (t : list (World * server_event)) (Q : list (World * server_event) -> World -> server_event -> Prop) : Prop :=
  exists t1 w e t2, t = t1 ++ (w, e) :: t2 /\ Q t1 w e.

(** The token of the first message of connection [i] was accepted for [p], and the connection
    got the cursor [k]. *)
Definition authenticated (t : list (World * server_event)) (i : nat) (k : str) (p : Principal) : Prop :=
  happened t (fun _ w e => exists text token name p0, e = Connects i (Some text) k /\ read_signal text = Ok (ReqAuth token name) /\
    w.(authenticate) token = Ok p0 /\ p.(subject) = p0.(subject) /\ p.(roles) = p0.(roles)).
(** After that, it asked to start and [p] was allowed to. *)
Definition may_start (t : list (World * server_event)) (i : nat) (k : str) (p : Principal) : Prop :=
  happened t (fun t w e => exists text d q f a, e = Starts i (Some text) /\ read_signal text = Ok (ReqStart d q f a) /\
    w.(authorize) p OpStartSession = Ok tt /\ authenticated t i k p).
(** After that, the user agreed to input from [p] in its session [sid]. *)
Definition consented (t : list (World * server_event)) (i : nat) (k sid : str) (p : Principal) : Prop :=
  happened t (fun t _ e => e = Consents i sid p true /\ may_start t i k p).
(** After that, its peer sent a frame that stands for [ev] when [p] was allowed to inject input,
    and since then the connection took no step. *)
Definition requested (t : list (World * server_event)) (i : nat) (k sid : str) (p : Principal) (ev : InputEvent) : Prop :=
  exists t1 w bs t2, t = t1 ++ (w, Wakes i (FromPeer (EvInputBinary bs))) :: t2 /\ decode bs = Some (Ok ev) /\
    w.(authorize) p OpInjectInput = Ok tt /\ consented t1 i k sid p /\ Forall (fun x => about x.2 <> i) t2.

Definition admitted_as (t : list (World * server_event)) (i : nat) (ph : Phase) : Prop :=
  match ph with
  | Greeting p k _ | Waiting p k => authenticated t i k p
  | Opening p k _ | Entering p k _ _ | Building p k _ _ _ | Offering p k _ _ _ | Asking p k _ _ _ => may_start t i k p
  | Running c => c.(input_consent) = true -> consented t i c.(cursor) c.(session) c.(principal)
  | Injecting c e => c.(input_consent) = true /\ requested t i c.(cursor) c.(session) c.(principal) e
  | _ => True
  end.

Lemma happened_more t x Q : happened t Q -> happened (t ++ [x]) Q.
Proof. intros (t1 & w & e & t2 & -> & H). exists t1, w, e, (t2 ++ [x]). split; [|done]. by rewrite <- app_assoc. Qed.

Lemma happened_last t w e (Q : list (World * server_event) -> World -> server_event -> Prop) : Q t w e -> happened (t ++ [(w, e)]) Q.
Proof. intros H. by exists t, w, e, []. Qed.

Lemma requested_consented t i k sid p e : requested t i k sid p e -> consented t i k sid p.
Proof.
  intros (t1 & w & bs & t2 & -> & _ & _ & (t0 & w0 & e0 & t3 & -> & H) & _). exists t0, w0, e0, (t3 ++ (w, Wakes i (FromPeer (EvInputBinary bs))) :: t2).
  split; [by rewrite <- app_assoc|done].
Qed.

(** Steps of other connections change nothing. *)
Lemma admitted_more t w e i ph : about e <> i -> admitted_as t i ph -> admitted_as (t ++ [(w, e)]) i ph.
Proof.
  intros Hne. destruct ph; cbn [admitted_as]; try done; try exact (happened_more _ _ _).
  - intros H Hc. apply happened_more. exact (H Hc).
  - intros [Hc (t1 & w1 & bs & t2 & -> & H1 & H2 & H3 & H4)]. split; [done|]. exists t1, w1, bs, (t2 ++ [(w, e)]). split_and!; [by rewrite <- app_assoc|done..|].
    apply Forall_app. split; [done|]. by constructor.
Qed.

Lemma auth_step_ok w frame out p : auth_step read_signal w frame = (out, Some p) ->
  exists text token name p0, frame = Some text /\ read_signal text = Ok (ReqAuth token name) /\ w.(authenticate) token = Ok p0 /\ p.(subject) = p0.(subject) /\ p.(roles) = p0.(roles).
Proof.
  unfold auth_step. destruct frame as [text|]; [|done]. destruct (read_signal text) as [[token name| | | | |]|] eqn:E; try done.
  destruct (authenticate w token) as [p0|] eqn:Ep; [|done]. intros [= _ <-]. exists text, token, name, p0. split_and!; [done..| |]; by destruct (p_display_name p0).
Qed.

Lemma start_request_ok w p frame m out req : start_request read_signal w p frame m = (out, Some req) ->
  exists text d q f a, frame = Some text /\ read_signal text = Ok (ReqStart d q f a) /\ w.(authorize) p OpStartSession = Ok tt.
Proof.
  unfold start_request. destruct frame as [text|]; [|done]. destruct (read_signal text) as [[|d q f a| | | |]|] eqn:Er; try done.
  destruct (authorize w p OpStartSession) as [[]|] eqn:E; [|done]. destruct (check_capacity m); [|done]. intros _. by exists text, d, q, f, a.
Qed.

(** What a turn of the loop passes on to the injector. *)
Lemma event_injects w ev c m out c' e m' : handle_event read_signal read_control w ev c m = (out, Injects c' e, m') ->
  c' = c /\ exists bs, ev = FromPeer (EvInputBinary bs) /\ decode bs = Some (Ok e) /\ c.(input_consent) = true /\ m.(config).(allow_input) = true /\
    w.(authorize) c.(principal) OpInjectInput = Ok tt.
Proof.
  intros H. destruct ev as [|text| | | |[cand mid idx| |reason|json|bs]| |]; cbn [handle_event] in H.
  10: { destruct (handle_input_binary _ _ _ _) as [t m1] eqn:E. injection H as _ -> ->. unfold handle_input_binary in E. destruct (decode bs) as [[e'|?]|] eqn:Ed; [|by injection E..].
        destruct (track_same (cursor c) e' m) as (Hcf & _). rewrite Hcf in E.
        destruct (negb (input_consent c) || negb (allow_input (config m))) eqn:E1; [by injection E|].
        destruct (authorize w (principal c) OpInjectInput) as [[]|] eqn:E2; cbn [is_ok negb] in E; [|by injection E]. injection E as <- <- _.
        apply orb_false_iff in E1 as [E1%negb_false_iff E1'%negb_false_iff]. split; [done|]. by exists bs. }
  all: repeat case_match; simplify_eq.
Qed.

(** What the steps of a connection make of its past. *)
Lemma step_admitted w e s out s' t ph : server_step w e s = Some (out, s') ->
  (forall ph, s.(conns) !! about e = Some ph -> admitted_as t (about e) ph) -> s'.(conns) !! about e = Some ph -> admitted_as (t ++ [(w, e)]) (about e) ph.
Proof.
  intros E Ht. destruct e as [i frame k|i frame|i sid|i sid p b|i ev|i]; cbn [Desktop.server_step about] in *.
  - destruct (bool_decide _ && _); [|done]. unfold accept in E. destruct (auth_step _ _ _) as [o [p|]] eqn:Ea.
    + destruct (register_cursor k p (mgr s)) as [col m]. injection E as <- <-. cbn. rewrite lookup_insert_eq. intros [= <-]. apply happened_last.
      apply auth_step_ok in Ea as (text & tk & n & p0 & -> & H). by exists text, tk, n, p0.
    + injection E as <- <-. cbn. by rewrite lookup_delete_eq.
  - destruct (conns s !! i) as [[|p k| | | | | | | | | | | ]|] eqn:Ei; try done. destruct (start_request _ _ _ _ _) as [o r] eqn:Es. injection E as <- <-. cbn. rewrite lookup_insert_eq.
    intros [= <-]. destruct r as [req|]; [|done]. apply start_request_ok in Es as (text & d & q & f & a & -> & H1 & H2). apply happened_last. exists text, d, q, f, a.
    split_and!; [done..|]. exact (Ht _ eq_refl).
  - destruct (conns s !! i) as [[| | |p k [[[d q] f] a] pl| | | | | | | | | ]|] eqn:Ei; try done. destruct (new_session sid s); [|done]. injection E as <- <-. cbn. rewrite lookup_insert_eq.
    intros [= <-]. apply happened_more. exact (Ht _ eq_refl).
  - destruct (conns s !! i) as [[| | | | | |p' k sid' pl au| | | | | | ]|] eqn:Ei; try done. case_bool_decide as E'; [|done]. destruct E' as [-> ->]. injection E as <- <-. cbn.
    rewrite lookup_insert_eq. intros [= <-]. cbn. intros ->. apply happened_last. split; [done|]. exact (Ht _ eq_refl).
  - destruct (conns s !! i) as [[| | | | | | |c| | | | | ]|] eqn:Ei; try done. specialize (Ht _ eq_refl). cbn in Ht. destruct (handle_event _ _ _ _ _ _) as [[o tu] m] eqn:Eh.
    destruct tu as [c1|c1 e1|]; injection E as <- <-; cbn; rewrite lookup_insert_eq; intros [= <-]; [| |done].
    + destruct (event_keeps _ _ _ _ _ _ _ Eh) as [_ Hst]. destruct (Hst c1 eq_refl) as (P1 & P2 & P3 & P4 & _). cbn. rewrite P1, P2, P3, P4. intros Hc. apply happened_more. exact (Ht Hc).
    + destruct (event_injects _ _ _ _ _ _ _ _ Eh) as (-> & bs & -> & H1 & H2 & _ & H3). split; [done|]. exists t, w, bs, []. by split_and!; auto.
  - destruct (conns s !! i) as [old|] eqn:Ei; [|done]. destruct (proceed _ _ _ _) as [[[o ph'] m]|] eqn:Ep; [|done]. cbn [mbind option_bind] in E. injection E as <- <-. cbn [conns].
    intros Eph. assert (ph' = Some ph) as -> by (apply lookup_put in Eph as [[_ ?]|[? _]]; done). specialize (Ht _ eq_refl). destruct old as [p k col|p k|p k [[[d q] f] a]| | | | | | | | | | ];
      cbn [proceed] in Ep; repeat case_match; simplify_eq; cbn [admitted_as] in *; try done; try (by apply happened_more).
    intros _. apply happened_more. exact (requested_consented _ _ _ _ _ _ (proj2 Ht)).
Qed.

(** Every connection got where it is by those steps. *)
Lemma run_admitted c t out s : run t (new_server c) = Some (out, s) -> forall i ph, s.(conns) !! i = Some ph -> admitted_as t i ph.
Proof.
  intros Hrun. cut (orderly c s /\ forall i ph, s.(conns) !! i = Some ph -> admitted_as t i ph); [by intros [_ H]|]. revert t out s Hrun.
  apply run_ind; [split; [apply new_orderly|by intros i ph]|]. intros t s w e out s' [Ho Ht] E. split; [exact (step_orderly c w e s out s' E Ho)|]. intros i ph Ei.
  destruct (decide (about e = i)) as [<-|Hne]; [exact (step_admitted _ _ _ _ _ _ _ E (Ht _) Ei)|]. apply admitted_more; [done|]. apply Ht.
  destruct Ho as (_ & Ho & _ & Hlt). destruct (step_moves _ _ _ _ _ E Ho Hlt) as (ph' & Ec & _). rewrite Ec in Ei. by apply lookup_put in Ei as [[? _]|[_ ?]].
Qed.

(** The server allowed input when the event was passed on. *)
Lemma run_allowed c t out s i conn e : run t (new_server c) = Some (out, s) -> s.(conns) !! i = Some (Injecting conn e) -> c.(allow_input) = true.
Proof.
  intros Hrun Ei. cut (orderly c s /\ forall i conn e, s.(conns) !! i = Some (Injecting conn e) -> c.(allow_input) = true); [intros [_ H]; exact (H _ _ _ Ei)|]. clear i conn e Ei. revert t out s Hrun.
  apply run_ind; [split; [apply new_orderly|by intros i conn e]|]. intros t s w ev out s' [Ho Ht] E. split; [exact (step_orderly c w ev s out s' E Ho)|]. intros i conn e Ei.
  destruct Ho as (Hcfg & _). destruct ev as [j frame k|j frame|j sid|j sid p b|j ev|j]; cbn [Desktop.server_step] in E.
  - destruct (bool_decide _ && _); [|done]. destruct (accept _ _ _ _ _) as [[o r] m]. injection E as <- <-. cbn in Ei. destruct r; apply lookup_put in Ei as [[_ ?]|[_ ?]]; by eauto.
  - destruct (conns s !! j) as [[]|]; try done. destruct (start_request _ _ _ _ _) as [o r]. injection E as <- <-. apply (lookup_put _ (Some _)) in Ei as [[_ [= E]]|[_ ?]]; [by destruct r|eauto].
  - destruct (conns s !! j) as [[| | |p k [[[d q] f] a] pl| | | | | | | | | ]|]; try done. destruct (new_session sid s); [|done]. injection E as <- <-. apply (lookup_put _ (Some _)) in Ei as [[_ ?]|[_ ?]]; by eauto.
  - destruct (conns s !! j) as [[| | | | | |p' k sid' pl au| | | | | | ]|]; try done. case_bool_decide; [|done]. injection E as <- <-. apply (lookup_put _ (Some _)) in Ei as [[_ ?]|[_ ?]]; by eauto.
  - destruct (conns s !! j) as [[| | | | | | |c0| | | | | ]|]; try done. destruct (handle_event _ _ _ _ _ _) as [[o [c1|c1 e1|]] m] eqn:Eh; injection E as <- <-;
      apply (lookup_put _ (Some _)) in Ei as [[_ ?]|[_ ?]]; try done; try by eauto.
    destruct (event_injects _ _ _ _ _ _ _ _ Eh) as (_ & bs & _ & _ & _ & Hal & _). congruence.
  - destruct (conns s !! j) as [old|] eqn:Ej; [|done]. destruct (proceed _ _ _ _) as [[[o ph'] m]|] eqn:Ep; [|done]. cbn [mbind option_bind] in E. injection E as <- <-. cbn [conns] in Ei.
    apply lookup_put in Ei as [[_ ->]|[_ ?]]; [|by eauto]. destruct old as [| |p k [[[d q] f] a]| | | | | | | | | | ]; cbn [proceed] in Ep; repeat case_match; simplify_eq.
Qed.

(** No effect of the list is the one that [H] says is in it. *)
Ltac not_in H := cbn [app] in H; repeat (apply elem_of_cons in H as [H|H]; [done|]); by apply elem_of_nil in H.

Lemma no_inject_event w ev c m out t m' e : handle_event read_signal read_control w ev c m = (out, t, m') -> Inject e ∉ out.
Proof.
  assert (Hno : forall c s o c', set_clipboard w s c m = (o, c') -> Inject e ∉ o).
  { intros c0 s o c1 H Hin. unfold set_clipboard in H. repeat case_match; injection H as <- <-; not_in Hin. }
  intros H Hin. destruct ev as [|text| | | |[cand mid idx| |reason|json|bs]| |]; cbn [handle_event] in H.
  9: { unfold handle_control_json in H. repeat case_match; simplify_eq; try not_in Hin. by eapply Hno in Hin. }
  all: repeat case_match; simplify_eq; not_in Hin.
Qed.

(** Only the last step of an input event injects anything. *)
Lemma inject_step w ev s out s' e : server_step w ev s = Some (out, s') -> Inject e ∈ out ->
  exists i conn, ev = Proceeds i /\ s.(conns) !! i = Some (Injecting conn e) /\
    (s.(mgr).(config).(enable_multi_cursor) = true -> should_inject_input conn.(cursor) s.(mgr).(tracker) = true).
Proof.
  intros E Hin. destruct ev as [i frame k|i frame|i sid|i sid p b|i ev|i]; cbn [Desktop.server_step] in E.
  - exfalso. destruct (bool_decide _ && _); [|done]. unfold accept, auth_step in E. repeat case_match; simplify_eq; not_in Hin.
  - exfalso. destruct (conns s !! i) as [[]|]; try done. unfold start_request in E. repeat case_match; simplify_eq; not_in Hin.
  - exfalso. repeat case_match; simplify_eq; not_in Hin.
  - exfalso. repeat case_match; simplify_eq; not_in Hin.
  - exfalso. destruct (conns s !! i) as [[| | | | | | |c0| | | | | ]|]; try done. destruct (handle_event _ _ _ _ _ _) as [[o tu] m] eqn:Eh. apply (no_inject_event _ _ _ _ _ _ _ e) in Eh.
    destruct tu; simplify_eq; try done. apply elem_of_app in Hin as [Hin|Hin]; [done|]. not_in Hin.
  - destruct (conns s !! i) as [old|] eqn:Ei; [|done]. destruct (proceed _ _ _ _) as [[[o ph'] m]|] eqn:Ep; [|done]. cbn [mbind option_bind] in E. injection E as <- <-.
    destruct old as [| |p k [[[d q] f] a]| | | | | |c e0| | | | ]; cbn [proceed] in Ep; try (exfalso; repeat case_match; simplify_eq; not_in Hin).
    injection Ep as <- <- <-. exists i, c. unfold inject in Hin. destruct (enable_multi_cursor (config (mgr s)) && _) eqn:Em; [not_in Hin|]. destruct (injector c); [|not_in Hin].
    apply list_elem_of_singleton in Hin as [= ->]. split_and!; [done..|]. intros Hm. rewrite Hm in Em. by apply negb_false_iff.
Qed.

(** C10: Input reaches the host only as the next step of a connection after a binary frame of its
    peer that decodes to it.  On that same connection, in this order, a token was accepted, its
    principal was allowed to start a session, the user agreed to input from it in that session,
    and the principal was allowed to inject input when the frame came; the server allows input;
    and where several cursors are enabled, at the step the mode is not the one in which the local
    user alone has control, and in the modes in which one cursor is active, the cursor of the
    connection is the active one. *)
Theorem input_guarded c t out s w ev out' s' e : run t (new_server c) = Some (out, s) -> server_step w ev s = Some (out', s') -> Inject e ∈ out' ->
  c.(allow_input) = true /\
  exists i k sid p, ev = Proceeds i /\ requested t i k sid p e /\
    (c.(enable_multi_cursor) = true ->
     match s.(mgr).(tracker).(mode) with
     | Collaborative | RequestControl => s.(mgr).(tracker).(active_cursor) = Some k
     | TechControl => True
     | UserControl => False
     end).
Proof.
  intros Hrun E Hin. destruct (inject_step _ _ _ _ _ _ E Hin) as (i & conn & -> & Ei & Hctl). split; [exact (run_allowed _ _ _ _ _ _ _ Hrun Ei)|].
  destruct (run_admitted _ _ _ _ Hrun _ _ Ei) as [_ Hreq]. apply run_orderly in Hrun as (Hcfg & _ & Hr & _). rewrite Hcfg in Hctl.
  exists i, conn.(cursor), conn.(session), conn.(principal). split_and!; [done..|]. intros Hm. specialize (Hctl Hm). unfold should_inject_input in Hctl.
  destruct (mode (tracker (mgr s))); try done; try (by apply bool_decide_eq_true in Hctl). destruct (cursors _ !! _) as [cur|] eqn:Ec; [|done]. apply Hr in Ec. congruence.
Qed.
End Server.

(** ** The clipboard *)

Definition written (w : World) (out : list effect) : list (Z * str) :=
  filter_map (fun e => match e with WriteClipboard s => Some (w.(now_ms), s) | _ => None end) out.

(** The writes to the clipboard of the host that a sequence of requests makes, with their times. *)
Fixpoint clipboard_log (reqs : list (World * str)) (c : Conn) (m : Manager) : list (Z * str) :=
  match reqs with
  | [] => []
  | (w, s) :: reqs =>
    let '(out, c) := set_clipboard w s c m in
    written w out ++ clipboard_log reqs c m
  end.

Definition within (t : Z) (l : list Z) : nat := length (filter (fun z => t <= z <= t + 1000) l).

Lemma within_app t a b : within t (a ++ b) = (within t a + within t b)%nat.
Proof. unfold within. by rewrite filter_app, length_app. Qed.

Lemma within_length t l : (within t l <= length l)%nat.
Proof. apply length_filter. Qed.

Lemma pop_old_split now l : exists old, l = old ++ pop_old now 1000 l /\ Forall (fun a => a < now - 1000) old.
Proof.
  induction l as [|a l IH]; [by exists []|]. cbn [pop_old]. destruct (1000 <? now - a) eqn:E; [|by exists []]. destruct IH as (old & E' & H).
  exists (a :: old). split; [cbn [app]; by f_equal|]. constructor; [lia|done].
Qed.

(** Adding later writes: the old ones share no window with them. *)
Lemma within_pop now t l later n : Forall (fun z => now <= z) later -> (within t l <= n)%nat -> (within t (pop_old now 1000 l ++ later) <= n)%nat -> (within t (l ++ later) <= n)%nat.
Proof.
  intros Hl Hw Hp. destruct (pop_old_split now l) as (old & E & Ho). destruct (decide (within t later = 0%nat)) as [H0|H0]; [rewrite within_app; lia|].
  rewrite E, <- app_assoc, within_app. replace (within t old) with 0%nat; [exact Hp|]. symmetry. unfold within in *. apply length_zero_iff_nil, filter_nil_iff. intros a Ha Hin.
  destruct (filter (fun z => t <= z <= t + 1000) later) as [|b bs] eqn:Ef; [done|].
  assert (Hb : b ∈ filter (fun z => t <= z <= t + 1000) later) by (rewrite Ef; apply list_elem_of_here). apply list_elem_of_filter in Hb as [Hb Hin'].
  rewrite Forall_forall in Ho, Hl. specialize (Ho a Ha). specialize (Hl b Hin'). cbn beta in *. lia.
Qed.

Definition ascending (l : list Z) : Prop := StronglySorted Z.le l.
Definition times (reqs : list (World * str)) : list Z := map (fun r => r.1.(now_ms)) reqs.

Lemma log_late reqs c m now : Forall (fun z => now <= z) (times reqs) -> Forall (fun z => now <= z) (map fst (clipboard_log reqs c m)).
Proof.
  revert c. induction reqs as [|[w s] reqs IH]; intros c H; [constructor|]. inversion_clear H as [|? ? Hn Hr]. cbn [clipboard_log]. destruct (set_clipboard w s c m) as [out c'].
  rewrite map_app, Forall_app. split; [|by apply IH]. clear IH. induction out as [|e out IH]; [constructor|]. destruct e; cbn [written filter_map map]; try exact IH. by constructor.
Qed.

(** A request that is answered at once, one too many, and one that counts. *)
Lemma set_clipboard_cases w s c m :
  let l := pop_old w.(now_ms) 1000 c.(clip_writes) in
  exists out,
    (set_clipboard w s c m = (out, c) /\ written w out = []) \/
    (set_clipboard w s c m = (out, with_clip_writes l c) /\ written w out = []) \/
    set_clipboard w s c m = (out, with_clip_writes (l ++ [w.(now_ms)]) c) /\ wrap 32 (Z.of_nat (length l)) < m.(config).(clipboard).(write_rate_per_sec) /\
    (written w out = [] \/ written w out = [(w.(now_ms), s)] /\
     m.(config).(allow_clipboard) = true /\ allows_viewer_to_host m.(config).(clipboard).(direction) = true /\ byte_len s <= m.(config).(clipboard).(max_bytes) /\
     w.(authorize) c.(principal) OpSetClipboard = Ok tt).
Proof.
  intros l. unfold set_clipboard.
  destruct (negb (allow_clipboard (config m)) || negb (allows_viewer_to_host (direction (clipboard (config m))))) eqn:E1; [eexists; by left|].
  destruct (max_bytes (clipboard (config m)) <? byte_len s) eqn:E2; [eexists; by left|]. fold l.
  destruct (write_rate_per_sec (clipboard (config m)) <=? _) eqn:E3; [eexists; by right; left|].
  apply Z.leb_gt in E3. apply Z.ltb_ge in E2. apply orb_false_iff in E1 as [E1%negb_false_iff E1'%negb_false_iff].
  cbn [with_clip_writes principal]. destruct (authorize w (principal c) OpSetClipboard) as [[]|] eqn:E4; eexists; right; right; (split; [done|]); (split; [done|]); [right|by left].
  by split_and!.
Qed.

Lemma log_rate reqs c m n : Z.of_nat n = m.(config).(clipboard).(write_rate_per_sec) -> is_u 32 m.(config).(clipboard).(write_rate_per_sec) -> ascending (times reqs) ->
  (length c.(clip_writes) <= n)%nat -> forall t, (within t (c.(clip_writes) ++ map fst (clipboard_log reqs c m)) <= n)%nat.
Proof.
  intros Hn Hu. revert c. induction reqs as [|[w s] reqs IH]; intros c Hasc Hlen t.
  { cbn [clipboard_log map]. rewrite app_nil_r. pose proof (within_length t (clip_writes c)). lia. }
  inversion_clear Hasc as [|? ? Hrest Hlate]. fold (times reqs) in Hrest, Hlate. cbn [clipboard_log].
  pose proof (within_length t (clip_writes c)) as Hwc. set (l := pop_old (now_ms w) 1000 (clip_writes c)).
  assert (Hpop : (length l <= n)%nat) by (destruct (pop_old_split (now_ms w) (clip_writes c)) as (old & E & _); fold l in E; rewrite E, length_app in Hlen; lia).
  assert (Hlog : forall c', Forall (fun z => now_ms w <= z) (map fst (clipboard_log reqs c' m))) by (intros c'; by apply log_late).
  destruct (set_clipboard_cases w s c m) as (out & [[-> ->]|[[-> ->]|(-> & Hrate & Hw)]]); fold l.
  - exact (IH c Hrest Hlen t).
  - cbn [app]. apply (within_pop (now_ms w)); [done|lia|]. exact (IH (with_clip_writes l c) Hrest Hpop t).
  - fold l in Hrate. set (c' := with_clip_writes (l ++ [now_ms w]) c). assert (Hlen' : (length (clip_writes c') <= n)%nat).
    { cbn [c' with_clip_writes clip_writes]. rewrite length_app. cbn [length]. rewrite wrap_small in Hrate by (unfold is_u in *; lia). lia. }
    pose proof (IH c' Hrest Hlen' t) as Hi. cbn [c' with_clip_writes clip_writes] in Hi. fold c' in Hi. rewrite <- app_assoc in Hi.
    destruct Hw as [->|(-> & _)]; cbn [app map fst].
    + apply (within_pop (now_ms w)); [done|lia|]. rewrite !within_app in Hi. rewrite within_app. fold l. lia.
    + apply (within_pop (now_ms w)); [constructor; [lia|done]|lia|]. exact Hi.
Qed.

(** On one connection, the clipboard of the host is written only where the server allows it in
    that direction, by a principal that may, with texts no longer than the limit, and at most
    as many times in any second as the rate says. *)
Theorem clipboard_limited reqs c m : is_u 32 m.(config).(clipboard).(write_rate_per_sec) -> ascending (times reqs) -> c.(clip_writes) = [] ->
  Forall (fun ws => m.(config).(allow_clipboard) = true /\ allows_viewer_to_host m.(config).(clipboard).(direction) = true /\ byte_len ws.2 <= m.(config).(clipboard).(max_bytes) /\
    exists w, (w, ws.2) ∈ reqs /\ w.(now_ms) = ws.1 /\ w.(authorize) c.(principal) OpSetClipboard = Ok tt) (clipboard_log reqs c m) /\
  forall t, Z.of_nat (within t (map fst (clipboard_log reqs c m))) <= m.(config).(clipboard).(write_rate_per_sec).
Proof.
  intros Hu Hasc Hnil. split.
  - clear Hu Hasc Hnil. revert c. induction reqs as [|[w s] reqs IH]; intros c; [constructor|]. cbn [clipboard_log].
    destruct (set_clipboard w s c m) as [out c'] eqn:Eset. apply Forall_app. split.
    + destruct (set_clipboard_cases w s c m) as (out' & [[E Ew]|[[E Ew]|(E & _ & [Ew|(Ew & H1 & H2 & H3 & H4)])]]);
        rewrite Eset in E; injection E as <- _; rewrite Ew; [constructor..|]. constructor; [|constructor]. split_and!; [done..|]. exists w. split_and!; [apply list_elem_of_here|done..].
    + destruct (set_clipboard_stays _ _ _ _ _ _ Eset) as (Ep & _). eapply Forall_impl; [apply (IH c')|]. rewrite Ep. intros ws (H1 & H2 & H3 & w' & H4 & H5 & H6). split_and!; [done..|]. exists w'. split_and!; [by apply list_elem_of_further|done..].
  - intros t. set (n := Z.to_nat (write_rate_per_sec (clipboard (config m)))). assert (Hn : Z.of_nat n = write_rate_per_sec (clipboard (config m))) by (unfold n, is_u in *; lia).
    pose proof (log_rate reqs c m n Hn Hu Hasc ltac:(rewrite Hnil; cbn; lia) t) as H. rewrite Hnil in H. cbn [app] in H. lia.
Qed.

(** ** Bit rates and the capture loop *)

(** A bit rate is between the bounds, and in proportion to the pixels where these let it. *)
Theorem kbps_bounds q width height : is_u 16 width -> is_u 16 height ->
  let base := match q with Low => 1000 | Medium => 3500 | High => 8000 | Lossless => 20000 end in
  target_kbps_for q width height = Z.min (Z.max (base * (width * height) / (1920 * 1080)) 500) 60000 /\ 500 <= target_kbps_for q width height <= 60000.
Proof.
  intros Hw Hh base. unfold is_u in Hw, Hh. assert (Hp : 0 <= width * height < 2 ^ 32) by nia. assert (Hb : 1000 <= base <= 20000) by (by destruct q; unfold base).
  unfold target_kbps_for. fold base. rewrite (wrap_small 64 (width * height)) by (unfold is_u; lia). rewrite (wrap_small 64 (base * _)) by (unfold is_u; nia).
  rewrite wrap_small by (unfold is_u; lia). split; [done|lia].
Qed.

(** The loop ends only for a message on the cancel channel, which nothing sends: a pipeline that
    is dropped closes the channel, and its thread goes on capturing or sleeping. *)
Theorem dropped_pipeline_runs fps p s : p.(cancel) = CancelClosed -> video_pass fps p s <> PassExit.
Proof. intros E. unfold video_pass. rewrite E. cbn [try_recv_is_ok]. repeat case_match; done. Qed.

(** A pass with viewers and a frame: it sleeps until the next deadline, which is one interval
    after the last one, or does not sleep and starts anew from the clock. *)
Theorem pass_paced fps p s forced sent ms s' : (p.(receiver_count) <> 0)%nat -> is_Some p.(captured) -> video_pass fps p s = PassNext forced sent ms s' ->
  forced = s.(keyframe_flag) /\ s'.(keyframe_flag) = false /\
  s'.(next_deadline) = p.(clock) + ms /\ s'.(next_deadline) = Z.max (s.(next_deadline) + frame_interval fps) p.(clock) /\ 0 <= ms.
Proof.
  intros Hr [f Hf] H. unfold video_pass in H. rewrite Hf, (proj2 (Nat.eqb_neq _ _) Hr) in H. destruct (try_recv_is_ok _); [done|].
  destruct (match tracker_read p with Some _ => _ | None => _ end) as [g|]; [|done]. injection H as <- _ <- <-. cbn [keyframe_flag next_deadline].
  destruct (next_deadline s + frame_interval fps <=? clock p) eqn:E; [apply Z.leb_le in E|apply Z.leb_gt in E]; split_and!; try done; lia.
Qed.

(** A viewer whose cursor is registered takes control by itself, also from the user: setting the
    mode is not authorised. *)
Theorem viewer_takes_control read_control w json c m cur : m.(config).(enable_multi_cursor) = true -> read_control json = Ok (SetCursorMode TechControl) ->
  m.(tracker).(mode) = UserControl -> m.(tracker).(cursors) !! c.(cursor) = Some cur -> cur.(is_local) = false ->
  should_inject_input c.(cursor) m.(tracker) = false /\
  exists m', handle_control_json read_control w json c m = ([], c, m') /\ should_inject_input c.(cursor) m'.(tracker) = true.
Proof.
  intros He Hr Hm Hc Hl. split; [unfold should_inject_input; by rewrite Hm, Hc|]. unfold handle_control_json. rewrite Hr, He. eexists. split; [done|].
  unfold should_inject_input. cbn [with_tracker tracker with_mode mode cursors]. by rewrite Hc, Hl.
Qed.

Module DesktopExamples.
Definition read_signal (t : str) : result str SignalRequest :=
  match t with
  | 97 :: token => Ok (ReqAuth token None)
  | [115] => Ok (ReqStart (Some 0) Medium 30 false)
  | [104] => Ok ReqHangup
  | _ => Err t
  end.
Definition read_control (t : str) : result str ControlRequest :=
  match t with
  | [100] => Ok (SelectDisplay 1)
  | _ => Err t
  end.
Definition screen (i : Z) : DisplayInfo := {| d_id := i; d_name := lit "screen"; d_width := 1920; d_height := 1080; d_x := 0; d_y := 0; d_is_primary := true; d_scale_factor := 0 |}.
Definition anyone : Principal := {| subject := lit "ann"; p_display_name := None; roles := [] |}.
Definition world : World :=
  {| authenticate := fun _ => Ok anyone; authorize := fun _ _ => Ok tt; first_key := fun m => head (map fst (map_to_list m));
     enumerate_displays := Ok [screen 0; screen 1]; spawn_thread := Ok tt; build_peer := Ok tt; create_offer := Ok (lit "offer"); set_remote_answer := fun _ => Ok tt;
     ws_open := true; create_injector := true; now_ms := 0 |}.
Definition setup : DesktopConfig :=
  {| max_sessions := 1; default_quality := Medium; default_max_fps := 30; idle_timeout_secs := 3600; allow_input := true; allow_clipboard := true;
     clipboard := {| direction := Bidirectional; max_bytes := 100; poll_rate_ms := 500; write_rate_per_sec := 1 |};
     multi_cursor_mode := Collaborative; enable_multi_cursor := true; enable_audio := false |}.

(** A viewer connects and starts; the user agrees and the peer is connected. *)
Definition opens (i : nat) (k sid : str) : list (World * server_event) :=
  map (pair world) [Connects i (Some (lit "at")) k; Proceeds i; Starts i (Some (lit "s")); Proceeds i; Enters i sid; Proceeds i; Proceeds i].
Definition joins : list (World * server_event) :=
  opens 0 (lit "k") (lit "sid") ++ map (pair world) [Consents 0 (lit "sid") anyone true; Wakes 0 (FromPeer EvConnected)].
(** It looks at the other display and hangs up. *)
Definition looks : list (World * server_event) := joins ++ map (pair world) [Wakes 0 (FromPeer (EvControlJson (lit "d"))); Wakes 0 (WsText (lit "h")); Proceeds 0; Proceeds 0; Proceeds 0; Proceeds 0].

Definition final (t : list (World * server_event)) : list effect * Server := default ([], new_server setup) (run read_signal read_control t (new_server setup)).

Lemma input_frames_read_witness : exists why, decode [z2b 1] = Some (Err why).
Proof. refine (proj2 (proj2 (input_frames_read (MouseMove 0 0) [] 1%nat _ _))); [by vm_compute|vm_compute; lia]. Defined.

Lemma sessions_and_cursors_owned_witness : (final looks).2.(mgr).(sessions) = ∅ /\ (final looks).2.(mgr).(tracker).(cursors) = ∅.
Proof.
  assert (E : run read_signal read_control looks (new_server setup) = Some (final looks)) by (vm_compute; reflexivity).
  destruct (final looks) as [out s] eqn:Ef. refine (proj2 (proj2 (proj2 (proj2 (proj2 (sessions_and_cursors_owned _ _ setup looks out s E))))) _).
  replace s with (final looks).2 by (by rewrite Ef). vm_compute. reflexivity.
Defined.

Definition clicks : list (World * server_event) := joins ++ [(world, Wakes 0 (FromPeer (EvInputBinary (frame_of (MouseButtonEvent ButtonLeft true 5 6)))))].
Lemma input_guarded_witness : setup.(allow_input) = true.
Proof.
  assert (E : run read_signal read_control clicks (new_server setup) = Some (final clicks)) by (vm_compute; reflexivity).
  assert (E2 : exists s', server_step read_signal read_control world (Proceeds 0) (final clicks).2 = Some ([Inject (MouseButtonEvent ButtonLeft true 5 6)], s'))
    by (eexists; vm_compute; reflexivity).
  destruct (final clicks) as [out s] eqn:Ef. destruct E2 as [s' E2].
  exact (proj1 (input_guarded _ _ setup clicks out s _ _ _ s' _ E E2 (list_elem_of_here _ _))).
Defined.

Lemma clipboard_limited_witness : Z.of_nat (within 0 (map fst (clipboard_log [(world, lit "x"); (world, lit "y")] (begin_loop world anyone [] [] 0 false true (new_manager setup)) (new_manager setup)))) <= 1.
Proof.
  refine (proj2 (clipboard_limited [(world, lit "x"); (world, lit "y")] (begin_loop world anyone [] [] 0 false true (new_manager setup)) (new_manager setup) _ _ _) 0); [by vm_compute| |done].
  unfold ascending, times. cbn [map fst]. repeat constructor; lia.
Defined.

(** After the only viewer looked at another display and left, the pipeline of that display is
    still in the table, and keeps its place there. *)
Theorem switched_display_stays : (final looks).2.(conns) = ∅ /\ dom (final looks).2.(mgr).(video_pipelines) = {[1]}.
Proof. vm_compute. by split. Qed.

(** Two connections that both look at the number of sessions before either opens its own: there
    are more sessions than the limit. *)
Definition race : list (World * server_event) :=
  map (pair world) [Connects 0 (Some (lit "at")) (lit "k"); Connects 1 (Some (lit "at")) (lit "j"); Proceeds 0; Proceeds 1; Starts 0 (Some (lit "s")); Starts 1 (Some (lit "s"));
                    Proceeds 0; Proceeds 1; Enters 0 (lit "a"); Enters 1 (lit "b")].
Theorem session_limit_exceeded : size (final race).2.(mgr).(sessions) = 2%nat /\ setup.(max_sessions) = 1%nat.
Proof. vm_compute. by split. Qed.
End DesktopExamples.
