(* ===== verification/Remedy.v ===== *)
(** * Collecting and repairing the state of a machine ([runesh-baseline/src/{collector,remediator}.rs])

    What a baseline is compared with, and how a drifted declaration is repaired.  A machine is
    a disk without links, the modes that were set, and the commands that ran; [os] says what a
    command prints after the commands before it, and [may] whether the modes and owners that
    were set let the process make a call.  A plain path is an absolute Unix path without ".",
    ".." and a slash at its end; where another path leads is a parameter.  The checks of
    [Baseline] read what is collected here.  The theorems state that a repaired file is found
    compliant and stays so, which commands a repair runs, and that the listings of systemd are
    read back. *)
From S2P Require Import Prelude Str Text Path Fs Utf8 Baseline.

#[local] Open Scope Z_scope.

Inductive Os : Type := Linux | MacOs | Windows | OtherOs.
Definition is_unix (t : Os) : bool := match t with Windows => false | _ => true end.

Record Command := { program : str; args : list str }.
(** What the system says of a command that ran; the texts are decoded. *)
Record Output := { code : option Z; stdout : str; stderr : str }.
Definition cmd (p : string) (l : list str) : Command := {| program := lit p; args := l |}.

Record Machine := { disk : Disk; modes : gmap (list str) Z; ran : list Command }.
Definition with_disk (d : Disk) (m : Machine) : Machine := {| disk := d; modes := m.(modes); ran := m.(ran) |}.

(** What a call needs at a place. *)
Inductive Access : Type := Looks | Reads | Writes | Makes | Removes | SetsMode.

Section Machine.
Context (os : list Command -> Command -> result str Output) (show_io : IoErrorKind -> str) (environment : str -> option str).
(** Where a path leads that is not plain. *)
Context (elsewhere : str -> list str).
(** Whether the process may make a call, after these modes were set and these commands ran. *)
Context (may : gmap (list str) Z -> list Command -> Access -> list str -> bool).

(** [Command::output]. *)
Definition output (c : Command) (m : Machine) : result str Output * Machine :=
  (os m.(ran) c, {| disk := m.(disk); modes := m.(modes); ran := m.(ran) ++ [c] |}).

Definition on_disk {A} (a : Access) (p : list str) (f : io A) (m : Machine) : result IoErrorKind A * Machine :=
  if may m.(modes) m.(ran) a p then let '(r, d) := f m.(disk) in (r, with_disk d m) else (Err OtherIo, m).

Definition plain_name (n : str) : bool :=
  negb (bool_decide (n = [])) && negb (bool_decide (n = lit ".")) && negb (bool_decide (n = lit "..")) && forallb (fun c => negb (c =? 0)) n.
Definition plain (path : str) : bool := match split c_slash path with [] :: names => forallb plain_name names | _ => false end.
(** The names of a path from the root down. *)
Definition place (path : str) : list str := if plain path then tail (split c_slash path) else elsewhere path.

Definition from_utf8 (bs : list byte) : option str := let s := from_utf8_lossy bs in if bool_decide (as_bytes s = bs) then Some s else None.
(** [fs::read_to_string(p).ok()]. *)
Definition read_to_string (p : list str) (m : Machine) : option str * Machine :=
  let '(r, m) := on_disk Reads p (read p) m in (match r with Ok b => from_utf8 b | Err _ => None end, m).
(** [Path::exists] is false on an error. *)
Definition exists_path (p : list str) (m : Machine) : bool * Machine := let '(r, m) := on_disk Looks p (metadata p) m in (is_ok r, m).

(** ** The remediator *)

Inductive RemediationOutcome : Type :=
| NoChange
| Applied
| OutOfScope (kind reason : str)
| Failed (e : str).

Definition run_ok (c : Command) (m : Machine) : result str unit * Machine :=
  let '(r, m) := output c m in
  (match r with
   | Err e => Err e
   | Ok o =>
     if bool_decide (o.(code) = Some 0) then Ok tt
     else
       let stderr := trim o.(stderr) in
       let stdout := trim o.(stdout) in
       Err (if bool_decide (stderr = []) then stdout else stderr)
   end, m).

Definition service_char (c : char) : bool := is_ascii_alphanumeric c || existsb (Z.eqb c) (lit "-_.@:").
Definition valid_service_name (name : str) : bool := negb (bool_decide (name = [])) && (byte_len name <=? 200) && forallb service_char name.

Definition remediate_service (t : Os) (name : str) (desired : ServiceState) (enabled : bool) (m : Machine) : RemediationOutcome * Machine :=
  if negb (valid_service_name name) then (Failed (lit "invalid service name: " ++ name), m)
  else match t with
  | Linux =>
    let state_action := match desired with Running => lit "start" | Stopped => lit "stop" end in
    let act := if enabled then lit "enable" else lit "disable" in
    match run_ok (cmd "systemctl" [state_action; name]) m with
    | (Err e, m) => (Failed (lit "systemctl " ++ state_action ++ lit " " ++ name ++ lit ": " ++ e), m)
    | (Ok _, m) =>
      match run_ok (cmd "systemctl" [act; name]) m with
      | (Err e, m) => (Failed (lit "systemctl " ++ act ++ lit " " ++ name ++ lit ": " ++ e), m)
      | (Ok _, m) => (Applied, m)
      end
    end
  | MacOs =>
    let c := match desired with Running => lit "load" | Stopped => lit "unload" end in
    match run_ok (cmd "launchctl" [c; name]) m with
    | (Ok _, m) => (Applied, m)
    | (Err e, m) => (Failed (lit "launchctl " ++ c ++ lit " " ++ name ++ lit ": " ++ e), m)
    end
  | Windows =>
    let state_action := match desired with Running => lit "start" | Stopped => lit "stop" end in
    let '(r, m) := run_ok (cmd "sc" [state_action; name]) m in
    let lower := match r with Err e => to_ascii_lowercase e | Ok _ => [] end in
    let fatal := match r with
                 | Ok _ => false
                 | Err _ => negb (contains_str (lit "already") lower) && negb (contains_str (lit "1056") lower) && negb (contains_str (lit "1062") lower)
                 end in
    if fatal then (Failed (lit "sc " ++ state_action ++ lit " " ++ name ++ lit ": " ++ match r with Err e => e | Ok _ => [] end), m)
    else
      let start_type := if enabled then lit "auto" else lit "demand" in
      match run_ok (cmd "sc" [lit "config"; name; lit "start= " ++ start_type]) m with
      | (Err e, m) => (Failed (lit "sc config " ++ name ++ lit " start= " ++ start_type ++ lit ": " ++ e), m)
      | (Ok _, m) => (Applied, m)
      end
  | OtherOs => (OutOfScope (lit "service") (lit "no service manager integration for this platform"), m)
  end.

(** [trim_start_matches("0o")]. *)
Fixpoint trim_0o (s : str) : str :=
  match s with
  | 48 :: 111 :: r => trim_0o r
  | _ => s
  end.
Fixpoint octal_val (acc : Z) (s : str) : option Z :=
  match s with
  | [] => Some acc
  | c :: s => d ← to_digit 8 c; octal_val (acc * 8 + d) s
  end.
Definition parse_octal_mode (s : str) : option Z :=
  let trimmed := trim_start_matches 48 (trim_0o s) in
  if bool_decide (trimmed = []) then Some 0
  else
    let ds := match trimmed with c :: r => if c =? c_plus then r else trimmed | [] => [] end in
    if bool_decide (ds = []) then None
    else v ← octal_val 0 ds; if v <? 2 ^ 32 then Some v else None.

Definition set_permissions (p : list str) (mode : Z) (m : Machine) : result IoErrorKind unit * Machine :=
  let '(r, m) := on_disk SetsMode p (metadata p) m in
  match r with
  | Ok _ => (Ok tt, {| disk := m.(disk); modes := <[p := mode]> m.(modes); ran := m.(ran) |})
  | Err e => (Err e, m)
  end.

Definition owner_char (c : char) : bool := is_ascii_alphanumeric c || existsb (Z.eqb c) (lit "-_.:").

(** The mode and the owner, on Unix. *)
Definition set_access (t : Os) (path : str) (mode owner : option str) (changed : bool) (m : Machine) : RemediationOutcome * Machine :=
  let done := if changed then Applied else NoChange in
  if negb (is_unix t) then (done, m)
  else
    let '(r, m) := match mode ≫= parse_octal_mode with
                   | Some parsed => set_permissions (place path) parsed m
                   | None => (Ok tt, m)
                   end in
    match r with
    | Err e => (Failed (lit "chmod " ++ path ++ lit ": " ++ show_io e), m)
    | Ok _ =>
      match owner with
      | None => (done, m)
      | Some o =>
        if negb (forallb owner_char o) then (Failed (lit "invalid owner: " ++ o), m)
        else match run_ok (cmd "chown" [o; path]) m with
        | (Err e, m) => (Failed (lit "chown " ++ o ++ lit " " ++ path ++ lit ": " ++ e), m)
        | (Ok _, m) => (done, m)
        end
      end
    end.

(** The content: whether it had to be changed. *)
Definition set_content (path : str) (content : option str) (m : Machine) : result RemediationOutcome bool * Machine :=
  let p := place path in
  match content with
  | Some want =>
    let '(current, m) := read_to_string p m in
    if bool_decide (current = Some want) then (Ok false, m)
    else match on_disk Writes p (write p (as_bytes want)) m with
    | (Err e, m) => (Err (Failed (lit "write " ++ path ++ lit ": " ++ show_io e)), m)
    | (Ok _, m) => (Ok true, m)
    end
  | None =>
    let '(there, m) := exists_path p m in
    if there then (Ok false, m)
    else match on_disk Writes p (create p) m with
    | (Err e, m) => (Err (Failed (lit "create " ++ path ++ lit ": " ++ show_io e)), m)
    | (Ok _, m) => (Ok true, m)
    end
  end.

Definition remediate_file (t : Os) (path : str) (content mode owner : option str) (present : bool) (m : Machine) : RemediationOutcome * Machine :=
  let p := place path in
  if negb present then
    match on_disk Removes p (remove_file p) m with
    | (Ok _, m) => (Applied, m)
    | (Err NotFound, m) => (NoChange, m)
    | (Err e, m) => (Failed (lit "remove " ++ path ++ lit ": " ++ show_io e), m)
    end
  else
    let '(r, m) := match unsnoc p with
                   | Some (q, _) => on_disk Makes q (create_dir_all q) m
                   | None => (Ok tt, m)
                   end in
    match r with
    | Err e => (Failed (lit "mkdir -p " ++ display_absolute (removelast p) ++ lit ": " ++ show_io e), m)
    | Ok _ =>
      match set_content path content m with
      | (Err o, m) => (o, m)
      | (Ok changed, m) => set_access t path mode owner changed m
      end
    end.

Definition setting_char (c : char) : bool := is_ascii_alphanumeric c || (c =? c_dot) || (c =? 95).

Definition remediate_setting (t : Os) (key value : str) (m : Machine) : RemediationOutcome * Machine :=
  if bool_decide (key = []) || negb (forallb setting_char key) then (Failed (lit "invalid setting key: " ++ key), m)
  else match t with
  | Linux =>
    let arg := key ++ lit "=" ++ value in
    match run_ok (cmd "sysctl" [lit "-w"; arg]) m with
    | (Ok _, m) => (Applied, m)
    | (Err e, m) => (Failed (lit "sysctl -w " ++ arg ++ lit ": " ++ e), m)
    end
  | _ => (OutOfScope (lit "setting")
      (lit "non-Linux setting writes require a platform-specific writer (Windows registry, macOS defaults); supply a custom Remediator"), m)
  end.

Definition remediate (t : Os) (d : StateDeclaration) (m : Machine) : RemediationOutcome * Machine :=
  match d with
  | Service name state enabled => remediate_service t name state enabled m
  | File path content mode owner present => remediate_file t path content mode owner present m
  | Setting key value => remediate_setting t key (match value with JString s => s | JText t => t end) m
  | Package _ _ _ => (OutOfScope (lit "package") (lit "packages are remediated via runesh_pkg::PackageManager at the consumer layer"), m)
  | User _ _ _ => (OutOfScope (lit "user") (lit "user provisioning belongs to the identity plane"), m)
  | Firewall _ _ => (OutOfScope (lit "firewall") (lit "firewall rule authoring is consumer-specific and rule-order sensitive"), m)
  | Custom _ _ _ => (OutOfScope (lit "custom") (lit "custom declarations carry their own fix_command; run it via runesh_jobs with an allowlist"), m)
  end.

(** ** The collector *)

Fixpoint collect_files (paths : list str) (acc : gmap str (option str)) (m : Machine) : gmap str (option str) * Machine :=
  match paths with
  | [] => (acc, m)
  | path :: paths =>
    let p := place path in
    let '(there, m) := exists_path p m in
    if there then let '(content, m) := read_to_string p m in collect_files paths (<[path := content]> acc) m
    else collect_files paths acc m
  end.

Fixpoint collect_settings (t : Os) (keys : list str) (acc : gmap str str) (m : Machine) : gmap str str * Machine :=
  match keys with
  | [] => (acc, m)
  | key :: keys =>
    let '(sysctl, m) := match t with
                        | Linux => read_to_string (place (lit "/proc/sys/" ++ replace (lit ".") (lit "/") key)) m
                        | _ => (None, m)
                        end in
    let value := match sysctl with Some v => Some (trim v) | None => environment key end in
    collect_settings t keys (match value with Some v => <[key := v]> acc | None => acc end) m
  end.

(** Lines that are read one by one into a table. *)
Definition table {A} (read : str -> option (str * A)) (text : str) (acc : gmap str A) : gmap str A :=
  foldl (fun acc l => match read l with Some (k, v) => <[k := v]> acc | None => acc end) acc (lines text).

(** [if let Ok(output) = Command::new(...).output()]: what it printed, whatever its exit code. *)
Definition printed (c : Command) (m : Machine) : option str * Machine :=
  let '(r, m) := output c m in (match r with Ok o => Some o.(stdout) | Err _ => None end, m).

Definition dpkg_line (l : str) : option (str * str) :=
  match split c_tab l with
  | n :: v :: status :: _ => if contains_str (lit "installed") status then Some (n, v) else None
  | _ => None
  end.
Definition rpm_line (l : str) : option (str * str) := split_once c_tab l.
Definition pacman_line (l : str) : option (str * str) := match split_whitespace l with n :: v :: _ => Some (n, v) | _ => None end.

Definition collect_packages_linux (m : Machine) : gmap str str * Machine :=
  let '(o, m) := printed (cmd "dpkg-query" [lit "-W"; lit "-f=${Package}" ++ [c_tab] ++ lit "${Version}" ++ [c_tab] ++ lit "${Status}" ++ [c_nl]]) m in
  let pkgs := match o with Some text => table dpkg_line text ∅ | None => ∅ end in
  if negb (bool_decide (pkgs = ∅)) then (pkgs, m)
  else
    let '(o, m) := printed (cmd "rpm" [lit "-qa"; lit "--queryformat"; lit "%{NAME}" ++ [c_tab] ++ lit "%{VERSION}-%{RELEASE}" ++ [c_nl]]) m in
    let pkgs := match o with Some text => table rpm_line text ∅ | None => ∅ end in
    if negb (bool_decide (pkgs = ∅)) then (pkgs, m)
    else
      let '(o, m) := printed (cmd "pacman" [lit "-Q"]) m in
      (match o with Some text => table pacman_line text ∅ | None => ∅ end, m).

Definition unit_name (s : str) : str := default s (strip_suffix (lit ".service") s).
Definition unit_line (l : str) : option (str * bool) :=
  match split_whitespace l with
  | n :: _ :: active :: _ :: _ => Some (unit_name n, bool_decide (active = lit "active"))
  | _ => None
  end.
Definition collect_services_linux (m : Machine) : gmap str bool * Machine :=
  let '(o, m) := printed (cmd "systemctl" (map lit ["list-units"; "--type=service"; "--all"; "--no-pager"; "--no-legend"]%string)) m in
  (match o with Some text => table unit_line text ∅ | None => ∅ end, m).

Definition unit_file_line (l : str) : option (str * bool) :=
  match split_whitespace l with
  | n :: state :: _ => Some (unit_name n, bool_decide (state = lit "enabled"))
  | _ => None
  end.
Definition collect_services_enabled_linux (m : Machine) : gmap str bool * Machine :=
  let '(o, m) := printed (cmd "systemctl" (map lit ["list-unit-files"; "--type=service"; "--no-pager"; "--no-legend"]%string)) m in
  (match o with Some text => table unit_file_line text ∅ | None => ∅ end, m).

Definition brew_line (l : str) : option (str * str) :=
  match split_whitespace l with
  | n :: rest => Some (n, default [] (head rest))
  | [] => None
  end.
Definition collect_packages_macos (m : Machine) : gmap str str * Machine :=
  let '(o, m) := printed (cmd "brew" [lit "list"; lit "--versions"]) m in
  (match o with Some text => table brew_line text ∅ | None => ∅ end, m).

Definition launchctl_line (l : str) : option (str * bool) :=
  match split c_tab l with
  | pid :: _ :: label :: _ =>
    let name := trim label in
    if bool_decide (name = []) || bool_decide (name = lit "Label") then None else Some (name, negb (bool_decide (trim pid = lit "-")))
  | _ => None
  end.
Definition collect_services_macos (m : Machine) : gmap str bool * Machine :=
  let '(o, m) := printed (cmd "launchctl" [lit "list"]) m in
  (match o with Some text => table launchctl_line text ∅ | None => ∅ end, m).

(** Users of [/etc/passwd] and the groups of [/etc/group] they are listed in. *)
Definition passwd_line (l : str) : option (str * list str) :=
  match split c_colon l with
  | user :: _ :: uid :: _ :: _ =>
    let uid := default 65534 (parse_uint 32 uid) in
    if (1000 <=? uid) || (uid =? 0) then Some (user, []) else None
  | _ => None
  end.
Definition group_line (acc : gmap str (list str)) (l : str) : gmap str (list str) :=
  match split c_colon l with
  | group :: _ :: _ :: members :: _ =>
    foldl (fun acc member => alter (fun gs => gs ++ [group]) member acc) acc (filter (fun s => s <> []) (split c_comma members))
  | _ => acc
  end.
Definition collect_users_unix (m : Machine) : gmap str (list str) * Machine :=
  let '(passwd, m) := read_to_string (place (lit "/etc/passwd")) m in
  let users := match passwd with Some text => table passwd_line text ∅ | None => ∅ end in
  let '(groups, m) := read_to_string (place (lit "/etc/group")) m in
  (match groups with Some text => foldl group_line users (lines text) | None => users end, m).

(** What stands before the first line with three hyphens, if anything, and after it. *)
Fixpoint after_separator (before : str) (ls : list str) : option (str * list str) :=
  match ls with
  | [] => None
  | l :: rest => if contains_str (lit "---") l then Some (before, rest) else after_separator l rest
  end.
Definition winget_line (id_start ver_start : Z) (l : str) : option (str * str) :=
  if ver_start <? byte_len l then
    let id := default [] (trim <$> get_range id_start ver_start l) in
    let ver := default [] (get_from ver_start l ≫= fun s => head (split_whitespace s)) in
    if bool_decide (id = []) then None else Some (id, ver)
  else None.
Definition collect_packages_windows (m : Machine) : gmap str str * Machine :=
  let '(o, m) := printed (cmd "winget" (map lit ["list"; "--disable-interactivity"; "--accept-source-agreements"]%string)) m in
  (match o ≫= (fun text => after_separator [] (lines text)) with
   | Some (header, rows) =>
     let id_start := default 0 (find_str (lit "Id") header) in
     let ver_start := default 0 (find_str (lit "Version") header) in
     if (0 <? id_start) && (0 <? ver_start) then
       foldl (fun acc l => match winget_line id_start ver_start l with Some (k, v) => <[k := v]> acc | None => acc end) ∅ rows
     else ∅
   | None => ∅
   end, m).

Definition sc_line (acc : str * gmap str bool) (l : str) : str * gmap str bool :=
  let '(current, services) := acc in
  let trimmed := trim l in
  match strip_prefix (lit "SERVICE_NAME: ") trimmed with
  | Some name => (name, services)
  | None => if starts_with (lit "STATE") trimmed && negb (bool_decide (current = []))
            then (current, <[current := contains_str (lit "RUNNING") trimmed]> services) else (current, services)
  end.
Definition collect_services_windows (m : Machine) : gmap str bool * Machine :=
  let '(o, m) := printed (cmd "sc" (map lit ["query"; "type="; "service"; "state="; "all"]%string)) m in
  (match o with Some text => (foldl sc_line ([], ∅) (lines text)).2 | None => ∅ end, m).

Fixpoint net_users (in_list : bool) (ls : list str) (acc : gmap str (list str)) : gmap str (list str) :=
  match ls with
  | [] => acc
  | l :: ls =>
    if starts_with (lit "---") l then net_users true ls acc
    else if starts_with (lit "The command completed") l then acc
    else net_users in_list ls (if in_list then foldl (fun acc n => <[n := []]> acc) acc (split_whitespace l) else acc)
  end.
Definition starred (s : str) : list str := filter (fun g => g <> []) (map trim (split c_star s)).
Definition net_groups_line (acc : bool * list str) (l : str) : bool * list str :=
  let '(in_groups, groups) := acc in
  if starts_with (lit "Local Group Memberships") l || starts_with (lit "Global Group memberships") l then
    (true, groups ++ match split_once c_star l with Some (_, vals) => starred vals | None => [] end)
  else if in_groups && starts_with (lit " ") l then (true, groups ++ starred l)
  else (false, groups).
(** [order] lists the users found. *)
Fixpoint net_memberships (names : list str) (users : gmap str (list str)) (m : Machine) : gmap str (list str) * Machine :=
  match names with
  | [] => (users, m)
  | n :: names =>
    let '(o, m) := printed (cmd "net" [lit "user"; n]) m in
    let users := match o with Some text => alter (fun _ => (foldl net_groups_line (false, []) (lines text)).2) n users | None => users end in
    net_memberships names users m
  end.
Definition collect_users_windows (order : gmap str (list str) -> list str) (m : Machine) : gmap str (list str) * Machine :=
  let '(o, m) := printed (cmd "net" [lit "user"]) m in
  let users := match o with Some text => net_users false (lines text) ∅ | None => ∅ end in
  net_memberships (order users) users m.

Definition collect_system_state (t : Os) (order : gmap str (list str) -> list str) (file_paths setting_keys : list str) (m : Machine) : SystemState * Machine :=
  let '(files, m) := collect_files file_paths ∅ m in
  let '(settings, m) := collect_settings t setting_keys ∅ m in
  match t with
  | Linux =>
    let '(packages, m) := collect_packages_linux m in
    let '(services, m) := collect_services_linux m in
    let '(enabled, m) := collect_services_enabled_linux m in
    let '(users, m) := collect_users_unix m in
    ({| packages := packages; services := services; services_enabled := enabled; files := files; users := users; settings := settings |}, m)
  | MacOs =>
    let '(packages, m) := collect_packages_macos m in
    let '(services, m) := collect_services_macos m in
    let '(users, m) := collect_users_unix m in
    ({| packages := packages; services := services; services_enabled := ∅; files := files; users := users; settings := settings |}, m)
  | Windows =>
    let '(packages, m) := collect_packages_windows m in
    let '(services, m) := collect_services_windows m in
    let '(users, m) := collect_users_windows order m in
    ({| packages := packages; services := services; services_enabled := ∅; files := files; users := users; settings := settings |}, m)
  | OtherOs => ({| packages := ∅; services := ∅; services_enabled := ∅; files := files; users := ∅; settings := settings |}, m)
  end.

(** ** What is found after a repair *)

(** What the collector says of a file. *)
Definition content_of (n : option node) : option (option str) :=
  match n with
  | None => None
  | Some (Fs.File b) => Some (from_utf8 b)
  | Some Dir => Some None
  end.
Definition seen (m : Machine) (path : str) : option (option str) := content_of (node_at m.(disk).(nodes) (place path)).

Definition note (m : Machine) (acc : gmap str (option str)) (path : str) : gmap str (option str) :=
  match seen m path with Some c => <[path := c]> acc | None => acc end.

(** No call fails: the disk works, and the modes and owners that were set leave the process
    access, as they do for the superuser. *)
Definition healthy (m : Machine) : Prop := m.(disk).(fates) = [] /\ forall a p, may m.(modes) m.(ran) a p = true.

Lemma exists_healthy p m : healthy m -> exists_path p m = (bool_decide (is_Some (node_at m.(disk).(nodes) p)), m).
Proof.
  destruct m as [[n f] mo r]. intros [Hf Hm]. cbn in Hf, Hm. subst f. unfold exists_path, on_disk, metadata, fs_call. cbn. rewrite Hm. by destruct (node_at n p).
Qed.

Lemma machine_read_healthy p m : healthy m -> read_to_string p m = (default None (content_of (node_at m.(disk).(nodes) p)), m).
Proof.
  destruct m as [[n f] mo r]. intros [Hf Hm]. cbn in Hf, Hm. subst f. unfold read_to_string, on_disk, read, fs_call, get_file. cbn. rewrite Hm.
  by destruct (node_at n p) as [[b|]|].
Qed.

Lemma collect_files_healthy paths acc m : healthy m ->
  collect_files paths acc m = (foldl (note m) acc paths, m).
Proof.
  intros Hh. revert acc. induction paths as [|path paths IH]; intros acc; [done|]. cbn [collect_files foldl]. rewrite exists_healthy by done.
  assert (Hs : seen m path = content_of (node_at m.(disk).(nodes) (place path))) by done. unfold note at 2. rewrite Hs, machine_read_healthy by done.
  destruct (node_at _ (place path)) as [nd|]; [rewrite bool_decide_eq_true_2 by (by eexists)|rewrite bool_decide_eq_false_2 by (by intros [? ?]); apply IH].
  destruct nd; apply IH.
Qed.

Lemma collect_files_lookup m paths acc path : path ∈ paths -> acc !! path = None \/ acc !! path = seen m path ->
  foldl (note m) acc paths !! path = seen m path.
Proof.
  intros Hin Hacc. assert (Hkeep : forall l acc, acc !! path = seen m path ->
    foldl (note m) acc l !! path = seen m path).
  { induction l as [|q l IH]; intros a Ha; [done|]. cbn [foldl]. apply IH. unfold note. destruct (seen m q) as [c|] eqn:E; [|done].
    destruct (decide (q = path)) as [->|Hne]; [by rewrite lookup_insert_eq|by rewrite lookup_insert_ne]. }
  revert acc Hacc. induction paths as [|q paths IH]; intros acc Hacc; [by apply elem_of_nil in Hin|]. cbn [foldl]. apply elem_of_cons in Hin as [<-|Hin].
  - apply Hkeep. unfold note. destruct (seen m path) as [c|] eqn:E; [apply lookup_insert_eq|]. destruct Hacc as [H|H]; by rewrite H.
  - apply IH; [done|]. unfold note. destruct (seen m q) as [c|] eqn:E; [|done]. destruct (decide (q = path)) as [->|Hne]; [right; by rewrite lookup_insert_eq|by rewrite lookup_insert_ne].
Qed.

Lemma machine_disk_ok {A} a p (f : io A) m x m' : on_disk a p f m = (Ok x, m') -> f m.(disk) = (Ok x, m'.(disk)).
Proof using Type. unfold on_disk. destruct (may _ _ a p); [|done]. destruct (f (disk m)) as [r0 d]. by intros [= <- <-]. Qed.

Lemma machine_disk_err {A} a p (f : io A) m e m' : on_disk a p f m = (Err e, m') -> f m.(disk) = (Err e, m'.(disk)) \/ (e = OtherIo /\ m' = m).
Proof using Type. unfold on_disk. destruct (may _ _ a p); [|intros [= <- <-]; by right]. destruct (f (disk m)) as [r0 d]. intros [= <- <-]. by left. Qed.

(** Looking and reading change nothing on the disk. *)
Lemma look_err {A} (a : Access) (p : list str) (works : tree -> result IoErrorKind A) m e m' :
  on_disk a p (fs_call (fun t => (works t, t)) no_tear) m = (Err e, m') -> m'.(disk).(nodes) = m.(disk).(nodes).
Proof using Type.
  intros [E|[_ ->]]%machine_disk_err; [|done]. by apply fs_call_err in E as [E|[E|[n E]]]; [injection E as _ <-|..].
Qed.

Lemma read_nodes p m c m' : read_to_string p m = (c, m') -> m'.(disk).(nodes) = m.(disk).(nodes) /\ (forall s, c = Some s -> content_of (node_at m.(disk).(nodes) p) = Some (Some s)).
Proof using Type.
  unfold read_to_string. destruct (on_disk Reads p (read p) m) as [r m1] eqn:E. intros [= <- <-]. destruct r as [b|e].
  - apply machine_disk_ok, fs_call_ok in E. injection E as E1 E2. split; [done|]. intros s Hs. apply get_file_ok in E1. unfold file_at in E1. destruct (node_at _ p) as [[b'|]|]; [|done..]. injection E1 as ->. cbn. by rewrite Hs.
  - split; [by apply look_err in E|done].
Qed.

Lemma exists_nodes p m b m' : exists_path p m = (b, m') -> m'.(disk).(nodes) = m.(disk).(nodes) /\ (b = true -> is_Some (node_at m.(disk).(nodes) p)).
Proof using Type.
  unfold exists_path. destruct (on_disk Looks p (metadata p) m) as [r m1] eqn:E. intros [= <- <-]. destruct r as [nd|e].
  - apply machine_disk_ok, fs_call_ok in E. injection E as E1 E2. split; [done|]. intros _. apply ok_or_ok in E1. by eexists.
  - split; [by apply look_err in E|done].
Qed.

Definition as_wanted (path : str) (content : option str) (m : Machine) : Prop := exists c, seen m path = Some c /\ forall x, content = Some x -> c = Some x.

Lemma from_utf8_as_bytes s : Forall is_scalar s -> from_utf8 (as_bytes s) = Some s.
Proof. intros H. unfold from_utf8. rewrite from_utf8_lossy_as_bytes by done. by rewrite bool_decide_eq_true_2. Qed.

Lemma as_wanted_node path content m : as_wanted path content m ->
  match node_at m.(disk).(nodes) (place path) with
  | None => true = false
  | Some n => true = true /\ forall x, content = Some x -> n = Fs.File (as_bytes x)
  end.
Proof using Type.
  intros (c & Hc & Hx). unfold seen in Hc. destruct (node_at _ (place path)) as [n|]; [|done]. split; [done|]. intros x Ex.
  destruct n as [b|]; cbn in Hc; injection Hc as <-; specialize (Hx x Ex); [|done]. unfold from_utf8 in Hx.
  case_bool_decide as Hb; [|done]. injection Hx as <-. by rewrite Hb.
Qed.

Lemma set_content_ok path content m changed m' : (forall x, content = Some x -> Forall is_scalar x) -> set_content path content m = (Ok changed, m') -> as_wanted path content m' /\
  (m'.(disk).(nodes) = m.(disk).(nodes) \/ exists b, place path <> [] /\ m'.(disk).(nodes) = <[place path := Fs.File b]> m.(disk).(nodes)).
Proof.
  intros Hs. unfold set_content, as_wanted, seen. destruct content as [want|].
  - destruct (read_to_string (place path) m) as [cur m1] eqn:E. apply read_nodes in E as [En Ec]. case_bool_decide as Hw.
    + intros [= <- <-]. rewrite En. split; [|by left]. exists (Some want). split; [by apply Ec|]. by intros x [= ->].
    + destruct (on_disk Writes (place path) (write (place path) (as_bytes want)) m1) as [[[]|e] m2] eqn:Ew; [|done]. intros [= <- <-]. apply machine_disk_ok in Ew.
      apply fs_call_ok in Ew. apply put_file_ok in Ew as (Hp & Em & Hf). split; [|right; exists (as_bytes want); by rewrite Em, En].
      exists (Some want). split; [|by intros x [= ->]]. specialize (Hf (place path)). rewrite bool_decide_eq_true_2 in Hf by done. unfold file_at in Hf.
      destruct (node_at (nodes (disk m2)) (place path)) as [[b|]|]; try done. injection Hf as ->. cbn. by rewrite from_utf8_as_bytes by (by apply Hs).
  - destruct (exists_path (place path) m) as [b m1] eqn:E. apply exists_nodes in E as [En Ec]. destruct b.
    + intros [= <- <-]. rewrite En. split; [|by left]. destruct (Ec eq_refl) as [nd ->]. destruct nd; eexists; by split.
    + destruct (on_disk Writes (place path) (create (place path)) m1) as [[[]|e] m2] eqn:Ew; [|done]. intros [= <- <-]. apply machine_disk_ok in Ew.
      apply fs_call_ok in Ew. apply put_file_ok in Ew as (Hp & Em & Hf). split; [|right; exists []; by rewrite Em, En].
      rewrite Em. unfold node_at. destruct (place path); [done|]. rewrite lookup_insert_eq. eexists; by split.
Qed.

Lemma set_access_nodes t path mode owner changed m o m' : set_access t path mode owner changed m = (o, m') -> m'.(disk).(nodes) = m.(disk).(nodes).
Proof.
  assert (Hrun : forall c m r m', run_ok c m = (r, m') -> m'.(disk) = m.(disk)) by (intros c0 m0 r0 m0'; unfold run_ok, output; by intros [= _ <-]).
  assert (Hset : forall p z m r m', set_permissions p z m = (r, m') -> m'.(disk).(nodes) = m.(disk).(nodes)).
  { intros p z m0 r0 m0'. unfold set_permissions. destruct (on_disk SetsMode p (metadata p) m0) as [r1 m1] eqn:E. destruct r1.
    - apply machine_disk_ok, fs_call_ok in E. injection E as _ E. by intros [= _ <-].
    - apply look_err in E. by intros [= _ <-]. }
  unfold set_access. destruct (negb (is_unix t)); [by intros [= _ <-]|].
  destruct (match mode ≫= parse_octal_mode with Some _ => _ | None => _ end) as [r m1] eqn:E.
  assert (E1 : m1.(disk).(nodes) = m.(disk).(nodes)) by (destruct (mode ≫= parse_octal_mode); [by eapply Hset|by injection E as _ <-]).
  destruct r; [|by intros [= _ <-]]. destruct owner as [ow|]; [|by intros [= _ <-]]. destruct (negb _); [by intros [= _ <-]|].
  destruct (run_ok _ m1) as [r2 m2] eqn:E2. apply Hrun in E2. destruct r2; intros [= _ <-]; congruence.
Qed.

(** The directories on the way to a file that was made. *)
Definition ways (path : str) (m : Machine) : Prop :=
  forall q n, unsnoc (place path) = Some (q, n) -> forall k, (0 < k <= length q)%nat -> m.(disk).(nodes) !! take k q = Some Dir.

Lemma remediated t path content mode owner m o m' : (forall x, content = Some x -> Forall is_scalar x) ->
  remediate_file t path content mode owner true m = (o, m') -> o = Applied \/ o = NoChange -> as_wanted path content m' /\ ways path m'.
Proof.
  intros Hs H Ho. unfold remediate_file in H. cbn [negb] in H.
  destruct (match unsnoc (place path) with Some _ => _ | None => _ end) as [r m1] eqn:E. destruct r as [[]|e]; [|injection H as <- _; by destruct Ho].
  assert (Hw : ways path m1).
  { intros q n Eq k Hk. rewrite Eq in E. apply machine_disk_ok, fs_call_ok in E. destruct (mkdirs_dirs _ _ _ _ E) as [Hd _]. exact (Hd k Hk). }
  destruct (set_content path content m1) as [[changed|e] m2] eqn:E2.
  - apply set_content_ok in E2 as [Ha Hn]; [|done]. apply set_access_nodes in H. split.
    + unfold as_wanted, seen in *. by rewrite H.
    + intros q n Eq k Hk. rewrite H. specialize (Hw q n Eq k Hk). destruct Hn as [->|(b & _ & ->)]; [done|]. rewrite lookup_insert_ne; [done|].
      apply unsnoc_some in Eq. rewrite Eq. intros Heq. apply (f_equal length) in Heq. rewrite length_app, length_take in Heq. cbn in Heq. lia.
  - injection H as -> _. exfalso. unfold set_content in E2. repeat case_match; simplify_eq; by destruct Ho.
Qed.

(** Below a file there is nothing. *)
Definition tree_ok (m : tree) : Prop := forall p q b, m !! p = Some (Fs.File b) -> q <> [] -> m !! (p ++ q) = None.

(** A path that is gone is missed, not refused. *)
Definition missing (path : str) (m : Machine) : Prop :=
  node_at m.(disk).(nodes) (place path) = None /\ absent m.(disk).(nodes) (place path) = NotFound.

Lemma removed t path content mode owner m o m' : tree_ok m.(disk).(nodes) ->
  remediate_file t path content mode owner false m = (o, m') -> o = Applied \/ o = NoChange -> missing path m'.
Proof using Type.
  intros Hok. unfold remediate_file, missing. cbn [negb]. destruct (on_disk Removes (place path) (remove_file (place path)) m) as [[[]|e] m1] eqn:E.
  - apply machine_disk_ok, fs_call_ok in E. intros [= <- <-] _. destruct (node_at (nodes (disk m)) (place path)) as [[b|]|] eqn:En; try done. injection E as <-.
    unfold node_at in *. destruct (place path) as [|x p] eqn:Ep; [done|]. clear Ep. set (P := x :: p) in *. rewrite lookup_delete_eq. split; [done|].
    unfold absent. rewrite (proj2 (existsb_elem_false _ _)); [done|]. intros k Hk.
    destruct (decide (take k P = P)) as [->|Hne]; [by rewrite lookup_delete_eq|]. rewrite lookup_delete_ne by done.
    destruct (nodes (disk m) !! take k P) as [[b'|]|] eqn:Ek; [|done..]. exfalso.
    pose proof (Hok _ (drop k P) _ Ek) as Hno. rewrite take_drop, En in Hno. discriminate Hno. intros Hd. apply Hne.
    rewrite <- (take_drop k P) at 2. by rewrite Hd, app_nil_r.
  - intros H Ho. assert (e = NotFound) as -> by (destruct e; [done|injection H as <- _; by destruct Ho..]). injection H as <- <-.
    apply machine_disk_err in E as [E|[? _]]; [|done].
    unfold remove_file, fs_call in E. destruct (default Works _); [|done|done]. destruct (node_at (nodes (disk m)) (place path)) as [[b|]|] eqn:En; try done.
    injection E as E0 E. by rewrite <- E; cbn [nodes]; rewrite En.
Qed.

Lemma mkdirs_again rest : forall pre (m : gmap (list str) node), (forall k, (0 < k <= length rest)%nat -> m !! (pre ++ take k rest) = Some Dir) -> mkdirs pre rest m = (Ok tt, m).
Proof.
  induction rest as [|n rest IH]; intros pre m Hd; [done|]. cbn [mkdirs]. pose proof (Hd 1%nat ltac:(cbn; lia)) as H1. cbn [take] in H1. rewrite take_0 in H1. rewrite H1, insert_id by done.
  apply IH. intros k Hk. specialize (Hd (S k) ltac:(cbn; lia)). cbn [take] in Hd. by rewrite <- app_assoc.
Qed.

Lemma machine_disk_healthy {A} (a : Access) (p : list str) (works : tree -> result IoErrorKind A * tree) torn m r : healthy m -> works m.(disk).(nodes) = (r, m.(disk).(nodes)) -> on_disk a p (fs_call works torn) m = (r, m).
Proof using Type. destruct m as [[n f] mo rn]. intros [Hf Hm] E. cbn in Hf, Hm. subst f. unfold on_disk, fs_call. cbn in *. by rewrite Hm, E. Qed.

(** A file that is as wanted is left so, with the mode it was given. *)
Lemma access_again t path mode owner m o m' : healthy m -> is_Some (node_at m.(disk).(nodes) (place path)) -> set_access t path mode owner false m = (o, m') ->
  o <> Applied /\ (owner = None -> o = NoChange).
Proof using Type.
  intros Hh [nd Hn]. unfold set_access. destruct (negb (is_unix t)); [by intros [= <- _]|].
  assert (E : exists m1, match mode ≫= parse_octal_mode with Some parsed => set_permissions (place path) parsed m | None => (Ok tt, m) end = (Ok tt, m1)).
  { destruct (mode ≫= parse_octal_mode) as [z|]; [|by eexists]. unfold set_permissions, metadata. rewrite (machine_disk_healthy _ _ _ _ m (Ok nd)); [by eexists|done|]. by rewrite Hn. }
  destruct E as [m1 ->]. destruct owner as [ow|]; [|by intros [= <- _]]. destruct (negb _); [by intros [= <- _]|]. destruct (run_ok _ m1) as [[] m2]; by intros [= <- _].
Qed.

Lemma remediate_again t path content mode owner m o m' : healthy m -> as_wanted path content m -> ways path m ->
  remediate_file t path content mode owner true m = (o, m') -> o <> Applied /\ m'.(disk).(nodes) = m.(disk).(nodes) /\ (owner = None -> o = NoChange).
Proof using Type.
  intros Hh (c & Hc & Hx) Hw. unfold remediate_file. cbn [negb].
  assert (E1 : match unsnoc (place path) with Some (q, _) => on_disk Makes q (create_dir_all q) m | None => (Ok tt, m) end = (Ok tt, m)).
  { destruct (unsnoc (place path)) as [[q n]|] eqn:E; [|done]. apply machine_disk_healthy; [done|]. apply mkdirs_again. exact (Hw q n E). }
  rewrite E1. assert (Hn : is_Some (node_at m.(disk).(nodes) (place path))) by (unfold seen in Hc; destruct (node_at _ (place path)); [by eexists|done]).
  assert (E2 : set_content path content m = (Ok false, m)).
  { unfold set_content. destruct content as [want|].
    - rewrite machine_read_healthy by done. unfold seen in Hc. rewrite Hc. cbn [default]. rewrite (Hx want eq_refl). by rewrite bool_decide_eq_true_2.
    - rewrite exists_healthy by done. by rewrite bool_decide_eq_true_2. }
  rewrite E2. intros H. pose proof (set_access_nodes _ _ _ _ _ _ _ _ H). by apply access_again in H as [? ?].
Qed.

Lemma remove_again t path content mode owner m : healthy m -> missing path m -> remediate_file t path content mode owner false m = (NoChange, m).
Proof using Type.
  intros Hh [Hn Ha]. unfold remediate_file, remove_file. cbn [negb]. rewrite (machine_disk_healthy _ _ _ _ m (Err NotFound)); [done..|]. by rewrite Hn, Ha.
Qed.

Lemma collected_files t order paths keys m st m' : collect_system_state t order paths keys m = (st, m') -> st.(files) = (collect_files paths ∅ m).1.
Proof.
  unfold collect_system_state. destruct (collect_files paths ∅ m) as [f m1]. destruct (collect_settings t keys ∅ m1) as [s m2]. intros H.
  destruct t; repeat match type of H with (let '(_, _) := ?x in _) = _ => destruct x end; by injection H as <- _.
Qed.

(** C30: A repair of the file at a plain path (absolute, without "." and "..") that reports
    success, as applied or as no change, leaves what is declared: nothing there, or something,
    which is the file with the content that is wanted if one is.  If no call fails from then on,
    and the mode and the owner that were set leave the process access, the state that is
    collected afterwards is found compliant, and a second repair leaves the files as they are
    and reports no change, except that it may fail where it has an owner to set. *)
Theorem file_remediated (sv : Semver) (h : Host) t path content mode owner present m o m' :
  plain path = true -> tree_ok m.(disk).(nodes) -> (forall x, content = Some x -> Forall is_scalar x) ->
  remediate t (File path content mode owner present) m = (o, m') -> o = Applied \/ o = NoChange ->
  match node_at m'.(disk).(nodes) (tail (split c_slash path)) with
  | None => present = false
  | Some n => present = true /\ forall x, content = Some x -> n = Fs.File (as_bytes x)
  end /\
  (healthy m' ->
   (forall order paths keys st m'', path ∈ paths -> collect_system_state t order paths keys m' = (st, m'') ->
      (check_declaration (File path content mode owner present) st).(severity) = Compliant) /\
   (forall o2 m2, remediate t (File path content mode owner present) m' = (o2, m2) ->
      o2 <> Applied /\ m2.(disk).(nodes) = m'.(disk).(nodes) /\ (owner = None \/ present = false -> o2 = NoChange))).
Proof using Type.
  intros Hp Hok Hs H Ho. cbn [remediate] in *.
  assert (Hpl : tail (split c_slash path) = place path) by (unfold place; by rewrite Hp). rewrite Hpl. clear Hp Hpl.
  assert (Hseen : healthy m' -> forall order paths keys st m'', path ∈ paths -> collect_system_state t order paths keys m' = (st, m'') -> st.(files) !! path = seen m' path).
  { intros Hh order paths keys st m'' Hin E. rewrite (collected_files _ _ _ _ _ _ _ E), collect_files_healthy by done. apply collect_files_lookup; [done|by left]. }
  destruct present.
  - destruct (remediated _ _ _ _ _ _ _ _ Hs H Ho) as [Ha Hw]. split; [by apply as_wanted_node|]. intros Hh. split.
    + intros order paths keys st m'' Hin E. apply check_declaration_compliant. cbn [satisfied]. rewrite (Hseen Hh _ _ _ _ _ Hin E). exact Ha.
    + intros o2 m2 E. destruct (remediate_again _ _ _ _ _ _ _ _ Hh Ha Hw E) as (H1 & H2 & H3). split_and!; [done..|]. by intros [?|?]; [apply H3|].
  - pose proof (removed _ _ _ _ _ _ _ _ Hok H Ho) as Hm. split; [by rewrite (proj1 Hm)|]. intros Hh. split.
    + intros order paths keys st m'' Hin E. apply check_declaration_compliant. cbn [satisfied]. rewrite (Hseen Hh _ _ _ _ _ Hin E). unfold seen. by rewrite (proj1 Hm).
    + intros o2 m2 E. rewrite remove_again in E by done. by injection E as <- <-.
Qed.

(** ** Which commands run *)

Ltac listed := cbn [map]; repeat first [apply list_elem_of_here | apply list_elem_of_further].

(** A command that a repair of [d] may run: the name of the service, the key of the setting and
    the owner have only the allowed characters, and each is within one argument. *)
Definition repairs (d : StateDeclaration) (c : Command) : Prop :=
  match d with
  | Service name _ _ => valid_service_name name = true /\
      (c.(program) = lit "systemctl" /\ (exists a, c.(args) = [a; name] /\ a ∈ map lit ["start"; "stop"; "enable"; "disable"]%string) \/
       c.(program) = lit "launchctl" /\ (exists a, c.(args) = [a; name] /\ a ∈ map lit ["load"; "unload"]%string) \/
       c.(program) = lit "sc" /\ ((exists a, c.(args) = [a; name] /\ a ∈ map lit ["start"; "stop"]%string) \/
                                  (exists a, c.(args) = [lit "config"; name; a] /\ a ∈ map lit ["start= auto"; "start= demand"]%string)))
  | File path _ _ (Some owner) true => c = cmd "chown" [owner; path] /\ forallb owner_char owner = true
  | Setting key value => c = cmd "sysctl" [lit "-w"; key ++ lit "=" ++ match value with JString s => s | JText t => t end] /\ key <> [] /\ forallb setting_char key = true
  | _ => False
  end.

Lemma run_ok_ran c m r m' : run_ok c m = (r, m') -> m'.(ran) = m.(ran) ++ [c].
Proof. unfold run_ok, output. by intros [= _ <-]. Qed.

Lemma on_disk_ran {A} a p (f : io A) m r m' : on_disk a p f m = (r, m') -> m'.(ran) = m.(ran).
Proof. unfold on_disk. destruct (may _ _ a p); [|by intros [= _ <-]]. destruct (f (disk m)). by intros [= _ <-]. Qed.

Lemma systemctl_repairs name d e a : valid_service_name name = true -> a ∈ map lit ["start"; "stop"; "enable"; "disable"]%string -> repairs (Service name d e) (cmd "systemctl" [a; name]).
Proof. intros Hv Ha. split; [done|]. left. split; [done|]. by exists a. Qed.
Lemma launchctl_repairs name d e a : valid_service_name name = true -> a ∈ map lit ["load"; "unload"]%string -> repairs (Service name d e) (cmd "launchctl" [a; name]).
Proof. intros Hv Ha. split; [done|]. right; left. split; [done|]. by exists a. Qed.
Lemma sc_repairs name d e a : valid_service_name name = true -> a ∈ map lit ["start"; "stop"]%string -> repairs (Service name d e) (cmd "sc" [a; name]).
Proof. intros Hv Ha. split; [done|]. right; right. split; [done|]. left. by exists a. Qed.
Lemma sc_config_repairs name d e (b : bool) : valid_service_name name = true ->
  repairs (Service name d e) (cmd "sc" [lit "config"; name; lit "start= " ++ (if b then lit "auto" else lit "demand")]).
Proof. intros Hv. split; [done|]. right; right. split; [done|]. right. eexists. split; [done|]. destruct b; listed. Qed.

Lemma service_ran t name desired enabled m o m' : remediate_service t name desired enabled m = (o, m') ->
  exists l, m'.(ran) = m.(ran) ++ l /\ (length l <= 2)%nat /\ Forall (repairs (Service name desired enabled)) l.
Proof.
  assert (H0 : forall x, exists l, ran x = ran x ++ l /\ (length l <= 2)%nat /\ Forall (repairs (Service name desired enabled)) l).
  { intros x. exists []. rewrite app_nil_r. split_and!; [done|cbn; lia|constructor]. }
  assert (H1 : forall (x y : Machine) c, ran y = ran x ++ [c] -> repairs (Service name desired enabled) c ->
    exists l, ran y = ran x ++ l /\ (length l <= 2)%nat /\ Forall (repairs (Service name desired enabled)) l).
  { intros x y c E Hc. exists [c]. split_and!; [done|cbn; lia|]. by apply Forall_singleton. }
  assert (H2 : forall (x y z : Machine) c c', ran y = ran x ++ [c] -> ran z = ran y ++ [c'] -> repairs (Service name desired enabled) c -> repairs (Service name desired enabled) c' ->
    exists l, ran z = ran x ++ l /\ (length l <= 2)%nat /\ Forall (repairs (Service name desired enabled)) l).
  { intros x y z c c' E E' Hc Hc'. exists [c; c']. split_and!; [by rewrite E', E, <- app_assoc|cbn; lia|]. by apply Forall_cons; split; [|apply Forall_singleton]. }
  unfold remediate_service. destruct (valid_service_name name) eqn:Ev; cbn [negb]; [|intros [= _ <-]; apply H0]. intros H. destruct t.
  - destruct (run_ok _ m) as [[[]|e] m1] eqn:E1; apply run_ok_ran in E1.
    + destruct (run_ok _ m1) as [r2 m2] eqn:E2. apply run_ok_ran in E2. assert (m' = m2) as -> by (destruct r2; by injection H).
      apply (H2 _ _ _ _ _ E1 E2); (apply systemctl_repairs; [done|]); [destruct desired|destruct enabled]; listed.
    + injection H as _ <-. apply (H1 _ _ _ E1), systemctl_repairs; [done|]. destruct desired; listed.
  - destruct (run_ok _ m) as [r1 m1] eqn:E1; apply run_ok_ran in E1. assert (m' = m1) as -> by (destruct r1; by injection H).
    apply (H1 _ _ _ E1), launchctl_repairs; [done|]. destruct desired; listed.
  - destruct (run_ok _ m) as [r1 m1] eqn:E1; apply run_ok_ran in E1.
    assert (Hc : repairs (Service name desired enabled) (cmd "sc" [match desired with Running => lit "start" | Stopped => lit "stop" end; name])) by (apply sc_repairs; [done|]; destruct desired; listed).
    destruct (match r1 with Ok _ => false | Err _ => _ end); [injection H as _ <-; by apply (H1 _ _ _ E1)|].
    destruct (run_ok _ m1) as [r2 m2] eqn:E2. apply run_ok_ran in E2. assert (m' = m2) as -> by (destruct r2; by injection H).
    apply (H2 _ _ _ _ _ E1 E2); [done|]. by apply sc_config_repairs.
  - injection H as _ <-. apply H0.
Qed.

Lemma content_ran path content m r m' : set_content path content m = (r, m') -> m'.(ran) = m.(ran).
Proof.
  unfold set_content, read_to_string, exists_path. destruct content as [want|].
  - destruct (on_disk _ _ (read _) m) as [r1 m1] eqn:E1. apply on_disk_ran in E1. case_bool_decide; [by intros [= _ <-]|].
    destruct (on_disk _ _ (write _ _) m1) as [r2 m2] eqn:E2. apply on_disk_ran in E2. destruct r2; intros [= _ <-]; congruence.
  - destruct (on_disk _ _ (metadata _) m) as [r1 m1] eqn:E1. apply on_disk_ran in E1. destruct (is_ok r1); [by intros [= _ <-]|]. destruct (on_disk _ _ (create _) _) as [r2 m2] eqn:E2. apply on_disk_ran in E2.
    destruct r2; intros [= _ <-]; congruence.
Qed.

Lemma access_ran t path mode owner changed m o m' : set_access t path mode owner changed m = (o, m') ->
  m'.(ran) = m.(ran) \/ exists ow, owner = Some ow /\ forallb owner_char ow = true /\ m'.(ran) = m.(ran) ++ [cmd "chown" [ow; path]].
Proof.
  unfold set_access. destruct (negb (is_unix t)); [intros [= _ <-]; by left|].
  destruct (match mode ≫= parse_octal_mode with Some _ => _ | None => _ end) as [r m1] eqn:E.
  assert (E1 : m1.(ran) = m.(ran)).
  { destruct (mode ≫= parse_octal_mode); [|by injection E as _ <-]. unfold set_permissions in E. destruct (on_disk _ _ _ m) as [r0 m0] eqn:E0. apply on_disk_ran in E0.
    destruct r0; by injection E as _ <-. }
  destruct r; [|intros [= _ <-]; by left]. destruct owner as [ow|]; [|intros [= _ <-]; by left]. destruct (forallb owner_char ow) eqn:Eo; cbn [negb]; [|intros [= _ <-]; by left].
  destruct (run_ok _ m1) as [r2 m2] eqn:E2. apply run_ok_ran in E2. intros H. assert (m' = m2) as -> by (destruct r2; by injection H). right. exists ow. split_and!; [done..|congruence].
Qed.

(** A repair runs nothing but the service manager of the system, on the service, at most
    twice; [sysctl] on the setting; [chown] on the file; by their arguments, never through a
    shell, and only where the name, the key and the owner have the characters allowed. *)
Theorem repair_commands t d m o m' : remediate t d m = (o, m') -> exists l, m'.(ran) = m.(ran) ++ l /\ (length l <= 2)%nat /\ Forall (repairs d) l.
Proof.
  assert (H0 : forall x : Machine, exists l, ran x = ran x ++ l /\ (length l <= 2)%nat /\ Forall (repairs d) l).
  { intros x. exists []. rewrite app_nil_r. split_and!; [done|cbn; lia|constructor]. }
  destruct d as [n v p|n s e|path c md ow p|r p|n g p|k v|n c f]; cbn [remediate]; try (intros [= _ <-]; apply H0); [apply service_ran| |].
  - unfold remediate_file. destruct p; cbn [negb].
    + destruct (match unsnoc (place path) with Some _ => _ | None => _ end) as [r1 m1] eqn:E1.
      assert (Hr : m1.(ran) = m.(ran)) by (destruct (unsnoc (place path)) as [[q x]|]; [by apply on_disk_ran in E1|by injection E1 as _ <-]).
      destruct r1; [|intros [= _ <-]; rewrite Hr; apply H0]. destruct (set_content path c m1) as [r2 m2] eqn:E2. apply content_ran in E2.
      destruct r2; [|intros [= _ <-]; rewrite E2, Hr; apply H0]. intros H. apply access_ran in H as [H|(o' & -> & Ho & H)]; rewrite H, E2, Hr; [apply H0|].
      eexists. split_and!; [done|cbn; lia|]. by apply Forall_singleton.
    + destruct (on_disk _ _ _ m) as [r1 m1] eqn:E1. apply on_disk_ran in E1. intros H. assert (m' = m1) as -> by (repeat case_match; by injection H). rewrite E1. apply H0.
  - unfold remediate_setting. destruct (bool_decide (k = []) || negb (forallb setting_char k)) eqn:Ek; [intros [= _ <-]; apply H0|].
    apply orb_false_iff in Ek as [Ek%bool_decide_eq_false Ek'%negb_false_iff]. destruct t; try (intros [= _ <-]; apply H0).
    destruct (run_ok _ m) as [r1 m1] eqn:E1. apply run_ok_ran in E1. intros H. assert (m' = m1) as -> by (destruct r1; by injection H). rewrite E1.
    eexists. split_and!; [done|cbn; lia|]. by apply Forall_singleton.
Qed.

(** A mode that does not parse is not set, and nothing is said of it. *)
Theorem bad_mode_ignored t path mode owner changed m : parse_octal_mode mode = None ->
  set_access t path (Some mode) owner changed m = set_access t path None owner changed m.
Proof. intros E. unfold set_access. cbn [mbind option_bind]. by rewrite E. Qed.
End Machine.

(** ** Reading listings back *)

(** A line of [systemctl list-units]. *)
Definition unit_text (u : str * bool) : str := join_str (lit " ") [u.1 ++ lit ".service"; lit "loaded"; if u.2 then lit "active" else lit "inactive"; lit "running"].

Lemma unit_line_text u : word u.1 -> unit_line (unit_text u) = Some u.
Proof.
  intros [Hn Hw]. unfold unit_line, unit_text. rewrite words_join.
  - unfold unit_name. rewrite (proj2 (strip_suffix_spec (lit ".service") (u.1 ++ lit ".service") u.1)) by done. cbn [default]. by destruct u as [n []].
  - repeat constructor; cbn [fst snd]; try (by destruct u as [? []]); [by intros [? ?]%app_nil|]. rewrite forallb_app, Hw. done.
Qed.

Lemma unit_one_line u : word u.1 -> one_line (unit_text u).
Proof.
  intros [Hn Hw]. unfold unit_text. assert (Hc : contains_char c_nl u.1 = false).
  { apply (contains_char_absent (fun c => negb (is_whitespace c))); [|done]. intros d Hd. apply forallb_forall with (x := d) in Hw; [done|by apply list_elem_of_In]. }
  split.
  - cbn [join_str]. rewrite !contains_char_app, Hc. by destruct u as [? []].
  - cbn [join_str]. rewrite !app_assoc. rewrite last_app. done.
Qed.

(** The units that systemd lists, each with a name of its own, are read back with their state. *)
Theorem units_read us n a : Forall (fun u => word u.1) us -> NoDup (map fst us) -> (n, a) ∈ us -> table unit_line (unlines (map unit_text us)) ∅ !! n = Some a.
Proof.
  intros Hw Hd Hin. unfold table. rewrite lines_unlines by (apply Forall_map; eapply Forall_impl; [exact Hw|intros u Hu; by apply unit_one_line]).
  assert (Hread : forall acc : gmap str bool, foldl (fun (acc : gmap str bool) l => match unit_line l with Some (k, v) => <[k := v]> acc | None => acc end) acc (map unit_text us) = foldl (fun (acc : gmap str bool) u => <[u.1 := u.2]> acc) acc us).
  { clear Hd Hin. induction Hw as [|u us Hu _ IH]; intros acc; [done|]. cbn [map foldl]. rewrite unit_line_text by done. destruct u. apply IH. }
  rewrite Hread. clear Hread Hw. generalize (∅ : gmap str bool) as acc. induction us as [|u us IH]; intros acc; [by apply elem_of_nil in Hin|].
  cbn [map] in Hd. apply NoDup_cons in Hd as [Hnot Hd]. cbn [foldl]. apply elem_of_cons in Hin as [<-|Hin]; [|by apply IH]. cbn [fst snd].
  assert (Hk : forall l (acc : gmap str bool), n ∉ map fst l -> foldl (fun (acc : gmap str bool) u => <[u.1 := u.2]> acc) acc l !! n = acc !! n).
  { induction l as [|u l IHl]; intros b Hb; [done|]. cbn [map] in Hb. apply not_elem_of_cons in Hb as [H1 H2]. cbn [foldl]. rewrite IHl by done. by rewrite lookup_insert_ne. }
  rewrite Hk by done. apply lookup_insert_eq.
Qed.

Module RemedyExamples.
Definition no_os (h : list Command) (c : Command) : result str Output := Ok {| code := Some 0; stdout := []; stderr := [] |}.
Definition no_io (e : IoErrorKind) : str := [].
Definition no_env (k : str) : option str := None.
Definition no_semver : Semver := {| VersionReq := unit; Version := unit; parse_req := fun _ => None; parse_version := fun _ => None; req_matches := fun _ _ => true |}.
Definition no_host : Host := {| nft := None; iptables_save := None; ip6tables_save := None; shell := fun _ => Err [] |}.
Definition blank : Machine := {| disk := {| nodes := ∅; fates := [] |}; modes := ∅; ran := [] |}.
Definition motd : StateDeclaration := File (lit "/etc/motd") (Some (lit "hi")) (Some (lit "0644")) None true.
Definition nowhere (path : str) : list str := [].

(** A user who owns the files: the bits of the owner decide. *)
Definition user_may (modes : gmap (list str) Z) (ran : list Command) (a : Access) (p : list str) : bool :=
  match modes !! p, a with
  | Some z, Reads => Z.testbit z 8
  | Some z, Writes => Z.testbit z 7
  | _, _ => true
  end.
Abbreviation fix_file := (remediate no_os no_io nowhere user_may Linux).
Definition repaired : RemediationOutcome * Machine := fix_file motd blank.

Lemma blank_ok : tree_ok blank.(disk).(nodes).
Proof. intros p q b. cbn. by rewrite lookup_empty. Qed.

Lemma repaired_healthy : healthy user_may repaired.2.
Proof.
  split; [reflexivity|]. intros a p. assert (E : repaired.2.(modes) = {[ [lit "etc"; lit "motd"] := 420 ]}) by (vm_compute; reflexivity).
  unfold user_may. rewrite E. destruct (decide (p = [lit "etc"; lit "motd"])) as [->|Hne]; [rewrite lookup_singleton_eq; by destruct a|].
  by rewrite lookup_singleton_ne by done.
Qed.

Lemma file_remediated_witness : repaired.1 = Applied /\ (fix_file motd repaired.2).1 = NoChange.
Proof.
  assert (E : fix_file motd blank = (Applied, repaired.2)) by (vm_compute; reflexivity). split; [exact (f_equal fst E)|].
  assert (Hs : forall x, Some (lit "hi") = Some x -> Forall is_scalar x) by (intros x [= <-]; apply lit_scalar).
  destruct (file_remediated no_os no_io no_env nowhere user_may no_semver no_host Linux (lit "/etc/motd") (Some (lit "hi")) (Some (lit "0644")) None true
    blank Applied repaired.2 eq_refl blank_ok Hs E (or_introl eq_refl)) as [_ Hafter].
  destruct (Hafter repaired_healthy) as [_ Hagain]. exact (proj2 (proj2 (Hagain _ _ (surjective_pairing _))) (or_introl eq_refl)).
Defined.

(** A mode that takes the owner's access away makes the next repair fail. *)
Lemma locked_out : let m := (fix_file (File (lit "/etc/motd") (Some (lit "hi")) (Some (lit "000")) None true) blank) in
  m.1 = Applied /\ (fix_file motd m.2).1 = Failed (lit "write /etc/motd: ").
Proof. by vm_compute. Qed.

Lemma repair_commands_witness : exists l, (fix_file (Service (lit "nginx") Running true) blank).2.(ran) = [] ++ l /\ (length l <= 2)%nat /\ Forall (repairs (Service (lit "nginx") Running true)) l.
Proof.
  exact (repair_commands no_os no_io nowhere user_may Linux (Service (lit "nginx") Running true) blank _ _ (surjective_pairing _)).
Defined.

(** A unit that failed is listed behind a bullet, which is taken for its name: the service is not found. *)
Theorem failed_unit_lost : table unit_line ([9679] ++ lit " nginx.service loaded failed failed The server") ∅ = {[ [9679] := false ]}.
Proof. vm_compute. reflexivity. Qed.

(** A package that is not installed is collected. *)
Theorem not_installed_collected : dpkg_line (lit "vim" ++ [c_tab] ++ lit "9.0" ++ [c_tab] ++ lit "unknown ok not-installed") = Some (lit "vim", lit "9.0").
Proof. vm_compute. reflexivity. Qed.

(** A user's own group is not among the groups collected. *)
Definition staff : gmap str (list str) := foldl group_line (table passwd_line (lit "ann:x:1000:50::/home/ann:/bin/sh") ∅) [lit "staff:x:50:"].
Theorem own_group_lost : staff !! lit "ann" = Some [].
Proof. vm_compute. reflexivity. Qed.

(** Setting the mode is reported as no change. *)
Theorem chmod_unreported : let m := (fix_file (File (lit "/etc/motd") (Some (lit "hi")) None None true) blank).2 in
  let r := fix_file motd m in r.1 = NoChange /\ m.(modes) !! [lit "etc"; lit "motd"] = None /\ r.2.(modes) !! [lit "etc"; lit "motd"] = Some 420.
Proof. vm_compute. by split_and!. Qed.

(** Names and owners that a program reads as its options are let through. *)
Theorem options_pass : valid_service_name (lit "--force") = true /\ forallb owner_char (lit "-R") = true.
Proof. by vm_compute. Qed.
End RemedyExamples.
