(* ===== verification/Workload.v ===== *)
(** * What the workload drivers share ([runesh-workload/src/lib.rs])

    The data of the drivers, the TLS settings of their HTTP clients, and the way a driver
    talks to a hypervisor: a small monad over the history of what was sent and how long was
    waited.  What a server answers ([send]), the clocks and the reading of a certificate are
    functions of that history ([Net]).  The clients have no timeout, so a request may never be
    answered; then the operation [Hangs].  A panic, which [redact_sensitive] can raise, is an
    outcome as well, and so is [Unfinished], a loop that ran out of fuel, which [Proxmox]
    excludes. *)
From S2P Require Import Prelude Str Redact.

#[local] Open Scope Z_scope.

(** ** Data *)

Inductive WorkloadType : Type := Vm | Container | Pod | LxcContainer | Jail.

Inductive WorkloadState : Type := Running | Stopped | Paused | Creating | Migrating | InError | Unknown.

Record Workload := {
  id : str;
  name : str;
  workload_type : WorkloadType;
  state : WorkloadState;
  cpu_cores : option Z;
  memory_mb : option Z;
  disk_gb : option Z;
  image : option str;
  host : option str;
  ips : list str
}.

Record WorkloadSnapshot := {
  snap_id : str;
  workload_id : str;
  snap_name : str;
  created_at : str;
  size_bytes : option Z
}.

Inductive TlsConfig : Type :=
  | Verify
  | AcceptInvalidCerts
  | CustomCa (path : str)
  | PinnedFingerprint (sha256 : list byte).

Definition transient (msg : str) : WorkloadError := OperationFailed Transient msg.
Definition auth (msg : str) : WorkloadError := OperationFailed Auth msg.
Definition conflict (msg : str) : WorkloadError := OperationFailed Conflict msg.

(** ** HTTP *)

Inductive Method : Type := GET | POST | PUT | PATCH | DELETE.

Inductive Body : Type :=
  | NoBody
  | Form (fields : list (str * str))
  | JsonObject (fields : list (str * Z)).

Record Request := {
  method : Method;
  url : str;
  headers : list (str * str);
  basic_auth : option (str * str);
  body : Body
}.

Record Response := { status : Z; text : result str str }.

(** A [reqwest::Client], as far as its builder is used: whether it checks certificates, and
    the authorities that were added. *)
Record Client := { accept_invalid_certs : bool; root_certificates : list str }.

Inductive event : Type :=
  | Sent (c : Client) (r : Request)
  | Slept (ms : Z).

Definition hist := list event.

(** What is outside: the answer to a request, with its body ([None] where it never comes), the
    monotonic clock in milliseconds, the time of day in seconds, the display of a status, and the
    reading and parsing of a PEM file. *)
Class Net := {
  send : hist -> Client -> Request -> option (result str Response);
  now : hist -> Z;
  utc : hist -> Z;
  show_status : Z -> str;
  read_file : str -> result str (list byte);
  from_pem : list byte -> result str str;
  host_parse : str -> result str unit
}.

(** The clock does not run backwards, and a pause lasts at least as long as it was asked to. *)
Class NetLaws (N : Net) : Prop := {
  now_grows h e : now h <= now (h ++ [e]);
  now_slept h ms : now h + ms <= now (h ++ [Slept ms])
}.

(** ** Effects *)

Inductive outcome (A : Type) : Type :=
  | Ret (a : A)
  | Fail (e : WorkloadError)
  | Panic
  | Hangs
  | Unfinished.
Arguments Ret {A} a.
Arguments Fail {A} e.
Arguments Panic {A}.
Arguments Hangs {A}.
Arguments Unfinished {A}.

(** [S] is what the driver itself keeps. *)
Definition M (S A : Type) : Type := S * hist -> outcome A * (S * hist).

Section effects.
Context {S : Type}.

Definition ret {A} (a : A) : M S A := fun w => (Ret a, w).
Definition fail {A} (e : WorkloadError) : M S A := fun w => (Fail e, w).
Definition bind {A B} (m : M S A) (k : A -> M S B) : M S B := fun w =>
  match m w with
  | (Ret a, w') => k a w'
  | (Fail e, w') => (Fail e, w')
  | (Panic, w') => (Panic, w')
  | (Hangs, w') => (Hangs, w')
  | (Unfinished, w') => (Unfinished, w')
  end.

Definition history : M S hist := fun w => (Ret w.2, w).
Definition read_state : M S S := fun w => (Ret w.1, w).
Definition write_state (s : S) : M S unit := fun w => (Ret tt, (s, w.2)).
Definition sleep (ms : Z) : M S unit := fun w => (Ret tt, (w.1, w.2 ++ [Slept ms])).
Definition unfinished {A} : M S A := fun w => (Unfinished, w).

(** [Result] with [map_err] and [?]. *)
Definition or_fail {E A} (f : E -> WorkloadError) (r : result E A) : M S A :=
  match r with Ok a => ret a | Err e => fail (f e) end.
Definition or_panic {A} (o : option A) : M S A := fun w => match o with Some a => (Ret a, w) | None => (Panic, w) end.

Definition redact (s : str) : M S str := or_panic (redact_sensitive s).

Context `{N : Net}.

Definition request (c : Client) (r : Request) : M S (result str Response) := fun w =>
  (match send w.2 c r with Some answer => Ret answer | None => Hangs end, (w.1, w.2 ++ [Sent c r])).

End effects.

Notation "x ⇐ m ; k" := (bind m (fun x => k)) (at level 20, m at level 100, k at level 200, only parsing).
Notation "m ;; k" := (bind m (fun _ => k)) (at level 100, k at level 200, only parsing).

Definition is_success (status : Z) : bool := (200 <=? status) && (status <? 300).
Definition is_server_error (status : Z) : bool := (500 <=? status) && (status <? 600).

(** [resp.text().await.unwrap_or_default()] *)
Definition text_or_default (resp : Response) : str := default [] (ok resp.(text)).

(** [resp.json()], with the deserializer of the type. *)
Definition json {A} (parse : str -> result str A) (resp : Response) : result str A :=
  t ← resp.(text); parse t.

Section client.
Context `{N : Net} {S : Type}.

(** [build_client] of the driver [driver], whose builder fails with "[ctx]: ...". *)
Definition build_client (driver : str) (tls : TlsConfig) : result WorkloadError Client :=
  match tls with
  | Verify => Ok {| accept_invalid_certs := false; root_certificates := [] |}
  | AcceptInvalidCerts => Ok {| accept_invalid_certs := true; root_certificates := [] |}
  | CustomCa path =>
      match read_file path with
      | Err e => Err (DriverError (lit "read CA " ++ path ++ lit ": " ++ e))
      | Ok pem =>
          match from_pem pem with
          | Err e => Err (DriverError (lit "parse CA: " ++ e))
          | Ok cert => Ok {| accept_invalid_certs := false; root_certificates := [cert] |}
          end
      end
  | PinnedFingerprint _ => Err (NotSupported (lit "pinned fingerprint TLS not implemented for " ++ driver))
  end.

Definition classify_status (status : Z) (body : str) : M S WorkloadError :=
  msg ⇐ redact (lit "HTTP " ++ show_status status ++ lit ": " ++ body);
  ret (if (status =? 401) || (status =? 403) then auth msg
       else if status =? 404 then NotFound msg
       else if status =? 409 then conflict msg
       else if status =? 429 then transient msg
       else if is_server_error status then transient msg
       else permanent msg).

(** The error of a refused login. *)
Definition auth_failed (what : str) (resp : Response) : M S WorkloadError :=
  msg ⇐ redact (what ++ show_status resp.(status) ++ lit ": " ++ text_or_default resp);
  ret (if (resp.(status) =? 401) || (resp.(status) =? 403) then auth msg
       else if is_server_error resp.(status) || (resp.(status) =? 429) then transient msg
       else permanent msg).

(** The check of the status every operation makes of its answer. *)
Definition checked (resp : Response) : M S Response :=
  if is_success resp.(status) then ret resp
  else e ⇐ classify_status resp.(status) (text_or_default resp); fail e.

End client.

(** ** Reasoning *)

(** The history grew by events that were each allowed when they happened. *)
Inductive traced (P : hist -> event -> Prop) (h : hist) : hist -> Prop :=
  | traced_nil : traced P h h
  | traced_snoc h' e : traced P h h' -> P h' e -> traced P h (h' ++ [e]).

Lemma traced_trans P h1 h2 h3 : traced P h1 h2 -> traced P h2 h3 -> traced P h1 h3.
Proof. intros H12 H23. induction H23; [done|by constructor]. Qed.

Lemma traced_app P h h' : traced P h h' -> exists es, h' = h ++ es.
Proof. induction 1 as [|h' e _ [es ->] _]; [exists []; by rewrite app_nil_r|]. exists (es ++ [e]). by rewrite <- app_assoc. Qed.

(** Every event of the new part was allowed after what precedes it. *)
Lemma traced_split P h h' : traced P h h' -> forall es1 e es2, h' = h ++ es1 ++ e :: es2 -> P (h ++ es1) e.
Proof.
  induction 1 as [|h' e' Hh' IH HP]; intros es1 e es2 Heq.
  - exfalso. apply (f_equal length) in Heq. rewrite !length_app in Heq. cbn in Heq. lia.
  - destruct es2 as [|x es2 _] using rev_ind.
    + rewrite app_assoc in Heq. apply app_inj_tail in Heq as [-> ->]. done.
    + replace (h ++ es1 ++ e :: es2 ++ [x]) with ((h ++ es1 ++ e :: es2) ++ [x]) in Heq by (rewrite <- !app_assoc; done).
      apply app_inj_tail in Heq as [-> _]. by eapply IH.
Qed.

(** [m], started where [pre] holds, only does what [P] allows and ends where [post] holds. *)
Definition triple {S A} (P : hist -> event -> Prop) (pre : S -> hist -> Prop) (m : M S A) (post : outcome A -> S -> hist -> Prop) : Prop :=
  forall s h out s' h', pre s h -> m (s, h) = (out, (s', h')) -> traced P h h' /\ post out s' h'.

(** After a result [Q] holds of it; after anything else [I] does. *)
Definition either {S A} (I : S -> hist -> Prop) (Q : A -> S -> hist -> Prop) (o : outcome A) : S -> hist -> Prop :=
  match o with Ret a => Q a | _ => I end.

Section rules.
Context {S : Type} (P : hist -> event -> Prop).

Lemma triple_ret {A} (I pre : S -> hist -> Prop) (Q : A -> S -> hist -> Prop) (a : A) :
  (forall s h, pre s h -> Q a s h) -> triple P pre (ret a) (either I Q).
Proof. intros H s h out s' h' Hp [= <- <- <-]. split; [constructor|]. by apply H. Qed.

Lemma triple_fail {A} (I pre : S -> hist -> Prop) (Q : A -> S -> hist -> Prop) e :
  (forall s h, pre s h -> I s h) -> triple P pre (fail e) (either I Q).
Proof. intros H s h out s' h' Hp [= <- <- <-]. split; [constructor|]. by apply H. Qed.

Lemma triple_bind {A B} (I pre : S -> hist -> Prop) (mid : A -> S -> hist -> Prop) (Q : B -> S -> hist -> Prop) m k :
  triple P pre m (either I mid) -> (forall a, triple P (mid a) (k a) (either I Q)) -> triple P pre (bind m k) (either I Q).
Proof.
  intros Hm Hk s h out s' h' Hp H. unfold bind in H. destruct (m (s, h)) as [o [s1 h1]] eqn:E.
  destruct (Hm _ _ _ _ _ Hp E) as [Ht Hmid]. destruct o; cbn in Hmid; [|by simplify_eq..].
  destruct (Hk a _ _ _ _ _ Hmid H) as [Ht' HQ]. split; [by eapply traced_trans|done].
Qed.

Lemma triple_or_fail {E A} (I pre : S -> hist -> Prop) (f : E -> WorkloadError) (r : result E A) :
  (forall s h, pre s h -> I s h) -> triple P pre (or_fail f r) (either I (fun a s h => pre s h /\ r = Ok a)).
Proof. intros H. destruct r; [by apply triple_ret|by apply triple_fail]. Qed.

Lemma triple_redact (I pre : S -> hist -> Prop) s :
  (forall s h, pre s h -> I s h) -> triple P pre (redact s) (either I (fun _ => pre)).
Proof. intros H s0 h out s' h' Hp. unfold redact, or_panic. destruct (redact_sensitive s); intros [= <- <- <-]; split; try constructor; cbn; auto. Qed.

Lemma triple_weaken {A} (pre pre' : S -> hist -> Prop) (m : M S A) (post post' : outcome A -> S -> hist -> Prop) :
  (forall s h, pre s h -> pre' s h) -> (forall o s h, post' o s h -> post o s h) -> triple P pre' m post' -> triple P pre m post.
Proof. intros H1 H2 Hm s h out s' h' Hp E. destruct (Hm _ _ _ _ _ (H1 _ _ Hp) E). eauto. Qed.

Context `{N : Net}.

Lemma triple_checked (I pre : S -> hist -> Prop) resp :
  (forall s h, pre s h -> I s h) -> triple P pre (checked resp) (either I (fun r s h => pre s h /\ r = resp /\ is_success resp.(status) = true)).
Proof.
  intros H. unfold checked. destruct (is_success (status resp)) eqn:E; [by apply triple_ret|].
  eapply triple_bind; [eapply triple_bind; [by apply triple_redact|]|].
  - intros msg. eapply (triple_ret I pre (fun _ => pre)). done.
  - intros e. by apply triple_fail.
Qed.

End rules.

Lemma bind_ret_inv {S A B} (m : M S A) (k : A -> M S B) w b w' :
  bind m k w = (Ret b, w') -> exists a w1, m w = (Ret a, w1) /\ k a w1 = (Ret b, w').
Proof. unfold bind. destruct (m w) as [[a|e| | |] w1]; intros H; by eauto || by inversion H. Qed.

Lemma or_fail_inv {S E A} (f : E -> WorkloadError) (r : result E A) (w : S * hist) a w' :
  or_fail f r w = (Ret a, w') -> r = Ok a /\ w' = w.
Proof. destruct r; intros H; by inversion H. Qed.

Lemma checked_inv `{N : Net} {S} resp (w : S * hist) r w' :
  checked resp w = (Ret r, w') -> r = resp /\ w' = w /\ is_success resp.(status) = true.
Proof.
  unfold checked. destruct (is_success (status resp)) eqn:E; intros H; [by inversion H|].
  by apply bind_ret_inv in H as (e & w1 & _ & [=]).
Qed.

(** What a [bind] does with each of the steps. *)
Definition ends {A} (o : outcome A) : Prop := match o with Fail _ | Panic => True | _ => False end.
Definition stops {A} (o : outcome A) : Prop := match o with Fail _ | Panic | Hangs => True | _ => False end.

Section steps.
Context `{N : Net} {S A B : Type}.
Implicit Types (w : S * hist).

Lemma request_inv c r (s : S) h out s' h' : request c r (s, h) = (out, (s', h')) ->
  s' = s /\ h' = h ++ [Sent c r] /\ out = match send h c r with Some answer => Ret answer | None => Hangs end.
Proof. unfold request. cbn [fst snd]. destruct (send h c r); by intros [= <- <- <-]. Qed.

Lemma bind_request c r (k : result str Response -> M S B) s h :
  bind (request c r) k (s, h) = match send h c r with Some answer => k answer (s, h ++ [Sent c r]) | None => (Hangs, (s, h ++ [Sent c r])) end.
Proof. unfold bind, request. cbn [fst snd]. by destruct (send h c r). Qed.

Lemma bind_or_fail_ok {E} (f : E -> WorkloadError) (a : A) (k : A -> M S B) w : bind (or_fail f (Ok a)) k w = k a w.
Proof. done. Qed.

Lemma bind_or_fail_err {E} (f : E -> WorkloadError) e (k : A -> M S B) w : bind (or_fail f (Err e)) k w = (Fail (f e), w).
Proof. done. Qed.

Lemma bind_checked_ok resp (k : Response -> M S B) w : is_success resp.(status) = true -> bind (checked resp) k w = k resp w.
Proof. intros H. unfold checked. by rewrite H. Qed.

Lemma bind_checked_err resp (k : Response -> M S B) w :
  is_success resp.(status) = false -> exists o, bind (checked resp) k w = (o, w) /\ ends o.
Proof.
  intros H. unfold checked, classify_status, bind, redact, or_panic, ret, fail. rewrite H.
  destruct (redact_sensitive _); eexists; split; done.
Qed.

Lemma redact_fail s (e : str -> WorkloadError) w : exists o : outcome B, bind (redact s) (fun x => fail (e x)) w = (o, w) /\ ends o.
Proof. unfold bind, redact, or_panic, fail. destruct (redact_sensitive s); eexists; split; done. Qed.

End steps.

(** ** How answers are classified *)

(** The kind of an error tells whether a retry can help: only an overloaded or failing
    server gives a transient error, and each of the other kinds stands for its statuses. *)
Lemma classified `{N : Net} {S} status body (w : S * hist) e w' :
  classify_status status body w = (Ret e, w') ->
  w' = w
  /\ (is_transient e = true <-> status = 429 \/ 500 <= status < 600)
  /\ ((exists m, e = OperationFailed Auth m) <-> status = 401 \/ status = 403)
  /\ ((exists m, e = NotFound m) <-> status = 404)
  /\ ((exists m, e = OperationFailed Conflict m) <-> status = 409).
Proof.
  intros H. apply bind_ret_inv in H as (msg & w1 & Hr & [= <- <-]). split.
  { unfold redact, or_panic in Hr. case_match; by inversion Hr. }
  unfold is_server_error, transient, auth, conflict, permanent.
  destruct (Z.eqb_spec status 401), (Z.eqb_spec status 403), (Z.eqb_spec status 404), (Z.eqb_spec status 409),
    (Z.eqb_spec status 429), (Z.leb_spec 500 status), (Z.ltb_spec status 600); cbn; try lia;
    repeat split; try done; try lia; try (intros [m [=]]); eauto; try (intros; lia); try (by intros [=]).
Qed.
