(* ===== verification/Proxmox.v ===== *)
(** * The Proxmox VE driver ([runesh-proxmox/src/lib.rs])

    An operation of the driver sends a request to the node and, where Proxmox answers with the
    identifier of a task, polls the task until it stops, ten minutes have passed or the caller
    cancels.  What [serde_json] reads in an answer is a parameter ([Pve]); a cancellation token
    is a function of the history.  The theorems state what a successful operation means, that
    every operation ends after a bounded number of polls unless the server stops answering, and
    where the credentials go.  [driver_name] and the
    operations that only answer [NotSupported] have no state. *)
From S2P Require Import Prelude Str Text Redact Workload.

#[local] Open Scope Z_scope.

Inductive ProxmoxAuth : Type :=
  | Token (id secret : str)
  | Ticket (ticket csrf : str).

Record ProxmoxDriver := {
  client : Client;
  base_url : str;
  node : str;
  credentials : ProxmoxAuth
}.

Record PveVm := {
  vmid : Z;
  vm_name : option str;
  vm_status : str;
  cpus : option Z;
  maxmem : option Z;
  maxdisk : option Z
}.

Record PveSnapshot := { pve_name : str; snaptime : option Z }.

Record PveTaskStatus := { task_status : option str; exitstatus : option str }.

(** The deserializers of the types above, each of the [data] of the answer.  [parse_login]
    gives the strings of the object; [data_str] the string at [data], if the text is a JSON
    object with one. *)
Class Pve := {
  parse_vms : str -> result str (list PveVm);
  parse_vm : str -> result str PveVm;
  parse_snaps : str -> result str (list PveSnapshot);
  parse_task : str -> result str PveTaskStatus;
  parse_login : str -> result str (str -> option str);
  data_str : str -> option str;
  to_rfc3339 : Z -> str
}.

(** Nothing is not JSON. *)
Class PveLaws (J : Pve) : Prop := { data_str_nil : data_str [] = None }.

Section proxmox.
Context `{N : Net} `{J : Pve}.

Abbreviation IO := (M unit).

(** ** Connecting *)

Definition base_of (h : str) : str := lit "https://" ++ h ++ lit ":8006/api2/json".

Definition with_token_tls (h nd token_id token_secret : str) (tls : TlsConfig) : IO ProxmoxDriver :=
  r ⇐ or_panic (validate_host host_parse h);
  or_fail (fun e => e) r ;;
  c ⇐ or_fail (fun e => e) (build_client (lit "proxmox") tls);
  ret {| client := c; base_url := base_of h; node := nd; credentials := Token token_id token_secret |}.
Definition with_token (h nd token_id token_secret : str) : IO ProxmoxDriver := with_token_tls h nd token_id token_secret Verify.

Definition with_password_tls (h nd username password : str) (tls : TlsConfig) : IO ProxmoxDriver :=
  r ⇐ or_panic (validate_host host_parse h);
  or_fail (fun e => e) r ;;
  c ⇐ or_fail (fun e => e) (build_client (lit "proxmox") tls);
  answer ⇐ request c {| method := POST; url := base_of h ++ lit "/access/ticket"; headers := []; basic_auth := None;
                        body := Form [(lit "username", username); (lit "password", password)] |};
  resp ⇐ or_fail (fun e => transient (lit "auth: " ++ e)) answer;
  if negb (is_success resp.(status)) then e ⇐ auth_failed (lit "auth failed ") resp; fail e
  else
    parsed ⇐ or_fail (fun e => transient (lit "auth parse: " ++ e)) (json parse_login resp);
    let ticket := default [] (parsed (lit "ticket")) in
    let csrf := default [] (parsed (lit "CSRFPreventionToken")) in
    if bool_decide (ticket = []) || bool_decide (csrf = []) then fail (auth (lit "Proxmox returned empty ticket/CSRF"))
    else ret {| client := c; base_url := base_of h; node := nd; credentials := Ticket ticket csrf |}.
Definition with_password (h nd username password : str) : IO ProxmoxDriver := with_password_tls h nd username password Verify.

(** ** Requests *)

Definition auth_headers (d : ProxmoxDriver) : list (str * str) :=
  match d.(credentials) with
  | Token i secret => [(lit "Authorization", lit "PVEAPIToken=" ++ i ++ lit "=" ++ secret)]
  | Ticket ticket csrf => [(lit "Cookie", lit "PVEAuthCookie=" ++ ticket); (lit "CSRFPreventionToken", csrf)]
  end.

(** [self.auth_request(self.client.<method>(url))] *)
Definition auth_request (d : ProxmoxDriver) (m : Method) (u : str) (b : Body) : Request :=
  {| method := m; url := u; headers := auth_headers d; basic_auth := None; body := b |}.

Definition get {T} (parse : str -> result str T) (d : ProxmoxDriver) (path : str) : IO T :=
  let u := d.(base_url) ++ [c_slash] ++ trim_start_matches c_slash path in
  answer ⇐ request d.(client) (auth_request d GET u NoBody);
  resp ⇐ or_fail (fun e => transient (lit "GET " ++ path ++ lit ": " ++ e)) answer;
  checked resp ;;
  or_fail (fun e => permanent (lit "parse " ++ path ++ lit ": " ++ e)) (json parse resp).

Definition post_action (d : ProxmoxDriver) (path : str) : IO str :=
  let u := d.(base_url) ++ [c_slash] ++ trim_start_matches c_slash path in
  answer ⇐ request d.(client) (auth_request d POST u NoBody);
  resp ⇐ or_fail (fun e => transient (lit "POST " ++ path ++ lit ": " ++ e)) answer;
  checked resp ;;
  ret (default [] (data_str (text_or_default resp))).

(** ** Tasks *)

(** The loop of [wait_task].  A round that goes on pauses for half a second. *)
Fixpoint poll (fuel : nat) (d : ProxmoxDriver) (u upid : str) (timeout deadline : Z) (cancel : option (hist -> bool)) : IO unit :=
  match fuel with
  | O => unfinished
  | S n =>
      h ⇐ history;
      if match cancel with Some c => c h | None => false end then fail Cancelled
      else if deadline <=? now h then
        shown ⇐ redact upid;
        fail (transient (lit "task " ++ shown ++ lit " timed out after " ++ show_uint timeout ++ lit "s"))
      else
        answer ⇐ request d.(client) (auth_request d GET u NoBody);
        resp ⇐ or_fail (fun e => transient (lit "task status: " ++ e)) answer;
        checked resp ;;
        t ⇐ or_fail (fun e => transient (lit "task parse: " ++ e)) (json parse_task resp);
        if bool_decide (t.(task_status) = Some (lit "stopped")) then
          if bool_decide (t.(exitstatus) = Some (lit "OK")) then ret tt
          else shown ⇐ redact (default (lit "unknown") t.(exitstatus));
               fail (permanent (lit "task failed: " ++ shown))
        else sleep 500 ;; poll n d u upid timeout deadline cancel
  end.

Definition poll_rounds (timeout : Z) : nat := Z.to_nat (2 * timeout + 1).
Definition task_url (d : ProxmoxDriver) (upid : str) : str :=
  d.(base_url) ++ lit "/nodes/" ++ d.(node) ++ lit "/tasks/" ++ upid ++ lit "/status".

(** [timeout] is in seconds. *)
Definition wait_task (d : ProxmoxDriver) (upid : str) (timeout : Z) (cancel : option (hist -> bool)) : IO unit :=
  if negb (starts_with (lit "UPID:") upid) then ret tt
  else
    h ⇐ history;
    poll (poll_rounds timeout) d (task_url d upid) upid timeout (now h + timeout * 1000) cancel.

(** ** The operations of [WorkloadDriver] *)

Definition map_status (s : str) : WorkloadState :=
  if bool_decide (s = lit "running") then Running
  else if bool_decide (s = lit "stopped") then Stopped
  else if bool_decide (s = lit "paused") then Paused
  else Unknown.

Definition vm_path (d : ProxmoxDriver) (vm suffix : str) : str := lit "nodes/" ++ d.(node) ++ lit "/qemu/" ++ vm ++ suffix.

Definition workload_of (d : ProxmoxDriver) (vm : PveVm) : Workload :=
  {| id := show_uint vm.(vmid); name := default (lit "VM " ++ show_uint vm.(vmid)) vm.(vm_name);
     workload_type := Vm; state := map_status vm.(vm_status); cpu_cores := vm.(cpus);
     memory_mb := (fun m => m / 1024 / 1024) <$> vm.(maxmem);
     disk_gb := (fun m => m / 1024 / 1024 / 1024) <$> vm.(maxdisk);
     image := None; host := Some d.(node); ips := [] |}.

Definition list_workloads (d : ProxmoxDriver) : IO (list Workload) :=
  vms ⇐ get parse_vms d (lit "nodes/" ++ d.(node) ++ lit "/qemu");
  ret (map (workload_of d) vms).

Definition get_workload (d : ProxmoxDriver) (i : str) : IO Workload :=
  vm ⇐ get parse_vm d (vm_path d i (lit "/status/current"));
  ret (workload_of d vm).

Definition start (d : ProxmoxDriver) (i : str) : IO unit :=
  upid ⇐ post_action d (vm_path d i (lit "/status/start")); wait_task d upid 600 None.
Definition stop (d : ProxmoxDriver) (i : str) : IO unit :=
  upid ⇐ post_action d (vm_path d i (lit "/status/stop")); wait_task d upid 600 None.
Definition restart (d : ProxmoxDriver) (i : str) : IO unit :=
  upid ⇐ post_action d (vm_path d i (lit "/status/reboot")); wait_task d upid 600 None.

Definition destroy (d : ProxmoxDriver) (i : str) : IO unit :=
  let u := d.(base_url) ++ lit "/nodes/" ++ d.(node) ++ lit "/qemu/" ++ i in
  answer ⇐ request d.(client) (auth_request d DELETE u NoBody);
  resp ⇐ or_fail (fun e => transient (lit "destroy: " ++ e)) answer;
  checked resp ;;
  wait_task d (default [] (data_str (text_or_default resp))) 600 None.

Definition snapshot (d : ProxmoxDriver) (i nm : str) (cancel : option (hist -> bool)) : IO WorkloadSnapshot :=
  let u := d.(base_url) ++ [c_slash] ++ vm_path d i (lit "/snapshot") in
  answer ⇐ request d.(client) (auth_request d POST u (Form [(lit "snapname", nm); (lit "description", lit "Created by runesh")]));
  resp ⇐ or_fail (fun e => transient (lit "snapshot: " ++ e)) answer;
  checked resp ;;
  wait_task d (default [] (data_str (text_or_default resp))) 600 cancel ;;
  h ⇐ history;
  ret {| snap_id := i ++ [c_colon] ++ nm; workload_id := i; snap_name := nm; created_at := to_rfc3339 (utc h); size_bytes := None |}.

Definition snapshot_of (i : str) (s : PveSnapshot) : WorkloadSnapshot :=
  {| snap_id := i ++ [c_colon] ++ s.(pve_name); workload_id := i; snap_name := s.(pve_name);
     created_at := default [] (show_uint <$> s.(snaptime)); size_bytes := None |}.

Definition list_snapshots (d : ProxmoxDriver) (i : str) : IO (list WorkloadSnapshot) :=
  snaps ⇐ get parse_snaps d (vm_path d i (lit "/snapshot"));
  ret (map (snapshot_of i) (filter (fun s => s.(pve_name) <> lit "current") snaps)).

Definition restore_snapshot (d : ProxmoxDriver) (snapshot_id : str) (cancel : option (hist -> bool)) : IO unit :=
  match splitn 2 c_colon snapshot_id with
  | [vm; snap] =>
      upid ⇐ post_action d (vm_path d vm (lit "/snapshot/" ++ snap ++ lit "/rollback"));
      wait_task d upid 600 cancel
  | _ => fail (permanent (lit "snapshot_id format: vmid:snapname"))
  end.

Definition resize (d : ProxmoxDriver) (i : str) (cpu mem : option Z) : IO unit :=
  let u := d.(base_url) ++ [c_slash] ++ vm_path d i (lit "/config") in
  let form := match cpu with Some c => [(lit "cores", show_uint c)] | None => [] end
              ++ match mem with Some m => [(lit "memory", show_uint m)] | None => [] end in
  if bool_decide (form = []) then ret tt
  else
    answer ⇐ request d.(client) (auth_request d PUT u (Form form));
    resp ⇐ or_fail (fun e => transient (lit "resize: " ++ e)) answer;
    checked resp ;; ret tt.

(** ** Tasks end *)

(** The request for the status of a task, as the API of Proxmox has it. *)
Definition status_request (d : ProxmoxDriver) (upid : str) : Request :=
  {| method := GET; url := d.(base_url) ++ lit "/nodes/" ++ d.(node) ++ lit "/tasks/" ++ upid ++ lit "/status"; headers := auth_headers d;
     basic_auth := None; body := NoBody |}.

Lemma poll_request d upid : auth_request d GET (task_url d upid) NoBody = status_request d upid.
Proof using Type. done. Qed.

(** A poll before the deadline, or the pause between two. *)
Definition polled (d : ProxmoxDriver) (upid : str) (deadline : Z) (h : hist) (e : event) : Prop :=
  match e with
  | Sent c r => c = d.(client) /\ r = status_request d upid /\ now h < deadline
  | Slept ms => ms = 500
  end.

(** The last thing that happened is a poll that found the task stopped with "OK". *)
Definition found_done (d : ProxmoxDriver) (upid : str) (h : hist) : Prop :=
  exists h0 resp t, h = h0 ++ [Sent d.(client) (status_request d upid)]
    /\ send h0 d.(client) (status_request d upid) = Some (Ok resp) /\ is_success resp.(status) = true /\ json parse_task resp = Ok t
    /\ t.(task_status) = Some (lit "stopped") /\ t.(exitstatus) = Some (lit "OK").

(** How many requests there are, and that the last one got no answer. *)
Fixpoint requests (es : list event) : nat :=
  match es with [] => 0 | Sent _ _ :: es' => S (requests es') | Slept _ :: es' => requests es' end.
Definition unanswered (h : hist) : Prop := exists h0 c r, h = h0 ++ [Sent c r] /\ send h0 c r = None.

Lemma requests_app a b : requests (a ++ b) = (requests a + requests b)%nat.
Proof using Type. induction a as [|[]]; cbn; lia. Qed.

Context {L : NetLaws N}.

Lemma poll_spec d upid timeout deadline cancel n : forall s h out s' h',
  deadline <= now h + 500 * Z.of_nat n ->
  poll (S n) d (task_url d upid) upid timeout deadline cancel (s, h) = (out, (s', h')) ->
  traced (polled d upid deadline) h h' /\ out <> Unfinished /\ (requests h' <= requests h + n)%nat
  /\ (out = Hangs -> unanswered h') /\ (out = Ret tt -> found_done d upid h').
Proof.
  induction n as [n IH] using lt_wf_ind; intros s h out s' h' Hfuel.
  cbn [poll]. unfold bind at 1, history. cbn [fst snd].
  assert (Hstop : forall o : outcome unit, ends o -> (o, (s, h)) = (out, (s', h')) ->
    traced (polled d upid deadline) h h' /\ out <> Unfinished /\ (requests h' <= requests h + n)%nat /\ (out = Hangs -> unanswered h') /\ (out = Ret tt -> found_done d upid h')).
  { intros o Ho [= <- <- <-]. split_and!; [constructor|by intros ->|lia|by intros ->|by intros ->]. }
  destruct (match cancel with Some c => c h | None => false end); [by apply Hstop|].
  destruct (Z.leb_spec deadline (now h)) as [|Hnow].
  { edestruct @redact_fail as (o & -> & Ho). by apply Hstop. }
  destruct n as [|n]; [lia|]. rewrite bind_request, poll_request.
  set (h1 := h ++ [Sent (client d) (status_request d upid)]).
  assert (Ht : traced (polled d upid deadline) h h1) by (apply traced_snoc; [constructor|done]).
  assert (Hl : requests h1 = S (requests h)) by (unfold h1; rewrite requests_app; cbn; lia).
  assert (Hstop1 : forall o : outcome unit, ends o -> (o, (s, h1)) = (out, (s', h')) ->
    traced (polled d upid deadline) h h' /\ out <> Unfinished /\ (requests h' <= requests h + S n)%nat /\ (out = Hangs -> unanswered h') /\ (out = Ret tt -> found_done d upid h')).
  { intros o Ho [= <- <- <-]. split_and!; [done|by intros ->|lia|by intros ->|by intros ->]. }
  destruct (send h (client d) (status_request d upid)) as [[resp|e]|] eqn:Es; [rewrite bind_or_fail_ok|by apply Hstop1|].
  2:{ intros [= <- <- <-]. split_and!; [done..|lia| |done]. intros _. by exists h, (client d), (status_request d upid). }
  destruct (is_success (status resp)) eqn:Eok; [rewrite bind_checked_ok by done|].
  2:{ edestruct @bind_checked_err as (o & -> & Ho); [done|]. by apply Hstop1. }
  destruct (json parse_task resp) as [t|e] eqn:Ej; [rewrite bind_or_fail_ok|by apply Hstop1].
  destruct (bool_decide_reflect (task_status t = Some (lit "stopped"))) as [Est|_].
  - destruct (bool_decide_reflect (exitstatus t = Some (lit "OK"))) as [Eex|_].
    + intros [= <- <- <-]. split_and!; [done..|lia|done|]. intros _. by exists h, resp, t.
    + edestruct @redact_fail as (o & -> & Ho). by apply Hstop1.
  - unfold bind at 1, sleep. cbn [fst snd]. intros Hrec. apply IH in Hrec as (Ht' & Hu & Hlen & Hh & Hok); [|lia|].
    + split_and!; [|done| |done|done].
      * eapply traced_trans; [done|]. eapply traced_trans; [|exact Ht']. apply traced_snoc; [constructor|done].
      * rewrite requests_app in Hlen. cbn in Hlen. lia.
    + pose proof (now_slept h1 500). pose proof (now_grows h (Sent (client d) (status_request d upid))) as Hg.
      fold h1 in Hg. lia.
Qed.

(** A task is waited for in at most [1200] polls, all within the time given. *)
Lemma wait_task_spec d upid timeout cancel s h out s' h' :
  0 <= timeout -> wait_task d upid timeout cancel (s, h) = (out, (s', h')) ->
  traced (polled d upid (now h + timeout * 1000)) h h' /\ out <> Unfinished /\ (requests h' <= requests h + Z.to_nat (2 * timeout))%nat
  /\ (out = Hangs -> unanswered h')
  /\ (out = Ret tt -> if starts_with (lit "UPID:") upid then found_done d upid h' else h' = h).
Proof.
  intros Ht. unfold wait_task. destruct (starts_with (lit "UPID:") upid); cbn [negb].
  2:{ intros [= <- <- <-]. split_and!; [constructor|done|lia|done|done]. }
  unfold bind at 1, history. cbn [fst snd]. replace (poll_rounds timeout) with (S (Z.to_nat (2 * timeout))) by (unfold poll_rounds; lia).
  intros H. apply poll_spec in H as (H1 & H2 & H3 & H4 & H5); [|lia]. done.
Qed.

(** ** One operation *)

(** A request that starts a task, and the wait for it. *)
Definition ordered (d : ProxmoxDriver) (r : Request) (f : str -> WorkloadError) (cancel : option (hist -> bool)) : IO unit :=
  answer ⇐ request d.(client) r;
  resp ⇐ or_fail f answer;
  checked resp ;;
  wait_task d (default [] (data_str (text_or_default resp))) 600 cancel.

(** What follows the first request. *)
Definition then_polled (d : ProxmoxDriver) (r : Request) (upid : str) (h : hist) (out : outcome unit) (h' : hist) : Prop :=
  let h1 := h ++ [Sent d.(client) r] in
  traced (polled d upid (now h1 + 600000)) h1 h' /\ out <> Unfinished /\ (requests h' <= requests h1 + 1200)%nat /\ (out = Hangs -> unanswered h').

Lemma ordered_spec d r f cancel s h out s' h' :
  ordered d r f cancel (s, h) = (out, (s', h')) ->
  exists upid, then_polled d r upid h out h'
    /\ (out = Ret tt -> exists resp, send h d.(client) r = Some (Ok resp) /\ is_success resp.(status) = true
          /\ upid = default [] (data_str (text_or_default resp))
          /\ if starts_with (lit "UPID:") upid then found_done d upid h' else h' = h ++ [Sent d.(client) r]).
Proof.
  intros H. unfold ordered in H. rewrite bind_request in H. set (h1 := h ++ [Sent (client d) r]) in *.
  assert (Hstop : forall o : outcome unit, ends o -> (o, (s, h1)) = (out, (s', h')) ->
    exists upid, then_polled d r upid h out h'
    /\ (out = Ret tt -> exists resp, send h d.(client) r = Some (Ok resp) /\ is_success resp.(status) = true
          /\ upid = default [] (data_str (text_or_default resp))
          /\ if starts_with (lit "UPID:") upid then found_done d upid h' else h' = h1)).
  { intros o Ho [= <- <- <-]. exists []. split; [|by intros ->]. split_and!; [constructor|by intros ->|fold h1; lia|by intros ->]. }
  destruct (send h (client d) r) as [[resp|e]|] eqn:Es; [rewrite bind_or_fail_ok in H|by apply (Hstop (Fail (f e)))|].
  2:{ injection H as <- <- <-. exists []. split; [|done]. split_and!; [constructor|done|fold h1; lia|]. intros _. by exists h, (client d), r. }
  destruct (is_success (status resp)) eqn:Eok; [rewrite bind_checked_ok in H by done|].
  2:{ edestruct @bind_checked_err as (o & Eo & Ho); [done|]. rewrite Eo in H. by apply (Hstop _ Ho). }
  apply wait_task_spec in H as (H1 & H2 & H3 & H4 & H5); [|lia].
  exists (default [] (data_str (text_or_default resp))). split; [by split_and!|]. intros E. exists resp. split_and!; [done..|]. by apply H5.
Qed.

Lemma post_wait d path cancel w :
  bind (post_action d path) (fun upid => wait_task d upid 600 cancel) w
  = ordered d (auth_request d POST (d.(base_url) ++ [c_slash] ++ trim_start_matches c_slash path) NoBody)
      (fun e => transient (lit "POST " ++ path ++ lit ": " ++ e)) cancel w.
Proof.
  destruct w as [s h]. unfold post_action, ordered. rewrite bind_request. unfold bind at 1. rewrite bind_request.
  destruct (send _ _ _) as [[resp|e]|]; [rewrite !bind_or_fail_ok|done..].
  destruct (is_success (status resp)) eqn:E; [by rewrite !bind_checked_ok|].
  unfold checked, classify_status, bind, redact, or_panic, ret, fail. rewrite E. by destruct (redact_sensitive _).
Qed.

(** One request and no more. *)
Definition asked_once (d : ProxmoxDriver) (r : Request) {A} (h : hist) (out : outcome A) (h' : hist) : Prop :=
  h' = h ++ [Sent d.(client) r] /\ out <> Unfinished /\ (out = Hangs -> unanswered h').

Lemma get_spec {T} (parse : str -> result str T) d path s h out s' h' :
  get parse d path (s, h) = (out, (s', h')) ->
  asked_once d (auth_request d GET (d.(base_url) ++ [c_slash] ++ trim_start_matches c_slash path) NoBody) h out h'.
Proof using Type.
  unfold get. rewrite bind_request. set (r := auth_request _ _ _ _).
  destruct (send h (client d) r) as [[resp|e]|] eqn:Es; [rewrite bind_or_fail_ok|by intros [= <- <- <-]|].
  - destruct (is_success (status resp)) eqn:E; [rewrite bind_checked_ok by done|].
    + destruct (json parse resp); by intros [= <- <- <-].
    + edestruct @bind_checked_err as (o & -> & Ho); [done|]. intros [= <- <- <-]. split_and!; [done|by intros ->|by intros ->].
  - intros [= <- <- <-]. split_and!; [done..|]. intros _. by exists h, (client d), r.
Qed.

Inductive Op : Type :=
  | OpList
  | OpGet (i : str)
  | OpStart (i : str)
  | OpStop (i : str)
  | OpRestart (i : str)
  | OpDestroy (i : str)
  | OpSnapshot (i nm : str)
  | OpListSnapshots (i : str)
  | OpRestore (snapshot_id : str)
  | OpResize (i : str) (cpu mem : option Z).

Definition run (d : ProxmoxDriver) (op : Op) (cancel : option (hist -> bool)) : IO unit :=
  match op with
  | OpList => list_workloads d ;; ret tt
  | OpGet i => get_workload d i ;; ret tt
  | OpStart i => start d i
  | OpStop i => stop d i
  | OpRestart i => restart d i
  | OpDestroy i => destroy d i
  | OpSnapshot i nm => snapshot d i nm cancel ;; ret tt
  | OpListSnapshots i => list_snapshots d i ;; ret tt
  | OpRestore sid => restore_snapshot d sid cancel
  | OpResize i cpu mem => resize d i cpu mem
  end.

(** The request an operation that changes the machine's state must make. *)
Definition order (d : ProxmoxDriver) (op : Op) : option Request :=
  let at_vm i rest := d.(base_url) ++ lit "/nodes/" ++ d.(node) ++ lit "/qemu/" ++ i ++ rest in
  match op with
  | OpStart i => Some (auth_request d POST (at_vm i (lit "/status/start")) NoBody)
  | OpStop i => Some (auth_request d POST (at_vm i (lit "/status/stop")) NoBody)
  | OpRestart i => Some (auth_request d POST (at_vm i (lit "/status/reboot")) NoBody)
  | OpDestroy i => Some (auth_request d DELETE (at_vm i []) NoBody)
  | OpSnapshot i nm =>
      Some (auth_request d POST (at_vm i (lit "/snapshot"))
              (Form [(lit "snapname", nm); (lit "description", lit "Created by runesh")]))
  | OpRestore sid =>
      '(i, snap) ← split_once c_colon sid;
      Some (auth_request d POST (at_vm i (lit "/snapshot/" ++ snap ++ lit "/rollback")) NoBody)
  | _ => None
  end.

(** What is sent with the driver's credentials, and where to. *)
Definition own (d : ProxmoxDriver) (r : Request) : Prop :=
  r.(headers) = auth_headers d /\ r.(basic_auth) = None /\ exists rest, r.(url) = d.(base_url) ++ [c_slash] ++ rest.

Lemma own_get d path m b : own d (auth_request d m (d.(base_url) ++ [c_slash] ++ path) b).
Proof. split; [done|]. split; [done|]. by exists path. Qed.

Lemma bind_get {T A} (parse : str -> result str T) (g : T -> A) d path s h out s' h' :
  bind (bind (get parse d path) (fun x => ret (g x))) (fun _ => ret tt) (s, h) = (out, (s', h')) ->
  asked_once d (auth_request d GET (d.(base_url) ++ [c_slash] ++ trim_start_matches c_slash path) NoBody) h out h'.
Proof using Type.
  unfold bind at 1 2. destruct (get parse d path (s, h)) as [o [s1 h1]] eqn:E. apply get_spec in E as (-> & Ho & Hh).
  destruct o; intros [= <- <- <-]; split_and!; try done. intros _. by apply Hh.
Qed.

Lemma snapshot_ordered d i nm cancel w :
  bind (snapshot d i nm cancel) (fun _ => ret tt) w
  = ordered d (auth_request d POST (d.(base_url) ++ lit "/nodes/" ++ d.(node) ++ lit "/qemu/" ++ i ++ lit "/snapshot")
                (Form [(lit "snapname", nm); (lit "description", lit "Created by runesh")]))
      (fun e => transient (lit "snapshot: " ++ e)) cancel w.
Proof.
  destruct w as [s h]. unfold snapshot, ordered. rewrite bind_request. unfold bind at 1. rewrite bind_request.
  destruct (send _ _ _) as [[resp|e]|]; [rewrite !bind_or_fail_ok|done..].
  destruct (is_success (status resp)) eqn:E; [rewrite !bind_checked_ok by done|].
  - unfold bind at 1. destruct (wait_task _ _ _ _ _) as [[[]|e| | |] w']; done.
  - unfold checked, classify_status, bind, redact, or_panic, ret, fail. rewrite E. by destruct (redact_sensitive _).
Qed.

Lemma resize_spec d i cpu mem s h out s' h' :
  resize d i cpu mem (s, h) = (out, (s', h')) ->
  (h' = h /\ out = Ret tt) \/ exists r, own d r /\ asked_once d r h out h'.
Proof using Type.
  unfold resize. case_match; [intros [= <- <- <-]; auto|]. rewrite bind_request.
  set (r := auth_request _ _ _ _). assert (Hr : own d r) by apply own_get. intros H0. right. exists r. split; [done|]. revert H0.
  destruct (send h (client d) r) as [[resp|e]|] eqn:Es; [rewrite bind_or_fail_ok|by intros [= <- <- <-]|].
  - destruct (is_success (status resp)) eqn:E; [rewrite bind_checked_ok by done; by intros [= <- <- <-]|].
    edestruct @bind_checked_err as (o & -> & Ho); [done|]. intros [= <- <- <-]. split_and!; [done|by intros ->|by intros ->].
  - intros [= <- <- <-]. split_and!; [done..|]. intros _. by exists h, (client d), r.
Qed.

(** An operation with an order makes it and waits for its task; another one sends at most one
    request. *)
Lemma ordered_or_read d op cancel s h out s' h' :
  run d op cancel (s, h) = (out, (s', h')) ->
  (exists r f c, order d op = Some r /\ ordered d r f c (s, h) = (out, (s', h')))
  \/ (order d op = None /\ ((h' = h /\ out <> Unfinished /\ out <> Hangs) \/ exists r, own d r /\ asked_once d r h out h')).
Proof using Type.
  destruct op as [|i|i|i|i|i|i nm|i|sid|i cpu mem]; cbn [run order]; intros H.
  - right. apply bind_get in H. split; [done|]. right. by eexists; split; [apply own_get|].
  - right. apply bind_get in H. split; [done|]. right. by eexists; split; [apply own_get|].
  - left. unfold start in H. rewrite post_wait in H. eauto 10.
  - left. unfold stop in H. rewrite post_wait in H. eauto 10.
  - left. unfold restart in H. rewrite post_wait in H. eauto 10.
  - left. rewrite app_nil_r. by eexists _, (fun e => transient (lit "destroy: " ++ e)), None.
  - left. rewrite snapshot_ordered in H. eauto 10.
  - right. apply bind_get in H. split; [done|]. right. by eexists; split; [apply own_get|].
  - unfold restore_snapshot in H. cbn [splitn] in H. destruct (split_once c_colon sid) as [[vm snap]|].
    + left. rewrite post_wait in H. eexists _, _, cancel. split; [|exact H]. reflexivity.
    + right. injection H as <- <- <-. split; [done|]. by left.
  - right. split; [done|]. apply resize_spec in H as [[-> ->]|H]; [by left|by right].
Qed.

Lemma operation_spec d op cancel s h out s' h' :
  run d op cancel (s, h) = (out, (s', h')) ->
  (h' = h /\ out <> Unfinished /\ out <> Hangs) \/ exists r upid, own d r /\ then_polled d r upid h out h'.
Proof.
  intros H. apply ordered_or_read in H as [(r & f & c & Ho & H)|(_ & [?|(r & Hr & -> & Hu & Hh)])]; [|by left|].
  - apply ordered_spec in H as (upid & H & _). right. exists r, upid.
    split; [|done]. clear -Ho. destruct op as [|i|i|i|i|i|i nm|i|sid|i cpu mem]; cbn [order] in Ho; try done;
      try (injection Ho as <-; apply own_get).
    destruct (split_once c_colon sid) as [[vm snap]|]; [|done]. injection Ho as <-. apply own_get.
  - right. exists r, []. split; [done|]. split_and!; [constructor|done|lia|done].
Qed.

(** An answer that names no task: its body cannot be read, or has no string for its data, or one
    that is not the identifier of a task. *)
Definition names_no_task (resp : Response) : Prop :=
  match resp.(text) with
  | Err _ => True
  | Ok t => forall upid, data_str t = Some upid -> ~ lit "UPID:" `prefix_of` upid
  end.

Context {JL : PveLaws J}.

(** C23: An operation of the Proxmox driver that starts, stops, reboots, destroys, snapshots or
    rolls back a machine reports success in two cases only.  In both its own request was
    accepted.  Either the answer names a task (a string that begins with "UPID:"), nothing but
    requests for the status of that task follows, and the last of them found it stopped with the
    exit status "OK"; or the answer names no task, which includes that its body could not be
    read, and nothing follows. *)
Theorem success_means_done d op r cancel s h s' h' :
  order d op = Some r -> run d op cancel (s, h) = (Ret tt, (s', h')) ->
  exists resp, send h d.(client) r = Some (Ok resp) /\ is_success resp.(status) = true
    /\ ((exists t upid, resp.(text) = Ok t /\ data_str t = Some upid /\ lit "UPID:" `prefix_of` upid
          /\ traced (polled d upid (now (h ++ [Sent d.(client) r]) + 600000)) (h ++ [Sent d.(client) r]) h' /\ found_done d upid h')
        \/ (names_no_task resp /\ h' = h ++ [Sent d.(client) r])).
Proof.
  intros Hr H. apply ordered_or_read in H as [(r' & f & c & Ho & H)|(Ho & _)]; [|by rewrite Hr in Ho].
  rewrite Hr in Ho. injection Ho as <-. apply ordered_spec in H as (upid & (H1 & _) & H4).
  destruct (H4 eq_refl) as (resp & Hs & Hok & Hup & Hd). exists resp. split_and!; [done..|]. unfold names_no_task, text_or_default in *.
  destruct (text resp) as [t|e]; [change (upid = default [] (data_str t)) in Hup|change (upid = default [] (data_str [])) in Hup; rewrite data_str_nil in Hup; subst upid; by right].
  destruct (starts_with (lit "UPID:") upid) eqn:Eu.
  - left. exists t, upid. apply starts_with_spec in Eu. destruct (data_str t) as [u|] eqn:Et; [change (upid = u) in Hup; subst upid; by split_and!|]. change (upid = []) in Hup. subst upid. by destruct Eu.
  - right. split; [|done]. intros u Et Hp. rewrite Et in Hup. change (upid = u) in Hup. subst upid. apply starts_with_spec in Hp. congruence.
Qed.

(** C29: An operation of the Proxmox driver sends nothing, or one request and then at most 1200
    requests for the status of one task, the last of them less than ten minutes after the answer
    to the first request.  It ends, with a result, an error or a panic, unless the server never
    answers the last request sent: the client has no timeout, and the operation hangs. *)
Theorem operations_end d op cancel s h out s' h' :
  run d op cancel (s, h) = (out, (s', h')) ->
  out <> Unfinished /\ (out = Hangs -> exists h0 c r, h' = h0 ++ [Sent c r] /\ send h0 c r = None)
  /\ (h' = h \/ exists r upid es, h' = h ++ Sent d.(client) r :: es /\ (requests es <= 1200)%nat
        /\ forall es1 c r' es2, es = es1 ++ Sent c r' :: es2 ->
             c = d.(client) /\ r' = status_request d upid /\ now (h ++ Sent d.(client) r :: es1) < now (h ++ [Sent d.(client) r]) + 600 * 1000).
Proof.
  intros H. apply operation_spec in H as [(-> & Hu & Hh)|(r & upid & _ & Ht & Hu & Hl & Hh)]; [split_and!; [done..|by left]|].
  split_and!; [done..|]. right. destruct (traced_app _ _ _ Ht) as [es ->]. exists r, upid, es. rewrite <- app_assoc. split_and!; [done| |].
  { rewrite requests_app in Hl. lia. }
  intros es1 c r' es2 ->. pose proof (traced_split _ _ _ Ht es1 (Sent c r') es2 eq_refl) as (H1 & H2 & Hn). rewrite <- app_assoc in Hn. done.
Qed.

(** A driver that was set up for the host [hst]. *)
Definition connects (hst : str) (tls : TlsConfig) (d : ProxmoxDriver) : Prop :=
  (exists nd i secret w w', with_token_tls hst nd i secret tls w = (Ret d, w'))
  \/ (exists nd user password w w', with_password_tls hst nd user password tls w = (Ret d, w')).

Lemma validate_host_ok hst : validate_host host_parse hst = Some (Ok tt) ->
  contains_char c_slash hst = false /\ to_ascii_lowercase hst ∉ banned.
Proof.
  unfold validate_host. repeat case_match; try done.
  - destruct (redact_sensitive hst); by intros [=].
  - intros _. apply orb_false_iff in H0 as [Hs _]. split; [done|]. intros Hin.
    rewrite (proj2 (existsb_elem _ _)) in H1; [done|]. exists (to_ascii_lowercase hst). split; [done|]. by apply bool_decide_eq_true_2.
Qed.

Lemma build_client_ok driver tls c : build_client driver tls = Ok c -> (c.(accept_invalid_certs) = true <-> tls = AcceptInvalidCerts).
Proof. destruct tls; cbn; intros; repeat case_match; simplify_eq; by cbn. Qed.

Lemma connects_inv hst tls d : connects hst tls d ->
  validate_host host_parse hst = Some (Ok tt) /\ build_client (lit "proxmox") tls = Ok d.(client) /\ d.(base_url) = base_of hst.
Proof.
  assert (Hv : forall (w : unit * hist) x w', or_panic (validate_host host_parse hst) w = (Ret x, w') -> w' = w /\ validate_host host_parse hst = Some x).
  { intros w x w'. unfold or_panic. case_match; by intros [= <- <-]. }
  intros [(nd & i & sec & w & w' & H)|(nd & u & pw & w & w' & H)];
    apply bind_ret_inv in H as (r & w1 & [-> Hr]%Hv & H); apply bind_ret_inv in H as ([] & w2 & [-> ->]%or_fail_inv & H);
    apply bind_ret_inv in H as (c & w3 & [Hc ->]%or_fail_inv & H).
  - by injection H as <- <-.
  - apply bind_ret_inv in H as (a & w4 & _ & H). apply bind_ret_inv in H as (resp & w5 & _ & H).
    destruct (negb _); [by apply bind_ret_inv in H as (? & ? & _ & [=])|].
    apply bind_ret_inv in H as (parsed & w6 & _ & H). cbv zeta in H. destruct (bool_decide _ || bool_decide _); [done|]. by injection H as <- <-.
Qed.

(** the credentials of a Proxmox driver go to its own host only.  Every request of every
    operation is made over TLS to port 8006 of the host the driver was connected with, below
    [/api2/json/], and carries the driver's token or ticket; the host is no metadata service;
    and certificates go unchecked exactly when the caller asked for that. *)
Theorem credentials_stay hst tls d op cancel s h out s' h' :
  connects hst tls d -> run d op cancel (s, h) = (out, (s', h')) ->
  (d.(client).(accept_invalid_certs) = true <-> tls = AcceptInvalidCerts)
  /\ contains_char c_slash hst = false /\ ~ to_ascii_lowercase hst ∈ banned
  /\ exists es, h' = h ++ es /\ forall c r, Sent c r ∈ es ->
       c = d.(client) /\ r.(headers) = auth_headers d /\ r.(basic_auth) = None
       /\ exists path, r.(url) = lit "https://" ++ hst ++ lit ":8006/api2/json/" ++ path.
Proof.
  intros (Hv & Hc & Hb)%connects_inv H. apply validate_host_ok in Hv as [Hs Hm]. apply build_client_ok in Hc.
  split; [done|]. split; [done|]. split; [done|]. apply operation_spec in H as Hh.
  assert (Hbase : forall rest, d.(base_url) ++ [c_slash] ++ rest = lit "https://" ++ hst ++ lit ":8006/api2/json/" ++ rest).
  { intros rest. rewrite Hb. unfold base_of. by rewrite <- !app_assoc. }
  destruct Hh as [(-> & _)|(r0 & upid & (H1 & H2 & rest & H3) & Ht & _)].
  { exists []. rewrite app_nil_r. split; [done|]. intros c r Hin. by apply elem_of_nil in Hin. }
  destruct (traced_app _ _ _ Ht) as [es ->]. exists (Sent (client d) r0 :: es). rewrite <- app_assoc. split; [done|].
  intros c r [[= -> ->]|Hin]%elem_of_cons; [by rewrite H1, H2, H3; eauto|].
  apply list_elem_of_split in Hin as (es1 & es2 & ->).
  destruct (traced_split _ _ _ Ht es1 (Sent c r) es2 eq_refl) as (-> & -> & _). split_and!; [done..|].
  cbn [url status_request]. change (lit "/nodes/") with ([c_slash] ++ lit "nodes/"). rewrite <- app_assoc, Hbase. by eexists.
Qed.

(** The identifier of a snapshot names it: rolling back to the snapshot just taken asks for that
    snapshot of that machine. *)
Lemma snapshot_id_order d i nm : contains_char c_colon i = false ->
  order d (OpRestore (snapshot_of i {| pve_name := nm; snaptime := None |}).(snap_id))
  = Some (auth_request d POST (d.(base_url) ++ lit "/nodes/" ++ d.(node) ++ lit "/qemu/" ++ i ++ lit "/snapshot/" ++ nm ++ lit "/rollback") NoBody).
Proof. intros H. cbn [order snapshot_of snap_id pve_name]. change ([c_colon] ++ nm) with (c_colon :: nm). by rewrite split_once_app. Qed.

(** ** What goes wrong *)

(** An identifier is put into the path as it is: to start the machine "7/status/stop?x=" is to
    send the request that stops machine 7 (the rest is its query). *)
Theorem id_is_a_path d :
  order d (OpStart (lit "7/status/stop?x="))
  = (fun r => auth_request d POST (r.(url) ++ lit "?x=/status/start") NoBody) <$> order d (OpStop (lit "7")).
Proof. cbn [order fmap option_fmap option_map url auth_request]. rewrite <- !app_assoc. reflexivity. Qed.

(** A body that cannot be read is taken for an answer without a task: the operation reports
    success although the task it started is not known. *)
Theorem unread_answer_succeeds d i cancel s h st e r :
  order d (OpStart i) = Some r -> send h d.(client) r = Some (Ok {| status := st; text := Err e |}) -> is_success st = true ->
  data_str [] = None -> run d (OpStart i) cancel (s, h) = (Ret tt, (s, h ++ [Sent d.(client) r])).
Proof.
  intros Hr Hs Hok Hd. cbn [run]. unfold start. rewrite post_wait. unfold ordered. injection Hr as <-. rewrite bind_request.
  unfold vm_path. change (trim_start_matches c_slash (lit "nodes/" ++ ?x)) with (lit "nodes/" ++ x).
  match goal with |- context [send h (client d) ?q] => replace (send h (client d) q) with (Some (Ok (E:=str) {| status := st; text := Err e |})) end.
  rewrite bind_or_fail_ok, bind_checked_ok by done. unfold text_or_default. cbn [text ok default]. by rewrite Hd.
Qed.

End proxmox.

(** ** A server *)

Module ProxmoxExamples.

Definition slept (h : hist) : Z := foldr (fun e a => match e with Slept ms => Z.max 0 ms + a | Sent _ _ => a end) 0 h.

(** A node whose tasks take half a second. *)
#[local] Instance server : Net := {|
  send h c r := Some (Ok {| status := 200; text := Ok (match r.(method) with
                                                 | GET => if 0 <? slept h then lit "done" else lit "busy"
                                                 | _ => lit "UPID:1"
                                                 end) |});
  now := slept;
  utc h := slept h / 1000;
  show_status := show_uint;
  read_file p := Err (lit "missing");
  from_pem p := Err (lit "unreadable");
  host_parse p := Ok tt
|}.

#[local] Instance reader : Pve := {|
  parse_vms t := Ok [];
  parse_vm t := Err t;
  parse_snaps t := Ok [];
  parse_task t := Ok (if bool_decide (t = lit "done") then {| task_status := Some (lit "stopped"); exitstatus := Some (lit "OK") |}
                      else {| task_status := Some (lit "running"); exitstatus := None |});
  parse_login t := Err t;
  data_str t := match t with [] => None | _ => Some t end;
  to_rfc3339 := show_int
|}.

#[local] Instance reader_laws : PveLaws reader.
Proof. by split. Qed.

Lemma slept_app h e : slept (h ++ [e]) = slept h + match e with Slept ms => Z.max 0 ms | Sent _ _ => 0 end.
Proof. unfold slept. rewrite foldr_app. induction h as [|x h IH]; [destruct e; cbn; lia|]. destruct x, e; cbn in *; lia. Qed.

#[local] Instance server_laws : NetLaws server.
Proof. split; intros; cbn [now server]; rewrite slept_app; [case_match|]; lia. Qed.

Definition secure : Client := {| accept_invalid_certs := false; root_certificates := [] |}.
Definition driver : ProxmoxDriver :=
  {| client := secure; base_url := base_of (lit "pve"); node := lit "n1"; credentials := Token (lit "u@pam!t") (lit "s3cret") |}.

Definition ordered_start : Request :=
  auth_request driver POST (lit "https://pve:8006/api2/json/nodes/n1/qemu/7/status/start") NoBody.
Definition poll_1 : event := Sent secure (status_request driver (lit "UPID:1")).

(** Starting machine 7 polls its task twice. *)
Lemma guest_started : run driver (OpStart (lit "7")) None (tt, []) = (Ret tt, (tt, [Sent secure ordered_start; poll_1; Slept 500; poll_1])).
Proof. vm_compute. reflexivity. Qed.

Lemma ordered_start_is : order driver (OpStart (lit "7")) = Some ordered_start.
Proof. vm_compute. reflexivity. Qed.

Lemma driver_connects : connects (lit "pve") Verify driver.
Proof. left. exists (lit "n1"), (lit "u@pam!t"), (lit "s3cret"), (tt, []), (tt, []). vm_compute. reflexivity. Qed.

Lemma success_means_done_witness :
  exists resp, send [] secure ordered_start = Some (Ok resp) /\ is_success resp.(status) = true
    /\ ((exists t upid, resp.(text) = Ok t /\ data_str t = Some upid /\ lit "UPID:" `prefix_of` upid
          /\ traced (polled driver upid (now [Sent secure ordered_start] + 600000)) [Sent secure ordered_start]
               [Sent secure ordered_start; poll_1; Slept 500; poll_1]
          /\ found_done driver upid [Sent secure ordered_start; poll_1; Slept 500; poll_1])
        \/ (names_no_task resp /\ [Sent secure ordered_start; poll_1; Slept 500; poll_1] = [Sent secure ordered_start])).
Proof. exact (success_means_done driver (OpStart (lit "7")) ordered_start None tt [] tt _ ordered_start_is guest_started). Defined.

Lemma operations_end_witness :
  let h' := [Sent secure ordered_start; poll_1; Slept 500; poll_1] in
  Ret tt <> Unfinished /\ (Ret tt = Hangs -> exists h0 c r, h' = h0 ++ [Sent c r] /\ send h0 c r = None)
  /\ (h' = [] \/ exists r upid es, h' = [] ++ Sent secure r :: es /\ (requests es <= 1200)%nat
        /\ forall es1 c r' es2, es = es1 ++ Sent c r' :: es2 ->
             c = secure /\ r' = status_request driver upid /\ now ([] ++ Sent secure r :: es1) < now ([] ++ [Sent secure r]) + 600 * 1000).
Proof. exact (operations_end driver (OpStart (lit "7")) None tt [] _ tt _ guest_started). Defined.

Lemma credentials_stay_witness :
  (secure.(accept_invalid_certs) = true <-> Verify = AcceptInvalidCerts)
  /\ contains_char c_slash (lit "pve") = false /\ ~ to_ascii_lowercase (lit "pve") ∈ banned
  /\ exists es, [Sent secure ordered_start; poll_1; Slept 500; poll_1] = [] ++ es /\ forall c r, Sent c r ∈ es ->
       c = secure /\ r.(headers) = auth_headers driver /\ r.(basic_auth) = None
       /\ exists path, r.(url) = lit "https://" ++ lit "pve" ++ lit ":8006/api2/json/" ++ path.
Proof. exact (credentials_stay (lit "pve") Verify driver (OpStart (lit "7")) None tt [] _ tt _ driver_connects guest_started). Defined.

End ProxmoxExamples.
