(* ===== verification/Vmware.v ===== *)
(** * The VMware vCenter driver ([runesh-vmware/src/lib.rs])

    The driver logs in with a password, keeps the session it is given, and logs in again when
    the session is about to expire or the server refuses it; when it is dropped it logs out.
    The state of the driver is the content of its mutex; one task uses it at a time.  The
    deserializer of a machine is a parameter ([Vc]).  The theorems state that every request but
    the login and the logout carries a session that a login granted and that has a minute left,
    and that a refused request is repeated once. *)
From S2P Require Import Prelude Str Text Redact Workload.

#[local] Open Scope Z_scope.

Definition SESSION_LIFETIME_SECS : Z := 30 * 60.
Definition SESSION_REFRESH_BEFORE_SECS : Z := 60.

Record Session := { session : str; expires_at_epoch_secs : Z }.

Record VmwareDriver := {
  client : Client;
  base_url : str;
  username : str;
  password : str
}.

Record VcVm := {
  vm : str;
  vm_name : str;
  power_state : str;
  cpu_count : option Z;
  memory_size_mib : option Z
}.

Class Vc := {
  parse_vms : str -> result str (list VcVm);
  parse_vm : str -> result str VcVm
}.

Section vmware.
Context `{N : Net} `{J : Vc}.

Abbreviation IO := (M (option Session)).

(** ** Sessions *)

Definition login (d : VmwareDriver) : Request :=
  {| method := POST; url := d.(base_url) ++ lit "/api/session"; headers := []; basic_auth := Some (d.(username), d.(password)); body := NoBody |}.

Definition session_text (t : str) : str := trim_matches (Z.eqb c_quote) (trim t).

Definition authenticate (d : VmwareDriver) : IO str :=
  answer ⇐ request d.(client) (login d);
  resp ⇐ or_fail (fun e => transient (lit "auth: " ++ e)) answer;
  if negb (is_success resp.(status)) then e ⇐ auth_failed (lit "auth ") resp; fail e
  else
    t ⇐ or_fail (fun e => transient (lit "session: " ++ e)) resp.(text);
    let i := session_text t in
    if bool_decide (i = []) then fail (auth (lit "empty session id"))
    else
      h ⇐ history;
      write_state (Some {| session := i; expires_at_epoch_secs := utc h + SESSION_LIFETIME_SECS |}) ;;
      ret i.

Definition session_id (d : VmwareDriver) : IO str :=
  guard ⇐ read_state;
  h ⇐ history;
  match guard with
  | Some s =>
      if utc h + SESSION_REFRESH_BEFORE_SECS <? s.(expires_at_epoch_secs) then ret s.(session)
      else authenticate d
  | None => authenticate d
  end.

Definition connect_tls (hst user pw : str) (tls : TlsConfig) : IO VmwareDriver :=
  r ⇐ or_panic (validate_host host_parse hst);
  or_fail (fun e => e) r ;;
  c ⇐ or_fail (fun e => e) (build_client (lit "vmware") tls);
  let d := {| client := c; base_url := lit "https://" ++ hst; username := user; password := pw |} in
  write_state None ;;
  authenticate d ;;
  ret d.
Definition connect (hst user pw : str) : IO VmwareDriver := connect_tls hst user pw Verify.

(** [drop], with the task it spawns when there is a runtime to spawn it on. *)
Definition drop_driver (d : VmwareDriver) (in_runtime : bool) : IO unit :=
  if in_runtime then
    maybe ⇐ read_state;
    match maybe with
    | Some s =>
        request d.(client) {| method := DELETE; url := d.(base_url) ++ lit "/rest/com/vmware/cis/session";
                              headers := [(lit "vmware-api-session-id", s.(session))]; basic_auth := None; body := NoBody |} ;;
        ret tt
    | None => ret tt
    end
  else ret tt.

(** ** Requests *)

Definition with_header (r : Request) (i : str) : Request :=
  {| method := r.(method); url := r.(url); headers := r.(headers) ++ [(lit "vmware-api-session-id", i)];
     basic_auth := r.(basic_auth); body := r.(body) |}.

(** [auth] of the code. *)
Definition add_session (d : VmwareDriver) (r : Request) : IO Request :=
  i ⇐ session_id d; ret (with_header r i).

Definition send_with_retry (d : VmwareDriver) (build : Request) : IO Response :=
  r ⇐ add_session d build;
  answer ⇐ request d.(client) r;
  first ⇐ or_fail (fun e => transient (lit "send: " ++ e)) answer;
  if first.(status) =? 401 then
    write_state None ;;
    session_id d ;;
    r ⇐ add_session d build;
    answer ⇐ request d.(client) r;
    or_fail (fun e => transient (lit "retry send: " ++ e)) answer
  else ret first.

Definition plain (m : Method) (u : str) (b : Body) : Request := {| method := m; url := u; headers := []; basic_auth := None; body := b |}.

(** ** The operations of [WorkloadDriver] *)

Definition map_power (s : str) : WorkloadState :=
  if bool_decide (s = lit "POWERED_ON") then Running
  else if bool_decide (s = lit "POWERED_OFF") then Stopped
  else if bool_decide (s = lit "SUSPENDED") then Paused
  else Unknown.

Definition workload_of (v : VcVm) : Workload :=
  {| id := v.(vm); name := v.(vm_name); workload_type := Vm; state := map_power v.(power_state); cpu_cores := v.(cpu_count);
     memory_mb := v.(memory_size_mib); disk_gb := None; image := None; host := None; ips := [] |}.

Definition vm_url (d : VmwareDriver) (i suffix : str) : str := d.(base_url) ++ lit "/api/vcenter/vm/" ++ i ++ suffix.

Definition list_workloads (d : VmwareDriver) : IO (list Workload) :=
  resp ⇐ send_with_retry d (plain GET (d.(base_url) ++ lit "/api/vcenter/vm") NoBody);
  checked resp ;;
  vms ⇐ or_fail (fun e => permanent (lit "parse: " ++ e)) (json parse_vms resp);
  ret (map workload_of vms).

Definition get_workload (d : VmwareDriver) (i : str) : IO Workload :=
  resp ⇐ send_with_retry d (plain GET (vm_url d i []) NoBody);
  checked resp ;;
  v ⇐ or_fail (fun e => permanent (lit "parse: " ++ e)) (json parse_vm resp);
  ret (workload_of v).

Definition start (d : VmwareDriver) (i : str) : IO unit :=
  resp ⇐ send_with_retry d (plain POST (vm_url d i (lit "/power/start")) NoBody); checked resp ;; ret tt.
Definition stop (d : VmwareDriver) (i : str) : IO unit :=
  resp ⇐ send_with_retry d (plain POST (vm_url d i (lit "/power/stop")) NoBody); checked resp ;; ret tt.
Definition restart (d : VmwareDriver) (i : str) : IO unit :=
  resp ⇐ send_with_retry d (plain POST (vm_url d i (lit "/power/reset")) NoBody); checked resp ;; ret tt.
Definition destroy (d : VmwareDriver) (i : str) : IO unit :=
  resp ⇐ send_with_retry d (plain DELETE (vm_url d i []) NoBody); checked resp ;; ret tt.

Definition resize (d : VmwareDriver) (i : str) (cpu mem : option Z) : IO unit :=
  match cpu with
  | Some count =>
      resp ⇐ send_with_retry d (plain PATCH (vm_url d i (lit "/hardware/cpu")) (JsonObject [(lit "count", count)]));
      checked resp ;; ret tt
  | None => ret tt
  end ;;
  match mem with
  | Some mib =>
      resp ⇐ send_with_retry d (plain PATCH (vm_url d i (lit "/hardware/memory"))
                                  (JsonObject [(lit "size_mib", mib); (lit "size_MiB", mib)]));
      checked resp ;; ret tt
  | None => ret tt
  end.

(** ** Sessions are fresh *)

Inductive Op : Type :=
  | OpList
  | OpGet (i : str)
  | OpStart (i : str)
  | OpStop (i : str)
  | OpRestart (i : str)
  | OpDestroy (i : str)
  | OpResize (i : str) (cpu mem : option Z)
  | OpDrop (in_runtime : bool).

Definition run (d : VmwareDriver) (op : Op) : IO unit :=
  match op with
  | OpList => list_workloads d ;; ret tt
  | OpGet i => get_workload d i ;; ret tt
  | OpStart i => start d i
  | OpStop i => stop d i
  | OpRestart i => restart d i
  | OpDestroy i => destroy d i
  | OpResize i cpu mem => resize d i cpu mem
  | OpDrop in_runtime => drop_driver d in_runtime
  end.

(** The session is the one a login of the history returned, with the lifetime it started with. *)
Definition granted (d : VmwareDriver) (s : Session) (h : hist) : Prop :=
  exists h0 h1 resp t, h = h0 ++ [Sent d.(client) (login d)] ++ h1
    /\ send h0 d.(client) (login d) = Some (Ok resp) /\ is_success resp.(status) = true /\ resp.(text) = Ok t
    /\ s.(session) = session_text t /\ s.(session) <> []
    /\ s.(expires_at_epoch_secs) = utc (h0 ++ [Sent d.(client) (login d)]) + 1800.

Definition keeps_session (d : VmwareDriver) (s : option Session) (h : hist) : Prop :=
  match s with Some ss => granted d ss h | None => True end.

(** A login with the password; a request with a session that has more than a minute left; or
    the logout of a session when the driver is dropped, which may have expired. *)
Definition fresh (dropped : bool) (d : VmwareDriver) (h : hist) (e : event) : Prop :=
  match e with
  | Sent c r =>
      c = d.(client)
      /\ (r = login d
          \/ exists s, granted d s h /\ r.(headers) = [(lit "vmware-api-session-id", s.(session))] /\ r.(basic_auth) = None
             /\ (utc h + 60 < s.(expires_at_epoch_secs)
                 \/ dropped = true /\ r.(method) = DELETE /\ r.(url) = d.(base_url) ++ lit "/rest/com/vmware/cis/session" /\ r.(body) = NoBody))
  | Slept _ => False
  end.

(** The session text [i] is usable now. *)
Definition usable (d : VmwareDriver) (i : str) (s : option Session) (h : hist) : Prop :=
  keeps_session d s h /\ exists ss, granted d ss h /\ utc h + 60 < ss.(expires_at_epoch_secs) /\ i = ss.(session).

Lemma granted_grows d s h e : granted d s h -> granted d s (h ++ [e]).
Proof.
  intros (h0 & h1 & resp & t & -> & H). exists h0, (h1 ++ [e]), resp, t. split; [by rewrite <- !app_assoc|done].
Qed.

Lemma keeps_grows d s h e : keeps_session d s h -> keeps_session d s (h ++ [e]).
Proof. destruct s; [apply granted_grows|done]. Qed.

Section sessions.
Context (dropped : bool).
#[local] Abbreviation fresh := (fresh dropped).
#[local] Abbreviation hoare d := (triple (fresh d)).

Lemma authenticate_ok d : hoare d (keeps_session d) (authenticate d) (either (keeps_session d) (usable d)).
Proof.
  intros s h out s' h' Hk H. unfold authenticate in H. rewrite bind_request in H.
  assert (Ht : traced (fresh d) h (h ++ [Sent (client d) (login d)])) by (apply traced_snoc; [constructor|by split; [|left]]).
  assert (Hstop : forall o : outcome str, stops o -> (o, (s, h ++ [Sent (client d) (login d)])) = (out, (s', h')) ->
    traced (fresh d) h h' /\ either (keeps_session d) (usable d) out s' h').
  { intros o Ho [= <- <- <-]. split; [done|]. destruct o; try done; by apply keeps_grows. }
  destruct (send h (client d) (login d)) as [[resp|e]|] eqn:Es; [rewrite bind_or_fail_ok in H|by apply (Hstop (Fail _) I H)|by apply (Hstop Hangs I H)].
  destruct (is_success (status resp)) eqn:Eok; cbn [negb] in H.
  2:{ unfold auth_failed, bind, redact, or_panic, ret, fail in H. destruct (redact_sensitive _); [by apply (Hstop (Fail _) I H)|by apply (Hstop Panic I H)]. }
  destruct (text resp) as [t|e] eqn:Et; [rewrite bind_or_fail_ok in H|by apply (Hstop (Fail _) I H)].
  cbv zeta in H. destruct (bool_decide_reflect (session_text t = [])) as [|Hne]; [by apply (Hstop (Fail _) I H)|].
  injection H as <- <- <-. split; [done|].
  set (ss := {| session := session_text t; expires_at_epoch_secs := utc (h ++ [Sent (client d) (login d)]) + SESSION_LIFETIME_SECS |}).
  assert (Hg : granted d ss (h ++ [Sent (client d) (login d)])) by (exists h, [], resp, t; done).
  split; [done|]. exists ss. split; [done|]. split; [|done]. cbn. unfold SESSION_LIFETIME_SECS. lia.
Qed.

Lemma session_id_ok d : hoare d (keeps_session d) (session_id d) (either (keeps_session d) (usable d)).
Proof.
  intros s h out s' h' Hk H. unfold session_id in H. unfold bind at 1 2, read_state, history in H. cbn [fst snd] in H.
  destruct s as [ss|]; [|by eapply authenticate_ok].
  destruct (Z.ltb_spec (utc h + SESSION_REFRESH_BEFORE_SECS) (expires_at_epoch_secs ss)) as [Hlt|]; [|by eapply authenticate_ok].
  injection H as <- <- <-. split; [constructor|]. split; [done|]. by exists ss.
Qed.

Definition carries (d : VmwareDriver) (m : Method) (u : str) (b : Body) (r : Request) (s : option Session) (h : hist) : Prop :=
  exists i, usable d i s h /\ r = with_header (plain m u b) i.

Lemma add_session_ok d m u b :
  hoare d (keeps_session d) (add_session d (plain m u b)) (either (keeps_session d) (carries d m u b)).
Proof. eapply triple_bind; [apply session_id_ok|]. intros i. apply triple_ret. intros s h H. by exists i. Qed.

Lemma request_ok d m u b r :
  hoare d (carries d m u b r) (request d.(client) r) (either (keeps_session d) (fun _ => keeps_session d)).
Proof.
  intros s h out s' h' (i & (Hk & ss & Hg & Hlt & ->) & ->) H. apply keeps_grows with (e := Sent (client d) (with_header (plain m u b) (session ss))) in Hk.
  apply request_inv in H as (-> & -> & Ho). split; [|by destruct out].
  apply traced_snoc; [constructor|]. split; [done|]. right. exists ss. split_and!; [done..|by left].
Qed.

(** The logout is not held to the lifetime of the session. *)
Lemma drop_ok d in_runtime : dropped = true -> hoare d (keeps_session d) (drop_driver d in_runtime) (either (keeps_session d) (fun _ => keeps_session d)).
Proof.
  intros Hd. unfold drop_driver. destruct in_runtime; [|by apply triple_ret]. intros s h out s' h' Hk. unfold bind at 1, read_state. cbn [fst snd].
  destruct s as [ss|]; [|intros [= <- <- <-]; by split; [constructor|]]. rewrite bind_request. set (r := {| method := DELETE |}).
  assert (Ht : traced (fresh d) h (h ++ [Sent (client d) r])).
  { apply traced_snoc; [constructor|]. split; [done|]. right. exists ss. split_and!; [done..|by right]. }
  destruct (send h (client d) r); intros [= <- <- <-]; (split; [done|]); by apply (keeps_grows d (Some ss)).
Qed.

Lemma or_fail_keeps {E A} d (f : E -> WorkloadError) (r : result E A) :
  hoare d (keeps_session d) (or_fail f r) (either (keeps_session d) (fun _ => keeps_session d)).
Proof. destruct r; [by apply triple_ret|by apply triple_fail]. Qed.

Lemma send_with_retry_ok d m u b :
  hoare d (keeps_session d) (send_with_retry d (plain m u b)) (either (keeps_session d) (fun _ => keeps_session d)).
Proof.
  eapply triple_bind; [apply add_session_ok|]. intros r. eapply triple_bind; [apply request_ok|]. intros a.
  eapply triple_bind; [apply or_fail_keeps|]. intros first. destruct (status first =? 401); [|by apply triple_ret].
  eapply (triple_bind _ _ _ (fun _ => keeps_session d)).
  { intros s h out s' h' Hk [= <- <- <-]. split; [constructor|done]. }
  intros _. eapply (triple_bind _ _ _ (fun _ => keeps_session d)).
  { eapply triple_weaken; [done| |apply session_id_ok]. intros [] s h; try done. by intros []. }
  intros _. eapply triple_bind; [apply add_session_ok|]. intros r'. eapply triple_bind; [apply request_ok|]. intros a'. apply or_fail_keeps.
Qed.

Lemma sent_ok {A} d m u b (k : Response -> IO A) :
  (forall resp, hoare d (keeps_session d) (k resp) (either (keeps_session d) (fun _ => keeps_session d))) ->
  hoare d (keeps_session d) (bind (send_with_retry d (plain m u b)) (fun resp => bind (checked resp) (fun _ => k resp)))
    (either (keeps_session d) (fun _ => keeps_session d)).
Proof.
  intros Hk. eapply triple_bind; [apply send_with_retry_ok|]. intros resp. eapply triple_bind; [by apply triple_checked|].
  intros x. eapply triple_weaken; [|done|apply Hk]. by intros s h [].
Qed.

Lemma run_ok d op : dropped = (if op is OpDrop _ then true else false) -> hoare d (keeps_session d) (run d op) (either (keeps_session d) (fun _ => keeps_session d)).
Proof.
  intros Hd. assert (Hret : forall A (a : A), hoare d (keeps_session d) (ret a) (either (keeps_session d) (fun _ => keeps_session d))).
  { intros. by apply triple_ret. }
  destruct op as [|i|i|i|i|i|i cpu mem|rt]; cbn [run];
    try (apply sent_ok; intros; apply Hret);
    try (eapply triple_bind; [apply sent_ok; intros; eapply triple_bind; [apply or_fail_keeps|intros; apply Hret]|intros; apply Hret]);
    [|by apply drop_ok].
  eapply triple_bind; [|intros; destruct mem]; [destruct cpu| |]; try apply Hret; apply sent_ok; intros; apply Hret.
Qed.

End sessions.

(** C20: Used by one task at a time, a VMware driver sends three kinds of requests, all with its
    own client: its login; requests with a session that the server granted in answer to a login
    of this driver, with more than a minute of its half hour left by the clock of the driver, and
    no password; and, when the driver is dropped, the logout of such a session, which may have
    expired by then.  The driver only ever keeps sessions granted to it. *)
Theorem sessions_fresh d op s h out s' h' :
  keeps_session d s h -> run d op (s, h) = (out, (s', h')) ->
  keeps_session d s' h'
  /\ exists es, h' = h ++ es /\ forall es1 e es2, es = es1 ++ e :: es2 -> fresh (if op is OpDrop _ then true else false) d (h ++ es1) e.
Proof.
  intros Hk H. destruct (run_ok _ d op eq_refl _ _ _ _ _ Hk H) as [Ht Hp]. split; [by destruct out|].
  destruct (traced_app _ _ _ Ht) as [es ->]. exists es. split; [done|]. intros es1 e es2 ->. by eapply traced_split.
Qed.

(** ** Retries *)

Definition logins (d : VmwareDriver) (es : list event) : Prop := Forall (eq (Sent d.(client) (login d))) es.

Lemma authenticate_logs d s h out s' h' : authenticate d (s, h) = (out, (s', h')) ->
  h' = h ++ [Sent d.(client) (login d)] /\ out <> Unfinished.
Proof.
  unfold authenticate. rewrite bind_request. destruct (send h (client d) (login d)) as [[resp|e]|]; [rewrite bind_or_fail_ok|by intros [= <- <- <-]..].
  destruct (is_success (status resp)); cbn [negb].
  2:{ unfold auth_failed, bind, redact, or_panic, ret, fail. destruct (redact_sensitive _); by intros [= <- <- <-]. }
  destruct (text resp) as [t|e]; [rewrite bind_or_fail_ok|by intros [= <- <- <-]]. cbv zeta. case_match; by intros [= <- <- <-].
Qed.

Lemma session_id_logs d s h out s' h' : session_id d (s, h) = (out, (s', h')) ->
  exists es, h' = h ++ es /\ logins d es /\ out <> Unfinished /\ (s = None -> es <> []).
Proof.
  unfold session_id, bind at 1 2, read_state, history. cbn [fst snd].
  assert (Ha : authenticate d (s, h) = (out, (s', h')) -> exists es, h' = h ++ es /\ logins d es /\ out <> Unfinished /\ (s = None -> es <> [])).
  { intros [-> Ho]%authenticate_logs. eexists. split; [done|]. split; [by repeat constructor|done]. }
  destruct s as [ss|]; [|done]. case_match; [|done]. intros [= <- <- <-]. exists []. rewrite app_nil_r. split; [done|]. split; [constructor|done].
Qed.

(** What is left of the driver's work after the session was obtained. *)
Lemma add_session_logs d r s h out s' h' : add_session d r (s, h) = (out, (s', h')) ->
  exists es, h' = h ++ es /\ logins d es /\ (stops out \/ exists i, out = Ret (with_header r i)).
Proof.
  unfold add_session, bind. destruct (session_id d (s, h)) as [o [s1 h1]] eqn:E. apply session_id_logs in E as (es & -> & Hl & Hu & _).
  destruct o; intros [= <- <- <-]; exists es; (split; [done|]; split; [done|]); eauto; by left.
Qed.

Definition answered (h : hist) (d : VmwareDriver) (r : Request) (ctx : str) (out : outcome Response) : Prop :=
  out = match send h d.(client) r with Some (Ok resp) => Ret resp | Some (Err e) => Fail (transient (ctx ++ e)) | None => Hangs end.

(** The second try, after a login that cannot be avoided. *)
Lemma retry_logs d r s h out s' h' :
  (write_state None ;; session_id d ;;
   r ⇐ add_session d r;
   answer ⇐ request d.(client) r;
   or_fail (fun e => transient (lit "retry send: " ++ e)) answer) (s, h) = (out, (s', h')) ->
  exists l, logins d l /\ l <> []
  /\ ((h' = h ++ l /\ stops out)
      \/ exists i, h' = h ++ l ++ [Sent d.(client) (with_header r i)] /\ answered (h ++ l) d (with_header r i) (lit "retry send: ") out).
Proof.
  unfold bind at 1, write_state. cbn [fst snd]. unfold bind at 1.
  destruct (session_id d _) as [o [s1 h1]] eqn:E1. apply session_id_logs in E1 as (l1 & -> & Hl1 & Hu1 & Hne). specialize (Hne eq_refl).
  destruct o as [i0|e| | |]; [|intros [= <- <- <-]; exists l1; (split; [done|]; split; [done|]); by left..|done].
  unfold bind at 1. destruct (add_session d r _) as [o [s2 h2]] eqn:E2. apply add_session_logs in E2 as (l2 & -> & Hl2 & Ho).
  assert (Hl : logins d (l1 ++ l2) /\ l1 ++ l2 <> []) by (split; [by apply Forall_app|by destruct l1]).
  rewrite <- app_assoc. destruct Ho as [Hs|[i ->]].
  - destruct o; try done; intros [= <- <- <-]; exists (l1 ++ l2); (split; [apply Hl|]; split; [apply Hl|]); by left.
  - rewrite bind_request. intros H. exists (l1 ++ l2). split; [apply Hl|]. split; [apply Hl|]. right. exists i. rewrite <- !app_assoc in *.
    unfold answered. destruct (send _ _ _) as [[]|]; injection H as <- <- <-; done.
Qed.

(** a request of the VMware driver reaches the server at most twice.  Apart from logins it
    is sent once, and a second time only if the first answer was 401 and a new login was made in
    between; the answer to the last try is the result, whatever it is.  If a login fails the
    request is not sent. *)
Theorem retried_once d r s h out s' h' :
  send_with_retry d r (s, h) = (out, (s', h')) ->
  exists es, h' = h ++ es
  /\ ((logins d es /\ stops out)
      \/ exists l i, logins d l
         /\ ((es = l ++ [Sent d.(client) (with_header r i)] /\ answered (h ++ l) d (with_header r i) (lit "send: ") out
              /\ forall resp, out = Ret resp -> resp.(status) <> 401)
             \/ exists resp l', send (h ++ l) d.(client) (with_header r i) = Some (Ok resp) /\ resp.(status) = 401 /\ logins d l' /\ l' <> []
                /\ ((es = l ++ [Sent d.(client) (with_header r i)] ++ l' /\ stops out)
                    \/ exists i', es = l ++ [Sent d.(client) (with_header r i)] ++ l' ++ [Sent d.(client) (with_header r i')]
                         /\ answered (h ++ l ++ [Sent d.(client) (with_header r i)] ++ l') d (with_header r i') (lit "retry send: ") out))).
Proof.
  unfold send_with_retry. unfold bind at 1. destruct (add_session d r (s, h)) as [o [s1 h1]] eqn:E1.
  apply add_session_logs in E1 as (l & -> & Hl & [Hs|[i ->]]).
  { destruct o; try done; intros [= <- <- <-]; exists l; (split; [done|]); by left. }
  rewrite bind_request, <- app_assoc. destruct (send (h ++ l) (client d) (with_header r i)) as [[first|e]|] eqn:Es.
  2,3: by intros [= <- <- <-]; eexists; (split; [done|]); right; exists l, i; (split; [done|]); left; unfold answered; rewrite Es.
  rewrite bind_or_fail_ok. destruct (Z.eqb_spec (status first) 401) as [E401|E401].
  2:{ intros [= <- <- <-]. eexists. split; [done|]. right. exists l, i. split; [done|]. left.
      unfold answered. rewrite Es. split; [done|]. split; [done|]. by intros resp [= ->]. }
  intros H. apply retry_logs in H as (l' & Hl' & Hne & [[-> Hs]|(i' & -> & Ha)]); eexists; (split; [by rewrite <- !app_assoc|]);
    right; exists l, i; (split; [done|]); right; exists first, l'; do 4 (split; [done|]).
  - by left.
  - right. exists i'. split; [done|]. by rewrite <- !app_assoc in Ha.
Qed.

(** A driver that has connected keeps the session of its first login. *)
Lemma connected_keeps hst user pw tls w d s' h' :
  connect_tls hst user pw tls w = (Ret d, (s', h')) ->
  keeps_session d s' h' /\ s' <> None /\ d.(base_url) = lit "https://" ++ hst /\ build_client (lit "vmware") tls = Ok d.(client).
Proof.
  unfold connect_tls. intros H. apply bind_ret_inv in H as (r & w1 & _ & H). apply bind_ret_inv in H as ([] & w2 & _ & H).
  apply bind_ret_inv in H as (c & w3 & [Hc ->]%or_fail_inv & H). cbv zeta in H.
  apply bind_ret_inv in H as ([] & [s3 h3] & [= <- <-] & H). apply bind_ret_inv in H as (i & [s4 h4] & Ha & [= <- <- <-]).
  split; [|split; [|done]].
  - by destruct (authenticate_ok false _ None _ _ _ _ I Ha) as [_ [Hk _]].
  - clear -Ha. unfold authenticate in Ha. rewrite bind_request in Ha. destruct (send _ _ _) as [[resp|e]|]; [rewrite bind_or_fail_ok in Ha|done..].
    destruct (negb _); [by apply bind_ret_inv in Ha as (? & ? & _ & [=])|].
    destruct (text resp) as [t|e]; [rewrite bind_or_fail_ok in Ha|done]. cbv zeta in Ha. destruct (bool_decide _); [done|]. by injection Ha as _ <- _.
Qed.

End vmware.

(** ** A server *)

Module VmwareExamples.

(** A vCenter that grants the session "tok" and knows no other. *)
#[local] Instance server : Net := {|
  send h c r := Some (Ok (match r.(basic_auth) with
                    | Some _ => {| status := 201; text := Ok ([c_quote] ++ lit "tok" ++ [c_quote]) |}
                    | None => if bool_decide (r.(headers) = [(lit "vmware-api-session-id", lit "tok")])
                              then {| status := 204; text := Ok [] |} else {| status := 401; text := Ok [] |}
                    end));
  now h := Z.of_nat (length h);
  utc h := Z.of_nat (length h);
  show_status := show_uint;
  read_file p := Err (lit "missing");
  from_pem p := Err (lit "unreadable");
  host_parse p := Ok tt
|}.

#[local] Instance reader : Vc := {| parse_vms t := Ok []; parse_vm t := Err t |}.

Definition secure : Client := {| accept_invalid_certs := false; root_certificates := [] |}.
Definition driver : VmwareDriver := {| client := secure; base_url := lit "https://vc"; username := lit "admin"; password := lit "pw" |}.
Definition start_vm (i : str) : Request := with_header (plain POST (lit "https://vc/api/vcenter/vm/vm-7/power/start") NoBody) i.
Definition logged_in : option Session := Some {| session := lit "tok"; expires_at_epoch_secs := 1801 |}.

Lemma vm_started : run driver (OpStart (lit "vm-7")) (None, [])
  = (Ret tt, (logged_in, [Sent secure (login driver); Sent secure (start_vm (lit "tok"))])).
Proof. vm_compute. reflexivity. Qed.

(** A session the server has forgotten is replaced and the request repeated. *)
Lemma repeated : send_with_retry driver (plain POST (lit "https://vc/api/vcenter/vm/vm-7/power/start") NoBody)
    (Some {| session := lit "old"; expires_at_epoch_secs := 1000 |}, [])
  = (Ret {| status := 204; text := Ok [] |},
     (Some {| session := lit "tok"; expires_at_epoch_secs := 1802 |},
      [Sent secure (start_vm (lit "old")); Sent secure (login driver); Sent secure (start_vm (lit "tok"))])).
Proof. vm_compute. reflexivity. Qed.

Lemma sessions_fresh_witness :
  keeps_session driver logged_in [Sent secure (login driver); Sent secure (start_vm (lit "tok"))]
  /\ exists es, [Sent secure (login driver); Sent secure (start_vm (lit "tok"))] = [] ++ es
     /\ forall es1 e es2, es = es1 ++ e :: es2 -> fresh false driver ([] ++ es1) e.
Proof. exact (sessions_fresh driver (OpStart (lit "vm-7")) None [] _ logged_in _ I vm_started). Defined.

Lemma retried_once_witness :
  exists es, [Sent secure (start_vm (lit "old")); Sent secure (login driver); Sent secure (start_vm (lit "tok"))] = [] ++ es /\ length es = 3%nat.
Proof.
  destruct (retried_once _ _ _ _ _ _ _ repeated) as (es & H & _). exists es. split; [exact H|]. cbn in H. by rewrite <- H.
Defined.

End VmwareExamples.
