(* ===== verification/Explorer.v ===== *)
(** * Listing, searching and moving remote files

    The rest of [runesh-remote/src/fs/explorer.rs], on the file tree with links of [RemoteFs]:
    [list_dir], [stat], [mkdir], [rename] and [search], with the [FileEntry] they return.  The
    times, permissions and lengths that are not in the tree are parameters, as are the order in
    which the system lists a directory and [str::to_lowercase].  The theorems state what a
    listing holds and in what order, and that a search stays inside the sandbox. *)
From stdpp Require Import sorting.
From S2P Require Import Prelude Str Path Text RemoteFs.

#[local] Open Scope Z_scope.

(** ** Entries ([protocol.rs]) *)

Record FilePermissions := {
  readonly : bool;
  mode : option Z;
  hidden : bool;
  system : bool
}.

Record FileEntry := {
  name : str;
  epath : str;
  entry_is_dir : bool;
  entry_is_file : bool;
  is_symlink : bool;
  size : Z;
  modified : option str;
  created : option str;
  permissions : FilePermissions
}.

(** What the system knows of a path besides the tree. *)
Class Attributes := {
  modified_at : list str -> option str;
  created_at : list str -> option str;
  is_readonly : list str -> bool;
  unix_mode : list str -> option Z;
  len_of : list str -> Z;
  dir_order : list str -> list str;
  walk_order : list (list str) -> list (list str);
  to_lowercase : str -> str
}.

(** A directory is listed, and a tree walked, in some order. *)
Class AttributesLaws (A : Attributes) : Prop := {
  dir_order_perm l : dir_order l ≡ₚ l;
  walk_order_perm l : walk_order l ≡ₚ l
}.

Section explorer.
Context `{A : Attributes}.

Definition is_hidden (p : list str) : bool := match last p with Some n => starts_with [c_dot] n | None => false end.

(** [symlink_metadata], of a path whose directory has no links left. *)
Definition file_entry_from_path (fs : ltree) (p : list str) : option FileEntry :=
  n ← lnode_at fs p;
  Some {| name := default [] (last p); epath := display_absolute p;
          entry_is_dir := match n with LDir => true | _ => false end;
          entry_is_file := match n with LFile _ => true | _ => false end;
          is_symlink := match n with LLink _ => true | _ => false end;
          size := match n with LFile b => Z.of_nat (length b) | _ => len_of p end;
          modified := modified_at p; created := created_at p;
          permissions := {| readonly := is_readonly p; mode := unix_mode p; hidden := is_hidden p; system := false |} |}.

Definition stat (fs : ltree) (policy : FsPolicy) (p : str) : result RemoteError FileEntry :=
  resolved ← resolve_path fs policy p;
  ok_or Io (file_entry_from_path fs resolved).

(** ** Listing *)

(** Directories first, then by name in lower case. *)
Definition entry_le (a b : FileEntry) : Prop :=
  (a.(entry_is_dir) = true /\ b.(entry_is_dir) = false)
  \/ (a.(entry_is_dir) = b.(entry_is_dir) /\ str_le (to_lowercase a.(name)) (to_lowercase b.(name)) = true).

#[local] Instance entry_le_dec a b : Decision (entry_le a b).
Proof. unfold entry_le. apply _. Defined.

Definition list_dir (fs : ltree) (policy : FsPolicy) (p : str) (show_hidden : bool) : result RemoteError (list FileEntry) :=
  resolved ← resolve_path fs policy p;
  if negb (is_dir fs (absolute resolved)) then Err (BadRequest (lit "Not a directory: " ++ p))
  else
    let names := filter (fun n => show_hidden || negb (starts_with [c_dot] n) = true) (dir_order (names_in fs resolved)) in
    Ok (merge_sort entry_le (filter_map (fun n => file_entry_from_path fs (resolved ++ [n])) names)).

(** ** Directories and moves *)

Definition parent_is_dir (fs : ltree) (p : list str) : bool :=
  match lnode_at fs (drop_last p) with Some LDir => true | _ => false end.

(** [mkdir(2)]. *)
Definition os_mkdir (fs : ltree) (p : list str) : option ltree :=
  if parent_is_dir fs p then match lnode_at fs p with None => Some (<[p := LDir]> fs) | Some _ => None end else None.

Definition mkdir (fs : ltree) (policy : FsPolicy) (p : str) (recursive : bool) : result RemoteError unit * ltree :=
  match (_ ← check_write policy; resolve_path fs policy p) with
  | Err e => (Err e, fs)
  | Ok resolved =>
      match (if recursive then make_dirs [] resolved fs else os_mkdir fs resolved) with
      | Some fs' => (Ok tt, fs')
      | None => (Err Io, fs)
      end
  end.

(** The tree with everything at or below [s] moved to [d]. *)
Definition move_tree (fs : ltree) (s d : list str) : ltree :=
  list_to_map (map (fun kv => (d ++ drop (length s) kv.1, kv.2)) (filter (fun kv => below_or_at s kv.1 = true) (map_to_list fs)))
  ∪ delete d (filter (fun kv => below_or_at s kv.1 = false) fs).

(** [rename(2)] of two paths whose directories have no links left. *)
Definition os_rename (fs : ltree) (s d : list str) : option ltree :=
  match fs !! s with
  | None => None
  | Some n =>
      if bool_decide (s = d) then Some fs
      else if negb (parent_is_dir fs d) || below_or_at s d then None
      else match n, lnode_at fs d with
           | LDir, Some LDir => if bool_decide (names_in fs d = []) then Some (move_tree fs s d) else None
           | LDir, Some _ => None
           | _, Some LDir => None
           | _, _ => Some (move_tree fs s d)
           end
  end.

Definition rename (fs : ltree) (policy : FsPolicy) (src dst : str) : result RemoteError unit * ltree :=
  match (_ ← check_write policy; s ← resolve_path fs policy src; d ← resolve_path fs policy dst; Ok (s, d)) with
  | Err e => (Err e, fs)
  | Ok (src_path, dst_path) =>
      match os_rename fs src_path dst_path with
      | Some fs' => (Ok tt, fs')
      | None => (Err Io, fs)
      end
  end.

(** ** Search *)

(** [WalkDir], which does not follow links, twenty levels deep. *)
Definition walked (fs : ltree) (q : list str) : list (list str) :=
  walk_order (filter (fun p => below_or_at q p = true /\ (length p <= length q + 20)%nat /\ (p <> [] \/ q = []))
    ([] :: map fst (map_to_list fs))).

Definition contained (fs : ltree) (policy : FsPolicy) (c : list str) : bool :=
  match canonicalize fs policy.(root) with
  | Some r => bool_decide (r `prefix_of` c)
  | None => bool_decide (policy.(root) `prefix_of` absolute c)
  end.

Definition name_matches (pattern : str) (p : list str) : bool :=
  contains_str (to_lowercase pattern) (to_lowercase (default [c_slash] (last p))).

Definition search (fs : ltree) (policy : FsPolicy) (p pattern : str) (max_results : Z) : result RemoteError (list FileEntry) :=
  resolved ← resolve_path fs policy p;
  let results := take (Z.to_nat (Z.min max_results 10000)) (filter (fun q => name_matches pattern q = true) (walked fs resolved)) in
  Ok (filter_map (fun q => c ← canonicalize fs (absolute q);
                           if contained fs policy c then file_entry_from_path fs c else None) results).

(** ** Listings *)

Lemma entry_of_name fs p e : file_entry_from_path fs p = Some e -> e.(name) = default [] (last p) /\ e.(epath) = display_absolute p
  /\ lnode_at fs p <> None /\ (e.(entry_is_dir) = true <-> lnode_at fs p = Some LDir).
Proof.
  unfold file_entry_from_path. destruct (lnode_at fs p) as [n|]; [|done]. intros [= <-]. cbn. split_and!; try done.
  destruct n; split; by intros.
Qed.

#[local] Instance entry_le_trans : Transitive entry_le.
Proof.
  intros a b c [[H1 H2]|[H1 H2]] [[H3 H4]|[H3 H4]]; unfold entry_le; [left; done|left|left|right]; rewrite ?H1, <- ?H3, ?H2 in *; try done.
  split; [done|]. by eapply str_le_trans.
Qed.

#[local] Instance entry_le_total : Total entry_le.
Proof.
  intros a b. unfold entry_le. destruct (entry_is_dir a), (entry_is_dir b); auto; destruct (str_le_total (to_lowercase (name a)) (to_lowercase (name b))); auto.
Qed.

Context {L : AttributesLaws A}.

Lemma elem_of_names_in fs d n : n ∈ names_in fs d <-> is_Some (fs !! (d ++ [n])).
Proof.
  unfold names_in. rewrite elem_of_filter_map. split.
  - intros ([k v] & Hk & H). apply elem_of_map_to_list in Hk. cbn [fst] in H. destruct (unsnoc k) as [[q m]|] eqn:E; [|done].
    destruct (bool_decide_reflect (q = d)) as [->|]; [|done]. injection H as <-. apply unsnoc_some in E as ->. by exists v.
  - intros [v Hv]. exists (d ++ [n], v). split; [by apply elem_of_map_to_list|]. cbn [fst]. rewrite unsnoc_snoc. by rewrite bool_decide_true.
Qed.

(** Different keys of the map give different names. *)
Lemma NoDup_filter_map_keys {V B} (f : list str -> option B) (g : B -> list str) (l : list (list str * V)) :
  (forall k b, f k = Some b -> g b = k) -> NoDup l.*1 -> NoDup (filter_map (fun kv => f kv.1) l).
Proof.
  intros Hg. induction l as [|[k v] l IH]; cbn [filter_map fmap list_fmap fst]; [constructor|]. intros [Hk Hl]%NoDup_cons.
  destruct (f k) as [b|] eqn:E; [|by apply IH]. apply NoDup_cons. split; [|by apply IH].
  intros ([k' v'] & Hin & Hb)%elem_of_filter_map. apply Hk. apply Hg in E, Hb. cbn in Hb. rewrite <- E, Hb. apply list_elem_of_fmap. by exists (k', v').
Qed.

Lemma NoDup_names_in fs d : NoDup (names_in fs d).
Proof.
  apply (NoDup_filter_map_keys (fun k => match unsnoc k with Some (dir, n) => if bool_decide (dir = d) then Some n else None | None => None end)
           (fun n => d ++ [n])); [|apply NoDup_fst_map_to_list].
  intros k n H. destruct (unsnoc k) as [[q m]|] eqn:E; [|done]. destruct (bool_decide_reflect (q = d)) as [->|]; [|done].
  injection H as <-. by apply unsnoc_some in E as ->.
Qed.

(** a listing of a remote directory holds, once each, exactly the entries of the directory
    the path resolves to, without those whose names start with a dot unless they are asked for;
    it has the directories before everything else, and names in the order of their lower case. *)
Theorem list_dir_spec fs policy p show_hidden es :
  list_dir fs policy p show_hidden = Ok es ->
  exists d, resolve_path fs policy p = Ok d /\ is_dir fs (absolute d) = true
    /\ StronglySorted entry_le es /\ NoDup (map name es)
    /\ forall e, e ∈ es <-> exists n, is_Some (fs !! (d ++ [n])) /\ (show_hidden = true \/ starts_with [c_dot] n = false)
                             /\ file_entry_from_path fs (d ++ [n]) = Some e.
Proof.
  intros H. apply bind_ok_inv in H as (d & Hd & H). exists d. split; [done|].
  destruct (is_dir fs (absolute d)) eqn:Ed; [|done]. cbn [negb] in H. injection H as <-. split; [done|]. split.
  { apply StronglySorted_merge_sort; apply _. }
  set (names := filter _ _). set (l := filter_map _ names).
  assert (Hnd : NoDup names) by (apply NoDup_filter; rewrite dir_order_perm; apply NoDup_names_in).
  assert (Hn : forall n e, file_entry_from_path fs (d ++ [n]) = Some e -> name e = n).
  { intros n e He. apply entry_of_name in He as (-> & _). by rewrite last_snoc. }
  split.
  - rewrite merge_sort_Permutation. subst l. clearbody names. induction names as [|n names IH]; cbn [filter_map]; [constructor|].
    apply NoDup_cons in Hnd as [Hin Hnd]. destruct (file_entry_from_path fs (d ++ [n])) as [e|] eqn:E; [|by apply IH].
    cbn [map]. apply NoDup_cons. split; [|by apply IH]. rewrite (Hn _ _ E). intros (e' & Ee & He')%list_elem_of_fmap.
    apply elem_of_filter_map in He' as (m & Hm & He'). apply Hin. apply Hn in He'. by rewrite Ee, He'.
  - intros e. rewrite merge_sort_Permutation. unfold l. rewrite elem_of_filter_map. split.
    + intros (n & Hin & He). apply list_elem_of_filter in Hin as [Hv Hin]. rewrite dir_order_perm in Hin. apply elem_of_names_in in Hin.
      exists n. split; [done|]. split; [|done]. apply orb_true_iff in Hv as [Hv|Hv]; [by left|]. right. by apply negb_true_iff.
    + intros (n & Hin & Hv & He). exists n. split; [|done]. apply list_elem_of_filter. split.
      * apply orb_true_iff. destruct Hv as [Hv|Hv]; rewrite Hv; [by left|by right].
      * rewrite dir_order_perm. by apply elem_of_names_in.
Qed.

(** every entry a search returns lies inside the sandbox: its path is the resolved path of
    something below the directory searched whose name contains the text in lower case, and is
    below the root of the sandbox; there are no more of them than asked for, nor than 10000. *)
Theorem search_confined fs policy p pattern max es e :
  search fs policy p pattern max = Ok es -> e ∈ es ->
  Z.of_nat (length es) <= Z.max 0 (Z.min max 10000)
  /\ exists d q c r, resolve_path fs policy p = Ok d /\ d `prefix_of` q
       /\ contains_str (to_lowercase pattern) (to_lowercase (default [c_slash] (last q))) = true
       /\ canonicalize fs (absolute q) = Some c /\ canonicalize fs policy.(root) = Some r /\ r `prefix_of` c
       /\ e.(epath) = display_absolute c.
Proof.
  intros H He. apply bind_ok_inv in H as (d & Hd & H). injection H as <-. split.
  - pose proof (filter_map_length (fun q => c ← canonicalize fs (absolute q); if contained fs policy c then file_entry_from_path fs c else None)
      (take (Z.to_nat (Z.min max 10000)) (filter (fun q => name_matches pattern q = true) (walked fs d)))) as Hl.
    rewrite length_take in Hl. lia.
  - apply elem_of_filter_map in He as (q & Hq & He). apply elem_of_take in Hq as (i & Hq & _). apply list_elem_of_lookup_2 in Hq.
    apply list_elem_of_filter in Hq as [Hm Hq]. unfold walked in Hq. rewrite walk_order_perm in Hq.
    apply list_elem_of_filter in Hq as [(Hb & _) _]. destruct (canonicalize fs (absolute q)) as [c|] eqn:Ec; [|done]. cbn in He.
    destruct (resolve_inside _ _ _ _ Hd) as (r & Hr & _). unfold contained in He. rewrite Hr in He.
    destruct (bool_decide_reflect (r `prefix_of` c)); [|done]. apply entry_of_name in He as (_ & He & _).
    exists d, q, c, r. split_and!; try done. by apply bool_decide_eq_true in Hb.
Qed.

End explorer.

(** ** Examples *)

Module ExplorerExamples.

#[local] Instance plain_attributes : Attributes := {|
  modified_at p := None; created_at p := None; is_readonly p := false; unix_mode p := Some 420; len_of p := 0;
  dir_order l := l; walk_order l := l; to_lowercase := to_ascii_lowercase
|}.
#[local] Instance plain_laws : AttributesLaws plain_attributes.
Proof. by split. Qed.

(** The entry of a node of the sandbox of [RemoteFs]. *)
Definition entry (p : list string) : option FileEntry := file_entry_from_path box (at_root p).

Lemma list_dir_spec_witness :
  exists es d, list_dir box policy (lit "d") true = Ok es /\ resolve_path box policy (lit "d") = Ok d /\ StronglySorted entry_le es /\ length es = 2%nat.
Proof.
  destruct (list_dir box policy (lit "d") true) as [es|] eqn:E; [|vm_compute in E; discriminate].
  destruct (list_dir_spec box policy (lit "d") true es E) as (d & Hd & _ & Hs & _). exists es, d.
  split; [reflexivity|]. split; [exact Hd|]. split; [exact Hs|]. vm_compute in E. injection E as <-. reflexivity.
Defined.

Lemma search_confined_witness :
  exists es e, search box policy [] (lit "F") 5 = Ok es /\ e ∈ es /\ Z.of_nat (length es) <= Z.max 0 (Z.min 5 10000).
Proof.
  destruct (search box policy [] (lit "F") 5) as [es|] eqn:E; [|vm_compute in E; discriminate].
  destruct es as [|e es]; [vm_compute in E; discriminate|]. exists (e :: es), e. split; [reflexivity|].
  split; [apply list_elem_of_here|].
  exact (proj1 (search_confined box policy [] (lit "F") 5 (e :: es) e E (list_elem_of_here e es))).
Defined.

(** The files the policy blocks are found by a search: only the root is checked, not the rest of
    the policy. *)
Theorem search_finds_blocked :
  (exists es e, search box policy (lit "d") (lit "env") 10 = Ok es /\ e ∈ es /\ e.(epath) = lit "/box/d/.env")
  /\ stat box policy (lit "d/.env") = Err (NotAllowed (lit "Access to '.env' paths is blocked")).
Proof.
  split; [|vm_compute; reflexivity].
  destruct (search box policy (lit "d") (lit "env") 10) as [es|] eqn:E; [|vm_compute in E; discriminate].
  destruct es as [|e es]; [vm_compute in E; discriminate|]. exists (e :: es), e. split; [done|]. split; [apply list_elem_of_here|].
  vm_compute in E. injection E as <- <-. vm_compute. reflexivity.
Qed.

End ExplorerExamples.
