(* ===== verification/RemoteWs.v ===== *)
(** * The remote WebSocket ([runesh-remote/src/handlers.rs], [protocol.rs], [auth.rs], [cli/audit.rs])

    One connection: the frame that authenticates it, and the requests for files and terminals
    that follow, each authorized, carried out by the explorer ([RemoteFs], [Explorer]), the
    upload manager and the sessions ([Terminal]), and answered.  The upload manager is an
    interface ([Uploads]), which [Transfer] implements; authentication and authorization are
    the trait [RemoteAuth] of the code.  The JSON of messages, Base64, the clock, new session
    ids and what a pseudo-terminal answers are parameters ([World]).  Of the audit log the
    events are kept, not their times.  Connections are served one request at a time; how the
    two locks of [open] interleave is in [Terminal].

    The theorems state which effects and answers need which authorization, that without
    authentication nothing happens, and what the audit log holds. *)
From stdpp Require Import sorting.
From Stdlib Require Import Floats.SpecFloat.
From S2P Require Import Prelude Str Path Text Fs Transfer RemoteFs Explorer Terminal.

#[local] Open Scope Z_scope.

(** ** Authentication ([auth.rs]) *)

Record Principal := { subject : str; display_name : option str; roles : list str }.

Inductive Operation : Type :=
  | FsRead | FsWrite | FsDelete | FsList | CliOpen | CliInput | CliResize | CliClose | OpUpload | OpDownload.

Inductive AuthError : Type :=
  | Unauthenticated (s : str)
  | Forbidden (s : str)
  | AuthInternal (s : str).

Definition show_auth_error (e : AuthError) : str :=
  match e with
  | Unauthenticated s => lit "authentication failed: " ++ s
  | Forbidden s => lit "authorization denied: " ++ s
  | AuthInternal s => lit "internal auth error: " ++ s
  end.

Class RemoteAuth := {
  authenticate : str -> result AuthError Principal;
  authorize : Principal -> Operation -> result AuthError unit
}.

Definition no_backend : str := lit "no auth backend configured (DenyAllAuth is the safe default)".
Definition DenyAllAuth : RemoteAuth := {|
  authenticate _ := Err (Unauthenticated no_backend);
  authorize _ _ := Err (Forbidden no_backend)
|}.

(** ** Messages ([protocol.rs]) *)

Inductive ArchiveFormat : Type := Zip | Tar.

Inductive FsRequest : Type :=
  | List (path : str) (show_hidden : bool)
  | Stat (path : str)
  | Read (path : str) (offset length : Z)
  | Write (path data : str) (offset : Z) (append : bool)
  | Mkdir (path : str) (recursive : bool)
  | Delete (path : str) (recursive : bool)
  | Copy (src dst : str)
  | Move (src dst : str)
  | Search (path pattern : str) (max_results : Z)
  | Upload (path : str) (chunk_index total_chunks : Z) (data : str)
  | Download (path : str)
  | Archive (paths : list str) (format : ArchiveFormat)
  | Watch (path : str)
  | Unwatch (path : str).

Inductive FsResponse : Type :=
  | Listing (path : str) (entries : list FileEntry)
  | StatOf (entry : FileEntry)
  | FileContent (path data : str) (offset total_size : Z) (checksum : str)
  | WriteOk (path : str) (bytes_written : Z)
  | Done (message : str)
  | Progress (operation path : str) (percent : spec_float)
  | SearchResults (path pattern : str) (found : list FileEntry)
  | FsFailed (code message : str).

Inductive CliRequest : Type :=
  | Open (r : OpenRequest)
  | Input (session_id data : str)
  | Resize (session_id : str) (cols rows : Z)
  | Close (session_id : str)
  | ListSessions.

Record SessionInfo := {
  info_id : str;
  info_shell : str;
  info_created : Z;
  info_activity : Z;
  info_cols : Z;
  info_rows : Z
}.

Inductive CliResponse : Type :=
  | Opened (session_id shell : str)
  | Output (session_id data : str)
  | Closed (session_id : str) (exit_code : option Z)
  | Sessions (sessions : list SessionInfo)
  | CliFailed (code message : str).

(** A frame the server sends. *)
Inductive Reply : Type := FsReply (r : FsResponse) | CliReply (r : CliResponse).

(** A frame it receives. *)
Inductive Message : Type := MText (t : str) | MClose | MBroken | MOther.

(** ** State *)

Inductive Detail : Type := ShellOf (s : str) | ExitCode (c : option Z) | PathOf (p : str).

Record AuditEntry := { event : str; user : option str; audit_session : option str; details : Detail }.

(** The upload manager: what a chunk does to its state and to the files. *)
Class Uploads (U : Type) := {
  handle_chunk : str -> Z -> Z -> list byte -> U * gmap (list str) lnode -> result RemoteError (bool * spec_float) * (U * gmap (list str) lnode)
}.

(** The state behind [RemoteState]: the files, the uploads, the sessions, the audit log, and what
    was typed into which terminal. *)
Record State (U : Type) := {
  fs : gmap (list str) lnode;
  uploads : U;
  terminals : Manager;
  audit : list AuditEntry;
  typed : list (str * list byte)
}.
Arguments fs {U} _.
Arguments uploads {U} _.
Arguments terminals {U} _.
Arguments audit {U} _.
Arguments typed {U} _.

(** A payload is JSON. *)
Inductive WsMessage (V : Type) : Type := FsMessage (payload : V) | CliMessage (payload : V).
Arguments FsMessage {V} _.
Arguments CliMessage {V} _.

Class World (U V : Type) := {
  policy : FsPolicy;
  config : SessionConfig;
  (* serde_json *)
  parse_auth : str -> result str (str * str);
  parse_message : str -> result str (WsMessage V);
  parse_fs : V -> result str FsRequest;
  parse_cli : V -> result str CliRequest;
  (* Base64 and SHA-256 *)
  encode : list byte -> str;
  decode : str -> result str (list byte);
  sha256_hex : list byte -> str;
  (* the archive that holds these entries *)
  zip_bytes : zip -> list byte;
  (* the system *)
  default_shell : str;
  base_env : gmap str str;
  terminal : State U -> Tty;
  max_nesting : nat;
  new_id : State U -> str;
  clock : State U -> Z;
  session_order : gmap str SessionState -> list (str * SessionState);
  pty_write : State U -> str -> list byte -> result RemoteError unit;
  pty_resize : State U -> str -> Z -> Z -> result RemoteError unit;
  pty_exit : State U -> str -> option Z;
  can_send : list Reply -> bool
}.

(** [error_code] and the display of an error; of an I/O error the text is not modelled. *)
Definition error_code (e : RemoteError) : str :=
  match e with
  | NotFound _ => lit "not_found"
  | AccessDenied _ => lit "access_denied"
  | PathTraversal _ => lit "path_traversal"
  | NotAllowed _ => lit "not_allowed"
  | Io => lit "io_error"
  | SessionNotFound _ => lit "session_not_found"
  | MaxSessions => lit "max_sessions"
  | SessionTimeout => lit "session_timeout"
  | BadRequest _ => lit "bad_request"
  | Serialization _ => lit "serialization_error"
  | Internal _ => lit "internal"
  | Pty _ => lit "pty"
  end.

Definition show_error (e : RemoteError) : str :=
  match e with
  | NotFound s => lit "Path not found: " ++ s
  | AccessDenied s => lit "Access denied: " ++ s
  | PathTraversal s => lit "Path traversal blocked: " ++ s
  | NotAllowed s => lit "Operation not allowed: " ++ s
  | Io => lit "IO error: "
  | SessionNotFound s => lit "Session not found: " ++ s
  | MaxSessions => lit "Max sessions reached"
  | SessionTimeout => lit "Session timeout"
  | BadRequest s => lit "Invalid request: " ++ s
  | Serialization s => lit "Serialization error: " ++ s
  | Internal s => lit "Internal error: " ++ s
  | Pty _ => lit "pty_as_user/"
  end.

(** [Result::map]. *)
Definition map_ok {E A B} (f : A -> B) (r : result E A) : result E B := match r with Ok a => Ok (f a) | Err e => Err e end.

Definition quoted (s : string) : str := [c_quote] ++ lit s ++ [c_quote].

Section ws.
Context {U V : Type} `{Au : RemoteAuth} `{At : Attributes} `{Up : !Uploads U} `{W : !World U V}.

Definition with_fs (f : gmap (list str) lnode) (s : State U) : State U :=
  {| fs := f; uploads := s.(uploads); terminals := s.(terminals); audit := s.(audit); typed := s.(typed) |}.
Definition with_terminals (m : Manager) (s : State U) : State U :=
  {| fs := s.(fs); uploads := s.(uploads); terminals := m; audit := s.(audit); typed := s.(typed) |}.
Definition log (e : AuditEntry) (s : State U) : State U :=
  {| fs := s.(fs); uploads := s.(uploads); terminals := s.(terminals); audit := s.(audit) ++ [e]; typed := s.(typed) |}.
Definition type_in (i : str) (b : list byte) (s : State U) : State U :=
  {| fs := s.(fs); uploads := s.(uploads); terminals := s.(terminals); audit := s.(audit); typed := s.(typed) ++ [(i, b)] |}.

(** ** Audit ([cli/audit.rs]) *)

Definition log_session_open (session_id shell : str) (u : option str) : State U -> State U :=
  log {| event := lit "session_open"; user := u; audit_session := Some session_id; details := ShellOf shell |}.
Definition log_session_close (session_id : str) (exit_code : option Z) (u : option str) : State U -> State U :=
  log {| event := lit "session_close"; user := u; audit_session := Some session_id; details := ExitCode exit_code |}.
Definition log_fs_operation (operation path : str) (u : option str) : State U -> State U :=
  log {| event := lit "fs_" ++ operation; user := u; audit_session := None; details := PathOf path |}.

(** ** File requests *)

Definition authz (p : Principal) (op : Operation) : result RemoteError unit :=
  match authorize p op with
  | Ok _ => Ok tt
  | Err e => Err (NotAllowed (show_auth_error e))
  end.

Definition fs_op_for (r : FsRequest) : Operation :=
  match r with
  | List _ _ => FsList
  | Stat _ => FsRead
  | Read _ _ _ => FsRead
  | Write _ _ _ _ => FsWrite
  | Mkdir _ _ => FsWrite
  | Delete _ _ => FsDelete
  | Copy _ _ => FsWrite
  | Move _ _ => FsWrite
  | Search _ _ _ => FsList
  | Upload _ _ _ _ => OpUpload
  | Download _ => OpDownload
  | Archive _ _ => OpDownload
  | Watch _ | Unwatch _ => FsList
  end.

Definition decoded (data : str) : result RemoteError (list byte) :=
  match decode data with
  | Ok b => Ok b
  | Err e => Err (BadRequest (lit "Invalid base64: " ++ e))
  end.

(** An operation that changes files, and its answer. *)
Definition changing {A} (r : result RemoteError A * gmap (list str) lnode) (answer : A -> FsResponse) (s : State U)
  : result RemoteError FsResponse * State U := (map_ok answer r.1, with_fs r.2 s).

Definition process_fs_request (p : Principal) (r : FsRequest) (s : State U) : result RemoteError FsResponse * State U :=
  match authz p (fs_op_for r) with
  | Err e => (Err e, s)
  | Ok _ =>
      match r with
      | List path show_hidden =>
          let s := log_fs_operation (lit "list") path None s in
          (map_ok (Listing path) (list_dir s.(fs) policy path show_hidden), s)
      | Stat path => (map_ok StatOf (stat s.(fs) policy path), s)
      | Read path offset length =>
          let s := log_fs_operation (lit "read") path None s in
          (map_ok (fun '(data, total_size, checksum) => FileContent path (encode data) offset total_size checksum)
             (read_file sha256_hex s.(fs) policy path offset length), s)
      | Write path data _ append =>
          let s := log_fs_operation (lit "write") path None s in
          match decoded data with
          | Err e => (Err e, s)
          | Ok b => changing (write_file s.(fs) policy path b append) (WriteOk path) s
          end
      | Mkdir path recursive =>
          let s := log_fs_operation (lit "mkdir") path None s in
          changing (mkdir s.(fs) policy path recursive) (fun _ => Done (lit "Directory created: " ++ path)) s
      | Delete path recursive =>
          let s := log_fs_operation (lit "delete") path None s in
          changing (delete_entry s.(fs) policy path recursive) (fun _ => Done (lit "Deleted: " ++ path)) s
      | Copy src dst =>
          let s := log_fs_operation (lit "copy") (src ++ lit " -> " ++ dst) None s in
          changing (copy max_nesting s.(fs) policy src dst) (fun _ => Done (lit "Copied " ++ src ++ lit " to " ++ dst)) s
      | Move src dst =>
          let s := log_fs_operation (lit "move") (src ++ lit " -> " ++ dst) None s in
          changing (rename s.(fs) policy src dst) (fun _ => Done (lit "Moved " ++ src ++ lit " to " ++ dst)) s
      | Search path pattern max_results =>
          (map_ok (SearchResults path pattern) (search s.(fs) policy path pattern max_results), s)
      | Upload path chunk_index total_chunks data =>
          match decoded data with
          | Err e => (Err e, s)
          | Ok b =>
              let '(res, (u, f)) := handle_chunk path chunk_index total_chunks b (s.(uploads), s.(fs)) in
              let s := {| fs := f; uploads := u; terminals := s.(terminals); audit := s.(audit); typed := s.(typed) |} in
              match res with
              | Err e => (Err e, s)
              | Ok (is_complete, percent) =>
                  (Ok (Progress (lit "upload") path percent),
                   if is_complete then log_fs_operation (lit "upload_complete") path None s else s)
              end
          end
      | Download path =>
          let s := log_fs_operation (lit "download") path None s in
          (map_ok (fun '(data, total_size, checksum) => FileContent path (encode data) 0 total_size checksum)
             (read_file sha256_hex s.(fs) policy path 0 0), s)
      | Archive paths _ =>
          (map_ok (fun z => let data := zip_bytes z in FileContent (lit "archive.zip") (encode data) 0 (Z.of_nat (length data)) [])
             (create_zip_archive s.(fs) policy paths), s)
      | Watch path | Unwatch path => (Ok (Done (lit "Watch operation on " ++ path)), s)
      end
  end.

Definition handle_fs_message (p : Principal) (payload : V) (s : State U) : FsResponse * State U :=
  match parse_fs payload with
  | Err e => (FsFailed (lit "bad_request") (lit "Invalid FS request: " ++ e), s)
  | Ok r =>
      match process_fs_request p r s with
      | (Ok resp, s') => (resp, s')
      | (Err e, s') => (FsFailed (error_code e) (show_error e), s')
      end
  end.

(** ** Terminal requests *)

Definition cli_op_for (r : CliRequest) : Operation :=
  match r with
  | Open _ => CliOpen
  | Input _ _ => CliInput
  | Resize _ _ _ => CliResize
  | Close _ => CliClose
  | ListSessions => CliOpen
  end.

(** [SessionManager::open], both of its parts and the entry in the log between them. *)
Definition open_session (p : Principal) (r : OpenRequest) (s : State U) : result RemoteError (str * str) * State U :=
  match open_check config 0 r s.(terminals) with
  | Err e => (Err e, s)
  | Ok m =>
      let '(res, m') := open_insert config default_shell base_env s.(fs) (terminal s) 0 (new_id s) (clock s) m in
      match res with
      | Err e => (Err e, with_terminals m' s)
      | Ok (i, shell) => (Ok (i, shell), log_session_open i shell (Some p.(subject)) (with_terminals m' s))
      end
  end.

(** [SessionManager::list_sessions]; the times are those of the clock. *)
Definition list_sessions (s : State U) : list SessionInfo :=
  map (fun '(i, x) => {| info_id := i; info_shell := x.(pty).(shell); info_created := x.(Terminal.created_at);
                         info_activity := x.(last_activity); info_cols := x.(cols); info_rows := x.(rows) |})
    (session_order s.(terminals).(sessions)).

Definition process_cli_request (p : Principal) (r : CliRequest) (s : State U) : result RemoteError CliResponse * State U :=
  match authz p (cli_op_for r) with
  | Err e => (Err e, s)
  | Ok _ =>
      match r with
      | Open o =>
          let '(res, s') := open_session p o s in
          (map_ok (fun '(i, shell) => Opened i shell) res, s')
      | Input session_id data =>
          match decoded data with
          | Err e => (Err e, s)
          | Ok b =>
              let wrote := pty_write s session_id b in
              let '(res, m) := input session_id (clock s) wrote s.(terminals) in
              let s' := with_terminals m s in
              match res with
              | Err e => (Err e, s')
              | Ok _ => (Ok (Sessions []), type_in session_id b s')
              end
          end
      | Resize session_id c rw =>
          let '(res, m) := resize session_id c rw (pty_resize s session_id c rw) s.(terminals) in
          (map_ok (fun _ => Sessions []) res, with_terminals m s)
      | Close session_id =>
          let '(res, m) := close session_id (pty_exit s session_id) s.(terminals) in
          match res with
          | Err e => (Err e, with_terminals m s)
          | Ok code => (Ok (Closed session_id code), log_session_close session_id code (Some p.(subject)) (with_terminals m s))
          end
      | ListSessions => (Ok (Sessions (list_sessions s)), s)
      end
  end.

Definition handle_cli_message (p : Principal) (payload : V) (s : State U) : CliResponse * State U :=
  match parse_cli payload with
  | Err e => (CliFailed (lit "bad_request") (lit "Invalid CLI request: " ++ e), s)
  | Ok r =>
      match process_cli_request p r s with
      | (Ok resp, s') => (resp, s')
      | (Err e, s') => (CliFailed (error_code e) (show_error e), s')
      end
  end.

(** ** The connection *)

Definition handle_text (p : Principal) (t : str) (s : State U) : Reply * State U :=
  match parse_message t with
  | Ok (FsMessage payload) => let '(r, s') := handle_fs_message p payload s in (FsReply r, s')
  | Ok (CliMessage payload) => let '(r, s') := handle_cli_message p payload s in (CliReply r, s')
  | Err e => (FsReply (FsFailed (lit "parse_error") (lit "Invalid message: " ++ e)), s)
  end.

(** The loop; [sent] is what has been sent. *)
Fixpoint serve (p : Principal) (msgs : list Message) (sent : list Reply) (s : State U) : list Reply * State U :=
  match msgs with
  | [] => (sent, s)
  | MText t :: rest =>
      let '(r, s') := handle_text p t s in
      if can_send (sent ++ [r]) then serve p rest (sent ++ [r]) s' else (sent, s')
  | (MClose | MBroken) :: _ => (sent, s)
  | MOther :: rest => serve p rest sent s
  end.

Definition err_frame (code message : str) : Reply := FsReply (FsFailed code message).

(** [first] is what arrives within the five seconds; an error frame is sent if it can be. *)
Definition handle_remote_ws (first : option Message) (msgs : list Message) (s : State U) : list Reply * State U :=
  let refuse message := (if can_send [err_frame (lit "unauthenticated") message] then [err_frame (lit "unauthenticated") message] else [], s) in
  match first with
  | Some (MText t) =>
      match parse_auth t with
      | Ok (type, token) =>
          if bool_decide (type = lit "auth") then
            match authenticate token with
            | Ok p => serve p msgs [] s
            | Err e => refuse (show_auth_error e)
            end
          else refuse (lit "first frame must be {" ++ quoted "type" ++ lit ":" ++ quoted "auth" ++ lit "," ++ quoted "token" ++ lit ":...}")
      | Err _ => refuse (lit "first frame must be {" ++ quoted "type" ++ lit ":" ++ quoted "auth" ++ lit "," ++ quoted "token" ++ lit ":...}")
      end
  | _ => refuse (lit "auth frame required within 5s")
  end.

(** ** What needs authorization *)

Definition grants (p : Principal) (op : Operation) : Prop := authorize p op = Ok tt.

(** The changes a principal may have made. *)
Record allowed_change (p : Principal) (s s' : State U) : Prop := {
  files_granted : s'.(fs) = s.(fs) \/ (grants p FsWrite /\ policy.(allow_write) = true)
                  \/ (grants p FsDelete /\ policy.(allow_delete) = true) \/ grants p OpUpload;
  uploads_granted : s'.(uploads) = s.(uploads) \/ grants p OpUpload;
  typing_granted : s'.(typed) = s.(typed) \/ grants p CliInput;
  opening_granted : dom s'.(terminals).(sessions) ⊆ dom s.(terminals).(sessions) \/ grants p CliOpen;
  closing_granted : dom s.(terminals).(sessions) ⊆ dom s'.(terminals).(sessions) \/ grants p CliClose;
  kept_same : forall i x y, s.(terminals).(sessions) !! i = Some x -> s'.(terminals).(sessions) !! i = Some y ->
    grants p CliOpen
    \/ (y.(pty) = x.(pty) /\ y.(Terminal.created_at) = x.(Terminal.created_at)
        /\ (y.(last_activity) = x.(last_activity) \/ grants p CliInput)
        /\ ((y.(cols) = x.(cols) /\ y.(rows) = x.(rows)) \/ grants p CliResize))
}.





(** The texts of a connection, up to its end. *)
Fixpoint texts (msgs : list Message) : list str :=
  match msgs with
  | MText t :: rest => t :: texts rest
  | MOther :: rest => texts rest
  | _ => []
  end.

#[export] Instance allowed_change_refl p : Reflexive (allowed_change p).
Proof. intros s. split; [by left..|]. intros i x y Hx Hy. simplify_eq. right. by split_and!; auto. Qed.

#[export] Instance allowed_change_trans p : Transitive (allowed_change p).
Proof.
  intros a b c [A1 A2 A3 A4 A5 A6] [B1 B2 B3 B4 B5 B6]. split.
  - destruct B1 as [->|]; auto.
  - destruct B2 as [->|]; auto.
  - destruct B3 as [->|]; auto.
  - destruct B4 as [B4|]; auto. destruct A4 as [A4|]; auto. left. by etrans.
  - destruct B5 as [B5|]; auto. destruct A5 as [A5|]; auto. left. by etrans.
  - intros i x z Hx Hz. destruct B4 as [B4|]; auto.
    assert (is_Some (sessions (terminals b) !! i)) as [y Hy] by (apply elem_of_dom, B4, elem_of_dom; by eexists).
    destruct (A6 i x y Hx Hy) as [|(P1 & P2 & P3 & P4)], (B6 i y z Hy Hz) as [|(Q1 & Q2 & Q3 & Q4)]; auto.
    right. rewrite Q1, P1, Q2, P2. split_and!; [done|done| |].
    + destruct Q3 as [->|]; auto.
    + destruct Q4 as [[-> ->]|]; auto.
Qed.








(** What the operations on sessions do to the ids. *)
Lemma dom_set_session i x m y : sessions m !! i = Some y -> dom (sessions (set_session i x m)) = dom (sessions m).
Proof. intros H. cbn. rewrite dom_insert_L. apply elem_of_dom_2 in H. set_solver. Qed.

Lemma dom_input i now w m : dom (sessions (input i now w m).2) = dom (sessions m).
Proof. unfold input. destruct (sessions m !! i) eqn:E; [by eapply dom_set_session|done]. Qed.

Lemma dom_resize i c r w m : dom (sessions (resize i c r w m).2) = dom (sessions m).
Proof. unfold resize. destruct (sessions m !! i) eqn:E; [by eapply dom_set_session|done]. Qed.

Lemma dom_close i c m : dom (sessions (close i c m).2) ⊆ dom (sessions m).
Proof. unfold close. destruct (sessions m !! i) eqn:E; [|done]. cbn. rewrite dom_delete_L. set_solver. Qed.


Lemma open_check_sessions t r m m' : open_check config t r m = Ok m' -> sessions m' = sessions m.
Proof. unfold open_check. case_match; [done|]. by intros [= <-]. Qed.








(** ** The audit log *)

Definition fs_entry (operation path : str) : AuditEntry :=
  {| event := lit "fs_" ++ operation; user := None; audit_session := None; details := PathOf path |}.

(** The operations that change files, by the name they are logged with. *)
Definition logged_as (r : FsRequest) : option (str * str) :=
  match r with
  | Write x _ _ _ => Some (lit "write", x)
  | Mkdir x _ => Some (lit "mkdir", x)
  | Delete x _ => Some (lit "delete", x)
  | Copy x y => Some (lit "copy", x ++ lit " -> " ++ y)
  | Move x y => Some (lit "move", x ++ lit " -> " ++ y)
  | _ => None
  end.

Lemma fs_logged p r s res s' : process_fs_request p r s = (res, s') ->
  s.(audit) `prefix_of` s'.(audit)
  /\ (s'.(fs) <> s.(fs) -> (exists x i n d, r = Upload x i n d)
        \/ exists op x, logged_as r = Some (op, x) /\ s'.(audit) = s.(audit) ++ [fs_entry op x])
  /\ s'.(terminals) = s.(terminals).
Proof.
  unfold process_fs_request. destruct (authz p (fs_op_for r)) as [[]|e]; [|by intros [= _ <-]].
  destruct r as [x h|x|x o l|x d o a|x b|x b|x y|x y|x q m|x i n d|x|xs f|x|x];
    try (intros [= _ <-]; cbn; by split_and!; [try apply prefix_app_r|intros []|]);
    try (intros [= _ <-]; cbn; split_and!; [by apply prefix_app_r|intros _; right; by eexists _, _|done]).
  - destruct (decoded d) as [b|e]; intros [= _ <-]; cbn; (split; [by apply prefix_app_r|]; split; [|done]); [|done].
    intros. right. by eexists _, _.
  - destruct (decoded d) as [b|e]; [|by intros [= _ <-]]. destruct (handle_chunk x i n b (uploads s, fs s)) as [rs [u f]].
    destruct rs as [[fin pc]|e]; [destruct fin|]; intros [= _ <-]; cbn; (split; [by try apply prefix_app_r|]; split; [|done]); eauto 10.
Qed.

Lemma cli_logged p r s res s' : process_cli_request p r s = (res, s') ->
  s.(audit) `prefix_of` s'.(audit) /\ s'.(fs) = s.(fs)
  /\ (dom s'.(terminals).(sessions) <> dom s.(terminals).(sessions) ->
        exists e, s'.(audit) = s.(audit) ++ [e] /\ e.(user) = Some p.(subject)
        /\ exists i, e.(audit_session) = Some i
        /\ ((e.(event) = lit "session_open" /\ is_Some (s'.(terminals).(sessions) !! i))
            \/ (e.(event) = lit "session_close" /\ s'.(terminals).(sessions) !! i = None))).
Proof.
  unfold process_cli_request. destruct (authz p (cli_op_for r)) as [[]|e]; [|by intros [= _ <-]].
  destruct r as [o|i d|i c rw|i|].
  - unfold open_session. destruct (open_check config 0 o (terminals s)) as [m|e] eqn:Ec; [|by intros [= _ <-]].
    apply open_check_sessions in Ec. unfold open_insert. destruct (opening m !! 0) as [q|]; [|intros [= _ <-]; cbn; by rewrite Ec].
    destruct (open_unlocked _ _ _ _ _ q) as [h|e]; intros [= _ <-]; cbn; [|by rewrite Ec].
    split; [by apply prefix_app_r|]. split; [done|]. intros _. eexists. split; [done|]. split; [done|]. eexists. split; [done|]. left.
    split; [done|]. rewrite lookup_insert_eq. by eexists.
  - destruct (decoded d) as [b|e]; [|by intros [= _ <-]]. pose proof (dom_input i (clock s) (pty_write s i b) (terminals s)) as Hd.
    destruct (input _ _ _ _) as [rs m]. cbn [snd] in Hd. destruct rs as [[]|e]; intros [= _ <-]; cbn; by rewrite Hd.
  - pose proof (dom_resize i c rw (pty_resize s i c rw) (terminals s)) as Hd. destruct (resize _ _ _ _ _) as [rs m]. cbn [snd] in Hd.
    intros [= _ <-]. cbn. by rewrite Hd.
  - unfold close. destruct (sessions (terminals s) !! i) as [x|]; intros [= _ <-]; cbn; [|done].
    split; [by apply prefix_app_r|]. split; [done|]. intros _. eexists. split; [done|]. split; [done|]. eexists. split; [done|]. right.
    split; [done|]. apply lookup_delete_eq.
  - by intros [= _ <-].
Qed.

(** every change of the files that a request other than an upload makes is in the audit log,
    with the operation and the path; and every terminal that is opened or closed is, with the
    shell or the exit code, the id and the subject of the principal.  Nothing is ever taken from
    the log. *)
Theorem changes_logged p t s reply s' :
  handle_text p t s = (reply, s') ->
  s.(audit) `prefix_of` s'.(audit)
  /\ (s'.(fs) <> s.(fs) -> exists v r, parse_message t = Ok (FsMessage v) /\ parse_fs v = Ok r
        /\ ((exists x i n d, r = Upload x i n d)
            \/ exists op x, logged_as r = Some (op, x) /\ s'.(audit) = s.(audit) ++ [fs_entry op x]))
  /\ (dom s'.(terminals).(sessions) <> dom s.(terminals).(sessions) ->
        exists e, s'.(audit) = s.(audit) ++ [e] /\ e.(user) = Some p.(subject)
        /\ exists i, e.(audit_session) = Some i
        /\ ((e.(event) = lit "session_open" /\ is_Some (s'.(terminals).(sessions) !! i))
            \/ (e.(event) = lit "session_close" /\ s'.(terminals).(sessions) !! i = None))).
Proof.
  assert (Hsame : forall s1 : State U, s.(audit) `prefix_of` s1.(audit) -> s1.(fs) = s.(fs) -> dom s1.(terminals).(sessions) = dom s.(terminals).(sessions) ->
    s.(audit) `prefix_of` s1.(audit) /\ (s1.(fs) <> s.(fs) -> exists v r, parse_message t = Ok (FsMessage v) /\ parse_fs v = Ok r
        /\ ((exists x i n d, r = Upload x i n d) \/ exists op x, logged_as r = Some (op, x) /\ s1.(audit) = s.(audit) ++ [fs_entry op x]))
    /\ (dom s1.(terminals).(sessions) <> dom s.(terminals).(sessions) ->
        exists e, s1.(audit) = s.(audit) ++ [e] /\ e.(user) = Some p.(subject)
        /\ exists i, e.(audit_session) = Some i
        /\ ((e.(event) = lit "session_open" /\ is_Some (s1.(terminals).(sessions) !! i))
            \/ (e.(event) = lit "session_close" /\ s1.(terminals).(sessions) !! i = None)))) by done.
  unfold handle_text. destruct (parse_message t) as [[v|v]|e] eqn:Et; [| |intros [= _ <-]; by apply Hsame].
  - unfold handle_fs_message. destruct (parse_fs v) as [r|e] eqn:Ev; [|intros [= _ <-]; by apply Hsame].
    destruct (process_fs_request p r s) as [res s1] eqn:E. apply fs_logged in E as (H1 & H2 & H3).
    intros H. assert (s1 = s') as <- by (destruct res; by simplify_eq).
    split; [done|]. split; [|by rewrite H3]. intros Hne. exists v, r. split; [done|]. split; [done|]. by apply H2.
  - unfold handle_cli_message. destruct (parse_cli v) as [r|e] eqn:Ev; [|intros [= _ <-]; by apply Hsame].
    destruct (process_cli_request p r s) as [res s1] eqn:E. apply cli_logged in E as (H1 & H2 & H3).
    intros H. assert (s1 = s') as <- by (destruct res; by simplify_eq). split; [done|]. by rewrite H2.
Qed.

(** ** What goes wrong *)

(** A session belongs to no one: whoever may type at all can type into any of them. *)
Theorem any_session_typed p i d b x s :
  grants p CliInput -> decode d = Ok b -> s.(terminals).(sessions) !! i = Some x -> pty_write s i b = Ok tt ->
  exists s', process_cli_request p (Input i d) s = (Ok (Sessions []), s') /\ s'.(typed) = s.(typed) ++ [(i, b)].
Proof.
  intros Hg Hd Hx Hw. unfold process_cli_request, authz. cbn [cli_op_for]. unfold grants in Hg. rewrite Hg. unfold decoded. rewrite Hd.
  unfold input. rewrite Hx, Hw. by eexists.
Qed.

(** The offset of a write is not looked at. *)
Theorem write_offset_ignored p x d o a s : process_fs_request p (Write x d o a) s = process_fs_request p (Write x d 0 a) s.
Proof. done. Qed.

(** Nor is the format of an archive; and what it sends is not in the audit log. *)
Theorem archive_unlogged p xs f s :
  process_fs_request p (Archive xs f) s = process_fs_request p (Archive xs Zip) s /\ (process_fs_request p (Archive xs f) s).2 = s.
Proof. unfold process_fs_request. cbn [fs_op_for]. by destruct (authz p OpDownload). Qed.

(** Watching a path does nothing, and says that it does. *)
Theorem watch_does_nothing p x s : grants p FsList -> process_fs_request p (Watch x) s = (Ok (Done (lit "Watch operation on " ++ x)), s).
Proof. intros Hg. unfold process_fs_request, authz. cbn [fs_op_for]. unfold grants in Hg. by rewrite Hg. Qed.

(** The log of a request for files does not say who made it. *)
Theorem file_entries_anonymous p r s res s' e :
  process_fs_request p r s = (res, s') -> e ∈ s'.(audit) -> e ∉ s.(audit) -> e.(user) = None.
Proof.
  intros H Hin Hout. assert (Ha : s'.(audit) = s.(audit) \/ exists op x, s'.(audit) = s.(audit) ++ [fs_entry op x]).
  { revert H. unfold process_fs_request. destruct (authz p (fs_op_for r)) as [[]|er]; [|intros [= _ <-]; by left].
    destruct r; try (destruct (decoded _)); try (destruct (handle_chunk _ _ _ _ _) as [[[[] ?]|] []]); intros [= _ <-];
      try (by left); right; by eexists _, _. }
  destruct Ha as [Ha|(op & x & Ha)]; rewrite Ha in Hin; [done|]. apply elem_of_app in Hin as [Hin|Hin]; [done|].
  by apply list_elem_of_singleton in Hin as ->.
Qed.

Definition is_output (r : Reply) : bool := match r with CliReply (Output _ _) => true | _ => false end.

(** What a terminal prints is never sent. *)
Theorem output_never_sent first msgs s replies s' :
  handle_remote_ws first msgs s = (replies, s') -> forallb (fun r => negb (is_output r)) replies = true.
Proof.
  assert (Ht : forall p t s r s1, handle_text p t s = (r, s1) -> is_output r = false).
  { intros p t s0 r s1. unfold handle_text, handle_fs_message, handle_cli_message.
    destruct (parse_message t) as [[v|v]|e]; [| |by intros [= <- _]].
    - destruct (parse_fs v); [|by intros [= <- _]]. destruct (process_fs_request _ _ _) as [[]]; by intros [= <- _].
    - destruct (parse_cli v) as [q|]; [|by intros [= <- _]]. destruct (process_cli_request p q s0) as [[x|] s2] eqn:E; [|by intros [= <- _]].
      intros [= <- _]. revert E. unfold process_cli_request. destruct (authz p (cli_op_for q)); [|done]. destruct q as [o|i d|i c rw|i|].
      + destruct (open_session p o s0) as [[[]|]]; by intros [= <- _].
      + destruct (decoded d); [|done]. destruct (input _ _ _ _) as [[]]; by intros [= <- _].
      + destruct (resize _ _ _ _ _) as [[]]; by intros [= <- _].
      + destruct (close _ _ _) as [[]]; by intros [= <- _].
      + by intros [= <- _]. }
  assert (Hs : forall p msgs sent s, forallb (fun r => negb (is_output r)) sent = true ->
    forallb (fun r => negb (is_output r)) (serve p msgs sent s).1 = true).
  { intros p. induction msgs0 as [|m l IH]; intros sent s0 H; cbn [serve]; [done|]. destruct m as [t| | |]; try done; [|by apply IH].
    destruct (handle_text p t s0) as [r s1] eqn:E. apply Ht in E. case_match; [|done]. apply IH. rewrite forallb_app, H. cbn. by rewrite E. }
  unfold handle_remote_ws, err_frame. intros H.
  destruct first as [[t| | |]|]; try (injection H as <- _; by destruct (can_send _)).
  destruct (parse_auth t) as [[type token]|]; [|injection H as <- _; by destruct (can_send _)].
  destruct (bool_decide _); [|injection H as <- _; by destruct (can_send _)].
  destruct (authenticate token) as [p|]; [|injection H as <- _; by destruct (can_send _)].
  specialize (Hs p msgs [] s eq_refl). by rewrite H in Hs.
Qed.

End ws.

(** ** An upload manager, and a connection *)

Module RemoteWsExamples.

(** [Transfer], whose files have no links: the links of the tree are left as they are. *)
Definition plain_nodes (f : gmap (list str) lnode) : gmap (list str) node :=
  omap (fun n => match n with LFile b => Some (File b) | LDir => Some Dir | LLink _ => None end) f.
Definition links (f : gmap (list str) lnode) : gmap (list str) lnode :=
  omap (fun n => match n with LLink t => Some (LLink t) | _ => None end) f.

Definition transfer_uploads (pol : FsPolicy) (tmp : list str) (new_id : UploadManager -> str) (now : Z) : Uploads UploadManager := {|
  handle_chunk p i n b uf :=
    let '(u, f) := uf in
    let disk := {| nodes := plain_nodes f; fates := u.(Transfer.disk).(fates) |} in
    let '(r, u') := Transfer.handle_chunk pol tmp map_to_list (new_id u) now p i n b {| Transfer.uploads := u.(Transfer.uploads); Transfer.disk := disk |} in
    (r, (u', links f ∪ embed u'.(Transfer.disk).(nodes)))
|}.

#[local] Instance attributes : Attributes := {|
  modified_at p := None; Explorer.created_at p := None; is_readonly p := false; unix_mode p := Some 420; len_of p := 0;
  dir_order l := l; walk_order l := l; to_lowercase := to_ascii_lowercase
|}.

#[local] Instance uploads_of_transfer : Uploads UploadManager := transfer_uploads RemoteFs.policy (at_root ["tmp"]%string) (fun _ => lit "u") 0.

(** The token "ann" is that of a principal who may do everything, "bob" that of one who may only list. *)
Definition named (n : str) : Principal := {| subject := n; display_name := None; roles := [] |}.
#[local] Instance two_users : RemoteAuth := {|
  authenticate t := if existsb (fun n => bool_decide (t = lit n)) ["ann"; "bob"]%string then Ok (named t) else Err (Unauthenticated (lit "unknown"));
  authorize p op := match op with
                    | FsList => Ok tt
                    | _ => if bool_decide (p.(subject) = lit "ann") then Ok tt else Err (Forbidden (lit "no"))
                    end
|}.

Definition V := (FsRequest + CliRequest)%type.

(** The texts "w" and "l" are a write and a listing; a login is its token. *)
#[local] Instance world : World UploadManager V := {|
  policy := RemoteFs.policy; config := default_config;
  parse_auth t := Ok (lit "auth", t);
  parse_message t := if bool_decide (t = lit "w") then Ok (FsMessage (inl (Write (lit "g") (lit "data") 0 false)))
                     else if bool_decide (t = lit "l") then Ok (FsMessage (inl (List (lit "d") false)))
                     else if bool_decide (t = lit "o") then Ok (CliMessage (inr (Open ask)))
                     else Err (lit "unknown");
  parse_fs v := match v with inl r => Ok r | inr _ => Err (lit "unknown") end;
  parse_cli v := match v with inr r => Ok r | inl _ => Err (lit "unknown") end;
  encode b := map b2z b; decode t := Ok (map z2b t); sha256_hex b := []; zip_bytes z := [];
  default_shell := lit "/bin/bash"; base_env := ∅; terminal s := can_start; max_nesting := 100;
  new_id s := lit "s1"; clock s := 0; session_order := map_to_list;
  pty_write s i b := Ok tt; pty_resize s i c r := Ok tt; pty_exit s i := Some 0; can_send r := true
|}.

Definition start : State UploadManager :=
  {| fs := box; uploads := {| Transfer.uploads := ∅; Transfer.disk := {| nodes := ∅; fates := [] |} |}; terminals := no_sessions; audit := []; typed := [] |}.

Definition session (token : string) (texts : list string) : list Reply * State UploadManager :=
  handle_remote_ws (Some (MText (lit token))) (map (fun t => MText (lit t)) texts) start.

(** What the first may do is done; the second is refused. *)
Example writes_answered :
  (session "ann" ["w"; "l"]%string).1 = [FsReply (WriteOk (lit "g") 4); FsReply (Listing (lit "d") (default [] (ok (list_dir box RemoteFs.policy (lit "d") false))))]
  /\ (session "bob" ["w"; "o"]%string).1
     = [FsReply (FsFailed (lit "not_allowed") (lit "Operation not allowed: authorization denied: no"));
        CliReply (CliFailed (lit "not_allowed") (lit "Operation not allowed: authorization denied: no"))].
Proof. split; vm_compute; reflexivity. Qed.


(** Opening a terminal is logged. *)
Lemma changes_logged_witness :
  let s' := (handle_text (named (lit "ann")) (lit "o") start).2 in
  exists e, s'.(audit) = [e] /\ e.(user) = Some (lit "ann").
Proof.
  destruct (changes_logged (named (lit "ann")) (lit "o") start _ _ (surjective_pairing _)) as (_ & _ & H).
  assert (Hne : dom (handle_text (named (lit "ann")) (lit "o") start).2.(terminals).(sessions) <> dom start.(terminals).(sessions)).
  { vm_compute. discriminate. }
  destruct (H Hne) as (e & H1 & H2 & _). exists e. split; [exact H1|exact H2].
Defined.

End RemoteWsExamples.
