(* ===== verification/Attestation.v ===== *)
(** * Android key attestation ([runesh-mdm/src/attestation.rs])

    The parser of the [KeyDescription] extension.  The [der] crate is a parameter ([Der]): its
    header, integer and octet string decoders, with the documented laws that they read back
    what DER writes ([DerLaws]); [Strict] below is such a decoder.  The writer of the
    extension, against which the parser is proved, follows the ASN.1 of the source's header.
    The object identifier of the extension is only a constant. *)
From S2P Require Import Prelude Str.

#[local] Open Scope Z_scope.

(** ** DER *)

Definition TAG_INTEGER : byte := x02.
Definition TAG_OCTET_STRING : byte := x04.
Definition TAG_ENUMERATED : byte := x0a.
Definition TAG_SEQUENCE : byte := x30.

(** The length octets of DER, up to the largest length of the crate, [2^28 - 1]. *)
Definition der_length (n : Z) : list byte :=
  if n <? 128 then to_be 1 n
  else if n <? 256 then x81 :: to_be 1 n
  else if n <? 65536 then x82 :: to_be 2 n
  else if n <? 16777216 then x83 :: to_be 3 n
  else x84 :: to_be 4 n.
Definition MAX_LENGTH : Z := 2 ^ 28.

Definition tlv (tag : byte) (body : list byte) : list byte := tag :: der_length (Z.of_nat (length body)) ++ body.

(** [z] in [n] bytes of two's complement. *)
Definition signed_be (n : nat) (z : Z) : list byte := to_be n (z mod 256 ^ Z.of_nat n).
Definition fits (n : nat) (z : Z) : Prop := - 2 ^ (8 * Z.of_nat n - 1) <= z < 2 ^ (8 * Z.of_nat n - 1).
(** As few bytes as possible, as DER wants it. *)
Definition minimal (n : nat) (z : Z) : Prop := (1 <= n)%nat /\ fits n z /\ (n = 1%nat \/ ~ fits (n - 1) z).

(** The tag and the length of a header, an [i64] and the bytes of an octet string, each with what
    follows. *)
Class Der := {
  decode_header : list byte -> result str (byte * Z * list byte);
  decode_i64 : list byte -> result str (Z * list byte);
  decode_octets : list byte -> result str (list byte * list byte)
}.

Class DerLaws (D : Der) : Prop := {
  header_read tag n rest : tag ∈ [TAG_INTEGER; TAG_OCTET_STRING; TAG_ENUMERATED; TAG_SEQUENCE] -> 0 <= n < MAX_LENGTH ->
    decode_header (tag :: der_length n ++ rest) = Ok (tag, n, rest);
  i64_read n z rest : minimal n z -> (n <= 8)%nat -> decode_i64 (tlv TAG_INTEGER (signed_be n z) ++ rest) = Ok (z, rest);
  octets_read b rest : Z.of_nat (length b) < MAX_LENGTH -> decode_octets (tlv TAG_OCTET_STRING b ++ rest) = Ok (b, rest)
}.

(** ** The parser *)

Inductive SecurityLevel : Type :=
  | Software
  | TrustedEnvironment
  | StrongBox
  | UnknownLevel (v : Z).

Definition from_enum (v : Z) : SecurityLevel :=
  if v =? 0 then Software
  else if v =? 1 then TrustedEnvironment
  else if v =? 2 then StrongBox
  else UnknownLevel v.

Definition is_hardware_backed (l : SecurityLevel) : bool :=
  match l with TrustedEnvironment | StrongBox => true | _ => false end.

Record KeyDescription := {
  attestation_version : Z;
  attestation_security_level : SecurityLevel;
  keymint_version : Z;
  keymint_security_level : SecurityLevel;
  attestation_challenge : list byte;
  unique_id : list byte;
  software_enforced : list byte;
  hardware_enforced : list byte
}.

Inductive AttestationError : Type :=
  | DerError (s : str)
  | UnexpectedTag (expected got : str)
  | IntegerOverflow
  | TrailingBytes.

(** [i64]: the shift drops what does not fit. *)
Definition wrap_i64 (z : Z) : Z := (z + 2 ^ 63) mod 2 ^ 64 - 2 ^ 63.
Definition push_byte (value : Z) (b : byte) : Z := Z.lor (wrap_i64 (Z.shiftl value 8)) (b2z b).

Section parser.
Context `{D : Der}.

Definition read_slice (n : Z) (bs : list byte) : result str (list byte * list byte) :=
  if Z.of_nat (length bs) <? n then Err (lit "incomplete") else Ok (take (Z.to_nat n) bs, drop (Z.to_nat n) bs).

(** [Reader::sequence]: the body is read by [f], which must use all of it. *)
Definition sequence {A} (f : list byte -> result str (A * list byte)) (bs : list byte) : result str (A * list byte) :=
  '(tag, n, rest) ← decode_header bs;
  if negb (bool_decide (tag = TAG_SEQUENCE)) then Err (lit "unexpected tag")
  else
    '(inner, rest) ← read_slice n rest;
    '(a, unread) ← f inner;
    if bool_decide (unread = []) then Ok (a, rest) else Err (lit "trailing data").

Definition read_i64 (bs : list byte) : result str (Z * list byte) := decode_i64 bs.

Definition read_enum (bs : list byte) : result str (Z * list byte) :=
  '(tag, n, rest) ← decode_header bs;
  if negb (bool_decide (tag = TAG_ENUMERATED)) then Err (lit "non-canonical tag")
  else
    '(bytes, rest) ← read_slice n rest;
    match bytes with
    | [] => Ok (0, rest)
    | b :: _ =>
        let value := if Z.testbit (b2z b) 7 then -1 else 0 in
        Ok (foldl push_byte value bytes, rest)
    end.

(** [HeaderEncode::encode_to_vec]. *)
Definition encode_to_vec (tag : byte) (len : Z) : list byte :=
  [tag] ++ (if len <? 128 then [z2b len]
            else if len <? 256 then [x81; z2b len]
            else if len <? 65536 then [x82; z2b (Z.shiftr len 8); z2b len]
            else [x83; z2b (Z.shiftr len 16); z2b (Z.shiftr len 8); z2b len]).

Definition read_raw_sequence (bs : list byte) : result str (list byte * list byte) :=
  '(tag, n, rest) ← decode_header bs;
  if negb (bool_decide (tag = TAG_SEQUENCE)) then Err (lit "unexpected tag")
  else
    '(body, rest) ← read_slice n rest;
    Ok (encode_to_vec tag n ++ body, rest).

Definition read_fields (bs : list byte) : result str (KeyDescription * list byte) :=
  '(av, bs) ← read_i64 bs;
  '(al, bs) ← read_enum bs;
  '(kv, bs) ← read_i64 bs;
  '(kl, bs) ← read_enum bs;
  '(challenge, bs) ← decode_octets bs;
  '(uid, bs) ← decode_octets bs;
  '(sw, bs) ← read_raw_sequence bs;
  '(hw, bs) ← read_raw_sequence bs;
  Ok ({| attestation_version := av; attestation_security_level := from_enum al; keymint_version := kv;
         keymint_security_level := from_enum kl; attestation_challenge := challenge; unique_id := uid;
         software_enforced := sw; hardware_enforced := hw |}, bs).

(** [SliceReader::new] refuses an input that is longer than the crate can read. *)
Definition parse_key_description (der_bytes : list byte) : result AttestationError KeyDescription :=
  if Z.of_nat (length der_bytes) >=? MAX_LENGTH then Err (DerError (lit "overflow"))
  else
    match sequence read_fields der_bytes with
    | Err e => Err (DerError e)
    | Ok (result, rest) => if bool_decide (rest = []) then Ok result else Err TrailingBytes
    end.

End parser.

(** ** What a device writes *)

(** The fields of the extension: versions and levels as numbers in [n] bytes, and the two lists by
    their bodies. *)
Record Extension := {
  x_version : nat * Z;
  x_level : nat * Z;
  x_keymint_version : nat * Z;
  x_keymint_level : nat * Z;
  x_challenge : list byte;
  x_unique_id : list byte;
  x_software : list byte;
  x_hardware : list byte
}.

Definition int (v : nat * Z) : list byte := tlv TAG_INTEGER (signed_be v.1 v.2).
Definition enumerated (v : nat * Z) : list byte := tlv TAG_ENUMERATED (signed_be v.1 v.2).

Definition write_fields (x : Extension) : list byte :=
  int x.(x_version) ++ enumerated x.(x_level) ++ int x.(x_keymint_version) ++ enumerated x.(x_keymint_level)
  ++ tlv TAG_OCTET_STRING x.(x_challenge) ++ tlv TAG_OCTET_STRING x.(x_unique_id)
  ++ tlv TAG_SEQUENCE x.(x_software) ++ tlv TAG_SEQUENCE x.(x_hardware).
Definition write_extension (x : Extension) : list byte := tlv TAG_SEQUENCE (write_fields x).

(** The security levels of the schema of the extension. *)
Definition schema_levels : list (Z * SecurityLevel) := [(0, Software); (1, TrustedEnvironment); (2, StrongBox)].
Definition level_of (v : Z) : SecurityLevel :=
  match filter (fun e => e.1 = v) schema_levels with
  | (_, l) :: _ => l
  | [] => UnknownLevel v
  end.

Definition describes (x : Extension) : KeyDescription :=
  {| attestation_version := x.(x_version).2; attestation_security_level := level_of x.(x_level).2;
     keymint_version := x.(x_keymint_version).2; keymint_security_level := level_of x.(x_keymint_level).2;
     attestation_challenge := x.(x_challenge); unique_id := x.(x_unique_id);
     software_enforced := tlv TAG_SEQUENCE x.(x_software); hardware_enforced := tlv TAG_SEQUENCE x.(x_hardware) |}.

(** Numbers as DER writes them, and an extension of less than 16 MiB. *)
Definition well_formed (x : Extension) : Prop :=
  (forall v, v ∈ [x.(x_version); x.(x_level); x.(x_keymint_version); x.(x_keymint_level)] -> minimal v.1 v.2 /\ (v.1 <= 8)%nat)
  /\ Z.of_nat (length (write_extension x)) < 16777216.

(** ** Lemmas *)

Lemma from_enum_spec v : from_enum v = level_of v.
Proof.
  unfold from_enum, level_of, schema_levels. rewrite !filter_cons. cbn [fst].
  destruct (Z.eqb_spec v 0) as [->|H0]; [done|]. destruct (Z.eqb_spec v 1) as [->|H1]; [done|]. destruct (Z.eqb_spec v 2) as [->|H2]; [done|].
  by rewrite !decide_False by done.
Qed.

Lemma take_drop_app {A} (a b : list A) : take (length a) (a ++ b) = a /\ drop (length a) (a ++ b) = b.
Proof. split; [by rewrite take_app_length|by rewrite drop_app_length]. Qed.

Lemma read_slice_app a b : read_slice (Z.of_nat (length a)) (a ++ b) = Ok (a, b).
Proof.
  unfold read_slice. rewrite length_app. destruct (Z.ltb_spec (Z.of_nat (length a + length b)) (Z.of_nat (length a))); [lia|].
  rewrite Nat2Z.id. destruct (take_drop_app a b) as [-> ->]. done.
Qed.

Lemma z2b_mod z : z2b (z mod 256) = z2b z.
Proof. unfold z2b. by rewrite Z.mod_mod by lia. Qed.

(** The header the parser writes is that of DER, for what fits in three bytes. *)
Lemma encode_der tag n : 0 <= n < 16777216 -> encode_to_vec tag n = tag :: der_length n.
Proof.
  intros Hn. unfold encode_to_vec, der_length. cbn [app]. f_equal. rewrite !Z.shiftr_div_pow2 by lia.
  destruct (Z.ltb_spec n 128); [cbn; by rewrite Z.div_1_r|]. destruct (Z.ltb_spec n 256); [cbn; by rewrite Z.div_1_r|].
  destruct (Z.ltb_spec n 65536); [cbn; by rewrite Z.div_1_r|]. destruct (Z.ltb_spec n 16777216); [cbn; by rewrite Z.div_1_r|lia].
Qed.

Lemma wrap_i64_small z : - 2 ^ 63 <= z < 2 ^ 63 -> wrap_i64 z = z.
Proof. intros H. unfold wrap_i64. rewrite Z.mod_small; lia. Qed.

Lemma wrap_i64_add z k : wrap_i64 (z + k * 2 ^ 64) = wrap_i64 z.
Proof. unfold wrap_i64. replace (z + k * 2 ^ 64 + 2 ^ 63) with (z + 2 ^ 63 + k * 2 ^ 64) by lia. by rewrite Z.mod_add by lia. Qed.

Lemma wrap_i64_eq z : wrap_i64 z = z + (- ((z + 2 ^ 63) / 2 ^ 64)) * 2 ^ 64.
Proof. unfold wrap_i64. rewrite Z.mod_eq by lia. lia. Qed.

Lemma wrap_i64_step v b : wrap_i64 (wrap_i64 v * 256 + b) = wrap_i64 (v * 256 + b).
Proof.
  rewrite (wrap_i64_eq v). set (q := - ((v + 2 ^ 63) / 2 ^ 64)).
  replace ((v + q * 2 ^ 64) * 256 + b) with (v * 256 + b + (q * 256) * 2 ^ 64) by lia. apply wrap_i64_add.
Qed.

Lemma lor_low k b : 0 <= b < 256 -> Z.lor (k * 256) b = k * 256 + b.
Proof.
  intros Hb. rewrite <- Z.add_lor_land. replace (Z.land (k * 256) b) with 0; [lia|]. symmetry.
  apply Z.bits_inj'. intros i Hi. rewrite Z.land_spec, Z.bits_0. change 256 with (2 ^ 8).
  destruct (Z.ltb_spec i 8); [by rewrite Z.mul_pow2_bits_low|].
  rewrite (Z.bits_above_log2 b), andb_false_r; [done|lia|]. destruct (decide (b = 0)) as [->|]; [cbn; lia|].
  apply Z.log2_lt_pow2; [lia|]. assert (2 ^ 8 <= 2 ^ i) by (apply Z.pow_le_mono_r; lia). lia.
Qed.

Lemma push_byte_spec v b : push_byte v b = wrap_i64 (v * 256 + b2z b).
Proof.
  unfold push_byte. rewrite Z.shiftl_mul_pow2 by lia. change (2 ^ 8) with 256. pose proof (b2z_range b).
  rewrite (wrap_i64_eq (v * 256)), (wrap_i64_eq (v * 256 + b2z b)).
  replace (v * 256 + - ((v * 256 + 2 ^ 63) / 2 ^ 64) * 2 ^ 64) with ((v + - ((v * 256 + 2 ^ 63) / 2 ^ 64) * 2 ^ 56) * 256) by lia.
  rewrite lor_low by done. replace ((v * 256 + b2z b + 2 ^ 63) / 2 ^ 64) with ((v * 256 + 2 ^ 63) / 2 ^ 64); [lia|].
  change (2 ^ 64) with (256 * 2 ^ 56). rewrite <- !Z.div_div by lia. f_equal.
  replace (v * 256 + b2z b + 2 ^ 63) with (b2z b + (v + 2 ^ 55) * 256) by lia. replace (v * 256 + 2 ^ 63) with (0 + (v + 2 ^ 55) * 256) by lia.
  rewrite !Z.div_add by lia. rewrite (Z.div_small (b2z b)) by lia. done.
Qed.

(** Reading bytes into an [i64] is reading the number and dropping what does not fit. *)
Lemma push_bytes bs : forall v, foldl push_byte (wrap_i64 v) bs = wrap_i64 (from_be_acc v bs).
Proof.
  induction bs as [|b bs IH]; intros v; cbn [foldl from_be_acc]; [done|]. by rewrite push_byte_spec, wrap_i64_step, IH.
Qed.

Lemma pow256 n : 256 ^ Z.of_nat n = 2 ^ (8 * Z.of_nat n).
Proof. rewrite Z.pow_mul_r by lia. done. Qed.

(** The sign of two's complement. *)
Lemma signed_sign n z : fits (S n) z -> exists b r, signed_be (S n) z = b :: r /\ Z.testbit (b2z b) 7 = (z <? 0).
Proof.
  intros [H1 H2]. unfold signed_be. cbn [to_be]. eexists _, _. split; [done|]. rewrite b2z_z2b.
  set (P := 256 ^ Z.of_nat n). assert (HP : 256 ^ Z.of_nat (S n) = 256 * P) by (unfold P; rewrite Nat2Z.inj_succ, Z.pow_succ_r; lia).
  assert (HP0 : 0 < P) by (unfold P; apply Z.pow_pos_nonneg; lia).
  assert (Hh : 2 ^ (8 * Z.of_nat (S n) - 1) = 128 * P).
  { unfold P. rewrite pow256. replace (8 * Z.of_nat (S n) - 1) with (7 + 8 * Z.of_nat n) by lia. rewrite Z.pow_add_r by lia. done. }
  rewrite Hh in *. rewrite HP. set (m := z mod (256 * P)).
  assert (Hm : m = if z <? 0 then z + 256 * P else z).
  { unfold m. destruct (Z.ltb_spec z 0); [|by apply Z.mod_small; lia].
    symmetry. apply Z.mod_unique with (-1); lia. }
  assert (Hd : 0 <= m / P < 256).
  { split; [apply Z.div_pos; destruct (Z.ltb_spec z 0); lia|]. apply Z.div_lt_upper_bound; [lia|]. destruct (Z.ltb_spec z 0); lia. }
  rewrite (Z.mod_small (m / P)) by done. apply eq_true_iff_eq. rewrite Z.testbit_true, Z.ltb_lt by lia. change (2 ^ 7) with 128.
  destruct (Z.ltb_spec z 0) as [Hz|Hz].
  - assert (128 <= m / P) by (apply Z.div_le_lower_bound; lia). assert (Hq : m / P / 128 = 1) by (symmetry; apply Z.div_unique with (m / P - 128); lia).
    rewrite Hq. done.
  - assert (m / P < 128) by (apply Z.div_lt_upper_bound; lia). rewrite (Z.div_small (m / P)) by lia. split; [discriminate|lia].
Qed.

Lemma length_signed n z : length (signed_be n z) = n.
Proof. apply length_to_be. Qed.

Definition signed_value (bytes : list byte) : Z :=
  match bytes with [] => 0 | b :: _ => foldl push_byte (if Z.testbit (b2z b) 7 then -1 else 0) bytes end.

Lemma signed_value_be n z : (1 <= n <= 8)%nat -> fits n z -> signed_value (signed_be n z) = z.
Proof.
  intros Hn Hz. destruct n as [|n]; [lia|]. destruct (signed_sign n z Hz) as (b & r & E & Hs). unfold signed_value. rewrite E, Hs, <- E.
  replace (if z <? 0 then -1 else 0) with (wrap_i64 (if z <? 0 then -1 else 0)) by (by destruct (z <? 0)).
  rewrite push_bytes. unfold signed_be. rewrite from_be_acc_to_be, Z.mod_mod by (apply Z.pow_nonzero; lia).
  destruct Hz as [H1 H2]. rewrite pow256.
  assert (Hb : 2 ^ (8 * Z.of_nat (S n)) = 2 * 2 ^ (8 * Z.of_nat (S n) - 1)) by (rewrite <- Z.pow_succ_r by lia; f_equal; lia).
  assert (Hle : 2 ^ (8 * Z.of_nat (S n) - 1) <= 2 ^ 63) by (apply Z.pow_le_mono_r; lia).
  transitivity (wrap_i64 z); [f_equal|by apply wrap_i64_small; lia]. destruct (Z.ltb_spec z 0).
  - rewrite <- (Z.mod_unique z (2 ^ (8 * Z.of_nat (S n))) (-1) (z + 2 ^ (8 * Z.of_nat (S n)))) by lia. lia.
  - rewrite Z.mod_small by lia. lia.
Qed.

Section laws.
Context `{D : Der} {L : DerLaws D}.

Lemma read_enum_spec n z rest : (1 <= n <= 8)%nat -> fits n z -> read_enum (enumerated (n, z) ++ rest) = Ok (z, rest).
Proof.
  intros Hn Hz. unfold read_enum, enumerated, tlv. cbn [fst snd]. rewrite length_signed, <- app_comm_cons, <- app_assoc.
  rewrite header_read; [|by repeat constructor|unfold MAX_LENGTH; lia]. cbn [mbind result_bind]. rewrite bool_decide_true by done. cbn [negb].
  rewrite <- (length_signed n z) at 1. rewrite read_slice_app. cbn [mbind result_bind].
  pose proof (signed_value_be n z Hn Hz) as Hv. unfold signed_value in Hv. destruct (signed_be n z); [by rewrite Hv|by rewrite Hv].
Qed.

Lemma read_raw_spec body rest : Z.of_nat (length body) < 16777216 ->
  read_raw_sequence (tlv TAG_SEQUENCE body ++ rest) = Ok (tlv TAG_SEQUENCE body, rest).
Proof.
  intros Hb. unfold read_raw_sequence, tlv. rewrite <- app_comm_cons, <- app_assoc.
  rewrite header_read; [|by repeat constructor|unfold MAX_LENGTH; lia]. cbn [mbind result_bind]. rewrite bool_decide_true by done. cbn [negb].
  rewrite read_slice_app. cbn [mbind result_bind]. by rewrite encode_der by lia.
Qed.

Lemma length_tlv tag body : (length body < length (tlv tag body))%nat.
Proof. unfold tlv. cbn. rewrite length_app. lia. Qed.

Lemma read_fields_spec x rest : well_formed x -> read_fields (write_fields x ++ rest) = Ok (describes x, rest).
Proof.
  intros [Hv Hlen].
  assert (Hin : forall v, v ∈ [x.(x_version); x.(x_level); x.(x_keymint_version); x.(x_keymint_level)] -> (1 <= v.1 <= 8)%nat /\ fits v.1 v.2 /\ minimal v.1 v.2).
  { intros v H. apply Hv in H as [(Hm1 & Hm2 & Hm3) H8]. done. }
  assert (Hsz : forall b, b ∈ [x.(x_challenge); x.(x_unique_id); x.(x_software); x.(x_hardware)] -> Z.of_nat (length b) < 16777216).
  { intros b Hb. unfold write_extension in Hlen. pose proof (length_tlv TAG_SEQUENCE (write_fields x)). unfold write_fields in *.
    rewrite !length_app in *. pose proof (length_tlv TAG_OCTET_STRING (x_challenge x)). pose proof (length_tlv TAG_OCTET_STRING (x_unique_id x)).
    pose proof (length_tlv TAG_SEQUENCE (x_software x)). pose proof (length_tlv TAG_SEQUENCE (x_hardware x)).
    repeat (apply elem_of_cons in Hb as [->|Hb]; [lia|]). by apply elem_of_nil in Hb. }
  unfold read_fields, write_fields, read_i64, int. rewrite <- !app_assoc.
  rewrite i64_read; [|apply Hin; by repeat constructor..]. cbn [mbind result_bind].
  rewrite (surjective_pairing (x_level x)), read_enum_spec; [|apply (Hin (x_level x)); by repeat constructor..]. cbn [mbind result_bind].
  rewrite i64_read; [|apply Hin; by repeat constructor..]. cbn [mbind result_bind].
  rewrite (surjective_pairing (x_keymint_level x)), read_enum_spec; [|apply (Hin (x_keymint_level x)); by repeat constructor..]. cbn [mbind result_bind].
  rewrite octets_read by (unfold MAX_LENGTH; pose proof (Hsz (x_challenge x) ltac:(by repeat constructor)); lia). cbn [mbind result_bind].
  rewrite octets_read by (unfold MAX_LENGTH; pose proof (Hsz (x_unique_id x) ltac:(by repeat constructor)); lia). cbn [mbind result_bind].
  rewrite read_raw_spec by (apply Hsz; by repeat constructor). cbn [mbind result_bind].
  rewrite read_raw_spec by (apply Hsz; by repeat constructor). cbn [mbind result_bind]. rewrite !from_enum_spec. by destruct x as [? [] ? [] ? ? ? ?].
Qed.

(** C15: The parser reads back every key description that is written in DER, below 16 MiB: the
    versions, the security levels (0 is software, 1 the trusted environment, 2 the strong box, any
    other number is kept as unknown), the challenge and the unique id, and the two lists of
    authorizations as the very bytes they were written in.  A level read is hardware exactly when
    it was written as 1 or 2.  With anything behind it, up to the longest input the DER library
    takes, the input is refused. *)
Theorem key_description_read x rest : well_formed x ->
  parse_key_description (write_extension x) = Ok (describes x)
  /\ (is_hardware_backed (describes x).(attestation_security_level) = true <-> x.(x_level).2 = 1 \/ x.(x_level).2 = 2)
  /\ (rest <> [] -> Z.of_nat (length (write_extension x ++ rest)) < MAX_LENGTH ->
      parse_key_description (write_extension x ++ rest) = Err TrailingBytes).
Proof.
  intros Hx. assert (Hseq : forall r, sequence read_fields (write_extension x ++ r) = Ok (describes x, r)).
  { intros r. unfold sequence, write_extension, tlv. rewrite <- app_comm_cons, <- app_assoc.
    rewrite header_read; [|by repeat constructor|].
    2:{ destruct Hx as [_ Hl]. pose proof (length_tlv TAG_SEQUENCE (write_fields x)). unfold write_extension in Hl. unfold MAX_LENGTH. lia. }
    cbn [mbind result_bind]. rewrite bool_decide_true by done. cbn [negb]. rewrite read_slice_app. cbn [mbind result_bind].
    pose proof (read_fields_spec x [] Hx) as Hf. rewrite app_nil_r in Hf. rewrite Hf. cbn [mbind result_bind]. by rewrite bool_decide_true. }
  split_and!.
  - unfold parse_key_description. destruct (Z.geb_spec (Z.of_nat (length (write_extension x))) MAX_LENGTH) as [H|_].
    { destruct Hx as [_ Hl]. unfold MAX_LENGTH in H. lia. }
    rewrite <- (app_nil_r (write_extension x)), Hseq. by rewrite bool_decide_true.
  - cbn [describes attestation_security_level]. rewrite <- from_enum_spec. unfold from_enum.
    destruct (Z.eqb_spec (x_level x).2 0); [|destruct (Z.eqb_spec (x_level x).2 1); [|destruct (Z.eqb_spec (x_level x).2 2)]]; cbn [is_hardware_backed]; naive_solver lia.
  - intros Hr Hl. unfold parse_key_description.
    destruct (Z.geb_spec (Z.of_nat (length (write_extension x ++ rest))) MAX_LENGTH) as [H|_]; [lia|].
    rewrite Hseq. by rewrite bool_decide_false.
Qed.

(** ** What goes wrong *)

(** A level of nine bytes is cut to the last eight: [2^64 + 1], which is no level, is read as the
    trusted environment.  [IntegerOverflow] is never returned. *)
Theorem long_level_cut rest :
  exists bs, bs = tlv TAG_ENUMERATED (signed_be 9 (2 ^ 64 + 1)) /\ read_enum (bs ++ rest) = Ok (1, rest) /\ is_hardware_backed (from_enum 1) = true.
Proof.
  eexists. split; [done|]. split; [|done]. unfold read_enum, tlv. rewrite length_signed, <- app_comm_cons, <- app_assoc.
  rewrite header_read; [|by repeat constructor|unfold MAX_LENGTH; lia]. cbn [mbind result_bind]. rewrite bool_decide_true by done. cbn [negb].
  change (Z.of_nat 9) with (Z.of_nat (length (signed_be 9 (2 ^ 64 + 1)))). rewrite read_slice_app. reflexivity.
Qed.

(** A level without bytes is read as software. *)
Theorem empty_level_read rest : read_enum (tlv TAG_ENUMERATED [] ++ rest) = Ok (0, rest).
Proof.
  unfold read_enum, tlv. rewrite <- app_comm_cons, <- app_assoc. rewrite header_read; [|by repeat constructor|unfold MAX_LENGTH; cbn; lia].
  cbn [mbind result_bind]. rewrite bool_decide_true by done. cbn [negb]. rewrite read_slice_app. done.
Qed.

(** Of a sequence of 16 MiB or more the header is written with the low three bytes of its length. *)
Theorem long_header_cut : encode_to_vec TAG_SEQUENCE 16777216 = [TAG_SEQUENCE; x83; x00; x00; x00]
  /\ der_length 16777216 = [x84; x01; x00; x00; x00].
Proof. split; vm_compute; reflexivity. Qed.

End laws.

(** ** A decoder *)

Module Strict.

(** At least [least], in [n] bytes. *)
Definition long_length (n : nat) (least : Z) (bs : list byte) : result str (Z * list byte) :=
  let len := from_be (take n bs) in
  if bool_decide (length bs < n)%nat || (len <? least) || (MAX_LENGTH <=? len) then Err (lit "length") else Ok (len, drop n bs).

Definition length_octets (bs : list byte) : result str (Z * list byte) :=
  match bs with
  | [] => Err (lit "incomplete")
  | b :: r =>
      if b2z b <? 128 then Ok (b2z b, r)
      else if b2z b =? 129 then long_length 1 128 r
      else if b2z b =? 130 then long_length 2 256 r
      else if b2z b =? 131 then long_length 3 65536 r
      else if b2z b =? 132 then long_length 4 16777216 r
      else Err (lit "length")
  end.

Definition header (bs : list byte) : result str (byte * Z * list byte) :=
  match bs with
  | [] => Err (lit "incomplete")
  | tag :: r => '(n, rest) ← length_octets r; Ok (tag, n, rest)
  end.

Definition body_of (tag : byte) (bs : list byte) : result str (list byte * list byte) :=
  '(t, n, rest) ← header bs;
  if bool_decide (t = tag) then read_slice n rest else Err (lit "unexpected tag").

Definition fits_in (n : Z) (z : Z) : bool := (- 2 ^ (8 * n - 1) <=? z) && (z <? 2 ^ (8 * n - 1)).

Definition i64 (bs : list byte) : result str (Z * list byte) :=
  '(b, rest) ← body_of TAG_INTEGER bs;
  let n := Z.of_nat (length b) in
  let z := signed_value b in
  if (n =? 0) || (8 <? n) || ((1 <? n) && fits_in (n - 1) z) then Err (lit "value") else Ok (z, rest).

#[global] Instance strict : Der := {| decode_header := header; decode_i64 := i64; decode_octets := body_of TAG_OCTET_STRING |}.

Lemma long_length_read n least len rest : least <= len -> 0 <= len < 256 ^ Z.of_nat n -> len < MAX_LENGTH ->
  long_length n least (to_be n len ++ rest) = Ok (len, rest).
Proof.
  intros H1 H2 H3. unfold long_length. rewrite length_app, length_to_be.
  rewrite (take_app_length' _ _ n) by (by rewrite length_to_be). rewrite (drop_app_length' _ _ n) by (by rewrite length_to_be).
  rewrite from_be_to_be by done. rewrite bool_decide_false by lia. destruct (Z.ltb_spec len least); [lia|]. destruct (Z.leb_spec MAX_LENGTH len); [lia|]. done.
Qed.

Lemma length_read n rest : 0 <= n < MAX_LENGTH -> length_octets (der_length n ++ rest) = Ok (n, rest).
Proof.
  intros Hn. unfold der_length. destruct (Z.ltb_spec n 128).
  { cbn. rewrite Z.div_1_r, b2z_z2b, Z.mod_small by lia. destruct (Z.ltb_spec n 128); [done|lia]. }
  assert (256 ^ Z.of_nat 4 = 4294967296 /\ MAX_LENGTH = 268435456) as [H4 HM] by done.
  destruct (Z.ltb_spec n 256); [|destruct (Z.ltb_spec n 65536); [|destruct (Z.ltb_spec n 16777216)]]; rewrite <- app_comm_cons;
    unfold length_octets; cbn [b2z Z.ltb Z.eqb]; change (b2z x81) with 129; change (b2z x82) with 130; change (b2z x83) with 131; change (b2z x84) with 132;
    cbn [Z.ltb Z.eqb Z.compare Pos.compare Pos.compare_cont Pos.eqb]; apply long_length_read; lia.
Qed.

Lemma body_read tag b rest : Z.of_nat (length b) < MAX_LENGTH -> body_of tag (tlv tag b ++ rest) = Ok (b, rest).
Proof.
  intros H. unfold body_of, header, tlv. rewrite <- app_comm_cons, <- app_assoc, length_read by lia. cbn [mbind result_bind].
  rewrite bool_decide_true by done. apply read_slice_app.
Qed.

#[global] Instance strict_laws : DerLaws strict.
Proof.
  split.
  - intros tag n rest _ Hn. cbn [decode_header strict header]. rewrite length_read by done. done.
  - intros n z rest (H1 & Hf & Hmin) H8. cbn [decode_i64 strict]. unfold i64. rewrite body_read.
    2:{ rewrite length_signed. unfold MAX_LENGTH. lia. }
    cbn [mbind result_bind]. rewrite length_signed, signed_value_be by done.
    destruct (Z.eqb_spec (Z.of_nat n) 0); [lia|]. destruct (Z.ltb_spec 8 (Z.of_nat n)); [lia|]. cbn [orb].
    destruct (Z.ltb_spec 1 (Z.of_nat n)); [|done]. cbn [andb]. destruct (fits_in (Z.of_nat n - 1) z) eqn:E; [|done].
    exfalso. destruct Hmin as [->|Hmin]; [lia|]. apply Hmin. unfold fits. unfold fits_in in E. rewrite Nat2Z.inj_sub by lia. lia.
  - intros b rest H. cbn [decode_octets strict]. by apply body_read.
Qed.

(** An extension of a phone with a key in its trusted environment. *)
Definition phone : Extension :=
  {| x_version := (2%nat, 200); x_level := (1%nat, 1); x_keymint_version := (2%nat, 200); x_keymint_level := (1%nat, 2);
     x_challenge := map z2b (lit "nonce"); x_unique_id := []; x_software := []; x_hardware := [x05; x00] |}.

Lemma phone_well_formed : well_formed phone.
Proof.
  split; [|vm_compute; reflexivity]. intros v Hv. unfold minimal, fits.
  repeat (apply elem_of_cons in Hv as [->|Hv]; [cbn; split; [|lia]; split; [lia|]; split; [lia|]; (by left) || (right; lia)|]). by apply elem_of_nil in Hv.
Qed.

Lemma key_description_read_witness : parse_key_description (write_extension phone) = Ok (describes phone).
Proof. exact (proj1 (key_description_read phone [] phone_well_formed)). Defined.

Example phone_bytes : length (write_extension phone) = 31%nat /\ is_hardware_backed (describes phone).(attestation_security_level) = true.
Proof. split; vm_compute; reflexivity. Qed.

End Strict.
